(* ===== verification/_CoqProject ===== *)
-Q . S2P
Prelude.v
Marks.v
SelectTimer.v
SelectTimerFacts.v
PollTable.v
SelectTimerLoop.v
SelectTimerPoll.v
SelectTimerProps.v
Codes.v
AvailController.v
AcFacts.v
AcSystem.v
AcProps.v
LogConfig.v
LogConfigProps.v
LogService.v
LogFacts.v
LogProps.v
TraceConfig.v
Config.v
ReplicatedList.v
OamComponent.v
OamProps.v
TraceConfigProps.v
TraceService.v
TraceProps.v
Lifecycle.v
LifecycleProps.v
CmTypes.v
NtfData.v
NtfValues.v
NtfValueFacts.v
NtfValueProps.v
NtfInfo.v
NtfInfoProps.v
NtfPm.v
NtfPmProps.v
NtfHeader.v
NtfHeaderProps.v
NtfAlarms.v
NtfReader.v
NtfAlarmProps.v
NtfCallbackProps.v
NtfReaderProps.v
NtfService.v
NtfServiceProps.v
StdMap.v
EventProducer.v
CmData.v
CmProducer.v
CmCache.v
CmHandler.v
EventProducerFacts.v
CmMemory.v
CmProducerFacts.v
CmCacheFacts.v
CmBuildFacts.v
CmSystem.v
CmProps.v
NtfCmValues.v
NtfCm.v
NtfCmFacts.v
NtfCmSystem.v
NtfCmProps.v
TxDeleted.v
TxDeletedProps.v
TxData.v
TxCommands.v
TxBridge.v
TxSpi.v
TxFacts.v
TxSpiFacts.v
TxSystem.v
TxBounds.v
TxProps.v
TxValues.v
TxModified.v
TxCacheProps.v
TxAccess.v
TxAccessProps.v
