(* ===== verification/Prelude.v ===== *)
(** * The COM support agent: a verified model of its C core

    COM SA connects the middleware COM (through the SPIs of the MAF) with the
    services of OpenSAF: the availability framework (AMF), the log service
    (LOG), the notification service (NTF) and the information model (IMM).  The
    library is loaded by MAF, registers itself with the AMF, and then lives in a
    few threads: the thread of the AMF call-backs, the notification thread, the threads
    that open log streams, the reader of old alarms, and those of COM.

    This development models the C files under [src/src/generic/], and the C++ files that carry
    events of the configuration to COM, and proves what they promise.  It is a library of files; the first part of a name is its file.

    ** How C is modelled

    [Prelude] has the monad [M E S A]: a program maps a state [S] and the history of
    its external calls to an outcome ([Ret a], or [Exit why] when the process
    dies: a failed assertion, [abort], [err_quit], an access to memory that is
    not live, undefined behaviour, a thread that waits for itself) and the new
    state and history.  Code that is not modelled (libc, OpenSAF, the MAF, the other C++
    files) is an external call of a signature [E]; an [environment] answers
    every call as a function of the whole history, and nothing is assumed of it
    but by the hypotheses of a theorem.  [sat] is total and [post]
    partial correctness; [Marks] abstracts a history to the calls that matter
    ([emits], [silent], [calm]).  Heaps are finite maps from addresses to
    structures; [malloc] gives some address that is free.  Machine integers are
    written with their wrap-around ([wrap_u], [wrap_s]).  Tracing macros are left
    out, and so are log lines that nothing depends on.

    ** The parts

    - Timers and the poll loop, [ac/SelectTimer.c].  [SelectTimer] has the timer
      lists of a handle, the descriptor table and [poll_execute];
      [SelectTimerFacts], [PollTable], [SelectTimerLoop], [SelectTimerPoll] relate them to
      lists and maps; [SelectTimerProps] has the properties: [rescedule] is ordered insertion
      by expiry, starting and stopping a timer, a cycle calls
      exactly the due timers in order and then the ready descriptors, the
      handle stays in order whatever call-backs do, destroying it frees every timer once, the
      bounds of the timeout given to [poll].  [PollIface] (a type class) is what
      the other parts use of the table.
    - Return codes and retries, [Codes]: [SaAisErrorT], [MafReturnT],
      [maf_coremw_rc] and the retry macros.
    - The availability controller, [ac/ComSAAc.c].  [AvailController]: AMF call-backs,
      events handed to COM, its answers, the event queue with its pipe, the loop of
      the AMF thread.  [AcSystem] is the interleaved system as a step relation,
      [AcFacts] its invariants, [AcProps] the properties: each invocation of the AMF
      is answered once or still owed by one live event, no wake-up is lost, every
      reachable step is memory safe, events are handled in order, and what a change of role does.
    - Configuration, [ac/ComSAAc.c]: [Config], lookup in the XML tree (the tree
      libxml2 builds is an input).
    - The log service, [log/ComSALogService.c].  [LogConfig] and [LogConfigProps]: the
      option lines of the log files; [LogService], [LogFacts], [LogProps]: five streams
      opened by threads, filtered by severity, written, closed, and configured in the IMM.
    - The trace service, [trace/ComSATraceService.c] and [trace/SaInternalTrace.c].
      [TraceConfig], [TraceConfigProps]: trace groups and subsystems;
      [TraceService], [TraceProps]: trace calls, streams, reloading.
    - The replicated list component, [rlist/ComSARlist.c]: [ReplicatedList].
    - The OAM component, [ntf/ComSAOamComponent.c]: [OamComponent], [OamProps].
    - Loading and unloading, [ac/ComSAAc.c]: [Lifecycle] runs the models of the
      controller, log, trace, replicated list and OAM components as parts of one
      program, each with its own state and calls ([zoom], [embed]); [LifecycleProps].
    - Notifications, [ntf/ComSANtf.c].  [NtfData] has the notifications of OpenSAF,
      the structures for COM and the memory of the component.
      - [NtfValues], with [NtfValueFacts] and [NtfValueProps]: the list of notifications lent
        to COM refines a plain list; every block is given back once, nothing else is
        touched (ownership as a frame: [repr], [rest], [drop]).
      - [NtfInfo], [NtfHeader], with [NtfInfoProps], [NtfHeaderProps]: the
        conversion to the structure for COM says what the notification says and owns what it refers
        to.
      - [NtfPm], [NtfPmProps]: threshold alarms looked up in the IMM; handles are given back on
        every path.
      - [NtfAlarms], [NtfAlarmProps]: the call-back of OpenSAF and the queue in which
        alarms wait while old ones are read.  The lock sections of the two threads in
        any order refine a first-in first-out buffer, but for one order, which loses an
        alarm.  [NtfCallbackProps]: what COM reads after an alarm has come in, and that an alarm
        which COM sends comes back saying the same.
      - [NtfReader], [NtfReaderProps]: the reader of old alarms gives its filters and sessions
        back and tries a bounded number of times.
      - [NtfService], [NtfServiceProps]: subscriptions of COM are in step with those at
        OpenSAF; closing finishes or leaves a lock behind.
    - Events of the configuration, [ntf/CmEventHandler.cc], [ntf/CmEventProducer.cc] and the
      template [incl/EventProducer.h].  [CmTypes] and [CmData] have the containers and events of the SPI,
      [StdMap] the ordered maps of the caches.
      - [EventProducer], [EventProducerFacts]: consumers, their filters, reference counts, over an
        interface ([EventKind], a type class) that the kind of event implements; [CmProducer],
        [CmProducerFacts] implement it: filters are regular expressions, an event owns blocks.
      - [CmCache], [CmHandler], with [CmCacheFacts], [CmBuildFacts]: the cache of
        bundles, objects, attributes and elements, its accounting of memory, the merging of what
        waits for a name, the event made of a bundle.
      - [CmMemory] has triples of ownership ([moves]), [CmSystem] the system of handler, producer, client and
        consumers as a step relation with a ledger of who owns which block; [CmProps] the properties: no step
        touches a freed block, every block has one owner and every count is right, an event says
        what the cache holds, naming merges, and the first attribute beyond the limit is fatal.
        [CmSystem] also sums up which marks its calls leave.
      - [NtfCmValues], [NtfCm], with [NtfCmFacts] and [NtfCmSystem] ([converts], triples over the
        owners of [CmMemory]): the part of [ntf/ComSANtf.c] that reads a notification of the IMM and
        feeds the cache, with the helpers on names of [motransaction/OamSACache.cc] and
        [utils/saname_utils.cc]; [NtfCmProps]: whatever well-formed notification comes, the
        handler stays in order and nothing is freed twice; the lock and the notification are given
        back; the attributes that COM wants go to the bundle that the notification names; a [float]
        keeps its value; which names lose their last part.

    - Transactions, [motransaction/].  [StdMap] has trees of names too; [TxDeleted]
      the tree in which the cache of a transaction ([OamSACache.cc]) notes the
      deleted objects; [TxDeletedProps]: which objects count as deleted, what a deletion and a later
      creation do, which objects IMM is told to delete.  [TxData] and [TxCommands]: the context of a
      transaction ([incl/TxContext.h], [TxContext.cc]) and the commands to IMM ([ImmCmd.cc]).
      [TxBridge]: what [OamSAImmBridge.cc] and [OamSACache.cc] do with one context: ownership of
      objects, messages for COM, [OamSAPrepare], the release of owners.  [TxSpi]: the contexts
      ([OamSATransactionRepository.cc]) and the calls of the MAF (join, prepare, validate, commit, abort,
      finish).  The lists of the cache are seen through the class [CacheLists].  [TxFacts], [TxSpiFacts]: which
      calls on a CCB a program makes; [TxSystem]: all transactions, in any order; [TxBounds]:
      how often IMM is asked.  [TxProps]: a CCB gets what the cache holds, is applied once, and the
      contexts stay in step with the transactions; a second prepare does nothing.
      [TxValues]: the values of attributes between COM, cache and IMM ([OamSADataClasses.cc] and the
      conversion in [OamSATranslator.cc]); [TxModified]: the tree of created and modified objects, and with the deleted ones the
      cache, which implements [CacheLists] ([cache_lists]).  [TxCacheProps]: what COM sets is read back, also
      from what goes to IMM; the objects that the cache gives are its new and altered ones, each after those below
      it, and [OamSAPrepare] creates the new ones parents first; removing an object removes what is below it; children are enumerated.
      [TxAccess]: what COM asks of [OamSAImmBridge.cc]: to create, delete and look for objects, to set and
      read attributes, also structs, on top of the cache and the commands to IMM; [TxAccessProps]: a transaction sees its own changes.

    ** Bounds and fuel

    Loops over a list in memory have the size of its heap as fuel, and the
    theorems show that it is enough.  Bounded retries are structural.  The dispatch
    loop of [poll_execute] and the delay loop have a measure, proved sufficient in
    [SelectTimerLoop] and [SelectTimerPoll].  Loops that end when a service says so are
    bounded by a parameter of the model: [objects] (the search for a
    measurement reader), [notifications] (one reading of old alarms), the fuel of the
    threads that open streams (a service that accepts in the end, and pauses that are not cut short
    for ever, are then hypotheses), the turns of the endless loop of the AMF thread.  The recursion of [readOldAlarms] has depth
    [OAM_SA_NTF_READER_MAX_RETRIES], which [reader_bounded] shows to be enough.  The retries of
    the transactions ([mRetries], [IMM_ABORT_RETRIES_COUNT]) are structural, and [commit_is_bounded] says what they
    come to.

    ** Not modelled

    [CmSystem] leaves open what its client does, within the terms of [polite]; [NtfCmSystem] shows that the conversion of a
    notification is such a client.  The call-back of [NtfAlarms] and [NtfReader] has it as
    a parameter.  In the C++ parts: the translation of names
    of managed objects and what IMM says about classes ([OamSATranslator.cc] and the repository of models, arguments of
    [TxModified]), actions and iterators in
    [OamSAImmBridge.cc], the memory of the values that the cache lends; a call on a transaction is one step ([contextMapMutex]
    is left out).  The object implementer proxy, replicated list on IMM
    ([ComSARlist_imm.cc]), the producer of log events, PM proxy, consumers that subscribe while an event is
    delivered (the lock of the producer is held then),
    and the utilities, of which the C files use a few as external calls.  Trace point
    providers ([comsa_tp.c], [trace.c]) are generated or pure output.  Real
    parallelism inside a lock section and the memory model are left out: steps
    of threads interleave at lock sections.  The wrappers of [SelectTimer.c] around a default handle and
    its test program are left out. *)
From Stdlib Require Import ZArith Lia.
From stdpp Require Export base gmap list strings sorting.

#[export] Set Default Goal Selector "!".
#[export] Set Warnings "-clear-no-such-hyp".

(** ** Outcomes

    A C call either returns or takes the process down.  [Exit] carries the
    reason; the state at that point is kept by the monad below. *)
Inductive exit_reason :=
| ErrQuit        (** [err_quit], i.e. [_exit(1)] *)
| Aborted        (** [abort()] *)
| AssertFailed   (** a failing [assert] *)
| BadPointer     (** dereference of a null, freed or foreign pointer, or an
                     access outside an array *)
| Killed         (** [SIGKILL] *)
| Undefined      (** a shift by the width of the type or more, or the
                     use of memory that was never written *)
| Blocked        (** a thread waits for a lock that it holds itself *)
| OutOfFuel.     (** the loop bound of the model was reached *)

Inductive outcome (A : Type) :=
| Ret (a : A)
| Exit (why : exit_reason).
Arguments Ret {A} _.
Arguments Exit {A} _.

(** ** External calls

    Code outside [src/] (libc, OpenSAF, the MAF portal, user call-backs) is
    seen through a signature [E]: [E R] is the type of the calls that answer
    with an [R].  The environment answers a call as a function of the whole
    history, so nothing is assumed of it unless a theorem says so. *)
Inductive event (E : Type -> Type) : Type :=
| Ev {R : Type} (e : E R) (r : R).
Arguments Ev {E R} _ _.

Definition environment (E : Type -> Type) : Type :=
  forall R : Type, list (event E) -> E R -> R.

(** ** The effect monad

    State [S], the history of external calls, and process exit. *)
Definition M (E : Type -> Type) (S A : Type) : Type :=
  S * list (event E) -> outcome A * (S * list (event E)).

#[export] Instance M_ret E S : MRet (M E S) := fun A a c => (Ret a, c).
#[export] Instance M_bind E S : MBind (M E S) := fun A B k m c =>
  match m c with
  | (Ret a, c') => k a c'
  | (Exit w, c') => (Exit w, c')
  end.

Section ops.
Context {E : Type -> Type} {S : Type}.

Definition get : M E S S := fun c => (Ret (fst c), c).
Definition put (s : S) : M E S () := fun c => (Ret (), (s, snd c)).
Definition gets {A} (f : S -> A) : M E S A := fun c => (Ret (f (fst c)), c).
Definition modify (f : S -> S) : M E S () := fun c => (Ret (), (f (fst c), snd c)).
Definition exit {A} (w : exit_reason) : M E S A := fun c => (Exit w, c).
Definition assert_c (b : bool) : M E S () := if b then mret () else exit AssertFailed.
Definition of_option {A} (w : exit_reason) (o : option A) : M E S A :=
  match o with Some a => mret a | None => exit w end.
Definition call (env : environment E) {R} (e : E R) : M E S R := fun c =>
  let r := env R (snd c) e in (Ret r, (fst c, snd c ++ [Ev e r])).
Definition when (b : bool) (m : M E S ()) : M E S () := if b then m else mret ().

(** [sat m c Q]: started in [c], [m] returns, in a configuration and with
    a value that satisfy [Q] (total correctness: neither an exit nor a
    loop that runs out of fuel). *)
Definition sat {A} (m : M E S A) (c : S * list (event E))
    (Q : A -> S * list (event E) -> Prop) : Prop :=
  exists a c', m c = (Ret a, c') /\ Q a c'.

Lemma sat_ret {A} (a : A) c (Q : _ -> _ -> Prop) : Q a c -> sat (mret a) c Q.
Proof. intros; exists a, c; done. Qed.

Lemma sat_bind {A B} (m : M E S A) (k : A -> M E S B) c Q :
  sat m c (fun a c' => sat (k a) c' Q) -> sat (m ≫= k) c Q.
Proof.
  intros (a & c' & Hm & b & c'' & Hk & HQ). exists b, c''. split; [|done].
  unfold mbind, M_bind. by rewrite Hm.
Qed.

Lemma sat_mono {A} (m : M E S A) c (P Q : A -> S * list (event E) -> Prop) :
  sat m c P -> (forall a c', P a c' -> Q a c') -> sat m c Q.
Proof. intros (a & c' & ? & ?) ?; exists a, c'; eauto. Qed.

Lemma sat_get c (Q : _ -> _ -> Prop) : Q (fst c) c -> sat get c Q.
Proof. intros; by exists (fst c), c. Qed.
Lemma sat_gets {A} (f : S -> A) c (Q : _ -> _ -> Prop) : Q (f (fst c)) c -> sat (gets f) c Q.
Proof. intros; by exists (f (fst c)), c. Qed.
Lemma sat_put s c (Q : _ -> _ -> Prop) : Q () (s, snd c) -> sat (put s) c Q.
Proof. intros; by exists (), (s, snd c). Qed.
Lemma sat_modify f c (Q : _ -> _ -> Prop) : Q () (f (fst c), snd c) -> sat (modify f) c Q.
Proof. intros; by exists (), (f (fst c), snd c). Qed.
Lemma sat_assert b c (Q : _ -> _ -> Prop) : b = true -> Q () c -> sat (assert_c b) c Q.
Proof. intros ->; by apply sat_ret. Qed.
Lemma sat_of_option {A} w (o : option A) a c (Q : _ -> _ -> Prop) :
  o = Some a -> Q a c -> sat (of_option w o) c Q.
Proof. intros ->; by apply sat_ret. Qed.
Lemma sat_when (b : bool) m c (Q : _ -> _ -> Prop) :
  (b = true -> sat m c Q) -> (b = false -> Q () c) -> sat (when b m) c Q.
Proof. destruct b; intros H1 H2; [by apply H1|by apply sat_ret, H2]. Qed.
Lemma sat_call env {R} (e : E R) c (Q : _ -> _ -> Prop) :
  (forall r, env R (snd c) e = r -> Q r (fst c, snd c ++ [Ev e r])) -> sat (call env e) c Q.
Proof. intros H; eexists _, _; split; [done|]; by apply H. Qed.

(** [post m c Q X]: partial correctness; [Q] of every normal result, [X] of
    every exit. *)
Definition post {A} (m : M E S A) (c : S * list (event E))
    (Q : A -> S * list (event E) -> Prop) (X : exit_reason -> Prop) : Prop :=
  match m c with
  | (Ret a, c') => Q a c'
  | (Exit w, _) => X w
  end.

Lemma post_bind {A B} (m : M E S A) (k : A -> M E S B) c Q X :
  post m c (fun a c' => post (k a) c' Q X) X -> post (m ≫= k) c Q X.
Proof. unfold post, mbind, M_bind. by destruct (m c) as [[a|w] c']. Qed.

Lemma post_mono {A} (m : M E S A) c (P Q : A -> S * list (event E) -> Prop) (X Y : exit_reason -> Prop) :
  post m c P X -> (forall a c', P a c' -> Q a c') -> (forall w, X w -> Y w) -> post m c Q Y.
Proof. unfold post. destruct (m c) as [[a|w] c']; eauto. Qed.

Lemma sat_post {A} (m : M E S A) c Q X : sat m c Q -> post m c Q X.
Proof. intros (a & c' & Hm & HQ). unfold post. by rewrite Hm. Qed.

Lemma post_sat {A} (m : M E S A) c Q : post m c Q (fun _ => False) -> sat m c Q.
Proof. unfold post, sat. destruct (m c) as [[a|w] c'] eqn:Em; [eauto 10|done]. Qed.

(** Programs that continue in the same way. *)
Lemma bind_same {A B} (m : M E S A) (k k' : A -> M E S B) c (Q : A -> S * list (event E) -> Prop) :
  post m c Q (fun _ => True) -> (forall a c', Q a c' -> k a c' = k' a c') -> (m ≫= k) c = (m ≫= k') c.
Proof. unfold post, mbind, M_bind. destruct (m c) as [[a|w] c']; eauto. Qed.

Lemma bind_first {A B} (m m' : M E S A) (k : A -> M E S B) c : m c = m' c -> (m ≫= k) c = (m' ≫= k) c.
Proof. unfold mbind, M_bind. by intros ->. Qed.

Lemma post_exit {A} w c (Q : A -> _ -> Prop) (X : exit_reason -> Prop) : X w -> post (exit w) c Q X.
Proof. done. Qed.

Lemma sat_intro {A} (m : M E S A) c a c' Q : m c = (Ret a, c') -> Q a c' -> sat m c Q.
Proof. intros; by exists a, c'. Qed.
End ops.

Create HintDb sat discriminated.
#[export] Hint Resolve sat_ret sat_get sat_gets sat_put sat_modify : sat.

(** One step of symbolic execution of a program under [sat]. *)
Ltac sat_step :=
  lazymatch goal with
  | |- sat (mbind _ _) _ _ => apply sat_bind
  | |- sat (mret _) _ _ => apply sat_ret
  | |- sat get _ _ => apply sat_get
  | |- sat (gets _) _ _ => apply sat_gets
  | |- sat (put _) _ _ => apply sat_put
  | |- sat (modify _) _ _ => apply sat_modify
  | |- sat (assert_c _) _ _ => apply sat_assert
  | |- sat (call _ _) _ _ => apply sat_call; intros
  end; cbn [fst snd].
Ltac sat_steps := repeat sat_step.

(** The same for [post]: a step that is not one of the primitives is left to
    the lemma about it. *)
Ltac post_step :=
  lazymatch goal with
  | |- post (mbind _ _) _ _ _ => apply post_bind
  | |- post (mret _) _ _ _ => apply sat_post, sat_ret
  | |- post get _ _ _ => apply sat_post, sat_get
  | |- post (gets _) _ _ _ => apply sat_post, sat_gets
  | |- post (put _) _ _ _ => apply sat_post, sat_put
  | |- post (modify _) _ _ _ => apply sat_post, sat_modify
  | |- post (call _ _) _ _ _ => apply sat_post, sat_call; intros
  | |- post (exit _) _ _ _ => apply post_exit
  end; cbn [fst snd].

(** ** A component inside a larger state *)
Definition zoom {E S T A} (get : T -> S) (put : S -> T -> T) (m : M E S A) : M E T A := fun c =>
  match m (get c.1, c.2) with (o, (s, tr)) => (o, (put s c.1, tr)) end.

Lemma sat_zoom {E S T A} (g : T -> S) (p : S -> T -> T) (m : M E S A) t tr Q :
  sat m (g t, tr) (fun a c' => Q a (p c'.1 t, c'.2)) -> sat (zoom g p m) (t, tr) Q.
Proof. intros (a & [s tr'] & Hm & HQ). exists a, (p s t, tr'). unfold zoom. cbn. by rewrite Hm. Qed.

Lemma post_zoom {E S T A} (g : T -> S) (p : S -> T -> T) (m : M E S A) t tr Q X :
  post m (g t, tr) (fun a c' => Q a (p c'.1 t, c'.2)) X -> post (zoom g p m) (t, tr) Q X.
Proof. unfold post, zoom. cbn. by destruct (m (g t, tr)) as [[a|w] [s tr']]. Qed.

(** ** A component inside a larger program

    [embed inj env m]: the program [m] of a component with signature [E], run in a
    program with signature [F]; every call is answered by the larger
    environment, which has seen the whole history. *)
Section embed.
Context {E F : Type -> Type} (inj : forall R, E R -> F R).

Definition map_event (e : event E) : event F := match e with Ev c r => Ev (inj _ c) r end.

Definition embed {S A} (env : environment F) (m : environment E -> M E S A) : M F S A := fun c =>
  match m (fun R tr e => env R (c.2 ++ map map_event tr) (inj R e)) (c.1, []) with
  | (o, (s, tr)) => (o, (s, c.2 ++ map map_event tr))
  end.

Lemma post_embed {S A} (env : environment F) (m : environment E -> M E S A) s tr Q X :
  (forall env', post (m env') (s, []) (fun a c' => Q a (c'.1, tr ++ map map_event c'.2)) X) ->
  post (embed env m) (s, tr) Q X.
Proof.
  intros H. unfold embed, post. cbn [fst snd]. specialize (H (fun R tr' e => env R (tr ++ map map_event tr') (inj R e))).
  unfold post in H. destruct (m _ (s, [])) as [[a|w] [s' tr']]; exact H.
Qed.
End embed.

(** ** Machine integers *)
Definition wrap_u (w : Z) (z : Z) : Z := (z mod 2 ^ w)%Z.
Definition wrap_s (w : Z) (z : Z) : Z :=
  let u := wrap_u w z in if (u <? 2 ^ (w - 1))%Z then u else (u - 2 ^ w)%Z.

Lemma wrap_s_id w z : (0 < w)%Z -> (- 2 ^ (w - 1) <= z < 2 ^ (w - 1))%Z -> wrap_s w z = z.
Proof.
  intros Hw Hz. unfold wrap_s, wrap_u.
  assert (Hp : (2 ^ w = 2 * 2 ^ (w - 1))%Z)
    by (rewrite <- Z.pow_succ_r by lia; f_equal; lia).
  destruct (decide (0 <= z)%Z).
  - rewrite Z.mod_small by lia. destruct (Z.ltb_spec z (2 ^ (w - 1))); lia.
  - replace (z mod 2 ^ w)%Z with (z + 2 ^ w)%Z
      by (apply Z.mod_unique_pos with (q := (-1)%Z); lia).
    destruct (Z.ltb_spec (z + 2 ^ w) (2 ^ (w - 1))); lia.
Qed.

(** ** Linked lists in a heap

    [lseg nxt core h hd l tl]: from [hd], following [nxt], the nodes of [l]
    (address and payload) are met in order and then [tl]. *)
Abbreviation ptr := nat.

Section ends.
Context {C : Type}.
Implicit Types (l : list (ptr * C)) (prev : option ptr).

Definition head_ptr l : option ptr :=
  match l with (q, _) :: _ => Some q | [] => None end.
(** The last address of [l], or [prev] when there is none. *)
Definition last_ptr l prev : option ptr :=
  match last l with Some (q, _) => Some q | None => prev end.

Lemma last_ptr_snoc l q c prev : last_ptr (l ++ [(q, c)]) prev = Some q.
Proof. unfold last_ptr. by rewrite last_snoc. Qed.
Lemma last_ptr_cons p c l prev : last_ptr ((p, c) :: l) prev = last_ptr l (Some p).
Proof.
  destruct l as [|[q d] l _] using rev_ind; [done|].
  by rewrite app_comm_cons, !last_ptr_snoc.
Qed.
Lemma last_ptr_app l1 l2 prev : last_ptr (l1 ++ l2) prev = last_ptr l2 (last_ptr l1 prev).
Proof.
  destruct l2 as [|[q d] l2 _] using rev_ind; [by rewrite app_nil_r|].
  by rewrite app_assoc, !last_ptr_snoc.
Qed.
Lemma last_ptr_in l q : last_ptr l None = Some q -> q ∈ l.*1.
Proof.
  destruct l as [|[p c] l _] using rev_ind; [done|].
  rewrite last_ptr_snoc, fmap_app. intros [= ->]. set_solver.
Qed.
End ends.

(** Two heaps built by a few updates agree wherever the keys are compared. *)
Ltac map_solve := rewrite ?lookup_insert, ?lookup_delete; repeat case_decide; simplify_eq; try done.

Section lseg.
Context {N C : Type} (nxt : N -> option ptr) (core : N -> C).
Implicit Types (h : gmap ptr N) (l : list (ptr * C)).

Fixpoint lseg h (hd : option ptr) l (tl : option ptr) : Prop :=
  match l with
  | [] => hd = tl
  | (p, c) :: l' => exists n, hd = Some p /\ h !! p = Some n /\ core n = c /\ lseg h (nxt n) l' tl
  end.

Lemma lseg_app h hd l1 l2 tl :
  lseg h hd (l1 ++ l2) tl <-> exists mid, lseg h hd l1 mid /\ lseg h mid l2 tl.
Proof.
  revert hd. induction l1 as [|[p c] l1 IH]; intros hd; simpl.
  - split; [intros; by exists hd|intros (? & -> & ?); done].
  - setoid_rewrite IH. split.
    + intros (n & ? & ? & ? & mid & ? & ?); eauto 10.
    + intros (mid & (n & ? & ? & ? & ?) & ?); eauto 10.
Qed.

Lemma lseg_frame h h' hd l tl :
  (forall p, p ∈ l.*1 -> h' !! p = h !! p) -> lseg h hd l tl -> lseg h' hd l tl.
Proof.
  revert hd. induction l as [|[p c] l IH]; intros hd Hf; [done|].
  intros (n & -> & Hn & <- & Hl). exists n. split; [done|]. split.
  - rewrite Hf; [done|]. left.
  - split; [done|]. apply IH; [|done]. intros q Hq. apply Hf. by right.
Qed.

Lemma lseg_insert h hd l tl p n :
  p ∉ l.*1 -> lseg h hd l tl -> lseg (<[p:=n]> h) hd l tl.
Proof.
  intros Hp. apply lseg_frame. intros q Hq. apply lookup_insert_ne. congruence.
Qed.

Lemma lseg_delete h hd l tl p :
  p ∉ l.*1 -> lseg h hd l tl -> lseg (delete p h) hd l tl.
Proof.
  intros Hp. apply lseg_frame. intros q Hq. apply lookup_delete_ne. congruence.
Qed.

Lemma lseg_alive h hd l tl p : lseg h hd l tl -> p ∈ l.*1 -> is_Some (h !! p).
Proof.
  revert hd. induction l as [|[q c] l IH]; intros hd; [by intros _ ?%elem_of_nil|].
  intros (n & _ & Hn & _ & Hl) [->|Hp]%elem_of_cons; eauto.
Qed.

Lemma lseg_none h l tl : lseg h None l tl -> l = [] /\ tl = None.
Proof. destruct l as [|[]]; simpl; [done|by intros (? & ? & _)]. Qed.

Lemma lseg_head h hd l : lseg h hd l None -> hd = head_ptr l.
Proof. destruct l as [|[p c] l]; [done|]. by intros (? & -> & _). Qed.

Lemma lseg_length h hd l : NoDup l.*1 -> lseg h hd l None -> length l <= size h.
Proof.
  intros Hnd Hl. rewrite <- (length_fmap fst), <- (size_list_to_set (C:=gset ptr) l.*1) by done.
  rewrite <- size_dom. apply subseteq_size. intros p. rewrite elem_of_list_to_set.
  intros Hp. apply elem_of_dom. eauto using lseg_alive.
Qed.

(** Overwriting a node without touching its link. *)
Definition upd (p : ptr) (c : C) l : list (ptr * C) :=
  map (fun x => if decide (x.1 = p) then (p, c) else x) l.

Lemma upd_keys p c l : (upd p c l).*1 = l.*1.
Proof. unfold upd. induction l as [|[q d] l IH]; simpl; [done|]. f_equal; [by case_decide; simpl; subst|exact IH]. Qed.

Lemma upd_notin p c l : p ∉ l.*1 -> upd p c l = l.
Proof.
  unfold upd. induction l as [|[q d] l IH]; simpl; [done|]. intros Hp. rewrite IH by set_solver.
  case_decide; [subst; set_solver|done].
Qed.

Lemma lseg_update h hd l tl p n n' :
  h !! p = Some n -> nxt n' = nxt n -> lseg h hd l tl ->
  lseg (<[p := n']> h) hd (upd p (core n') l) tl.
Proof.
  intros Hp Hn. revert hd. induction l as [|[q c] l IH]; intros hd; [done|].
  intros (m & -> & Hm & <- & Hl). simpl. case_decide; simpl; subst.
  - exists n'. rewrite lookup_insert_eq. repeat split; [done..|].
    rewrite Hn. apply IH. by simplify_eq.
  - exists m. rewrite lookup_insert_ne by done. repeat split; [done..|]. by apply IH.
Qed.

Context (setn : option ptr -> N -> N).
Context (nxt_setn : forall o n, nxt (setn o n) = o) (core_setn : forall o n, core (setn o n) = core n).

(** Redirecting the link of the last node of a segment. *)
Lemma lseg_relink h hd l q c mid :
  q ∉ l.*1 -> lseg h hd (l ++ [(q, c)]) mid ->
  exists n, h !! q = Some n /\ core n = c /\ nxt n = mid /\
    forall o, lseg (<[q := setn o n]> h) hd (l ++ [(q, c)]) o.
Proof using nxt_setn core_setn.
  intros Hq (m & Hl & n & -> & Hn & Hc & Hm)%lseg_app. exists n. repeat split; [done..|].
  intros o. apply lseg_app. exists (Some q). split; [by apply lseg_insert|].
  exists (setn o n). rewrite lookup_insert_eq, core_setn, nxt_setn. done.
Qed.

(** Linking a detached node [p] between [l1] and [l2]. *)
Lemma lseg_link h hd l1 l2 p n :
  NoDup (l1 ++ l2).*1 -> p ∉ (l1 ++ l2).*1 -> h !! p = Some n ->
  lseg h hd (l1 ++ l2) None ->
  match last_ptr l1 None with
  | None => lseg (<[p := setn (head_ptr l2) n]> h) (Some p) (l1 ++ (p, core n) :: l2) None
  | Some q => exists m, h !! q = Some m /\
      lseg (<[p := setn (head_ptr l2) n]> (<[q := setn (Some p) m]> h)) hd (l1 ++ (p, core n) :: l2) None
  end.
Proof using nxt_setn core_setn.
  intros Hnd Hp Hn (mid & H1 & H2)%lseg_app. pose proof (lseg_head _ _ _ H2) as ->.
  set (node := setn (head_ptr l2) n).
  assert (Hins : forall h', (forall q, q ∈ l2.*1 -> h' !! q = h !! q) ->
            lseg (<[p := node]> h') (Some p) ((p, core n) :: l2) None).
  { intros h' Hh. exists node. unfold node. rewrite lookup_insert_eq, nxt_setn, core_setn.
    repeat split; [done..|]. apply lseg_insert; [set_solver|]. by eapply lseg_frame. }
  destruct l1 as [|[q c] l1 _] using rev_ind; [by apply Hins|].
  rewrite last_ptr_snoc. rewrite !fmap_app in *. simpl in *.
  apply NoDup_app in Hnd as (Hnd1 & Hdis & _). apply NoDup_app in Hnd1 as (_ & Hdis1 & _).
  assert (q ∉ l1.*1) as Hq by (intros ?; eapply Hdis1; [done|by left]).
  destruct (lseg_relink _ _ _ _ _ _ Hq H1) as (m & Hm & _ & _ & Hre).
  exists m. split; [done|]. apply lseg_app. exists (Some p). split.
  - apply lseg_insert; [rewrite fmap_app; set_solver|apply Hre].
  - apply Hins. intros q' Hq'. apply lookup_insert_ne. intros ->. eapply Hdis; [|done]. set_solver.
Qed.

(** Unlinking [p]. *)
Lemma lseg_unlink h hd l1 l2 p c :
  NoDup (l1 ++ (p, c) :: l2).*1 -> lseg h hd (l1 ++ (p, c) :: l2) None ->
  exists n, h !! p = Some n /\ core n = c /\
  match last_ptr l1 None with
  | None => lseg h (nxt n) (l1 ++ l2) None
  | Some q => exists m, h !! q = Some m /\
      lseg (<[q := setn (nxt n) m]> h) hd (l1 ++ l2) None
  end.
Proof using nxt_setn core_setn.
  intros Hnd (mid & H1 & n & -> & Hn & Hc & H2)%lseg_app. exists n.
  split; [done|]. split; [done|]. destruct l1 as [|[q d] l1 _] using rev_ind; [done|].
  rewrite last_ptr_snoc. rewrite !fmap_app in Hnd. simpl in Hnd.
  apply NoDup_app in Hnd as (Hnd1 & Hdis & _). apply NoDup_app in Hnd1 as (_ & Hdis1 & _).
  assert (q ∉ l1.*1) as Hq by (intros ?; eapply Hdis1; [done|by left]).
  destruct (lseg_relink _ _ _ _ _ _ Hq H1) as (m & Hm & _ & _ & Hre).
  exists m. split; [done|]. apply lseg_app. exists (nxt n). split; [apply Hre|].
  apply lseg_insert; [|done]. intros ?; eapply (Hdis q); set_solver.
Qed.
End lseg.

(** The longest prefix that satisfies [f], and the rest. *)
Fixpoint span {A} (f : A -> bool) (l : list A) : list A * list A :=
  match l with
  | [] => ([], [])
  | x :: l' => if f x then let '(a, b) := span f l' in (x :: a, b) else ([], l)
  end.

Lemma span_app {A} (f : A -> bool) l : l = (span f l).1 ++ (span f l).2.
Proof. induction l as [|x l IH]; [done|]. simpl. destruct (f x), (span f l); simpl in *; congruence. Qed.

Lemma span_all {A} (f : A -> bool) l : Forall (fun x => f x = true) (span f l).1.
Proof.
  induction l as [|x l IH]; simpl; [constructor|].
  destruct (f x) eqn:E; [|constructor]. destruct (span f l); simpl in *. by constructor.
Qed.

Lemma span_stop {A} (f : A -> bool) l x l' : (span f l).2 = x :: l' -> f x = false.
Proof.
  induction l as [|y l IH]; simpl; [done|].
  destruct (f y) eqn:E; [destruct (span f l); simpl in *; eauto|]. simpl. congruence.
Qed.

Lemma span_ext {A} (f g : A -> bool) l :
  Forall (fun x => f x = g x) l -> span f l = span g l.
Proof. induction 1 as [|x l Hx _ IH]; simpl; [done|]. by rewrite Hx, IH. Qed.

Lemma filter_all {A} (P : A -> Prop) `{!forall x, Decision (P x)} l : Forall P l -> filter P l = l.
Proof. induction 1 as [|x l Hx _ IH]; [done|]. by rewrite filter_cons, decide_True, IH. Qed.
