(* ===== verification/Marks.v ===== *)
(** * Marks in a history

    [emits f m s Q]: whatever the environment answers, when [m] started in
    [s] returns, the marks that [f] finds in the calls it made satisfy [Q],
    together with the result and the final state.  The rules follow the
    structure of programs; a component run inside a larger program keeps its
    marks. *)
From Stdlib Require Import ZArith Lia.
From stdpp Require Import base list.
From S2P Require Import Prelude.

Section emits.
Context {E : Type -> Type} {S X : Type} (f : event E -> option X).

Definition emits {A} (m : M E S A) (s : S) (Q : A -> S -> list X -> Prop) : Prop :=
  forall tr, post m (s, tr) (fun a c => exists new, c.2 = tr ++ new /\ Q a c.1 (omap f new)) (fun _ => True).

Lemma emits_ret {A} (a : A) s (Q : A -> S -> list X -> Prop) : Q a s [] -> emits (mret a) s Q.
Proof. intros HQ tr. apply sat_post, sat_ret. exists []. by rewrite app_nil_r. Qed.

Lemma emits_bind {A B} (m : M E S A) (k : A -> M E S B) s Q :
  emits m s (fun a s' l => emits (k a) s' (fun b s'' l' => Q b s'' (l ++ l'))) -> emits (m ≫= k) s Q.
Proof.
  intros H tr. apply post_bind. eapply post_mono; [apply H| |done].
  intros a [s' tr'] (new & Htr & Hk). cbn [fst snd] in *. subst tr'. eapply post_mono; [apply Hk| |done].
  intros b [s'' tr''] (new' & Htr & HQ). cbn [fst snd] in *. subst tr''.
  exists (new ++ new'). by rewrite omap_app, app_assoc.
Qed.

Lemma emits_mono {A} (m : M E S A) s (P Q : A -> S -> list X -> Prop) :
  emits m s P -> (forall a s' l, P a s' l -> Q a s' l) -> emits m s Q.
Proof.
  intros H HPQ tr. eapply post_mono; [apply H| |done].
  intros a c (new & ? & ?). exists new. eauto.
Qed.

Lemma emits_get s (Q : S -> S -> list X -> Prop) : Q s s [] -> emits get s Q.
Proof. intros HQ tr. apply sat_post, sat_get. exists []. by rewrite app_nil_r. Qed.
Lemma emits_modify g s (Q : () -> S -> list X -> Prop) : Q () (g s) [] -> emits (modify g) s Q.
Proof. intros HQ tr. apply sat_post, sat_modify. exists []. by rewrite app_nil_r. Qed.
Lemma emits_put s' s (Q : () -> S -> list X -> Prop) : Q () s' [] -> emits (put s') s Q.
Proof. intros HQ tr. apply sat_post, sat_put. exists []. by rewrite app_nil_r. Qed.
Lemma emits_exit {A} w s (Q : A -> S -> list X -> Prop) : emits (exit w) s Q.
Proof. done. Qed.
Lemma emits_call (env : environment E) {R} (e : E R) s (Q : R -> S -> list X -> Prop) :
  (forall r, Q r s (match f (Ev e r) with Some x => [x] | None => [] end)) -> emits (call env e) s Q.
Proof.
  intros HQ tr. apply sat_post, sat_call. intros r _. exists [Ev e r]. split; [done|].
  specialize (HQ r). cbn. by destruct (f (Ev e r)).
Qed.
Lemma emits_when (b : bool) m s (Q : () -> S -> list X -> Prop) :
  (b = true -> emits m s Q) -> (b = false -> Q () s []) -> emits (when b m) s Q.
Proof. destruct b; intros H1 H2; [by apply H1|by apply emits_ret, H2]. Qed.
Lemma emits_of_option {A} w (o : option A) s (Q : A -> S -> list X -> Prop) :
  (forall a, o = Some a -> Q a s []) -> emits (of_option w o) s Q.
Proof. destruct o; intros H; [by apply emits_ret, H|apply emits_exit]. Qed.

(** Programs that leave no mark. *)
Definition silent {A} (m : M E S A) : Prop :=
  forall s (Q : A -> S -> list X -> Prop), (forall a s', Q a s' []) -> emits m s Q.

Lemma silent_ret {A} (a : A) : silent (mret a).
Proof. intros s Q HQ. apply emits_ret, HQ. Qed.
Lemma silent_bind {A B} (m : M E S A) (k : A -> M E S B) : silent m -> (forall a, silent (k a)) -> silent (m ≫= k).
Proof. intros Hm Hk s Q HQ. apply emits_bind, Hm. intros a s'. apply Hk. intros b s''. apply HQ. Qed.
Lemma silent_get : silent get.
Proof. intros s Q HQ. apply emits_get, HQ. Qed.
Lemma silent_put s' : silent (put s').
Proof. intros s Q HQ. apply emits_put, HQ. Qed.
Lemma silent_modify g : silent (modify g).
Proof. intros s Q HQ. apply emits_modify, HQ. Qed.
Lemma silent_exit {A} w : silent (exit w : M E S A).
Proof. intros s Q HQ. apply emits_exit. Qed.
Lemma silent_of_option {A} w (o : option A) : silent (of_option w o).
Proof. intros s Q HQ. apply emits_of_option. intros a _. apply HQ. Qed.
Lemma silent_when (b : bool) m : silent m -> silent (when b m).
Proof. destruct b; [done|]. intros _. apply silent_ret. Qed.
Lemma silent_call (env : environment E) {R} (e : E R) : (forall r, f (Ev e r) = None) -> silent (call env e).
Proof. intros Hf s Q HQ. apply emits_call. intros r. rewrite Hf. apply HQ. Qed.

(** A silent part in front of a program. *)
Lemma emits_silent_bind {A B} (m : M E S A) (k : A -> M E S B) s Q :
  silent m -> (forall a s', emits (k a) s' Q) -> emits (m ≫= k) s Q.
Proof. intros Hm Hk. apply emits_bind, Hm. intros a s'. apply Hk. Qed.
End emits.

(** The structural rules, and a case analysis where the program makes one. *)
Ltac silence :=
  repeat first
    [ apply silent_bind; [|intros ?] | apply silent_ret | apply silent_get | apply silent_put | apply silent_modify
    | apply silent_exit | apply silent_of_option | apply silent_when | apply silent_call; intros ?; reflexivity
    | match goal with |- silent _ (match ?x with _ => _ end) => destruct x end
    | progress cbv zeta ].

Lemma emits_zoom {E S T X A} (f : event E -> option X) (g : T -> S) (p : S -> T -> T) (m : M E S A) t Q :
  emits f m (g t) (fun a s' l => Q a (p s' t) l) -> emits f (zoom g p m) t Q.
Proof. intros H tr. apply post_zoom. eapply post_mono; [apply H| |done]. intros a [s' tr']. done. Qed.

(** ** Programs that leave no mark and a part of the state alone *)
Section calm.
Context {E : Type -> Type} {S X Y : Type} (f : event E -> option X) (g : S -> Y).

Definition calm {A} (m : M E S A) : Prop :=
  forall s (Q : A -> S -> list X -> Prop), (forall a s', g s' = g s -> Q a s' []) -> emits f m s Q.

Lemma calm_bind {A B} (m : M E S A) (k : A -> M E S B) : calm m -> (forall a, calm (k a)) -> calm (m ≫= k).
Proof. intros Hm Hk s Q HQ. apply emits_bind, Hm. intros a s' Hs. apply Hk. intros b s'' Hs'. apply HQ. congruence. Qed.
Lemma calm_then {A B} (m : M E S A) (k : A -> M E S B) s Q :
  calm m -> (forall a s', g s' = g s -> emits f (k a) s' Q) -> emits f (m ≫= k) s Q.
Proof. intros Hm Hk. apply emits_bind, Hm. intros a s' Hs. by apply Hk. Qed.
Lemma calm_ret {A} (a : A) : calm (mret a).
Proof. intros s Q HQ. apply emits_ret. by apply HQ. Qed.
Lemma calm_get : calm get.
Proof. intros s Q HQ. apply emits_get. by apply HQ. Qed.
Lemma calm_modify h : (forall s, g (h s) = g s) -> calm (modify h).
Proof. intros Hh s Q HQ. apply emits_modify. by apply HQ. Qed.
Lemma calm_exit {A} w : calm (exit w : M E S A).
Proof. intros s Q HQ. apply emits_exit. Qed.
Lemma calm_of_option {A} w (o : option A) : calm (of_option w o).
Proof. destruct o; [apply calm_ret|apply calm_exit]. Qed.
Lemma calm_call (env : environment E) {R} (e : E R) : (forall r, f (Ev e r) = None) -> calm (call env e).
Proof. intros He s Q HQ. apply emits_call. intros r. rewrite He. by apply HQ. Qed.
Lemma calm_post {A} (m : M E S A) s tr : calm m -> post m (s, tr) (fun _ c => g c.1 = g s) (fun _ => True).
Proof.
  intros Hm. eapply post_mono; [apply (Hm s (fun _ s' _ => g s' = g s)); by intros| |done]. by intros a c (new & _ & Hg).
Qed.
(** The part of the state that is left alone lies outside of a component that may do anything but mark. *)
Lemma calm_zoom {T A} (get : S -> T) (put : T -> S -> S) (m : M E T A) :
  (forall t s, g (put t s) = g s) -> silent f m -> calm (zoom get put m).
Proof. intros Hp Hm s Q HQ. apply emits_zoom, Hm. intros a v. apply HQ, Hp. Qed.
End calm.

(** A component keeps its marks. *)
Lemma emits_embed {E F S X A} (inj : forall R, E R -> F R) (f : event E -> option X) (g : event F -> option X)
    (env : environment F) (m : environment E -> M E S A) s Q :
  (forall e, g (map_event inj e) = f e) -> (forall env', emits f (m env') s Q) -> emits g (embed inj env m) s Q.
Proof.
  intros Hg H tr. apply post_embed. intros env'. eapply post_mono; [apply H| |done].
  intros a [s' tr'] (new & Heq & HQ). cbn in *. subst tr'. eexists. split; [done|].
  replace (omap g (map (map_event inj) new)) with (omap f new); [done|].
  clear -Hg. induction new as [|e new IH]; [done|]. cbn. rewrite Hg, IH. done.
Qed.

(** A component without marks may do anything. *)
Lemma emits_embed_silent {E F S X A} (inj : forall R, E R -> F R) (g : event F -> option X)
    (env : environment F) (m : environment E -> M E S A) s (Q : A -> S -> list X -> Prop) :
  (forall e, g (map_event inj e) = None) -> (forall a s', Q a s' []) -> emits g (embed inj env m) s Q.
Proof.
  intros Hg HQ tr. apply post_embed. intros env'. unfold post.
  destruct (m env' (s, [])) as [[a|w] [s' tr']]; [|done]. eexists. split; [done|]. cbn [fst snd].
  replace (omap g _) with (@nil X); [apply HQ|].
  clear -Hg. induction tr' as [|e tr' IH]; [done|]. cbn. by rewrite Hg.
Qed.

(** One step of symbolic execution. *)
Ltac emits_step :=
  cbv beta;
  lazymatch goal with
  | |- emits _ (mbind _ _) _ _ => apply emits_bind
  | |- emits _ (mret _) _ _ => apply emits_ret
  | |- emits _ get _ _ => apply emits_get
  | |- emits _ (put _) _ _ => apply emits_put
  | |- emits _ (modify _) _ _ => apply emits_modify
  | |- emits _ (exit _) _ _ => apply emits_exit
  | |- emits _ (of_option _ _) _ _ => apply emits_of_option; intros ? ?
  | |- emits _ (call _ _) _ _ => apply emits_call; intros ?; cbn [app]
  end; cbn [fst snd app].

(** ** Marks up to an exit

    [traces f m s Q X]: the same as [emits], and when [m] exits, the reason, the
    state and the marks made until then satisfy [X]. *)
Section traces.
Context {E : Type -> Type} {S X : Type} (f : event E -> option X).

Definition traces {A} (m : M E S A) (s : S) (Q : A -> S -> list X -> Prop) (Z : exit_reason -> S -> list X -> Prop) : Prop :=
  forall tr, match m (s, tr) with
        | (Ret a, c) => exists new, c.2 = tr ++ new /\ Q a c.1 (omap f new)
        | (Exit w, c) => exists new, c.2 = tr ++ new /\ Z w c.1 (omap f new)
        end.

Lemma traces_ret {A} (a : A) s (Q : A -> S -> list X -> Prop) Z : Q a s [] -> traces (mret a) s Q Z.
Proof. intros HQ tr. exists []. by rewrite app_nil_r. Qed.
Lemma traces_exit {A} w s (Q : A -> S -> list X -> Prop) (Z : exit_reason -> S -> list X -> Prop) : Z w s [] -> traces (exit w) s Q Z.
Proof. intros HZ tr. exists []. by rewrite app_nil_r. Qed.

Lemma traces_bind {A B} (m : M E S A) (k : A -> M E S B) s Q (Z : exit_reason -> S -> list X -> Prop) :
  traces m s (fun a s' l => traces (k a) s' (fun b s'' l' => Q b s'' (l ++ l')) (fun w s'' l' => Z w s'' (l ++ l'))) Z ->
  traces (m ≫= k) s Q Z.
Proof.
  intros H tr. specialize (H tr). unfold mbind, M_bind. destruct (m (s, tr)) as [[a|w] [s' tr']]; [|done].
  destruct H as (new & Htr & Hk). cbn [fst snd] in *. subst tr'. specialize (Hk (tr ++ new)).
  destruct (k a (s', tr ++ new)) as [[b|w] [s'' tr'']]; destruct Hk as (new' & Htr & HQ); cbn [fst snd] in *; subst tr'';
    exists (new ++ new'); by rewrite omap_app, app_assoc.
Qed.

Lemma traces_mono {A} (m : M E S A) s (P Q : A -> S -> list X -> Prop) (Y Z : exit_reason -> S -> list X -> Prop) :
  traces m s P Y -> (forall a s' l, P a s' l -> Q a s' l) -> (forall w s' l, Y w s' l -> Z w s' l) -> traces m s Q Z.
Proof. intros H HPQ HYZ tr. specialize (H tr). destruct (m (s, tr)) as [[a|w] c]; destruct H as (new & ? & ?); eauto. Qed.

Lemma traces_get s (Q : S -> S -> list X -> Prop) Z : Q s s [] -> traces get s Q Z.
Proof. intros HQ tr. exists []. by rewrite app_nil_r. Qed.
Lemma traces_gets {A} (g : S -> A) s (Q : A -> S -> list X -> Prop) Z : Q (g s) s [] -> traces (gets g) s Q Z.
Proof. intros HQ tr. exists []. by rewrite app_nil_r. Qed.
Lemma traces_modify g s (Q : () -> S -> list X -> Prop) Z : Q () (g s) [] -> traces (modify g) s Q Z.
Proof. intros HQ tr. exists []. by rewrite app_nil_r. Qed.
Lemma traces_of_option {A} w (o : option A) s (Q : A -> S -> list X -> Prop) (Z : exit_reason -> S -> list X -> Prop) :
  match o with Some a => Q a s [] | None => Z w s [] end -> traces (of_option w o) s Q Z.
Proof. destruct o; [apply traces_ret|apply traces_exit]. Qed.
Lemma traces_when (b : bool) m s (Q : () -> S -> list X -> Prop) Z :
  (b = true -> traces m s Q Z) -> (b = false -> Q () s []) -> traces (when b m) s Q Z.
Proof. destruct b; intros H1 H2; [by apply H1|by apply traces_ret, H2]. Qed.
Lemma traces_call (env : environment E) {R} (e : E R) s (Q : R -> S -> list X -> Prop) Z :
  (forall r, Q r s (match f (Ev e r) with Some x => [x] | None => [] end)) -> traces (call env e) s Q Z.
Proof.
  intros HQ tr. cbn. exists [Ev e (env R tr e)]. split; [done|]. specialize (HQ (env R tr e)). cbn. by destruct (f (Ev e _)).
Qed.
Lemma traces_post {A} (m : M E S A) s tr (Q : A -> S -> list X -> Prop) (Z : exit_reason -> S -> list X -> Prop) :
  traces m s Q Z -> post m (s, tr) (fun a c => exists l, Q a c.1 l) (fun w => exists s' l, Z w s' l).
Proof. intros H. specialize (H tr). unfold post. destruct (m (s, tr)) as [[a|w] c]; destruct H as (new & ? & ?); eauto. Qed.
End traces.

(** ** Programs that only add calls of some kind to the history *)
Section adds.
Context {E : Type -> Type} {S : Type} (Ok : event E -> Prop).

Definition adds {A} (m : M E S A) : Prop := forall c, exists new, (m c).2.2 = c.2 ++ new /\ Forall Ok new.

Lemma adds_ret {A} (a : A) : adds (mret a).
Proof. intros c. exists []. by rewrite app_nil_r. Qed.
Lemma adds_exit {A} w : adds (exit w : M E S A).
Proof. intros c. exists []. by rewrite app_nil_r. Qed.
Lemma adds_bind {A B} (m : M E S A) (k : A -> M E S B) : adds m -> (forall a, adds (k a)) -> adds (m ≫= k).
Proof.
  intros Hm Hk c. destruct (Hm c) as (new & Hnew & Hok). unfold mbind, M_bind. destruct (m c) as [[a|w] c']; [|by exists new].
  destruct (Hk a c') as (new' & Hnew' & Hok'). exists (new ++ new'). cbn in Hnew. rewrite Hnew', Hnew, app_assoc. split; [done|by apply Forall_app].
Qed.
Lemma adds_get : adds get.
Proof. intros c. exists []. by rewrite app_nil_r. Qed.
Lemma adds_gets {A} (g : S -> A) : adds (gets g).
Proof. intros c. exists []. by rewrite app_nil_r. Qed.
Lemma adds_modify g : adds (modify g).
Proof. intros c. exists []. by rewrite app_nil_r. Qed.
Lemma adds_of_option {A} w (o : option A) : adds (of_option w o).
Proof. destruct o; [apply adds_ret|apply adds_exit]. Qed.
Lemma adds_when (b : bool) m : adds m -> adds (when b m).
Proof. destruct b; [done|]. intros _. apply adds_ret. Qed.
Lemma adds_call (env : environment E) {R} (e : E R) : (forall r, Ok (Ev e r)) -> adds (call env e).
Proof. intros He c. exists [Ev e (env R c.2 e)]. split; [done|by constructor]. Qed.

Lemma adds_traces {X A} (f : event E -> option X) (m : M E S A) s (Q : A -> S -> list X -> Prop) (Z : exit_reason -> S -> list X -> Prop) :
  adds m -> (forall a s' l, Q a s' l) -> (forall w s' l, Z w s' l) -> traces f m s Q Z.
Proof. intros Hm HQ HZ tr. destruct (Hm (s, tr)) as (new & Hnew & _). destruct (m (s, tr)) as [[a|w] c]; exists new; auto. Qed.
End adds.

Lemma adds_mono {E S} (P Q : event E -> Prop) {A} (m : M E S A) : (forall e, P e -> Q e) -> adds P m -> adds Q m.
Proof. intros HPQ Hm c. destruct (Hm c) as (new & ? & Hok). exists new. split; [done|]. by eapply Forall_impl. Qed.

(** Calls that are no marks. *)
Lemma adds_silent {E S X A} (f : event E -> option X) (m : M E S A) : adds (fun e => f e = None) m -> silent f m.
Proof.
  intros Hm s Q HQ tr. destruct (Hm (s, tr)) as (new & Hnew & Hok). unfold post. destruct (m (s, tr)) as [[a|w] c]; [|done].
  exists new. split; [exact Hnew|]. replace (omap f new) with (@nil X); [apply HQ|]. clear -Hok. induction Hok as [|e new He _ IH]; [done|]. cbn. by rewrite He.
Qed.

(** Nothing is said of the calls. *)
Abbreviation grows := (adds (fun _ => True)).

Ltac grow :=
  repeat first
    [ apply adds_bind; [|intros ?] | apply adds_ret | apply adds_exit | apply adds_get | apply adds_gets | apply adds_modify
    | apply adds_of_option | apply adds_when | apply adds_call; intros ?; first [exact I | reflexivity] | assumption
    | match goal with |- adds _ (match ?x with _ => _ end) => destruct x end | progress cbv zeta ].

Ltac traces_step :=
  cbv beta;
  lazymatch goal with
  | |- traces _ (mbind _ _) _ _ _ => apply traces_bind
  | |- traces _ (mret _) _ _ _ => apply traces_ret
  | |- traces _ get _ _ _ => apply traces_get
  | |- traces _ (gets _) _ _ _ => apply traces_gets
  | |- traces _ (modify _) _ _ _ => apply traces_modify
  | |- traces _ (exit _) _ _ _ => apply traces_exit
  | |- traces _ (of_option _ _) _ _ _ => apply traces_of_option
  | |- traces _ (call _ _) _ _ _ => apply traces_call; intros ?; cbn [app]
  end; cbn [fst snd app].
