(* ===== verification/SelectTimer.v ===== *)
(** * SelectTimer: the timer queue and the poll loop

    The definitions of [src/src/generic/ac/SelectTimer.c]: the timer lists of a
    handle as linked lists in a heap, the descriptor table, and the loop that
    waits and dispatches.  The theorems are in [SelectTimerFacts] (timers) and
    [PollTable] (descriptors). *)
From Stdlib Require Import ZArith Lia.
From stdpp Require Import base gmap list strings.
From S2P Require Import Prelude.

Open Scope Z_scope.

(** A C function pointer, by the address of the function. *)
Abbreviation fnptr := nat.

Record timeval := TV { tv_sec : Z; tv_usec : Z }.

Inductive TimerState := Running | Active | Deleted.
#[export] Instance TimerState_eq_dec : EqDecision TimerState.
Proof. solve_decision. Defined.

Record TimerInternal := MkTimer {
  mS : Z;
  sr : fnptr;
  ref : Z;
  expires : timeval;
  lastsec : Z;
  state : TimerState;
  next : option ptr
}.

Record pollfd := MkPollfd { fd : Z; events : Z; revents : Z }.
Record PollFn := MkPollFn { fn : fnptr; userRef : Z }.

(** [struct pollextensions]: two arrays of [maxfd] entries, the first [nfds]
    of them in use. *)
Record pollextensions := MkPollExt {
  maxfd : nat;
  spollfd : list pollfd;
  nfds : nat;
  spollfn : list PollFn
}.

(** [struct TimeHandle], together with the heap its timers live in. *)
Record TimeHandle := MkHandle {
  heap : gmap ptr TimerInternal;
  delay : timeval;
  timers : option ptr;
  freeTimerList : option ptr;
  freeTimers : Z;
  activeTimer : option ptr;
  polld : option pollextensions
}.

Definition with_heap h th := MkHandle h (delay th) (timers th) (freeTimerList th) (freeTimers th) (activeTimer th) (polld th).
Definition with_delay d th := MkHandle (heap th) d (timers th) (freeTimerList th) (freeTimers th) (activeTimer th) (polld th).
Definition with_timers t th := MkHandle (heap th) (delay th) t (freeTimerList th) (freeTimers th) (activeTimer th) (polld th).
Definition with_free l n th := MkHandle (heap th) (delay th) (timers th) l n (activeTimer th) (polld th).
Definition with_active a th := MkHandle (heap th) (delay th) (timers th) (freeTimerList th) (freeTimers th) a (polld th).
Definition with_polld p th := MkHandle (heap th) (delay th) (timers th) (freeTimerList th) (freeTimers th) (activeTimer th) p.

Definition t_next n t := MkTimer (mS t) (sr t) (ref t) (expires t) (lastsec t) (state t) n.
Definition t_state s t := MkTimer (mS t) (sr t) (ref t) (expires t) (lastsec t) s (next t).
Definition t_expires e t := MkTimer (mS t) (sr t) (ref t) e (lastsec t) (state t) (next t).
Definition t_lastsec l t := MkTimer (mS t) (sr t) (ref t) (expires t) l (state t) (next t).
Definition t_modify m r t := MkTimer m (sr t) r (expires t) (lastsec t) (state t) (next t).

(** What a user call-back does: calls of the interface on its own handle, then
    a return value.  The answer of a call may steer what comes next. *)
Inductive cbprog :=
| CbRet (rc : Z)
| CbStart (ms : Z) (f : fnptr) (r : Z) (k : ptr -> cbprog)
| CbStop (t : ptr) (k : cbprog)
| CbModify (t : ptr) (ms r : Z) (k : cbprog)
| CbSet (f : fnptr) (pfd : pollfd) (r : Z) (k : Z -> cbprog)
| CbUnset (fd : Z) (k : cbprog).

(** The external calls: the clock, [poll], and the user's call-backs. *)
Inductive selE : Type -> Type :=
| gettimeofday : selE timeval
| timeout_cb (f : fnptr) (r : Z) : selE cbprog
| poll_sys (fds : list pollfd) (timeout : Z) : selE (Z * Z * list Z)
| fd_cb (f : fnptr) (pfd : pollfd) (r : Z) : selE cbprog.

Abbreviation T := (M selE TimeHandle).

Definition load (p : ptr) : T TimerInternal := th ← get; of_option BadPointer (heap th !! p).
Definition store (p : ptr) (t : TimerInternal) : T () := modify (fun th => with_heap (<[p:=t]> (heap th)) th).
Definition malloc_timer : T ptr := gets (fun th => fresh (dom (heap th))).
Definition free_timer (p : ptr) : T () :=
  t ← load p; modify (fun th => with_heap (delete p (heap th)) th).

(** ** Handles *)
Definition timerCreateHandle_r : TimeHandle :=
  MkHandle ∅ (TV 0 0) None None 0 None None.

(** The [while (t != 0) { tmp = t; t = t->next; free(tmp); }] of the
    destructor. *)
Fixpoint free_chain (fuel : nat) (t : option ptr) : T () :=
  match fuel with
  | O => exit OutOfFuel
  | S fuel =>
      match t with
      | None => mret ()
      | Some p => n ← load p; free_timer p ;; free_chain fuel (next n)
      end
  end.

Definition poll_deleteextension : T () := modify (with_polld None).

Definition timerDestroyHandle_r : T () :=
  th ← get;
  free_chain (S (size (heap th))) (timers th) ;;
  free_chain (S (size (heap th))) (freeTimerList th) ;;
  match activeTimer th with Some p => free_timer p | None => mret () end ;;
  poll_deleteextension.

(** ** Scheduling *)

(** Earlier than, as the code compares two [timeval]s. *)
Definition tv_lt (a b : timeval) : bool :=
  (tv_sec a <? tv_sec b) || ((tv_sec a =? tv_sec b) && (tv_usec a <? tv_usec b)).

Definition add_ms (e : timeval) (ms : Z) : timeval :=
  let sec := tv_sec e + Z.quot ms 1000 in
  let usec := tv_usec e + Z.rem ms 1000 * 1000 in
  if 1000000 <? usec then TV (sec + 1) (usec - 1000000) else TV sec usec.

Definition next_expiry (e : timeval) (ms : Z) (tv : option timeval) : timeval :=
  let e' := add_ms e ms in
  match tv with
  | Some now => if tv_lt e' now then add_ms now ms else e'
  | None => e'
  end.

(** [while (item && cond) { prev = item; item = item->next; }] *)
Fixpoint walk (fuel : nat) (h : gmap ptr TimerInternal) (cond : ptr -> TimerInternal -> bool)
    (prev item : option ptr) : outcome (option ptr * option ptr) :=
  match fuel with
  | O => Exit OutOfFuel
  | S fuel =>
      match item with
      | None => Ret (prev, item)
      | Some p =>
          match h !! p with
          | None => Exit BadPointer
          | Some n => if cond p n then walk fuel h cond (Some p) (next n) else Ret (prev, item)
          end
      end
  end.

Definition walk_list (cond : ptr -> TimerInternal -> bool) (prev item : option ptr) : T (option ptr * option ptr) :=
  th ← get;
  match walk (S (size (heap th))) (heap th) cond prev item with
  | Ret r => mret r
  | Exit w => exit w
  end.

Definition rescedule (p : ptr) (tv : option timeval) : T () :=
  t ← load p;
  let e := next_expiry (expires t) (mS t) tv in
  store p (t_expires e t) ;;
  th ← get;
  '(prev, item) ← walk_list (fun _ i => tv_sec (expires i) <? tv_sec e) None (timers th);
  '(prev, item) ← walk_list (fun _ i => (tv_sec (expires i) =? tv_sec e)
                                     && (tv_usec (expires i) <? tv_usec e)) prev item;
  match prev with
  | Some q => n ← load q; store q (t_next (Some p) n)
  | None => modify (with_timers (Some p))
  end ;;
  t ← load p;
  store p (t_state Running (t_next item t)).

(** Keep at most four timers for reuse, free the others. *)
Definition release (p : ptr) : T () :=
  th ← get;
  if freeTimers th <? 4 then
    n ← load p;
    store p (t_next (freeTimerList th) n) ;;
    modify (with_free (Some p) (freeTimers th + 1))
  else free_timer p.

(** ** The descriptor table *)
Definition junk_pollfd : pollfd := MkPollfd 0 0 0.
Definition junk_fn : PollFn := MkPollFn 0%nat 0.

(** [malloc] leaves the arrays undefined; the entries below [nfds] are the
    only ones the code reads before writing them. *)
Definition poll_maxfd (n : Z) : T () :=
  th ← get;
  assert_c (bool_decide (polld th = None)) ;;
  assert_c (0 <? n) ;;
  modify (with_polld (Some (MkPollExt (Z.to_nat n) (replicate (Z.to_nat n) junk_pollfd) 0
                              (replicate (Z.to_nat n) junk_fn)))).

Definition get_polld : T pollextensions := th ← get; of_option AssertFailed (polld th).

(** The search loop of [poll_setcallback] and [poll_unsetcallback]. *)
Fixpoint find_fd (f : Z) (i : nat) (l : list pollfd) : option nat :=
  match l with
  | [] => None
  | p :: l => if f =? fd p then Some i else find_fd f (S i) l
  end.
Definition fd_index (e : pollextensions) (f : Z) : option nat :=
  find_fd f 0 (take (nfds e) (spollfd e)).

Definition ext_setcallback (e : pollextensions) (f : fnptr) (pfd : pollfd) (r : Z) : Z * pollextensions :=
  match fd_index e (fd pfd) with
  | Some i =>
      (1, MkPollExt (maxfd e) (alter (fun p => MkPollfd (fd p) (events pfd) (revents p)) i (spollfd e))
            (nfds e) (<[i:=MkPollFn f r]> (spollfn e)))
  | None =>
      if bool_decide (nfds e < maxfd e)%nat then
        (0, MkPollExt (maxfd e) (<[nfds e:=MkPollfd (fd pfd) (events pfd) 0]> (spollfd e))
              (S (nfds e)) (<[nfds e:=MkPollFn f r]> (spollfn e)))
      else (-1, e)
  end.

(** [while (index < nfds) { a[index] = a[index+1]; index++; }], [k] rounds to
    go. *)
Fixpoint pack {A} (k index : nat) (a : list A) : list A :=
  match k with
  | O => a
  | S k => pack k (S index)
             match a !! S index with Some x => <[index:=x]> a | None => a end
  end.

Definition ext_unsetcallback (e : pollextensions) (f : Z) : pollextensions :=
  match fd_index e f with
  | None => e
  | Some i =>
      let n := (nfds e - 1)%nat in
      MkPollExt (maxfd e) (pack (n - i) i (spollfd e)) n (pack (n - i) i (spollfn e))
  end.

Definition poll_setcallback (f : fnptr) (pfd : pollfd) (r : Z) : T Z :=
  e ← get_polld;
  let '(rc, e') := ext_setcallback e f pfd r in
  modify (with_polld (Some e')) ;; mret rc.

Definition poll_unsetcallback (f : Z) : T () :=
  e ← get_polld;
  modify (with_polld (Some (ext_unsetcallback e f))).

(** ** The timer interface *)
Definition timerStop_r (p : ptr) : T () :=
  t ← load p;
  match state t with
  | Running =>
      th ← get;
      '(prev, item) ← walk_list (fun q _ => negb (bool_decide (p = q))) None (timers th);
      match item with
      | None => mret ()
      | Some q =>
          n ← load q;
          match prev with
          | Some o => m ← load o; store o (t_next (next n) m)
          | None => modify (with_timers (next n))
          end ;;
          release q
      end
  | _ => store p (t_state Deleted t)
  end.

Definition timerModify (p : ptr) (ms r : Z) : T () :=
  t ← load p; store p (t_modify ms r t).

Section env.
Context (env : environment selE).

Definition timerStart_r (ms : Z) (f : fnptr) (r : Z) : T ptr :=
  th ← get;
  p ← (if 0 <? freeTimers th then
         p ← of_option AssertFailed (freeTimerList th);
         n ← load p;
         modify (with_free (next n) (freeTimers th - 1)) ;; mret p
       else
         assert_c (bool_decide (freeTimerList th = None)) ;; malloc_timer);
  now ← call env gettimeofday;
  store p (MkTimer ms f r now 0 Running None) ;;
  rescedule p None ;;
  mret p.

(** Running a user call-back to its return value. *)
Fixpoint run_cb (c : cbprog) : T Z :=
  match c with
  | CbRet rc => mret rc
  | CbStart ms f r k => p ← timerStart_r ms f r; run_cb (k p)
  | CbStop t k => timerStop_r t ;; run_cb k
  | CbModify t ms r k => timerModify t ms r ;; run_cb k
  | CbSet f pfd r k => rc ← poll_setcallback f pfd r; run_cb (k rc)
  | CbUnset f k => poll_unsetcallback f ;; run_cb k
  end.

(** *** Expiry *)
Definition expired (now : timeval) (t : TimerInternal) : bool := tv_lt (expires t) now.

(** One expired timer: unlink, call back, then recycle or re-schedule.
    Returns the time read after the call-back. *)
Definition fire (p : ptr) : T timeval :=
  t ← load p;
  modify (with_timers (next t)) ;;
  store p (t_state Active t) ;;
  th ← get;
  assert_c (bool_decide (activeTimer th = None)) ;;
  modify (with_active (Some p)) ;;
  c ← call env (timeout_cb (sr t) (ref t));
  rc ← run_cb c;
  modify (with_active None) ;;
  now ← call env gettimeofday;
  t ← load p;
  (if bool_decide (state t = Deleted) || (rc =? 0) then release p
   else
     rescedule p (Some now) ;;
     t ← load p; store p (t_lastsec (tv_sec now) t)) ;;
  mret now.

(** The clock went backwards while [p] was first in the queue. *)
Definition backstep (p : ptr) (now : timeval) : T () :=
  t ← load p;
  modify (with_timers (next t)) ;;
  store p (t_expires (TV (tv_sec now) (tv_usec (expires t))) (t_state Active t)) ;;
  rescedule p None.

Fixpoint expire_loop (fuel : nat) (now : timeval) : T timeval :=
  match fuel with
  | O => exit OutOfFuel
  | S fuel =>
      th ← get;
      match timers th with
      | None => mret now
      | Some p =>
          t ← load p;
          if expired now t then
            now' ← fire p; expire_loop fuel now'
          else
            when (tv_sec now <? lastsec t) (backstep p now) ;;
            mret now
      end
  end.

Definition delay_until (now e : timeval) : timeval :=
  if tv_usec e <? tv_usec now
  then TV (tv_sec e - tv_sec now - 1) (tv_usec e + 1000000 - tv_usec now)
  else TV (tv_sec e - tv_sec now) (tv_usec e - tv_usec now).

Definition timerGetDelay_r (fuel : nat) : T (option timeval) :=
  now ← call env gettimeofday;
  now ← expire_loop fuel now;
  th ← get;
  match timers th with
  | None => mret None
  | Some p =>
      t ← load p;
      let d := delay_until now (expires t) in
      modify (with_delay d) ;; mret (Some d)
  end.

(** *** The poll loop *)
Definition timeout_of (d : option timeval) : Z :=
  match d with
  | None => -1
  | Some d =>
      if Z.shiftr 0x7fffffff 10 <? tv_sec d then 0x7ffff300
      else wrap_s 32 (tv_sec d * 1000 + Z.quot (tv_usec d) 1000)
  end.

Definition POLLERR : Z := 0x8.
Definition POLLHUP : Z := 0x10.
Definition POLLNVAL : Z := 0x20.
Definition EINTR : Z := 4.

Definition ready (p : pollfd) : bool :=
  negb (revents p =? 0)
  && (Z.land (revents p) POLLERR =? 0)
  && (Z.land (revents p) POLLHUP =? 0)
  && (Z.land (revents p) POLLNVAL =? 0).

(** The kernel writes [revents] of the first [nfds] entries. *)
Fixpoint set_revents (rs : list Z) (l : list pollfd) : list pollfd :=
  match rs, l with
  | r :: rs, p :: l => MkPollfd (fd p) (events p) r :: set_revents rs l
  | _, _ => l
  end.

(** [do { rc = poll(...); if (rc < 0 && errno == EINTR) continue; } while (0);]
    [continue] goes to the test of the loop, which is [0]. *)
Definition do_poll (timeout : Z) : T Z :=
  e ← get_polld;
  '(rc, errno, rs) ← call env (poll_sys (take (nfds e) (spollfd e)) timeout);
  modify (with_polld (Some (MkPollExt (maxfd e) (set_revents (take (nfds e) rs) (spollfd e))
                              (nfds e) (spollfn e)))) ;;
  if (rc <? 0) && (errno =? EINTR) then mret rc (* continue; while (0) *)
  else mret rc.

Fixpoint dispatch (fuel : nat) (i : nat) (rc : Z) : T () :=
  match fuel with
  | O => exit OutOfFuel
  | S fuel =>
      e ← get_polld;
      if bool_decide (i < nfds e)%nat then
        p ← of_option BadPointer (spollfd e !! i);
        if ready p then
          f ← of_option BadPointer (spollfn e !! i);
          c ← call env (fd_cb (fn f) p (userRef f));
          run_cb c ;;
          if rc - 1 =? 0 then mret ()
          else
            e' ← get_polld;
            p' ← of_option BadPointer (spollfd e' !! i);
            if fd p =? fd p' then dispatch fuel (S i) (rc - 1)
            else dispatch fuel i (rc - 1)
        else dispatch fuel (S i) rc
      else mret ()
  end.

Definition poll_execute (fuel : nat) : T Z :=
  get_polld ;;
  tvp ← timerGetDelay_r fuel;
  e ← get_polld;
  if bool_decide (tvp = None) && bool_decide (nfds e = 0%nat) then mret (-1)
  else
    rc ← do_poll (timeout_of tvp);
    if rc <? 0 then mret rc
    else
      when (0 <? rc) (dispatch (S (Z.to_nat rc + maxfd e)) 0 rc) ;;
      mret 0.
End env.
