(* ===== verification/SelectTimerFacts.v ===== *)
(** * SelectTimer: the timer queue

    The linked lists of a handle are related to lists of timers; each operation
    of [SelectTimer] is shown to implement its list counterpart. *)
From Stdlib Require Import ZArith Lia.
From stdpp Require Import base gmap list strings.
From S2P Require Import Prelude SelectTimer.

Open Scope Z_scope.

(** The payload of a node: everything but the link. *)
Definition core (t : TimerInternal) : TimerInternal := t_next None t.
Abbreviation tlist := (list (ptr * TimerInternal)).
Abbreviation tseg := (lseg next core).

Lemma next_t_next o n : next (t_next o n) = o.
Proof. done. Qed.
Lemma core_t_next o n : core (t_next o n) = core n.
Proof. done. Qed.

Definition tseg_link := lseg_link next core t_next next_t_next core_t_next.
Definition tseg_unlink := lseg_unlink next core t_next next_t_next core_t_next.

(** ** Walking *)
Lemma tseg_head h hd l : tseg h hd l None -> hd = head_ptr l.
Proof. apply lseg_head. Qed.

Lemma walk_spec fuel h cond prev hd l :
  (forall p n, cond p n = cond p (core n)) ->
  tseg h hd l None -> (length l < fuel)%nat ->
  let s := span (fun x : ptr * TimerInternal => cond x.1 x.2) l in
  walk fuel h cond prev hd = Ret (last_ptr s.1 prev, head_ptr s.2).
Proof.
  intros Hc. revert hd prev l. induction fuel as [|fuel IH]; intros hd prev l Hl Hf; [lia|].
  destruct l as [|[p c] l]; simpl in *; [by subst|].
  destruct Hl as (n & -> & -> & <- & Hl). rewrite Hc.
  destruct (cond p (core n)); [|done].
  rewrite (IH _ _ l Hl) by lia.
  destruct (span _ l) as [a b]; simpl. by rewrite last_ptr_cons.
Qed.

Lemma span_tseg h hd (f : ptr * TimerInternal -> bool) l : tseg h hd l None -> tseg h (head_ptr (span f l).2) (span f l).2 None.
Proof.
  intros Hl. rewrite (span_app f l) in Hl. apply lseg_app in Hl as (mid & _ & Hl).
  by rewrite <- (tseg_head _ _ _ Hl).
Qed.

(** ** Scheduling on lists *)

(** The place of a timer that expires at [e]: the code first skips the smaller
    seconds, then the equal seconds with smaller microseconds. *)
Definition split_at (e : timeval) (l : tlist) : tlist * tlist :=
  let '(a, r) := span (fun x => tv_sec (expires x.2) <? tv_sec e) l in
  let '(b, r) := span (fun x => (tv_sec (expires x.2) =? tv_sec e)
                                && (tv_usec (expires x.2) <? tv_usec e)) r in
  (a ++ b, r).

Definition insert_timer (x : ptr * TimerInternal) (l : tlist) : tlist :=
  let '(a, b) := split_at (expires x.2) l in a ++ x :: b.

Definition tv_le (a b : timeval) : Prop := tv_lt b a = false.
Definition ordered (l : tlist) : Prop :=
  StronglySorted (fun x y => tv_le (expires x.2) (expires y.2)) l.

Ltac tv_solve := unfold tv_le, tv_lt in *; cbn [tv_sec tv_usec] in *; lia.

Lemma tv_le_refl a : tv_le a a.
Proof. tv_solve. Qed.
Lemma tv_le_trans a b c : tv_le a b -> tv_le b c -> tv_le a c.
Proof. tv_solve. Qed.
Lemma tv_lt_le_trans a b c : tv_lt a b = true -> tv_le b c -> tv_lt a c = true.
Proof. tv_solve. Qed.
Lemma tv_lt_le a b : tv_lt a b = true -> tv_le a b.
Proof. tv_solve. Qed.

Lemma split_at_app e l : l = (split_at e l).1 ++ (split_at e l).2.
Proof.
  unfold split_at. pose proof (span_app (fun x : ptr * TimerInternal => tv_sec (expires x.2) <? tv_sec e) l) as H1.
  destruct (span _ l) as [a r]. simpl in H1.
  match goal with |- context [span ?f r] => pose proof (span_app f r) as H2; destruct (span f r) as [b r'] end.
  simpl in *. by rewrite <- app_assoc, <- H2.
Qed.

(** The reference: skip what expires earlier. *)
Definition insert_ref (x : ptr * TimerInternal) (l : tlist) : tlist :=
  let '(a, b) := span (fun y => tv_lt (expires y.2) (expires x.2)) l in a ++ x :: b.

Lemma split_at_span e l : ordered l -> split_at e l = span (fun y => tv_lt (expires y.2) e) l.
Proof.
  unfold split_at. induction l as [|x l IH]; intros Ho; [done|].
  apply StronglySorted_cons in Ho as [Hx Ho]. simpl.
  destruct (Z.ltb_spec (tv_sec (expires x.2)) (tv_sec e)) as [Hlt|Hge].
  - replace (tv_lt (expires x.2) e) with true by (symmetry; tv_solve).
    rewrite <- (IH Ho). destruct (span _ l) as [a r]. by destruct (span _ r).
  - match goal with |- (let '(b, r) := span ?f (x :: l) in _) = _ =>
      rewrite (span_ext f (fun y => tv_lt (expires y.2) e) (x :: l)) end.
    + change (if tv_lt (expires x.2) e
              then let '(a, b) := span (fun y : ptr * TimerInternal => tv_lt (expires y.2) e) l in (x :: a, b)
              else ([], x :: l)) with (span (fun y : ptr * TimerInternal => tv_lt (expires y.2) e) (x :: l)).
      by destruct (span _ (x :: l)).
    + constructor; [tv_solve|]. eapply Forall_impl; [done|]. intros y Hy. simpl in Hy. tv_solve.
Qed.

Lemma insert_timer_ref x l : ordered l -> insert_timer x l = insert_ref x l.
Proof. intros Ho. unfold insert_timer, insert_ref. by rewrite split_at_span. Qed.

Lemma insert_timer_perm x l : insert_timer x l ≡ₚ x :: l.
Proof.
  unfold insert_timer, split_at.
  match goal with |- context [span ?f l] => pose proof (span_app f l) as H1; destruct (span f l) as [a r] end.
  match goal with |- context [span ?f r] => pose proof (span_app f r) as H2; destruct (span f r) as [b r'] end.
  simpl in *. subst. by rewrite <- app_assoc, <- !Permutation_middle.
Qed.

Lemma insert_timer_ordered x l : ordered l -> ordered (insert_timer x l).
Proof.
  intros Ho. rewrite insert_timer_ref by done. unfold insert_ref.
  match goal with |- context [span ?f l] =>
    pose proof (span_app f l) as Happ; pose proof (span_all f l) as Hall;
    pose proof (span_stop f l) as Hstop; destruct (span f l) as [a b] end.
  simpl in *. subst l. unfold ordered in *. apply StronglySorted_app in Ho as (Hab & Ha & Hb).
  assert (Hxb : Forall (fun y => tv_le (expires x.2) (expires y.2)) b).
  { destruct b as [|y b]; [constructor|]. specialize (Hstop _ _ eq_refl).
    apply StronglySorted_cons in Hb as [Hyb _]. constructor; [done|].
    eapply Forall_impl; [done|]. intros z Hz. exact (tv_le_trans _ _ _ Hstop Hz). }
  apply StronglySorted_app. split; [|split; [done|by apply StronglySorted_cons]].
  intros y z Hy Hz. rewrite Forall_forall in Hall, Hxb.
  apply elem_of_cons in Hz as [->|Hz]; [by apply tv_lt_le, Hall|by apply Hab].
Qed.

(** ** [rescedule] *)

(** What a scheduled timer carries. *)
Definition scheduled (t : TimerInternal) (tv : option timeval) : TimerInternal :=
  t_state Running (t_expires (next_expiry (expires t) (mS t) tv) (core t)).

Lemma sat_load p th tr t (Q : _ -> _ -> Prop) :
  heap th !! p = Some t -> Q t (th, tr) -> sat (load p) (th, tr) Q.
Proof.
  intros Hp HQ. unfold load. sat_steps. eapply sat_of_option; done.
Qed.

Lemma sat_store p t th tr (Q : _ -> _ -> Prop) :
  Q () (with_heap (<[p:=t]> (heap th)) th, tr) -> sat (store p t) (th, tr) Q.
Proof. intros HQ. unfold store. by sat_steps. Qed.

Lemma sat_walk_list cond prev hd l th tr (Q : _ -> _ -> Prop) :
  (forall p n, cond p n = cond p (core n)) ->
  tseg (heap th) hd l None -> NoDup l.*1 ->
  (let s := span (fun x : ptr * TimerInternal => cond x.1 x.2) l in
   Q (last_ptr s.1 prev, head_ptr s.2) (th, tr)) ->
  sat (walk_list cond prev hd) (th, tr) Q.
Proof.
  intros Hc Hl Hnd HQ. unfold walk_list. sat_steps.
  rewrite (walk_spec _ _ _ _ _ l Hc Hl); [by apply sat_ret|].
  pose proof (lseg_length _ _ _ _ _ Hnd Hl). simpl. lia.
Qed.

(** Only the heap and the head of the queue change. *)
Definition same_but_queue (th th' : TimeHandle) : Prop :=
  delay th' = delay th /\ freeTimerList th' = freeTimerList th /\ freeTimers th' = freeTimers th /\
  activeTimer th' = activeTimer th /\ polld th' = polld th.

Lemma sat_place e l th tr (k : option ptr -> option ptr -> T ()) Q :
  tseg (heap th) (timers th) l None -> NoDup l.*1 ->
  sat (k (last_ptr (split_at e l).1 None) (head_ptr (split_at e l).2)) (th, tr) Q ->
  sat ('(prev, item) ← walk_list (fun _ i => tv_sec (expires i) <? tv_sec e) None (timers th);
       '(prev, item) ← walk_list (fun _ i => (tv_sec (expires i) =? tv_sec e)
                                     && (tv_usec (expires i) <? tv_usec e)) prev item;
       k prev item) (th, tr) Q.
Proof.
  intros Hl Hnd Hk. sat_step. eapply sat_walk_list; [done|done|done|]. intros s1; subst s1.
  unfold split_at in Hk.
  match goal with |- context [span ?f l] =>
    pose proof (span_app f l) as P1; pose proof (span_tseg _ _ f l Hl) as T1;
    destruct (span f l) as [a r] end.
  simpl in *. sat_step. eapply sat_walk_list; [done|exact T1| |].
  { rewrite P1, fmap_app in Hnd. by apply NoDup_app in Hnd as (_ & _ & ?). }
  intros s2; subst s2.
  match goal with |- context [span ?f r] => destruct (span f r) as [b r'] end.
  simpl in *. by rewrite last_ptr_app in Hk.
Qed.

Lemma rescedule_sat p tv th tr l t :
  heap th !! p = Some t ->
  tseg (heap th) (timers th) l None -> NoDup l.*1 -> p ∉ l.*1 ->
  sat (rescedule p tv) (th, tr) (fun _ c' =>
    c'.2 = tr /\ same_but_queue th c'.1 /\
    tseg (heap c'.1) (timers c'.1) (insert_timer (p, scheduled t tv) l) None /\
    dom (heap c'.1) = dom (heap th) /\
    (forall q, q ∉ p :: l.*1 -> heap c'.1 !! q = heap th !! q)).
Proof.
  intros Hp Hl Hnd Hpl. unfold rescedule.
  sat_step. eapply sat_load; [done|]. sat_step. apply sat_store. sat_step. sat_step.
  set (e := next_expiry _ _ _). set (th1 := with_heap _ _).
  assert (Hl1 : tseg (heap th1) (timers th1) l None) by (by apply lseg_insert).
  set (n := t_state Running (t_expires e t)).
  set (h := <[p := n]> (heap th)).
  assert (Hh : tseg h (timers th) l None) by (by apply lseg_insert).
  eapply sat_place; [done|done|].
  assert (Hps : insert_timer (p, scheduled t tv) l
                = (split_at e l).1 ++ (p, core n) :: (split_at e l).2)
    by (unfold insert_timer; simpl; fold e; by destruct (split_at e l)).
  rewrite Hps. clear Hps. rewrite (split_at_app e l) in Hh, Hnd, Hpl.
  pose proof (tseg_link _ _ _ _ _ n Hnd Hpl (lookup_insert_eq _ _ _) Hh) as Hlk.
  destruct (last_ptr (split_at e l).1 None) as [q|] eqn:Elast.
  - destruct Hlk as (m & Hm & Hlk). apply last_ptr_in in Elast.
    rewrite fmap_app in Hpl.
    assert (q <> p) by (intros ->; set_solver).
    unfold h in Hm. rewrite lookup_insert_ne in Hm by done.
    assert (Hm1 : heap th1 !! q = Some m) by (simpl; by rewrite lookup_insert_ne).
    sat_step. sat_step. eapply sat_load; [exact Hm1|]. apply sat_store.
    sat_step. eapply sat_load; [simpl; rewrite lookup_insert_ne by done; apply lookup_insert_eq|].
    apply sat_store. simpl. split_and!; [done|done| | |].
    + eapply lseg_frame; [|exact Hlk]. intros q' _. unfold h, n. map_solve.
    + rewrite !dom_insert_L. apply elem_of_dom_2 in Hp, Hm. set_solver.
    + rewrite (split_at_app e l), fmap_app. intros q' Hq'. map_solve; set_solver.
  - sat_step. sat_step. sat_step. eapply sat_load; [apply lookup_insert_eq|]. apply sat_store.
    simpl. split_and!; [done|done| | |].
    + eapply lseg_frame; [|exact Hlk]. intros q' _. unfold h, n. map_solve.
    + rewrite !dom_insert_L. apply elem_of_dom_2 in Hp. set_solver.
    + intros q' Hq'. map_solve; set_solver.
Qed.

(** ** The representation invariant

    [repr th q fl det]: the queue of [th] holds the timers [q], in order of
    expiry and all [Running]; [fl] are the at most four timers kept for reuse;
    [det] are allocated timers in neither list (the active one); and the heap
    holds nothing else. *)
Record repr (th : TimeHandle) (q : tlist) (fl det : list ptr) : Prop := {
  r_timers : tseg (heap th) (timers th) q None;
  r_free : exists lf, lf.*1 = fl /\ tseg (heap th) (freeTimerList th) lf None;
  r_nodup : NoDup (q.*1 ++ fl ++ det);
  r_dom : dom (heap th) = list_to_set (q.*1 ++ fl ++ det);
  r_count : freeTimers th = Z.of_nat (length fl);
  r_max : (length fl <= 4)%nat;
  r_ordered : ordered q;
  r_running : Forall (fun x => state x.2 = Running) q
}.

Lemma repr_lookup th q fl det p :
  repr th q fl det -> p ∈ q.*1 ++ fl ++ det <-> is_Some (heap th !! p).
Proof. intros R. rewrite <- elem_of_dom, (r_dom _ _ _ _ R). by rewrite elem_of_list_to_set. Qed.

Lemma repr_nodup_q th q fl det : repr th q fl det -> NoDup q.*1.
Proof. intros R. by destruct (proj1 (NoDup_app _ _) (r_nodup _ _ _ _ R)) as (? & _). Qed.

Lemma repr_disjoint th q fl det p :
  repr th q fl det -> p ∈ fl ++ det -> p ∉ q.*1.
Proof. intros R Hp Hq. destruct (proj1 (NoDup_app _ _) (r_nodup _ _ _ _ R)) as (_ & Hd & _). by eapply Hd. Qed.

Lemma insert_timer_keys x l : (insert_timer x l).*1 ≡ₚ x.1 :: l.*1.
Proof. by rewrite insert_timer_perm. Qed.

(** Scheduling a detached timer. *)
Lemma rescedule_repr p tv th tr q fl d1 d2 t :
  repr th q fl (d1 ++ p :: d2) -> heap th !! p = Some t ->
  sat (rescedule p tv) (th, tr) (fun _ c' =>
    c'.2 = tr /\ same_but_queue th c'.1 /\
    repr c'.1 (insert_timer (p, scheduled t tv) q) fl (d1 ++ d2)).
Proof.
  intros R Hp.
  assert (Hpq : p ∉ q.*1) by (eapply repr_disjoint; [done|set_solver]).
  eapply sat_mono; [eapply rescedule_sat; [done|apply R|by eapply repr_nodup_q|done]|].
  intros _ [th' tr']. simpl. intros (-> & Hs & Hl & Hdom & Hfr). split; [done|]. split; [done|].
  destruct Hs as (_ & Hfl & Hn & _). pose proof (insert_timer_keys (p, scheduled t tv) q) as Hk. simpl in Hk.
  assert (HP : (insert_timer (p, scheduled t tv) q).*1 ++ fl ++ d1 ++ d2 ≡ₚ q.*1 ++ fl ++ d1 ++ p :: d2)
    by (rewrite Hk; solve_Permutation).
  destruct R. constructor; rewrite ?Hn, ?Hfl; auto.
  - destruct r_free0 as (lf & Hlf & Hseg). exists lf. split; [done|].
    eapply lseg_frame; [|done]. intros r Hr. apply Hfr. subst fl.
    apply NoDup_app in r_nodup0 as (_ & Hd & (_ & Hd2 & _)%NoDup_app).
    intros [->|Hrq]%elem_of_cons; [eapply Hd2; [done|set_solver]|eapply Hd; [done|set_solver]].
  - by rewrite HP.
  - rewrite Hdom, r_dom0. apply leibniz_equiv. by rewrite HP.
  - by apply insert_timer_ordered.
  - rewrite insert_timer_perm. by constructor.
Qed.

(** ** Recycling *)
Definition recycle (p : ptr) (fl : list ptr) : list ptr :=
  if (length fl <? 4)%nat then p :: fl else fl.

(** The queue and the rest of the handle are left alone. *)
Definition same_queue (th th' : TimeHandle) : Prop :=
  timers th' = timers th /\ delay th' = delay th /\ activeTimer th' = activeTimer th /\ polld th' = polld th.

Lemma release_repr p th tr q fl d1 d2 :
  repr th q fl (d1 ++ p :: d2) ->
  sat (release p) (th, tr) (fun _ c' =>
    c'.2 = tr /\ same_queue th c'.1 /\ repr c'.1 q (recycle p fl) (d1 ++ d2)).
Proof.
  intros R.
  assert (Hpq : p ∉ q.*1) by (eapply repr_disjoint; [done|set_solver]).
  destruct (proj1 (repr_lookup _ _ _ _ p R)) as [n Hn]; [set_solver|].
  assert (HP : q.*1 ++ fl ++ d1 ++ p :: d2 ≡ₚ p :: q.*1 ++ fl ++ d1 ++ d2) by solve_Permutation.
  pose proof (r_nodup _ _ _ _ R) as Hnd. rewrite HP in Hnd. apply NoDup_cons in Hnd as [Hp Hnd].
  pose proof (r_dom _ _ _ _ R) as Hdom. destruct R as [Hq (lf & Hlf & Hf) _ _ Hc Hm Ho Hr].
  assert (Hdom' : dom (heap th) = {[p]} ∪ list_to_set (q.*1 ++ fl ++ d1 ++ d2))
    by (rewrite Hdom; apply leibniz_equiv; by rewrite HP).
  unfold release, recycle. sat_step. sat_step. rewrite Hc.
  destruct (Z.ltb_spec (Z.of_nat (length fl)) 4), (Nat.ltb_spec (length fl) 4); try lia.
  - sat_step. eapply sat_load; [done|]. sat_step. apply sat_store. sat_steps.
    split; [done|]. split; [done|]. constructor; simpl; try done.
    + by apply lseg_insert.
    + exists ((p, core n) :: lf). split; [by simpl; f_equal|]. exists (t_next (freeTimerList th) n).
      rewrite lookup_insert_eq. repeat split; [done..|]. apply lseg_insert; [subst; set_solver|done].
    + rewrite <- Permutation_middle. by apply NoDup_cons.
    + rewrite dom_insert_L, Hdom'. apply leibniz_equiv. rewrite <- Permutation_middle. set_solver.
    + lia.
  - unfold free_timer. sat_step. eapply sat_load; [done|]. sat_steps.
    split; [done|]. split; [done|]. constructor; simpl; try done.
    + by apply lseg_delete.
    + exists lf. split; [done|]. apply lseg_delete; [subst; set_solver|done].
    + rewrite dom_delete_L, Hdom'. apply leibniz_equiv.
      intros x. rewrite elem_of_list_to_set in Hp || idtac. set_solver.
Qed.

(** ** Updating a timer that is not in the queue *)
Lemma repr_store_off th q fl det p t t' :
  repr th q fl det -> heap th !! p = Some t -> p ∉ q.*1 -> next t' = next t ->
  repr (with_heap (<[p := t']> (heap th)) th) q fl det.
Proof.
  intros [Hq (lf & Hlf & Hf) Hnd Hdom Hc Hm Ho Hr] Hp Hpq Hnx. constructor; simpl; try done.
  - by apply lseg_insert.
  - exists (upd p (core t') lf). rewrite upd_keys. split; [done|]. by eapply lseg_update.
  - rewrite dom_insert_L, <- Hdom. apply elem_of_dom_2 in Hp. set_solver.
Qed.

Lemma repr_store_det th q fl det p t :
  repr th q fl det -> p ∈ det -> repr (with_heap (<[p := t]> (heap th)) th) q fl det.
Proof.
  intros R Hp. assert (Hpq : p ∉ q.*1 ++ fl).
  { destruct R as [_ _ Hnd _ _ _ _ _]. rewrite app_assoc in Hnd.
    apply NoDup_app in Hnd as (_ & Hd & _). intros ?; by eapply Hd. }
  destruct R as [Hq (lf & Hlf & Hf) Hnd Hdom Hc Hm Ho Hr]. constructor; simpl; try done.
  - apply lseg_insert; [set_solver|done].
  - exists lf. split; [done|]. apply lseg_insert; [subst; set_solver|done].
  - rewrite dom_insert_L, Hdom. set_solver.
Qed.

Lemma repr_store_new th q fl det p t :
  repr th q fl det -> p ∉ dom (heap th) -> repr (with_heap (<[p := t]> (heap th)) th) q fl (p :: det).
Proof.
  intros [Hq (lf & Hlf & Hf) Hnd Hdom Hc Hm Ho Hr] Hp. rewrite Hdom, elem_of_list_to_set in Hp.
  assert (HP : q.*1 ++ fl ++ p :: det ≡ₚ p :: q.*1 ++ fl ++ det) by solve_Permutation.
  constructor; simpl; try done.
  - apply lseg_insert; [set_solver|done].
  - exists lf. split; [done|]. apply lseg_insert; [subst; set_solver|done].
  - rewrite HP. by apply NoDup_cons.
  - rewrite dom_insert_L, Hdom. apply leibniz_equiv. rewrite HP. set_solver.
Qed.

(** ** The operations of the interface *)
Definition fresh_timer (ms : Z) (f : fnptr) (r : Z) (now : timeval) : TimerInternal :=
  MkTimer ms f r now 0 Running None.

Definition started (ms : Z) (f : fnptr) (r : Z) (now : timeval) : TimerInternal :=
  t_expires (add_ms now ms) (fresh_timer ms f r now).

(** Taking the first reusable timer. *)
Lemma pop_repr th q p fl det :
  repr th q (p :: fl) det -> exists n, heap th !! p = Some n /\ freeTimerList th = Some p /\
    repr (with_free (next n) (freeTimers th - 1) th) q fl (p :: det).
Proof.
  intros [Hq (lf & Hlf & Hf) Hnd Hdom Hc Hm Ho Hr].
  destruct lf as [|[p' c] lf]; simplify_eq/=. destruct Hf as (n & Hhd & Hn & _ & Hf).
  exists n. split; [done|]. split; [done|].
  assert (HP : q.*1 ++ lf.*1 ++ p :: det ≡ₚ q.*1 ++ (p :: lf.*1) ++ det) by solve_Permutation.
  constructor; simpl; try done.
  - by exists lf.
  - by rewrite HP.
  - rewrite Hdom. apply leibniz_equiv. by rewrite HP.
  - rewrite Hc. lia.
  - lia.
Qed.

Lemma timerStart_sat env ms f r th tr q fl det :
  repr th q fl det ->
  sat (timerStart_r env ms f r) (th, tr) (fun p c' =>
    let now := env _ tr gettimeofday in
    c'.2 = tr ++ [Ev gettimeofday now] /\ (p ∉ q.*1 ++ det) /\
    activeTimer c'.1 = activeTimer th /\ polld c'.1 = polld th /\
    (fl = [] -> p ∉ dom (heap th)) /\
    repr c'.1 (insert_timer (p, started ms f r now) q) (tail fl) det).
Proof.
  intros R. unfold timerStart_r. sat_step. sat_step. sat_step. pose proof (r_count _ _ _ _ R) as Hc.
  assert (Hk : forall p th', p ∉ q.*1 ++ det -> (fl = [] -> p ∉ dom (heap th)) ->
     activeTimer th' = activeTimer th -> polld th' = polld th ->
     (forall t, repr (with_heap (<[p:=t]> (heap th')) th') q (tail fl) (p :: det)) ->
     sat (now ← call env gettimeofday; store p (MkTimer ms f r now 0 Running None) ;;
          rescedule p None ;; mret p) (th', tr)
       (fun p c' => let now := env _ tr gettimeofday in
         c'.2 = tr ++ [Ev gettimeofday now] /\ (p ∉ q.*1 ++ det) /\
         activeTimer c'.1 = activeTimer th /\ polld c'.1 = polld th /\
         (fl = [] -> p ∉ dom (heap th)) /\
         repr c'.1 (insert_timer (p, started ms f r now) q) (tail fl) det)).
  { intros p th' Hpd Hpf Ha Hpo HR. sat_step. sat_step. cbn [fst snd] in *. sat_step. apply sat_store. sat_step.
    set (t0 := MkTimer _ _ _ _ _ _ _).
    eapply sat_mono; [eapply (rescedule_repr p None _ _ q (tail fl) [] det t0)|].
    - apply HR.
    - apply lookup_insert_eq.
    - intros _ [th2 tr2]. simpl. intros (-> & (_ & _ & _ & Ha' & Hp') & Hrep).
      apply sat_ret. simpl in *. subst r0. split_and!; try done; congruence. }
  destruct fl as [|p fl]; simpl in Hc.
  - replace (0 <? freeTimers th) with false by lia. cbn match. sat_step. apply sat_assert.
    { apply bool_decide_eq_true. destruct R as [_ (lf & Hlf & Hf) _ _ _ _ _ _].
      by destruct lf; simplify_eq/=. }
    unfold malloc_timer. sat_step. pose proof (is_fresh (dom (heap th))) as Hfr.
    apply Hk; try done.
    + intros Hin. apply Hfr, elem_of_dom, (repr_lookup _ _ _ _ _ R). exact Hin.
    + intros t. by apply repr_store_new.
  - destruct (pop_repr _ _ _ _ _ R) as (n & Hn & Hhd & R').
    replace (0 <? freeTimers th) with true by lia. cbn match. rewrite Hhd.
    sat_step. eapply sat_of_option; [done|]. sat_step. eapply sat_load; [done|]. do 3 sat_step.
    apply Hk; try done.
    + destruct R as [_ _ Hnd _ _ _ _ _]. apply NoDup_app in Hnd as (_ & Hd & (Hnd & _)%NoDup_cons).
      intros [Hq|Hdt]%elem_of_app; [eapply Hd; [done|by left]|].
      apply Hnd, elem_of_app. by right.
    + intros t. apply repr_store_det; [done|by left].
Qed.

(** What [timerStop_r] does to the queue and to the reusable timers. *)
Definition stop_queue (p : ptr) (q : tlist) : tlist := filter (fun x => x.1 <> p) q.
Definition stop_free (p : ptr) (q : tlist) (fl : list ptr) : list ptr :=
  if decide (p ∈ q.*1) then recycle p fl else fl.

Lemma stop_queue_notin p q : p ∉ q.*1 -> stop_queue p q = q.
Proof.
  unfold stop_queue. induction q as [|[r c] q IH]; [done|]. simpl. intros Hp.
  rewrite filter_cons, IH by set_solver. case_decide; [done|]. simpl in *. set_solver.
Qed.

Lemma stop_queue_split p c q1 q2 :
  p ∉ (q1 ++ q2).*1 -> stop_queue p (q1 ++ (p, c) :: q2) = q1 ++ q2.
Proof.
  intros Hp. unfold stop_queue. rewrite filter_app, filter_cons. simpl.
  rewrite decide_False by (intros H; by apply H). rewrite <- filter_app.
  by apply stop_queue_notin.
Qed.

Lemma span_ptr p (q : tlist) :
  let s := span (fun x : ptr * TimerInternal => negb (bool_decide (p = x.1))) q in
  match s.2 with
  | [] => p ∉ q.*1
  | (r, c) :: q2 => r = p /\ q = s.1 ++ (p, c) :: q2
  end.
Proof.
  simpl. match goal with |- context [span ?f q] =>
    pose proof (span_app f q) as P; pose proof (span_stop f q) as S; pose proof (span_all f q) as A;
    destruct (span f q) as [a [|[r c] b]] end; simpl in *.
  - rewrite app_nil_r in P. subst. rewrite Forall_forall in A. intros Hp.
    apply list_elem_of_fmap in Hp as ([r c] & -> & Hin). specialize (A _ Hin). simpl in A.
    by rewrite bool_decide_true in A.
  - specialize (S _ _ eq_refl). apply negb_false_iff, bool_decide_eq_true in S. simpl in S. by subst.
Qed.

Lemma unlink_repr th q1 q2 p c fl det :
  repr th (q1 ++ (p, c) :: q2) fl det ->
  exists n, heap th !! p = Some n /\
  match last_ptr q1 None with
  | None => repr (with_timers (next n) th) (q1 ++ q2) fl (p :: det)
  | Some o => exists m, heap th !! o = Some m /\
      repr (with_heap (<[o := t_next (next n) m]> (heap th)) th) (q1 ++ q2) fl (p :: det)
  end.
Proof.
  intros R. pose proof (repr_nodup_q _ _ _ _ R) as Hndq. destruct R as [Hq (lf & Hlf & Hf) Hnd Hdom Hc Hm Ho Hr].
  destruct (tseg_unlink _ _ _ _ _ _ Hndq Hq) as (n & Hn & _ & Hlk). exists n. split; [done|].
  assert (HP : (q1 ++ q2).*1 ++ fl ++ p :: det ≡ₚ (q1 ++ (p, c) :: q2).*1 ++ fl ++ det)
    by (rewrite !fmap_app; simpl; solve_Permutation).
  assert (Ho' : ordered (q1 ++ q2)).
  { unfold ordered in *. apply StronglySorted_app in Ho as (H1 & H2 & [_ H3]%StronglySorted_cons).
    apply StronglySorted_app. split; [|done]. intros x y ? ?. apply H1; [done|by right]. }
  assert (Hr' : Forall (fun x => state x.2 = Running) (q1 ++ q2)).
  { apply Forall_app in Hr as [? [_ ?]%Forall_cons]. by apply Forall_app. }
  destruct (last_ptr q1 None) as [o|] eqn:E.
  - destruct Hlk as (m & Hm' & Hlk). exists m. split; [done|].
    assert (Hoq : o ∈ (q1 ++ (p, c) :: q2).*1) by (apply last_ptr_in in E; rewrite fmap_app; set_solver).
    constructor; simpl; rewrite ?HP; try done.
    + exists lf. split; [done|]. apply lseg_insert; [|done]. intros Hin. subst fl.
      apply NoDup_app in Hnd as (_ & Hd & _). eapply Hd; [exact Hoq|set_solver].
    + rewrite dom_insert_L, Hdom. apply subseteq_union_1_L, singleton_subseteq_l, elem_of_list_to_set, elem_of_app. by left.
  - constructor; simpl; rewrite ?HP; try done. by exists lf.
Qed.

Lemma timerStop_sat p th tr q fl det :
  repr th q fl det -> p ∈ dom (heap th) ->
  sat (timerStop_r p) (th, tr) (fun _ c' =>
    c'.2 = tr /\ activeTimer c'.1 = activeTimer th /\ polld c'.1 = polld th /\
    repr c'.1 (stop_queue p q) (stop_free p q fl) det).
Proof.
  intros R [t Ht]%elem_of_dom. unfold timerStop_r, stop_free. sat_step. eapply sat_load; [done|].
  destruct (decide (p ∈ q.*1)) as [Hin|Hnin].
  - assert (state t = Running) as ->.
    { apply list_elem_of_fmap in Hin as ([p' c] & -> & Hin). destruct R as [Hq _ _ _ _ _ _ Hr].
      rewrite Forall_forall in Hr. apply list_elem_of_split in Hin as (q1 & q2 & ->).
      apply lseg_app in Hq as (mid & _ & n & _ & Hn & Hc & _). simpl in *. simplify_eq.
      specialize (Hr (p', core n)). apply Hr. apply elem_of_app. right. left. }
    sat_step. sat_step. sat_step.
    eapply sat_walk_list; [done|apply R|by eapply repr_nodup_q|].
    pose proof (span_ptr p q) as Hs. simpl in Hs |- *.
    match goal with |- context [span ?f q] => destruct (span f q) as [q1 [|[p' c] q2]] end;
      simpl in *; [done|]. destruct Hs as [-> Hq]. subst q.
    destruct (unlink_repr _ _ _ _ _ _ _ R) as (n & Hn & Hu).
    assert (Hndq := repr_nodup_q _ _ _ _ R). rewrite fmap_app in Hndq. simpl in Hndq.
    rewrite stop_queue_split by
      (rewrite fmap_app; apply NoDup_app in Hndq as (_ & Hd & (? & _)%NoDup_cons); set_solver).
    sat_step. eapply sat_load; [done|].
    destruct (last_ptr q1 None) as [o|] eqn:E.
    + destruct Hu as (m & Hm & Hu). sat_step. sat_step. eapply sat_load; [done|]. apply sat_store.
      eapply sat_mono; [apply (release_repr p _ _ (q1 ++ q2) fl [] det); exact Hu|].
      intros _ [th' tr']. simpl. intros (? & (_ & _ & ? & ?) & ?). by simpl in *.
    + sat_step. sat_step. eapply sat_mono; [apply (release_repr p _ _ (q1 ++ q2) fl [] det); exact Hu|].
      intros _ [th' tr']. simpl. intros (? & (_ & _ & ? & ?) & ?). by simpl in *.
  - rewrite stop_queue_notin by done. destruct (state t).
    + sat_step. sat_step. sat_step. eapply sat_walk_list; [done|apply R|by eapply repr_nodup_q|].
      pose proof (span_ptr p q) as Hs. simpl in Hs |- *.
      match goal with |- context [span ?f q] => destruct (span f q) as [q1 [|[p' c] q2]] end;
        simpl in *; [by apply sat_ret|]. destruct Hs as [-> ->]. exfalso. apply Hnin.
      rewrite fmap_app. set_solver.
    + apply sat_store. split_and!; [done..|]. by eapply repr_store_off.
    + apply sat_store. split_and!; [done..|]. by eapply repr_store_off.
Qed.

Definition modify_queue (p : ptr) (ms r : Z) (q : tlist) : tlist :=
  map (fun x => if decide (x.1 = p) then (p, t_modify ms r x.2) else x) q.

Lemma modify_queue_keys p ms r q : (modify_queue p ms r q).*1 = q.*1.
Proof.
  unfold modify_queue. induction q as [|[p' c] q IH]; [done|]. simpl.
  f_equal; [by case_decide; simpl; subst|exact IH].
Qed.

Lemma modify_queue_Forall (P : TimerInternal -> Prop) p ms r q :
  (forall t, P t -> P (t_modify ms r t)) ->
  Forall (fun x => P x.2) q -> Forall (fun x => P x.2) (modify_queue p ms r q).
Proof.
  intros HP HF. unfold modify_queue. rewrite Forall_map. eapply Forall_impl; [exact HF|]. intros [p' c] Hc; simpl in *.
  case_decide; simpl; auto.
Qed.

Lemma modify_queue_ordered p ms r q : ordered q -> ordered (modify_queue p ms r q).
Proof.
  unfold ordered. induction q as [|[p' c] q IH]; [done|].
  intros [Hall Ho]%StronglySorted_cons. simpl. apply StronglySorted_cons. split; [|by apply IH].
  pose proof (modify_queue_Forall (fun t => tv_le (expires c) (expires t)) p ms r q) as HF.
  case_decide; apply HF; auto.
Qed.

Lemma upd_modify h hd q tl p ms r t :
  tseg h hd q tl -> h !! p = Some t -> upd p (core (t_modify ms r t)) q = modify_queue p ms r q.
Proof.
  intros Hq Hp. unfold upd, modify_queue. revert hd Hq. induction q as [|[p' c] q IH]; intros hd; [done|].
  intros (n & _ & Hn & <- & Hq). simpl. f_equal; [|by eapply IH].
  case_decide; simpl; [subst|done]. by simplify_eq.
Qed.

Lemma timerModify_sat p ms r th tr q fl det :
  repr th q fl det -> p ∈ dom (heap th) ->
  sat (timerModify p ms r) (th, tr) (fun _ c' =>
    c'.2 = tr /\ activeTimer c'.1 = activeTimer th /\ polld c'.1 = polld th /\
    repr c'.1 (modify_queue p ms r q) fl det).
Proof.
  intros R [t Ht]%elem_of_dom. unfold timerModify. sat_step. eapply sat_load; [done|]. apply sat_store.
  split_and!; [done..|]. destruct R as [Hq (lf & Hlf & Hf) Hnd Hdom Hc Hm Ho Hr].
  constructor; simpl; rewrite ?modify_queue_keys; try done.
  - erewrite <- upd_modify; [|exact Hq|exact Ht]. by eapply lseg_update.
  - exists (upd p (core (t_modify ms r t)) lf). rewrite upd_keys. split; [done|]. by eapply lseg_update.
  - rewrite dom_insert_L, <- Hdom. apply elem_of_dom_2 in Ht.
    by apply subseteq_union_1_L, singleton_subseteq_l.
  - by apply modify_queue_ordered.
  - by apply (modify_queue_Forall (fun t => state t = Running)).
Qed.

(** ** Destruction frees everything *)
Lemma free_chain_sat fuel hd l th tr :
  tseg (heap th) hd l None -> NoDup l.*1 -> (length l < fuel)%nat ->
  sat (free_chain fuel hd) (th, tr) (fun _ c' =>
    c'.2 = tr /\ c'.1 = with_heap (heap c'.1) th /\
    forall p, heap c'.1 !! p = if decide (p ∈ l.*1) then None else heap th !! p).
Proof.
  revert hd l th. induction fuel as [|fuel IH]; intros hd l th Hl Hnd Hf; [lia|].
  destruct l as [|[p c] l]; simpl in *.
  - subst. apply sat_ret. split_and!; [done|by destruct th|done].
  - destruct Hl as (n & -> & Hn & _ & Hl). apply NoDup_cons in Hnd as [Hp Hnd].
    sat_step. eapply sat_load; [done|]. unfold free_timer. sat_step. sat_step. eapply sat_load; [done|].
    sat_step. cbn [fst snd]. eapply sat_mono; [apply (IH _ l); [|done|lia]|].
    + by apply lseg_delete.
    + intros _ [th' tr']. simpl. intros (-> & -> & Hh). split_and!; [done|done|].
      intros q. simpl in Hh. rewrite Hh. map_solve; set_solver.
Qed.

Definition active_list (th : TimeHandle) : list ptr :=
  match activeTimer th with Some p => [p] | None => [] end.

(** C: a handle in order gives back every timer it ever allocated. *)
Lemma timerDestroy_sat th tr q fl :
  repr th q fl (active_list th) ->
  sat timerDestroyHandle_r (th, tr) (fun _ c' =>
    c'.2 = tr /\ heap c'.1 = ∅ /\ polld c'.1 = None).
Proof.
  intros R. pose proof (repr_nodup_q _ _ _ _ R) as Hndq.
  destruct R as [Hq (lf & Hlf & Hf) Hnd Hdom _ _ _ _].
  pose proof Hnd as Hnd'. apply NoDup_app in Hnd' as (_ & Hd1 & (Hndf & Hd2 & _)%NoDup_app). subst fl.
  pose proof (lseg_length _ _ _ _ _ Hndq Hq). pose proof (lseg_length _ _ _ _ _ Hndf Hf).
  unfold timerDestroyHandle_r, poll_deleteextension. do 3 sat_step.
  eapply sat_mono; [apply (free_chain_sat _ _ q); [done|done|simpl; lia]|].
  intros _ [th1 tr1]. cbn [fst snd]. intros (-> & -> & H1). cbn [with_heap heap] in H1.
  sat_step. eapply sat_mono; [apply (free_chain_sat _ _ lf); [|done|lia]|].
  { eapply lseg_frame; [|exact Hf]. intros p Hp. simpl. rewrite H1, decide_False; [done|].
    intros Hpq. eapply Hd1; [done|]. set_solver. }
  intros _ [th2 tr2]. cbn [fst snd]. intros (-> & -> & H2). cbn [with_heap heap] in H2.
  assert (Hdone : forall p, p ∉ active_list th -> heap th2 !! p = None).
  { intros p Hp. rewrite H2, H1. repeat case_decide; [done..|]. apply not_elem_of_dom.
    rewrite Hdom, elem_of_list_to_set, !elem_of_app. naive_solver. }
  unfold active_list in *. sat_step. destruct (activeTimer th) as [p|] eqn:Ea.
  - assert (Hp : is_Some (heap th !! p)).
    { apply elem_of_dom. rewrite Hdom, elem_of_list_to_set. set_solver. }
    destruct Hp as [t Ht].
    assert (heap th2 !! p = Some t).
    { rewrite H2, H1, !decide_False; [done| |]; intros Hin; [eapply Hd1|eapply Hd2]; try done; set_solver. }
    unfold free_timer. sat_step. eapply sat_load; [done|]. sat_steps.
    split_and!; [done| |done]. apply map_eq. intros q'. rewrite lookup_empty. simpl. map_solve.
    apply Hdone. set_solver.
  - sat_steps. split_and!; [done| |done]. apply map_eq. intros q'. rewrite lookup_empty.
    apply Hdone. set_solver.
Qed.
