(* ===== verification/PollTable.v ===== *)
(** * SelectTimer: the descriptor table

    The two arrays of a handle implement a finite map from descriptors to
    call-backs, of bounded size.  [PollIface] is what the table promises to its
    users (the log and trace services register their selection objects in it);
    the table of [SelectTimer.c] is its instance. *)
From Stdlib Require Import ZArith Lia.
From stdpp Require Import base gmap list strings.
From S2P Require Import Prelude SelectTimer.

Open Scope Z_scope.

(** ** Searching *)
Lemma find_fd_spec f l : forall i,
  match find_fd f i l with
  | Some j => exists k p, j = (i + k)%nat /\ l !! k = Some p /\ fd p = f /\ f ∉ fd <$> take k l
  | None => f ∉ fd <$> l
  end.
Proof.
  induction l as [|p l IH]; intros i; simpl; [set_solver|].
  destruct (Z.eqb_spec f (fd p)) as [->|Hne].
  - exists 0%nat, p. rewrite Nat.add_0_r. split_and!; [done..|]. simpl. set_solver.
  - specialize (IH (S i)). destruct (find_fd f (S i) l) as [j|].
    + destruct IH as (k & p' & -> & Hk & Hf & Hn). exists (S k), p'.
      split_and!; [lia|done|done|]. simpl. set_solver.
    + set_solver.
Qed.

(** ** Packing *)
Lemma pack_lookup {A} k i (a : list A) j : (i + k < length a)%nat ->
  pack k i a !! j = if decide (i <= j < i + k)%nat then a !! S j else a !! j.
Proof.
  revert i a. induction k as [|k IH]; intros i a Hl; simpl.
  - by rewrite decide_False by lia.
  - destruct (lookup_lt_is_Some_2 a (S i)) as [x Hx]; [lia|]. rewrite Hx.
    rewrite IH by (rewrite length_insert; lia).
    repeat case_decide; try lia.
    + by rewrite list_lookup_insert_ne by lia.
    + assert (j = i) as -> by lia. rewrite list_lookup_insert_eq by lia. done.
    + by rewrite list_lookup_insert_ne by lia.
Qed.

Lemma length_pack {A} k i (a : list A) : length (pack k i a) = length a.
Proof.
  revert i a. induction k as [|k IH]; intros i a; [done|]. simpl. rewrite IH.
  by destruct (a !! S i); rewrite ?length_insert.
Qed.

Lemma take_pack {A} n i (a : list A) : (i < n <= length a)%nat ->
  take (n - 1) (pack (n - 1 - i) i a) = take i a ++ drop (S i) (take n a).
Proof.
  intros Hi. apply list_eq. intros j.
  destruct (decide (j < n - 1)%nat) as [Hj|Hj].
  - rewrite lookup_take_lt by lia. rewrite pack_lookup by lia.
    destruct (decide (j < i)%nat).
    + rewrite decide_False by lia. rewrite lookup_app_l by (rewrite length_take; lia).
      by rewrite lookup_take_lt by lia.
    + rewrite decide_True by lia. rewrite lookup_app_r by (rewrite length_take; lia).
      rewrite length_take, lookup_drop, lookup_take_lt by lia. f_equal. lia.
  - rewrite lookup_take_ge by lia. symmetry. apply lookup_ge_None.
    rewrite length_app, length_take, length_drop, length_take. lia.
Qed.

(** ** The table as a list of registrations *)
Record table_ok (e : pollextensions) : Prop := {
  t_fd_len : length (spollfd e) = maxfd e;
  t_fn_len : length (spollfn e) = maxfd e;
  t_nfds : (nfds e <= maxfd e)%nat;
  t_nodup : NoDup (fd <$> take (nfds e) (spollfd e))
}.

Abbreviation entry := (pollfd * PollFn)%type.
Definition entries (e : pollextensions) : list entry :=
  zip (take (nfds e) (spollfd e)) (take (nfds e) (spollfn e)).
Definition entry_fd (x : entry) : Z := fd x.1.

Lemma entries_fds e : table_ok e -> entry_fd <$> entries e = fd <$> take (nfds e) (spollfd e).
Proof.
  intros [H1 H2 H3 _]. unfold entries.
  transitivity (fd <$> (zip (take (nfds e) (spollfd e)) (take (nfds e) (spollfn e))).*1).
  { by rewrite <- list_fmap_compose. }
  rewrite fst_zip; [done|]. rewrite !length_take. lia.
Qed.

Lemma entries_length e : table_ok e -> length (entries e) = nfds e.
Proof. intros [H1 H2 H3 _]. unfold entries. rewrite length_zip_with, !length_take. lia. Qed.

(** What the two operations do to the registrations. *)
Definition update_entry (f : fnptr) (pfd : pollfd) (r : Z) (x : entry) : entry :=
  if fd pfd =? entry_fd x then (MkPollfd (fd x.1) (events pfd) (revents x.1), MkPollFn f r) else x.
Definition new_entry (f : fnptr) (pfd : pollfd) (r : Z) : entry :=
  (MkPollfd (fd pfd) (events pfd) 0, MkPollFn f r).

Lemma fd_index_spec e f : table_ok e ->
  match fd_index e f with
  | Some i => (i < nfds e)%nat /\ exists p, spollfd e !! i = Some p /\ fd p = f
  | None => f ∉ entry_fd <$> entries e
  end.
Proof.
  intros Hok. rewrite entries_fds by done. unfold fd_index.
  pose proof (find_fd_spec f (take (nfds e) (spollfd e)) 0) as Hs. destruct (find_fd _ _ _) as [i|]; [|done].
  destruct Hs as (k & p & -> & Hk & Hf & _). simpl. apply lookup_take_Some in Hk as [Hk ?]. eauto.
Qed.

Lemma entries_lookup e i : table_ok e -> (i < nfds e)%nat ->
  exists p f, spollfd e !! i = Some p /\ spollfn e !! i = Some f /\ entries e !! i = Some (p, f).
Proof.
  intros [H1 H2 H3 _] Hi.
  destruct (lookup_lt_is_Some_2 (spollfd e) i) as [p Hp]; [lia|].
  destruct (lookup_lt_is_Some_2 (spollfn e) i) as [f Hf]; [lia|].
  exists p, f. split_and!; [done..|]. unfold entries. apply lookup_zip_with_Some.
  exists p, f. by rewrite !lookup_take_lt by lia.
Qed.

Lemma entry_index_unique e i j p f : table_ok e ->
  (i < nfds e)%nat -> spollfd e !! i = Some p -> entries e !! j = Some f -> entry_fd f = fd p -> j = i.
Proof.
  intros Hok Hi Hp Hj He. pose proof (t_nodup _ Hok) as Hnd. rewrite <- entries_fds in Hnd by done.
  eapply NoDup_lookup; [exact Hnd|by rewrite list_lookup_fmap, Hj|].
  destruct (entries_lookup e i Hok Hi) as (p' & f' & Hp' & _ & He'). simplify_eq.
  rewrite list_lookup_fmap, He'. simpl. by rewrite He.
Qed.

(** ** [poll_setcallback] and [poll_unsetcallback] on registrations *)
Lemma setcallback_update e f pfd r i : table_ok e -> fd_index e (fd pfd) = Some i ->
  let e' := (ext_setcallback e f pfd r).2 in
  (ext_setcallback e f pfd r).1 = 1 /\ maxfd e' = maxfd e /\ table_ok e' /\
  entries e' = update_entry f pfd r <$> entries e.
Proof.
  intros Hok Hix. pose proof (fd_index_spec e (fd pfd) Hok) as Hs. rewrite Hix in Hs.
  destruct Hs as (Hi & p & Hp & Hfd). unfold ext_setcallback. rewrite Hix. simpl.
  split; [done|]. split; [done|].
  set (a' := alter _ i (spollfd e)).
  assert (Hfds : fd <$> a' = fd <$> spollfd e).
  { apply list_eq. intros j. unfold a'. rewrite !list_lookup_fmap. destruct (decide (i = j)) as [->|].
    - rewrite list_lookup_alter_eq, Hp. done.
    - by rewrite list_lookup_alter_ne. }
  split.
  - destruct Hok as [H1 H2 H3 H4]. constructor; simpl; [unfold a'; by rewrite length_alter|by rewrite length_insert|done|].
    by rewrite fmap_take, Hfds, <- fmap_take.
  - apply list_eq. intros j. rewrite list_lookup_fmap.
    destruct (decide (j < nfds e)%nat) as [Hj|Hj].
    + destruct (entries_lookup e j Hok Hj) as (pj & fj & Hpj & Hfj & He). rewrite He. simpl.
      unfold entries. simpl. unfold update_entry, entry_fd; simpl. destruct (decide (i = j)) as [->|Hne].
      * simplify_eq. rewrite Hfd, Z.eqb_refl. apply lookup_zip_with_Some. eexists _, _. split; [done|].
        rewrite !lookup_take_lt by lia. unfold a'. rewrite list_lookup_alter_eq, Hp.
        rewrite list_lookup_insert_eq by (rewrite (t_fn_len _ Hok); pose proof (t_nfds _ Hok); lia). by rewrite <- Hfd.
      * rewrite (proj2 (Z.eqb_neq _ _)).
        { apply lookup_zip_with_Some. exists pj, fj. split; [done|]. rewrite !lookup_take_lt by lia.
          unfold a'. by rewrite list_lookup_alter_ne, list_lookup_insert_ne. }
        intros Heq. apply Hne. symmetry. eapply (entry_index_unique e i j p); try done. unfold entry_fd. simpl. by rewrite Hfd.
    + rewrite !lookup_ge_None_2; [done| |].
      * rewrite entries_length by done. lia.
      * unfold entries. simpl. rewrite length_zip_with, !length_take. lia.
Qed.

Lemma setcallback_new e f pfd r : table_ok e -> fd_index e (fd pfd) = None -> (nfds e < maxfd e)%nat ->
  let e' := (ext_setcallback e f pfd r).2 in
  (ext_setcallback e f pfd r).1 = 0 /\ maxfd e' = maxfd e /\ table_ok e' /\
  entries e' = entries e ++ [new_entry f pfd r].
Proof.
  intros Hok Hix Hlt. pose proof (fd_index_spec e (fd pfd) Hok) as Hs. rewrite Hix in Hs.
  unfold ext_setcallback. rewrite Hix, bool_decide_true by done. simpl. split; [done|]. split; [done|].
  pose proof Hok as [H1 H2 H3 H4].
  assert (Ht : forall {A} (l : list A) x, length l = maxfd e -> take (S (nfds e)) (<[nfds e:=x]> l) = take (nfds e) l ++ [x]).
  { intros A l x Hl. erewrite take_S_r; [|apply list_lookup_insert_eq; lia].
    by rewrite take_insert_ge by lia. }
  assert (He : entries (MkPollExt (maxfd e) (<[nfds e:=(new_entry f pfd r).1]> (spollfd e)) (S (nfds e))
                 (<[nfds e:=(new_entry f pfd r).2]> (spollfn e))) = entries e ++ [new_entry f pfd r]).
  { unfold entries. cbn [nfds spollfd spollfn]. rewrite !Ht by done.
    rewrite zip_with_app by (rewrite !length_take; lia). done. }
  split; [|exact He]. constructor; cbn [nfds spollfd spollfn maxfd]; rewrite ?length_insert; [done..|lia|].
  rewrite Ht by done. rewrite fmap_app. apply NoDup_app. split; [done|].
  rewrite entries_fds in Hs by done. split; [|apply NoDup_singleton].
  intros x Hx Hx'. simpl in Hx'. set_solver.
Qed.

Lemma setcallback_full e f pfd r : table_ok e -> fd_index e (fd pfd) = None -> nfds e = maxfd e ->
  ext_setcallback e f pfd r = (-1, e).
Proof.
  intros Hok Hix Hlt. unfold ext_setcallback. rewrite Hix, bool_decide_false by lia. done.
Qed.

Lemma unsetcallback_spec e f : table_ok e ->
  let e' := ext_unsetcallback e f in
  maxfd e' = maxfd e /\ table_ok e' /\ entries e' = filter (fun x => entry_fd x <> f) (entries e).
Proof.
  intros Hok. pose proof (fd_index_spec e f Hok) as Hs. unfold ext_unsetcallback.
  destruct (fd_index e f) as [i|]; simpl.
  - destruct Hs as (Hi & p & Hp & Hfd). pose proof Hok as [H1 H2 H3 H4]. split; [done|].
    assert (He : entries (MkPollExt (maxfd e) (pack (nfds e - 1 - i) i (spollfd e)) (nfds e - 1)
                   (pack (nfds e - 1 - i) i (spollfn e)))
                 = take i (entries e) ++ drop (S i) (entries e)).
    { unfold entries. cbn [nfds spollfd spollfn]. rewrite !take_pack by lia.
      rewrite zip_with_app by (rewrite !length_take; lia).
      rewrite zip_with_take, zip_with_drop, !take_take. by replace (i `min` nfds e)%nat with i by lia. }
    assert (Hflt : filter (fun x => entry_fd x <> f) (entries e) = take i (entries e) ++ drop (S i) (entries e)).
    { destruct (entries_lookup e i Hok Hi) as (p' & g & Hp' & _ & Hei).
      assert (p' = p) as -> by congruence. subst f.
      rewrite <- (take_drop_middle _ _ _ Hei) at 1. rewrite filter_app, filter_cons, decide_False by (by intros []).
      f_equal; apply filter_all; apply Forall_forall; intros x Hx Heq; apply list_elem_of_lookup in Hx as [j Hj].
      - apply lookup_take_Some in Hj as [Hj ?]. pose proof (entry_index_unique e i j p x Hok Hi Hp' Hj Heq). lia.
      - rewrite lookup_drop in Hj. pose proof (entry_index_unique e i _ p x Hok Hi Hp' Hj Heq). lia. }
    split; [|by rewrite Hflt]. constructor; cbn [nfds spollfd spollfn maxfd]; rewrite ?length_pack; [done..|lia|].
    rewrite take_pack by lia. rewrite fmap_app. pose proof H4 as Hnd.
    assert (Hsub : fd <$> take (nfds e) (spollfd e) = (fd <$> take i (spollfd e)) ++ f :: (fd <$> drop (S i) (take (nfds e) (spollfd e)))).
    { rewrite <- (take_drop_middle (take (nfds e) (spollfd e)) i p) at 1 by (by rewrite lookup_take_lt by lia).
      rewrite fmap_app. cbn. rewrite take_take. replace (i `min` nfds e)%nat with i by lia. by rewrite Hfd. }
    rewrite Hsub in Hnd. rewrite <- Permutation_middle in Hnd. by apply NoDup_cons in Hnd as [_ ?].
  - split; [done|]. split; [done|]. symmetry. apply filter_all.
    apply Forall_forall. intros x Hx Heq. apply Hs. rewrite <- Heq. by apply list_elem_of_fmap_2.
Qed.

(** ** The table as a finite map *)

(** A registration: the events waited for, the call-back and its argument. *)
Definition reg : Type := Z * fnptr * Z.
Definition entry_reg (x : entry) : Z * reg := (entry_fd x, (events x.1, fn x.2, userRef x.2)).
Definition regs (e : pollextensions) : gmap Z reg := list_to_map (entry_reg <$> entries e).

Lemma entry_reg_keys l : (entry_reg <$> l).*1 = entry_fd <$> l.
Proof. by rewrite <- list_fmap_compose. Qed.

Lemma regs_nodup e : table_ok e -> NoDup (entry_reg <$> entries e).*1.
Proof. intros Hok. rewrite entry_reg_keys, entries_fds by done. by apply t_nodup. Qed.

Lemma regs_lookup e f x : table_ok e ->
  regs e !! f = Some x <-> exists y, y ∈ entries e /\ entry_reg y = (f, x).
Proof.
  intros Hok. unfold regs. rewrite <- elem_of_list_to_map by (by apply regs_nodup).
  rewrite list_elem_of_fmap. split; intros (y & ? & ?); eauto.
Qed.

Lemma regs_none e f : regs e !! f = None <-> f ∉ entry_fd <$> entries e.
Proof. unfold regs. by rewrite <- not_elem_of_list_to_map, entry_reg_keys. Qed.

(** What a poll table promises to the components that register in it. *)
Class PollOps (A : Type) := {
  pt_set : A -> fnptr -> pollfd -> Z -> Z * A;
  pt_unset : A -> Z -> A;
  pt_ok : A -> Prop;
  pt_regs : A -> gmap Z reg;
  pt_cap : A -> nat
}.
Class PollLaws (A : Type) `{PollOps A} : Prop := {
  pt_set_ok : forall t f p r, pt_ok t -> pt_ok (pt_set t f p r).2;
  pt_set_known : forall t f p r, pt_ok t -> is_Some (pt_regs t !! fd p) ->
    (pt_set t f p r).1 = 1 /\ pt_regs (pt_set t f p r).2 = <[fd p := (events p, f, r)]> (pt_regs t);
  pt_set_new : forall t f p r, pt_ok t -> pt_regs t !! fd p = None -> (size (pt_regs t) < pt_cap t)%nat ->
    (pt_set t f p r).1 = 0 /\ pt_regs (pt_set t f p r).2 = <[fd p := (events p, f, r)]> (pt_regs t);
  pt_set_full : forall t f p r, pt_ok t -> pt_regs t !! fd p = None -> size (pt_regs t) = pt_cap t ->
    pt_set t f p r = (-1, t);
  pt_set_cap : forall t f p r, pt_cap (pt_set t f p r).2 = pt_cap t;
  pt_size : forall t, pt_ok t -> (size (pt_regs t) <= pt_cap t)%nat;
  pt_unset_ok : forall t f, pt_ok t -> pt_ok (pt_unset t f);
  pt_unset_regs : forall t f, pt_ok t -> pt_regs (pt_unset t f) = delete f (pt_regs t);
  pt_unset_cap : forall t f, pt_cap (pt_unset t f) = pt_cap t
}.

#[export] Instance ext_ops : PollOps pollextensions :=
  { pt_set := ext_setcallback; pt_unset := ext_unsetcallback; pt_ok := table_ok; pt_regs := regs; pt_cap := maxfd }.

Lemma regs_size e : table_ok e -> size (regs e) = nfds e.
Proof.
  intros Hok. unfold regs. rewrite map_size_list_to_map by (by apply regs_nodup).
  by rewrite length_fmap, entries_length.
Qed.

Lemma fd_index_some e f : table_ok e -> is_Some (regs e !! f) -> exists i, fd_index e f = Some i.
Proof.
  intros Hok [x Hx]. pose proof (fd_index_spec e f Hok) as Hs. destruct (fd_index e f); [eauto|].
  apply regs_none in Hs. congruence.
Qed.

Lemma fd_index_none e f : table_ok e -> regs e !! f = None -> fd_index e f = None.
Proof.
  intros Hok Hn%regs_none. pose proof (fd_index_spec e f Hok) as Hs. destruct (fd_index e f) as [i|]; [|done].
  destruct Hs as (Hi & p & Hp & <-). exfalso. apply Hn.
  destruct (entries_lookup e i Hok Hi) as (p' & g & Hp' & _ & He). simplify_eq.
  apply list_elem_of_fmap. exists (p, g). split; [done|]. by eapply list_elem_of_lookup_2.
Qed.

Lemma entry_reg_update f pfd r x :
  entry_reg (update_entry f pfd r x) = if fd pfd =? entry_fd x then (entry_fd x, (events pfd, f, r)) else entry_reg x.
Proof. unfold update_entry. by destruct (fd pfd =? entry_fd x). Qed.

Lemma list_to_map_update f pfd r l : fd pfd ∈ entry_fd <$> l -> NoDup (entry_fd <$> l) ->
  list_to_map (entry_reg <$> (update_entry f pfd r <$> l))
  = (<[fd pfd := (events pfd, f, r)]> (list_to_map (entry_reg <$> l)) : gmap Z reg).
Proof.
  induction l as [|x l IH]; [intros Hin; inversion Hin|]. cbn [fmap list_fmap]. intros Hin [Hx Hnd]%NoDup_cons.
  rewrite entry_reg_update. destruct (Z.eqb_spec (fd pfd) (entry_fd x)) as [He|Hne].
  - cbn [list_to_map foldr uncurry entry_reg]. rewrite He. cbn [fst snd entry_reg].
    rewrite insert_insert_eq. f_equal. f_equal. rewrite <- list_fmap_compose. apply list_fmap_ext.
    intros i y Hy. simpl. rewrite entry_reg_update, (proj2 (Z.eqb_neq _ _)); [done|].
    intros Hyx. apply Hx. rewrite <- He, Hyx. apply list_elem_of_fmap_2. by eapply list_elem_of_lookup_2.
  - cbn [list_to_map foldr uncurry entry_reg fst snd]. apply elem_of_cons in Hin as [?|Hin]; [done|].
    change (foldr _ _ (entry_reg <$> (update_entry f pfd r <$> l)))
      with (list_to_map (M:=gmap Z reg) (entry_reg <$> (update_entry f pfd r <$> l))).
    rewrite IH by done. by rewrite insert_insert_ne.
Qed.

Lemma list_to_map_filter f l :
  list_to_map (entry_reg <$> filter (fun x => entry_fd x <> f) l)
  = (delete f (list_to_map (entry_reg <$> l)) : gmap Z reg).
Proof.
  induction l as [|x l IH]; [symmetry; apply delete_empty|]. rewrite filter_cons. cbn [fmap list_fmap].
  case_decide as Hd; cbn [fmap list_fmap list_to_map foldr uncurry entry_reg fst snd].
  - change (foldr _ _ (entry_reg <$> l)) with (list_to_map (M:=gmap Z reg) (entry_reg <$> l)).
    rewrite delete_insert_ne by done. f_equal. exact IH.
  - change (foldr _ _ (entry_reg <$> l)) with (list_to_map (M:=gmap Z reg) (entry_reg <$> l)).
    subst f. by rewrite delete_insert_eq.
Qed.

Lemma ext_set_maxfd e f p r : maxfd (ext_setcallback e f p r).2 = maxfd e.
Proof. unfold ext_setcallback. destruct (fd_index e (fd p)); [done|]. by case_bool_decide. Qed.

#[export] Instance ext_laws : PollLaws pollextensions.
Proof.
  assert (Hknown : forall t f p r, table_ok t -> is_Some (regs t !! fd p) ->
    (ext_setcallback t f p r).1 = 1 /\ table_ok (ext_setcallback t f p r).2 /\
    regs (ext_setcallback t f p r).2 = <[fd p := (events p, f, r)]> (regs t)).
  { intros t f p r Hok Hin. destruct (fd_index_some _ _ Hok Hin) as [i Hi].
    destruct (setcallback_update t f p r i Hok Hi) as (H1 & _ & H2 & H3). split; [done|]. split; [done|].
    unfold regs at 1. rewrite H3. apply list_to_map_update.
    - destruct (decide (fd p ∈ entry_fd <$> entries t)) as [|Hn%regs_none]; [done|]. destruct Hin; congruence.
    - rewrite entries_fds by done. by apply t_nodup. }
  assert (Hnew : forall t f p r, table_ok t -> regs t !! fd p = None -> (nfds t < maxfd t)%nat ->
    (ext_setcallback t f p r).1 = 0 /\ table_ok (ext_setcallback t f p r).2 /\
    regs (ext_setcallback t f p r).2 = <[fd p := (events p, f, r)]> (regs t)).
  { intros t f p r Hok Hin Hlt. pose proof (fd_index_none _ _ Hok Hin) as Hix.
    destruct (setcallback_new t f p r Hok Hix Hlt) as (H1 & _ & H2 & H3). split; [done|]. split; [done|].
    unfold regs at 1. rewrite H3, fmap_app.
    change (entry_reg <$> [new_entry f p r]) with [(fd p, (events p, f, r))]. rewrite list_to_map_snoc.
    - done.
    - rewrite entry_reg_keys. by apply regs_none. }
  constructor; simpl.
  - intros t f p r Hok. destruct (regs t !! fd p) eqn:E; [by apply Hknown|].
    destruct (decide (nfds t < maxfd t)%nat); [by apply Hnew|].
    rewrite setcallback_full; [done..|by apply fd_index_none|]. pose proof (t_nfds _ Hok). lia.
  - intros t f p r Hok Hin. by destruct (Hknown t f p r Hok Hin) as (? & _ & ?).
  - intros t f p r Hok Hin Hlt. rewrite regs_size in Hlt by done. by destruct (Hnew t f p r Hok Hin Hlt) as (? & _ & ?).
  - intros t f p r Hok Hin Hsz. rewrite regs_size in Hsz by done. apply setcallback_full; [done| |done]. by apply fd_index_none.
  - intros. apply ext_set_maxfd.
  - intros t Hok. rewrite regs_size by done. by apply t_nfds.
  - intros t f Hok. by apply unsetcallback_spec.
  - intros t f Hok. destruct (unsetcallback_spec t f Hok) as (_ & _ & H). unfold regs at 1. rewrite H. apply list_to_map_filter.
  - intros t f. unfold ext_unsetcallback. by destruct (fd_index t f).
Qed.
