(* ===== verification/SelectTimerLoop.v ===== *)
(** * SelectTimer: expiry

    What [timerGetDelay_r] does with the queue: call-backs preserve the
    representation, exactly the expired timers are called back, in order, and
    the delay is the time to the first remaining timer. *)
From Stdlib Require Import ZArith Lia.
From stdpp Require Import base gmap list strings.
From S2P Require Import Prelude SelectTimer SelectTimerFacts PollTable.

Open Scope Z_scope.

(** ** The representation does not see the other fields *)
Lemma repr_ext th th' q fl det :
  heap th' = heap th -> timers th' = timers th -> freeTimerList th' = freeTimerList th ->
  freeTimers th' = freeTimers th -> repr th q fl det -> repr th' q fl det.
Proof. intros H1 H2 H3 H4 []. constructor; rewrite ?H1, ?H2, ?H3, ?H4; done. Qed.

Lemma tseg_core h hd q1 p c q2 tl :
  tseg h hd (q1 ++ (p, c) :: q2) tl -> exists t, h !! p = Some t /\ core t = c.
Proof. intros (mid & _ & t & _ & Ht & Hc & _)%lseg_app. eauto. Qed.

Lemma repr_store_on th q1 q2 p c fl det t t' :
  repr th (q1 ++ (p, c) :: q2) fl det -> heap th !! p = Some t -> next t' = next t ->
  expires t' = expires t -> state t' = Running ->
  repr (with_heap (<[p := t']> (heap th)) th) (q1 ++ (p, core t') :: q2) fl det.
Proof.
  intros R Hp Hnx He Hs. pose proof (repr_nodup_q _ _ _ _ R) as Hndq.
  destruct R as [Hq (lf & Hlf & Hf) Hnd Hdom Hc Hm Ho Hr].
  destruct (tseg_core _ _ _ _ _ _ _ Hq) as (t2 & Ht2 & Hcore). simplify_eq.
  assert (Hk : (q1 ++ (p, core t') :: q2).*1 = (q1 ++ (p, core t) :: q2).*1) by (by rewrite !fmap_app).
  assert (Hpq : p ∈ (q1 ++ (p, core t) :: q2).*1) by (rewrite fmap_app; set_solver).
  rewrite fmap_app in Hndq. simpl in Hndq.
  apply NoDup_app in Hndq as (_ & Hd & (Hp2 & _)%NoDup_cons).
  assert (Hp1 : p ∉ q1.*1) by (intros Hin; eapply Hd; [done|by left]).
  assert (Hu : upd p (core t') (q1 ++ (p, core t) :: q2) = q1 ++ (p, core t') :: q2).
  { unfold upd. rewrite map_app. fold (upd p (core t') q1). simpl. rewrite decide_True by done.
    fold (upd p (core t') q2). by rewrite !upd_notin. }
  constructor; simpl; rewrite ?Hk; try done.
  - rewrite <- Hu. by eapply lseg_update.
  - exists lf. split; [done|]. apply lseg_insert; [|done].
    apply NoDup_app in Hnd as (_ & Hd' & _). intros Hin. eapply Hd'; [done|]. apply elem_of_app. by left.
  - rewrite dom_insert_L, <- Hdom. apply elem_of_dom_2 in Hp. by apply subseteq_union_1_L, singleton_subseteq_l.
  - unfold ordered in *. apply StronglySorted_app in Ho as (H1 & H2 & [H3 H4]%StronglySorted_cons).
    apply StronglySorted_app. split_and!; [|done|apply StronglySorted_cons; split; [|done]].
    + intros x y Hx [->|Hy]%elem_of_cons; [|apply H1; [done|by right]].
      specialize (H1 x (p, core t) Hx (list_elem_of_here _ _)). simpl in *. by rewrite He.
    + simpl in *. by rewrite He.
  - apply Forall_app in Hr as [? [_ ?]%Forall_cons]. apply Forall_app. by repeat constructor.
Qed.

(** ** Call-backs preserve the representation *)
Definition cb_exit (th : TimeHandle) (w : exit_reason) : Prop :=
  w = BadPointer \/ (w = AssertFailed /\ polld th = None).

Lemma post_load_dead p th tr : heap th !! p = None -> forall Q (X : exit_reason -> Prop),
  X BadPointer -> post (load p) (th, tr) Q X.
Proof. intros Hp Q X HX. unfold load, post, mbind, M_bind. simpl. by rewrite Hp. Qed.

Lemma timerStop_dead p th tr Q (X : exit_reason -> Prop) :
  heap th !! p = None -> X BadPointer -> post (timerStop_r p) (th, tr) Q X.
Proof. intros. unfold timerStop_r. post_step. by apply post_load_dead. Qed.

Lemma timerModify_dead p ms r th tr Q (X : exit_reason -> Prop) :
  heap th !! p = None -> X BadPointer -> post (timerModify p ms r) (th, tr) Q X.
Proof. intros. unfold timerModify. post_step. by apply post_load_dead. Qed.

(** What happens to the descriptor table: it is neither created nor dropped,
    keeps its capacity and stays well formed. *)
Definition table_kept (a b : option pollextensions) : Prop :=
  match a, b with
  | None, None => True
  | Some e, Some e' => maxfd e' = maxfd e /\ (table_ok e -> table_ok e')
  | _, _ => False
  end.

Lemma table_kept_refl a : table_kept a a.
Proof. by destruct a. Qed.
Lemma table_kept_trans a b c : table_kept a b -> table_kept b c -> table_kept a c.
Proof. destruct a, b, c; simpl; try done. intros [-> ?] [-> ?]. auto. Qed.
Lemma table_kept_none a b : table_kept a b -> b = None <-> a = None.
Proof. by destruct a, b. Qed.
Lemma table_kept_eq a b : b = a -> table_kept a b.
Proof. intros ->. apply table_kept_refl. Qed.

Definition cb_done (th : TimeHandle) (det : list ptr) (c' : TimeHandle * list (event selE)) : Prop :=
  activeTimer c'.1 = activeTimer th /\ table_kept (polld th) (polld c'.1) /\
  exists q' fl', repr c'.1 q' fl' det.

Lemma cb_continue {A} (m : T A) th th' tr' det :
  activeTimer th' = activeTimer th -> table_kept (polld th) (polld th') ->
  post m (th', tr') (fun _ => cb_done th' det) (cb_exit th') ->
  post m (th', tr') (fun _ => cb_done th det) (cb_exit th).
Proof.
  intros Ha Hp Hm. eapply post_mono; [exact Hm| |].
  - intros a c'. unfold cb_done. rewrite Ha. intros (? & Hk & ?). eauto using table_kept_trans.
  - intros w. unfold cb_exit. by rewrite (table_kept_none _ _ Hp).
Qed.

Lemma repr_polld x th q fl det : repr th q fl det -> repr (with_polld x th) q fl det.
Proof. by apply repr_ext. Qed.

Lemma run_cb_post env c th tr q fl det :
  repr th q fl det -> post (run_cb env c) (th, tr) (fun _ => cb_done th det) (cb_exit th).
Proof.
  revert th tr q fl. induction c as [rc|ms f r k IH|t k IH|t ms r k IH|f pfd r k IH|fd k IH];
    intros th tr q fl R; simpl.
  - post_step. split; [done|]. split; [apply table_kept_refl|]. eauto.
  - post_step. eapply post_mono; [eapply sat_post, timerStart_sat, R| |done].
    intros p [th' tr'] (_ & _ & Ha & Hp & _ & R'). cbn [fst] in *.
    apply cb_continue; [done|by apply table_kept_eq|]. eapply IH, R'.
  - post_step. destruct (decide (t ∈ dom (heap th))) as [Ht|Ht%not_elem_of_dom];
      [|apply timerStop_dead; [done|by left]].
    eapply post_mono; [eapply sat_post, timerStop_sat; done| |done].
    intros _ [th' tr'] (_ & Ha & Hp & R'). cbn [fst] in *.
    apply cb_continue; [done|by apply table_kept_eq|]. eapply IH, R'.
  - post_step. destruct (decide (t ∈ dom (heap th))) as [Ht|Ht%not_elem_of_dom];
      [|apply timerModify_dead; [done|by left]].
    eapply post_mono; [eapply sat_post, timerModify_sat; done| |done].
    intros _ [th' tr'] (_ & Ha & Hp & R'). cbn [fst] in *.
    apply cb_continue; [done|by apply table_kept_eq|]. eapply IH, R'.
  - post_step. unfold poll_setcallback, get_polld. do 3 post_step.
    destruct (polld th) as [e|] eqn:He; [|by right].
    destruct (ext_setcallback e f pfd r) as [rc e'] eqn:Hset.
    apply sat_post, sat_ret. rewrite Hset. do 3 post_step.
    apply cb_continue; [done| |eapply IH, repr_polld, R].
    rewrite He. split; [by rewrite <- (ext_set_maxfd e f pfd r), Hset|].
    intros Hok. pose proof (pt_set_ok e f pfd r Hok) as Hok'. simpl in Hok'. by rewrite Hset in Hok'.
  - post_step. unfold poll_unsetcallback, get_polld. do 3 post_step.
    destruct (polld th) as [e|] eqn:He; [|by right].
    apply sat_post, sat_ret. post_step. apply cb_continue; [done| |eapply IH, repr_polld, R].
    rewrite He. split; [exact (pt_unset_cap e fd)|exact (pt_unset_ok e fd)].
Qed.

(** ** One expired timer *)
Definition loop_exit (th : TimeHandle) (w : exit_reason) : Prop := cb_exit th w \/ w = OutOfFuel.

Lemma pop_queue th p c q fl det :
  repr th ((p, c) :: q) fl det -> exists t, heap th !! p = Some t /\ core t = c /\
    timers th = Some p /\ repr (with_timers (next t) th) q fl (p :: det).
Proof.
  intros R. destruct (unlink_repr _ [] _ _ _ _ _ R) as (t & Ht & Ru).
  destruct (r_timers _ _ _ _ R) as (t' & -> & Ht' & Hc & _). simplify_eq. eauto.
Qed.

(** Entering the call-back of the first timer. *)
Definition entered (p : ptr) (t : TimerInternal) (th : TimeHandle) : TimeHandle :=
  with_active (Some p) (with_heap (<[p := t_state Active t]> (heap th)) (with_timers (next t) th)).

Lemma entered_repr th p c q fl t :
  repr th ((p, c) :: q) fl [] -> heap th !! p = Some t -> repr (entered p t th) q fl [p].
Proof.
  intros R Ht. destruct (pop_queue _ _ _ _ _ _ R) as (t' & Ht' & _ & _ & R'). simplify_eq.
  eapply repr_ext; [..|apply (repr_store_det _ _ _ _ p (t_state Active t) R'); by left]; done.
Qed.

Lemma fire_enter env p c q fl th tr Q t :
  repr th ((p, c) :: q) fl [] -> activeTimer th = None -> heap th !! p = Some t ->
  forall X,
  post (c ← call env (timeout_cb (sr t) (ref t));
        rc ← run_cb env c;
        modify (with_active None) ;;
        now ← call env gettimeofday;
        t ← load p;
        (if bool_decide (state t = Deleted) || (rc =? 0) then release p
         else
           rescedule p (Some now) ;;
           t ← load p; store p (t_lastsec (tv_sec now) t)) ;;
        mret now) (entered p t th, tr) Q X ->
  post (fire env p) (th, tr) Q X.
Proof.
  intros R Ha Ht X HQ. unfold fire. post_step.
  eapply sat_post, sat_load; [done|]. do 2 post_step.
  unfold store. do 5 post_step.
  unfold assert_c. rewrite bool_decide_true by done. post_step. do 2 post_step. exact HQ.
Qed.

(** How a timer that is restarted at [now] goes back into the queue. *)
Definition rearmed (t : TimerInternal) (now : timeval) : TimerInternal :=
  t_lastsec (tv_sec now) (scheduled t (Some now)).
Definition dropped (t : TimerInternal) (rc : Z) : bool :=
  bool_decide (state t = Deleted) || (rc =? 0).

Lemma insert_timer_split x l :
  insert_timer x l = (split_at (expires x.2) l).1 ++ x :: (split_at (expires x.2) l).2.
Proof. unfold insert_timer. by destruct (split_at _ l). Qed.

Lemma fire_leave p t th tr q fl rc now :
  repr th q fl [p] -> heap th !! p = Some t ->
  sat (t ← load p;
       (if bool_decide (state t = Deleted) || (rc =? 0) then release p
        else
          rescedule p (Some now) ;;
          t ← load p; store p (t_lastsec (tv_sec now) t)) ;;
       mret now) (th, tr)
    (fun now' c' => now' = now /\ c'.2 = tr /\ activeTimer c'.1 = activeTimer th /\ polld c'.1 = polld th /\
       repr c'.1 (if dropped t rc then q else insert_timer (p, rearmed t now) q)
                 (if dropped t rc then recycle p fl else fl) []).
Proof.
  intros R Ht. sat_step. eapply sat_load; [done|]. fold (dropped t rc). destruct (dropped t rc).
  - sat_step. eapply sat_mono; [by apply (release_repr p _ _ q fl [] [])|].
    intros _ [th' tr']; cbn [fst snd]; intros (-> & (_ & _ & Ha & Hp) & R'). by apply sat_ret.
  - sat_step. sat_step.
    eapply sat_mono; [by apply (rescedule_repr p (Some now) _ _ q fl [] [])|].
    intros _ [th' tr']; cbn [fst snd]; intros (-> & (_ & _ & _ & Ha & Hp) & R'). cbn [fst snd app] in *.
    rewrite insert_timer_split in R'. cbn [snd] in R'.
    destruct (tseg_core _ _ _ _ _ _ _ (r_timers _ _ _ _ R')) as (t2 & Ht2 & Hc).
    sat_step. eapply sat_load; [done|]. apply sat_store. apply sat_ret. split_and!; [done..|].
    rewrite insert_timer_split. cbn [fst snd] in *.
    assert (He : expires t2 = expires (scheduled t (Some now))) by (by rewrite <- Hc).
    assert (Hs : state t2 = Running) by (change (state (core t2) = Running); by rewrite Hc).
    replace (rearmed t now) with (core (t_lastsec (tv_sec now) t2))
      by (unfold rearmed; rewrite <- Hc; done).
    rewrite <- He in R'. eapply repr_store_on; [|exact Ht2|done..]. cbn. rewrite He. rewrite He in R'. exact R'.
Qed.

(** With any call-back that uses live timers, firing ends in a good state. *)
Lemma fire_post env p c q fl th tr :
  repr th ((p, c) :: q) fl [] -> activeTimer th = None ->
  post (fire env p) (th, tr)
    (fun now c' => activeTimer c'.1 = None /\ table_kept (polld th) (polld c'.1) /\
       exists q' fl', repr c'.1 q' fl' [])
    (cb_exit th).
Proof.
  intros R Ha. destruct (pop_queue _ _ _ _ _ _ R) as (t & Ht & _ & _ & _).
  eapply fire_enter; [done..|]. do 2 post_step. post_step.
  pose proof (entered_repr _ _ _ _ _ _ R Ht) as Re.
  eapply post_mono; [by eapply run_cb_post| |done].
  intros rc [th1 tr1] (_ & Hp1 & q1 & fl1 & R1). cbn [fst snd] in *. do 4 post_step.
  assert (R1' : repr (with_active None th1) q1 fl1 [p]) by (by eapply repr_ext; [..|exact R1]).
  destruct (proj1 (repr_lookup _ _ _ _ p R1')) as [t1 Ht1]; [set_solver|].
  eapply post_mono; [eapply sat_post, fire_leave; [exact R1'|exact Ht1]| |done].
  intros now [th2 tr2] (_ & _ & Ha2 & Hp2 & R2). cbn [fst snd] in *.
  split; [done|]. split; [rewrite Hp2; exact Hp1|eauto].
Qed.

(** ** The expiry loop, with any call-backs *)

(** The clock stepped back by more than the first timer's last restart. *)
Definition stepped_back (now : timeval) (t : TimerInternal) : Prop := tv_sec now < lastsec t.

Lemma backstep_sat p c q fl th tr now :
  repr th ((p, c) :: q) fl [] ->
  sat (backstep p now) (th, tr) (fun _ c' =>
    c'.2 = tr /\ activeTimer c'.1 = activeTimer th /\ polld c'.1 = polld th /\
    repr c'.1 (insert_timer (p, scheduled (t_expires (TV (tv_sec now) (tv_usec (expires c))) c) None) q) fl []).
Proof.
  intros R. destruct (pop_queue _ _ _ _ _ _ R) as (t & Ht & <- & _ & Ru).
  unfold backstep. sat_step. eapply sat_load; [done|]. do 2 sat_step. sat_step. apply sat_store.
  set (t1 := t_expires _ _).
  eapply sat_mono; [apply (rescedule_repr p None _ _ q fl [] [] t1)|].
  - apply (repr_store_det _ _ _ _ p t1 Ru). by left.
  - apply lookup_insert_eq.
  - intros _ [th' tr']; cbn [fst snd]; intros (-> & (_ & _ & _ & ? & ?) & R'). done.
Qed.

(** What the loop leaves behind: no active timer, the representation, and a
    first timer that has not expired, unless the clock was seen to step back. *)
Definition settled (now : timeval) (q : tlist) : Prop :=
  match q with
  | [] => True
  | (_, t) :: _ => tv_le now (expires t)
  end.

Lemma expire_loop_post env fuel now th tr q fl :
  repr th q fl [] -> activeTimer th = None ->
  post (expire_loop env fuel now) (th, tr)
    (fun now' c' => activeTimer c'.1 = None /\ table_kept (polld th) (polld c'.1) /\
       exists q' fl', repr c'.1 q' fl' [] /\
         (settled now' q' \/ exists q0 p t, q' = insert_timer (p, scheduled (t_expires (TV (tv_sec now') (tv_usec (expires t))) t) None) q0
                                       /\ stepped_back now' t))
    (fun w => cb_exit th w \/ w = OutOfFuel).
Proof.
  revert now th tr q fl. induction fuel as [|fuel IH]; intros now th tr q fl R Ha; simpl.
  { apply post_exit. by right. }
  do 2 post_step. destruct q as [|[p c] q].
  - pose proof (r_timers _ _ _ _ R) as Hq. simpl in Hq. rewrite Hq. post_step.
    split; [done|]. split; [apply table_kept_refl|]. exists [], fl. split; [done|]. by left.
  - destruct (pop_queue _ _ _ _ _ _ R) as (t & Ht & Hc & Htm & _). rewrite Htm.
    post_step. eapply sat_post, sat_load; [done|]. destruct (expired now t) eqn:Hex.
    + post_step. eapply post_mono; [by eapply fire_post| |by left].
      intros now' [th' tr'] (Ha' & Hp' & q' & fl' & R'). cbn [fst snd] in *.
      eapply post_mono; [by eapply IH| |].
      * intros now2 c2 (? & ? & ?). split; [done|]. split; [by eapply table_kept_trans|done].
      * intros w. unfold cb_exit. by rewrite (table_kept_none _ _ Hp').
    + post_step. unfold when. destruct (Z.ltb_spec (tv_sec now) (lastsec t)) as [Hb|Hb].
      * eapply post_mono; [by eapply sat_post, backstep_sat| |exact (fun _ H => H)].
        intros _ [th' tr'] (_ & Ha' & Hp' & R'). cbn [fst snd] in *. post_step.
        split; [by rewrite Ha'|]. split; [by apply table_kept_eq|]. do 2 eexists. split; [exact R'|].
        right. do 3 eexists. split; [done|]. unfold stepped_back. by subst c.
      * do 2 post_step. split; [done|]. split; [apply table_kept_refl|]. do 2 eexists. split; [exact R|]. left.
        simpl. by subst c.
Qed.

(** ** The delay *)
Definition us (t : timeval) : Z := tv_sec t * 1000000 + tv_usec t.

Lemma delay_until_exact now e : us (delay_until now e) = us e - us now.
Proof. unfold delay_until, us. destruct (Z.ltb_spec (tv_usec e) (tv_usec now)); simpl; lia. Qed.

Definition usec_ok (t : timeval) : Prop := 0 <= tv_usec t <= 1000000.

Lemma delay_until_nonneg now e :
  usec_ok now -> usec_ok e -> tv_le now e ->
  0 <= tv_sec (delay_until now e) /\ 0 <= tv_usec (delay_until now e) <= 1000000.
Proof.
  unfold delay_until, usec_ok. intros. destruct (Z.ltb_spec (tv_usec e) (tv_usec now)); simpl; tv_solve.
Qed.

(** Adding milliseconds moves time forward by exactly that much, and leaves the
    microseconds in range (the bound [1000000] itself included). *)
Lemma add_ms_us e ms : us (add_ms e ms) = us e + ms * 1000.
Proof.
  unfold add_ms, us. pose proof (Z.quot_rem' ms 1000) as Hms. revert Hms.
  generalize (Z.quot ms 1000) (Z.rem ms 1000). intros q r Hms.
  destruct (Z.ltb_spec 1000000 (tv_usec e + r * 1000)); cbn [tv_sec tv_usec]; lia.
Qed.

Lemma add_ms_range e ms : 0 <= ms -> usec_ok e -> usec_ok (add_ms e ms).
Proof.
  unfold add_ms, usec_ok. intros Hms He. pose proof (Z.rem_bound_pos ms 1000 Hms ltac:(lia)).
  destruct (Z.ltb_spec 1000000 (tv_usec e + Z.rem ms 1000 * 1000)); simpl; lia.
Qed.

Lemma add_ms_le e ms : 0 <= ms -> tv_le e (add_ms e ms).
Proof.
  intros Hms. unfold add_ms. pose proof (Z.rem_bound_pos ms 1000 Hms ltac:(lia)).
  pose proof (Z.quot_pos ms 1000 Hms ltac:(lia)).
  destruct (Z.ltb_spec 1000000 (tv_usec e + Z.rem ms 1000 * 1000)); tv_solve.
Qed.

Lemma next_expiry_future e ms now : 0 <= ms -> tv_le now (next_expiry e ms (Some now)).
Proof.
  intros Hms. unfold next_expiry. destruct (tv_lt _ now) eqn:E; [by apply add_ms_le|done].
Qed.

(** ** Expiry when the clock stands still and the call-backs just return *)
Section quiet.
Context (env : environment selE) (now : timeval) (rcs : fnptr -> Z -> Z).
Hypothesis frozen : forall tr, env _ tr gettimeofday = now.
Hypothesis quiet : forall tr f r, env _ tr (timeout_cb f r) = CbRet (rcs f r).

Definition timer_rc (t : TimerInternal) : Z := rcs (sr t) (ref t).

Definition fired_events (q : tlist) : list (event selE) :=
  flat_map (fun x => [Ev (timeout_cb (sr x.2) (ref x.2)) (CbRet (timer_rc x.2));
                      Ev gettimeofday now]) q.

Definition after_fire (q : tlist) (x : ptr * TimerInternal) : tlist :=
  if timer_rc x.2 =? 0 then q else insert_timer (x.1, rearmed x.2 now) q.

Lemma fire_sat p c q fl th tr :
  repr th ((p, c) :: q) fl [] -> activeTimer th = None ->
  sat (fire env p) (th, tr) (fun now' c' =>
    now' = now /\ c'.2 = tr ++ fired_events [(p, c)] /\ activeTimer c'.1 = None /\ polld c'.1 = polld th /\
    exists fl', repr c'.1 (after_fire q (p, c)) fl' []).
Proof using frozen quiet.
  intros R Ha. destruct (pop_queue _ _ _ _ _ _ R) as (t & Ht & <- & _ & _).
  apply post_sat. eapply fire_enter; [done..|]. do 2 post_step. subst r. cbn [snd]. rewrite quiet.
  cbn [run_cb]. do 5 post_step. post_step. subst r. cbn [snd]. rewrite frozen.
  pose proof (entered_repr _ _ _ _ _ _ R Ht) as Re.
  assert (R1 : repr (with_active None (entered p t th)) q fl [p]) by (by eapply repr_ext; [..|exact Re]).
  eapply sat_post, sat_mono; [eapply (fire_leave p (t_state Active t)); [exact R1|apply lookup_insert_eq]|].
  intros now' [th' tr']; cbn [fst snd]; intros (-> & -> & Ha' & Hp' & R').
  split; [done|]. split; [by rewrite <- app_assoc|]. split; [done|]. split; [done|].
  unfold after_fire, timer_rc. cbn [fst snd].
  unfold dropped in R'. rewrite bool_decide_false in R' by done. cbn [orb] in R'.
  cbn [core t_next sr ref]. eexists. exact R'.
Qed.

Definition well_timed (q : tlist) : Prop :=
  Forall (fun x => 0 <= mS x.2 /\ lastsec x.2 <= tv_sec now) q.

Lemma insert_timer_app x l1 l2 :
  Forall (fun y => tv_lt (expires y.2) (expires x.2) = true) l1 -> ordered (l1 ++ l2) ->
  insert_timer x (l1 ++ l2) = l1 ++ insert_timer x l2.
Proof.
  intros H1 Ho. pose proof Ho as Ho2. unfold ordered in Ho2.
  apply StronglySorted_app in Ho2 as (_ & _ & Ho2). rewrite !insert_timer_ref by done.
  unfold insert_ref. clear Ho Ho2. induction H1 as [|y l1 Hy _ IH]; [done|]. simpl. rewrite Hy.
  destruct (span _ (l1 ++ l2)), (span _ l2). simpl in *. by rewrite IH.
Qed.

Lemma insert_settled x q : tv_le now (expires x.2) -> settled now q -> ordered q -> settled now (insert_timer x q).
Proof.
  intros Hx Hq Ho. rewrite insert_timer_ref by done. unfold insert_ref. destruct x as [p t].
  destruct q as [|[p' t'] q]; [done|]. simpl in *.
  destruct (tv_lt (expires t') (expires t)); [by destruct (span _ q)|done].
Qed.

Lemma expire_loop_quiet fuel fired rest fl th tr :
  repr th (fired ++ rest) fl [] -> activeTimer th = None ->
  Forall (fun x => expired now x.2 = true) fired -> settled now rest ->
  well_timed (fired ++ rest) -> (length fired < fuel)%nat ->
  sat (expire_loop env fuel now) (th, tr) (fun now' c' =>
    now' = now /\ c'.2 = tr ++ fired_events fired /\ activeTimer c'.1 = None /\ polld c'.1 = polld th /\
    settled now (foldl after_fire rest fired) /\
    exists fl', repr c'.1 (foldl after_fire rest fired) fl' []).
Proof using frozen quiet.
  revert fuel rest fl th tr. induction fired as [|[p c] fired IH];
    intros fuel rest fl th tr R Ha Hex Hset Hw Hfuel;
    (destruct fuel as [|fuel]; [simpl in Hfuel; lia|]); cbn [expire_loop]; sat_step; sat_step.
  - rewrite app_nil_r. cbn [app foldl] in *. destruct rest as [|[p c] rest].
    + pose proof (r_timers _ _ _ _ R) as Hq. simpl in Hq. rewrite Hq. sat_step. eauto 10.
    + destruct (pop_queue _ _ _ _ _ _ R) as (t & Ht & <- & Htm & _). rewrite Htm.
      sat_step. eapply sat_load; [done|].
      replace (expired now t) with false by (symmetry; exact Hset).
      apply Forall_cons in Hw as [[_ Hls] _]. simpl in Hls.
      replace (tv_sec now <? lastsec t) with false by lia. cbn [when]. sat_steps. eauto 10.
  - cbn [app] in R, Hw. destruct (pop_queue _ _ _ _ _ _ R) as (t & Ht & Hc & Htm & Ru). rewrite Htm.
    apply Forall_cons in Hex as [Hexp Hex]. apply Forall_cons in Hw as [[Hms Hls] Hw].
    pose proof (r_ordered _ _ _ _ R) as Ho. apply StronglySorted_cons in Ho as [_ Ho].
    sat_step. eapply sat_load; [done|].
    replace (expired now t) with true by (subst c; by symmetry). sat_step.
    eapply sat_mono; [by eapply fire_sat|]. intros now' [th' tr']; cbn [fst snd].
    intros (-> & -> & Ha' & Hp' & fl' & R').
    assert (Hins : after_fire (fired ++ rest) (p, c) = fired ++ after_fire rest (p, c)).
    { unfold after_fire. destruct (_ =? 0); [done|]. apply insert_timer_app; [|done].
      eapply Forall_impl; [exact Hex|]. intros y Hy.
      exact (tv_lt_le_trans _ _ _ Hy (next_expiry_future (expires c) (mS c) now Hms)). }
    rewrite Hins in R'.
    apply StronglySorted_app in Ho as (_ & _ & Hor).
    eapply sat_mono; [apply (IH fuel (after_fire rest (p, c)) fl'); try done|].
    + unfold after_fire. destruct (_ =? 0); [done|]. apply insert_settled; [|done..]. by apply next_expiry_future.
    + unfold well_timed, after_fire in *. apply Forall_app in Hw as [Hw1 Hw2]. apply Forall_app. split; [done|].
      destruct (_ =? 0); [done|]. rewrite insert_timer_perm. constructor; [split; [exact Hms|apply Z.le_refl]|done].
    + simpl in Hfuel. lia.
    + intros now' [th2 tr2]; cbn [fst snd]. intros (-> & -> & Ha2 & Hp2 & Hs2 & Hr2).
      split; [done|]. split; [by rewrite <- app_assoc|]. rewrite Hp2, Hp'. done.
Qed.

(** The due and the pending part of a queue. *)
Definition due (q : tlist) : tlist := (span (fun x => expired now x.2) q).1.
Definition pending (q : tlist) : tlist := (span (fun x => expired now x.2) q).2.
(** The queue once the due timers have been called back. *)
Definition after_due (q : tlist) : tlist := foldl after_fire (pending q) (due q).
Definition delay_of (q : tlist) : option timeval :=
  match q with [] => None | (_, t) :: _ => Some (delay_until now (expires t)) end.

Lemma pending_settled q : settled now (pending q).
Proof.
  unfold pending. destruct (span _ q).2 as [|[p t] l] eqn:E; [done|].
  by apply span_stop in E.
Qed.

Lemma timerGetDelay_quiet fuel q fl th tr :
  repr th q fl [] -> activeTimer th = None -> well_timed q -> (length q < fuel)%nat ->
  sat (timerGetDelay_r env fuel) (th, tr) (fun d c' =>
    d = delay_of (after_due q) /\ c'.2 = tr ++ Ev gettimeofday now :: fired_events (due q) /\
    activeTimer c'.1 = None /\ polld c'.1 = polld th /\ settled now (after_due q) /\
    exists fl', repr c'.1 (after_due q) fl' []).
Proof using frozen quiet.
  intros R Ha Hw Hf. unfold timerGetDelay_r. do 2 sat_step. subst r. cbn [snd]. rewrite frozen.
  pose proof (span_app (fun x => expired now x.2) q) as Hq. fold (due q) (pending q) in Hq.
  sat_step. rewrite Hq in R, Hw, Hf. rewrite length_app in Hf.
  eapply sat_mono; [apply (expire_loop_quiet fuel (due q) (pending q) fl); try done|].
  - apply span_all.
  - apply pending_settled.
  - lia.
  - fold (after_due q). intros now' [th' tr']; cbn [fst snd].
    intros (-> & -> & Ha' & Hp' & Hs & fl' & R'). rewrite <- app_assoc. cbn [app].
    sat_step. sat_step. destruct (after_due q) as [|[p c] q'].
    + pose proof (r_timers _ _ _ _ R') as Hn. simpl in Hn. rewrite Hn. sat_step. eauto 10.
    + destruct (pop_queue _ _ _ _ _ _ R') as (t & Ht & <- & Htm & _). rewrite Htm.
      sat_step. eapply sat_load; [done|]. do 3 sat_step. split_and!; try done.
      exists fl'. by eapply repr_ext; [..|exact R'].
Qed.

(** The microseconds of the queue stay in range, so that the delay is not negative. *)
Lemma after_due_usec q : Forall (fun x => 0 <= mS x.2 /\ usec_ok (expires x.2)) q -> usec_ok now ->
  Forall (fun x => 0 <= mS x.2 /\ usec_ok (expires x.2)) (after_due q).
Proof using.
  intros Hq Hn. rewrite (span_app (fun x => expired now x.2) q) in Hq. fold (due q) (pending q) in Hq.
  apply Forall_app in Hq as [Hd Hp]. unfold after_due. revert Hp. generalize (pending q).
  induction Hd as [|[p t] d [Hms Hu] _ IH]; intros l Hl; [done|]. simpl. apply IH.
  unfold after_fire. destruct (_ =? 0); [done|]. rewrite insert_timer_perm. constructor; [|done].
  split; [done|]. cbn. unfold next_expiry. destruct (tv_lt _ now); by apply add_ms_range.
Qed.
End quiet.
