(* ===== verification/SelectTimerPoll.v ===== *)
(** * SelectTimer: the poll loop

    [poll_execute] computes the delay, polls, and calls back the owners of the
    ready descriptors.  The dispatch loop ends within [rc] calls and one scan of
    the table, whatever the call-backs do to the table; when they leave it alone
    exactly the first [rc] ready entries are called, in table order. *)
From Stdlib Require Import ZArith Lia.
From stdpp Require Import base gmap list strings.
From S2P Require Import Prelude SelectTimer SelectTimerFacts PollTable SelectTimerLoop.

Open Scope Z_scope.

(** A handle between two calls of the interface. *)
Record handle_ok (th : TimeHandle) : Prop := {
  h_repr : exists q fl, repr th q fl (active_list th);
  h_table : exists e, polld th = Some e /\ table_ok e
}.

Definition only_bad (w : exit_reason) : Prop := w = BadPointer.

Lemma table_kept_some e b : table_kept (Some e) b -> table_ok e ->
  exists e', b = Some e' /\ maxfd e' = maxfd e /\ table_ok e'.
Proof. destruct b as [e'|]; [|done]. intros [? ?] ?. eauto 10. Qed.

Lemma active_list_eq th th' : activeTimer th' = activeTimer th -> active_list th' = active_list th.
Proof. unfold active_list. by intros ->. Qed.

(** ** Dispatch *)
Lemma dispatch_post env fuel i rc th tr e q fl det :
  repr th q fl det -> polld th = Some e -> table_ok e ->
  1 <= rc -> (i <= maxfd e)%nat -> (Z.to_nat rc + (maxfd e - i) < fuel)%nat ->
  post (dispatch env fuel i rc) (th, tr) (fun _ => cb_done th det) only_bad.
Proof.
  revert i rc th tr e q fl. induction fuel as [|fuel IH]; intros i rc th tr e q fl R He Hok Hrc Hi Hf; [lia|].
  assert (Hdone : forall tr, cb_done th det (th, tr)).
  { intros tr'. split; [done|]. split; [apply table_kept_refl|eauto]. }
  cbn [dispatch]. post_step. unfold get_polld. do 2 post_step. rewrite He. apply sat_post, sat_ret.
  case_bool_decide as Hlt; [|by post_step].
  pose proof Hok as [H1 H2 H3 H4].
  destruct (lookup_lt_is_Some_2 (spollfd e) i) as [p Hp]; [lia|]. rewrite Hp.
  destruct (lookup_lt_is_Some_2 (spollfn e) i) as [f Hfn]; [lia|].
  post_step. apply sat_post, sat_ret. destruct (ready p); [|by eapply IH; try done; lia].
  post_step. rewrite Hfn. apply sat_post, sat_ret. do 3 post_step.
  eapply post_mono; [by eapply run_cb_post| |].
  2:{ intros w [->|[_ Hn]]; [done|congruence]. }
  intros _ [th' tr'] (Ha & Hk & q' & fl' & R'). cbn [fst] in *.
  rewrite He in Hk. destruct (table_kept_some _ _ Hk Hok) as (e' & He' & Hm & Hok').
  assert (Hback : forall m : T (),
    post m (th', tr') (fun _ => cb_done th' det) only_bad -> post m (th', tr') (fun _ => cb_done th det) only_bad).
  { intros m Hpost. eapply post_mono; [exact Hpost| |done]. intros a c' (Ha2 & Hk2 & ?).
    split; [congruence|]. split; [|done]. eapply table_kept_trans; [|exact Hk2]. rewrite He, He'. by split. }
  destruct (Z.eqb_spec (rc - 1) 0).
  - apply Hback. post_step. split; [done|]. split; [apply table_kept_refl|eauto].
  - post_step. do 2 post_step. rewrite He'. apply sat_post, sat_ret.
    pose proof Hok' as [H1' _ _ _].
    destruct (lookup_lt_is_Some_2 (spollfd e') i) as [p' Hp']; [lia|]. rewrite Hp'.
    post_step. apply sat_post, sat_ret. apply Hback.
    destruct (fd p =? fd p'); eapply IH; try done; lia.
Qed.

(** The same loop when no call-back touches the table. *)
Section quiet.
Context (env : environment selE) (rcs : fnptr -> pollfd -> Z -> Z).
Hypothesis quiet : forall tr f p r, env _ tr (fd_cb f p r) = CbRet (rcs f p r).

Definition dispatched (l : list entry) : list (event selE) :=
  (fun x => Ev (fd_cb (fn x.2) x.1 (userRef x.2)) (CbRet (rcs (fn x.2) x.1 (userRef x.2)))) <$> l.

Definition ready_entries (l : list entry) : list entry := filter (fun x => ready x.1) l.

Lemma dispatch_quiet fuel i rc th tr e :
  polld th = Some e -> table_ok e -> 1 <= rc -> (i <= nfds e)%nat -> (nfds e - i < fuel)%nat ->
  sat (dispatch env fuel i rc) (th, tr) (fun _ c' =>
    c' = (th, tr ++ dispatched (take (Z.to_nat rc) (ready_entries (drop i (entries e)))))).
Proof using quiet.
  intros He Hok. pose proof Hok as [H1 H2 H3 H4]. revert i rc tr.
  induction fuel as [|fuel IH]; intros i rc tr Hrc Hi Hf; [lia|].
  cbn [dispatch]. sat_step. unfold get_polld. do 2 sat_step. rewrite He. apply sat_ret.
  case_bool_decide as Hlt.
  - destruct (entries_lookup e i Hok Hlt) as (p & f & Hp & Hfn & Hei).
    rewrite Hp, (drop_S _ _ _ Hei). unfold ready_entries. rewrite filter_cons. cbn [fst].
    sat_step. apply sat_ret. destruct (ready p) eqn:Er.
    + rewrite decide_True by exact I. rewrite Hfn. sat_step. apply sat_ret. do 3 sat_step. subst r.
      cbn [snd]. rewrite quiet. cbn [run_cb]. sat_step.
      destruct (Z.eqb_spec (rc - 1) 0) as [Hz|Hz].
      * sat_step. replace rc with 1 by lia. done.
      * sat_step. sat_step. sat_step. rewrite He. apply sat_ret. rewrite Hp.
        sat_step. apply sat_ret. rewrite Z.eqb_refl.
        eapply sat_mono; [apply IH; lia|]. intros _ c' ->. f_equal. rewrite <- app_assoc. f_equal.
        replace (Z.to_nat rc) with (S (Z.to_nat (rc - 1))) by lia. done.
    + rewrite decide_False by (intros []). apply IH; lia.
  - rewrite drop_ge by (rewrite entries_length by done; lia). sat_step. unfold ready_entries, dispatched. by rewrite filter_nil, take_nil, app_nil_r.
Qed.
End quiet.

(** ** [poll] writes the answers into the table *)
Lemma set_revents_fd rs l : fd <$> set_revents rs l = fd <$> l.
Proof. revert l. induction rs as [|r rs IH]; intros [|p l]; try done. simpl. by rewrite IH. Qed.

Lemma set_revents_length rs l : length (set_revents rs l) = length l.
Proof. by rewrite <- (length_fmap fd), set_revents_fd, length_fmap. Qed.

Lemma set_revents_ok e rs : table_ok e ->
  table_ok (MkPollExt (maxfd e) (set_revents rs (spollfd e)) (nfds e) (spollfn e)).
Proof.
  intros [H1 H2 H3 H4]. constructor; cbn; [by rewrite set_revents_length|done..|].
  by rewrite fmap_take, set_revents_fd, <- fmap_take.
Qed.

Lemma do_poll_sat env timeout th tr e :
  polld th = Some e -> table_ok e ->
  sat (do_poll env timeout) (th, tr) (fun rc c' =>
    let r := env _ tr (poll_sys (take (nfds e) (spollfd e)) timeout) in
    rc = r.1.1 /\ c'.2 = tr ++ [Ev (poll_sys (take (nfds e) (spollfd e)) timeout) r] /\
    exists e', c'.1 = with_polld (Some e') th /\ table_ok e' /\ maxfd e' = maxfd e /\
      entries e' = zip (set_revents (take (nfds e) r.2) (take (nfds e) (spollfd e))) (take (nfds e) (spollfn e))).
Proof.
  intros He Hok. unfold do_poll. sat_step. unfold get_polld. do 2 sat_step. rewrite He. apply sat_ret.
  do 2 sat_step. subst r. cbn [snd]. destruct (env _ tr _) as [[rc errno] rs]. cbn [fst snd].
  do 2 sat_step.
  assert (Hgoal : sat (mret rc : T Z)
    (with_polld (Some (MkPollExt (maxfd e) (set_revents (take (nfds e) rs) (spollfd e)) (nfds e) (spollfn e))) th,
     tr ++ [Ev (poll_sys (take (nfds e) (spollfd e)) timeout) (rc, errno, rs)])
    (fun rc0 c' => rc0 = rc /\ c'.2 = tr ++ [Ev (poll_sys (take (nfds e) (spollfd e)) timeout) (rc, errno, rs)] /\
      exists e', c'.1 = with_polld (Some e') th /\ table_ok e' /\ maxfd e' = maxfd e /\
      entries e' = zip (set_revents (take (nfds e) rs) (take (nfds e) (spollfd e))) (take (nfds e) (spollfn e)))).
  { sat_step. split; [done|]. split; [done|]. eexists. split; [done|].
    split; [by apply set_revents_ok|]. split; [done|]. unfold entries. cbn. f_equal.
    generalize (nfds e) (spollfd e). intros n l. clear. revert n l. induction rs as [|r rs IH]; intros n l.
    - by rewrite take_nil.
    - destruct n, l; try done. simpl. by rewrite IH. }
  by destruct ((rc <? 0) && (errno =? EINTR)).
Qed.

(** ** [poll_execute] keeps the handle in order *)
Definition may_spin (w : exit_reason) : Prop := w = BadPointer \/ w = OutOfFuel.

Lemma timerGetDelay_post env fuel th tr q fl e :
  repr th q fl [] -> activeTimer th = None -> polld th = Some e -> table_ok e ->
  post (timerGetDelay_r env fuel) (th, tr) (fun _ c' => handle_ok c'.1 /\ activeTimer c'.1 = None) may_spin.
Proof.
  intros R Ha He Hok. unfold timerGetDelay_r. do 3 post_step.
  eapply post_mono; [by eapply expire_loop_post| |].
  2:{ intros w [[->|[_ Hn]]| ->]; [by left|congruence|by right]. }
  intros now [th' tr'] (Ha' & Hk & q' & fl' & R' & _). cbn [fst snd] in *.
  rewrite He in Hk. destruct (table_kept_some _ _ Hk Hok) as (e' & He' & _ & Hok').
  assert (Hh : handle_ok th').
  { constructor; [exists q', fl'; unfold active_list; by rewrite Ha'|eauto]. }
  do 2 post_step. destruct (timers th') as [p|] eqn:Et; [|by post_step].
  destruct q' as [|[p' c] q'].
  { pose proof (r_timers _ _ _ _ R') as Hn. simpl in Hn. congruence. }
  destruct (pop_queue _ _ _ _ _ _ R') as (t & Ht & _ & Htm & _). simplify_eq.
  post_step. eapply sat_post, sat_load; [done|]. do 3 post_step.
  split; [|done]. destruct Hh as [(q2 & fl2 & R2) He2]. constructor; [|done].
  exists q2, fl2. by eapply repr_ext; [..|exact R2].
Qed.

Lemma poll_execute_post env fuel th tr :
  handle_ok th -> activeTimer th = None ->
  post (poll_execute env fuel) (th, tr) (fun rc c' => handle_ok c'.1 /\ activeTimer c'.1 = None) may_spin.
Proof.
  intros [(q & fl & R) (e & He & Hok)] Ha. unfold active_list in R. rewrite Ha in R.
  unfold poll_execute. post_step. unfold get_polld at 1. do 2 post_step. rewrite He. apply sat_post, sat_ret.
  post_step. eapply post_mono; [by eapply timerGetDelay_post| |done].
  intros tvp [th1 tr1] [[(q1 & fl1 & R1) (e1 & He1 & Hok1)] Ha1]. cbn [fst snd] in *.
  post_step. unfold get_polld at 1. do 2 post_step. rewrite He1. apply sat_post, sat_ret.
  assert (H1 : handle_ok th1) by (constructor; eauto).
  destruct (bool_decide (tvp = None) && bool_decide (nfds e1 = 0%nat)); [by post_step|].
  post_step. eapply sat_post, sat_mono; [by eapply do_poll_sat|].
  intros rc [th2 tr2]. cbn [fst snd]. intros (_ & _ & e2 & -> & Hok2 & Hm2 & _).
  assert (R2 : repr (with_polld (Some e2) th1) q1 fl1 (active_list (with_polld (Some e2) th1)))
    by (by apply repr_polld).
  assert (H2 : handle_ok (with_polld (Some e2) th1)) by (constructor; eauto).
  destruct (Z.ltb_spec rc 0); [by post_step|]. post_step.
  unfold when. destruct (Z.ltb_spec 0 rc); [|by do 2 post_step].
  eapply post_mono; [eapply (dispatch_post env _ 0 rc _ _ e2); [exact R2|done|done|lia..]| |by left].
  intros _ [th3 tr3] (Ha3 & Hk3 & q3 & fl3 & R3). cbn [fst snd] in *. post_step.
  destruct (table_kept_some e2 _ Hk3 Hok2) as (e3 & He3 & _ & Hok3).
  split; [|by rewrite Ha3]. constructor; [|eauto]. exists q3, fl3.
  by rewrite (active_list_eq _ _ Ha3).
Qed.

(** ** A whole cycle with a still clock and call-backs that only return *)
Section cycle.
Context (env : environment selE) (now : timeval) (rcs : fnptr -> Z -> Z) (fd_rcs : fnptr -> pollfd -> Z -> Z).
Hypothesis frozen : forall tr, env _ tr gettimeofday = now.
Hypothesis quiet : forall tr f r, env _ tr (timeout_cb f r) = CbRet (rcs f r).
Hypothesis fd_quiet : forall tr f p r, env _ tr (fd_cb f p r) = CbRet (fd_rcs f p r).

(** The trace up to the call of [poll]. *)
Definition timer_events (q : tlist) : list (event selE) := Ev gettimeofday now :: fired_events now rcs (due now q).

Lemma poll_execute_quiet fuel q fl th tr e :
  repr th q fl [] -> activeTimer th = None -> well_timed now q -> polld th = Some e -> table_ok e ->
  (length q < fuel)%nat ->
  let d := delay_of now (after_due now rcs q) in
  let tr1 := tr ++ timer_events q in
  let call := poll_sys (take (nfds e) (spollfd e)) (timeout_of d) in
  let r := env _ tr1 call in
  sat (poll_execute env fuel) (th, tr) (fun rc c' =>
    handle_ok c'.1 /\ (exists fl', repr c'.1 (after_due now rcs q) fl' []) /\
    if bool_decide (d = None) && bool_decide (nfds e = 0%nat) then rc = -1 /\ c'.2 = tr1
    else if r.1.1 <? 0 then rc = r.1.1 /\ c'.2 = tr1 ++ [Ev call r]
    else rc = 0 /\ c'.2 = tr1 ++ Ev call r ::
           dispatched fd_rcs (take (Z.to_nat r.1.1) (ready_entries
             (zip (set_revents (take (nfds e) r.2) (take (nfds e) (spollfd e))) (take (nfds e) (spollfn e)))))).
Proof using frozen quiet fd_quiet.
  intros R Ha Hw He Hok Hf d tr1 call0 r.
  unfold poll_execute. sat_step. unfold get_polld at 1. do 2 sat_step. rewrite He. apply sat_ret.
  sat_step. eapply sat_mono; [by eapply (timerGetDelay_quiet env now rcs)|].
  intros tvp [th1 t1]; cbn [fst snd]. intros (-> & -> & Ha1 & Hp1 & _ & fl1 & R1).
  fold (timer_events q). fold tr1 d. rewrite He in Hp1.
  sat_step. unfold get_polld at 1. do 2 sat_step. rewrite Hp1. apply sat_ret.
  assert (R1' : forall x, repr (with_polld x th1) (after_due now rcs q) fl1 (active_list (with_polld x th1))).
  { intros x. unfold active_list. cbn. rewrite Ha1. by apply repr_polld. }
  destruct (bool_decide (d = None) && bool_decide (nfds e = 0%nat)).
  { sat_step. split; [|eauto]. constructor; [|eauto]. exists (after_due now rcs q), fl1.
    unfold active_list. by rewrite Ha1. }
  sat_step. eapply sat_mono; [by eapply do_poll_sat|]. cbn [fst snd]. fold call0. fold r.
  intros rc [th2 t2]. cbn [fst snd]. intros (-> & -> & e2 & -> & Hok2 & Hm2 & Hen).
  assert (H2 : handle_ok (with_polld (Some e2) th1)).
  { constructor; [eauto|]. exists e2. done. }
  assert (R2 : exists fl', repr (with_polld (Some e2) th1) (after_due now rcs q) fl' [])
    by (exists fl1; by apply repr_polld).
  destruct (Z.ltb_spec r.1.1 0); [by sat_step|]. sat_step. apply sat_when; intros Hrc.
  - pose proof (entries_length e2 Hok2) as Hl. pose proof (t_nfds _ Hok2).
    eapply sat_mono; [apply (dispatch_quiet env fd_rcs fd_quiet _ 0 _ _ _ e2); [done|done|lia|lia|lia]|].
    intros _ c' ->. sat_step. split; [done|]. split; [done|]. split; [done|].
    by rewrite Hen, <- app_assoc.
  - assert (r.1.1 = 0) as -> by lia. sat_step. split; [done|]. split; [done|]. split; [done|]. done.
Qed.
End cycle.
