(* ===== verification/SelectTimerProps.v ===== *)
(** * SelectTimer: the properties

    The theorems about [SelectTimer.c] that users of the timers rely on, each
    with a run on a concrete handle. *)
From Stdlib Require Import ZArith Lia.
From stdpp Require Import base gmap list strings.
From S2P Require Import Prelude SelectTimer SelectTimerFacts PollTable SelectTimerLoop SelectTimerPoll.

Open Scope Z_scope.

(** ** A concrete environment and concrete handles for the runs *)
Definition clock_env (now : timeval) (rc : Z) : environment selE := fun R tr e =>
  match e in selE R' return R' with
  | gettimeofday => now
  | timeout_cb _ _ => CbRet rc
  | poll_sys fds _ => (Z.of_nat (length fds), 0, map (fun _ => 1) fds)
  | fd_cb _ _ _ => CbRet 0
  end.

Definition state_of {A} (o : outcome A * (TimeHandle * list (event selE))) : TimeHandle := o.2.1.

(** Two timers, of 2 s and 1 s, started at time 10 s. *)
Definition two_timers : TimeHandle :=
  state_of ((poll_maxfd 2 ;; timerStart_r (clock_env (TV 10 0) 0) 2000 1 7 ;;
             timerStart_r (clock_env (TV 10 0) 0) 1000 2 8) (timerCreateHandle_r, [])).

(** A descriptor registered in the same handle. *)
Definition with_fd (th : TimeHandle) : TimeHandle :=
  state_of (poll_setcallback 3 (MkPollfd 5 1 0) 9 (th, [])).

Definition queue_of (th : TimeHandle) : tlist :=
  match timers th with
  | Some p => match heap th !! p with
              | Some t => (p, core t) :: match next t with
                                         | Some p' => match heap th !! p' with Some t' => [(p', core t')] | None => [] end
                                         | None => [] end
              | None => [] end
  | None => []
  end.

Lemma create_repr : repr timerCreateHandle_r [] [] [].
Proof.
  constructor; simpl; try done.
  - by exists [].
  - constructor.
  - lia.
  - constructor.
Qed.

(** Evaluates a closed [repr] goal. *)
Ltac repr_closed :=
  constructor; [vm_compute; repeat (eexists; split_and!; [reflexivity|reflexivity|reflexivity|]); reflexivity
               |exists []; done
               |apply (bool_decide_unpack _); vm_compute; exact I
               |vm_compute; reflexivity
               |vm_compute; reflexivity
               |vm_compute; lia
               |unfold ordered; match goal with |- StronglySorted _ ?l => let l' := eval vm_compute in l in change l with l' end; repeat constructor
               |vm_compute; repeat constructor].

Definition run_queue : tlist := queue_of (with_fd two_timers).

Lemma run_repr : repr (with_fd two_timers) run_queue [] [].
Proof. repr_closed. Qed.

Lemma run_handle : handle_ok (with_fd two_timers).
Proof.
  constructor; [exists run_queue, []; exact run_repr|]. eexists. split; [reflexivity|].
  constructor; [vm_compute; lia..|]. apply (bool_decide_unpack _). vm_compute. exact I.
Qed.

(** ** Scheduling *)

(** C4. [rescedule] of a detached timer, although written as two scans (by
    seconds, then by microseconds), inserts it in the queue at the place of
    ordered insertion: behind the timers that expire earlier, before the
    others; the queue stays ordered, every timer in it is [Running], and no
    other list of the handle changes. *)
Theorem rescedule_ordered_insertion (p : ptr) (tv : option timeval) th tr q fl d1 d2 t :
  repr th q fl (d1 ++ p :: d2) -> heap th !! p = Some t ->
  sat (rescedule p tv) (th, tr) (fun _ c' =>
    let x := (p, scheduled t tv) in
    c'.2 = tr /\ repr c'.1 (insert_ref x q) fl (d1 ++ d2) /\ same_but_queue th c'.1 /\
    expires (x.2) = next_expiry (expires t) (mS t) tv).
Proof.
  intros R Hp. eapply sat_mono; [by eapply rescedule_repr|]. intros _ c' (H1 & H2 & H3).
  rewrite insert_timer_ref in H3 by apply R. done.
Qed.

Lemma detached_repr :
  repr (with_heap (<[9%nat := MkTimer 500 4 4 (TV 10 700000) 0 Active None]> (heap two_timers)) two_timers)
    run_queue [] ([] ++ 9%nat :: []).
Proof. repr_closed. Qed.

Lemma rescedule_ordered_insertion_witness :
  sat (rescedule 9 None)
    (with_heap (<[9%nat := MkTimer 500 4 4 (TV 10 700000) 0 Active None]> (heap two_timers)) two_timers, [])
    (fun _ c' => length run_queue = 2%nat /\ exists q, repr c'.1 q [] [] /\ length q = 3%nat).
Proof.
  eapply sat_mono; [eapply (rescedule_ordered_insertion 9 None _ _ run_queue [] [] []);
                    [exact detached_repr|vm_compute; reflexivity]|].
  cbn beta. intros _ c' (_ & R & _). split; [vm_compute; reflexivity|]. eexists. split; [exact R|].
  vm_compute. reflexivity.
Defined.

(** [timerStart_r] reads the clock once, returns a timer that was not
    scheduled, and schedules it [ms] milliseconds ahead; it takes a recycled
    timer when there is one and allocates otherwise. *)
Theorem timerStart_schedules (env : environment selE) ms f r th tr q fl det :
  repr th q fl det ->
  sat (timerStart_r env ms f r) (th, tr) (fun p c' =>
    let now := env _ tr gettimeofday in
    c'.2 = tr ++ [Ev gettimeofday now] /\ (p ∉ q.*1 ++ det) /\
    (fl = [] -> p ∉ dom (heap th)) /\
    us (expires (started ms f r now)) = us now + ms * 1000 /\
    repr c'.1 (insert_ref (p, started ms f r now) q) (tail fl) det).
Proof.
  intros R. eapply sat_mono; [by apply timerStart_sat|]. cbn beta zeta.
  intros p c' (H1 & H2 & _ & _ & H3 & H4). rewrite insert_timer_ref in H4 by apply R.
  split_and!; try done. apply add_ms_us.
Qed.

Lemma timerStart_schedules_witness :
  sat (timerStart_r (clock_env (TV 10 0) 0) 1500 5 6) (with_fd two_timers, [])
    (fun p c' => exists q, repr c'.1 q [] [] /\ nth_error q.*1 1 = Some p).
Proof.
  eapply sat_mono; [exact (timerStart_schedules (clock_env (TV 10 0) 0) 1500 5 6 _ [] _ _ _ run_repr)|].
  cbn beta zeta. intros p c' (_ & _ & _ & _ & R). eexists. split; [exact R|]. vm_compute. reflexivity.
Defined.

(** [timerStop_r] of a live timer removes it from the queue and recycles it,
    and leaves every other timer and its place alone; a timer that is not in the
    queue (its call-back is running) is only marked, the lists do not change. *)
Theorem timerStop_removes (p : ptr) th tr q fl det :
  repr th q fl det -> p ∈ dom (heap th) ->
  sat (timerStop_r p) (th, tr) (fun _ c' =>
    c'.2 = tr /\ repr c'.1 (stop_queue p q) (stop_free p q fl) det /\ (p ∉ (stop_queue p q).*1) /\
    (forall t, heap th !! p = Some t -> (p ∉ q.*1) -> state t <> Running ->
       heap c'.1 !! p = Some (t_state Deleted t))).
Proof.
  intros R Hp. pose proof (timerStop_sat p th tr q fl det R Hp) as (a & [th' tr'] & Hrun & H1 & _ & _ & H2).
  cbn in H1. subst tr'. exists a, (th', tr). split; [done|]. split; [done|]. split; [done|]. split.
  - unfold stop_queue. intros ([r c] & He & Hin)%list_elem_of_fmap. simpl in He. subst r.
    apply list_elem_of_filter in Hin as [Hne _]. by apply Hne.
  - intros t Ht _ Hs. unfold timerStop_r, load, mbind, M_bind in Hrun. cbn in Hrun. rewrite Ht in Hrun. cbn in Hrun.
    unfold store, modify in Hrun. cbn in Hrun. destruct (state t); [done| |]; injection Hrun as _ <-; apply lookup_insert_eq.
Qed.

Lemma timerStop_removes_witness :
  sat (timerStop_r 1) (with_fd two_timers, []) (fun _ c' => exists fl, repr c'.1 (stop_queue 1 run_queue) fl [] /\
    length (stop_queue 1 run_queue) = 1%nat).
Proof.
  eapply sat_mono; [apply (timerStop_removes 1 _ [] _ _ _ run_repr); apply (bool_decide_unpack _); vm_compute; exact I|].
  cbn beta. intros _ c' (_ & R & _). eexists. split; [exact R|]. vm_compute. reflexivity.
Defined.

(** ** Handles *)

(** Whatever the call-backs do with timers and descriptors of the handle (as
    long as they pass live timers), a cycle of the poll loop leaves a handle in
    order: the queue ordered, no active timer, the descriptor table well formed,
    no failed assertion. *)
Theorem poll_execute_keeps_handle env fuel th tr :
  handle_ok th -> activeTimer th = None ->
  post (poll_execute env fuel) (th, tr) (fun rc c' => handle_ok c'.1 /\ activeTimer c'.1 = None)
    (fun w => w = BadPointer \/ w = OutOfFuel).
Proof. exact (poll_execute_post env fuel th tr). Qed.

Lemma poll_execute_keeps_handle_witness :
  post (poll_execute (clock_env (TV 12 0) 1) 5) (with_fd two_timers, [])
    (fun rc c' => handle_ok c'.1 /\ activeTimer c'.1 = None) (fun w => w = BadPointer \/ w = OutOfFuel).
Proof. apply poll_execute_keeps_handle; [exact run_handle|vm_compute; reflexivity]. Defined.

(** C5. With a clock that stands still and call-backs that only return, a cycle
    terminates and does exactly this: it calls back the due timers, in the
    order of their expiry and each once; those that answered non-zero are
    scheduled again in the future; it polls the registered descriptors until the
    next timer (it does not poll, and returns -1, when there is neither a timer
    nor a descriptor); and it calls back the owners of the ready descriptors, at
    most as many as [poll] announced, in table order. *)
Theorem poll_execute_cycle (env : environment selE) now rcs fd_rcs fuel q fl th tr e :
  (forall tr, env _ tr gettimeofday = now) ->
  (forall tr f r, env _ tr (timeout_cb f r) = CbRet (rcs f r)) ->
  (forall tr f p r, env _ tr (fd_cb f p r) = CbRet (fd_rcs f p r)) ->
  repr th q fl [] -> activeTimer th = None -> well_timed now q -> polld th = Some e -> table_ok e ->
  (length q < fuel)%nat ->
  let d := delay_of now (after_due now rcs q) in
  let tr1 := tr ++ timer_events now rcs q in
  let call := poll_sys (take (nfds e) (spollfd e)) (timeout_of d) in
  let r := env _ tr1 call in
  sat (poll_execute env fuel) (th, tr) (fun rc c' =>
    handle_ok c'.1 /\ (exists fl', repr c'.1 (after_due now rcs q) fl' []) /\
    if bool_decide (d = None) && bool_decide (nfds e = 0%nat) then rc = -1 /\ c'.2 = tr1
    else if r.1.1 <? 0 then rc = r.1.1 /\ c'.2 = tr1 ++ [Ev call r]
    else rc = 0 /\ c'.2 = tr1 ++ Ev call r ::
           dispatched fd_rcs (take (Z.to_nat r.1.1) (ready_entries
             (zip (set_revents (take (nfds e) r.2) (take (nfds e) (spollfd e))) (take (nfds e) (spollfn e)))))).
Proof. intros H1 H2 H3. by apply poll_execute_quiet. Qed.

Lemma poll_execute_cycle_witness :
  sat (poll_execute (clock_env (TV 11 500000) 1) 5) (with_fd two_timers, []) (fun rc c' =>
    rc = 0 /\ handle_ok c'.1 /\ length c'.2 = 5%nat).
Proof.
  eapply sat_mono.
  - eapply (poll_execute_cycle (clock_env (TV 11 500000) 1) (TV 11 500000) (fun _ _ => 1) (fun _ _ _ => 0)
             5 run_queue [] _ []); [done..|exact run_repr|reflexivity| |reflexivity| |vm_compute; lia].
    + repeat constructor; vm_compute; congruence.
    + destruct (h_table _ run_handle) as (e & He & Hok). vm_compute in He. injection He as <-. exact Hok.
  - intros rc c' (Hh & _ & Hc). cbn in Hc. revert Hc. vm_compute (bool_decide _ && _). vm_compute (_ <? 0).
    cbn match. intros [-> Hc]. split; [done|]. split; [done|]. rewrite Hc. vm_compute. reflexivity.
Defined.

(** Destroying a handle in order frees every timer it ever allocated: the
    queued ones, the recycled ones and the active one; nothing is freed twice. *)
Theorem timerDestroy_frees_all th tr q fl :
  repr th q fl (active_list th) ->
  sat timerDestroyHandle_r (th, tr) (fun _ c' => c'.2 = tr /\ heap c'.1 = ∅ /\ polld c'.1 = None).
Proof. apply timerDestroy_sat. Qed.

Lemma timerDestroy_frees_all_witness :
  size (heap (with_fd two_timers)) = 2%nat /\
  sat timerDestroyHandle_r (with_fd two_timers, []) (fun _ c' => heap c'.1 = ∅).
Proof.
  split; [vm_compute; reflexivity|].
  eapply sat_mono; [exact (timerDestroy_frees_all _ [] _ _ run_repr)|]. by intros _ c' (_ & ? & _).
Defined.

(** ** The descriptor table *)

(** The two parallel arrays of a handle are a finite map of at most [maxfd]
    registrations: [poll_setcallback] replaces a known descriptor (answer 1),
    adds an unknown one while there is room (answer 0) and refuses it without
    any change when the table is full (answer -1); [poll_unsetcallback] removes
    exactly its descriptor, by moving the later entries down. *)
Theorem poll_table_is_map f pfd r g th tr e :
  polld th = Some e -> table_ok e ->
  sat (poll_setcallback f pfd r) (th, tr) (fun rc c' => exists e',
    c' = (with_polld (Some e') th, tr) /\ table_ok e' /\ maxfd e' = maxfd e /\
    match regs e !! fd pfd with
    | Some _ => rc = 1 /\ regs e' = <[fd pfd := (events pfd, f, r)]> (regs e)
    | None => if decide (size (regs e) < maxfd e)%nat
              then rc = 0 /\ regs e' = <[fd pfd := (events pfd, f, r)]> (regs e)
              else rc = -1 /\ e' = e
    end) /\
  sat (poll_unsetcallback g) (th, tr) (fun _ c' => exists e',
    c' = (with_polld (Some e') th, tr) /\ table_ok e' /\ maxfd e' = maxfd e /\ regs e' = delete g (regs e)).
Proof.
  intros He Hok. split.
  - unfold poll_setcallback, get_polld. do 3 sat_step. rewrite He. apply sat_ret.
    destruct (ext_setcallback e f pfd r) as [rc e'] eqn:E. do 3 sat_step.
    pose proof (pt_set_ok e f pfd r Hok) as Hok'. pose proof (pt_set_cap e f pfd r) as Hm.
    pose proof (pt_set_known e f pfd r Hok) as Hk. pose proof (pt_set_new e f pfd r Hok) as Hn.
    pose proof (pt_set_full e f pfd r Hok) as Hf. simpl in *. rewrite E in *. cbn [fst snd] in *.
    exists e'. split_and!; [done..|]. destruct (regs e !! fd pfd) as [x|]; [by apply Hk|].
    destruct (decide _) as [Hlt|Hge]; [by apply Hn|]. rewrite regs_size in Hge, Hf by done.
    pose proof (t_nfds _ Hok). specialize (Hf eq_refl ltac:(lia)). by injection Hf as -> ->.
  - unfold poll_unsetcallback, get_polld. do 3 sat_step. rewrite He. apply sat_ret. sat_step.
    eexists. split; [done|]. split; [exact (pt_unset_ok e g Hok)|].
    split; [exact (pt_unset_cap e g)|exact (pt_unset_regs e g Hok)].
Qed.

Lemma poll_table_is_map_witness :
  sat (poll_setcallback 4 (MkPollfd 6 1 0) 0) (with_fd two_timers, []) (fun rc c' => rc = 0) /\
  sat (poll_unsetcallback 5) (with_fd two_timers, []) (fun _ c' => exists e', polld c'.1 = Some e' /\ regs e' = ∅).
Proof.
  destruct (h_table _ run_handle) as (e & He & Hok). vm_compute in He. injection He as <-.
  split; eapply sat_mono; [apply (poll_table_is_map 4 (MkPollfd 6 1 0) 0 5 (with_fd two_timers) [] _ eq_refl Hok)| |
                           apply (poll_table_is_map 4 (MkPollfd 6 1 0) 0 5 (with_fd two_timers) [] _ eq_refl Hok)|].
  - intros rc c' (e' & _ & _ & _ & H). revert H. vm_compute (regs _ !! _). vm_compute (decide _). by intros [-> _].
  - intros _ c' (e' & -> & _ & _ & Hr). exists e'. split; [done|]. rewrite Hr. vm_compute. reflexivity.
Defined.

(** Whatever the call-backs do to the table while it is being scanned
    (register, remove, remove their own entry), the dispatch loop ends after at
    most [rc] call-backs and one pass over the table, within its arrays, and
    leaves the handle in order. *)
Theorem dispatch_terminates env rc th tr e q fl det :
  repr th q fl det -> polld th = Some e -> table_ok e -> 1 <= rc ->
  post (dispatch env (S (Z.to_nat rc + maxfd e)) 0 rc) (th, tr)
    (fun _ c' => activeTimer c'.1 = activeTimer th /\ table_kept (polld th) (polld c'.1) /\
       exists q' fl', repr c'.1 q' fl' det)
    (fun w => w = BadPointer).
Proof. intros R He Hok Hrc. eapply (dispatch_post env _ 0 rc th tr e); try done; lia. Qed.

(** A call-back that removes its own descriptor. *)
Definition unset_env : environment selE := fun R tr e =>
  match e in selE R' return R' with
  | gettimeofday => TV 0 0
  | timeout_cb _ _ => CbRet 0
  | poll_sys fds _ => (0, 0, [])
  | fd_cb _ p _ => CbUnset (fd p) (CbRet 0)
  end.

Lemma dispatch_terminates_witness :
  post (dispatch unset_env (S (Z.to_nat 1 + 2)) 0 1) (with_fd two_timers, [])
    (fun _ c' => exists q fl, repr c'.1 q fl []) (fun w => w = BadPointer).
Proof.
  destruct (h_table _ run_handle) as (e & He & Hok). vm_compute in He. injection He as <-.
  eapply post_mono; [exact (dispatch_terminates unset_env 1 (with_fd two_timers) [] _ _ _ _ run_repr eq_refl Hok ltac:(lia))| |done].
  by intros _ c' (_ & _ & ?).
Defined.

(** A [poll] that a signal interrupts is not repeated: the [continue] of the
    [do ... while (0)] leaves the loop, and -1 goes to the caller after a
    single call. *)
Theorem poll_not_retried (env : environment selE) timeout th tr e rs :
  polld th = Some e ->
  env _ tr (poll_sys (take (nfds e) (spollfd e)) timeout) = (-1, EINTR, rs) ->
  sat (do_poll env timeout) (th, tr) (fun rc c' =>
    rc = -1 /\ c'.2 = tr ++ [Ev (poll_sys (take (nfds e) (spollfd e)) timeout) (-1, EINTR, rs)]).
Proof.
  intros He Hr. unfold do_poll. sat_step. unfold get_polld. do 2 sat_step. rewrite He. apply sat_ret.
  do 2 sat_step. subst r. cbn [snd]. rewrite Hr. do 2 sat_step. by apply sat_ret.
Qed.

Definition eintr_env : environment selE := fun R tr e =>
  match e in selE R' return R' with
  | gettimeofday => TV 0 0
  | timeout_cb _ _ => CbRet 0
  | poll_sys fds _ => match tr with [] => (-1, EINTR, []) | _ => (1, 0, [1]) end
  | fd_cb _ p _ => CbRet 0
  end.

Lemma poll_not_retried_witness : sat (do_poll eintr_env 100) (with_fd two_timers, []) (fun rc c' => rc = -1 /\ length c'.2 = 1%nat).
Proof.
  eapply sat_mono; [by eapply (poll_not_retried eintr_env 100 (with_fd two_timers) [] _ [])|].
  by intros rc c' [-> ->].
Defined.

(** ** Delays *)

(** The delay to a timer that is not due is exact in microseconds, and the
    timeout given to [poll] is a non-negative [int] that is the delay in whole
    milliseconds (never late by a millisecond) up to 2097151 s, and a fixed
    large value beyond. *)
Theorem poll_timeout_bounds now e :
  usec_ok now -> usec_ok e -> tv_le now e ->
  let d := delay_until now e in
  us d = us e - us now /\ 0 <= us d /\
  0 <= timeout_of (Some d) < 2 ^ 31 /\
  (tv_sec d <= 2097151 -> timeout_of (Some d) * 1000 <= us d < timeout_of (Some d) * 1000 + 1000).
Proof.
  intros Hn He Hle. pose proof (delay_until_nonneg _ _ Hn He Hle) as [Hs Hu].
  cbv zeta. pose proof (delay_until_exact now e) as Hx. set (d := delay_until now e) in *.
  split; [done|]. split; [unfold us; lia|]. unfold timeout_of. change (Z.shiftr 0x7fffffff 10) with 2097151.
  pose proof (Z.quot_pos (tv_usec d) 1000 ltac:(lia) ltac:(lia)).
  pose proof (Z.quot_le_mono (tv_usec d) 1000000 1000 ltac:(lia) ltac:(lia)) as Hq. change (Z.quot 1000000 1000) with 1000 in Hq.
  pose proof (Z.quot_rem' (tv_usec d) 1000). pose proof (Z.rem_bound_pos (tv_usec d) 1000 ltac:(lia) ltac:(lia)).
  destruct (Z.ltb_spec 2097151 (tv_sec d)); [split; [lia|lia]|].
  rewrite wrap_s_id by (simpl; lia). unfold us. split; [simpl; lia|intros _; lia].
Qed.

Lemma poll_timeout_bounds_witness :
  timeout_of (Some (delay_until (TV 10 999500) (TV 12 300))) = 1000 /\
  us (delay_until (TV 10 999500) (TV 12 300)) = 1000800.
Proof.
  split; [reflexivity|]. apply (poll_timeout_bounds (TV 10 999500) (TV 12 300)); [split; vm_compute; congruence..|reflexivity].
Defined.

(** When the clock is seen to step back behind the last restart of the only
    timer, the code schedules it from the current second but from its old
    microseconds; a period shorter than the microseconds of the clock then gives
    an expiry in the past, a negative delay, and a negative timeout, which
    [poll] takes as "for ever". *)
Theorem backstep_blocks (env : environment selE) now p c fl th tr fuel :
  (forall tr, env _ tr gettimeofday = now) ->
  repr th [(p, c)] fl [] -> expired now c = false -> tv_sec now < lastsec c ->
  0 <= mS c -> 0 <= tv_usec (expires c) -> tv_usec (expires c) + mS c * 1000 < tv_usec now < 1000000 ->
  sat (timerGetDelay_r env (S fuel)) (th, tr) (fun d c' =>
    exists d', d = Some d' /\ us d' < 0 /\ timeout_of d < 0).
Proof.
  intros Hclk R Hex Hb Hms Hu0 Hu. unfold timerGetDelay_r. do 2 sat_step. subst r. cbn [snd]. rewrite Hclk.
  destruct (pop_queue _ _ _ _ _ _ R) as (t & Ht & Hc & Htm & _).
  sat_step. cbn [expire_loop]. do 2 sat_step. rewrite Htm. sat_step. eapply sat_load; [done|].
  replace (expired now t) with false by (rewrite <- Hex; by subst c).
  replace (tv_sec now <? lastsec t) with true by (subst c; cbn in Hb; lia). cbn [when]. sat_step.
  eapply sat_mono; [by eapply backstep_sat|]. intros _ [th' tr']; cbn [fst snd]. intros (-> & _ & _ & R').
  sat_step. do 2 sat_step.
  unfold insert_timer, split_at in R'. cbn [span app] in R'.
  destruct (pop_queue _ _ _ _ _ _ R') as (t' & Ht' & Hc' & Htm' & _). rewrite Htm'.
  sat_step. eapply sat_load; [done|]. do 3 sat_step.
  assert (He : expires t' = TV (tv_sec now) (tv_usec (expires c) + mS c * 1000)).
  { change (expires t') with (expires (core t')). rewrite Hc'. cbn. unfold add_ms. cbn [tv_sec tv_usec].
    rewrite Z.quot_small, Z.rem_small by lia. rewrite (proj2 (Z.ltb_ge _ _)) by lia. f_equal. lia. }
  eexists. split; [done|]. rewrite delay_until_exact, He. unfold timeout_of, delay_until, us. cbn [tv_sec tv_usec].
  split; [lia|].
  rewrite (proj2 (Z.ltb_lt (tv_usec (expires c) + mS c * 1000) (tv_usec now))) by lia. cbn [tv_sec tv_usec].
  change (Z.shiftr 0x7fffffff 10) with 2097151. rewrite (proj2 (Z.ltb_ge _ _)) by lia.
  set (u := tv_usec (expires c) + mS c * 1000 + 1000000 - tv_usec now).
  assert (Hu' : 0 <= u < 1000000) by (unfold u; lia). clearbody u.
  pose proof (Z.quot_pos u 1000 ltac:(lia) ltac:(lia)). pose proof (Z.quot_lt_upper_bound u 1000 1000 ltac:(lia) ltac:(lia)) as Hq.
  rewrite wrap_s_id by (simpl; lia). lia.
Qed.

Definition stepped_timer : TimerInternal := MkTimer 100 1 0 (TV 20 100000) 20 Running None.
Definition stepped_handle : TimeHandle := MkHandle {[ 1%nat := stepped_timer ]} (TV 0 0) (Some 1%nat) None 0 None None.

Lemma stepped_repr : repr stepped_handle [(1%nat, stepped_timer)] [] [].
Proof. repr_closed. Qed.

Lemma backstep_blocks_witness :
  sat (timerGetDelay_r (clock_env (TV 10 900000) 1) 5) (stepped_handle, []) (fun d c' => timeout_of d < 0).
Proof.
  eapply sat_mono; [apply (backstep_blocks (clock_env (TV 10 900000) 1) (TV 10 900000) 1 stepped_timer [] stepped_handle);
                    [done|exact stepped_repr|reflexivity|cbn; lia..]|].
  intros d c' (d' & _ & _ & H). exact H.
Defined.
