(* ===== verification/Codes.v ===== *)
(** * Return codes and bounded retries

    The error codes of OpenSAF and of the MAF, their translation
    ([maf_coremw_rc]), a setting that several components share, and the retry
    macros that wrap the OpenSAF calls ([SAF_API_CALL],
    [LOG_API_CALL_TRY_AGAIN], [IMM_API_CALL]). *)
From Stdlib Require Import ZArith Lia.
From stdpp Require Import base gmap list strings.
From S2P Require Import Prelude.

Open Scope Z_scope.

(** ** OpenSAF: [saAis.h] (a C enumeration may also hold any other integer) *)
Inductive SaAisErrorT :=
| SA_AIS_OK
| SA_AIS_ERR_LIBRARY
| SA_AIS_ERR_VERSION
| SA_AIS_ERR_INIT
| SA_AIS_ERR_TIMEOUT
| SA_AIS_ERR_TRY_AGAIN
| SA_AIS_ERR_INVALID_PARAM
| SA_AIS_ERR_NO_MEMORY
| SA_AIS_ERR_BAD_HANDLE
| SA_AIS_ERR_BUSY
| SA_AIS_ERR_ACCESS
| SA_AIS_ERR_NOT_EXIST
| SA_AIS_ERR_NAME_TOO_LONG
| SA_AIS_ERR_EXIST
| SA_AIS_ERR_NO_SPACE
| SA_AIS_ERR_INTERRUPT
| SA_AIS_ERR_NAME_NOT_FOUND
| SA_AIS_ERR_NO_RESOURCES
| SA_AIS_ERR_NOT_SUPPORTED
| SA_AIS_ERR_BAD_OPERATION
| SA_AIS_ERR_FAILED_OPERATION
| SA_AIS_ERR_MESSAGE_ERROR
| SA_AIS_ERR_QUEUE_FULL
| SA_AIS_ERR_QUEUE_NOT_AVAILABLE
| SA_AIS_ERR_BAD_FLAGS
| SA_AIS_ERR_TOO_BIG
| SA_AIS_ERR_NO_SECTIONS
| SA_AIS_ERR_NO_OP
| SA_AIS_ERR_REPAIR_PENDING
| SA_AIS_ERR_NO_BINDINGS
| SA_AIS_ERR_UNAVAILABLE
| SA_AIS_ERR_CAMPAIGN_ERROR_DETECTED
| SA_AIS_ERR_CAMPAIGN_PROC_FAILED
| SA_AIS_ERR_CAMPAIGN_CANCELED
| SA_AIS_ERR_CAMPAIGN_FAILED
| SA_AIS_ERR_CAMPAIGN_SUSPENDED
| SA_AIS_ERR_CAMPAIGN_SUSPENDING
| SA_AIS_ERR_ACCESS_DENIED
| SA_AIS_ERR_NOT_READY
| SA_AIS_ERR_DEPLOYMENT
| SA_AIS_other (code : Z).
#[export] Instance SaAisErrorT_eq_dec : EqDecision SaAisErrorT.
Proof. solve_decision. Defined.

(** ** MAF: [MafMgmtSpiCommon.h] *)
Inductive MafReturnT :=
| MafOk
| MafTryAgain
| MafNotActive
| MafFailure
| MafNotExist
| MafAlreadyExist
| MafAborted
| MafObjectLocked
| MafPrepareFailed
| MafCommitFailed
| MafInvalidArgument
| MafValidationFailed
| MafNoResources
| MafTimeOut
| Maf_other (code : Z).
#[export] Instance MafReturnT_eq_dec : EqDecision MafReturnT.
Proof. solve_decision. Defined.

(** ** The mapping of UUIDs in alarms ([incl/ComSANtf.h]), a setting several components read *)
Inductive UuidCfg := UuidDisableHandle | UuidMapToAddInfoName | UuidMapValueToAddText.
#[export] Instance UuidCfg_eq_dec : EqDecision UuidCfg.
Proof. solve_decision. Defined.

Definition maf_coremw_rc (rc : SaAisErrorT) : MafReturnT :=
  match rc with
  | SA_AIS_OK => MafOk
  | SA_AIS_ERR_LIBRARY => MafFailure
  | SA_AIS_ERR_VERSION => MafFailure
  | SA_AIS_ERR_INIT => MafFailure
  | SA_AIS_ERR_TIMEOUT => MafTimeOut
  | SA_AIS_ERR_TRY_AGAIN => MafTryAgain
  | SA_AIS_ERR_INVALID_PARAM => MafFailure
  | SA_AIS_ERR_NO_MEMORY => MafNoResources
  | SA_AIS_ERR_BAD_HANDLE => MafFailure
  | SA_AIS_ERR_BUSY => MafFailure
  | SA_AIS_ERR_ACCESS => MafFailure
  | SA_AIS_ERR_NOT_EXIST => MafNotExist
  | SA_AIS_ERR_NAME_TOO_LONG => MafFailure
  | SA_AIS_ERR_EXIST => MafAlreadyExist
  | SA_AIS_ERR_NO_SPACE => MafNoResources
  | SA_AIS_ERR_INTERRUPT => MafFailure
  | SA_AIS_ERR_NAME_NOT_FOUND => MafNotExist
  | SA_AIS_ERR_NO_RESOURCES => MafFailure
  | SA_AIS_ERR_NOT_SUPPORTED => MafFailure
  | SA_AIS_ERR_BAD_OPERATION => MafFailure
  | SA_AIS_ERR_FAILED_OPERATION => MafFailure
  | SA_AIS_ERR_MESSAGE_ERROR => MafFailure
  | SA_AIS_ERR_QUEUE_FULL => MafNoResources
  | SA_AIS_ERR_QUEUE_NOT_AVAILABLE => MafFailure
  | SA_AIS_ERR_BAD_FLAGS => MafFailure
  | SA_AIS_ERR_TOO_BIG => MafFailure
  | SA_AIS_ERR_NO_SECTIONS => MafFailure
  | SA_AIS_ERR_NO_OP => MafFailure
  | SA_AIS_ERR_REPAIR_PENDING => MafFailure
  | SA_AIS_ERR_NO_BINDINGS => MafFailure
  | SA_AIS_ERR_UNAVAILABLE => MafFailure
  | SA_AIS_ERR_CAMPAIGN_ERROR_DETECTED => MafFailure
  | SA_AIS_ERR_CAMPAIGN_PROC_FAILED => MafFailure
  | SA_AIS_ERR_CAMPAIGN_CANCELED => MafFailure
  | SA_AIS_ERR_CAMPAIGN_FAILED => MafFailure
  | SA_AIS_ERR_CAMPAIGN_SUSPENDED => MafFailure
  | SA_AIS_ERR_CAMPAIGN_SUSPENDING => MafFailure
  | SA_AIS_ERR_ACCESS_DENIED => MafFailure
  | SA_AIS_ERR_NOT_READY => MafFailure
  | SA_AIS_ERR_DEPLOYMENT => MafFailure
  | SA_AIS_other _ => MafFailure
  end.
(** ** Retries

    [for (rc = f; rc == TRY_AGAIN && try < max; rc = f, try++) sleep;]: the
    call is made once, and again at most [tries] times, with a pause before
    each repetition. *)
Section retry.
Context {E : Type -> Type} {S R : Type}.
Implicit Types (pause : M E S ()) (f : M E S R) (again : R -> bool).

Fixpoint retry again pause f (tries : nat) : M E S R :=
  rc ← f;
  if again rc then
    match tries with
    | O => mret rc
    | Datatypes.S tries => pause ;; retry again pause f tries
    end
  else mret rc.

Lemma retry_unfold again pause f tries :
  retry again pause f tries =
  (rc ← f; if again rc then match tries with O => mret rc | Datatypes.S n => pause ;; retry again pause f n end
           else mret rc).
Proof. by destruct tries. Qed.
End retry.

Definition is_try_again (rc : SaAisErrorT) : bool := bool_decide (rc = SA_AIS_ERR_TRY_AGAIN).

(** [SAF_API_CALL], [LOG_API_CALL_TRY_AGAIN] and [IMM_API_CALL]; in the last one
    the call is in a [do ... while (count <= IMM_MAX_RETRIES)] with a pause
    before every call but the first. *)
Definition AMF_MAX_TRIES : nat := 10.
Definition AMF_LOG_MAX_TRIES : nat := 4.

Definition SAF_API_CALL {E S} (pause : M E S ()) (f : M E S SaAisErrorT) : M E S SaAisErrorT :=
  retry is_try_again pause f AMF_MAX_TRIES.
Definition LOG_API_CALL_TRY_AGAIN {E S} (pause : M E S ()) (f : M E S SaAisErrorT) : M E S SaAisErrorT :=
  retry is_try_again pause f AMF_LOG_MAX_TRIES.

Definition is_busy (rc : SaAisErrorT) : bool :=
  bool_decide (rc = SA_AIS_ERR_TRY_AGAIN) || bool_decide (rc = SA_AIS_ERR_BUSY).
Definition IMM_MAX_RETRIES : nat := 3.
Definition IMM_API_CALL {E S} (pause : M E S ()) (f : M E S SaAisErrorT) : M E S SaAisErrorT :=
  retry is_busy pause f IMM_MAX_RETRIES.

(** ** What a retried external call leaves in the history *)
Section history.
Context {E : Type -> Type} {S R : Type}.
Context (env : environment E) (e : E R) (zz : E ()).
Implicit Types (again : R -> bool).

(** [n] refused attempts, each followed by a pause, then the answer [r]. *)
Fixpoint attempts (refused : list R) (r : R) : list (event E) :=
  match refused with
  | [] => [Ev e r]
  | x :: l => Ev e x :: Ev zz () :: attempts l r
  end.

Lemma retry_sat again tries (s : S) tr :
  sat (retry again (call env zz) (call env e) tries) (s, tr) (fun r c' =>
    c'.1 = s /\ exists refused, c'.2 = tr ++ attempts refused r /\
      Forall (fun x => again x = true) refused /\ (length refused <= tries)%nat /\
      (again r = true -> length refused = tries)).
Proof.
  revert tr. induction tries as [|n IH]; intros tr; rewrite retry_unfold; do 2 sat_step.
  - set (x := r). destruct (again x) eqn:Ea; sat_step; (split; [done|]); exists []; (split_and!; [done|constructor|done|done || congruence]).
  - set (x := r). destruct (again x) eqn:Ea.
    + do 2 sat_step. match goal with |- sat _ (_, (_ ++ _) ++ [Ev zz ?u]) _ => destruct u end.
      eapply sat_mono; [apply IH|]. cbn beta.
      intros r' [s' tr']. cbn [fst snd]. intros (-> & refused & -> & Hall & Hle & Hlast). split; [done|].
      exists (x :: refused). split; [by rewrite <- !app_assoc|]. split; [by constructor|].
      split; [simpl; lia|]. intros Hr. simpl. by rewrite Hlast.
    + sat_step. split; [done|]. exists []. split_and!; [done|constructor|simpl; lia|congruence].
Qed.
End history.

Lemma is_try_again_ok r : is_try_again r = false <-> r <> SA_AIS_ERR_TRY_AGAIN.
Proof. unfold is_try_again. by rewrite bool_decide_eq_false. Qed.
