(* ===== verification/AvailController.v ===== *)
(** * The availability controller ([ac/ComSAAc.c])

    The AMF calls the component in its own thread; each call is passed on to the
    middleware (COM) as an event object, whose address is the "invocation".  COM
    answers from any thread with that address; the answer is queued, a byte in a
    pipe wakes the AMF thread, which takes the whole queue and answers the AMF.

    The file has the state, the external calls and every operation.  Tracing
    ([ENTER_...], [DEBUG_...], ...) and syslog output are left out. *)
From Stdlib Require Import ZArith Lia.
From stdpp Require Import base gmap list strings.
From S2P Require Import Prelude Codes.

#[local] Open Scope string_scope.
Open Scope Z_scope.

(** ** Data *)
Inductive CoremwEventType :=
| EVENT_None | EVENT_Terminate | EVENT_healthCheckReport | EVENT_haModeAssumed | EVENT_prepareTerminationResponse.
#[export] Instance CoremwEventType_eq_dec : EqDecision CoremwEventType.
Proof. solve_decision. Defined.

Inductive MafMwSpiHaModeT := MafMwSpiHaModeUnassigned | MafMwSpiHaModeActive | MafMwSpiHaModeStandby.
#[export] Instance MafMwSpiHaModeT_eq_dec : EqDecision MafMwSpiHaModeT.
Proof. solve_decision. Defined.
Inductive MafMwSpiHaReasonT := MafMwSpiHaReasonInit | MafMwSpiHaReasonFail | MafMwSpiHaReasonSwitchover.
Inductive MafMwSpiRecommendedRecoveryT := MafMwSpiRecommendedRecoveryRestart | MafMwSpiRecommendedRecoveryFailover.
#[export] Instance Recovery_eq_dec : EqDecision MafMwSpiRecommendedRecoveryT.
Proof. solve_decision. Defined.

Inductive SaAmfHAStateT :=
| SA_AMF_HA_ACTIVE | SA_AMF_HA_STANDBY | SA_AMF_HA_QUIESCED | SA_AMF_HA_QUIESCING | SA_AMF_HA_other (n : Z).
#[export] Instance SaAmfHAStateT_eq_dec : EqDecision SaAmfHAStateT.
Proof. solve_decision. Defined.
Inductive SaAmfCSITransitionDescriptorT :=
| SA_AMF_CSI_NEW_ASSIGN | SA_AMF_CSI_QUIESCED | SA_AMF_CSI_NOT_QUIESCED | SA_AMF_CSI_STILL_ACTIVE | SA_AMF_CSI_zero.
Inductive SaAmfRecommendedRecoveryT := SA_AMF_COMPONENT_RESTART | SA_AMF_COMPONENT_FAILOVER.

Abbreviation SaInvocationT := Z.

(** [struct maf_CoremwEvent]; [error] and [recommendedRecovery] are left
    undefined by [maf_new_event] and written when COM answers. *)
Record maf_CoremwEvent := MkEvent {
  next : option ptr;
  event_type : CoremwEventType;
  saf_invokation : SaInvocationT;
  flags : Z;
  error : option MafReturnT;
  recommendedRecovery : option MafMwSpiRecommendedRecoveryT
}.
Definition e_next n e := MkEvent n (event_type e) (saf_invokation e) (flags e) (error e) (recommendedRecovery e).
Definition e_error r e := MkEvent (next e) (event_type e) (saf_invokation e) (flags e) (Some r) (recommendedRecovery e).
Definition e_recovery r e := MkEvent (next e) (event_type e) (saf_invokation e) (flags e) (error e) (Some r).

(** The file's static variables, and the heap of event objects. *)
Record Ac := MkAc {
  evs : gmap ptr maf_CoremwEvent;
  maf_eventq_head : option ptr;
  maf_eventq_tail : option ptr;
  pipe_bytes : nat;                     (** bytes in [event_pipe] *)
  maf_acCallbacks : bool;               (** not [NULL] *)
  amf_pthread_isrunning : bool;
  ntf_pthread_isrunning : bool;
  stop_thread : bool;
  maf_com_ha_state : MafMwSpiHaModeT;
  maf_new_com_ha_state : MafMwSpiHaModeT;
  alertalarm : Z;
  comsa_sshd_control : bool;
  cc_name : string                      (** [_CC_NAME]: "com" or "lm" *)
}.

Definition set_evs h s := MkAc h (maf_eventq_head s) (maf_eventq_tail s) (pipe_bytes s) (maf_acCallbacks s) (amf_pthread_isrunning s) (ntf_pthread_isrunning s) (stop_thread s) (maf_com_ha_state s) (maf_new_com_ha_state s) (alertalarm s) (comsa_sshd_control s) (cc_name s).
Definition set_q hd tl s := MkAc (evs s) hd tl (pipe_bytes s) (maf_acCallbacks s) (amf_pthread_isrunning s) (ntf_pthread_isrunning s) (stop_thread s) (maf_com_ha_state s) (maf_new_com_ha_state s) (alertalarm s) (comsa_sshd_control s) (cc_name s).
Definition set_pipe n s := MkAc (evs s) (maf_eventq_head s) (maf_eventq_tail s) n (maf_acCallbacks s) (amf_pthread_isrunning s) (ntf_pthread_isrunning s) (stop_thread s) (maf_com_ha_state s) (maf_new_com_ha_state s) (alertalarm s) (comsa_sshd_control s) (cc_name s).
Definition set_cb b s := MkAc (evs s) (maf_eventq_head s) (maf_eventq_tail s) (pipe_bytes s) b (amf_pthread_isrunning s) (ntf_pthread_isrunning s) (stop_thread s) (maf_com_ha_state s) (maf_new_com_ha_state s) (alertalarm s) (comsa_sshd_control s) (cc_name s).
Definition set_amf_running b s := MkAc (evs s) (maf_eventq_head s) (maf_eventq_tail s) (pipe_bytes s) (maf_acCallbacks s) b (ntf_pthread_isrunning s) (stop_thread s) (maf_com_ha_state s) (maf_new_com_ha_state s) (alertalarm s) (comsa_sshd_control s) (cc_name s).
Definition set_ntf_running b s := MkAc (evs s) (maf_eventq_head s) (maf_eventq_tail s) (pipe_bytes s) (maf_acCallbacks s) (amf_pthread_isrunning s) b (stop_thread s) (maf_com_ha_state s) (maf_new_com_ha_state s) (alertalarm s) (comsa_sshd_control s) (cc_name s).
Definition set_stop b s := MkAc (evs s) (maf_eventq_head s) (maf_eventq_tail s) (pipe_bytes s) (maf_acCallbacks s) (amf_pthread_isrunning s) (ntf_pthread_isrunning s) b (maf_com_ha_state s) (maf_new_com_ha_state s) (alertalarm s) (comsa_sshd_control s) (cc_name s).
Definition set_ha m s := MkAc (evs s) (maf_eventq_head s) (maf_eventq_tail s) (pipe_bytes s) (maf_acCallbacks s) (amf_pthread_isrunning s) (ntf_pthread_isrunning s) (stop_thread s) m (maf_new_com_ha_state s) (alertalarm s) (comsa_sshd_control s) (cc_name s).
Definition set_new_ha m s := MkAc (evs s) (maf_eventq_head s) (maf_eventq_tail s) (pipe_bytes s) (maf_acCallbacks s) (amf_pthread_isrunning s) (ntf_pthread_isrunning s) (stop_thread s) (maf_com_ha_state s) m (alertalarm s) (comsa_sshd_control s) (cc_name s).
Definition set_alertalarm n s := MkAc (evs s) (maf_eventq_head s) (maf_eventq_tail s) (pipe_bytes s) (maf_acCallbacks s) (amf_pthread_isrunning s) (ntf_pthread_isrunning s) (stop_thread s) (maf_com_ha_state s) (maf_new_com_ha_state s) n (comsa_sshd_control s) (cc_name s).
Definition set_sshd b s := MkAc (evs s) (maf_eventq_head s) (maf_eventq_tail s) (pipe_bytes s) (maf_acCallbacks s) (amf_pthread_isrunning s) (ntf_pthread_isrunning s) (stop_thread s) (maf_com_ha_state s) (maf_new_com_ha_state s) (alertalarm s) b (cc_name s).

(** ** External calls *)
(** The services of the other components that the controller starts and stops. *)
Inductive Service :=
| AlarmAndAlertLogServiceOpen | cmdLogServiceOpen | secLogServiceOpen
| AlarmAndAlertLogServiceClose | cmdLogServiceClose | secLogServiceClose
| ObjImp_init_imm.

Inductive upcall :=
| CSISet (inv : SaInvocationT) (ha : SaAmfHAStateT) (transition : SaAmfCSITransitionDescriptorT)
| CSIRemove (inv : SaInvocationT)
| Healthcheck (inv : SaInvocationT)
| ComponentTerminate (inv : SaInvocationT).

(** What a turn of [poll_execute] calls back. *)
Inductive pollcb := CbDispatchAmf | CbHandleEvents.

Inductive acE : Type -> Type :=
| mutex_lock : acE Z
| mutex_unlock : acE Z
| write_event_pipe : acE Z
| read_event_pipe : acE bool                (** an error other than [EWOULDBLOCK] *)
| saAmfInitialize : acE SaAisErrorT
| saAmfFinalize : acE SaAisErrorT
| saAmfSelectionObjectGet : acE SaAisErrorT
| saAmfComponentNameGet : acE SaAisErrorT
| saAmfComponentRegister : acE SaAisErrorT
| saAmfHealthcheckStart (key : string) : acE SaAisErrorT
| saAmfDispatch : acE (list upcall * SaAisErrorT)
| saAmfResponse (inv : SaInvocationT) (err : SaAisErrorT) : acE SaAisErrorT
| saAmfCSIQuiescingComplete (inv : SaInvocationT) (err : SaAisErrorT) : acE SaAisErrorT
| saAmfComponentErrorReport (recovery : SaAmfRecommendedRecoveryT) : acE SaAisErrorT
| setHaMode (invocation : ptr) (mode : MafMwSpiHaModeT) (reason : MafMwSpiHaReasonT) : acE ()
| healthCheck (invocation : ptr) : acE ()
| prepareTermination (invocation : ptr) : acE ()
| terminateProcess : acE ()
| service (s : Service) : acE MafReturnT
| removeFileMConsumer : acE ()
| killChildIfAny : acE ()
| remove_file (path : string) : acE Z
| processOpen (cmd : string) : acE Z
| getenv (name : string) : acE (option string)
| getClearStorage : acE string
| sleep (seconds : Z) : acE ()
| usleep (microseconds : Z) : acE ()
| pthread_attr_init : acE Z
| pthread_create_amf : acE Z
| pthread_create_ntf : acE Z
| pthread_attr_destroy : acE Z
| write_ntf_pipe : acE Z
| pthread_cancel_ntf : acE Z
| pthread_join_ntf : acE Z
| pthread_join_amf : acE Z
| register_poll_callbacks : acE ()
| poll_execute : acE (list pollcb * Z).

Abbreviation A := (M acE Ac).

Definition load (p : ptr) : A maf_CoremwEvent := s ← get; of_option BadPointer (evs s !! p).
Definition store (p : ptr) (e : maf_CoremwEvent) : A () := modify (fun s => set_evs (<[p := e]> (evs s)) s).
Definition free_event (p : ptr) : A () := load p ;; modify (fun s => set_evs (delete p (evs s)) s).

Definition AMF_TRY_INTERVAL : Z := 2.

Section env.
Context (env : environment acE).

Definition checked (c : A Z) : A () := rc ← c; when (negb (rc =? 0)) (exit Aborted).

(** ** The event queue *)
Definition maf_new_event (ty : CoremwEventType) (inv : SaInvocationT) (fl : Z) : A ptr :=
  p ← gets (fun s => fresh (dom (evs s)));
  store p (MkEvent None ty inv fl None None) ;;
  mret p.

Definition maf_event_add (p : ptr) : A () :=
  checked (call env mutex_lock) ;;
  e ← load p;
  store p (e_next None e) ;;
  s ← get;
  match maf_eventq_tail s with
  | None =>
      assert_c (bool_decide (maf_eventq_head s = None)) ;;
      modify (set_q (Some p) (Some p)) ;;
      rc ← call env write_event_pipe;
      when (negb (rc =? 1)) (exit Aborted) ;;
      modify (fun s => set_pipe (S (pipe_bytes s)) s)
  | Some t =>
      assert_c (negb (bool_decide (maf_eventq_head s = None))) ;;
      last ← load t;
      store t (e_next (Some p) last) ;;
      modify (fun s => set_q (maf_eventq_head s) (Some p) s)
  end ;;
  checked (call env mutex_unlock).

(** A [read] of at most 16 bytes from the non-blocking end of the pipe; on an
    empty pipe it fails with [EWOULDBLOCK], which is ignored. *)
Definition flush_pipe : A () :=
  fault ← call env read_event_pipe;
  if fault : bool then exit ErrQuit
  else modify (fun s => set_pipe (pipe_bytes s - 16) s).

Definition maf_event_getq : A (option ptr) :=
  checked (call env mutex_lock) ;;
  s ← get;
  modify (set_q None None) ;;
  flush_pipe ;;
  checked (call env mutex_unlock) ;;
  mret (maf_eventq_head s).

(** ** Calls from COM *)
Definition type_checked (ty : CoremwEventType) (p : ptr) : A () :=
  e ← load p; when (negb (bool_decide (event_type e = ty))) (exit ErrQuit).

(** [None] is [COM_INITIATED_INVOCATION]. *)
Definition maf_coremw_healthCheckReport (invocation : option ptr) (healthReport : MafReturnT)
    (recovery : MafMwSpiRecommendedRecoveryT) : A MafReturnT :=
  p ← match invocation with
      | None => maf_new_event EVENT_healthCheckReport 0 1
      | Some p => mret p
      end;
  type_checked EVENT_healthCheckReport p ;;
  e ← load p;
  store p (e_recovery recovery (e_error healthReport e)) ;;
  maf_event_add p ;;
  mret MafOk.

Definition maf_coremw_haModeAssumed (invocation : ptr) (err : MafReturnT) : A MafReturnT :=
  type_checked EVENT_haModeAssumed invocation ;;
  e ← load invocation;
  store invocation (e_error err e) ;;
  maf_event_add invocation ;;
  mret MafOk.

Definition maf_coremw_prepareTerminationResponse (invocation : ptr) (err : MafReturnT) : A MafReturnT :=
  type_checked EVENT_prepareTerminationResponse invocation ;;
  e ← load invocation;
  store invocation (e_error err e) ;;
  maf_event_add invocation ;;
  mret MafOk.

Definition maf_coremw_start : A MafReturnT := mret MafOk.

Definition maf_coremw_acInitialize (callbacks : bool) : A MafReturnT :=
  modify (set_cb callbacks) ;;
  rc ← call env pthread_attr_init;
  if negb (rc =? 0) then mret MafFailure
  else
    rc ← call env pthread_create_amf;
    if negb (rc =? 0) then mret MafFailure
    else
      call env pthread_attr_destroy ;;
      modify (set_amf_running true) ;;
      mret MafOk.

Definition stop_ntf_thread : A () :=
  call env write_ntf_pipe ;;
  call env pthread_cancel_ntf ;;
  call env pthread_join_ntf ;;
  modify (set_ntf_running false).

(** The request to the AMF thread; [maf_coremw_stop] then waits for it. *)
Definition stop_request : A () :=
  p ← maf_new_event EVENT_Terminate 0 0;
  maf_event_add p.

Definition maf_coremw_stop : A MafReturnT :=
  call env killChildIfAny ;;
  s ← get;
  when (ntf_pthread_isrunning s) stop_ntf_thread ;;
  s ← get;
  when (amf_pthread_isrunning s)
    (stop_request ;;
     call env pthread_join_amf ;;
     modify (set_amf_running false)) ;;
  modify (set_cb false) ;;
  mret MafOk.

(** ** Answering the AMF *)
Definition amf_pause : A () := call env (sleep AMF_TRY_INTERVAL).

Definition saAmfResponse_wrapper (inv : SaInvocationT) (err : SaAisErrorT) : A () :=
  rc ← SAF_API_CALL amf_pause (call env (saAmfResponse inv err));
  when (negb (bool_decide (rc = SA_AIS_OK))) (exit ErrQuit).

Definition quiescing_complete (inv : SaInvocationT) (err : SaAisErrorT) : A () :=
  rc ← call env (saAmfCSIQuiescingComplete inv err);
  when (negb (bool_decide (rc = SA_AIS_OK))) (exit ErrQuit).

(** ** Calls from the AMF *)
Definition modelConsumerReadycmd := "cmw-modelconsumer-ready COM_R1 /opt/com/util/comsa_mdf_consumer".
Definition updateScript := " /usr/bin/update_sshd -d".
Definition reloadScript := " /usr/bin/reload_sshd".
Definition REENCRYPTOR_MODEL_DATA_FILE_PATH := "/opt/com/run/reencryptor-model-data".

Definition removeSecretAttrFile : A () :=
  call env (remove_file REENCRYPTOR_MODEL_DATA_FILE_PATH) ;; mret ().

(** [alertalarm]: the alarm, command and security logs are opened once. *)
Definition open_com_logs : A () :=
  s ← get;
  when (negb (alertalarm s =? 1))
    (modify (set_alertalarm 1) ;;
     call env (service AlarmAndAlertLogServiceOpen) ;;
     call env (service cmdLogServiceOpen) ;;
     call env (service secLogServiceOpen) ;; mret ()).

(** [case SA_AMF_HA_ACTIVE] *)
Definition csi_active (inv : SaInvocationT) (transition : SaAmfCSITransitionDescriptorT) : A MafMwSpiHaReasonT :=
  s ← get;
  when (negb (bool_decide (cc_name s = "lm"))) (call env (processOpen modelConsumerReadycmd) ;; mret ()) ;;
  modify (set_new_ha MafMwSpiHaModeActive) ;;
  rc ← call env (service ObjImp_init_imm);
  when (bool_decide (rc = MafFailure))
    (of_option BadPointer (if maf_acCallbacks s then Some () else None) ;;
     p ← maf_new_event EVENT_prepareTerminationResponse inv 0;
     call env (prepareTermination p)) ;;
  when (negb (bool_decide (cc_name s = "lm"))) open_com_logs ;;
  mret match transition with
       | SA_AMF_CSI_NEW_ASSIGN => MafMwSpiHaReasonInit
       | SA_AMF_CSI_NOT_QUIESCED => MafMwSpiHaReasonFail
       | _ => MafMwSpiHaReasonSwitchover
       end.

(** [case SA_AMF_HA_STANDBY] *)
Definition csi_standby : A MafMwSpiHaReasonT :=
  s ← get;
  when (bool_decide (cc_name s = "com"))
    (when (comsa_sshd_control s)
       (sudo ← call env (getenv "SUDO_CMD");
        let prefix := default "" sudo in
        call env (processOpen (prefix +:+ updateScript)) ;;
        call env (processOpen (prefix +:+ reloadScript)) ;; mret ()) ;;
     removeSecretAttrFile) ;;
  modify (set_new_ha MafMwSpiHaModeStandby) ;;
  mret MafMwSpiHaReasonInit.

(** [case SA_AMF_HA_QUIESCED] and [case SA_AMF_HA_QUIESCING] *)
Definition csi_quiesced : A MafMwSpiHaReasonT :=
  s ← get;
  call env removeFileMConsumer ;;
  when (bool_decide (cc_name s = "com")) removeSecretAttrFile ;;
  modify (set_new_ha MafMwSpiHaModeUnassigned) ;;
  mret MafMwSpiHaReasonSwitchover.
Definition csi_quiescing : A MafMwSpiHaReasonT :=
  s ← get;
  when (bool_decide (cc_name s = "com")) removeSecretAttrFile ;;
  modify (set_new_ha MafMwSpiHaModeUnassigned) ;;
  mret MafMwSpiHaReasonSwitchover.

(** The end of the handler: answer at once when there is nothing to do in COM,
    otherwise ask COM. *)
Definition csi_forward (inv : SaInvocationT) (ha : SaAmfHAStateT) (reason : MafMwSpiHaReasonT) : A () :=
  s ← get;
  if negb (maf_acCallbacks s) || bool_decide (maf_com_ha_state s = maf_new_com_ha_state s) then
    saAmfResponse_wrapper inv SA_AIS_OK ;;
    when (bool_decide (ha = SA_AMF_HA_QUIESCING)) (quiescing_complete inv SA_AIS_OK)
  else
    p ← (if bool_decide (ha = SA_AMF_HA_QUIESCING) then
           saAmfResponse_wrapper inv SA_AIS_OK ;;
           maf_new_event EVENT_haModeAssumed inv 1
         else maf_new_event EVENT_haModeAssumed inv 0);
    call env (setHaMode p (maf_new_com_ha_state s) reason).

Definition maf_amf_csi_set_callback (inv : SaInvocationT) (ha : SaAmfHAStateT)
    (transition : SaAmfCSITransitionDescriptorT) : A () :=
  reason ← match ha with
           | SA_AMF_HA_ACTIVE => csi_active inv transition
           | SA_AMF_HA_STANDBY => csi_standby
           | SA_AMF_HA_QUIESCED => csi_quiesced
           | SA_AMF_HA_QUIESCING => csi_quiescing
           | SA_AMF_HA_other _ => exit AssertFailed
           end;
  csi_forward inv ha reason.

Definition maf_amf_csi_remove_callback (inv : SaInvocationT) : A () :=
  s ← get;
  if bool_decide (maf_com_ha_state s = MafMwSpiHaModeUnassigned) then saAmfResponse_wrapper inv SA_AIS_OK
  else maf_amf_csi_set_callback inv SA_AMF_HA_QUIESCED SA_AMF_CSI_zero.

Definition maf_amf_healthcheck_callback (inv : SaInvocationT) : A () :=
  s ← get;
  if negb (maf_acCallbacks s) then saAmfResponse_wrapper inv SA_AIS_OK
  else
    p ← maf_new_event EVENT_healthCheckReport inv 0;
    call env (healthCheck p).

Definition maf_amf_comp_terminate_callback (inv : SaInvocationT) : A () :=
  s ← get;
  if negb (maf_acCallbacks s) then
    saAmfResponse_wrapper inv SA_AIS_OK ;; exit ErrQuit
  else
    p ← maf_new_event EVENT_prepareTerminationResponse inv 0;
    call env (prepareTermination p).

Definition run_upcall (u : upcall) : A () :=
  match u with
  | CSISet inv ha tr => maf_amf_csi_set_callback inv ha tr
  | CSIRemove inv => maf_amf_csi_remove_callback inv
  | Healthcheck inv => maf_amf_healthcheck_callback inv
  | ComponentTerminate inv => maf_amf_comp_terminate_callback inv
  end.

Fixpoint run_upcalls (us : list upcall) : A () :=
  match us with
  | [] => mret ()
  | u :: us => run_upcall u ;; run_upcalls us
  end.

Definition dispatch_amf : A () :=
  '(us, rc) ← call env saAmfDispatch;
  run_upcalls us ;;
  when (negb (bool_decide (rc = SA_AIS_OK))) (exit ErrQuit).

(** ** Handling the answers of COM *)
Definition mimToolFileName := "pending_comsa_restart".
Definition comsaProductDir := "comsa_for_coremw-apr9010555".

Definition handshakeToComsaMimTool : A () :=
  dir ← call env getClearStorage;
  let cmd := "rm -rf " +:+ dir +:+ "/" +:+ comsaProductDir +:+ "/" +:+ mimToolFileName in
  retry (fun rc => rc =? 1) (call env (usleep 1000)) (call env (processOpen cmd)) 20 ;;
  mret ().

Definition outcome_of (e : maf_CoremwEvent) : A SaAisErrorT :=
  err ← of_option BadPointer (error e);
  mret (if bool_decide (err = MafOk) then SA_AIS_OK else SA_AIS_ERR_FAILED_OPERATION).

(** [true] when the notification thread is running, or is not needed. *)
Definition start_ntf_thread : A bool :=
  s ← get;
  if bool_decide (maf_new_com_ha_state s = MafMwSpiHaModeActive) then
    rc ← call env pthread_attr_init;
    if negb (rc =? 0) then mret false
    else
      rc ← call env pthread_create_ntf;
      if negb (rc =? 0) then call env pthread_attr_destroy ;; mret false
      else modify (set_ntf_running true) ;; mret true
  else mret true.

Definition maf_coremw_haModeAssumed_event (p : ptr) : A () :=
  e ← load p;
  response ← outcome_of e;
  go_on ← (if bool_decide (response = SA_AIS_OK) then
             modify (fun s => set_ha (maf_new_com_ha_state s) s) ;;
             start_ntf_thread
           else mret true);
  when go_on
    (if flags e =? 1 then quiescing_complete (saf_invokation e) response
     else
       s ← get;
       when (negb (bool_decide (maf_new_com_ha_state s = MafMwSpiHaModeUnassigned))
             && negb (bool_decide (cc_name s = "lm"))) handshakeToComsaMimTool ;;
       saAmfResponse_wrapper (saf_invokation e) response).

Definition maf_coremw_healthCheckReport_event (p : ptr) : A () :=
  e ← load p;
  response ← outcome_of e;
  if flags e =? 0 then saAmfResponse_wrapper (saf_invokation e) response
  else
    recovery ← of_option BadPointer (recommendedRecovery e);
    rc ← call env (saAmfComponentErrorReport
                     (if bool_decide (recovery = MafMwSpiRecommendedRecoveryFailover)
                      then SA_AMF_COMPONENT_FAILOVER else SA_AMF_COMPONENT_RESTART));
    when (negb (bool_decide (rc = SA_AIS_OK))) (exit ErrQuit).

Definition maf_coremw_prepareTerminationResponse_event (p : ptr) : A () :=
  e ← load p;
  response ← outcome_of e;
  saAmfResponse_wrapper (saf_invokation e) response ;;
  s ← get;
  assert_c (maf_acCallbacks s) ;;
  call env terminateProcess.

(** One turn of the loop of [maf_handle_events]. *)
Definition handle_event (p : ptr) : A (option ptr) :=
  e ← load p;
  match event_type e with
  | EVENT_Terminate => modify (set_stop true)
  | EVENT_haModeAssumed => maf_coremw_haModeAssumed_event p
  | EVENT_healthCheckReport => maf_coremw_healthCheckReport_event p
  | EVENT_prepareTerminationResponse => maf_coremw_prepareTerminationResponse_event p
  | EVENT_None => exit AssertFailed
  end ;;
  e ← load p;
  free_event p ;;
  mret (next e).

Fixpoint handle_list (fuel : nat) (event : option ptr) : A () :=
  match event with
  | None => mret ()
  | Some p =>
      match fuel with
      | O => exit OutOfFuel
      | S fuel => n ← handle_event p; handle_list fuel n
      end
  end.

Definition maf_handle_events : A () :=
  q ← maf_event_getq;
  s ← get;
  handle_list (size (evs s)) q.

(** ** The AMF thread *)
Definition AMF_CALL (e : acE SaAisErrorT) : A SaAisErrorT := SAF_API_CALL amf_pause (call env e).

(** A step of the start-up; on failure the handle is closed and the process
    exits. *)
Definition amf_step (e : acE SaAisErrorT) : A () :=
  rc ← AMF_CALL e;
  when (negb (bool_decide (rc = SA_AIS_OK))) (AMF_CALL saAmfFinalize ;; exit ErrQuit).

Definition amf_start : A () :=
  amf_step saAmfInitialize ;;
  amf_step saAmfSelectionObjectGet ;;
  amf_step saAmfComponentNameGet ;;
  amf_step saAmfComponentRegister ;;
  s ← get;
  amf_step (saAmfHealthcheckStart (if bool_decide (cc_name s = "lm") then "LM_SA" else "COM_SA")) ;;
  call env register_poll_callbacks.

Definition run_pollcb (c : pollcb) : A () :=
  match c with CbDispatchAmf => dispatch_amf | CbHandleEvents => maf_handle_events end.

Fixpoint run_pollcbs (cs : list pollcb) : A () :=
  match cs with
  | [] => mret ()
  | c :: cs => run_pollcb c ;; run_pollcbs cs
  end.

Fixpoint amf_loop (fuel : nat) : A () :=
  s ← get;
  if stop_thread s then mret ()
  else
    match fuel with
    | O => exit OutOfFuel
    | S fuel =>
        '(cs, rc) ← call env poll_execute;
        run_pollcbs cs ;;
        when (negb (rc =? 0)) (AMF_CALL saAmfFinalize ;; exit ErrQuit) ;;
        amf_loop fuel
    end.

Definition maf_amf_thread (fuel : nat) : A () :=
  amf_start ;;
  amf_loop fuel ;;
  s ← get;
  when (negb (bool_decide (cc_name s = "lm")))
    (rc ← AMF_CALL saAmfFinalize;
     when (negb (bool_decide (rc = SA_AIS_OK))) (exit ErrQuit)).

(** ** Who starts [sshd] *)
Definition sshdFileName := "/opt/com/run/AMF_handles_SSHD".
Definition sshdByComsa := "/opt/com/run/ComSA_handles_SSHD".

Definition run_or_fail (cmd : string) (k : A MafReturnT) : A MafReturnT :=
  rc ← call env (processOpen cmd); if rc =? 0 then k else mret MafFailure.

Definition InitAmfSshdControl : A MafReturnT :=
  rc ← call env (processOpen "is-com-sshd-flag-enabled.sh");
  if rc =? 0 then
    modify (set_sshd false) ;;
    run_or_fail ("rm -f " +:+ sshdByComsa) (run_or_fail ("touch " +:+ sshdFileName) (mret MafOk))
  else
    modify (set_sshd true) ;;
    run_or_fail ("rm -f " +:+ sshdFileName) (run_or_fail ("touch " +:+ sshdByComsa) (mret MafOk)).
End env.
