(* ===== verification/AcFacts.v ===== *)
(** * Availability controller: representation and ledger

    What the event queue, the events handed to COM and the history of answers
    look like at every moment, and that each operation keeps it so. *)
From Stdlib Require Import ZArith Lia.
From stdpp Require Import base gmap list strings.
From S2P Require Import Prelude Codes AvailController.

Open Scope Z_scope.

(** ** The representation invariant *)
Definition core (e : maf_CoremwEvent) : maf_CoremwEvent := e_next None e.
Abbreviation elist := (list (ptr * maf_CoremwEvent)).
Abbreviation eseg := (lseg next core).

Definition held (h : gmap ptr maf_CoremwEvent) (x : ptr * maf_CoremwEvent) : Prop :=
  exists n, h !! x.1 = Some n /\ core n = x.2.

(** [q] is queued, [pend] is what the AMF thread has taken from the queue and
    not handled yet, [out] are the events COM has not answered; nothing else is
    allocated, and the pipe holds a byte exactly when the queue is not empty. *)
Record ac_ok (s : Ac) (q pend out : elist) : Prop := {
  a_queue : eseg (evs s) (maf_eventq_head s) q None;
  a_tail : maf_eventq_tail s = last_ptr q None;
  a_pend : eseg (evs s) (head_ptr pend) pend None;
  a_out : Forall (held (evs s)) out;
  a_nodup : NoDup (q ++ pend ++ out).*1;
  a_dom : dom (evs s) = list_to_set (q ++ pend ++ out).*1;
  a_pipe : pipe_bytes s = match q with [] => 0%nat | _ => 1%nat end
}.

(** The part of the state the representation is about is left alone. *)
Definition keeps (s s' : Ac) : Prop :=
  evs s' = evs s /\ maf_eventq_head s' = maf_eventq_head s /\
  maf_eventq_tail s' = maf_eventq_tail s /\ pipe_bytes s' = pipe_bytes s.
(** ... and the part it is not about. *)
Definition same_ctl (s s' : Ac) : Prop :=
  maf_acCallbacks s' = maf_acCallbacks s /\ amf_pthread_isrunning s' = amf_pthread_isrunning s /\
  ntf_pthread_isrunning s' = ntf_pthread_isrunning s /\ stop_thread s' = stop_thread s /\
  maf_com_ha_state s' = maf_com_ha_state s /\ maf_new_com_ha_state s' = maf_new_com_ha_state s /\
  alertalarm s' = alertalarm s /\ comsa_sshd_control s' = comsa_sshd_control s /\ cc_name s' = cc_name s.

#[export] Instance keeps_preorder : PreOrder keeps.
Proof.
  split; [by repeat split|]. intros s1 s2 s3 (H1 & H2 & H3 & H4) (G1 & G2 & G3 & G4). unfold keeps. rewrite G1, G2, G3, G4. done.
Qed.

Lemma ac_ok_keeps s s' q pend out : keeps s s' -> ac_ok s q pend out -> ac_ok s' q pend out.
Proof. intros (H1 & H2 & H3 & H4) []. constructor; rewrite ?H1, ?H2, ?H3, ?H4; done. Qed.

Lemma ac_ok_perm s q pend out out' : out ≡ₚ out' -> ac_ok s q pend out -> ac_ok s q pend out'.
Proof.
  intros HP []. constructor; try done; [by rewrite <- HP..|].
  rewrite a_dom0. apply leibniz_equiv. by rewrite HP.
Qed.

(** ** The history of answers *)
Definition ok_inv (inv : SaInvocationT) (r : SaAisErrorT) : list SaInvocationT :=
  if bool_decide (r = SA_AIS_OK) then [inv] else [].

Definition answer_of (x : event acE) : list SaInvocationT :=
  match x with
  | Ev e r => (match e in acE R return R -> list SaInvocationT with
               | saAmfResponse inv _ => ok_inv inv
               | _ => fun _ => []
               end) r
  end.
Definition complete_of (x : event acE) : list SaInvocationT :=
  match x with
  | Ev e r => (match e in acE R return R -> list SaInvocationT with
               | saAmfCSIQuiescingComplete inv _ => ok_inv inv
               | _ => fun _ => []
               end) r
  end.
(** The event handed to COM by a call. *)
Definition given_of (x : event acE) : list ptr :=
  match x with
  | Ev e _ => match e with
              | setHaMode p _ _ | healthCheck p | prepareTermination p => [p]
              | _ => []
              end
  end.
Definition answers (tr : list (event acE)) : list SaInvocationT := tr ≫= answer_of.
Definition completes (tr : list (event acE)) : list SaInvocationT := tr ≫= complete_of.
Definition given (tr : list (event acE)) : list ptr := tr ≫= given_of.

(** What is still to be answered for an event. *)
Definition owed_of (e : maf_CoremwEvent) : list SaInvocationT :=
  match event_type e with
  | EVENT_None | EVENT_Terminate => []
  | _ => if flags e =? 0 then [saf_invokation e] else []
  end.
Definition owedq_of (e : maf_CoremwEvent) : list SaInvocationT :=
  match event_type e with
  | EVENT_haModeAssumed => if flags e =? 1 then [saf_invokation e] else []
  | _ => []
  end.
Definition owed (l : elist) : list SaInvocationT := l ≫= fun x => owed_of x.2.
Definition owedq (l : elist) : list SaInvocationT := l ≫= fun x => owedq_of x.2.

(** The events the code creates, and those COM has answered. *)
Definition wf_event (e : maf_CoremwEvent) : Prop :=
  match event_type e with
  | EVENT_None => False
  | EVENT_Terminate | EVENT_prepareTerminationResponse => flags e = 0
  | EVENT_healthCheckReport | EVENT_haModeAssumed => flags e = 0 \/ flags e = 1
  end.
Definition answered (e : maf_CoremwEvent) : Prop :=
  match event_type e with
  | EVENT_None | EVENT_Terminate => True
  | EVENT_healthCheckReport => is_Some (error e) /\ is_Some (recommendedRecovery e)
  | _ => is_Some (error e)
  end.

(** The process may give up, but not touch memory it must not touch. *)
Definition clean_exit (w : exit_reason) : Prop := w = ErrQuit \/ w = Aborted \/ w = AssertFailed.

(** ** Computations that neither touch the events nor answer

    [quietR R m]: [m] adds nothing to the ledger, and relates the states by [R]. *)
Section quietR.
Context (R : Ac -> Ac -> Prop) `{HR : PreOrder Ac R}.

Definition quietR {T} (m : A T) : Prop := forall s tr,
  post m (s, tr) (fun _ c' => R s c'.1 /\ exists d, c'.2 = tr ++ d /\ answers d = [] /\ completes d = [] /\ given d = [])
    clean_exit.

Lemma quiet_ret {T} (a : T) : quietR (mret a).
Proof using HR. intros s tr. post_step. split; [done|]. exists []. by rewrite app_nil_r. Qed.
Lemma quiet_bind {T U} (m : A T) (k : T -> A U) : quietR m -> (forall a, quietR (k a)) -> quietR (m ≫= k).
Proof using HR.
  intros Hm Hk s tr. post_step. eapply post_mono; [apply Hm| |done].
  intros a [s1 tr1] (K1 & d1 & Hd1 & A1 & C1 & G1). cbn [fst snd] in *. subst tr1.
  eapply post_mono; [apply Hk| |done]. intros b [s2 tr2] (K2 & d2 & Hd2 & A2 & C2 & G2). cbn [fst snd] in *. subst tr2.
  split; [by etrans|]. exists (d1 ++ d2). unfold answers, completes, given in *. rewrite !bind_app, <- app_assoc. by rewrite A1, C1, G1.
Qed.
Lemma quiet_get : quietR (get : A Ac).
Proof using HR. intros s tr. post_step. split; [done|]. exists []. by rewrite app_nil_r. Qed.
Lemma quiet_modify f : (forall s, R s (f s)) -> quietR (modify f : A ()).
Proof using. intros Hf s tr. post_step. split; [apply Hf|]. exists []. by rewrite app_nil_r. Qed.
Lemma quiet_call env {T} (e : acE T) :
  (forall r, answer_of (Ev e r) = [] /\ complete_of (Ev e r) = [] /\ given_of (Ev e r) = []) -> quietR (call env e).
Proof using HR.
  intros He s tr. post_step. split; [done|]. exists [Ev e r]. split; [done|].
  destruct (He r) as (H1 & H2 & H3). unfold answers, completes, given. cbn [mbind list_bind app]. by rewrite H1, H2, H3.
Qed.
Lemma quiet_exit {T} w : clean_exit w -> quietR (exit w : A T).
Proof using. intros Hw s tr. by apply post_exit. Qed.
Lemma quiet_when b m : quietR m -> quietR (when b m).
Proof using HR. destruct b; [done|]. intros _. apply quiet_ret. Qed.
Lemma quiet_if {T} (b : bool) (m m' : A T) : quietR m -> quietR m' -> quietR (if b then m else m').
Proof using. by destruct b. Qed.
Lemma quiet_assert b : quietR (assert_c b).
Proof using HR. destruct b; [apply quiet_ret|]. apply quiet_exit. by right; right. Qed.
Lemma quiet_retry {T} (again : T -> bool) pause f n : quietR pause -> quietR f -> quietR (retry again pause f n).
Proof using HR.
  intros Hp Hf. induction n as [|n IH]; (eapply quiet_bind; [done|]); intros rc; destruct (again rc);
    eauto using quiet_ret, quiet_bind.
Qed.
End quietR.
Abbreviation quiet := (quietR keeps).

(** Goes through a program that is quiet call by call. *)
Ltac quiet_solve :=
  repeat first
    [ progress intros
    | solve [apply quiet_ret; exact _ | apply quiet_get; exact _ | apply quiet_assert; exact _]
    | apply quiet_bind | apply quiet_when | apply quiet_if | apply quiet_retry
    | solve [apply quiet_call; first [done | exact _]]
    | solve [apply quiet_modify; done]
    | apply quiet_exit; by repeat (first [by left | right])
    | match goal with |- PreOrder _ => exact _ end
    | match goal with |- quietR _ (match ?x with _ => _ end) => destruct x end ].

(** ** The queue operations *)
Lemma core_core e : core (core e) = core e.
Proof. done. Qed.
Lemma owed_core e : owed_of (core e) = owed_of e.
Proof. done. Qed.

Lemma load_event_sat p s tr e (Q : _ -> _ -> Prop) :
  evs s !! p = Some e -> Q e (s, tr) -> sat (load p) (s, tr) Q.
Proof. intros Hp HQ. unfold load. sat_steps. by eapply sat_of_option. Qed.

Lemma store_event_sat p e s tr (Q : _ -> _ -> Prop) :
  Q () (set_evs (<[p := e]> (evs s)) s, tr) -> sat (store p e) (s, tr) Q.
Proof. intros HQ. unfold store. by apply sat_modify. Qed.

Lemma held_ext h h' (out : elist) :
  (forall p, p ∈ out.*1 -> h' !! p = h !! p) -> Forall (held h) out -> Forall (held h') out.
Proof.
  intros Hf. rewrite !Forall_forall. intros Ho x Hx. destruct (Ho x Hx) as (n & Hn & Hc). exists n.
  split; [|done]. rewrite Hf; [done|]. by apply list_elem_of_fmap_2.
Qed.

Lemma ac_alive s q pend out p : ac_ok s q pend out -> p ∈ (q ++ pend ++ out).*1 <-> is_Some (evs s !! p).
Proof. intros R. rewrite <- elem_of_dom, (a_dom _ _ _ _ R). by rewrite elem_of_list_to_set. Qed.

Definition blank (ty : CoremwEventType) (inv : SaInvocationT) (fl : Z) : maf_CoremwEvent :=
  MkEvent None ty inv fl None None.

Lemma new_event_sat ty inv fl s tr q pend out :
  ac_ok s q pend out ->
  sat (maf_new_event ty inv fl) (s, tr) (fun p c' =>
    c' = (set_evs (<[p := blank ty inv fl]> (evs s)) s, tr) /\ evs s !! p = None /\
    ac_ok c'.1 q pend ((p, blank ty inv fl) :: out)).
Proof.
  intros R. unfold maf_new_event. do 2 sat_step. set (p := fresh (dom (evs s))).
  assert (Hp : p ∉ dom (evs s)) by apply is_fresh. clearbody p.
  sat_step. apply store_event_sat. sat_step. split; [done|]. split; [by apply not_elem_of_dom|].
  destruct R as [Hq Ht Hp' Ho Hnd Hdom Hpi]. rewrite Hdom, elem_of_list_to_set in Hp.
  assert (HP : q ++ pend ++ (p, blank ty inv fl) :: out ≡ₚ (p, blank ty inv fl) :: q ++ pend ++ out) by solve_Permutation.
  constructor; simpl; try done.
  - apply lseg_insert; [|done]. rewrite fmap_app in Hp. set_solver.
  - apply lseg_insert; [|done]. rewrite !fmap_app in Hp. set_solver.
  - constructor; [exists (blank ty inv fl); split; [apply lookup_insert_eq|done]|].
    eapply held_ext; [|exact Ho]. intros r Hr. apply lookup_insert_ne. intros ->. apply Hp. rewrite !fmap_app. set_solver.
  - rewrite HP. by apply NoDup_cons.
  - rewrite dom_insert_L, Hdom. apply leibniz_equiv. rewrite HP. simpl. set_solver.
Qed.

Lemma nodup_mid (q pend o1 o2 : elist) p e :
  NoDup (q ++ pend ++ o1 ++ (p, e) :: o2).*1 -> (p ∉ q.*1) /\ (p ∉ pend.*1) /\ (p ∉ o1.*1) /\ (p ∉ o2.*1).
Proof.
  assert (HP : q ++ pend ++ o1 ++ (p, e) :: o2 ≡ₚ (p, e) :: q ++ pend ++ o1 ++ o2) by solve_Permutation.
  rewrite HP, fmap_cons. intros [Hp _]%NoDup_cons. cbn [fst] in Hp. rewrite !fmap_app, !elem_of_app in Hp. tauto.
Qed.

(** Writing to an event COM has just answered. *)
Lemma ac_ok_write s q pend o1 o2 p e n n' :
  ac_ok s q pend (o1 ++ (p, e) :: o2) -> evs s !! p = Some n -> 
  ac_ok (set_evs (<[p := n']> (evs s)) s) q pend (o1 ++ (p, core n') :: o2).
Proof.
  intros [Hq Ht Hp' Ho Hnd Hdom Hpi] Hn.
  assert (Hk : (q ++ pend ++ o1 ++ (p, core n') :: o2).*1 = (q ++ pend ++ o1 ++ (p, e) :: o2).*1) by (by rewrite !fmap_app).
  destruct (nodup_mid _ _ _ _ _ _ Hnd) as (Hp1 & Hp2 & Hp3 & Hp4).
  constructor; simpl; rewrite ?Hk; try done.
  - by apply lseg_insert.
  - by apply lseg_insert.
  - apply Forall_app in Ho as [Ho1 [_ Ho2]%Forall_cons]. apply Forall_app. split; [|constructor].
    + eapply held_ext; [|exact Ho1]. intros r Hr. apply lookup_insert_ne. by intros ->.
    + exists n'. split; [apply lookup_insert_eq|done].
    + eapply held_ext; [|exact Ho2]. intros r Hr. apply lookup_insert_ne. by intros ->.
  - rewrite dom_insert_L, <- Hdom. apply subseteq_union_1_L, singleton_subseteq_l. apply elem_of_dom. eauto.
Qed.

Lemma ac_ok_out s q pend o1 o2 p e : ac_ok s q pend (o1 ++ (p, e) :: o2) -> exists n, evs s !! p = Some n /\ core n = e.
Proof. intros R. pose proof (a_out _ _ _ _ R) as Ho. apply Forall_app in Ho as [_ [H _]%Forall_cons]. exact H. Qed.

Definition silent (tr tr' : list (event acE)) : Prop :=
  exists d, tr' = tr ++ d /\ answers d = [] /\ completes d = [] /\ given d = [].

Lemma silent_refl tr : silent tr tr.
Proof. exists []. by rewrite app_nil_r. Qed.
Lemma silent_trans t1 t2 t3 : silent t1 t2 -> silent t2 t3 -> silent t1 t3.
Proof.
  intros (d1 & -> & A1 & C1 & G1) (d2 & -> & A2 & C2 & G2). exists (d1 ++ d2). unfold answers, completes, given in *.
  rewrite !bind_app, <- app_assoc. by rewrite A1, C1, G1.
Qed.

(** Running a quiet computation in front of another. *)
Lemma post_quietR (R : Ac -> Ac -> Prop) {T U} (m : A T) (k : T -> A U) s tr (Q : U -> Ac * list (event acE) -> Prop) (X : exit_reason -> Prop) :
  quietR R m -> (forall w, clean_exit w -> X w) ->
  (forall a s' tr', R s s' -> silent tr tr' -> post (k a) (s', tr') Q X) ->
  post (m ≫= k) (s, tr) Q X.
Proof.
  intros Hm HX Hk. post_step. eapply post_mono; [apply Hm| |exact HX].
  intros a [s' tr'] (K & Hd). by apply Hk.
Qed.
Definition post_quiet {T U} := @post_quietR keeps T U.

Lemma quiet_checked env e : quiet (call env e) -> quiet (checked (call env e)).
Proof.
  intros He. apply (quiet_bind keeps); [done|]. intros. apply (quiet_when keeps), (quiet_exit keeps). by right; left.
Qed.

(** Moving an answered event to the end of the queue: what does not depend on
    how the queue looked. *)
Lemma ac_ok_move s q pend o1 o2 p e :
  ac_ok s q pend (o1 ++ (p, e) :: o2) ->
  NoDup ((q ++ [(p, e)]) ++ pend ++ o1 ++ o2).*1 /\
  dom (evs s) = list_to_set ((q ++ [(p, e)]) ++ pend ++ o1 ++ o2).*1 /\ Forall (held (evs s)) (o1 ++ o2) /\
  (p ∉ q.*1) /\ (p ∉ pend.*1) /\ (p ∉ (o1 ++ o2).*1).
Proof.
  intros R. destruct R as [_ _ _ Ho Hnd Hdom _].
  assert (HP : (q ++ [(p, e)]) ++ pend ++ o1 ++ o2 ≡ₚ q ++ pend ++ o1 ++ (p, e) :: o2) by solve_Permutation.
  destruct (nodup_mid _ _ _ _ _ _ Hnd) as (? & ? & ? & ?).
  split; [by rewrite HP|]. split; [rewrite Hdom; apply leibniz_equiv; by rewrite HP|].
  split; [apply Forall_app in Ho as [? [_ ?]%Forall_cons]; by apply Forall_app|].
  rewrite fmap_app, elem_of_app. tauto.
Qed.

(** ... behind the last event, *)
Lemma ac_ok_append s q pend o1 o2 p n t m :
  ac_ok s q pend (o1 ++ (p, core n) :: o2) -> evs s !! p = Some n -> next n = None ->
  last_ptr q None = Some t -> evs s !! t = Some m ->
  ac_ok (set_q (maf_eventq_head s) (Some p) (set_evs (<[t := e_next (Some p) m]> (evs s)) s))
    (q ++ [(p, core n)]) pend (o1 ++ o2).
Proof.
  intros R Hn Hx El Hm. destruct (ac_ok_move _ _ _ _ _ _ _ R) as (Hnd & Hdom & Ho & Hpq & Hpp & Hpo).
  destruct R as [Hq Ht Hpd _ _ _ Hpi]. pose proof (last_ptr_in _ _ El) as Htq.
  destruct q as [|[q0 c0] q' _] using rev_ind; [done|]. rewrite last_ptr_snoc in El. injection El as ->.
  assert (Htp : t <> p) by (intros ->; done).
  assert (Hdis : (t ∉ q'.*1) /\ (t ∉ pend.*1) /\ (t ∉ (o1 ++ o2).*1)).
  { rewrite !fmap_app in Hnd. apply NoDup_app in Hnd as (Hnd & Hd & _). rewrite fmap_app. split.
    - apply NoDup_app in Hnd as (Hnd & _). apply NoDup_app in Hnd as (_ & Hd' & _). intros Hin. eapply Hd'; [done|by left].
    - specialize (Hd t). rewrite !elem_of_app in Hd |- *. split; intros ?; apply Hd; set_solver. }
  destruct Hdis as (Hnq & Htpd & Hto).
  destruct (lseg_relink next core e_next (fun _ _ => eq_refl) (fun _ _ => eq_refl) _ _ _ _ _ _ Hnq Hq)
    as (m' & Hm' & _ & _ & Hre). assert (m' = m) as -> by congruence.
  constructor; simpl; try done.
  - apply lseg_app. exists (Some p). split; [apply Hre|]. exists n. by rewrite lookup_insert_ne.
  - by rewrite last_ptr_snoc.
  - by apply lseg_insert.
  - eapply held_ext; [|exact Ho]. intros r Hr. apply lookup_insert_ne. by intros ->.
  - rewrite dom_insert_L, <- Hdom. apply subseteq_union_1_L, singleton_subseteq_l. by eapply elem_of_dom_2.
  - rewrite Hpi. by destruct q'.
Qed.

(** ... or as the first one, with a byte in the pipe. *)
Lemma ac_ok_first s q pend o1 o2 p n :
  ac_ok s q pend (o1 ++ (p, core n) :: o2) -> evs s !! p = Some n -> next n = None -> last_ptr q None = None ->
  q = [] /\ ac_ok (set_pipe (S (pipe_bytes s)) (set_q (Some p) (Some p) s)) [(p, core n)] pend (o1 ++ o2).
Proof.
  intros R Hn Hx El. assert (q = []) as ->.
  { destruct q as [|[q0 c0] q' _] using rev_ind; [done|]. by rewrite last_ptr_snoc in El. }
  split; [done|]. destruct (ac_ok_move _ _ _ _ _ _ _ R) as (Hnd & Hdom & Ho & _).
  destruct R as [_ _ Hpd _ _ _ Hpi]. constructor; simpl; try done; [by exists n|by rewrite Hpi].
Qed.

Lemma event_add_post env s tr q pend o1 o2 p e :
  ac_ok s q pend (o1 ++ (p, e) :: o2) ->
  post (maf_event_add env p) (s, tr) (fun _ c' =>
    silent tr c'.2 /\ ac_ok c'.1 (q ++ [(p, e)]) pend (o1 ++ o2)) clean_exit.
Proof.
  intros R. unfold maf_event_add.
  eapply post_quiet; [apply quiet_checked; quiet_solve|done|]. intros _ s0 tr0 K0 Hs0.
  apply (ac_ok_keeps _ _ _ _ _ K0) in R. clear K0. destruct (ac_ok_out _ _ _ _ _ _ _ R) as (n & Hn & <-).
  post_step. eapply sat_post, load_event_sat; [done|]. post_step. eapply sat_post, store_event_sat.
  pose proof (ac_ok_write _ _ _ _ _ _ _ _ (e_next None n) R Hn) as R1. change (core (e_next None n)) with (core n) in R1.
  set (s1 := set_evs _ s0) in *. assert (Hn1 : evs s1 !! p = Some (e_next None n)) by apply lookup_insert_eq.
  clearbody s1. clear R Hn. do 2 post_step.
  assert (Hfin : forall s2 tr2, silent tr tr2 -> ac_ok s2 (q ++ [(p, core n)]) pend (o1 ++ o2) ->
    post (checked (call env mutex_unlock)) (s2, tr2)
     (fun _ c' => silent tr c'.2 /\ ac_ok c'.1 (q ++ [(p, core n)]) pend (o1 ++ o2)) clean_exit).
  { intros s2 tr2 Hs2 R2. eapply post_mono; [apply quiet_checked; quiet_solve| |done].
    intros _ [s3 tr3] (K & Hs3). split; [by eapply silent_trans|by eapply ac_ok_keeps]. }
  rewrite (a_tail _ _ _ _ R1). destruct (last_ptr q None) as [t|] eqn:El.
  - destruct (lseg_alive _ _ _ _ _ _ _ (a_queue _ _ _ _ R1) (last_ptr_in _ _ El)) as [m Hm].
    assert (Hhd : maf_eventq_head s1 <> None).
    { intros Hhd. pose proof (a_queue _ _ _ _ R1) as Hq. rewrite Hhd in Hq. apply lseg_none in Hq as [-> _]. done. }
    do 2 post_step. unfold assert_c. rewrite bool_decide_false by done. cbn [negb]. do 2 post_step.
    eapply sat_post, load_event_sat; [done|]. post_step. eapply sat_post, store_event_sat. post_step.
    apply Hfin; [done|]. exact (ac_ok_append s1 q pend o1 o2 p (e_next None n) t m R1 Hn1 eq_refl El Hm).
  - destruct (ac_ok_first _ _ _ _ _ _ (e_next None n) R1 Hn1 eq_refl El) as [-> R2].
    do 2 post_step. unfold assert_c. rewrite bool_decide_true by exact (a_queue _ _ _ _ R1).
    do 5 post_step.
    unfold when at 1. destruct (negb _); [by apply post_exit; right; left|]. do 2 post_step.
    apply Hfin; [|exact R2]. eapply silent_trans; [exact Hs0|]. eexists. split_and!; [done|done..].
Qed.

Lemma clean_quit : clean_exit ErrQuit. Proof. by left. Qed.
Lemma clean_abort : clean_exit Aborted. Proof. by right; left. Qed.
Lemma clean_assert : clean_exit AssertFailed. Proof. by right; right. Qed.
#[export] Hint Resolve clean_quit clean_abort clean_assert : core.

Lemma getq_post env s tr q out :
  ac_ok s q [] out ->
  post (maf_event_getq env) (s, tr) (fun hd c' =>
    hd = head_ptr q /\ silent tr c'.2 /\ ac_ok c'.1 [] q out) clean_exit.
Proof.
  intros R. unfold maf_event_getq. eapply post_quiet; [apply quiet_checked; quiet_solve|done|].
  intros _ s1 tr1 K1 Hs1. apply (ac_ok_keeps _ _ _ _ _ K1) in R. clear K1.
  pose proof R as [Hq Ht Hp Ho Hnd Hdom Hpi]. pose proof (lseg_head _ _ _ _ _ Hq) as Hhd.
  do 2 post_step. do 2 post_step. unfold flush_pipe. do 3 post_step.
  destruct r; [by left|]. post_step.
  eapply post_quiet; [apply quiet_checked; quiet_solve|done|].
  intros _ s2 tr2 K2 Hs2. post_step. split; [done|]. split.
  - eapply silent_trans; [exact Hs1|]. eapply silent_trans; [|exact Hs2]. eexists. split_and!; [done|done..].
  - eapply ac_ok_keeps; [exact K2|]. constructor; simpl; try done.
    + by rewrite <- Hhd.
    + rewrite Hpi. by destruct q.
Qed.

(** Releasing the event that has been handled. *)
Lemma ac_ok_free s q p e pend out :
  ac_ok s q ((p, e) :: pend) out ->
  exists n, evs s !! p = Some n /\ core n = e /\ next n = head_ptr pend /\
    ac_ok (set_evs (delete p (evs s)) s) q pend out.
Proof.
  intros [Hq Ht Hp Ho Hnd Hdom Hpi]. destruct Hp as (n & _ & Hn & Hc & Hp).
  exists n. pose proof (lseg_head _ _ _ _ _ Hp) as Hhd. split_and!; [done..|].
  destruct (nodup_mid q [] [] (pend ++ out) p e Hnd) as (Hp1 & _ & _ & Hp2).
  rewrite fmap_app, elem_of_app in Hp2.
  assert (HP : q ++ (p, e) :: pend ++ out ≡ₚ (p, e) :: q ++ pend ++ out) by solve_Permutation.
  cbn [app] in Hnd, Hdom. pose proof Hnd as Hnd'. rewrite HP, fmap_cons in Hnd'. apply NoDup_cons in Hnd' as [Hpn Hnd'].
  constructor; simpl; try done.
  - by apply lseg_delete.
  - rewrite Hhd in Hp. apply lseg_delete; [tauto|done].
  - eapply held_ext; [|exact Ho]. intros r Hr. apply lookup_delete_ne. intros ->. tauto.
  - rewrite dom_delete_L, Hdom. apply leibniz_equiv. rewrite HP, fmap_cons. cbn [fst list_to_set] in *.
    intros x. rewrite elem_of_difference, elem_of_union, elem_of_singleton, !elem_of_list_to_set.
    split; [intros [[-> | ?] ?]; done|]. intros Hx. split; [by right|]. intros ->. done.
Qed.

(** ** What an operation adds to the history *)
Definition effect (tr tr' : list (event acE)) (ans com : list SaInvocationT) (giv : list ptr) : Prop :=
  exists d, tr' = tr ++ d /\ answers d = ans /\ completes d = com /\ given d = giv.

Lemma effect_silent tr tr' : silent tr tr' <-> effect tr tr' [] [] [].
Proof. done. Qed.
Lemma effect_trans t1 t2 t3 a1 c1 g1 a2 c2 g2 :
  effect t1 t2 a1 c1 g1 -> effect t2 t3 a2 c2 g2 -> effect t1 t3 (a1 ++ a2) (c1 ++ c2) (g1 ++ g2).
Proof.
  intros (d1 & -> & <- & <- & <-) (d2 & -> & <- & <- & <-). exists (d1 ++ d2). unfold answers, completes, given.
  by rewrite !bind_app, <- app_assoc.
Qed.

(** ** The failures the answers depend on

    The failed starts of the object implementer, and the failed attempts to set
    up a thread. *)
Definition imm_failure_of (x : event acE) : list () :=
  match x with
  | Ev e r => (match e in acE R return R -> list () with
               | service ObjImp_init_imm => fun r => if bool_decide (r = MafFailure) then [()] else []
               | _ => fun _ => []
               end) r
  end.
Definition thread_failure_of (x : event acE) : list () :=
  match x with
  | Ev e r => (match e in acE R return R -> list () with
               | pthread_attr_init | pthread_create_ntf => fun r => if r =? 0 then [] else [()]
               | _ => fun _ => []
               end) r
  end.
Definition imm_failures (tr : list (event acE)) : nat := length (tr ≫= imm_failure_of).
Definition thread_failures (tr : list (event acE)) : nat := length (tr ≫= thread_failure_of).

Lemma imm_failures_app t1 t2 : imm_failures (t1 ++ t2) = (imm_failures t1 + imm_failures t2)%nat.
Proof. unfold imm_failures. by rewrite bind_app, length_app. Qed.
Lemma thread_failures_app t1 t2 : thread_failures (t1 ++ t2) = (thread_failures t1 + thread_failures t2)%nat.
Proof. unfold thread_failures. by rewrite bind_app, length_app. Qed.
Lemma effect_failures tr tr' ans com giv : effect tr tr' ans com giv ->
  (imm_failures tr <= imm_failures tr' /\ thread_failures tr <= thread_failures tr')%nat.
Proof. intros (d & -> & _). rewrite imm_failures_app, thread_failures_app. lia. Qed.

Lemma answers_attempts inv err refused :
  Forall (fun x => is_try_again x = true) refused ->
  answers (attempts (saAmfResponse inv err) (sleep AMF_TRY_INTERVAL) refused SA_AIS_OK) = [inv] /\
  completes (attempts (saAmfResponse inv err) (sleep AMF_TRY_INTERVAL) refused SA_AIS_OK) = [] /\
  given (attempts (saAmfResponse inv err) (sleep AMF_TRY_INTERVAL) refused SA_AIS_OK) = [].
Proof.
  induction 1 as [|x l Hx _ IH]; [done|]. unfold is_try_again in Hx. apply bool_decide_eq_true in Hx as ->.
  exact IH.
Qed.

Lemma wrapper_post env inv err s tr :
  post (saAmfResponse_wrapper env inv err) (s, tr)
    (fun _ c' => c'.1 = s /\ effect tr c'.2 [inv] [] []) (fun w => w = ErrQuit).
Proof.
  unfold saAmfResponse_wrapper, SAF_API_CALL, amf_pause. post_step.
  eapply sat_post, sat_mono; [apply retry_sat|]. cbn beta. intros rc [s' tr']. cbn [fst snd].
  intros (-> & refused & -> & Hall & _ & _). unfold when. case_bool_decide as Hrc; [|done]. subst rc. cbn [negb].
  post_step. split; [done|]. eexists. split; [done|]. by apply answers_attempts.
Qed.

Lemma quiescing_post env inv err s tr :
  post (quiescing_complete env inv err) (s, tr)
    (fun _ c' => c'.1 = s /\ effect tr c'.2 [] [inv] []) (fun w => w = ErrQuit).
Proof.
  unfold quiescing_complete. do 2 post_step. unfold when. case_bool_decide as Hr; [|done]. cbn [negb].
  post_step. split; [done|]. eexists. split; [done|]. unfold answers, completes, given. cbn. unfold ok_inv.
  by rewrite bool_decide_true.
Qed.

(** ** Handling one answer of COM *)
Definition threads_ok (env : environment acE) : Prop :=
  forall tr, env _ tr pthread_attr_init = 0 /\ env _ tr pthread_create_ntf = 0.

Lemma outcome_of_post e s tr err : error e = Some err ->
  sat (outcome_of e) (s, tr) (fun r c' => c' = (s, tr) /\
    r = if bool_decide (err = MafOk) then SA_AIS_OK else SA_AIS_ERR_FAILED_OPERATION).
Proof. intros He. unfold outcome_of. rewrite He. sat_step. eapply sat_of_option; [done|]. by sat_step. Qed.

Lemma start_ntf_post env s tr :
  sat (start_ntf_thread env) (s, tr) (fun b c' => keeps s c'.1 /\ silent tr c'.2 /\
    (b = false -> (thread_failures tr < thread_failures c'.2)%nat /\ ~ threads_ok env)).
Proof.
  unfold start_ntf_thread. do 2 sat_step. case_bool_decide.
  - do 2 sat_step. destruct (r =? 0) eqn:Er; cbn [negb].
    + do 2 sat_step. destruct (r0 =? 0) eqn:Er0; cbn [negb].
      * do 3 sat_step. split; [done|]. split; [|done]. eexists. rewrite <- app_assoc. split_and!; [done|done..].
      * do 3 sat_step. split; [done|]. split; [eexists; rewrite <- ?app_assoc; split_and!; done|]. intros _.
        rewrite !thread_failures_app. split; [|intros Hth; subst r0; by rewrite (proj2 (Hth _)) in Er0].
        unfold thread_failures at 3. cbn. rewrite Er0. cbn. lia.
    + sat_step. split; [done|]. split; [eexists; split_and!; done|]. intros _.
      rewrite thread_failures_app. split; [|intros Hth; subst r; by rewrite (proj1 (Hth _)) in Er].
      unfold thread_failures at 3. cbn. rewrite Er. cbn. lia.
  - sat_step. split; [done|]. split; [apply silent_refl|done].
Qed.

Lemma quiet_handshake env : quiet (handshakeToComsaMimTool env).
Proof. unfold handshakeToComsaMimTool. quiet_solve. Qed.

Definition handled (s : Ac) (tr : list (event acE)) (e : maf_CoremwEvent) (c' : Ac * list (event acE)) : Prop :=
  keeps s c'.1 /\ effect tr c'.2 (owed_of e) (owedq_of e) [].

(** ... unless the notification thread could not be started: then what is owed
    for the event is lost. *)
Definition settled (env : environment acE) (tr tr' : list (event acE)) (e : maf_CoremwEvent) : Prop :=
  exists ans com lost lostq, effect tr tr' ans com [] /\
    owed_of e = ans ++ lost /\ owedq_of e = com ++ lostq /\
    (thread_failures tr + length (lost ++ lostq) <= thread_failures tr')%nat /\
    (threads_ok env -> lost = [] /\ lostq = []).

Lemma handled_settled env s tr e c' : handled s tr e c' -> keeps s c'.1 /\ settled env tr c'.2 e.
Proof.
  intros [K He]. split; [done|]. exists (owed_of e), (owedq_of e), [], []. rewrite !app_nil_r.
  split_and!; try done. pose proof (effect_failures _ _ _ _ _ He). cbn. lia.
Qed.

Lemma settled_owed env tr tr' e : threads_ok env -> settled env tr tr' e -> effect tr tr' (owed_of e) (owedq_of e) [].
Proof.
  intros Hth (ans & com & lost & lostq & He & -> & -> & _ & Hno). destruct (Hno Hth) as [-> ->]. by rewrite !app_nil_r.
Qed.

Lemma haMode_event_post env p s tr n :
  evs s !! p = Some n -> event_type n = EVENT_haModeAssumed -> wf_event n -> answered n ->
  post (maf_coremw_haModeAssumed_event env p) (s, tr) (fun _ c' => keeps s c'.1 /\ settled env tr c'.2 n) clean_exit.
Proof.
  intros Hn Hty Hwf Han. unfold wf_event, answered in *. rewrite Hty in *. destruct Han as [err Herr].
  unfold maf_coremw_haModeAssumed_event.
  post_step. eapply sat_post, load_event_sat; [done|]. post_step.
  eapply sat_post, sat_mono; [by apply outcome_of_post|]. intros resp c' [-> _]. post_step.
  assert (Hrest : forall s1 tr1, keeps s s1 -> silent tr tr1 ->
    post ((if flags n =? 1 then quiescing_complete env (saf_invokation n) resp
           else s ← get;
             when (negb (bool_decide (maf_new_com_ha_state s = MafMwSpiHaModeUnassigned))
                   && negb (bool_decide (cc_name s = "lm"%string))) (handshakeToComsaMimTool env) ;;
             saAmfResponse_wrapper env (saf_invokation n) resp) : A ()) (s1, tr1)
      (fun _ c' => keeps s c'.1 /\ settled env tr c'.2 n) clean_exit).
  { intros s1 tr1 K1 Hs1. eapply post_mono; [|intros a c' H; apply handled_settled; exact H|done].
    unfold handled, owed_of, owedq_of. rewrite Hty. destruct Hwf as [-> | ->]; cbn [Z.eqb].
    - post_step. post_step. eapply post_quiet; [apply (quiet_when keeps), quiet_handshake|done|].
      intros _ s2 tr2 K2 Hs2. eapply post_mono; [apply wrapper_post| |by intros w ->].
      intros _ [s3 tr3] [-> He]. split; [by etrans; [|exact K2]|].
      apply effect_silent in Hs1, Hs2. exact (effect_trans _ _ _ _ _ _ _ _ _ Hs1 (effect_trans _ _ _ _ _ _ _ _ _ Hs2 He)).
    - eapply post_mono; [apply quiescing_post| |by intros w ->].
      intros _ [s3 tr3] [-> He]. split; [done|]. apply effect_silent in Hs1. exact (effect_trans _ _ _ _ _ _ _ _ _ Hs1 He). }
  destruct (bool_decide (resp = SA_AIS_OK)).
  - do 2 post_step. eapply sat_post, sat_mono; [by apply start_ntf_post|].
    intros b [s1 tr1] (K & Hs & Hb). cbn [fst snd] in *. destruct b; cbn [when].
    { apply Hrest; [|done]. by etrans; [|exact K]. }
    destruct (Hb eq_refl) as [Hlt Hnot]. post_step. split; [exact K|].
    exists [], [], (owed_of n), (owedq_of n). split; [exact Hs|]. split_and!; [done..| |done].
    unfold owed_of, owedq_of. rewrite Hty, length_app. cbn [snd]. destruct Hwf as [-> | ->]; cbn; lia.
  - post_step. apply Hrest; [done|apply silent_refl].
Qed.

Lemma healthCheck_event_post env p s tr n :
  evs s !! p = Some n -> event_type n = EVENT_healthCheckReport -> wf_event n -> answered n ->
  post (maf_coremw_healthCheckReport_event env p) (s, tr) (fun _ => handled s tr n) clean_exit.
Proof.
  intros Hn Hty Hwf Han. unfold wf_event, answered in *. rewrite Hty in *. destruct Han as [[err Herr] [rec Hrec]].
  unfold maf_coremw_healthCheckReport_event, handled, owed_of, owedq_of. rewrite Hty.
  post_step. eapply sat_post, load_event_sat; [done|]. post_step.
  eapply sat_post, sat_mono; [by apply outcome_of_post|]. intros resp c' [-> _].
  destruct Hwf as [-> | ->]; cbn [Z.eqb].
  - eapply post_mono; [apply wrapper_post| |by intros w ->]. by intros _ [s3 tr3] [-> He].
  - rewrite Hrec. post_step. eapply sat_post, sat_of_option; [done|]. do 2 post_step. unfold when. destruct (bool_decide (r = SA_AIS_OK)); cbn [negb]; [|by apply post_exit].
    post_step. split; [done|]. eexists. by split_and!; [done|..].
Qed.

Lemma termination_event_post env p s tr n :
  evs s !! p = Some n -> event_type n = EVENT_prepareTerminationResponse -> wf_event n -> answered n ->
  post (maf_coremw_prepareTerminationResponse_event env p) (s, tr) (fun _ => handled s tr n) clean_exit.
Proof.
  intros Hn Hty Hwf Han. unfold wf_event, answered in *. rewrite Hty in *. destruct Han as [err Herr].
  unfold maf_coremw_prepareTerminationResponse_event, handled, owed_of, owedq_of. rewrite Hty, Hwf.
  post_step. eapply sat_post, load_event_sat; [done|]. post_step.
  eapply sat_post, sat_mono; [by apply outcome_of_post|]. intros resp c' [-> _]. post_step.
  eapply post_mono; [apply wrapper_post| |by intros w ->]. intros _ [s1 tr1]; cbn [fst snd]; intros [-> He].
  do 3 post_step. unfold assert_c. destruct (maf_acCallbacks s); [|by apply post_exit]. do 2 post_step.
  split; [done|]. refine (effect_trans _ _ _ _ _ _ [] [] [] He _). eexists. by split_and!; [done|..].
Qed.

Lemma wf_core e : wf_event (core e) = wf_event e.
Proof. done. Qed.
Lemma answered_core e : answered (core e) = answered e.
Proof. done. Qed.

(** One turn of the loop: the event is answered for, released, and the next one
    is the next of the list. *)
Lemma handle_event_post env p e pend q out s tr :
  ac_ok s q ((p, e) :: pend) out -> wf_event e -> answered e ->
  post (handle_event env p) (s, tr) (fun n c' =>
    n = head_ptr pend /\ ac_ok c'.1 q pend out /\ settled env tr c'.2 e) clean_exit.
Proof.
  intros R Hwf Han. destruct (ac_ok_free _ _ _ _ _ _ R) as (n & Hn & <- & Hnx & R').
  rewrite wf_core in Hwf. rewrite answered_core in Han. change (owed_of (core n)) with (owed_of n).
  change (owedq_of (core n)) with (owedq_of n).
  unfold handle_event. post_step. eapply sat_post, load_event_sat; [done|]. post_step.
  eapply (post_mono _ _ (fun _ c' => keeps s c'.1 /\ settled env tr c'.2 n)); [| |done].
  - destruct (event_type n) eqn:Hty.
    + unfold wf_event in Hwf. by rewrite Hty in Hwf.
    + post_step. apply (handled_settled env s tr n (set_stop true s, tr)). split; [done|]. unfold owed_of, owedq_of. rewrite Hty. apply silent_refl.
    + eapply post_mono; [by apply healthCheck_event_post|intros a c'; apply handled_settled|done].
    + by apply haMode_event_post.
    + eapply post_mono; [by apply termination_event_post|intros a c'; apply handled_settled|done].
  - intros _ [s1 tr1] [K He]. cbn [fst snd] in *. destruct K as (K1 & K2 & K3 & K4).
    post_step. eapply sat_post, load_event_sat; [by rewrite K1|]. unfold free_event.
    do 2 post_step. eapply sat_post, load_event_sat; [by rewrite K1|]. do 2 post_step.
    split; [done|]. split; [|done]. eapply ac_ok_keeps; [|exact R']. split_and!; cbn; [by rewrite K1|done..].
Qed.

(** ** Calls of COM *)
Definition com_done (s : Ac) (tr : list (event acE)) (q pend out : elist) (p : ptr) (e e' : maf_CoremwEvent)
    (c' : Ac * list (event acE)) : Prop :=
  silent tr c'.2 /\ ac_ok c'.1 (q ++ [(p, e')]) pend out /\
  wf_event e' /\ answered e' /\ owed_of e' = owed_of e /\ owedq_of e' = owedq_of e.

Lemma type_checked_post ty p s tr e : evs s !! p = Some e ->
  post (type_checked ty p) (s, tr) (fun _ c' => c' = (s, tr) /\ event_type e = ty) (fun w => w = ErrQuit).
Proof.
  intros He. unfold type_checked. post_step. eapply sat_post, load_event_sat; [done|].
  unfold when. case_bool_decide; cbn [negb]; [|by apply post_exit]. by post_step.
Qed.

(** The three call-backs of COM share their shape: check the type of the event,
    fill it in, queue it. *)
Lemma com_answer_post env ty p e q pend o1 o2 s tr (fill : maf_CoremwEvent -> maf_CoremwEvent) :
  ac_ok s q pend (o1 ++ (p, e) :: o2) -> wf_event e ->
  (forall x, event_type x = ty -> answered (fill x)) ->
  (forall x, core (fill x) = fill (core x) /\ event_type (fill x) = event_type x /\ flags (fill x) = flags x /\
             saf_invokation (fill x) = saf_invokation x) ->
  post (type_checked ty p ;; x ← load p; store p (fill x) ;; maf_event_add env p ;; mret MafOk) (s, tr)
    (fun rc c' => rc = MafOk /\ com_done s tr q pend (o1 ++ o2) p e (fill e) c') clean_exit.
Proof.
  intros R Hwf Hans Hfill. destruct (ac_ok_out _ _ _ _ _ _ _ R) as (n & Hn & <-). rewrite wf_core in Hwf.
  post_step. eapply post_mono; [by apply type_checked_post| |by intros w ->]. intros _ c' [-> Hty].
  post_step. eapply sat_post, load_event_sat; [done|]. post_step. eapply sat_post, store_event_sat.
  pose proof (ac_ok_write _ _ _ _ _ _ _ _ (fill n) R Hn) as R1.
  destruct (Hfill n) as (Hc & Ht & Hf & Hi). rewrite Hc in R1.
  post_step. eapply post_mono; [by eapply event_add_post| |done].
  intros _ c' [Hs R2]. post_step. split; [done|]. split; [by apply Hs|]. split; [exact R2|].
  rewrite <- Hc, wf_core, answered_core. unfold wf_event, owed_of, owedq_of in *. cbn. rewrite Ht, Hf, Hi.
  split; [done|]. split; [by apply Hans|done].
Qed.

Lemma healthCheckReport_post env p e q pend o1 o2 s tr rc rec :
  ac_ok s q pend (o1 ++ (p, e) :: o2) -> wf_event e ->
  post (maf_coremw_healthCheckReport env (Some p) rc rec) (s, tr)
    (fun r c' => r = MafOk /\ com_done s tr q pend (o1 ++ o2) p e (e_recovery rec (e_error rc e)) c') clean_exit.
Proof.
  intros R Hwf. unfold maf_coremw_healthCheckReport. do 2 post_step.
  apply (com_answer_post env EVENT_healthCheckReport p e q pend o1 o2 s tr (fun x => e_recovery rec (e_error rc x))); [done..| |done].
  intros x Hx. unfold answered. cbn. rewrite Hx. by split; eexists.
Qed.

Lemma haModeAssumed_post env p e q pend o1 o2 s tr rc :
  ac_ok s q pend (o1 ++ (p, e) :: o2) -> wf_event e ->
  post (maf_coremw_haModeAssumed env p rc) (s, tr)
    (fun r c' => r = MafOk /\ com_done s tr q pend (o1 ++ o2) p e (e_error rc e) c') clean_exit.
Proof.
  intros R Hwf. apply (com_answer_post env EVENT_haModeAssumed p e q pend o1 o2 s tr (fun x => e_error rc x)); [done..| |done].
  intros x Hx. unfold answered. cbn. rewrite Hx. by eexists.
Qed.

Lemma terminationResponse_post env p e q pend o1 o2 s tr rc :
  ac_ok s q pend (o1 ++ (p, e) :: o2) -> wf_event e ->
  post (maf_coremw_prepareTerminationResponse env p rc) (s, tr)
    (fun r c' => r = MafOk /\ com_done s tr q pend (o1 ++ o2) p e (e_error rc e) c') clean_exit.
Proof.
  intros R Hwf. apply (com_answer_post env EVENT_prepareTerminationResponse p e q pend o1 o2 s tr (fun x => e_error rc x)); [done..| |done].
  intros x Hx. unfold answered. cbn. rewrite Hx. by eexists.
Qed.

(** A report on COM's own initiative: a new event, queued at once, that owes no
    answer. *)
Lemma spontaneous_report_post env q pend out s tr rc rec :
  ac_ok s q pend out ->
  post (maf_coremw_healthCheckReport env None rc rec) (s, tr)
    (fun r c' => r = MafOk /\ exists p e', silent tr c'.2 /\ ac_ok c'.1 (q ++ [(p, e')]) pend out /\
       wf_event e' /\ answered e' /\ owed_of e' = [] /\ owedq_of e' = []) clean_exit.
Proof.
  intros R. unfold maf_coremw_healthCheckReport. post_step.
  eapply sat_post, sat_mono; [by apply new_event_sat|]. intros p c' (-> & _ & R'). cbn [fst] in R'.
  eapply post_mono; [apply (com_answer_post env EVENT_healthCheckReport p _ q pend [] out _ tr (fun x => e_recovery rec (e_error rc x)) R')| |done].
  - by right.
  - intros x Hx. unfold answered. cbn. rewrite Hx. by split; eexists.
  - done.
  - intros r c' (-> & Hs & R2 & Hw & Ha & Ho & Hoq). split; [done|]. eauto 10.
Qed.

Lemma stop_request_post env q pend out s tr :
  ac_ok s q pend out ->
  post (stop_request env) (s, tr)
    (fun _ c' => exists p e', silent tr c'.2 /\ ac_ok c'.1 (q ++ [(p, e')]) pend out /\
       wf_event e' /\ answered e' /\ owed_of e' = [] /\ owedq_of e' = []) clean_exit.
Proof.
  intros R. unfold stop_request. post_step.
  eapply sat_post, sat_mono; [by apply new_event_sat|]. intros p c' (-> & _ & R'). cbn [fst] in R'.
  eapply post_mono; [apply (event_add_post env _ tr q pend [] out p _ R')| |done].
  intros _ c' [Hs R2]. exists p, (blank EVENT_Terminate 0 0). by split_and!.
Qed.

(** ** Calls of the AMF *)
Definition imm_ok (env : environment acE) : Prop := forall tr, env _ tr (service ObjImp_init_imm) <> MafFailure.

Definition invocation_of (u : upcall) : SaInvocationT :=
  match u with CSISet inv _ _ | CSIRemove inv | Healthcheck inv | ComponentTerminate inv => inv end.
Definition quiescing_of (u : upcall) : list SaInvocationT :=
  match u with CSISet inv SA_AMF_HA_QUIESCING _ => [inv] | _ => [] end.

(** An up-call is either answered, or turned into an event that owes the answer
    and whose address COM is given; after a failed start of the object
    implementer it is turned into two events ([twice]). *)
Definition upcall_done (tr : list (event acE)) (q pend out : elist) (inv : SaInvocationT) (quiesce : list SaInvocationT)
    (c' : Ac * list (event acE)) : Prop :=
  exists new ans com, ac_ok c'.1 q pend (new ++ out) /\ effect tr c'.2 ans com new.*1 /\
    Forall (fun x => wf_event x.2) new /\ [inv] ≡ₚ ans ++ owed new /\ quiesce ≡ₚ com ++ owedq new.
Definition upcall_settled (tr : list (event acE)) (q pend out : elist) (inv : SaInvocationT) (quiesce : list SaInvocationT)
    (c' : Ac * list (event acE)) : Prop :=
  exists new ans com twice, ac_ok c'.1 q pend (new ++ out) /\ effect tr c'.2 ans com new.*1 /\
    Forall (fun x => wf_event x.2) new /\ inv :: twice ≡ₚ ans ++ owed new /\ quiesce ≡ₚ com ++ owedq new /\
    (twice = [] \/ twice = [inv] /\ imm_failures tr < imm_failures c'.2)%nat.

Lemma upcall_done_settled tr q pend out inv quiesce c' :
  upcall_done tr q pend out inv quiesce c' -> upcall_settled tr q pend out inv quiesce c'.
Proof. intros (new & ans & com & ?). exists new, ans, com, []. naive_solver. Qed.

(** Where the up-call for the active role may end: the failure branch calls COM
    through [maf_acCallbacks], which is null when COM is not attached. *)
Definition unattached (u : upcall) (s : Ac) (w : exit_reason) : Prop :=
  w = BadPointer /\ maf_acCallbacks s = false /\
  match u with CSISet _ SA_AMF_HA_ACTIVE _ => True | _ => False end.

Lemma quiet_open_com_logs env : quiet (open_com_logs env).
Proof. unfold open_com_logs. quiet_solve. Qed.

Lemma new_event_out env ty inv fl (give : ptr -> acE ()) s tr q pend out :
  ac_ok s q pend out ->
  (forall p, answer_of (Ev (give p) ()) = [] /\ complete_of (Ev (give p) ()) = [] /\ given_of (Ev (give p) ()) = [p]) ->
  post (p ← maf_new_event ty inv fl; call env (give p)) (s, tr) (fun _ c' => exists p,
    ac_ok c'.1 q pend ((p, blank ty inv fl) :: out) /\ effect tr c'.2 [] [] [p]) clean_exit.
Proof.
  intros R Hg. post_step. eapply sat_post, sat_mono; [by apply new_event_sat|]. intros p c' (-> & _ & R'). cbn [fst] in R'.
  apply sat_post, sat_call. intros [] _. cbn [fst snd]. destruct (Hg p) as (H1 & H2 & H3).
  exists p. split; [exact R'|]. eexists. split; [done|]. unfold answers, completes, given. cbn [mbind list_bind app].
  by rewrite H1, H2, H3.
Qed.

Lemma csi_active_post env inv transition s tr q pend out :
  ac_ok s q pend out ->
  post (csi_active env inv transition) (s, tr) (fun _ c' =>
    (ac_ok c'.1 q pend out /\ silent tr c'.2) \/
    (exists p, ac_ok c'.1 q pend ((p, blank EVENT_prepareTerminationResponse inv 0) :: out) /\
       effect tr c'.2 [] [] [p] /\ (imm_failures tr < imm_failures c'.2)%nat))
    (fun w => clean_exit w \/ w = BadPointer /\ maf_acCallbacks s = false).
Proof.
  intros R. unfold csi_active. do 2 post_step.
  eapply post_quiet; [quiet_solve|by left|]. intros _ s1 tr1 K1 Hs1. do 2 post_step.
  apply (ac_ok_keeps _ _ _ _ _ K1) in R.
  assert (R1 : ac_ok (set_new_ha MafMwSpiHaModeActive s1) q pend out) by (by eapply ac_ok_keeps; [|exact R]).
  do 2 post_step. clear H. set (tr2 := tr1 ++ _).
  assert (Hs2 : silent tr tr2) by (eapply silent_trans; [exact Hs1|eexists; by split_and!]).
  assert (Hopen : forall s3 tr3, post (when (negb (bool_decide (cc_name s = "lm"%string))) (open_com_logs env) ;;
      mret match transition with
           | SA_AMF_CSI_NEW_ASSIGN => MafMwSpiHaReasonInit
           | SA_AMF_CSI_NOT_QUIESCED => MafMwSpiHaReasonFail
           | _ => MafMwSpiHaReasonSwitchover
           end) (s3, tr3) (fun _ c' => keeps s3 c'.1 /\ silent tr3 c'.2) clean_exit).
  { intros s3 tr3. eapply post_quiet; [apply (quiet_when keeps), quiet_open_com_logs|done|].
    intros _ s4 tr4 K4 Hs4. by post_step. }
  post_step. destruct (bool_decide (r = MafFailure)) eqn:Hf; cbn [when].
  - apply bool_decide_eq_true in Hf. subst r.
    post_step. destruct (maf_acCallbacks s) eqn:Hcb; cbn [of_option]; post_step; [|by right].
    eapply post_mono; [by apply (new_event_out env _ inv 0 prepareTermination)| |by left].
    intros _ [s3 tr3] (p & R3 & He). cbn [fst snd] in *. eapply post_mono; [apply Hopen| |by left].
    intros _ [s4 tr4] [K4 Hs4]. cbn [fst snd] in *. right. exists p. split; [by eapply ac_ok_keeps|].
    apply effect_silent in Hs2, Hs4.
    split; [exact (effect_trans _ _ _ _ _ _ _ _ _ Hs2 (effect_trans _ _ _ _ _ _ _ _ _ He Hs4))|].
    destruct (effect_failures _ _ _ _ _ Hs1) as [H1 _], (effect_failures _ _ _ _ _ He) as [H2 _],
      (effect_failures _ _ _ _ _ Hs4) as [H3 _].
    assert (imm_failures tr2 = S (imm_failures tr1)); [|lia].
    subst tr2. rewrite imm_failures_app. unfold imm_failures at 2. cbn. rewrite bool_decide_true by done. cbn. lia.
  - post_step. eapply post_mono; [apply Hopen| |by left].
    intros _ [s4 tr4] [K4 Hs4]. left. split; [by eapply ac_ok_keeps|]. by eapply silent_trans.
Qed.

Lemma csi_case_quiet env inv ha transition : ha <> SA_AMF_HA_ACTIVE ->
  quiet (match ha with
         | SA_AMF_HA_ACTIVE => csi_active env inv transition
         | SA_AMF_HA_STANDBY => csi_standby env
         | SA_AMF_HA_QUIESCED => csi_quiesced env
         | SA_AMF_HA_QUIESCING => csi_quiescing env
         | SA_AMF_HA_other _ => exit AssertFailed
         end).
Proof.
  intros Hne. destruct ha; [done|..].
  - unfold csi_standby, removeSecretAttrFile. quiet_solve.
  - unfold csi_quiesced, removeSecretAttrFile. quiet_solve.
  - unfold csi_quiescing, removeSecretAttrFile. quiet_solve.
  - by apply (quiet_exit keeps).
Qed.

(** A new event, handed to COM. *)
Lemma hand_over_post env ty inv fl (give : ptr -> acE ()) s tr0 tr q pend out :
  ac_ok s q pend out -> wf_event (blank ty inv fl) ->
  (forall p, answer_of (Ev (give p) ()) = [] /\ complete_of (Ev (give p) ()) = [] /\ given_of (Ev (give p) ()) = [p]) ->
  forall ans com inv0 qs, effect tr0 tr ans com [] ->
  [inv0] ≡ₚ ans ++ owed_of (blank ty inv fl) -> qs ≡ₚ com ++ owedq_of (blank ty inv fl) ->
  post (p ← maf_new_event ty inv fl; call env (give p)) (s, tr)
    (fun _ => upcall_done tr0 q pend out inv0 qs) clean_exit.
Proof.
  intros R Hwf Hg ans com inv0 qs He Hi Hq. post_step.
  eapply sat_post, sat_mono; [by apply new_event_sat|]. intros p c' (-> & _ & R'). cbn [fst] in R'.
  apply sat_post, sat_call. intros [] Hr. cbn [fst snd]. destruct (Hg p) as (H1 & H2 & H3).
  exists [(p, blank ty inv fl)], ans, com. split; [exact R'|]. split; [|split; [by repeat constructor|]].
  - rewrite <- (app_nil_r ans), <- (app_nil_r com). refine (effect_trans _ _ _ _ _ _ [] [] [p] He _).
    eexists. split; [done|]. unfold answers, completes, given. cbn [mbind list_bind app]. by rewrite H1, H2, H3.
  - unfold owed, owedq. cbn [mbind list_bind snd]. by rewrite !app_nil_r.
Qed.

Lemma csi_forward_post env inv ha reason s tr0 tr q pend out :
  ac_ok s q pend out -> silent tr0 tr ->
  post (csi_forward env inv ha reason) (s, tr)
    (fun _ => upcall_done tr0 q pend out inv (if bool_decide (ha = SA_AMF_HA_QUIESCING) then [inv] else [])) clean_exit.
Proof.
  intros R Hs. apply effect_silent in Hs. unfold csi_forward. do 2 post_step.
  assert (Hans : forall ans com qs tr', effect tr0 tr' ans com [] -> [inv] ≡ₚ ans -> qs ≡ₚ com ->
            upcall_done tr0 q pend out inv qs (s, tr')).
  { intros ans com qs tr' He H1 H2. exists [], ans, com. cbn. rewrite !app_nil_r. by split_and!. }
  destruct (negb (maf_acCallbacks s) || bool_decide (maf_com_ha_state s = maf_new_com_ha_state s)).
  - post_step. eapply post_mono; [apply wrapper_post| |by intros w ->].
    intros _ [s1 tr1]; cbn [fst snd]; intros [-> He]. pose proof (effect_trans _ _ _ _ _ _ _ _ _ Hs He) as He1.
    unfold when. case_bool_decide.
    + eapply post_mono; [apply quiescing_post| |by intros w ->].
      intros _ [s2 tr2]; cbn [fst snd]; intros [-> He2]. pose proof (effect_trans _ _ _ _ _ _ _ _ _ He1 He2) as He3.
      by eapply Hans; [exact He3|..].
    + post_step. by eapply Hans; [exact He1|..].
  - case_bool_decide.
    + post_step. post_step. eapply post_mono; [apply wrapper_post| |by intros w ->].
      intros _ [s1 tr1]; cbn [fst snd]; intros [-> He]. pose proof (effect_trans _ _ _ _ _ _ _ _ _ Hs He) as He1.
      pose proof (hand_over_post env EVENT_haModeAssumed inv 1 (fun p => setHaMode p (maf_new_com_ha_state s) reason)
        s tr0 tr1 q pend out R ltac:(by right) ltac:(done) _ _ inv [inv] He1 ltac:(done) ltac:(done)) as HH.
      unfold post, mbind, M_bind in HH. unfold post. destruct (maf_new_event _ _ _ _) as [[p|w] c']; exact HH.
    + pose proof (hand_over_post env EVENT_haModeAssumed inv 0 (fun p => setHaMode p (maf_new_com_ha_state s) reason)
        s tr0 tr q pend out R ltac:(by left) ltac:(done) _ _ inv [] Hs ltac:(done) ltac:(done)) as HH. exact HH.
Qed.

Lemma upcall_settled_after tr tr1 p e q pend out inv quiesce c' :
  upcall_done tr1 q pend ((p, e) :: out) inv quiesce c' -> effect tr tr1 [] [] [p] ->
  wf_event e -> owed_of e = [inv] -> owedq_of e = [] -> (imm_failures tr < imm_failures tr1)%nat ->
  upcall_settled tr q pend out inv quiesce c'.
Proof.
  intros (new & ans & com & R & He & Hwf & Hi & Hq) He1 Hw Ho Hoq Hf.
  exists ((p, e) :: new), ans, com, [inv]. split; [eapply ac_ok_perm; [|exact R]; solve_Permutation|].
  split; [exact (effect_trans _ _ _ _ _ _ _ _ _ He1 He)|]. split; [by constructor|].
  unfold owed, owedq in *. cbn [mbind list_bind snd]. rewrite Ho, Hoq. split_and!; [|done|].
  - cbn [app]. rewrite <- Permutation_middle. by rewrite <- Hi.
  - right. split; [done|]. destruct (effect_failures _ _ _ _ _ He) as [? _]. lia.
Qed.

Lemma csi_set_post env inv ha transition s tr q pend out :
  ac_ok s q pend out ->
  post (maf_amf_csi_set_callback env inv ha transition) (s, tr)
    (fun _ => upcall_settled tr q pend out inv (if bool_decide (ha = SA_AMF_HA_QUIESCING) then [inv] else []))
    (fun w => clean_exit w \/ unattached (CSISet inv ha transition) s w).
Proof.
  intros R. unfold maf_amf_csi_set_callback. post_step. destruct (decide (ha = SA_AMF_HA_ACTIVE)) as [E|Hne]; [subst ha|].
  - eapply post_mono; [by apply csi_active_post| |].
    2: { intros w [Hw|[-> Hcb]]; [by left|]. right. by split. }
    intros reason [s1 tr1]; cbn [fst snd]. intros [[R1 Hs]|(p & R1 & He & Hf)].
    + eapply post_mono; [by apply csi_forward_post|intros ? ?; apply upcall_done_settled|by left].
    + eapply post_mono; [apply csi_forward_post; [exact R1|apply silent_refl]| |by left].
      intros ? ? Hd. by eapply upcall_settled_after; [exact Hd|exact He|..].
  - eapply post_mono; [by apply (csi_case_quiet env inv ha transition)| |by left].
    intros reason [s1 tr1] [K Hs]. eapply post_mono; [by apply csi_forward_post; [eapply ac_ok_keeps|]| |by left].
    intros ? ?. apply upcall_done_settled.
Qed.

Lemma answer_at_once_post env inv s tr q pend out :
  ac_ok s q pend out ->
  post (saAmfResponse_wrapper env inv SA_AIS_OK) (s, tr) (fun _ => upcall_done tr q pend out inv []) clean_exit.
Proof.
  intros R. eapply post_mono; [apply wrapper_post| |by intros w ->].
  intros _ [s1 tr1]; cbn [fst snd]; intros [-> He]. exists [], [inv], []. by split_and!.
Qed.

Lemma upcall_post env u s tr q pend out :
  ac_ok s q pend out ->
  post (run_upcall env u) (s, tr) (fun _ => upcall_settled tr q pend out (invocation_of u) (quiescing_of u))
    (fun w => clean_exit w \/ unattached u s w).
Proof.
  intros R. destruct u as [inv ha t|inv|inv|inv]; cbn [run_upcall invocation_of quiescing_of].
  1: { eapply post_mono; [by apply csi_set_post| |done]. intros a c'. by destruct ha. }
  1: { unfold maf_amf_csi_remove_callback. do 2 post_step. case_bool_decide.
       - eapply post_mono; [by apply answer_at_once_post|intros a c'; apply upcall_done_settled|by left].
       - eapply post_mono; [by apply (csi_set_post env inv SA_AMF_HA_QUIESCED SA_AMF_CSI_zero)|done|].
         intros w [Hw|(_ & _ & [])]. by left. }
  all: eapply post_mono; [|intros a c'; apply upcall_done_settled|intros w Hw; left; exact Hw].
  - unfold maf_amf_healthcheck_callback. do 2 post_step. destruct (negb _); [by apply answer_at_once_post|].
    eapply (hand_over_post env EVENT_healthCheckReport inv 0 healthCheck); try done; [by left|apply effect_silent, silent_refl|done..].
  - unfold maf_amf_comp_terminate_callback. do 2 post_step. destruct (negb _).
    + post_step. eapply post_mono; [apply wrapper_post| |by intros w ->]. intros _ c' _. by apply post_exit.
    + eapply (hand_over_post env EVENT_prepareTerminationResponse inv 0 prepareTermination); try done; [apply effect_silent, silent_refl|done..].
Qed.

(** ** Emptying the queue *)
Lemma ac_length s q pend out : ac_ok s q pend out -> (length q + length pend <= size (evs s))%nat.
Proof.
  intros R. rewrite <- size_dom, (a_dom _ _ _ _ R), size_list_to_set by apply (a_nodup _ _ _ _ R).
  rewrite length_fmap, !length_app. lia.
Qed.

Lemma handle_list_post env fuel pend q out s tr :
  threads_ok env -> ac_ok s q pend out -> Forall (fun x => wf_event x.2 /\ answered x.2) pend ->
  (length pend <= fuel)%nat ->
  post (handle_list env fuel (head_ptr pend)) (s, tr) (fun _ c' =>
    ac_ok c'.1 q [] out /\ effect tr c'.2 (owed pend) (owedq pend) []) clean_exit.
Proof.
  intros Hth. revert pend s tr. induction fuel as [|fuel IH]; intros [|[p e] pend] s tr R Hall Hf;
    cbn [handle_list head_ptr]; try (simpl in Hf; lia); try (post_step; split; [done|apply silent_refl]).
  apply Forall_cons in Hall as [[Hwf Han] Hall]. post_step.
  eapply post_mono; [by apply handle_event_post| |done].
  intros n [s1 tr1]; cbn [fst snd]; intros (-> & R1 & He%settled_owed); [|done].
  eapply post_mono; [apply IH; [done..|simpl in Hf; lia]| |done].
  intros _ [s2 tr2]; cbn [fst snd]; intros (R2 & He2). split; [done|].
  exact (effect_trans _ _ _ _ _ _ _ _ _ He He2).
Qed.

Lemma handle_events_post env q out s tr :
  threads_ok env -> ac_ok s q [] out -> Forall (fun x => wf_event x.2 /\ answered x.2) q ->
  post (maf_handle_events env) (s, tr) (fun _ c' =>
    ac_ok c'.1 [] [] out /\ effect tr c'.2 (owed q) (owedq q) []) clean_exit.
Proof.
  intros Hth R Hall. unfold maf_handle_events. post_step.
  eapply post_mono; [by apply getq_post| |done]. intros hd [s1 tr1]; cbn [fst snd]; intros (-> & Hs & R1).
  do 2 post_step. eapply post_mono; [apply handle_list_post; [done..|]| |done].
  - pose proof (ac_length _ _ _ _ R1). simpl in *. lia.
  - intros _ [s2 tr2]; cbn [fst snd]; intros (R2 & He). split; [done|]. apply effect_silent in Hs.
    exact (effect_trans _ _ _ _ _ _ _ _ _ Hs He).
Qed.
