(* ===== verification/AcSystem.v ===== *)
(** * Availability controller: the interleaved system

    The AMF thread and the threads of COM as a step relation.  The queue is
    protected by a mutex, so that a call of COM and the taking of the queue are
    single steps; between two turns of the loop of [maf_handle_events] COM may
    run.  [recv] and [recvq] record what the AMF has asked, [com] the events COM
    has been given and has not answered. *)
From Stdlib Require Import ZArith Lia.
From stdpp Require Import base gmap list strings.
From S2P Require Import Prelude Codes AvailController AcFacts.

Open Scope Z_scope.

Record sys := Sys {
  ac : Ac;
  hist : list (event acE);
  handling : option ptr;              (** the next event of the list taken from the queue *)
  com : list ptr;
  recv : list SaInvocationT;
  recvq : list SaInvocationT          (** the quiescing requests among them *)
}.

Section step.
Context (env : environment acE).

Inductive step : sys -> sys -> Prop :=
| step_upcall u a h cm rv rq a' h' :
    run_upcall env u (a, h) = (Ret (), (a', h')) ->
    step (Sys a h None cm rv rq)
         (Sys a' h' None (given (drop (length h) h') ++ cm) (invocation_of u :: rv) (quiescing_of u ++ rq))
| step_report p rc rec a h hd c1 c2 rv rq r a' h' :
    maf_coremw_healthCheckReport env (Some p) rc rec (a, h) = (Ret r, (a', h')) ->
    step (Sys a h hd (c1 ++ p :: c2) rv rq) (Sys a' h' hd (c1 ++ c2) rv rq)
| step_ha_mode p rc a h hd c1 c2 rv rq r a' h' :
    maf_coremw_haModeAssumed env p rc (a, h) = (Ret r, (a', h')) ->
    step (Sys a h hd (c1 ++ p :: c2) rv rq) (Sys a' h' hd (c1 ++ c2) rv rq)
| step_termination p rc a h hd c1 c2 rv rq r a' h' :
    maf_coremw_prepareTerminationResponse env p rc (a, h) = (Ret r, (a', h')) ->
    step (Sys a h hd (c1 ++ p :: c2) rv rq) (Sys a' h' hd (c1 ++ c2) rv rq)
| step_spontaneous rc rec a h hd cm rv rq r a' h' :
    maf_coremw_healthCheckReport env None rc rec (a, h) = (Ret r, (a', h')) ->
    step (Sys a h hd cm rv rq) (Sys a' h' hd cm rv rq)
| step_stop a h hd cm rv rq a' h' :
    stop_request env (a, h) = (Ret (), (a', h')) ->
    step (Sys a h hd cm rv rq) (Sys a' h' hd cm rv rq)
| step_getq a h cm rv rq hd a' h' :
    maf_event_getq env (a, h) = (Ret hd, (a', h')) ->
    step (Sys a h None cm rv rq) (Sys a' h' hd cm rv rq)
| step_handle p a h cm rv rq n a' h' :
    handle_event env p (a, h) = (Ret n, (a', h')) ->
    step (Sys a h (Some p) cm rv rq) (Sys a' h' n cm rv rq)
| step_init cb a h cm rv rq r a' h' :
    maf_coremw_acInitialize env cb (a, h) = (Ret r, (a', h')) ->
    step (Sys a h None cm rv rq) (Sys a' h' None cm rv rq)
| step_stopped a h cm rv rq :
    stop_thread a = true ->
    step (Sys a h None cm rv rq) (Sys (set_cb false (set_amf_running false a)) h None cm rv rq).

Definition reachable (s s' : sys) : Prop := rtc step s s'.
End step.

(** The component before its thread is started. *)
Definition initial (cc : string) : sys :=
  Sys (MkAc ∅ None None 0 false false false false MafMwSpiHaModeUnassigned MafMwSpiHaModeUnassigned 0 true cc)
    [] None [] [] [].

(** ** The invariant

    [twice] are the requests that were turned into two events, [lost] and
    [lostq] those whose event ended without the answer. *)
Definition inv_at (S : sys) (q pend out : elist) : Prop :=
  ac_ok (ac S) q pend out /\ handling S = head_ptr pend /\ com S = out.*1 /\
  Forall (fun x => wf_event x.2) (q ++ pend ++ out) /\ Forall (fun x => answered x.2) (q ++ pend) /\
  exists twice lost lostq,
  twice ++ recv S ≡ₚ answers (hist S) ++ owed (q ++ pend ++ out) ++ lost /\
  recvq S ≡ₚ completes (hist S) ++ owedq (q ++ pend ++ out) ++ lostq /\
  twice ⊆+ recv S /\ (length twice <= imm_failures (hist S))%nat /\
  (length (lost ++ lostq) <= thread_failures (hist S))%nat.
Definition inv (S : sys) : Prop := exists q pend out, inv_at S q pend out.

Lemma inv_initial cc : inv (initial cc).
Proof.
  exists [], [], []. split; [constructor; try done; constructor|]. split_and!; try done. exists [], [], []. by split_and!.
Qed.

Lemma answers_app t1 t2 : answers (t1 ++ t2) = answers t1 ++ answers t2.
Proof. apply bind_app. Qed.
Lemma completes_app t1 t2 : completes (t1 ++ t2) = completes t1 ++ completes t2.
Proof. apply bind_app. Qed.
Lemma owed_app l1 l2 : owed (l1 ++ l2) = owed l1 ++ owed l2.
Proof. apply bind_app. Qed.
Lemma owedq_app l1 l2 : owedq (l1 ++ l2) = owedq l1 ++ owedq l2.
Proof. apply bind_app. Qed.

(** Reading a result off a run. *)
Lemma post_run {T} (m : A T) c a c' Q X : post m c Q X -> m c = (Ret a, c') -> Q a c'.
Proof. unfold post. intros H Hm. by rewrite Hm in H. Qed.

(** A step that adds nothing to the ledger, whose events owe the same. *)
Lemma inv_silent S a' h' hd cm q pend out q' pend' out' :
  inv_at S q pend out -> silent (hist S) h' -> ac_ok a' q' pend' out' -> hd = head_ptr pend' -> cm = out'.*1 ->
  Forall (fun x => wf_event x.2) (q' ++ pend' ++ out') -> Forall (fun x => answered x.2) (q' ++ pend') ->
  owed (q' ++ pend' ++ out') ≡ₚ owed (q ++ pend ++ out) -> owedq (q' ++ pend' ++ out') ≡ₚ owedq (q ++ pend ++ out) ->
  inv (Sys a' h' hd cm (recv S) (recvq S)).
Proof.
  intros (_ & _ & _ & _ & _ & twice & lost & lostq & Hr & Hrq & Hsub & Hi & Ht) Hs R Hh Hc Hwf Hans Ho Hoq.
  destruct (effect_failures _ _ _ _ _ Hs) as [Hf1 Hf2]. destruct Hs as (d & -> & A1 & C1 & _).
  exists q', pend', out'. split_and!; try done. exists twice, lost, lostq. cbn [ac hist handling com recv recvq fst snd] in *.
  rewrite answers_app, completes_app, A1, C1, !app_nil_r, Ho, Hoq. split_and!; try done; lia.
Qed.

Lemma inv_move S a' h' q pend o1 o2 p e e' :
  inv_at S q pend (o1 ++ (p, e) :: o2) -> com_done (ac S) (hist S) q pend (o1 ++ o2) p e e' (a', h') ->
  inv (Sys a' h' (handling S) (o1 ++ o2).*1 (recv S) (recvq S)).
Proof.
  intros Hinv (Hs & R' & Hw & Ha & Ho & Hoq). eapply inv_silent; [exact Hinv|exact Hs|exact R'|..]; try done.
  all: destruct Hinv as (_ & Hh & _ & Hwf & Hans & _); try done.
  all: assert (HP : q ++ pend ++ o1 ++ (p, e) :: o2 ≡ₚ (p, e) :: q ++ pend ++ o1 ++ o2) by solve_Permutation.
  all: assert (HP' : (q ++ [(p, e')]) ++ pend ++ o1 ++ o2 ≡ₚ (p, e') :: q ++ pend ++ o1 ++ o2) by solve_Permutation.
  - rewrite HP in Hwf. apply Forall_cons in Hwf as [_ Hwf]. rewrite HP'. by constructor.
  - rewrite !Forall_app in *. destruct Hans. repeat split; try done. by constructor.
  - unfold owed. rewrite HP, HP'. cbn [mbind list_bind snd]. by rewrite Ho.
  - unfold owedq. rewrite HP, HP'. cbn [mbind list_bind snd]. by rewrite Hoq.
Qed.

Lemma inv_enqueue S a' h' q pend out p e :
  inv_at S q pend out -> silent (hist S) h' -> ac_ok a' (q ++ [(p, e)]) pend out -> wf_event e -> answered e ->
  owed_of e = [] -> owedq_of e = [] -> inv (Sys a' h' (handling S) (com S) (recv S) (recvq S)).
Proof.
  intros Hinv Hs R Hw Ha Ho Hoq. eapply inv_silent; [exact Hinv|exact Hs|exact R|..]; try done.
  all: destruct Hinv as (_ & Hh & Hc & Hwf & Hans & _); try done.
  all: assert (HP' : (q ++ [(p, e)]) ++ pend ++ out ≡ₚ (p, e) :: q ++ pend ++ out) by solve_Permutation.
  - rewrite HP'. by constructor.
  - rewrite !Forall_app in *. destruct Hans. repeat split; try done. by constructor.
  - unfold owed. rewrite HP'. cbn [mbind list_bind snd]. by rewrite Ho.
  - unfold owedq. rewrite HP'. cbn [mbind list_bind snd]. by rewrite Hoq.
Qed.

Lemma out_split (out : elist) c1 p c2 : out.*1 = c1 ++ p :: c2 -> exists o1 e o2, out = o1 ++ (p, e) :: o2 /\ c1 = o1.*1 /\ c2 = o2.*1.
Proof.
  intros H. apply fmap_app_inv in H as (o1 & l & -> & H2 & ->). symmetry in H2.
  destruct l as [|[p' e] o2]; simplify_eq/=. eauto 10.
Qed.

Section preserve.
Context (env : environment acE).

Lemma inv_upcall u S a' h' :
  inv S -> handling S = None -> run_upcall env u (ac S, hist S) = (Ret (), (a', h')) ->
  inv (Sys a' h' None (given (drop (length (hist S)) h') ++ com S) (invocation_of u :: recv S) (quiescing_of u ++ recvq S)).
Proof using.
  intros (q & pend & out & R & Hh & Hc & Hwf & Hans & twice & lost & lostq & Hr & Hrq & Hsub & Hif & Htf) Hnone Hrun.
  destruct (post_run _ _ _ _ _ _ (upcall_post env u _ (hist S) q pend out R) Hrun)
    as (new & ans & cmp & tw & R' & He & Hnew & Hi & Hq & Htw).
  destruct (effect_failures _ _ _ _ _ He) as [Hf1 Hf2]. destruct He as (d & Hd & A1 & C1 & G1).
  cbn [fst snd] in *. subst h'. rewrite drop_app_length. exists q, pend, (new ++ out). unfold inv_at. cbn [ac hist handling com recv recvq].
  split; [done|]. split; [by rewrite <- Hnone|]. split; [by rewrite G1, Hc, fmap_app|].
  assert (HP : q ++ pend ++ new ++ out ≡ₚ new ++ q ++ pend ++ out) by solve_Permutation.
  split; [rewrite HP; by apply Forall_app|]. split; [done|]. exists (tw ++ twice), lost, lostq.
  rewrite answers_app, completes_app, A1, C1. unfold owed, owedq in *. rewrite HP, !bind_app.
  rewrite !bind_app in Hr, Hrq. split_and!.
  - trans ((invocation_of u :: tw) ++ twice ++ recv S); [solve_Permutation|]. rewrite Hi, Hr. solve_Permutation.
  - rewrite Hrq, Hq. solve_Permutation.
  - destruct Htw as [-> | [-> _]]; cbn; [by apply submseteq_cons|by apply submseteq_skip].
  - rewrite length_app. destruct Htw as [-> | [-> ?]]; cbn in *; lia.
  - lia.
Qed.

Lemma inv_handle S p n a' h' :
  inv S -> handling S = Some p -> handle_event env p (ac S, hist S) = (Ret n, (a', h')) ->
  inv (Sys a' h' n (com S) (recv S) (recvq S)).
Proof using.
  intros (q & pend & out & R & Hh & Hc & Hwf & Hans & twice & lost & lostq & Hr & Hrq & Hsub & Hif & Htf) Hp Hrun.
  rewrite Hp in Hh. destruct pend as [|[p' e] pend]; [done|]. injection Hh as ->.
  assert (He : wf_event e /\ answered e).
  { rewrite Forall_app in Hwf, Hans. destruct Hwf as [_ [? _]%Forall_cons], Hans as [_ [? _]%Forall_cons]. done. }
  destruct (post_run _ _ _ _ _ _ (handle_event_post env p' e pend q out _ _ R (proj1 He) (proj2 He)) Hrun)
    as (-> & R' & ans & cmp & l & lq & Hef & Ho & Hoq & Hlen & _).
  destruct (effect_failures _ _ _ _ _ Hef) as [Hf1 Hf2]. destruct Hef as (d & Hd & A1 & C1 & _). cbn [fst snd] in *. subst h'.
  exists q, pend, out. unfold inv_at. cbn [ac hist handling com recv recvq fst snd] in *. split; [done|]. split; [done|]. split; [done|].
  assert (HP : q ++ (p', e) :: pend ++ out ≡ₚ (p', e) :: q ++ pend ++ out) by solve_Permutation.
  unfold owed, owedq in *. rewrite HP in Hwf, Hr, Hrq. apply Forall_cons in Hwf as [_ Hwf]. split; [done|].
  rewrite Forall_app, Forall_cons in Hans. split; [apply Forall_app; tauto|].
  exists twice, (l ++ lost), (lq ++ lostq). rewrite answers_app, completes_app, A1, C1.
  cbn [mbind list_bind snd] in *. rewrite Hr, Hrq, Ho, Hoq. rewrite !length_app in *.
  split_and!; [solve_Permutation..|done|lia|lia].
Qed.

Lemma step_inv S S' : step env S S' -> inv S -> inv S'.
Proof using.
  intros Hstep Hinv. destruct Hstep as
    [u a h cm rv rq a' h' Hrun|p rc rec a h hd c1 c2 rv rq r a' h' Hrun|p rc a h hd c1 c2 rv rq r a' h' Hrun
    |p rc a h hd c1 c2 rv rq r a' h' Hrun|rc rec a h hd cm rv rq r a' h' Hrun|a h hd cm rv rq a' h' Hrun
    |a h cm rv rq hd a' h' Hrun|p a h cm rv rq n a' h' Hrun|cb a h cm rv rq r a' h' Hrun|a h cm rv rq Hstop].
  1: exact (inv_upcall u _ a' h' Hinv eq_refl Hrun).
  7: exact (inv_handle _ p n a' h' Hinv eq_refl Hrun).
  all: destruct Hinv as (q & pend & out & Hinv); pose proof Hinv as (R & Hh & Hc & Hwf & Hans & _);
    cbn [ac hist handling com recv recvq] in *.
  1-3: symmetry in Hc; apply out_split in Hc as (o1 & e & o2 & -> & -> & ->); rewrite <- fmap_app;
       assert (Hwe : wf_event e) by (rewrite !Forall_app, Forall_cons in Hwf; apply Hwf);
       eapply (inv_move (Sys a h hd _ rv rq)); [exact Hinv|].
  - by apply (post_run _ _ _ _ _ _ (healthCheckReport_post env p e q pend o1 o2 a h rc rec R Hwe) Hrun).
  - by apply (post_run _ _ _ _ _ _ (haModeAssumed_post env p e q pend o1 o2 a h rc R Hwe) Hrun).
  - by apply (post_run _ _ _ _ _ _ (terminationResponse_post env p e q pend o1 o2 a h rc R Hwe) Hrun).
  - destruct (post_run _ _ _ _ _ _ (spontaneous_report_post env q pend out a h rc rec R) Hrun)
      as (_ & p & e & Hs & R' & ? & ? & ? & ?). eapply (inv_enqueue (Sys a h hd cm rv rq)); done.
  - destruct (post_run _ _ _ _ _ _ (stop_request_post env q pend out a h R) Hrun)
      as (p & e & Hs & R' & ? & ? & ? & ?). eapply (inv_enqueue (Sys a h hd cm rv rq)); done.
  - destruct pend as [|[]]; [|done].
    destruct (post_run _ _ _ _ _ _ (getq_post env a h q out R) Hrun) as (-> & Hs & R').
    eapply (inv_silent (Sys a h None cm rv rq)); [exact Hinv|exact Hs|exact R'|..]; cbn in *; try done. by rewrite app_nil_r in Hans.
  - assert (Hqu : quiet (maf_coremw_acInitialize env cb)) by (unfold maf_coremw_acInitialize; quiet_solve).
    destruct (post_run _ _ _ _ _ _ (Hqu a h) Hrun) as (K & Hs). cbn in *.
    eapply (inv_silent (Sys a h None cm rv rq)); [exact Hinv|exact Hs|by eapply ac_ok_keeps|..]; done.
  - eapply (inv_silent (Sys a h None cm rv rq)); [exact Hinv|apply silent_refl|by eapply ac_ok_keeps; [|exact R]|..]; done.
Qed.

Lemma reachable_inv cc S : reachable env (initial cc) S -> inv S.
Proof using.
  intros Hr. assert (H : forall x y, rtc (step env) x y -> inv x -> inv y).
  { induction 1 as [|x y z Hxy _ IH]; [done|]. intros Hx. eapply IH, step_inv; done. }
  eapply H; [exact Hr|apply inv_initial].
Qed.
End preserve.

(** ** The ledger, read off the heap *)
Definition outstanding (a : Ac) : list SaInvocationT := map_to_list (evs a) ≫= fun x => owed_of x.2.
Definition outstandingq (a : Ac) : list SaInvocationT := map_to_list (evs a) ≫= fun x => owedq_of x.2.

Lemma eseg_held h hd l tl : eseg h hd l tl -> Forall (held h) l.
Proof.
  revert hd. induction l as [|[p c] l IH]; intros hd; [by constructor|].
  intros (n & _ & Hn & Hc & Hl). constructor; [by exists n|]. by eapply IH.
Qed.

Lemma ac_all_held s q pend out : ac_ok s q pend out -> Forall (held (evs s)) (q ++ pend ++ out).
Proof. intros []. rewrite !Forall_app. eauto using eseg_held. Qed.

Lemma ac_map s q pend out : ac_ok s q pend out -> core <$> evs s = list_to_map (q ++ pend ++ out).
Proof.
  intros R. pose proof (ac_all_held _ _ _ _ R) as Hall. pose proof (a_nodup _ _ _ _ R) as Hnd.
  pose proof (a_dom _ _ _ _ R) as Hdom. set (l := q ++ pend ++ out) in *. clearbody l.
  apply map_eq. intros p. rewrite lookup_fmap. destruct (decide (p ∈ l.*1)) as [Hp|Hp].
  - apply list_elem_of_fmap in Hp as ([p' c] & -> & Hin). rewrite Forall_forall in Hall.
    destruct (Hall _ Hin) as (n & Hn & Hc). cbn [fst snd] in *. rewrite Hn. symmetry.
    apply elem_of_list_to_map_1; [done|]. by rewrite Hc.
  - rewrite (not_elem_of_list_to_map_1 _ _ Hp). rewrite <- (elem_of_list_to_set (C:=gset ptr)), <- Hdom in Hp.
    apply not_elem_of_dom in Hp. by rewrite Hp.
Qed.

Lemma heap_bind {B} (f : maf_CoremwEvent -> list B) s q pend out :
  (forall e, f (core e) = f e) -> ac_ok s q pend out ->
  (map_to_list (evs s) ≫= fun x => f x.2) ≡ₚ (q ++ pend ++ out) ≫= fun x => f x.2.
Proof.
  intros Hf R. rewrite <- (map_to_list_to_map (M:=gmap ptr) (q ++ pend ++ out)) by apply (a_nodup _ _ _ _ R).
  rewrite <- (ac_map _ _ _ _ R), map_to_list_fmap.
  generalize (map_to_list (evs s)). intros l. induction l as [|[p e] l IH]; [done|].
  cbn. by rewrite Hf, IH.
Qed.

Lemma outstanding_owed s q pend out : ac_ok s q pend out -> outstanding s ≡ₚ owed (q ++ pend ++ out).
Proof. by apply heap_bind. Qed.
Lemma outstandingq_owedq s q pend out : ac_ok s q pend out -> outstandingq s ≡ₚ owedq (q ++ pend ++ out).
Proof. by apply heap_bind. Qed.
