(* ===== verification/AcProps.v ===== *)
(** * Availability controller: the properties

    The theorems about [ac/ComSAAc.c], each with a run of a concrete system. *)
From Stdlib Require Import ZArith Lia.
From stdpp Require Import base gmap list strings.
From S2P Require Import Prelude Codes AvailController AcFacts AcSystem.

Open Scope Z_scope.

(** ** A concrete environment and a concrete history *)
Definition amf_env (imm : MafReturnT) (thread : Z) : environment acE := fun R tr e =>
  match e in acE R' return R' with
  | mutex_lock | mutex_unlock => 0
  | write_event_pipe => 1
  | read_event_pipe => false
  | saAmfInitialize | saAmfFinalize | saAmfSelectionObjectGet | saAmfComponentNameGet | saAmfComponentRegister
  | saAmfHealthcheckStart _ | saAmfCSIQuiescingComplete _ _ | saAmfComponentErrorReport _ => SA_AIS_OK
  | saAmfResponse _ _ => if Nat.even (length tr) then SA_AIS_OK else SA_AIS_ERR_TRY_AGAIN
  | saAmfDispatch => ([], SA_AIS_OK)
  | setHaMode _ _ _ | healthCheck _ | prepareTermination _ | terminateProcess => ()
  | service ObjImp_init_imm => imm
  | service _ => MafOk
  | removeFileMConsumer | killChildIfAny | sleep _ | usleep _ | register_poll_callbacks => ()
  | remove_file _ | processOpen _ => 0
  | getenv _ => None
  | getClearStorage => "/storage"%string
  | pthread_attr_init | pthread_create_amf | pthread_attr_destroy | write_ntf_pipe
  | pthread_cancel_ntf | pthread_join_ntf | pthread_join_amf => 0
  | pthread_create_ntf => thread
  | poll_execute => ([], 0)
  end.
Definition good_env : environment acE := amf_env MafOk 0.

Lemma good_imm : imm_ok good_env. Proof. by intros tr. Qed.
Lemma good_threads : threads_ok good_env. Proof. by intros tr. Qed.

(** Runs one concrete step. *)
Definition run {T} (m : A T) (s : Ac) (tr : list (event acE)) := m (s, tr).
Tactic Notation "step_by" uconstr(c) :=
  eapply rtc_l; [eapply c; vm_compute; reflexivity|];
  lazymatch goal with |- rtc ?R ?x ?y => let x' := eval vm_compute in x in change (rtc R x' y) end.

(** COM is attached; the AMF asks for a health check and then assigns the
    active role; COM answers the second request, and the AMF thread takes and
    handles that answer.  The health check is still out. *)
Lemma run_reachable : exists S, reachable good_env (initial "com") S /\
  recv S = [8; 7] /\ answers (hist S) = [8] /\ outstanding (ac S) = [7] /\ com S = [0%nat] /\
  maf_com_ha_state (ac S) = MafMwSpiHaModeActive /\
  imm_failures (hist S) = 0%nat /\ thread_failures (hist S) = 0%nat.
Proof.
  eexists. split.
  - unfold reachable, initial.
    step_by (step_init good_env true).
    step_by (step_upcall good_env (Healthcheck 7)).
    step_by (step_upcall good_env (CSISet 8 SA_AMF_HA_ACTIVE SA_AMF_CSI_NEW_ASSIGN)).
    step_by (step_ha_mode good_env 1 MafOk _ _ _ [] [0%nat]).
    step_by (step_getq good_env).
    step_by (step_handle good_env 1).
    reflexivity.
  - by vm_compute.
Qed.

(** ** Answering the AMF *)

(** C1. In every interleaving of AMF up-calls, calls of COM and turns of the AMF
    thread, whatever the environment answers, the invocations received from the
    AMF are exactly those that have been answered successfully together with
    those an existing event still owes, up to two defects of the code that the
    statement counts: [twice] are invocations that were turned into two events
    because the object implementer could not be started, at most one for each
    such failure in the history; [lost] and [lostq] are invocations whose event
    was released without the answer because the notification thread could not
    be set up, together at most as many as failed attempts to set up a thread
    in the history.  So while nothing of this kind has failed no invocation is
    lost and none is answered twice; and likewise for the completion of
    quiescing. *)
Theorem amf_invocations_answered_once env cc S :
  reachable env (initial cc) S -> exists twice lost lostq,
  twice ++ recv S ≡ₚ answers (hist S) ++ outstanding (ac S) ++ lost /\
  recvq S ≡ₚ completes (hist S) ++ outstandingq (ac S) ++ lostq /\
  twice ⊆+ recv S /\ (length twice <= imm_failures (hist S))%nat /\
  (length (lost ++ lostq) <= thread_failures (hist S))%nat.
Proof.
  intros Hr. destruct (reachable_inv env cc S Hr) as (q & pend & out & R & _ & _ & _ & _ & twice & lost & lostq & H).
  exists twice, lost, lostq. by rewrite (outstanding_owed _ _ _ _ R), (outstandingq_owedq _ _ _ _ R).
Qed.

Lemma amf_invocations_answered_once_witness : exists S, reachable good_env (initial "com") S /\
  recv S = [8; 7] /\ [8; 7] ≡ₚ answers (hist S) ++ outstanding (ac S) /\ answers (hist S) = [8].
Proof.
  destruct run_reachable as (S & HS & Hr & Ha & _ & _ & _ & Hi & Ht). exists S. split; [exact HS|]. split; [exact Hr|].
  split; [|exact Ha].
  destruct (amf_invocations_answered_once good_env "com" S HS) as (twice & lost & lostq & H & _ & _ & H1 & H2).
  rewrite Hi in H1. rewrite Ht in H2. apply Nat.le_0_r, nil_length_inv in H1, H2. apply app_nil in H2 as [-> ->]. subst twice.
  rewrite Hr, app_nil_r in H. exact H.
Defined.

(** C2. The AMF thread is never left asleep over a waiting event: in every
    reachable state the pipe it polls holds a byte exactly when the queue is not
    empty, never more than one byte, and the tail pointer is empty exactly with
    the head. *)
Theorem no_lost_wakeup env cc S :
  reachable env (initial cc) S ->
  pipe_bytes (ac S) = (if bool_decide (maf_eventq_head (ac S) = None) then 0 else 1)%nat /\
  (maf_eventq_tail (ac S) = None <-> maf_eventq_head (ac S) = None).
Proof.
  intros Hr. destruct (reachable_inv env cc S Hr) as (q & pend & out & R & _).
  rewrite (a_pipe _ _ _ _ R), (a_tail _ _ _ _ R), (lseg_head _ _ _ _ _ (a_queue _ _ _ _ R)).
  destruct q as [|[p e] q]; [done|]. split; [done|]. split; [|done].
  rewrite last_ptr_cons. unfold last_ptr. by destruct (last q) as [[]|].
Qed.

Lemma no_lost_wakeup_witness : exists S, reachable good_env (initial "com") S /\ pipe_bytes (ac S) = 1%nat.
Proof.
  assert (HS : exists S, reachable good_env (initial "com") S /\ maf_eventq_head (ac S) = Some 1%nat).
  { eexists. split.
    - unfold reachable, initial. step_by (step_init good_env true).
      step_by (step_upcall good_env (Healthcheck 7)). step_by (step_spontaneous good_env MafFailure MafMwSpiRecommendedRecoveryFailover).
      reflexivity.
    - reflexivity. }
  destruct HS as (S & HS & Hh). exists S. split; [exact HS|].
  rewrite (proj1 (no_lost_wakeup good_env "com" S HS)), Hh. reflexivity.
Defined.

(** C3. From every reachable state, whatever the environment answers, every
    operation of the system is memory safe: the up-calls, the attaching of COM,
    the request to stop, the taking of the queue, the turn of the loop on the
    next event, the answers of COM for the events it holds and its reports on
    its own initiative never dereference a null, a released or a
    half-initialised event; they return or end the process through [err_quit],
    [abort] or an assertion.  With one exception, which the statement names
    ([unattached]): the up-call that assigns the active role while COM is not
    attached calls COM through the null [maf_acCallbacks] when the object
    implementer cannot be started.  (The calls of COM are those for events it
    has been given and has not answered.) *)
Theorem reachable_memory_safe env cc S :
  reachable env (initial cc) S ->
  let safe {T} (m : A T) := post m (ac S, hist S) (fun _ _ => True) clean_exit in
  (handling S = None -> forall u, post (run_upcall env u) (ac S, hist S) (fun _ _ => True)
     (fun w => clean_exit w \/ unattached u (ac S) w)) /\
  (handling S = None -> safe (maf_event_getq env)) /\
  (forall p, handling S = Some p -> safe (handle_event env p)) /\
  (forall p rc rec, p ∈ com S ->
     safe (maf_coremw_healthCheckReport env (Some p) rc rec) /\
     safe (maf_coremw_haModeAssumed env p rc) /\
     safe (maf_coremw_prepareTerminationResponse env p rc)) /\
  (forall rc rec, safe (maf_coremw_healthCheckReport env None rc rec)) /\
  safe (stop_request env) /\ (forall cb, safe (maf_coremw_acInitialize env cb)).
Proof.
  intros Hr safe. destruct (reachable_inv env cc S Hr) as (q & pend & out & R & Hh & Hc & Hwf & Hans & _). split_and!.
  - intros _ u. eapply post_mono; [by eapply upcall_post|done|done].
  - intros Hn. rewrite Hn in Hh. destruct pend as [|[]]; [|done]. eapply post_mono; [by apply getq_post|done|done].
  - intros p Hp. rewrite Hp in Hh. destruct pend as [|[p' e] pend]; [done|]. injection Hh as ->.
    rewrite !Forall_app, ?Forall_cons in *. destruct Hwf as (_ & [? _] & _), Hans as (_ & ? & _).
    eapply post_mono; [by eapply handle_event_post|done|done].
  - intros p rc rec Hp. rewrite Hc in Hp. apply list_elem_of_split in Hp as (c1 & c2 & Hs).
    apply out_split in Hs as (o1 & e & o2 & -> & _). rewrite !Forall_app, Forall_cons in Hwf. destruct Hwf as (_ & _ & _ & He & _).
    split_and!; (eapply post_mono; [|done|done]);
      [by eapply healthCheckReport_post|by eapply haModeAssumed_post|by eapply terminationResponse_post].
  - intros rc rec. eapply post_mono; [by eapply spontaneous_report_post|done|done].
  - eapply post_mono; [by eapply stop_request_post|done|done].
  - intros cb. assert (Hqu : quiet (maf_coremw_acInitialize env cb)) by (unfold maf_coremw_acInitialize; quiet_solve).
    eapply post_mono; [apply Hqu|done|done].
Qed.

Lemma reachable_memory_safe_witness : exists S, reachable good_env (initial "com") S /\
  post (maf_coremw_healthCheckReport good_env (Some 0%nat) MafOk MafMwSpiRecommendedRecoveryRestart) (ac S, hist S) (fun _ _ => True) clean_exit.
Proof.
  destruct run_reachable as (S & HS & _ & _ & _ & Hc & _). exists S. split; [exact HS|].
  destruct (reachable_memory_safe good_env "com" S HS) as (_ & _ & _ & H & _).
  refine (proj1 (H 0%nat MafOk MafMwSpiRecommendedRecoveryRestart _)). rewrite Hc. left.
Defined.

(** The exception is real: without COM and without the object implementer the
    assignment of the active role dereferences the null call-backs. *)
Lemma active_unattached_crashes (env : environment acE) inv transition s tr :
  maf_acCallbacks s = false -> (forall tr, env _ tr (service ObjImp_init_imm) = MafFailure) ->
  post (run_upcall env (CSISet inv SA_AMF_HA_ACTIVE transition)) (s, tr) (fun _ _ => False) (fun w => w = BadPointer).
Proof.
  intros Hcb Hi. cbn [run_upcall]. unfold maf_amf_csi_set_callback, csi_active. do 4 post_step.
  eapply (post_mono _ _ (fun _ _ => True) _ (fun w => w = BadPointer)).
  - unfold when. destruct (negb _); [do 2 post_step|]; by post_step.
  - intros _ [s1 tr1] _. do 5 post_step. subst r. cbn [snd]. rewrite Hi, bool_decide_true by done. cbn [when].
    post_step. rewrite Hcb. by apply post_exit.
  - done.
Qed.

(** [maf_handle_events] takes the whole queue and answers its events one by
    one, in the order in which COM queued them, each exactly once; it leaves an
    empty queue and an empty pipe, and the events still held by COM alone.  The
    bound on the loop is never reached. *)
Theorem handle_events_in_order env q out s tr :
  threads_ok env -> ac_ok s q [] out -> Forall (fun x => wf_event x.2 /\ answered x.2) q ->
  post (maf_handle_events env) (s, tr) (fun _ c' => exists d,
    ac_ok c'.1 [] [] out /\ c'.2 = tr ++ d /\ answers d = owed q /\ completes d = owedq q)
    (fun w => w = ErrQuit \/ w = Aborted \/ w = AssertFailed).
Proof.
  intros Hth R Hall. eapply post_mono; [by apply handle_events_post| |done].
  intros _ c' (R' & d & -> & A1 & C1 & _). eauto 10.
Qed.

Definition two_reports : Ac := (stop_request good_env (
  (maf_coremw_healthCheckReport good_env None MafOk MafMwSpiRecommendedRecoveryRestart (ac (initial "com"), [])).2)).2.1.

Lemma handle_events_in_order_witness :
  pipe_bytes two_reports = 1%nat /\
  post (maf_handle_events good_env) (two_reports, []) (fun _ c' => pipe_bytes c'.1 = 0%nat) clean_exit.
Proof.
  split; [vm_compute; reflexivity|].
  pose (q := [(0%nat, core (e_recovery MafMwSpiRecommendedRecoveryRestart (e_error MafOk (blank EVENT_healthCheckReport 0 1))));
              (1%nat, core (blank EVENT_Terminate 0 0))]).
  eapply post_mono; [apply (handle_events_in_order good_env q [] two_reports [] good_threads)| |done].
  - constructor; [|vm_compute; reflexivity|reflexivity|constructor| |vm_compute; reflexivity|vm_compute; reflexivity].
    + vm_compute. repeat (eexists; split_and!; [reflexivity|reflexivity|reflexivity|]). reflexivity.
    + apply (bool_decide_unpack _). vm_compute. exact I.
  - repeat apply Forall_cons_2; [split; vm_compute; [right; reflexivity|split; eexists; reflexivity]|split; vm_compute; [reflexivity|exact I]|constructor].
  - intros _ c' (d & R & _). exact (a_pipe _ _ _ _ R).
Defined.

Lemma saAmfResponse_retry env inv err s tr : exists refused r,
  saAmfResponse_wrapper env inv err (s, tr) =
    (if bool_decide (r = SA_AIS_OK) then Ret () else Exit ErrQuit,
     (s, tr ++ attempts (saAmfResponse inv err) (sleep 2) refused r)) /\
  Forall (fun x => x = SA_AIS_ERR_TRY_AGAIN) refused /\ (length refused <= 10)%nat /\
  (r = SA_AIS_ERR_TRY_AGAIN -> length refused = 10%nat).
Proof.
  unfold saAmfResponse_wrapper, SAF_API_CALL, amf_pause, AMF_TRY_INTERVAL.
  destruct (retry_sat env (saAmfResponse inv err) (sleep 2) is_try_again AMF_MAX_TRIES s tr)
    as (r & [s' tr'] & Hrun & Hs & refused & Htr & Hall & Hle & Hlast). cbn [fst snd] in *. subst s' tr'.
  exists refused, r. split; [|split; [|split; [exact Hle|]]].
  - unfold mbind at 1, M_bind. rewrite Hrun. unfold when. by case_bool_decide.
  - eapply Forall_impl; [exact Hall|]. intros x Hx. by apply bool_decide_eq_true in Hx.
  - intros ->. by apply Hlast.
Qed.

(** An answer to the AMF is attempted at most eleven times: it is repeated,
    after a pause of two seconds, exactly as long as the AMF says "try again"
    and tries are left; any other failure, and the eleventh refusal, end the
    process, so that the call returns only when the AMF took the answer. *)
Theorem saAmfResponse_bounded_retry env inv err s tr : exists refused r,
  saAmfResponse_wrapper env inv err (s, tr) =
    (if bool_decide (r = SA_AIS_OK) then Ret () else Exit ErrQuit,
     (s, tr ++ attempts (saAmfResponse inv err) (sleep 2) refused r)) /\
  Forall (fun x => x = SA_AIS_ERR_TRY_AGAIN) refused /\ (length refused <= 10)%nat /\
  (r = SA_AIS_ERR_TRY_AGAIN -> length refused = 10%nat).
Proof. apply saAmfResponse_retry. Qed.

(** ** Changing the role *)
Lemma last_attempts {T} (e : acE T) (zz : acE ()) refused r tr : last (tr ++ attempts e zz refused r) = Some (Ev e r).
Proof.
  revert tr. induction refused as [|x l IH]; intros tr; cbn [attempts]; [apply last_snoc|].
  rewrite (app_assoc tr [_; _] _ : tr ++ Ev e x :: Ev zz () :: attempts e zz l r = (tr ++ [Ev e x; Ev zz ()]) ++ attempts e zz l r).
  apply IH.
Qed.

Lemma start_ntf_role env s tr : threads_ok env ->
  sat (start_ntf_thread env) (s, tr) (fun b c' => b = true /\ maf_com_ha_state c'.1 = maf_com_ha_state s /\
    maf_new_com_ha_state c'.1 = maf_new_com_ha_state s).
Proof.
  intros Hth. unfold start_ntf_thread. do 2 sat_step. case_bool_decide; [|by sat_step].
  do 2 sat_step. subst r. cbn [snd]. rewrite (proj1 (Hth tr)). cbn [negb Z.eqb]. do 2 sat_step. subst r. cbn [snd].
  rewrite (proj2 (Hth _)). cbn [negb Z.eqb]. by do 3 sat_step.
Qed.

Definition csi_target (ha : SaAmfHAStateT) : MafMwSpiHaModeT :=
  match ha with
  | SA_AMF_HA_ACTIVE => MafMwSpiHaModeActive
  | SA_AMF_HA_STANDBY => MafMwSpiHaModeStandby
  | _ => MafMwSpiHaModeUnassigned
  end.
Definition csi_reason (ha : SaAmfHAStateT) (transition : SaAmfCSITransitionDescriptorT) : MafMwSpiHaReasonT :=
  match ha, transition with
  | SA_AMF_HA_ACTIVE, SA_AMF_CSI_NEW_ASSIGN => MafMwSpiHaReasonInit
  | SA_AMF_HA_ACTIVE, SA_AMF_CSI_NOT_QUIESCED => MafMwSpiHaReasonFail
  | SA_AMF_HA_STANDBY, _ => MafMwSpiHaReasonInit
  | _, _ => MafMwSpiHaReasonSwitchover
  end.

(** The role and the attachment of COM are left alone. *)
Definition same_role (s s' : Ac) : Prop :=
  keeps s s' /\ maf_acCallbacks s' = maf_acCallbacks s /\ maf_com_ha_state s' = maf_com_ha_state s /\
  maf_new_com_ha_state s' = maf_new_com_ha_state s.
#[export] Instance same_role_preorder : PreOrder same_role.
Proof.
  split; [by repeat split|]. intros s1 s2 s3 (K & H2 & H3 & H4) (K' & G2 & G3 & G4).
  split; [by etrans|]. by rewrite G2, G3, G4.
Qed.

Definition role_set (s : Ac) (tr : list (event acE)) (ha : SaAmfHAStateT) (c' : Ac * list (event acE)) : Prop :=
  keeps s c'.1 /\ maf_acCallbacks c'.1 = maf_acCallbacks s /\ maf_com_ha_state c'.1 = maf_com_ha_state s /\
  maf_new_com_ha_state c'.1 = csi_target ha /\ silent tr c'.2.

Lemma role_set_by s tr s1 tr1 ha s2 tr2 : same_role s s1 -> silent tr tr1 ->
  same_role (set_new_ha (csi_target ha) s1) s2 -> silent tr1 tr2 -> role_set s tr ha (s2, tr2).
Proof.
  intros (K & H2 & H3 & H4) Hs (K' & G2 & G3 & G4) Hs'. cbn in *.
  unfold role_set. cbn [fst snd]. split; [etrans; [exact K|exact K']|]. rewrite G2, G3, G4. split_and!; [done..|by eapply silent_trans].
Qed.

Lemma csi_case_role env inv ha transition s tr : imm_ok env ->
  post (match ha with
        | SA_AMF_HA_ACTIVE => csi_active env inv transition
        | SA_AMF_HA_STANDBY => csi_standby env
        | SA_AMF_HA_QUIESCED => csi_quiesced env
        | SA_AMF_HA_QUIESCING => csi_quiescing env
        | SA_AMF_HA_other _ => exit AssertFailed
        end) (s, tr) (fun reason c' => reason = csi_reason ha transition /\ role_set s tr ha c') clean_exit.
Proof.
  intros Him. destruct ha; [| | | |by apply post_exit; right; right].
  - unfold csi_active. do 2 post_step. eapply (post_quietR same_role); [quiet_solve|done|]. intros _ s1 tr1 K1 Hs1.
    do 2 post_step. do 2 post_step.
    match goal with H : _ = ?x |- context [bool_decide (?x = MafFailure)] =>
      rewrite (bool_decide_false (x = MafFailure)) by (rewrite <- H; apply Him) end. cbn [when]. do 2 post_step.
    eapply (post_quietR same_role); [unfold open_com_logs; quiet_solve|done|]. intros _ s2 tr2 K2 Hs2. post_step.
    split; [by destruct transition|]. eapply role_set_by; [exact K1|exact Hs1|exact K2|].
    eapply silent_trans; [|exact Hs2]. eexists. by split_and!.
  - unfold csi_standby, removeSecretAttrFile. do 2 post_step. eapply (post_quietR same_role); [quiet_solve|done|].
    intros _ s1 tr1 K1 Hs1. do 3 post_step. split; [done|].
    eapply (role_set_by _ _ s1); [exact K1|exact Hs1|by repeat split|apply silent_refl].
  - unfold csi_quiesced, removeSecretAttrFile. do 2 post_step.
    eapply (post_quietR same_role); [quiet_solve|done|]. intros _ s0 tr0 K0 Hs0.
    eapply (post_quietR same_role); [quiet_solve|done|]. intros _ s1 tr1 K1 Hs1. do 3 post_step. split; [done|].
    eapply (role_set_by _ _ s1); [by etrans|by eapply silent_trans|by repeat split|apply silent_refl].
  - unfold csi_quiescing, removeSecretAttrFile. do 2 post_step. eapply (post_quietR same_role); [quiet_solve|done|].
    intros _ s1 tr1 K1 Hs1. do 3 post_step. split; [done|].
    eapply (role_set_by _ _ s1); [exact K1|exact Hs1|by repeat split|apply silent_refl].
Qed.

Definition quiesce (ha : SaAmfHAStateT) : bool := bool_decide (ha = SA_AMF_HA_QUIESCING).

(** Handing a role over to COM. *)
Lemma hand_role_post env inv fl mode reason s tr q pend out :
  ac_ok s q pend out ->
  post (p ← maf_new_event EVENT_haModeAssumed inv fl; call env (setHaMode p mode reason)) (s, tr)
    (fun _ c' => exists p, evs s !! p = None /\ c' = (set_evs (<[p := blank EVENT_haModeAssumed inv fl]> (evs s)) s,
                                 tr ++ [Ev (setHaMode p mode reason) ()])) clean_exit.
Proof.
  intros R. post_step. eapply sat_post, sat_mono; [by apply new_event_sat|]. intros p c' (-> & Hp & _).
  apply sat_post, sat_call. intros [] _. cbn. eauto.
Qed.

(** What a change of role does: the target role is noted and the current role
    kept; when COM is not attached or already has the role, the AMF is
    answered at once (and its quiescing completed) without a call to COM; otherwise COM is called
    exactly once, last, with the role and the reason that belong to the AMF's
    request, and with a new event that carries the invocation (for quiescing,
    the AMF is answered before). *)
Theorem csi_set_changes_role env inv ha transition s tr q pend out :
  imm_ok env -> ac_ok s q pend out ->
  post (maf_amf_csi_set_callback env inv ha transition) (s, tr) (fun _ c' =>
    maf_com_ha_state c'.1 = maf_com_ha_state s /\ maf_new_com_ha_state c'.1 = csi_target ha /\
    if negb (maf_acCallbacks s) || bool_decide (maf_com_ha_state s = csi_target ha)
    then effect tr c'.2 [inv] (if quiesce ha then [inv] else []) [] /\ evs c'.1 = evs s
    else exists p, last c'.2 = Some (Ev (setHaMode p (csi_target ha) (csi_reason ha transition)) ()) /\
      effect tr c'.2 (if quiesce ha then [inv] else []) [] [p] /\
      evs c'.1 !! p = Some (blank EVENT_haModeAssumed inv (if quiesce ha then 1 else 0))) clean_exit.
Proof.
  intros Him R. unfold maf_amf_csi_set_callback. post_step. eapply post_mono; [by apply csi_case_role| |done].
  intros reason [s1 tr1] (-> & K & Hcb & Hha & Hnew & Hs). cbn [fst snd] in *.
  apply (ac_ok_keeps _ _ _ _ _ K) in R. destruct K as (K & _). rewrite <- Hcb, <- Hha, <- Hnew, <- K. clear Hcb Hha K s.
  apply effect_silent in Hs. unfold csi_forward, quiesce. do 2 post_step.
  destruct (negb (maf_acCallbacks s1) || bool_decide (maf_com_ha_state s1 = maf_new_com_ha_state s1)).
  - post_step. eapply post_mono; [apply wrapper_post| |by intros w ->].
    intros _ [s2 tr2]; cbn [fst snd]; intros [-> He]. pose proof (effect_trans _ _ _ _ _ _ _ _ _ Hs He) as He1.
    unfold when. case_bool_decide; [|post_step; split_and!; [done|done|exact He1|done]].
    eapply post_mono; [apply quiescing_post| |by intros w ->]. intros _ [s3 tr3]; cbn [fst snd]; intros [-> He2].
    split_and!; [done|done|exact (effect_trans _ _ _ _ _ _ _ _ _ He1 He2)|done].
  - assert (Hgo : forall fl tr2, effect tr tr2 (if bool_decide (ha = SA_AMF_HA_QUIESCING) then [inv] else []) [] [] ->
      fl = (if bool_decide (ha = SA_AMF_HA_QUIESCING) then 1 else 0) ->
      post (p ← maf_new_event EVENT_haModeAssumed inv fl; call env (setHaMode p (maf_new_com_ha_state s1) (csi_reason ha transition)))
       (s1, tr2) (fun _ c' => maf_com_ha_state c'.1 = maf_com_ha_state s1 /\ maf_new_com_ha_state c'.1 = maf_new_com_ha_state s1 /\
         exists p, last c'.2 = Some (Ev (setHaMode p (maf_new_com_ha_state s1) (csi_reason ha transition)) ()) /\
         effect tr c'.2 (if bool_decide (ha = SA_AMF_HA_QUIESCING) then [inv] else []) [] [p] /\
         evs c'.1 !! p = Some (blank EVENT_haModeAssumed inv (if bool_decide (ha = SA_AMF_HA_QUIESCING) then 1 else 0))) clean_exit).
    { intros fl tr2 He ->. eapply post_mono; [by eapply hand_role_post| |done].
      intros _ c' (p & _ & ->). split; [done|]. split; [done|]. exists p. cbn. rewrite last_snoc, lookup_insert_eq. split; [done|].
      split; [|done]. refine (eq_rect _ (fun a => effect tr _ a [] [p]) (effect_trans _ _ _ _ _ _ [] [] [p] He _) _ (app_nil_r _)).
      eexists. by split_and!. }
    case_bool_decide.
    + do 2 post_step. eapply post_mono; [apply wrapper_post| |by intros w ->].
      intros _ [s2 tr2]; cbn [fst snd]; intros [-> He]. pose proof (effect_trans _ _ _ _ _ _ _ _ _ Hs He) as He1.
      specialize (Hgo 1 tr2 He1 eq_refl). unfold post, mbind, M_bind in Hgo. unfold post.
      destruct (maf_new_event _ _ _ _) as [[p|w] c']; exact Hgo.
    + exact (Hgo 0 tr1 Hs eq_refl).
Qed.

Lemma idle_ok cc : ac_ok (set_cb true (ac (initial cc))) [] [] [].
Proof. constructor; try done; constructor. Qed.

Lemma csi_set_changes_role_witness :
  post (maf_amf_csi_set_callback good_env 5 SA_AMF_HA_STANDBY SA_AMF_CSI_zero) (set_cb true (ac (initial "com")), [])
    (fun _ c' => exists p, last c'.2 = Some (Ev (setHaMode p MafMwSpiHaModeStandby MafMwSpiHaReasonInit) ())) clean_exit.
Proof.
  eapply post_mono; [exact (csi_set_changes_role good_env 5 SA_AMF_HA_STANDBY SA_AMF_CSI_zero _ [] _ _ _ good_imm (idle_ok "com"))| |done].
  intros _ c' (_ & _ & p & Hl & _). by exists p.
Defined.

(** The role changes only when COM has confirmed it: on [MafOk] the noted
    role becomes the current one and the AMF hears [SA_AIS_OK]; on any other
    code the role stays and the AMF hears [SA_AIS_ERR_FAILED_OPERATION].  A
    quiescing event completes the quiescing, any other answers the invocation,
    and that is the last thing done for the event. *)
Theorem haModeAssumed_sets_role env p s tr n err :
  threads_ok env -> evs s !! p = Some n -> event_type n = EVENT_haModeAssumed -> error n = Some err ->
  post (maf_coremw_haModeAssumed_event env p) (s, tr) (fun _ c' =>
    let resp := if bool_decide (err = MafOk) then SA_AIS_OK else SA_AIS_ERR_FAILED_OPERATION in
    maf_com_ha_state c'.1 = (if bool_decide (err = MafOk) then maf_new_com_ha_state s else maf_com_ha_state s) /\
    maf_new_com_ha_state c'.1 = maf_new_com_ha_state s /\
    last c'.2 = Some (if flags n =? 1 then Ev (saAmfCSIQuiescingComplete (saf_invokation n) resp) SA_AIS_OK
                      else Ev (saAmfResponse (saf_invokation n) resp) SA_AIS_OK)) clean_exit.
Proof.
  intros Hth Hn Hty Herr. unfold maf_coremw_haModeAssumed_event.
  post_step. eapply sat_post, load_event_sat; [done|]. post_step.
  eapply sat_post, sat_mono; [by apply outcome_of_post|]. intros resp c' [-> ->]. cbv zeta. post_step.
  set (resp := if bool_decide (err = MafOk) then _ else _).
  assert (Hrest : forall s1 tr1, maf_new_com_ha_state s1 = maf_new_com_ha_state s ->
    post ((if flags n =? 1 then quiescing_complete env (saf_invokation n) resp
           else s ← get;
             when (negb (bool_decide (maf_new_com_ha_state s = MafMwSpiHaModeUnassigned))
                   && negb (bool_decide (cc_name s = "lm"%string))) (handshakeToComsaMimTool env) ;;
             saAmfResponse_wrapper env (saf_invokation n) resp) : A ()) (s1, tr1)
      (fun _ c' => maf_com_ha_state c'.1 = maf_com_ha_state s1 /\ maf_new_com_ha_state c'.1 = maf_new_com_ha_state s /\
         last c'.2 = Some (if flags n =? 1 then Ev (saAmfCSIQuiescingComplete (saf_invokation n) resp) SA_AIS_OK
                           else Ev (saAmfResponse (saf_invokation n) resp) SA_AIS_OK)) clean_exit).
  { intros s1 tr1 Hnew. destruct (flags n =? 1).
    - unfold quiescing_complete. do 2 post_step. unfold when. case_bool_decide as Hok; [|by left]. cbn [negb].
      post_step. by rewrite last_snoc, Hok.
    - do 2 post_step. eapply (post_quietR same_role); [unfold handshakeToComsaMimTool; quiet_solve|done|].
      intros _ s2 tr2 (_ & _ & H2 & H3) _. rewrite <- H2, <- Hnew, <- H3.
      destruct (saAmfResponse_retry env (saf_invokation n) resp s2 tr2) as (refused & r & Hrun & _).
      unfold post. rewrite Hrun. case_bool_decide; [|by left]. subst r. cbn [fst snd]. split_and!; [done|done|].
      by rewrite last_attempts. }
  destruct (bool_decide (err = MafOk)) eqn:Eok.
  - subst resp. rewrite (bool_decide_true (SA_AIS_OK = SA_AIS_OK)) by done. do 2 post_step.
    eapply sat_post, sat_mono; [by apply start_ntf_role|]. cbn beta. intros b [s1 tr1] (-> & H2 & H3).
    cbn in H2, H3. eapply post_mono; [exact (Hrest s1 tr1 H3)| |done]. intros a c'. by rewrite H2.
  - subst resp. rewrite (bool_decide_false (SA_AIS_ERR_FAILED_OPERATION = SA_AIS_OK)) by done. post_step. by apply Hrest.
Qed.

Definition confirmed : maf_CoremwEvent := e_error MafOk (blank EVENT_haModeAssumed 5 0).
Definition waiting : Ac := set_evs {[ 3%nat := confirmed ]} (set_new_ha MafMwSpiHaModeActive (ac (initial "com"))).

Lemma haModeAssumed_sets_role_witness :
  post (maf_coremw_haModeAssumed_event good_env 3) (waiting, []) (fun _ c' => maf_com_ha_state c'.1 = MafMwSpiHaModeActive) clean_exit.
Proof.
  eapply post_mono; [apply (haModeAssumed_sets_role good_env 3 waiting [] confirmed MafOk good_threads); reflexivity| |done].
  by intros _ c' (H & _).
Defined.

(** When the object implementer cannot be started, the request for the active
    role is turned into two events for the same AMF invocation: COM is asked to
    prepare for termination and, by the code after the failure branch, to take
    the role; both events owe the one answer. *)
Theorem csi_active_two_events (env : environment acE) inv transition s tr q pend out :
  ac_ok s q pend out -> maf_acCallbacks s = true -> maf_com_ha_state s <> MafMwSpiHaModeActive ->
  (forall tr, env _ tr (service ObjImp_init_imm) = MafFailure) ->
  post (maf_amf_csi_set_callback env inv SA_AMF_HA_ACTIVE transition) (s, tr) (fun _ c' => exists p1 p2,
    p1 <> p2 /\ effect tr c'.2 [] [] [p1; p2] /\
    evs c'.1 !! p1 = Some (blank EVENT_prepareTerminationResponse inv 0) /\
    evs c'.1 !! p2 = Some (blank EVENT_haModeAssumed inv 0)) clean_exit.
Proof.
  intros R Hcb Hha Him. unfold maf_amf_csi_set_callback, csi_active. do 3 post_step.
  eapply (post_quietR same_role); [quiet_solve|done|]. intros _ s1 tr1 (K1 & Hcb1 & Hha1 & _) Hs1.
  apply (ac_ok_keeps _ _ _ _ _ K1) in R. do 2 post_step. do 2 post_step.
  match goal with H : _ = ?x |- context [bool_decide (?x = MafFailure)] =>
    rewrite (bool_decide_true (x = MafFailure)) by (rewrite <- H; apply Him) end. cbn [when].
  rewrite Hcb. do 2 post_step. eapply sat_post, sat_of_option; [done|]. post_step.
  assert (R1 : ac_ok (set_new_ha MafMwSpiHaModeActive s1) q pend out) by (by eapply ac_ok_keeps; [|exact R]).
  eapply sat_post, sat_mono; [by apply new_event_sat|]. intros p1 c' (-> & Hp1 & R2). cbn [fst] in R2.
  apply sat_post, sat_call. intros [] _. cbn [fst snd]. post_step.
  eapply post_mono; [apply (quiet_when same_role); unfold open_com_logs; quiet_solve| |done]. intros _ [s3 tr3] [(K3 & Hcb3 & Hha3 & Hn3) Hs3].
  cbn [fst snd] in *. 
  apply (ac_ok_keeps _ _ _ _ _ K3) in R2. post_step. unfold csi_forward. do 2 post_step. rewrite Hcb3, Hha3, Hn3. cbn.
  rewrite Hcb1, Hha1, Hcb. rewrite bool_decide_false by done. cbn [negb orb].
  eapply post_mono; [by eapply (hand_role_post env inv 0)| |done]. intros _ c' (p2 & Hp2 & ->). cbn [fst snd evs set_evs].
  destruct K3 as (K3 & _). cbn in K3. rewrite K3 in Hp2 |- *.
  assert (p1 <> p2) by (intros ->; by rewrite lookup_insert_eq in Hp2).
  exists p1, p2. rewrite lookup_insert_eq, lookup_insert_ne, lookup_insert_eq by done. split; [done|]. split; [|done].
  apply effect_silent in Hs1, Hs3. eapply (effect_trans _ _ _ [] [] [p1] [] [] [p2]).
  - eapply (effect_trans _ _ _ [] [] [] [] [] [p1]); [exact Hs1|].
    eapply (effect_trans _ _ _ [] [] [p1] [] [] []); [|exact Hs3]. eexists. rewrite <- app_assoc. by split_and!.
  - eexists. by split_and!.
Qed.

Definition no_imm_env : environment acE := amf_env MafFailure 0.

Lemma csi_active_two_events_witness :
  post (maf_amf_csi_set_callback no_imm_env 5 SA_AMF_HA_ACTIVE SA_AMF_CSI_NEW_ASSIGN) (set_cb true (ac (initial "com")), [])
    (fun _ c' => exists p1 p2, p1 <> p2 /\ given c'.2 = [p1; p2]) clean_exit.
Proof.
  eapply post_mono; [apply (csi_active_two_events no_imm_env 5 SA_AMF_CSI_NEW_ASSIGN _ [] _ _ _ (idle_ok "com")); done| |done].
  intros _ c' (p1 & p2 & Hne & (d & -> & _ & _ & Hg) & _). exists p1, p2. split; [exact Hne|exact Hg].
Defined.

(** When the notification thread cannot be created, the confirmation of the
    active role is swallowed: the role has already been recorded as active, and
    the invocation is not answered although its event is then released. *)
Theorem haModeAssumed_not_answered (env : environment acE) p s tr n :
  evs s !! p = Some n -> event_type n = EVENT_haModeAssumed -> error n = Some MafOk ->
  maf_new_com_ha_state s = MafMwSpiHaModeActive -> (forall tr, env _ tr pthread_create_ntf <> 0) ->
  sat (handle_event env p) (s, tr) (fun _ c' =>
    effect tr c'.2 [] [] [] /\ maf_com_ha_state c'.1 = MafMwSpiHaModeActive /\ evs c'.1 !! p = None).
Proof.
  intros Hn Hty Herr Hnew Hth. unfold handle_event. sat_step. eapply load_event_sat; [done|]. rewrite Hty. sat_step.
  assert (Hev : sat (maf_coremw_haModeAssumed_event env p) (s, tr) (fun _ c' =>
    silent tr c'.2 /\ evs c'.1 = evs s /\ maf_com_ha_state c'.1 = MafMwSpiHaModeActive)).
  { unfold maf_coremw_haModeAssumed_event. sat_step. eapply load_event_sat; [done|]. sat_step.
    eapply sat_mono; [by apply outcome_of_post|]. intros resp c' [-> ->].
    rewrite (bool_decide_true (MafOk = MafOk)) by done. rewrite (bool_decide_true (SA_AIS_OK = SA_AIS_OK)) by done.
    do 3 sat_step. unfold start_ntf_thread. do 2 sat_step. cbn. rewrite bool_decide_true by done. do 2 sat_step.
    match goal with |- sat (if negb ?b then _ else _) _ _ => destruct b end; cbn [negb].
    - do 2 sat_step. match goal with H : _ = ?x |- context [?x =? 0] => rewrite (proj2 (Z.eqb_neq x 0)) by (rewrite <- H; apply Hth) end.
      cbn [negb]. do 3 sat_step. cbn [when]. sat_step. split_and!; [|done|done]. eexists. rewrite <- !app_assoc. by split_and!.
    - sat_step. cbn [when]. sat_step. split_and!; [|done|done]. eexists. by split_and!. }
  eapply sat_mono; [exact Hev|]. intros _ [s1 tr1]; cbn [fst snd]; intros (Hs & He & Hha).
  sat_step. eapply load_event_sat; [by rewrite He|]. unfold free_event. do 2 sat_step. eapply load_event_sat; [by rewrite He|].
  do 2 sat_step. split; [exact Hs|]. split; [done|]. apply lookup_delete_eq.
Qed.

Lemma haModeAssumed_not_answered_witness :
  sat (handle_event (amf_env MafOk 11) 3) (waiting, []) (fun _ c' => answers c'.2 = [] /\ evs c'.1 !! 3%nat = None).
Proof.
  eapply sat_mono; [apply (haModeAssumed_not_answered (amf_env MafOk 11) 3 waiting [] confirmed); done|].
  intros _ c' ((d & -> & Ha & _) & _ & Hp). split; [exact Ha|exact Hp].
Defined.
