(* ===== verification/LogConfig.v ===== *)
(** * The configuration of the log files ([log/ComSALogService.c])

    The text side of the log service: the option lines of the file
    [<com|lm>_sa_log.cfg] ([parseSaLogConfig] and the four parsers it calls), the
    defaults of [loadSaLogConfig], [trimWhiteSpace] and [hasWhiteSpace].

    A C string is the list of its characters up to the terminator.  A local
    array keeps its size: [None] is a write outside of it. *)
From Stdlib Require Import ZArith Lia Ascii.
From stdpp Require Import base gmap list strings.
From S2P Require Import Prelude.

#[local] Open Scope string_scope.
#[local] Open Scope list_scope.
#[local] Open Scope Z_scope.

Abbreviation cstr := (list ascii).
Abbreviation lit := String.list_ascii_of_string.

Definition tab : ascii := "009".
Definition newline : ascii := "010".
Definition isdigit (c : ascii) : bool := (48 <=? Z.of_N (N_of_ascii c)) && (Z.of_N (N_of_ascii c) <=? 57).
Definition digit (c : ascii) : Z := Z.of_N (N_of_ascii c) - 48.

(** [strncmp(cmp, text, strlen(cmp)) == 0] *)
Fixpoint strncmp_eq (cmp text : cstr) : bool :=
  match cmp, text with
  | [], _ => true
  | c :: cmp', d :: text' => Ascii.eqb c d && strncmp_eq cmp' text'
  | _ :: _, [] => false
  end.

(** [strtoull(s, NULL, 0)] of a string of digits: a leading [0] selects base
    eight, and an overflow gives [ULLONG_MAX]. *)
Fixpoint digits_value (base acc : Z) (s : cstr) : Z :=
  match s with
  | [] => acc
  | c :: s' => if isdigit c && (digit c <? base) then digits_value base (acc * base + digit c) s' else acc
  end.
Definition strtoull (s : cstr) : Z :=
  let base := match s with c :: _ => if digit c =? 0 then 8 else 10 | [] => 10 end in
  Z.min (digits_value base 0 s) (2 ^ 64 - 1).

(** ** The attributes of the log files *)
Inductive SaLogFileFullActionT :=
| SA_LOG_FILE_FULL_ACTION_WRAP | SA_LOG_FILE_FULL_ACTION_HALT | SA_LOG_FILE_FULL_ACTION_ROTATE.

Record SaLogFileCreateAttributesT_2 := MkAttrs {
  logFileName : cstr;
  logFilePathName : cstr;
  maxLogFileSize : Z;          (** [SaUint64T] *)
  maxLogRecordSize : Z;        (** [SaUint32T] *)
  haProperty : bool;
  logFileFullAction : SaLogFileFullActionT;
  maxFilesRotated : Z;         (** [SaUint16T] *)
  logFileFmt : cstr
}.
Definition at_name v a := MkAttrs v (logFilePathName a) (maxLogFileSize a) (maxLogRecordSize a) (haProperty a) (logFileFullAction a) (maxFilesRotated a) (logFileFmt a).
Definition at_size v a := MkAttrs (logFileName a) (logFilePathName a) (wrap_u 64 v) (maxLogRecordSize a) (haProperty a) (logFileFullAction a) (maxFilesRotated a) (logFileFmt a).
Definition at_record v a := MkAttrs (logFileName a) (logFilePathName a) (maxLogFileSize a) (wrap_u 32 v) (haProperty a) (logFileFullAction a) (maxFilesRotated a) (logFileFmt a).
Definition at_rotated v a := MkAttrs (logFileName a) (logFilePathName a) (maxLogFileSize a) (maxLogRecordSize a) (haProperty a) (logFileFullAction a) (wrap_u 16 v) (logFileFmt a).

(** [alarmLogFileAttributes], [alertLogFileAttributes], [cmdLogFileAttributes] *)
Record FileAttributes := MkFileAttributes {
  alarmLogFileAttributes : SaLogFileCreateAttributesT_2;
  alertLogFileAttributes : SaLogFileCreateAttributesT_2;
  cmdLogFileAttributes : SaLogFileCreateAttributesT_2
}.

(** The chain of [strcmp(type, ...)]. *)
Definition for_type (type : string) (f : SaLogFileCreateAttributesT_2 -> SaLogFileCreateAttributesT_2)
    (a : FileAttributes) : FileAttributes :=
  if bool_decide (type = "alarm") then MkFileAttributes (f (alarmLogFileAttributes a)) (alertLogFileAttributes a) (cmdLogFileAttributes a)
  else if bool_decide (type = "alert") then MkFileAttributes (alarmLogFileAttributes a) (f (alertLogFileAttributes a)) (cmdLogFileAttributes a)
  else if bool_decide (type = "commandLog") then MkFileAttributes (alarmLogFileAttributes a) (alertLogFileAttributes a) (f (cmdLogFileAttributes a))
  else a.

(** ** The parsers *)
Definition maxLength : nat := 50.

(** [buffer[i] = c] at the end of what was written so far. *)
Definition push (buffer : cstr) (c : ascii) : option cstr :=
  if (length buffer <? maxLength)%nat then Some (buffer ++ [c]) else None.
Definition terminate (buffer : cstr) : option cstr :=
  if (length buffer <? maxLength)%nat then Some buffer else None.

(** The name is copied into a static array of the same size. *)
Fixpoint copy_all (buffer text : cstr) : option cstr :=
  match text with
  | [] => terminate buffer
  | c :: text' => b ← push buffer c; copy_all b text'
  end.

Definition parseLogFileName (cmpText : cstr) (type : string) (configText : cstr) (a : FileAttributes) : option FileAttributes :=
  if strncmp_eq cmpText configText then
    name ← copy_all [] (drop (length cmpText) configText);
    Some (for_type type (at_name name) a)
  else Some a.

(** The digits of a number; [Some None] when another character is met. *)
Fixpoint copy_digits (buffer text : cstr) : option (option cstr) :=
  match text with
  | [] => b ← terminate buffer; Some (Some b)
  | c :: text' => if isdigit c then b ← push buffer c; copy_digits b text' else Some None
  end.

(** What the three parsers of numbers share. *)
Definition parse_number (set : Z -> SaLogFileCreateAttributesT_2 -> SaLogFileCreateAttributesT_2)
    (cmpText : cstr) (type : string) (configText : cstr) (a : FileAttributes) : option FileAttributes :=
  if strncmp_eq cmpText configText then
    digits ← copy_digits [] (drop (length cmpText) configText);
    match digits with
    | Some buffer => Some (for_type type (set (strtoull buffer)) a)
    | None => Some a
    end
  else Some a.
Definition parseFilesRotated := parse_number at_rotated.
Definition parseFileSize := parse_number at_size.
Definition parseRecordSize := parse_number at_record.

(** Blanks and the line end are dropped. *)
Fixpoint copy_nonblank (buffer text : cstr) : option cstr :=
  match text with
  | [] => terminate buffer
  | c :: text' =>
      if negb (Ascii.eqb c " ") && negb (Ascii.eqb c newline)
      then b ← push buffer c; copy_nonblank b text'
      else copy_nonblank buffer text'
  end.

Definition AlarmLogFileName := lit "AlarmLogFileName=".
Definition AlertLogFileName := lit "AlertLogFileName=".
Definition CmdLogFileName := lit "CommandLogFileName=".
Definition AlarmFilesRotated := lit "AlarmFilesRotated=".
Definition AlertFilesRotated := lit "AlertFilesRotated=".
Definition CmdFilesRotated := lit "CommandFilesRotated=".
Definition AlarmMaxLogFileSize := lit "AlarmMaxLogFileSize=".
Definition AlertMaxLogFileSize := lit "AlertMaxLogFileSize=".
Definition CmdMaxLogFileSize := lit "CommandMaxLogFileSize=".
Definition AlarmMaxLogRecordSize := lit "AlarmMaxLogRecordSize=".
Definition AlertMaxLogRecordSize := lit "AlertMaxLogRecordSize=".
Definition CmdMaxLogRecordSize := lit "CommandMaxLogRecordSize=".

Definition parseSaLogConfig (configText : cstr) (a : FileAttributes) : option FileAttributes :=
  if (length configText <=? maxLength)%nat then
    buffer ← copy_nonblank [] configText;
    a ← parseLogFileName AlarmLogFileName "alarm" buffer a;
    a ← parseLogFileName AlertLogFileName "alert" buffer a;
    a ← parseLogFileName CmdLogFileName "commandLog" buffer a;
    a ← parseFilesRotated AlarmFilesRotated "alarm" buffer a;
    a ← parseFilesRotated AlertFilesRotated "alert" buffer a;
    a ← parseFilesRotated CmdFilesRotated "commandLog" buffer a;
    a ← parseFileSize AlarmMaxLogFileSize "alarm" buffer a;
    a ← parseFileSize AlertMaxLogFileSize "alert" buffer a;
    a ← parseFileSize CmdMaxLogFileSize "commandLog" buffer a;
    a ← parseRecordSize AlarmMaxLogRecordSize "alarm" buffer a;
    a ← parseRecordSize AlertMaxLogRecordSize "alert" buffer a;
    parseRecordSize CmdMaxLogRecordSize "commandLog" buffer a
  else Some a.

(** The lines that [fgets] delivers, one after the other. *)
Fixpoint parse_lines (lines : list cstr) (a : FileAttributes) : option FileAttributes :=
  match lines with
  | [] => Some a
  | l :: lines => a ← parseSaLogConfig l a; parse_lines lines a
  end.

(** The values that [loadSaLogConfig] starts from. *)
Definition default_alarm_attributes :=
  MkAttrs (lit "FmAlarmLog") (lit "FaultManagementLog/alarm") 500000 1024 true SA_LOG_FILE_FULL_ACTION_ROTATE 11 (lit "@Cb").
Definition default_alert_attributes :=
  MkAttrs (lit "FmAlertLog") (lit "FaultManagementLog/alert") 500000 1024 true SA_LOG_FILE_FULL_ACTION_ROTATE 11 (lit "@Cb").
Definition default_cmd_attributes :=
  MkAttrs (lit "ComCliCommandLog") (lit "COM") 5000000 0 true SA_LOG_FILE_FULL_ACTION_ROTATE 11 (lit "@Cb").
Definition default_attributes := MkFileAttributes default_alarm_attributes default_alert_attributes default_cmd_attributes.

(** ** White space *)
Definition TRUE : Z := -1.
Definition FALSE : Z := 0.

Definition hasWhiteSpace (str : option cstr) : Z :=
  match str with
  | None => FALSE
  | Some s => if existsb (fun c => Ascii.eqb c " " || Ascii.eqb c tab) s then TRUE else FALSE
  end.

Definition is_white (c : ascii) : bool := Ascii.eqb c " " || Ascii.eqb c tab || Ascii.eqb c newline.
Definition white_at (s : cstr) (pos : nat) : bool := default false (is_white <$> s !! pos).

(** The two scans of [trimWhiteSpace]: forward from [pos] for at most [n]
    characters, and backward from [pos] down to [0]. *)
Fixpoint first_letter (s : cstr) (pos n : nat) : nat :=
  match n with
  | O => pos
  | S n' => if white_at s pos then first_letter s (S pos) n' else pos
  end.
Fixpoint last_letter (s : cstr) (pos : nat) : nat :=
  match pos with
  | O => O
  | S pos' => if white_at s pos then last_letter s pos' else pos
  end.

(** The result and the string left in the array; writing a terminator at [k]
    is [take k], and the [memmove] is [drop pos]. *)
Definition trimWhiteSpace (str : option cstr) : Z * option cstr :=
  match str with
  | None => (FALSE, None)
  | Some s =>
      if (length s =? 0)%nat then (TRUE, Some s)
      else
        let pos := first_letter s 0 (length s) in
        if (pos =? length s)%nat then (TRUE, Some (take 0 s))
        else
          let s := if (pos =? 0)%nat then s else drop pos s in
          let pos := last_letter s (length s - 1) in
          if (pos =? length s - 1)%nat then (TRUE, Some s)
          else if (pos =? 0)%nat then
            (TRUE, Some (if negb (white_at s pos) then take (pos + 1) s else take pos s))
          else (TRUE, Some (take (pos + 1) s))
  end.

Example trim_example : trimWhiteSpace (Some (lit "  /a b  ")) = (TRUE, Some (lit "/a b")).
Proof. reflexivity. Qed.
Example parse_example : parseSaLogConfig (lit "Alert FilesRotated = 12") default_attributes
  = Some (for_type "alert" (at_rotated 12) default_attributes).
Proof. reflexivity. Qed.
Example parse_octal : parseSaLogConfig (lit "CommandMaxLogFileSize=010") default_attributes
  = Some (for_type "commandLog" (at_size 8) default_attributes).
Proof. reflexivity. Qed.
