(* ===== verification/LogConfigProps.v ===== *)
(** * Properties of the log configuration

    The option lines print and parse back, the parser faults on exactly one
    kind of line, and [trimWhiteSpace] is trimming. *)
From Stdlib Require Import ZArith Lia Ascii.
From stdpp Require Import base gmap list strings pretty.
From S2P Require Import Prelude LogConfig.

#[local] Open Scope string_scope.
#[local] Open Scope list_scope.
#[local] Open Scope Z_scope.

(** ** The copies into the fixed buffers *)
Definition nonblank (c : ascii) : bool := negb (Ascii.eqb c " ") && negb (Ascii.eqb c newline).

Lemma terminate_some b : (length b < maxLength)%nat -> terminate b = Some b.
Proof. intros. unfold terminate. by rewrite (proj2 (Nat.ltb_lt _ _)). Qed.
Lemma push_some b c : (length b < maxLength)%nat -> push b c = Some (b ++ [c]).
Proof. intros. unfold push. by rewrite (proj2 (Nat.ltb_lt _ _)). Qed.
Lemma push_none b c : (maxLength <= length b)%nat -> push b c = None.
Proof. intros. unfold push. by rewrite (proj2 (Nat.ltb_ge _ _)). Qed.

Lemma copy_nonblank_spec b t :
  copy_nonblank b t = terminate (b ++ List.filter nonblank t).
Proof.
  revert b. induction t as [|c t IH]; intros b; simpl; [by rewrite app_nil_r|].
  change (negb _ && negb _) with (nonblank c). destruct (nonblank c); [|apply IH].
  destruct (decide (length b < maxLength)%nat) as [Hb|Hb].
  - rewrite push_some by done. cbn. rewrite IH. by rewrite <- app_assoc.
  - rewrite push_none by lia. cbn. unfold terminate. rewrite (proj2 (Nat.ltb_ge _ _)); [done|].
    rewrite length_app. lia.
Qed.

Lemma copy_all_some b t : (length (b ++ t) < maxLength)%nat -> copy_all b t = Some (b ++ t).
Proof.
  revert b. induction t as [|c t IH]; intros b; rewrite length_app; simpl; intros H.
  - rewrite app_nil_r. apply terminate_some. lia.
  - rewrite push_some by lia. cbn. rewrite IH; rewrite <- app_assoc; [done|]. rewrite length_app. done.
Qed.

Lemma copy_digits_some b t : (length (b ++ t) < maxLength)%nat ->
  copy_digits b t = Some (if forallb isdigit t then Some (b ++ t) else None).
Proof.
  revert b. induction t as [|c t IH]; intros b; rewrite length_app; simpl; intros H.
  - rewrite terminate_some by lia. cbn. by rewrite app_nil_r.
  - destruct (isdigit c); [|done]. rewrite push_some by lia. cbn.
    rewrite IH; rewrite <- app_assoc; [done|]. rewrite length_app. done.
Qed.

(** ** The parsers on a line that fits *)
Lemma parse_number_some set key type t a : (length t < maxLength)%nat ->
  parse_number set key type t a =
  Some (if strncmp_eq key t && forallb isdigit (drop (length key) t)
        then for_type type (set (strtoull (drop (length key) t))) a else a).
Proof.
  intros H. unfold parse_number. destruct (strncmp_eq key t); [|done].
  rewrite copy_digits_some by (simpl; rewrite length_drop; lia). cbn. by destruct (forallb _ _).
Qed.

Lemma parseLogFileName_some key type t a : (length t < maxLength)%nat ->
  parseLogFileName key type t a =
  Some (if strncmp_eq key t then for_type type (at_name (drop (length key) t)) a else a).
Proof.
  intros H. unfold parseLogFileName. destruct (strncmp_eq key t); [|done].
  by rewrite copy_all_some by (simpl; rewrite length_drop; lia).
Qed.

(** The line without its blanks. *)
Definition squeeze (t : cstr) : cstr := List.filter nonblank t.

Lemma squeeze_length t : (length (squeeze t) <= length t)%nat.
Proof. unfold squeeze. induction t as [|c t IH]; simpl; [done|]. destruct (nonblank c); simpl; lia. Qed.

Lemma squeeze_full t : length (squeeze t) = length t <-> Forall (fun c => nonblank c = true) t.
Proof.
  unfold squeeze. induction t as [|c t IH]; simpl; [by split|]. rewrite Forall_cons.
  pose proof (squeeze_length t) as Hl. unfold squeeze in Hl.
  destruct (nonblank c); simpl.
  - rewrite <- IH. split; [intros; split; [done|lia]|intros [_ ?]; lia].
  - split; [lia|intros [? _]; done].
Qed.

Ltac run_parsers :=
  repeat first [rewrite parseLogFileName_some by done | rewrite parse_number_some by done]; cbn [mbind option_bind].

(** The parsers never fault on a squeezed line that fits in the buffer. *)
Lemma parseSaLogConfig_some t a : (length t <= maxLength)%nat -> (length (squeeze t) < maxLength)%nat ->
  exists a', parseSaLogConfig t a = Some a'.
Proof.
  intros Hl H. unfold parseSaLogConfig. rewrite (proj2 (Nat.leb_le _ _)) by done.
  rewrite copy_nonblank_spec. simpl app. fold (squeeze t). rewrite terminate_some by done. cbn [mbind option_bind].
  unfold parseFilesRotated, parseFileSize, parseRecordSize.
  repeat (first [rewrite parseLogFileName_some by done | rewrite parse_number_some by done]; cbn [mbind option_bind]).
  eauto.
Qed.

(** [parseSaLogConfig] stays inside its 50-character buffers on every line
    but one kind: a line of exactly fifty characters none of which is a blank
    writes its terminator one past the end of the array (the guard is
    [strlen <= maxLength], the array has [maxLength] elements). *)
Theorem parseSaLogConfig_overrun t a :
  parseSaLogConfig t a = None <-> length t = maxLength /\ Forall (fun c => nonblank c = true) t.
Proof.
  rewrite <- squeeze_full. pose proof (squeeze_length t) as Hl.
  destruct (decide (length t <= maxLength)%nat) as [Hle|Hgt].
  - destruct (decide (length (squeeze t) < maxLength)%nat) as [Hlt|Hge].
    + destruct (parseSaLogConfig_some t a Hle Hlt) as [a' ->]. split; [done|intros [? ?]; lia].
    + split; [intros _; lia|intros _]. unfold parseSaLogConfig. rewrite (proj2 (Nat.leb_le _ _)) by done.
      rewrite copy_nonblank_spec. simpl app. fold (squeeze t). unfold terminate.
      by rewrite (proj2 (Nat.ltb_ge _ _)) by lia.
  - unfold parseSaLogConfig. rewrite (proj2 (Nat.leb_gt _ _)) by lia. split; [done|lia].
Qed.

(** ** Decimal numbers *)
Lemma digit_of x : (x < 10)%N ->
  isdigit (pretty_N_char x) = true /\ digit (pretty_N_char x) = Z.of_N x.
Proof.
  intros H.
  assert (x = 0 \/ x = 1 \/ x = 2 \/ x = 3 \/ x = 4 \/ x = 5 \/ x = 6 \/ x = 7 \/ x = 8 \/ x = 9)%N as Hx by lia.
  by repeat destruct Hx as [->|Hx]; [..|subst].
Qed.

(** The characters that [pretty_N_go] puts in front of [s]. *)
Lemma pretty_go x s : exists ds, lit (pretty_N_go x s) = ds ++ lit s /\
  Forall (fun c => isdigit c = true) ds /\
  (forall acc rest, digits_value 10 acc (ds ++ rest) = digits_value 10 (acc * 10 ^ Z.of_nat (length ds) + Z.of_N x) rest) /\
  ((0 < x)%N -> exists c ds', ds = c :: ds' /\ 0 < digit c) /\
  (forall k, Z.of_N x < 10 ^ Z.of_nat k -> (length ds <= k)%nat).
Proof.
  revert s. induction (N.lt_wf_0 x) as [x _ IH]. intros s.
  destruct (decide (x = 0)%N) as [->|Hx].
  - exists []. rewrite pretty_N_go_0. split_and!; [done|constructor| |lia|intros; simpl; lia].
    intros acc rest. simpl. f_equal. lia.
  - rewrite pretty_N_go_step by lia.
    destruct (IH (x `div` 10)%N ltac:(apply N.div_lt; lia) (String (pretty_N_char (x `mod` 10)) s))
      as (ds & Hs & Hall & Hval & Hhd & Hlen).
    destruct (digit_of (x `mod` 10)%N) as [Hd1 Hd2]; [by apply N.mod_lt|].
    pose proof (N.div_mod x 10 ltac:(done)) as Hdm.
    exists (ds ++ [pretty_N_char (x `mod` 10)]). split_and!.
    + rewrite Hs. simpl. by rewrite <- app_assoc.
    + apply Forall_app. split; [done|]. by constructor.
    + intros acc rest. rewrite <- app_assoc, Hval. simpl. rewrite Hd1, Hd2.
      rewrite (proj2 (Z.ltb_lt _ _)) by (pose proof (N.mod_lt x 10 ltac:(done)); lia). simpl.
      f_equal. rewrite length_app. simpl. rewrite Nat2Z.inj_add, Z.pow_add_r by lia.
      assert (Z.of_N x = 10 * Z.of_N (x `div` 10) + Z.of_N (x `mod` 10)) by lia. lia.
    + intros _. destruct (decide (x `div` 10 = 0)%N) as [H0|H0].
      * destruct ds as [|c ds']; simpl.
        -- eexists _, []. split; [done|]. rewrite Hd2. lia.
        -- exfalso. specialize (Hlen 0%nat ltac:(lia)). simpl in Hlen. lia.
      * destruct (Hhd (proj1 (N.neq_0_lt_0 _) H0)) as (c & ds' & -> & ?). eexists _, _. split; [by rewrite <- app_comm_cons|done].
    + intros [|k] Hk; [simpl in Hk; lia|]. rewrite length_app. simpl.
      assert (length ds <= k)%nat; [|lia]. apply Hlen.
      rewrite Nat2Z.inj_succ, Z.pow_succ_r in Hk by lia. clear - Hdm Hk. set (y := N.div x 10) in *. set (r := N.modulo x 10) in *. clearbody y r. lia.
Qed.

(** The printed form of [n], as [strtoull] reads it. *)
Definition print (n : Z) : cstr := lit (pretty (Z.to_N n)).

Lemma print_spec n : 0 <= n < 2 ^ 64 ->
  Forall (fun c => isdigit c = true) (print n) /\ strtoull (print n) = n /\ (length (print n) <= 20)%nat.
Proof.
  intros Hn. unfold print, pretty, pretty_N. case_decide as H0.
  - replace n with 0 by lia. split_and!; [by repeat constructor|done|simpl; lia].
  - destruct (pretty_go (Z.to_N n) "") as (ds & Hs & Hall & Hval & Hhd & Hlen).
    rewrite Hs. change (lit "") with (@nil ascii). rewrite app_nil_r. split; [done|].
    destruct (Hhd ltac:(lia)) as (c & ds' & He & Hc). specialize (Hval 0 []). rewrite app_nil_r in Hval.
    split; [|apply Hlen; rewrite Z2N.id by lia; simpl; lia].
    assert (Hb : (if digit c =? 0 then 8 else 10) = 10) by (by rewrite (proj2 (Z.eqb_neq _ _)) by lia).
    unfold strtoull. rewrite He at 1. rewrite Hb, Hval. simpl. rewrite Z2N.id by lia. lia.
Qed.

(** ** The numeric options *)
Inductive log_kind := KAlarm | KAlert | KCmd.
Inductive num_field := FRotated | FSize | FRecord.
#[export] Instance log_kind_eq_dec : EqDecision log_kind.
Proof. solve_decision. Defined.
#[export] Instance num_field_eq_dec : EqDecision num_field.
Proof. solve_decision. Defined.

Definition option_key (k : log_kind) (f : num_field) : cstr :=
  match f, k with
  | FRotated, KAlarm => AlarmFilesRotated | FRotated, KAlert => AlertFilesRotated | FRotated, KCmd => CmdFilesRotated
  | FSize, KAlarm => AlarmMaxLogFileSize | FSize, KAlert => AlertMaxLogFileSize | FSize, KCmd => CmdMaxLogFileSize
  | FRecord, KAlarm => AlarmMaxLogRecordSize | FRecord, KAlert => AlertMaxLogRecordSize | FRecord, KCmd => CmdMaxLogRecordSize
  end.
Definition width (f : num_field) : Z := match f with FRotated => 16 | FSize => 64 | FRecord => 32 end.
Definition kind_attributes (k : log_kind) (a : FileAttributes) : SaLogFileCreateAttributesT_2 :=
  match k with
  | KAlarm => alarmLogFileAttributes a | KAlert => alertLogFileAttributes a | KCmd => cmdLogFileAttributes a
  end.
Definition field_value (f : num_field) (a : SaLogFileCreateAttributesT_2) : Z :=
  match f with FRotated => maxFilesRotated a | FSize => maxLogFileSize a | FRecord => maxLogRecordSize a end.
Definition kind_type (k : log_kind) : string :=
  match k with KAlarm => "alarm" | KAlert => "alert" | KCmd => "commandLog" end.
Definition set_field (f : num_field) : Z -> SaLogFileCreateAttributesT_2 -> SaLogFileCreateAttributesT_2 :=
  match f with FRotated => at_rotated | FSize => at_size | FRecord => at_record end.

Lemma squeeze_digits d : Forall (fun c => isdigit c = true) d -> squeeze d = d.
Proof.
  unfold squeeze. induction 1 as [|c d Hc _ IH]; simpl; [done|].
  assert (nonblank c = true) as ->; [|by rewrite IH].
  unfold nonblank, isdigit in *. apply andb_true_iff in Hc as [H1%Z.leb_le _].
  destruct (Ascii.eqb_spec c " ") as [->|]; [by exfalso; apply H1|].
  destruct (Ascii.eqb_spec c newline) as [->|]; [by exfalso; apply H1|]. done.
Qed.

Lemma squeeze_line k f d : Forall (fun c => isdigit c = true) d ->
  squeeze (option_key k f ++ d ++ [newline]) = option_key k f ++ d.
Proof.
  intros Hd. unfold squeeze at 1. rewrite !List.filter_app. fold (squeeze d). rewrite (squeeze_digits d Hd).
  change (List.filter nonblank [newline]) with (@nil ascii). rewrite app_nil_r. f_equal. by destruct k, f.
Qed.

Lemma drop_key (k d : cstr) : drop (length k) (k ++ d) = d.
Proof. by rewrite drop_app_length. Qed.

(** Of the twelve options only the one whose key starts the line takes effect. *)
Lemma parse_line k f d a : Forall (fun c => isdigit c = true) d -> (length d <= 20)%nat ->
  parseSaLogConfig (option_key k f ++ d ++ [newline]) a = Some (for_type (kind_type k) (set_field f (strtoull d)) a).
Proof.
  intros Hd Hlen. assert (Hk : (length (option_key k f) <= 25)%nat) by (destruct k, f; vm_compute; lia).
  assert (Hl : (length (option_key k f ++ d) < maxLength)%nat) by (rewrite length_app; unfold maxLength; lia).
  unfold parseSaLogConfig. rewrite (proj2 (Nat.leb_le _ _)).
  2:{ rewrite app_assoc, length_app. simpl. lia. }
  rewrite copy_nonblank_spec. simpl app at 1. fold (squeeze (option_key k f ++ d ++ [newline])).
  rewrite squeeze_line, terminate_some by done. cbn [mbind option_bind].
  assert (Hf : forallb isdigit d = true) by (clear - Hd; induction Hd as [|c d Hc _ IH]; simpl; [done|by rewrite Hc]).

  unfold parseFilesRotated, parseFileSize, parseRecordSize.
  repeat (first [rewrite parseLogFileName_some by done | rewrite parse_number_some by done]; cbn [mbind option_bind]).
  destruct k, f; cbn -[strtoull for_type isdigit forallb]; change (drop 0 d) with d; rewrite Hf; done.
Qed.

(** The numeric options of the configuration file round trip: the line that
    gives an option a value in the range of its field, printed in decimal, sets
    that field of that log to the value and leaves every other attribute. *)
Theorem option_roundtrip k f n a : 0 <= n < 2 ^ width f ->
  exists a', parseSaLogConfig (option_key k f ++ print n ++ [newline]) a = Some a' /\
    field_value f (kind_attributes k a') = n /\
    (forall f', f' <> f -> field_value f' (kind_attributes k a') = field_value f' (kind_attributes k a)) /\
    (forall k', k' <> k -> kind_attributes k' a' = kind_attributes k' a) /\
    logFileName (kind_attributes k a') = logFileName (kind_attributes k a).
Proof.
  intros Hn. assert (Hw : n < 2 ^ 64).
  { eapply Z.lt_le_trans; [apply Hn|]. apply Z.pow_le_mono_r; [lia|]. by destruct f. }
  destruct (print_spec n ltac:(lia)) as (Hd & Hv & Hl).
  eexists. split; [by apply parse_line|]. rewrite Hv.
  assert (Hm : n mod 2 ^ width f = n) by (by apply Z.mod_small).
  split_and!; [destruct k, f; exact Hm|intros []; destruct k, f; done|intros []; destruct k; done|by destruct k, f].
Qed.

Example option_roundtrip_witness : exists a',
  parseSaLogConfig (lit "CommandMaxLogRecordSize=1024" ++ [newline]) default_attributes = Some a' /\
  field_value FRecord (kind_attributes KCmd a') = 1024 /\
  (forall f', f' <> FRecord -> field_value f' (kind_attributes KCmd a') = field_value f' default_cmd_attributes) /\
  (forall k', k' <> KCmd -> kind_attributes k' a' = kind_attributes k' default_attributes) /\
  logFileName (kind_attributes KCmd a') = lit "ComCliCommandLog".
Proof. exact (option_roundtrip KCmd FRecord 1024 default_attributes ltac:(simpl; lia)). Defined.

(** ** Trimming *)
Lemma white_at_some s i : white_at s i = true <-> exists c, s !! i = Some c /\ is_white c = true.
Proof. unfold white_at. destruct (s !! i); simpl; [naive_solver|]. split; [done|naive_solver]. Qed.

Lemma first_letter_spec s pos n : (pos + n <= length s)%nat ->
  let p := first_letter s pos n in
  (pos <= p <= pos + n)%nat /\ (forall i, (pos <= i < p)%nat -> white_at s i = true) /\
  ((p < pos + n)%nat -> white_at s p = false).
Proof.
  revert pos. induction n as [|n IH]; intros pos H; simpl; [split; [|split]; intros; lia|].
  destruct (white_at s pos) eqn:E; [|split; [lia|split; [intros; lia|done]]].
  destruct (IH (S pos)) as (H1 & H2 & H3); [lia|]. split; [lia|]. split; [|intros; apply H3; lia].
  intros i Hi. destruct (decide (i = pos)) as [->|]; [done|]. apply H2. lia.
Qed.

Lemma last_letter_spec s pos :
  let q := last_letter s pos in
  (q <= pos)%nat /\ (forall i, (q < i <= pos)%nat -> white_at s i = true) /\ (q = 0%nat \/ white_at s q = false).
Proof.
  induction pos as [|pos IH]; simpl; [split; [lia|split; [intros; lia|by left]]|].
  destruct (white_at s (S pos)) eqn:E; [|split; [lia|split; [intros; lia|by right]]].
  destruct IH as (H1 & H2 & H3). split; [lia|]. split; [|done].
  intros i Hi. destruct (decide (i = S pos)) as [->|]; [done|]. apply H2. lia.
Qed.

Lemma white_forall s : (forall i, (i < length s)%nat -> white_at s i = true) -> Forall (fun c => is_white c = true) s.
Proof.
  intros H. apply Forall_lookup. intros i c Hc.
  destruct (proj1 (white_at_some s i)) as (d & Hd & ?); [apply H; by eapply lookup_lt_Some|]. congruence.
Qed.

(** [t] is [s] without its white ends. *)
Definition trimmed (s t : cstr) : Prop :=
  (exists pre suf, s = pre ++ t ++ suf /\ Forall (fun c => is_white c = true) pre /\
     Forall (fun c => is_white c = true) suf) /\
  (forall c, head t = Some c -> is_white c = false) /\ (forall c, last t = Some c -> is_white c = false).

Lemma not_white s i c : white_at s i = false -> s !! i = Some c -> is_white c = false.
Proof. unfold white_at. by intros H Hc; rewrite Hc in H. Qed.

Lemma white_at_drop s n i : white_at (drop n s) i = white_at s (n + i)%nat.
Proof. unfold white_at. by rewrite lookup_drop. Qed.

(** The second half of [trimWhiteSpace], on a string that starts with a letter. *)
Lemma trim_tail s : (0 < length s)%nat -> white_at s 0 = false ->
  let q := last_letter s (length s - 1) in
  trimmed s (take (q + 1) s) /\ white_at s q = false.
Proof.
  intros Hs H0 q. destruct (last_letter_spec s (length s - 1)) as (Hq1 & Hq2 & Hq3). fold q in Hq1, Hq2, Hq3.
  assert (Hq : white_at s q = false) by (destruct Hq3 as [->|]; done). split; [|done].
  split; [|split].
  - exists [], (drop (q + 1) s). split; [simpl; by rewrite take_drop|]. split; [constructor|].
    apply white_forall. intros i. rewrite length_drop, white_at_drop. intros Hi. apply Hq2. lia.
  - intros c. rewrite head_lookup, lookup_take_lt by lia. by apply not_white.
  - intros c. rewrite last_lookup, length_take. replace (pred ((q + 1) `min` length s)) with q by lia.
    rewrite lookup_take_lt by lia. by apply not_white.
Qed.

(** [trimWhiteSpace] succeeds on every string and leaves exactly its white
    ends out: the string is the result between two runs of blanks, tabs and
    line ends, and the result neither starts nor ends with one. *)
Theorem trimWhiteSpace_trims s : exists t, trimWhiteSpace (Some s) = (TRUE, Some t) /\ trimmed s t.
Proof.
  unfold trimWhiteSpace. destruct (Nat.eqb_spec (length s) 0) as [H|Hl].
  { exists s. split; [done|]. destruct s; [|done]. split; [by exists [], []|]. by split. }
  destruct (first_letter_spec s 0 (length s)) as (Hp1 & Hp2 & Hp3); [lia|].
  set (p := first_letter s 0 (length s)) in *. destruct (Nat.eqb_spec p (length s)) as [He|Hne].
  { exists []. split; [done|]. split; [|by split]. exists s, []. rewrite app_nil_r. split; [done|].
    split; [|constructor]. apply white_forall. intros i Hi. apply Hp2. lia. }
  assert (Hs' : (if (p =? 0)%nat then s else drop p s) = drop p s) by (destruct (Nat.eqb_spec p 0) as [->|]; done).
  rewrite Hs'. assert (Hd : (0 < length (drop p s))%nat) by (rewrite length_drop; lia).
  destruct (trim_tail (drop p s) Hd) as [Ht Hq].
  { rewrite white_at_drop, Nat.add_0_r. apply Hp3. lia. }
  set (s' := drop p s) in *. set (q := last_letter s' (length s' - 1)) in *.
  exists (take (q + 1) s'). split.
  - destruct (Nat.eqb_spec q (length s' - 1)) as [->|]; [by rewrite take_ge by lia|].
    rewrite Hq. by destruct (q =? 0)%nat.
  - destruct Ht as ((pre & suf & Ha & Hpre & Hsuf) & Hh & Hlast). split; [|done].
    exists (take p s ++ pre), suf. split; [|split; [|done]].
    + rewrite <- app_assoc, <- Ha. unfold s'. by rewrite take_drop.
    + apply Forall_app. split; [|done]. apply white_forall. intros i. rewrite length_take. intros Hi.
      unfold white_at. rewrite lookup_take_lt by lia. apply Hp2. lia.
Qed.
