(* ===== verification/LogService.v ===== *)
(** * The log service ([log/ComSALogService.c])

    Five log streams of OpenSAF (system, alarm, alert, command, security), each
    opened by a thread of its own, written through [logWrite], filtered by
    severity, and closed with bounded retries.

    The file has the state, the external calls and the operations.  Internal
    tracing ([DEBUG_...], [WARN_...]) and the syslog lines that only report a
    failed thread are left out; syslog lines that are the function of an operation are
    kept.  The poll table of [comSASThandle_ntf] is any implementation of
    [PollOps]. *)
From Stdlib Require Import ZArith Lia Ascii.
From stdpp Require Import base gmap list strings.
From S2P Require Import Prelude SelectTimer PollTable Codes LogConfig.

#[local] Open Scope string_scope.
#[local] Open Scope list_scope.
#[local] Open Scope Z_scope.

(** ** Severities and facilities ([incl/SA_Defines.h]) *)
Definition MW_SA_LOG_SEV_EMERGENCY : Z := 0.
Definition MW_SA_LOG_SEV_ALERT : Z := 1.
Definition MW_SA_LOG_SEV_CRITICAL : Z := 2.
Definition MW_SA_LOG_SEV_ERROR : Z := 3.
Definition MW_SA_LOG_SEV_WARNING : Z := 4.
Definition MW_SA_LOG_SEV_NOTICE : Z := 5.
Definition MW_SA_LOG_SEV_INFO : Z := 6.

Definition SEVERITY_FLAG (s : Z) : Z :=
  if s =? MW_SA_LOG_SEV_EMERGENCY then 1
  else if s =? MW_SA_LOG_SEV_ALERT then 2
  else if s =? MW_SA_LOG_SEV_CRITICAL then 4
  else if s =? MW_SA_LOG_SEV_ERROR then 8
  else if s =? MW_SA_LOG_SEV_WARNING then 16
  else if s =? MW_SA_LOG_SEV_NOTICE then 32
  else if s =? MW_SA_LOG_SEV_INFO then 64
  else 64.
Definition SYSLOG_LEVEL (s : Z) : Z := s.
Definition SEVERITY (s : Z) : Z := s.

Definition SA_LOG_SEV_FLAG_ALL : Z := 127.
Definition SALOG_SEV_FLAG_INFO_OFF : Z := 63.

Definition SECURITY_AUTHORIZATION_MESSAGE_1 : Z := 4.
Definition SECURITY_AUTHORIZATION_MESSAGE_2 : Z := 10.
Definition LOG_AUDIT_MESSAGE : Z := 13.
Definition LOG_AUDIT_MESSAGE_LOCAL1 : Z := 17.
Definition ALARM_LOG : Z := 100.
Definition ALERT_LOG : Z := 101.
Definition COMMAND_LOG : Z := 300.
Definition SECURITY_LOG : Z := 500.
Definition SALOGSYSTEM_LOG : Z := 502.

(** [syslog.h]: the constants of the facilities are already shifted. *)
Definition LOG_USER : Z := 8.
Definition LOG_WARNING : Z := 4.
Definition LOG_NOTICE : Z := 5.
Definition LOG_INFO : Z := 6.

(** ** State *)
(** The last two belong to the trace service. *)
Inductive StreamId := TheLog | AlarmLog | AlertLog | CmdLog | SecLog | CompCfgLog | CompSaCfgLog.
#[export] Instance StreamId_eq_dec : EqDecision StreamId.
Proof. solve_decision. Defined.

(** The variables that exist once per stream. *)
Record Stream := MkStream {
  LogHandle : Z;
  LogStreamHandle : Z;
  LogFileIsOpen : Z;
  LoggerName : string;
  SelectionObject : Z;
  OpenThreadId : Z;
  LogSevFlags : Z
}.
Definition s_handle v s := MkStream v (LogStreamHandle s) (LogFileIsOpen s) (LoggerName s) (SelectionObject s) (OpenThreadId s) (LogSevFlags s).
Definition s_stream v s := MkStream (LogHandle s) v (LogFileIsOpen s) (LoggerName s) (SelectionObject s) (OpenThreadId s) (LogSevFlags s).
Definition s_isopen v s := MkStream (LogHandle s) (LogStreamHandle s) v (LoggerName s) (SelectionObject s) (OpenThreadId s) (LogSevFlags s).
Definition s_name v s := MkStream (LogHandle s) (LogStreamHandle s) (LogFileIsOpen s) v (SelectionObject s) (OpenThreadId s) (LogSevFlags s).
Definition s_selobj v s := MkStream (LogHandle s) (LogStreamHandle s) (LogFileIsOpen s) (LoggerName s) v (OpenThreadId s) (LogSevFlags s).
Definition s_thread v s := MkStream (LogHandle s) (LogStreamHandle s) (LogFileIsOpen s) (LoggerName s) (SelectionObject s) v (LogSevFlags s).
Definition s_flags v s := MkStream (LogHandle s) (LogStreamHandle s) (LogFileIsOpen s) (LoggerName s) (SelectionObject s) (OpenThreadId s) v.

Record Streams := MkStreams {
  the_stream : Stream; alarm_stream : Stream; alert_stream : Stream; cmd_stream : Stream; sec_stream : Stream;
  compCfg_stream : Stream; compSaCfg_stream : Stream
}.
Definition get_stream (i : StreamId) (x : Streams) : Stream :=
  match i with
  | TheLog => the_stream x | AlarmLog => alarm_stream x | AlertLog => alert_stream x
  | CmdLog => cmd_stream x | SecLog => sec_stream x
  | CompCfgLog => compCfg_stream x | CompSaCfgLog => compSaCfg_stream x
  end.
Definition set_stream (i : StreamId) (s : Stream) (x : Streams) : Streams :=
  match i with
  | TheLog => MkStreams s (alarm_stream x) (alert_stream x) (cmd_stream x) (sec_stream x) (compCfg_stream x) (compSaCfg_stream x)
  | AlarmLog => MkStreams (the_stream x) s (alert_stream x) (cmd_stream x) (sec_stream x) (compCfg_stream x) (compSaCfg_stream x)
  | AlertLog => MkStreams (the_stream x) (alarm_stream x) s (cmd_stream x) (sec_stream x) (compCfg_stream x) (compSaCfg_stream x)
  | CmdLog => MkStreams (the_stream x) (alarm_stream x) (alert_stream x) s (sec_stream x) (compCfg_stream x) (compSaCfg_stream x)
  | SecLog => MkStreams (the_stream x) (alarm_stream x) (alert_stream x) (cmd_stream x) s (compCfg_stream x) (compSaCfg_stream x)
  | CompCfgLog => MkStreams (the_stream x) (alarm_stream x) (alert_stream x) (cmd_stream x) (sec_stream x) s (compSaCfg_stream x)
  | CompSaCfgLog => MkStreams (the_stream x) (alarm_stream x) (alert_stream x) (cmd_stream x) (sec_stream x) (compCfg_stream x) s
  end.

Record Log (PT : Type) := MkLog {
  strs : Streams;
  logMEnabled : bool;
  updateAlarmLogFileNameAttr : bool;
  updateAlertLogFileNameAttr : bool;
  updateCmdLogFileNameAttr : bool;
  cmdLogString : option string;
  IdentityString : option string;
  fileAttributes : FileAttributes;
  log_status : bool;
  alarm_status : bool;
  alert_status : bool;
  traceWrite : bool;
  trace_flag : Z;
  cc_name : string;
  polls : PT
}.
Arguments strs {PT} _.
Arguments logMEnabled {PT} _.
Arguments updateAlarmLogFileNameAttr {PT} _.
Arguments updateAlertLogFileNameAttr {PT} _.
Arguments updateCmdLogFileNameAttr {PT} _.
Arguments cmdLogString {PT} _.
Arguments IdentityString {PT} _.
Arguments fileAttributes {PT} _.
Arguments log_status {PT} _.
Arguments alarm_status {PT} _.
Arguments alert_status {PT} _.
Arguments traceWrite {PT} _.
Arguments trace_flag {PT} _.
Arguments cc_name {PT} _.
Arguments polls {PT} _.
Definition with_strs {PT} v (s : Log PT) : Log PT := MkLog _ v (logMEnabled s) (updateAlarmLogFileNameAttr s) (updateAlertLogFileNameAttr s) (updateCmdLogFileNameAttr s) (cmdLogString s) (IdentityString s) (fileAttributes s) (log_status s) (alarm_status s) (alert_status s) (traceWrite s) (trace_flag s) (cc_name s) (polls s).
Definition with_logM {PT} v (s : Log PT) : Log PT := MkLog _ (strs s) v (updateAlarmLogFileNameAttr s) (updateAlertLogFileNameAttr s) (updateCmdLogFileNameAttr s) (cmdLogString s) (IdentityString s) (fileAttributes s) (log_status s) (alarm_status s) (alert_status s) (traceWrite s) (trace_flag s) (cc_name s) (polls s).
Definition with_cmdString {PT} v (s : Log PT) : Log PT := MkLog _ (strs s) (logMEnabled s) (updateAlarmLogFileNameAttr s) (updateAlertLogFileNameAttr s) (updateCmdLogFileNameAttr s) v (IdentityString s) (fileAttributes s) (log_status s) (alarm_status s) (alert_status s) (traceWrite s) (trace_flag s) (cc_name s) (polls s).
Definition with_identity {PT} v (s : Log PT) : Log PT := MkLog _ (strs s) (logMEnabled s) (updateAlarmLogFileNameAttr s) (updateAlertLogFileNameAttr s) (updateCmdLogFileNameAttr s) (cmdLogString s) v (fileAttributes s) (log_status s) (alarm_status s) (alert_status s) (traceWrite s) (trace_flag s) (cc_name s) (polls s).
Definition with_attributes {PT} v (s : Log PT) : Log PT := MkLog _ (strs s) (logMEnabled s) (updateAlarmLogFileNameAttr s) (updateAlertLogFileNameAttr s) (updateCmdLogFileNameAttr s) (cmdLogString s) (IdentityString s) v (log_status s) (alarm_status s) (alert_status s) (traceWrite s) (trace_flag s) (cc_name s) (polls s).
Definition with_log_status {PT} v (s : Log PT) : Log PT := MkLog _ (strs s) (logMEnabled s) (updateAlarmLogFileNameAttr s) (updateAlertLogFileNameAttr s) (updateCmdLogFileNameAttr s) (cmdLogString s) (IdentityString s) (fileAttributes s) v (alarm_status s) (alert_status s) (traceWrite s) (trace_flag s) (cc_name s) (polls s).
Definition with_alarm_status {PT} v (s : Log PT) : Log PT := MkLog _ (strs s) (logMEnabled s) (updateAlarmLogFileNameAttr s) (updateAlertLogFileNameAttr s) (updateCmdLogFileNameAttr s) (cmdLogString s) (IdentityString s) (fileAttributes s) (log_status s) v (alert_status s) (traceWrite s) (trace_flag s) (cc_name s) (polls s).
Definition with_alert_status {PT} v (s : Log PT) : Log PT := MkLog _ (strs s) (logMEnabled s) (updateAlarmLogFileNameAttr s) (updateAlertLogFileNameAttr s) (updateCmdLogFileNameAttr s) (cmdLogString s) (IdentityString s) (fileAttributes s) (log_status s) (alarm_status s) v (traceWrite s) (trace_flag s) (cc_name s) (polls s).
Definition with_traceWrite {PT} v (s : Log PT) : Log PT := MkLog _ (strs s) (logMEnabled s) (updateAlarmLogFileNameAttr s) (updateAlertLogFileNameAttr s) (updateCmdLogFileNameAttr s) (cmdLogString s) (IdentityString s) (fileAttributes s) (log_status s) (alarm_status s) (alert_status s) v (trace_flag s) (cc_name s) (polls s).
Definition with_polls {PT} v (s : Log PT) : Log PT := MkLog _ (strs s) (logMEnabled s) (updateAlarmLogFileNameAttr s) (updateAlertLogFileNameAttr s) (updateCmdLogFileNameAttr s) (cmdLogString s) (IdentityString s) (fileAttributes s) (log_status s) (alarm_status s) (alert_status s) (traceWrite s) (trace_flag s) (cc_name s) v.
Definition with_updates {PT} a b c (s : Log PT) : Log PT := MkLog _ (strs s) (logMEnabled s) a b c (cmdLogString s) (IdentityString s) (fileAttributes s) (log_status s) (alarm_status s) (alert_status s) (traceWrite s) (trace_flag s) (cc_name s) (polls s).
Definition stream {PT} (i : StreamId) (s : Log PT) : Stream := get_stream i (strs s).
Definition on_stream {PT} (i : StreamId) (f : Stream -> Stream) (s : Log PT) : Log PT :=
  with_strs (set_stream i (f (stream i s)) (strs s)) s.

Definition initial_stream (flags : Z) : Stream := MkStream 0 0 FALSE "" 0 0 flags.
Definition initial_streams : Streams :=
  MkStreams (initial_stream SALOG_SEV_FLAG_INFO_OFF) (initial_stream SA_LOG_SEV_FLAG_ALL)
    (initial_stream SA_LOG_SEV_FLAG_ALL) (initial_stream SALOG_SEV_FLAG_INFO_OFF) (initial_stream SALOG_SEV_FLAG_INFO_OFF)
    (initial_stream SALOG_SEV_FLAG_INFO_OFF) (initial_stream SALOG_SEV_FLAG_INFO_OFF).

(** ** External calls *)
Definition SAF_LOG_CONFIG := "logConfig=1,safApp=safLogService".
Definition SAF_LOG_PATH_ATTR_NAME := "logRootDirectory".
Definition SA_LOG_STREAM_SYSTEM := "safLgStr=saLogSystem".
Definition ALARM_LOG_STREAM_DN := "safLgStrCfg=FaultManagementCfgLogAlarmStream,safApp=safLogService".
Definition ALERT_LOG_STREAM_DN := "safLgStrCfg=FaultManagementCfgLogAlertStream,safApp=safLogService".
Definition CMD_LOG_STREAM_DN := "safLgStrCfg=ComCliCmdLogStream,safApp=safLogService".
Definition SECURITY_LOG_STREAM_DN := "safLgStrCfg=ComSecLogStream,safApp=safLogService".
Definition COM_LOG_STREAM_DN := "safLgStrCfg=ComCfgLogStream,safApp=safLogService".
Definition LM_LOG_STREAM_DN := "safLgStrCfg=LmCfgLogStream,safApp=safLogService".
Definition COMSA_LOG_STREAM_DN := "safLgStrCfg=ComSaCfgLogStream,safApp=safLogService".
Definition LMSA_LOG_STREAM_DN := "safLgStrCfg=LmSaCfgLogStream,safApp=safLogService".
Definition COM_LOGM_DN := "logId=ComCfgLogStream,CmwLogMlogMId=1".
Definition LM_LOGM_DN := "logId=LmCfgLogStream,CmwLogMlogMId=1".
Definition COMSA_LOGM_DN := "logId=ComSaCfgLogStream,CmwLogMlogMId=1".
Definition LMSA_LOGM_DN := "logId=LmSaCfgLogStream,CmwLogMlogMId=1".
Definition ALARM_LOGM_DN := "logId=FaultManagementCfgLogAlarmStream,CmwLogMlogMId=1".
Definition ALERT_LOGM_DN := "logId=FaultManagementCfgLogAlertStream,CmwLogMlogMId=1".
Definition SALOG_LOGM_DN := "logId=saLogSystem,CmwLogMlogMId=1".
Definition CMD_LOGM_DN := "logId=ComCliCmdLogStream,CmwLogMlogMId=1".
Definition SECURITY_LOGM_DN := "logId=ComSecLogStream,CmwLogMlogMId=1".
Definition LOG_STREAM_FILENAME_PARAM := "saLogStreamFileName".
Definition LOG_STREAM_MAX_FILE_SIZE_PARAM := "saLogStreamMaxLogFileSize".
Definition LOG_STREAM_MAX_FILE_ROTATED_PARAM := "saLogStreamMaxFilesRotated".
Definition LOG_STREAM_FIXED_LOG_REC_SIZE_PARAM := "saLogStreamFixedLogRecordSize".
Definition LOGM_LOG_SEVERITYFILTER := "severityFilter".

Definition log_stream_name (cc : string) (i : StreamId) : string :=
  match i with
  | TheLog => SA_LOG_STREAM_SYSTEM | AlarmLog => ALARM_LOG_STREAM_DN | AlertLog => ALERT_LOG_STREAM_DN
  | CmdLog => CMD_LOG_STREAM_DN | SecLog => SECURITY_LOG_STREAM_DN
  | CompCfgLog => if bool_decide (cc = "lm") then LM_LOG_STREAM_DN else COM_LOG_STREAM_DN
  | CompSaCfgLog => if bool_decide (cc = "lm") then LMSA_LOG_STREAM_DN else COMSA_LOG_STREAM_DN
  end.

Record LogRecord := MkRecord { logSvcUsrName : string; logSeverity : Z; logBuf : string }.

(** The values of an attribute, by [attrValueType]. *)
Inductive AttrValues := SAINT32T (vs : list Z) | SASTRINGT (vs : list cstr) | OtherType.
Record ImmAttr := MkAttr { attrName : string; attrValues : AttrValues }.
Inductive AttrMod := ModUint64 (name : string) (v : Z) | ModUint32 (name : string) (v : Z) | ModString (name : string) (v : cstr).

(** What [saLogDispatch] calls back. *)
Inductive logcb :=
| WriteAck (invocation : Z) (err : SaAisErrorT)
| FilterSet (logStreamHandle : Z) (logSeverity : Z).

Inductive sleep_result := Slept | Interrupted (sec nsec : Z) | SleepError.
Inductive symlink_result := SymOk | SymExist | SymError.

(** A call with an out-parameter answers with the return code and what it left
    in the parameter. *)
Inductive logE : Type -> Type :=
| saLogInitialize (i : StreamId) : logE (SaAisErrorT * Z)
| saLogSelectionObjectGet (h : Z) : logE (SaAisErrorT * Z)
| saLogStreamOpen_2 (h : Z) (name : string) : logE (SaAisErrorT * Z)
| saLogStreamClose (h : Z) : logE SaAisErrorT
| saLogFinalize (h : Z) : logE SaAisErrorT
| saLogDispatch (h : Z) : logE (list logcb * SaAisErrorT)
| saLogWriteLogAsync (h : Z) (r : LogRecord) : logE SaAisErrorT
| sleep (seconds : Z) : logE ()
| usleep (microseconds : Z) : logE ()
| nanosleep (sec nsec : Z) : logE sleep_result
| pthread_create (i : StreamId) : logE (Z * Z)
| pthread_detach (t : Z) : logE Z
| pthread_kill_SIGKILL (t : Z) : logE Z
| pthread_join (t : Z) : logE Z
| pipe_sys : logE (option (Z * Z))
| fcntl_getfl (fd : Z) : logE Z
| fcntl_setfl (fd flags : Z) : logE Z
| syslog (priority : Z) (text : string) : logE ()
| auditlogger (priority : Z) (text : string) : logE ()
| trace_write (group : Z) (text : string) : logE ()
| push_LogEventProducer (newLevel streamType : Z) : logE ()
| pushComDebugLogLevelEvent : logE ()
| popen_comea : logE bool
| fgets_comea : logE (option cstr)
| pclose_comea : logE ()
| getClearStorage : logE cstr
| read_lines (path : cstr) : logE (option (list cstr))  (** [fopen], [fgets] up to the end, [fclose] *)
| symlink (target link : cstr) : logE symlink_result
| stat_mtime (path : cstr) : logE (option Z)
| processOpen (cmd : string) : logE Z
| read_storage_path : logE (option cstr)    (** the first word of the file of storage paths *)
| shmget : logE Z
| shmat (segment : Z) : logE (option Z)    (** the value the segment holds *)
| shmdt : logE Z
| shmctl_remove (segment : Z) : logE Z
| sigaction_timer : logE bool               (** the old handler was [SIG_DFL] *)
| sigaction_restore : logE ()
| timer_start : logE ()                     (** [sigprocmask], [timer_create], [timer_settime] *)
| timer_delete : logE ()
| pthread_attr_init : logE Z
| pthread_attr_setdetachstate : logE Z
| pthread_attr_destroy : logE Z
| pthread_create_config : logE Z
| pthread_cancel_config : logE Z
| pthread_join_config : logE Z
| get_timestamp : logE cstr
| autoRetry_saImmOmInitialize : logE (SaAisErrorT * Z)
| autoRetry_saImmOmAccessorInitialize (h : Z) : logE (SaAisErrorT * Z)
| autoRetry_saImmOmAccessorGet_2 (acc : Z) (dn attr : string) : logE (SaAisErrorT * list ImmAttr)
| om_imm_finalize (h acc : Z) : logE ()
| saImmOmAdminOwnerInitialize (h : Z) : logE (SaAisErrorT * Z)
| saImmOmAdminOwnerSet (owner : Z) (dns : list string) : logE SaAisErrorT
| saImmOmAdminOwnerRelease (owner : Z) (dns : list string) : logE SaAisErrorT
| saImmOmAdminOwnerFinalize (owner : Z) : logE SaAisErrorT
| saImmOmFinalize (h : Z) : logE SaAisErrorT
| saImmOmCcbInitialize (owner : Z) : logE (SaAisErrorT * Z)
| saImmOmCcbObjectModify_2 (ccb : Z) (dn : string) (mods : list AttrMod) : logE SaAisErrorT
| saImmOmCcbValidate (ccb : Z) : logE SaAisErrorT
| saImmOmCcbApply (ccb : Z) : logE SaAisErrorT.

(** [LOG_API_CALL]: no bound on the number of attempts. *)
Fixpoint LOG_API_CALL {S} (env : environment logE) (fuel : nat) (f : M logE S SaAisErrorT) : M logE S SaAisErrorT :=
  match fuel with
  | O => exit OutOfFuel
  | S fuel =>
      Errt ← f;
      if is_try_again Errt then call env (sleep 1) ;; LOG_API_CALL env fuel f else mret Errt
  end.

Section ops.
Context {PT : Type} `{PollOps PT}.
Context (env : environment logE) (fuel : nat).
Abbreviation L := (M logE (Log PT)).

(** ** Logging level events *)
Definition pushSaSystemLogLevelEvent : L () :=
  s ← get; call env (push_LogEventProducer (LogSevFlags (stream TheLog s)) SALOGSYSTEM_LOG).
Definition pushComSecLogLevelEvent : L () :=
  s ← get; call env (push_LogEventProducer (LogSevFlags (stream SecLog s)) SECURITY_LOG).
Definition pushComCommandLogLevelEvent : L () :=
  s ← get; call env (push_LogEventProducer (LogSevFlags (stream CmdLog s)) COMMAND_LOG).
Definition pushComLogLevelEvents : L () :=
  s ← get;
  when (logMEnabled s)
    (pushSaSystemLogLevelEvent ;; pushComSecLogLevelEvent ;; pushComCommandLogLevelEvent ;;
     call env pushComDebugLogLevelEvent).

(** ** Call-backs of the log service *)
(** The text of the message is the name of the call-back; invocation and error,
    printed after it, are left out. *)
Definition logWriteLogCallbackT (inv : Z) (err : SaAisErrorT) : L () :=
  s ← get;
  when (negb (bool_decide (err = SA_AIS_OK)))
    (if bool_decide (err = SA_AIS_ERR_TRY_AGAIN) then
       when (negb (log_status s))
         (call env (syslog (LOG_USER * 8 + LOG_WARNING) "logWriteLogCallbackT") ;; modify (with_log_status true))
     else
       call env (syslog (LOG_USER * 8 + LOG_WARNING) "logWriteLogCallbackT") ;; modify (with_log_status false)).
Definition alarmLogWriteLogCallbackT (inv : Z) (err : SaAisErrorT) : L () :=
  s ← get;
  when (negb (bool_decide (err = SA_AIS_OK)))
    (if bool_decide (err = SA_AIS_ERR_TRY_AGAIN) then
       when (negb (alarm_status s))
         (call env (syslog (LOG_USER * 8 + LOG_WARNING) "alarmLogWriteLogCallbackT") ;; modify (with_alarm_status true))
     else
       call env (syslog (LOG_USER * 8 + LOG_WARNING) "alarmLogWriteLogCallbackT") ;; modify (with_alarm_status false)).
Definition alertLogWriteLogCallbackT (inv : Z) (err : SaAisErrorT) : L () :=
  s ← get;
  when (negb (bool_decide (err = SA_AIS_OK)))
    (if bool_decide (err = SA_AIS_ERR_TRY_AGAIN) then
       when (negb (alert_status s))
         (call env (syslog (LOG_USER * 8 + LOG_WARNING) "alertLogWriteLogCallbackT") ;; modify (with_alert_status true))
     else
       call env (syslog (LOG_USER * 8 + LOG_WARNING) "alertLogWriteLogCallbackT") ;; modify (with_alert_status false)).

(** These two only trace. *)
Definition cmdLogWriteLogCallbackT (inv : Z) (err : SaAisErrorT) : L () := mret ().
Definition secLogWriteLogCallbackT (inv : Z) (err : SaAisErrorT) : L () := mret ().

Definition alarmLogFilterSetCallbackT (h sev : Z) : L () := modify (on_stream AlarmLog (s_flags (wrap_u 16 sev))).
Definition alertLogFilterSetCallbackT (h sev : Z) : L () := modify (on_stream AlertLog (s_flags (wrap_u 16 sev))).
Definition logFilterSetCallbackT (h sev : Z) : L () :=
  modify (on_stream TheLog (s_flags (wrap_u 16 sev))) ;; pushSaSystemLogLevelEvent.
Definition cmdLogFilterSetCallbackT (h sev : Z) : L () :=
  modify (on_stream CmdLog (s_flags (wrap_u 16 sev))) ;; pushComCommandLogLevelEvent.
Definition secLogFilterSetCallbackT (h sev : Z) : L () :=
  modify (on_stream SecLog (s_flags (wrap_u 16 sev))) ;; pushComSecLogLevelEvent.

(** The call-backs that [saLogInitialize] was given for each stream. *)
Definition run_logcb (i : StreamId) (cb : logcb) : L () :=
  match cb, i with
  | WriteAck inv err, TheLog => logWriteLogCallbackT inv err
  | WriteAck inv err, AlarmLog => alarmLogWriteLogCallbackT inv err
  | WriteAck inv err, AlertLog => alertLogWriteLogCallbackT inv err
  | WriteAck inv err, CmdLog => cmdLogWriteLogCallbackT inv err
  | WriteAck inv err, SecLog => secLogWriteLogCallbackT inv err
  | FilterSet h sev, TheLog => logFilterSetCallbackT h sev
  | FilterSet h sev, AlarmLog => alarmLogFilterSetCallbackT h sev
  | FilterSet h sev, AlertLog => alertLogFilterSetCallbackT h sev
  | FilterSet h sev, CmdLog => cmdLogFilterSetCallbackT h sev
  | FilterSet h sev, SecLog => secLogFilterSetCallbackT h sev
  | _, (CompCfgLog | CompSaCfgLog) => mret ()  (** see the trace service *)
  end.
Fixpoint run_logcbs (i : StreamId) (cbs : list logcb) : L () :=
  match cbs with
  | [] => mret ()
  | cb :: cbs => run_logcb i cb ;; run_logcbs i cbs
  end.

(** [fdCallbackFn], [alarm_fdCallbackFn], [alert_fdCallbackFn], [cmd_fdCallbackFn],
    [sec_fdCallbackFn]. *)
Definition log_dispatch (i : StreamId) : L () :=
  s ← get;
  '(cbs, rc) ← call env (saLogDispatch (LogHandle (stream i s)));
  run_logcbs i cbs.
Definition fdCallbackFn : L () := log_dispatch TheLog.
Definition alarm_fdCallbackFn : L () := log_dispatch AlarmLog.
Definition alert_fdCallbackFn : L () := log_dispatch AlertLog.
Definition cmd_fdCallbackFn : L () := log_dispatch CmdLog.
Definition sec_fdCallbackFn : L () := log_dispatch SecLog.

(** ** The poll table *)
Definition POLLIN : Z := 1.
(** The call-backs as the table knows them. *)
Definition fd_callback (i : StreamId) : fnptr :=
  match i with
  | TheLog => 1 | AlarmLog => 2 | AlertLog => 3 | CmdLog => 4 | SecLog => 5 | CompCfgLog => 7 | CompSaCfgLog => 8
  end%nat.
Definition stop_ntf_polling : fnptr := 6%nat.

Definition register_fd (f : fnptr) (pfd : Z) : L Z :=
  s ← get;
  let '(rc, t) := pt_set (polls s) f (MkPollfd pfd POLLIN 0) 0 in
  modify (with_polls t) ;; mret rc.
Definition unregister_fd (pfd : Z) : L () := modify (fun s => with_polls (pt_unset (polls s) pfd) s).

(** ** The threads that open the streams *)
Definition NANOSLEEP_SECONDS : Z := 60.

(** [true] after the whole pause, [false] when [nanosleep] fails. *)
Fixpoint full_sleep (n : nat) (sec nsec : Z) : L bool :=
  match n with
  | O => exit OutOfFuel
  | S n =>
      r ← call env (nanosleep sec nsec);
      match r with
      | Slept => mret true
      | Interrupted sec nsec => full_sleep n sec nsec
      | SleepError => mret false
      end
  end.

(** [while (nanosleep(...) != 0);] *)
Fixpoint three_seconds (n : nat) : L () :=
  match n with
  | O => exit OutOfFuel
  | S n =>
      r ← call env (nanosleep 3 0);
      match r with Slept => mret () | _ => three_seconds n end
  end.

Definition stream_open (i : StreamId) : L SaAisErrorT :=
  s ← get;
  '(rc, h) ← call env (saLogStreamOpen_2 (LogHandle (stream i s)) (log_stream_name (cc_name s) i));
  modify (on_stream i (s_stream h)) ;;
  mret rc.

(** [for (; Errt != SA_AIS_OK; )]; [pause] is what the thread does after an error
    that has no case of its own. *)
Fixpoint open_loop (n : nat) (i : StreamId) (pause : L ()) : L bool :=
  match n with
  | O => exit OutOfFuel
  | S n =>
      Errt ← LOG_API_CALL env fuel (stream_open i);
      match Errt with
      | SA_AIS_OK => mret true
      | SA_AIS_ERR_TIMEOUT => open_loop n i pause
      | SA_AIS_ERR_UNAVAILABLE =>
          awake ← full_sleep fuel NANOSLEEP_SECONDS 0;
          if awake : bool then open_loop n i pause else mret false
      | _ => pause ;; open_loop n i pause
      end
  end.

Definition detach (i : StreamId) : L () :=
  s ← get; call env (pthread_detach (OpenThreadId (stream i s))) ;; mret ().

(** The result is [Errt] at [pthread_exit]: [true] for [SA_AIS_OK]. *)
Definition LogServiceOpenThread : L bool :=
  detach TheLog ;;
  opened ← open_loop fuel TheLog (mret ());
  if negb opened then mret false
  else
    s ← get;
    rc ← register_fd (fd_callback TheLog) (SelectionObject (stream TheLog s));
    if negb (rc =? 0) then mret false
    else
      modify (on_stream TheLog (s_isopen TRUE)) ;;
      modify (on_stream TheLog (s_thread 0)) ;;
      fds ← call env pipe_sys;
      match fds with
      | None => mret false
      | Some (rd, wr) =>
          flags ← call env (fcntl_getfl rd);
          when (flags <? 0) (exit Aborted) ;;
          rc ← call env (fcntl_setfl rd (Z.lor flags 2048));
          when (negb (rc =? 0)) (exit Aborted) ;;
          rc ← register_fd stop_ntf_polling rd;
          mret (rc =? 0)
      end.

(** The other four threads. *)
Definition open_thread (i : StreamId) : L bool :=
  detach i ;;
  opened ← open_loop fuel i (three_seconds fuel);
  if negb opened then mret false
  else
    modify (on_stream i (s_isopen TRUE)) ;;
    s ← get;
    rc ← register_fd (fd_callback i) (SelectionObject (stream i s));
    if negb (rc =? 0) then mret false
    else modify (on_stream i (s_thread 0)) ;; mret true.
Definition alarmLogServiceOpenThread : L bool := open_thread AlarmLog.
Definition alertLogServiceOpenThread : L bool := open_thread AlertLog.
Definition cmdLogServiceOpenThread : L bool := open_thread CmdLog.
Definition secLogServiceOpenThread : L bool := open_thread SecLog.

(** ** Symbolic links and the configuration file *)
Definition createSymLinkForAlarmsAndAlerts (path directory linkDir linkName : option cstr) : L Z :=
  match path, directory, linkDir, linkName with
  | Some path, Some directory, Some linkDir, Some linkName =>
      let directoryPath := path ++ lit "/" ++ directory in
      let linkPath := linkDir ++ lit "/" ++ linkName in
      when (negb ((length directoryPath <? 500)%nat && (length linkPath <? 500)%nat)) (exit BadPointer) ;;
      r ← call env (symlink directoryPath linkPath);
      mret (match r with SymError => FALSE | _ => TRUE end)
  | _, _, _, _ => mret FALSE
  end.

(** [COMSA_FOR_COREMW_DIR] of the two builds. *)
Definition product_dir (cc : string) : string :=
  if bool_decide (cc = "lm") then "lmsa-apr9010528" else "comsa_for_coremw-apr9010555".
Definition MAX_PATH_DATA_LENGTH : nat := 256.

Definition loadSaLogConfig : L () :=
  modify (with_attributes default_attributes) ;;
  dir ← call env getClearStorage;
  s ← get;
  let path := dir ++ lit "/" ++ lit (product_dir (cc_name s)) ++ lit "/" ++ lit (cc_name s) ++ lit "_sa_log.cfg" in
  when (negb (length path <? MAX_PATH_DATA_LENGTH)%nat) (exit BadPointer) ;;
  lines ← call env (read_lines path);
  match lines with
  | None => mret ()
  | Some lines =>
      a ← of_option BadPointer (parse_lines lines default_attributes);
      modify (with_attributes a)
  end.

(** The array that the caller passes, after the call.  On failure the default is
    assigned to the parameter, which the caller does not see. *)
Definition getIntRootDir (rootDir : cstr) : L cstr :=
  fp ← call env popen_comea;
  if fp : bool then
    line ← call env fgets_comea;
    match line with
    | Some readStr =>
        let readStr := default readStr (trimWhiteSpace (Some readStr)).2 in
        if negb (length readStr =? 0)%nat then call env pclose_comea ;; mret readStr
        else call env pclose_comea ;; mret rootDir
    | None => call env pclose_comea ;; mret rootDir
    end
  else mret rootDir.

(** ** The configuration streams in IMM *)
Definition USLEEP_HALF_SECOND : Z := 500000.
Definition imm_pause : L () := call env (usleep USLEEP_HALF_SECOND).
Definition IMM (e : logE SaAisErrorT) : L SaAisErrorT := IMM_API_CALL imm_pause (call env e).
(** A call that fills a handle. *)
Definition IMM_out (e : logE (SaAisErrorT * Z)) : L (SaAisErrorT * Z) :=
  retry (fun r => is_busy r.1) imm_pause (call env e) IMM_MAX_RETRIES.

Definition modifyLogStreamAttr (ccb : Z) (object : string) (a : SaLogFileCreateAttributesT_2)
    (updateFileSizeAttr : bool) : L SaAisErrorT :=
  IMM (saImmOmCcbObjectModify_2 ccb object
    ([ModUint64 LOG_STREAM_MAX_FILE_SIZE_PARAM (maxLogFileSize a);
      ModUint32 LOG_STREAM_MAX_FILE_ROTATED_PARAM (maxFilesRotated a);
      ModUint32 LOG_STREAM_FIXED_LOG_REC_SIZE_PARAM (maxLogRecordSize a)]
     ++ if updateFileSizeAttr then [ModString LOG_STREAM_FILENAME_PARAM (logFileName a)] else [])).

Definition log_imm_finalize (immOmHandle adminOwnerHandle : Z) : L () :=
  when (negb (adminOwnerHandle =? 0)) (IMM (saImmOmAdminOwnerFinalize adminOwnerHandle) ;; mret ()) ;;
  when (negb (immOmHandle =? 0)) (IMM (saImmOmFinalize immOmHandle) ;; mret ()).

Definition objDns := [ALARM_LOG_STREAM_DN; ALERT_LOG_STREAM_DN; CMD_LOG_STREAM_DN].

(** The common end of all paths after the streams are owned. *)
Definition release_and_finalize (imm owner : Z) : L () :=
  IMM (saImmOmAdminOwnerRelease owner objDns) ;; log_imm_finalize imm owner.

(** The chain of modifications, each made when the one before succeeded. *)
Definition modify_streams (ccb : Z) : L SaAisErrorT :=
  s ← get;
  rc ← modifyLogStreamAttr ccb ALARM_LOG_STREAM_DN (alarmLogFileAttributes (fileAttributes s)) (updateAlarmLogFileNameAttr s);
  rc ← (if bool_decide (rc = SA_AIS_OK) then
          modifyLogStreamAttr ccb ALERT_LOG_STREAM_DN (alertLogFileAttributes (fileAttributes s)) (updateAlertLogFileNameAttr s)
        else mret rc);
  if bool_decide (rc = SA_AIS_OK) then
    modifyLogStreamAttr ccb CMD_LOG_STREAM_DN (cmdLogFileAttributes (fileAttributes s)) (updateCmdLogFileNameAttr s)
  else mret rc.

Definition modifyCfgLogStreamInstances : L MafReturnT :=
  '(rc, imm) ← call env autoRetry_saImmOmInitialize;
  if negb (bool_decide (rc = SA_AIS_OK)) then mret MafFailure
  else
    '(rc, owner) ← IMM_out (saImmOmAdminOwnerInitialize imm);
    if negb (bool_decide (rc = SA_AIS_OK)) then log_imm_finalize imm 0 ;; mret MafFailure
    else
      rc ← IMM (saImmOmAdminOwnerSet owner objDns);
      if negb (bool_decide (rc = SA_AIS_OK)) then log_imm_finalize imm owner ;; mret MafFailure
      else
        '(rc, ccb) ← IMM_out (saImmOmCcbInitialize owner);
        if negb (bool_decide (rc = SA_AIS_OK)) then release_and_finalize imm owner ;; mret MafFailure
        else
          rc ← modify_streams ccb;
          if negb (bool_decide (rc = SA_AIS_OK)) then release_and_finalize imm owner ;; mret MafFailure
          else
            rc ← IMM (saImmOmCcbValidate ccb);
            if negb (bool_decide (rc = SA_AIS_OK)) then release_and_finalize imm owner ;; mret MafFailure
            else
              rc ← IMM (saImmOmCcbApply ccb);
              if negb (bool_decide (rc = SA_AIS_OK)) then release_and_finalize imm owner ;; mret MafFailure
              else release_and_finalize imm owner ;; mret MafOk.
End ops.

Section ops2.
Context {PT : Type} `{PollOps PT}.
Context (env : environment logE) (fuel : nat).
Abbreviation L := (M logE (Log PT)).

(** ** Reading the IMM *)
Definition severity_filter (values : list Z) : Z :=
  fold_left (fun tmp v => Z.lor tmp (SEVERITY_FLAG (wrap_u 16 v))) values 0.

(** [store] is the assignment through the pointer [severityFilter]. *)
Definition getSeverityFilter (accessorHandle : Z) (dnName : string) (store : Z -> Log PT -> Log PT) : L SaAisErrorT :=
  if negb (accessorHandle =? 0) then
    '(ret, attributeValue) ← call env (autoRetry_saImmOmAccessorGet_2 accessorHandle dnName LOGM_LOG_SEVERITYFILTER);
    if negb (bool_decide (ret = SA_AIS_OK)) then mret ret
    else
      one ← of_option BadPointer (head attributeValue);
      if negb (bool_decide (attrName one = LOGM_LOG_SEVERITYFILTER)) then mret SA_AIS_ERR_INVALID_PARAM
      else
        match attrValues one with
        | SAINT32T values =>
            modify (store (severity_filter values)) ;;
            modify (with_logM true) ;;
            mret ret
        | _ => mret SA_AIS_ERR_INVALID_PARAM
        end
  else mret SA_AIS_ERR_BAD_HANDLE.

(** The file name when it was found. *)
Definition getLogStreamFileName (accessorHandle : Z) (dnName : string) : L (SaAisErrorT * option cstr) :=
  if negb (accessorHandle =? 0) then
    '(ret, attributeValue) ← call env (autoRetry_saImmOmAccessorGet_2 accessorHandle dnName LOG_STREAM_FILENAME_PARAM);
    if negb (bool_decide (ret = SA_AIS_OK)) then mret (ret, None)
    else
      one ← of_option BadPointer (head attributeValue);
      if negb (bool_decide (attrName one = LOG_STREAM_FILENAME_PARAM)) then mret (SA_AIS_ERR_INVALID_PARAM, None)
      else
        match attrValues one with
        | SASTRINGT values => v ← of_option BadPointer (head values); mret (ret, Some v)
        | _ => mret (SA_AIS_ERR_INVALID_PARAM, None)
        end
  else mret (SA_AIS_ERR_BAD_HANDLE, None).

Definition updateLogStreamFileNameNeeded (accessorHandle : Z) (dn : string) (a : SaLogFileCreateAttributesT_2) : L bool :=
  '(error, name) ← getLogStreamFileName accessorHandle dn;
  if negb (bool_decide (error = SA_AIS_OK)) then mret false
  else
    name ← of_option BadPointer name;
    mret (negb (bool_decide (name = logFileName a))).

Definition readCfgLogStreamsInfoFromImm : L () :=
  '(error, imm) ← call env autoRetry_saImmOmInitialize;
  if negb (bool_decide (error = SA_AIS_OK)) then mret ()
  else
    '(error, acc) ← call env (autoRetry_saImmOmAccessorInitialize imm);
    when (bool_decide (error = SA_AIS_OK))
      (s ← get;
       alarm ← updateLogStreamFileNameNeeded acc ALARM_LOG_STREAM_DN (alarmLogFileAttributes (fileAttributes s));
       alert ← updateLogStreamFileNameNeeded acc ALERT_LOG_STREAM_DN (alertLogFileAttributes (fileAttributes s));
       cmd ← updateLogStreamFileNameNeeded acc CMD_LOG_STREAM_DN (cmdLogFileAttributes (fileAttributes s));
       modify (with_updates alarm alert cmd) ;;
       getSeverityFilter acc ALARM_LOGM_DN (fun v => on_stream AlarmLog (s_flags v)) ;;
       getSeverityFilter acc ALERT_LOGM_DN (fun v => on_stream AlertLog (s_flags v)) ;;
       getSeverityFilter acc CMD_LOGM_DN (fun v => on_stream CmdLog (s_flags v)) ;;
       getSeverityFilter acc SECURITY_LOGM_DN (fun v => on_stream SecLog (s_flags v)) ;;
       mret ()) ;;
    call env (om_imm_finalize imm acc).

Definition readSafLogPath : L (SaAisErrorT * option cstr) :=
  '(error, imm) ← call env autoRetry_saImmOmInitialize;
  if negb (bool_decide (error = SA_AIS_OK)) then mret (error, None)
  else
    '(error, acc) ← call env (autoRetry_saImmOmAccessorInitialize imm);
    res ← (if negb (bool_decide (error = SA_AIS_OK)) then mret (error, None)
           else
             '(error, attributeValue) ← call env (autoRetry_saImmOmAccessorGet_2 acc SAF_LOG_CONFIG SAF_LOG_PATH_ATTR_NAME);
             if negb (bool_decide (error = SA_AIS_OK)) then mret (error, None)
             else
               one ← of_option BadPointer (head attributeValue);
               if negb (bool_decide (attrName one = SAF_LOG_PATH_ATTR_NAME)) then mret (SA_AIS_ERR_INVALID_PARAM, None)
               else
                 match attrValues one with
                 | SASTRINGT values => v ← of_option BadPointer (head values); mret (error, Some v)
                 | _ => mret (SA_AIS_ERR_INVALID_PARAM, None)
                 end);
    call env (om_imm_finalize imm acc) ;;
    mret res.

Definition setSaLogSystemSevFilter : L () :=
  '(Errt, imm) ← call env autoRetry_saImmOmInitialize;
  if negb (bool_decide (Errt = SA_AIS_OK)) then mret ()
  else
    '(Errt, acc) ← call env (autoRetry_saImmOmAccessorInitialize imm);
    when (bool_decide (Errt = SA_AIS_OK))
      (getSeverityFilter acc SALOG_LOGM_DN (fun v => on_stream TheLog (s_flags v)) ;; mret ()) ;;
    call env (om_imm_finalize imm acc).

(** ** Opening *)
(** [saLogInitialize] and [saLogSelectionObjectGet] of one stream; [false] when one
    of them fails. *)
Definition log_initialize (i : StreamId) : L bool :=
  Errt ← LOG_API_CALL env fuel
    ('(rc, h) ← call env (saLogInitialize i); modify (on_stream i (s_handle h)) ;; mret rc);
  if negb (bool_decide (Errt = SA_AIS_OK)) then mret false
  else
    Errt ← LOG_API_CALL env fuel
      (s ← get;
       '(rc, so) ← call env (saLogSelectionObjectGet (LogHandle (stream i s)));
       modify (on_stream i (s_selobj so)) ;; mret rc);
    mret (bool_decide (Errt = SA_AIS_OK)).

(** [pthread_create] fills the thread id. *)
Definition start_open_thread (i : StreamId) : L bool :=
  '(rc, t) ← call env (pthread_create i);
  if negb (rc =? 0) then mret false
  else modify (on_stream i (s_thread t)) ;; mret true.

(** [saNameSet] of a string that may be [NULL]. *)
Definition set_logger_name (i : StreamId) (name : option string) : L () :=
  name ← of_option BadPointer name;
  modify (on_stream i (s_name name)).

Definition DEFAULT_ALARM_LOG_FILE_PATH_NAME := lit "FaultManagementLog/alarm".
Definition DEFAULT_ALERT_LOG_FILE_PATH_NAME := lit "FaultManagementLog/alert".

Definition AlarmAndAlertLogServiceOpen : L MafReturnT :=
  '(retVal, safLogPath) ← readSafLogPath;
  if negb (bool_decide (retVal = SA_AIS_OK)) then mret MafFailure
  else
    rootDir ← getIntRootDir env [];
    createSymLinkForAlarmsAndAlerts env safLogPath (Some DEFAULT_ALARM_LOG_FILE_PATH_NAME) (Some rootDir) (Some (lit "AlarmLogs")) ;;
    createSymLinkForAlarmsAndAlerts env safLogPath (Some DEFAULT_ALERT_LOG_FILE_PATH_NAME) (Some rootDir) (Some (lit "AlertLogs")) ;;
    s ← get;
    set_logger_name AlarmLog (IdentityString s) ;;
    set_logger_name AlertLog (IdentityString s) ;;
    ok ← log_initialize AlarmLog;
    if negb ok then mret MafFailure
    else
      ok ← log_initialize AlertLog;
      if negb ok then mret MafFailure
      else
        loadSaLogConfig env ;;
        readCfgLogStreamsInfoFromImm ;;
        modifyCfgLogStreamInstances env ;;
        started ← start_open_thread AlarmLog;
        when started (start_open_thread AlertLog ;; mret ()) ;;
        mret MafOk.

Definition cmdLogServiceOpen : L MafReturnT :=
  modify (with_cmdString (Some "COM CLI")) ;;
  set_logger_name CmdLog (Some "COM CLI") ;;
  ok ← log_initialize CmdLog;
  if negb ok then mret MafFailure
  else start_open_thread CmdLog ;; mret MafOk.

Definition secLogServiceOpen : L MafReturnT :=
  s ← get;
  set_logger_name SecLog (IdentityString s) ;;
  ok ← log_initialize SecLog;
  if negb ok then mret MafFailure
  else start_open_thread SecLog ;; mret MafOk.

(** [_CC_NAME_UPPERCASE] *)
Definition cc_upper (cc : string) : string := if bool_decide (cc = "lm") then "LM" else "COM".

Definition maf_ComLogServiceOpen : L MafReturnT :=
  modify (with_traceWrite true) ;;
  s ← get;
  let name := cc_upper (cc_name s) +:+ " SA logger" in
  modify (with_identity (Some name)) ;;
  set_logger_name TheLog (Some name) ;;
  ok ← log_initialize TheLog;
  if negb ok then mret MafFailure
  else
    setSaLogSystemSevFilter ;;
    start_open_thread TheLog ;;
    mret MafOk.

(** ** Closing *)
Definition AMF_LOG_TRY_INTERVAL : Z := 25000.
Definition LOG_TRY (e : logE SaAisErrorT) : L SaAisErrorT :=
  LOG_API_CALL_TRY_AGAIN (call env (usleep AMF_LOG_TRY_INTERVAL)) (call env e).

(** [SIGKILL] cannot be directed at one thread: when the signal is sent it takes
    the whole process down. *)
Definition kill_open_thread (i : StreamId) : L Z :=
  s ← get;
  rc ← call env (pthread_kill_SIGKILL (OpenThreadId (stream i s)));
  when (rc =? 0) (exit Killed) ;;
  mret rc.

Definition kill_and_join (i : StreamId) : L () :=
  s ← get;
  when (negb (OpenThreadId (stream i s) =? 0))
    (kill_open_thread i ;;
     call env (pthread_join (OpenThreadId (stream i s))) ;; mret ()).

(** The stream handle, then the log handle; each is forgotten whatever the
    answer.  [false] when one of the calls failed. *)
Definition close_handles (i : StreamId) : L bool :=
  s ← get;
  ok1 ← (if negb (LogStreamHandle (stream i s) =? 0) then
           Errt ← LOG_TRY (saLogStreamClose (LogStreamHandle (stream i s)));
           modify (on_stream i (s_stream 0)) ;;
           mret (bool_decide (Errt = SA_AIS_OK))
         else mret true);
  s ← get;
  ok2 ← (if negb (LogHandle (stream i s) =? 0) then
           Errt ← LOG_TRY (saLogFinalize (LogHandle (stream i s)));
           modify (on_stream i (s_handle 0)) ;;
           mret (bool_decide (Errt = SA_AIS_OK))
         else mret true);
  mret (ok1 && ok2).

(** What the close functions of alarm, alert, command and security logs share. *)
Definition close_stream (i : StreamId) : L bool :=
  kill_and_join i ;;
  s ← get;
  unregister_fd (SelectionObject (stream i s)) ;;
  modify (on_stream i (s_isopen FALSE)) ;;
  close_handles i.

Definition maf_result (ok : bool) : MafReturnT := if ok then MafOk else MafFailure.

Definition AlarmAndAlertLogServiceClose : L MafReturnT :=
  ok1 ← close_stream AlarmLog;
  ok2 ← close_stream AlertLog;
  mret (maf_result (ok1 && ok2)).

Definition cmdLogServiceClose : L MafReturnT :=
  ok ← close_stream CmdLog;
  modify (with_cmdString None) ;;
  mret (maf_result ok).

Definition secLogServiceClose : L MafReturnT :=
  ok ← close_stream SecLog;
  mret (maf_result ok).

(** The system stream keeps its handles, and its thread is not joined. *)
Definition ComLogServiceClose : L MafReturnT :=
  s ← get;
  when (negb (OpenThreadId (stream TheLog s) =? 0)) (kill_open_thread TheLog ;; mret ()) ;;
  unregister_fd (SelectionObject (stream TheLog s)) ;;
  modify (on_stream TheLog (s_isopen FALSE)) ;;
  Errt ← LOG_TRY (saLogStreamClose (LogStreamHandle (stream TheLog s)));
  when (bool_decide (Errt = SA_AIS_OK)) (call env (auditlogger LOG_INFO "Com LogService successfully closed")) ;;
  Errt' ← LOG_TRY (saLogFinalize (LogHandle (stream TheLog s)));
  modify (with_identity None) ;;
  mret (maf_result (bool_decide (Errt = SA_AIS_OK) && bool_decide (Errt' = SA_AIS_OK))).

(** ** Writing *)
(** [isLogFileOpen] points to the flag of a stream; it is never [NULL]. *)
Record LoggerInfo := MkInfo {
  isLogFileOpen : option StreamId;
  loggerName : string;
  logStreamHandle : Z;
  isLogAllowed : bool;
  new_severity : Z
}.
Definition logger_info (i : StreamId) (severity : Z) (s : Log PT) : LoggerInfo :=
  MkInfo (Some i) (LoggerName (stream i s)) (LogStreamHandle (stream i s))
    (negb (Z.land (LogSevFlags (stream i s)) (SEVERITY_FLAG severity) =? 0)) severity.

Definition getLoggerInfo (facility severity : Z) (s : Log PT) : LoggerInfo :=
  if bool_decide (cc_name s = "lm") then logger_info TheLog severity s
  else if facility =? ALARM_LOG then logger_info AlarmLog severity s
  else if facility =? ALERT_LOG then logger_info AlertLog severity s
  else if facility =? COMMAND_LOG then logger_info CmdLog severity s
  else if facility =? SECURITY_LOG then logger_info SecLog severity s
  else logger_info TheLog (if severity =? MW_SA_LOG_SEV_INFO then MW_SA_LOG_SEV_NOTICE else severity) s.

Definition logWrite (eventId severity facility : Z) (databuffer : string) : L MafReturnT :=
  if (facility =? SECURITY_AUTHORIZATION_MESSAGE_1) || (facility =? SECURITY_AUTHORIZATION_MESSAGE_2) then
    call env (syslog (SYSLOG_LEVEL severity + facility * 8) databuffer) ;; mret MafOk
  else if (facility =? LOG_AUDIT_MESSAGE) || (facility =? LOG_AUDIT_MESSAGE_LOCAL1) then
    call env (auditlogger LOG_NOTICE databuffer) ;; mret MafOk
  else if (facility =? COMMAND_LOG) || (facility =? SECURITY_LOG) then
    call env (auditlogger (SYSLOG_LEVEL severity) databuffer) ;; mret MafOk
  else
    s ← get;
    let info := getLoggerInfo facility severity s in
    if isLogAllowed info || (trace_flag s =? 1) then
      match isLogFileOpen info with
      | None => call env (syslog (LOG_USER * 8 + LOG_WARNING) databuffer) ;; mret MafOk
      | Some _ =>
          when (negb (facility =? SECURITY_LOG) && negb (facility =? COMMAND_LOG) && traceWrite s)
            (call env (trace_write 0 databuffer)) ;;
          Errt ← LOG_API_CALL env fuel
            (call env (saLogWriteLogAsync (logStreamHandle info)
               (MkRecord (loggerName info) (SEVERITY (new_severity info)) databuffer)));
          mret (if bool_decide (Errt = SA_AIS_OK) then MafOk else MafFailure)
      end
    else mret MafOk.

Definition maf_logWrite (eventId severity facility : Z) (databuffer : string) : L MafReturnT :=
  logWrite eventId severity facility databuffer.
End ops2.
