(* ===== verification/LogFacts.v ===== *)
(** * Lemmas about the log service

    The streams as a record of five, the unbounded retry [LOG_API_CALL] against a
    service that answers in the end, programs whose external calls are folded
    into a ledger ([tracks]), the steps of closing a stream, and the loop of the
    threads that open one, with pauses that are cut short or fail. *)
From Stdlib Require Import ZArith Lia Ascii.
From stdpp Require Import base gmap list strings.
From S2P Require Import Prelude SelectTimer PollTable Codes LogConfig LogService.

#[local] Open Scope string_scope.
#[local] Open Scope list_scope.
#[local] Open Scope Z_scope.

(** ** The five streams *)
Section streams.
Context {PT : Type}.
Implicit Types (s : Log PT) (i j : StreamId).

Lemma stream_on_eq i f s : stream i (on_stream i f s) = f (stream i s).
Proof. by destruct i. Qed.
Lemma stream_on_ne i j f s : i <> j -> stream j (on_stream i f s) = stream j s.
Proof. by destruct i, j. Qed.
Lemma polls_on i f s : polls (on_stream i f s) = polls s.
Proof. by destruct i. Qed.
Lemma stream_polls i t s : stream i (with_polls t s) = stream i s.
Proof. by destruct i. Qed.
Lemma polls_polls t s : polls (with_polls t s) = t.
Proof. done. Qed.
Lemma on_stream_twice i f g s : on_stream i f (on_stream i g s) = on_stream i (fun x => f (g x)) s.
Proof. by destruct i. Qed.
Lemma on_stream_id i f s : f (stream i s) = stream i s -> on_stream i f s = s.
Proof.
  destruct s as [x]. unfold on_stream, with_strs, stream. cbn. intros ->. by destruct x, i.
Qed.
Lemma s_stream_same x : s_stream (LogStreamHandle x) x = x.
Proof. by destruct x. Qed.
Lemma s_handle_same x : s_handle (LogHandle x) x = x.
Proof. by destruct x. Qed.
End streams.

Ltac log_simp :=
  repeat first [rewrite stream_on_eq | rewrite stream_on_ne by done | rewrite polls_on | rewrite stream_polls | rewrite polls_polls];
  cbn [LogHandle LogStreamHandle LogFileIsOpen LoggerName SelectionObject OpenThreadId LogSevFlags
    s_handle s_stream s_isopen s_name s_selobj s_thread s_flags].

(** ** Retries without a bound *)
Section retry.
Context {S : Type} (env : environment logE) (e : logE SaAisErrorT).

(** [k] refused attempts in the history. *)
Fixpoint busy_for (k : nat) : list (event logE) :=
  match k with
  | O => []
  | Datatypes.S k => Ev e SA_AIS_ERR_TRY_AGAIN :: Ev (sleep 1) () :: busy_for k
  end.

(** Whenever the call is made, and then repeated after each
    [SA_AIS_ERR_TRY_AGAIN], it gets another answer after at most [n] refusals. *)
Definition settles (n : nat) : Prop :=
  forall tr, exists k, (k <= n)%nat /\ env _ (tr ++ busy_for k) e <> SA_AIS_ERR_TRY_AGAIN.

Lemma LOG_API_CALL_from fuel k (s : S) tr : (k < fuel)%nat ->
  env _ (tr ++ busy_for k) e <> SA_AIS_ERR_TRY_AGAIN ->
  sat (LOG_API_CALL env fuel (call env e)) (s, tr) (fun r c' =>
    c'.1 = s /\ r <> SA_AIS_ERR_TRY_AGAIN /\ exists refused, c'.2 = tr ++ attempts e (sleep 1) refused r /\
      Forall (fun x => is_try_again x = true) refused /\ (length refused <= k)%nat).
Proof.
  revert k tr. induction fuel as [|fuel IH]; intros k tr Hk Hans; [lia|].
  cbn [LOG_API_CALL]. do 2 sat_step. destruct (is_try_again r) eqn:Er.
  - do 2 sat_step. match goal with |- sat _ (_, _ ++ [Ev _ ?u]) _ => destruct u end. destruct k as [|k].
    { exfalso. rewrite app_nil_r in Hans. cbn in *. unfold is_try_again in Er. apply bool_decide_eq_true in Er. congruence. }
    assert (r = SA_AIS_ERR_TRY_AGAIN) as -> by (by apply bool_decide_eq_true in Er).
    eapply sat_mono; [apply (IH k); [lia|]|].
    + cbn [snd]. rewrite <- !app_assoc. exact Hans.
    + cbn beta. intros r' [s' tr'] (-> & Hr & refused & Htr & Hall & Hle). cbn [fst snd] in *. subst tr'.
      split; [done|]. split; [done|]. exists (SA_AIS_ERR_TRY_AGAIN :: refused).
      split; [by rewrite <- !app_assoc|]. split; [by constructor|]. simpl. lia.
  - sat_step. split; [done|]. split; [by apply is_try_again_ok|]. exists []. split; [done|]. split; [constructor|simpl; lia].
Qed.

Lemma LOG_API_CALL_sat fuel n (s : S) tr : settles n -> (n < fuel)%nat ->
  sat (LOG_API_CALL env fuel (call env e)) (s, tr) (fun r c' =>
    c'.1 = s /\ r <> SA_AIS_ERR_TRY_AGAIN /\ exists refused, c'.2 = tr ++ attempts e (sleep 1) refused r /\
      Forall (fun x => is_try_again x = true) refused /\ (length refused <= n)%nat).
Proof.
  intros Hs Hn. destruct (Hs tr) as (k & Hk & Hans).
  eapply sat_mono; [apply (LOG_API_CALL_from fuel k); [lia|done]|].
  intros r c' (? & ? & refused & ? & ? & ?). split_and!; [done|done|]. exists refused. split_and!; [done..|lia].
Qed.
End retry.

(** ** Folding the external calls of a program *)
Section tracks.
Context {E : Type -> Type} {S X : Type} (step : X -> event E -> X).

(** [m], started in state [s] with ledger [x], returns, and its own calls take
    the ledger to one that satisfies [Q]. *)
Definition tracks {A} (m : M E S A) (s : S) (x : X) (Q : A -> S -> X -> Prop) : Prop :=
  forall tr, sat m (s, tr) (fun a c' => exists evs, c'.2 = tr ++ evs /\ Q a c'.1 (fold_left step evs x)).

Lemma tracks_ret {A} (a : A) s x (Q : _ -> _ -> _ -> Prop) : Q a s x -> tracks (mret a) s x Q.
Proof. intros HQ tr. sat_step. exists []. by rewrite app_nil_r. Qed.

Lemma tracks_bind {A B} (m : M E S A) (k : A -> M E S B) s x Q :
  tracks m s x (fun a s' x' => tracks (k a) s' x' Q) -> tracks (m ≫= k) s x Q.
Proof.
  intros H tr. sat_step. eapply sat_mono; [apply H|]. intros a [s1 tr1]. cbn [fst snd].
  intros (evs & -> & Hk). eapply sat_mono; [apply Hk|]. intros b [s2 tr2]. cbn [fst snd].
  intros (evs' & -> & HQ). exists (evs ++ evs'). by rewrite <- app_assoc, fold_left_app.
Qed.

Lemma tracks_mono {A} (m : M E S A) s x (P Q : A -> S -> X -> Prop) :
  tracks m s x P -> (forall a s' x', P a s' x' -> Q a s' x') -> tracks m s x Q.
Proof.
  intros H HPQ tr. eapply sat_mono; [apply H|]. intros a c' (evs & ? & ?). exists evs. eauto.
Qed.

Lemma tracks_get s x (Q : _ -> _ -> _ -> Prop) : Q s s x -> tracks get s x Q.
Proof. intros HQ tr. sat_step. exists []. by rewrite app_nil_r. Qed.
Lemma tracks_modify f s x (Q : _ -> _ -> _ -> Prop) : Q () (f s) x -> tracks (modify f) s x Q.
Proof. intros HQ tr. sat_step. exists []. by rewrite app_nil_r. Qed.
Lemma tracks_call (env : environment E) {R} (e : E R) s x (Q : _ -> _ -> _ -> Prop) :
  (forall r, Q r s (step x (Ev e r))) -> tracks (call env e) s x Q.
Proof. intros HQ tr. sat_step. exists [Ev e r]. split; [done|]. apply HQ. Qed.
Lemma tracks_when (b : bool) m s x (Q : () -> _ -> _ -> Prop) :
  (b = true -> tracks m s x Q) -> (b = false -> Q () s x) -> tracks (when b m) s x Q.
Proof. destruct b; intros H1 H2; [by apply H1|by apply tracks_ret, H2]. Qed.

(** A bounded retry of one call, each answer [r] of which takes the ledger from
    [x] to [f r]; refused attempts and pauses leave it alone. *)
Lemma tracks_retry (env : environment E) {R} (again : R -> bool) (e : E R) (zz : E ()) n s x f (Q : _ -> _ -> _ -> Prop) :
  (forall r, again r = true -> step x (Ev e r) = x \/ forall r', step (f r) (Ev e r') = f r') ->
  (forall r, step x (Ev e r) = f r) ->
  (forall r, step (f r) (Ev zz ()) = f r) ->
  (forall r, Q r s (f r)) -> tracks (retry again (call env zz) (call env e) n) s x Q.
Proof.
  intros Hag Hf Hz HQ tr. eapply sat_mono; [apply (retry_sat env e zz again n s tr)|].
  intros r [s' tr']. cbn [fst snd]. intros (-> & refused & -> & Hall & _).
  exists (attempts e zz refused r). split; [done|].
  assert (Hfold : fold_left step (attempts e zz refused r) x = f r /\
                  forall q, (forall r', step (f q) (Ev e r') = f r') -> fold_left step (attempts e zz refused r) (f q) = f r).
  { clear HQ. induction Hall as [|q l Hq Hl [IH1 IH2]]; simpl.
    - split; [apply Hf|intros q Hq; by rewrite Hq].
    - assert (Hn : fold_left step (attempts e zz l r) (f q) = f r).
      { destruct (Hag q Hq) as [Hsame|Hfq]; [|by apply IH2]. rewrite <- (Hf q), Hsame. exact IH1. }
      split; [by rewrite Hf, Hz|]. intros q' Hq'. by rewrite Hq', Hz. }
  rewrite (proj1 Hfold). apply HQ.
Qed.
End tracks.

Ltac tracks_step :=
  lazymatch goal with
  | |- tracks _ (mbind _ _) _ _ _ => apply tracks_bind
  | |- tracks _ (mret _) _ _ _ => apply tracks_ret
  | |- tracks _ get _ _ _ => apply tracks_get
  | |- tracks _ (modify _) _ _ _ => apply tracks_modify
  | |- tracks _ (call _ _) _ _ _ => apply tracks_call; intros
  end; cbn beta.

(** ** What a function holds of the IMM

    The handles and the ownership that calls have taken and not yet asked to
    give back, those of CCBs apart, and whether a change was applied. *)
Record ledger := MkLedger { imm_handles : gset Z; owner_handles : gset Z; owning : gset Z; ccb_handles : list Z; applied : bool }.
(** Nothing but the handles [c] of CCBs. *)
Definition only_ccbs (c : list Z) (b : bool) : ledger := MkLedger ∅ ∅ ∅ c b.

(** The null handle needs no finalisation. *)
Definition take_handle (h : Z) (x : gset Z) : gset Z := if h =? 0 then x else {[h]} ∪ x.

Definition ledger_step (l : ledger) (ev : event logE) : ledger :=
  match ev with
  | @Ev _ R e r =>
      match e in logE R return R -> ledger with
      | autoRetry_saImmOmInitialize => fun r =>
          if bool_decide (r.1 = SA_AIS_OK)
          then MkLedger (take_handle r.2 (imm_handles l)) (owner_handles l) (owning l) (ccb_handles l) (applied l) else l
      | saImmOmAdminOwnerInitialize _ => fun r =>
          if bool_decide (r.1 = SA_AIS_OK)
          then MkLedger (imm_handles l) (take_handle r.2 (owner_handles l)) (owning l) (ccb_handles l) (applied l) else l
      | saImmOmAdminOwnerSet o _ => fun r =>
          if bool_decide (r = SA_AIS_OK)
          then MkLedger (imm_handles l) (owner_handles l) ({[o]} ∪ owning l) (ccb_handles l) (applied l) else l
      | saImmOmAdminOwnerRelease o _ => fun _ =>
          MkLedger (imm_handles l) (owner_handles l) (owning l ∖ {[o]}) (ccb_handles l) (applied l)
      | saImmOmAdminOwnerFinalize o => fun _ =>
          MkLedger (imm_handles l) (owner_handles l ∖ {[o]}) (owning l) (ccb_handles l) (applied l)
      | saImmOmFinalize h => fun _ =>
          MkLedger (imm_handles l ∖ {[h]}) (owner_handles l) (owning l) (ccb_handles l) (applied l)
      | saImmOmCcbInitialize _ => fun r =>
          if bool_decide (r.1 = SA_AIS_OK)
          then MkLedger (imm_handles l) (owner_handles l) (owning l) (ccb_handles l ++ [r.2]) (applied l) else l
      | saImmOmCcbApply _ => fun r =>
          if bool_decide (r = SA_AIS_OK) then MkLedger (imm_handles l) (owner_handles l) (owning l) (ccb_handles l) true else l
      | _ => fun _ => l
      end r
  end.

Lemma is_busy_not_ok rc : is_busy rc = true -> bool_decide (rc = SA_AIS_OK) = false.
Proof. by destruct rc. Qed.

Lemma take_back h x : take_handle h x ∖ {[h]} = x ∖ {[h]}.
Proof. unfold take_handle. destruct (h =? 0); set_solver. Qed.

Section imm.
Context {PT : Type} (env : environment logE).
Implicit Types (s : Log PT) (l : ledger).

(** A call whose failed attempts change nothing in the ledger. *)
Lemma tracks_IMM (e : logE SaAisErrorT) s l f Q :
  (forall r, is_busy r = true -> ledger_step l (Ev e r) = l \/ forall r', ledger_step (f r) (Ev e r') = f r') ->
  (forall r, ledger_step l (Ev e r) = f r) ->
  (forall r, Q r s (f r)) -> tracks ledger_step (IMM env e) s l Q.
Proof. intros H1 H2 HQ. apply (tracks_retry ledger_step env is_busy e _ _ s l f Q); [exact H1|exact H2|done|exact HQ]. Qed.

Lemma tracks_IMM_out (e : logE (SaAisErrorT * Z)) s l f Q :
  (forall r, is_busy r.1 = true -> ledger_step l (Ev e r) = l \/ forall r', ledger_step (f r) (Ev e r') = f r') ->
  (forall r, ledger_step l (Ev e r) = f r) ->
  (forall r, Q r s (f r)) -> tracks ledger_step (IMM_out env e) s l Q.
Proof. intros H1 H2 HQ. apply (tracks_retry ledger_step env (fun r => is_busy r.1) e _ _ s l f Q); [exact H1|exact H2|done|exact HQ]. Qed.

(** A call that the ledger does not follow. *)
Lemma tracks_IMM_silent (e : logE SaAisErrorT) s l Q :
  (forall l r, ledger_step l (Ev e r) = l) -> (forall r, Q r s l) -> tracks ledger_step (IMM env e) s l Q.
Proof. intros He HQ. by apply (tracks_IMM e s l (fun _ => l)); intros; auto. Qed.

(** A call that gives something back whatever the answer. *)
Lemma tracks_IMM_back (e : logE SaAisErrorT) s l l' Q :
  (forall r, ledger_step l (Ev e r) = l') -> (forall r, ledger_step l' (Ev e r) = l') ->
  (forall r, Q r s l') -> tracks ledger_step (IMM env e) s l Q.
Proof. intros He He' HQ. apply (tracks_IMM e s l (fun _ => l')); intros; auto. Qed.

Lemma tracks_log_imm_finalize imm owner s c b :
  tracks ledger_step (log_imm_finalize env imm owner) s
    (MkLedger (take_handle imm ∅) (take_handle owner ∅) ∅ c b)
    (fun _ s' l => s' = s /\ l = only_ccbs c b).
Proof.
  unfold log_imm_finalize. tracks_step.
  assert (Hlast : forall s0, tracks ledger_step (when (negb (imm =? 0)) (IMM env (saImmOmFinalize imm) ;; mret ())) s0
            (MkLedger (take_handle imm ∅) ∅ ∅ c b) (fun _ s' l => s' = s0 /\ l = only_ccbs c b)).
  { intros s0. apply tracks_when; intros Hi.
    - tracks_step. apply tracks_IMM_back with (l' := only_ccbs c b); intros; [| |by apply tracks_ret].
      + unfold only_ccbs. simpl. f_equal. rewrite take_back. set_solver.
      + unfold only_ccbs. simpl. f_equal. set_solver.
    - apply negb_false_iff in Hi. unfold take_handle. by rewrite Hi. }
  apply tracks_when; intros Ho.
  - tracks_step. apply tracks_IMM_back with (l' := MkLedger (take_handle imm ∅) ∅ ∅ c b); intros; [| |].
    + simpl. f_equal. rewrite take_back. set_solver.
    + simpl. f_equal. set_solver.
    + apply tracks_ret, Hlast.
  - apply negb_false_iff in Ho. unfold take_handle at 2. rewrite Ho. apply Hlast.
Qed.

Lemma tracks_release imm owner s c b :
  tracks ledger_step (release_and_finalize env imm owner) s
    (MkLedger (take_handle imm ∅) (take_handle owner ∅) {[owner]} c b)
    (fun _ s' l => s' = s /\ l = only_ccbs c b).
Proof.
  unfold release_and_finalize. tracks_step.
  apply tracks_IMM_back with (l' := MkLedger (take_handle imm ∅) (take_handle owner ∅) ∅ c b); intros.
  - simpl. f_equal. set_solver.
  - simpl. f_equal. set_solver.
  - apply tracks_log_imm_finalize.
Qed.

Lemma tracks_modify_streams ccb s l :
  tracks ledger_step (modify_streams env ccb) s l (fun _ s' l' => s' = s /\ l' = l).
Proof.
  assert (H : forall dn a u Q, (forall r, Q r s l) -> tracks ledger_step (modifyLogStreamAttr env ccb dn a u) s l Q)
    by (intros; by apply tracks_IMM_silent).
  unfold modify_streams. do 3 tracks_step. apply H. intros r1. tracks_step.
  case_bool_decide; [apply H; intros r2|apply tracks_ret]; (case_bool_decide; [by apply H|by apply tracks_ret]).
Qed.

(** A failing exit of [modifyCfgLogStreamInstances]. *)
Lemma tracks_fail (m : M logE (Log PT) ()) s l c : tracks ledger_step m s l (fun _ s' l' => s' = s /\ l' = only_ccbs c false) ->
  (length c <= 1)%nat ->
  tracks ledger_step (m ;; mret MafFailure) s l
    (fun r s' l' => s' = s /\ exists c b, l' = only_ccbs c b /\ (length c <= 1)%nat /\ (r = MafOk <-> b = true)).
Proof.
  intros Hm Hc. tracks_step. eapply tracks_mono; [exact Hm|]. intros _ s' l' [-> ->]. apply tracks_ret.
  split; [done|]. exists c, false. split; [done|]. by split.
Qed.

Lemma tracks_modifyCfg s :
  tracks ledger_step (modifyCfgLogStreamInstances env) s (only_ccbs [] false)
    (fun r s' l => s' = s /\ exists c b, l = only_ccbs c b /\ (length c <= 1)%nat /\ (r = MafOk <-> b = true)).
Proof.
  unfold modifyCfgLogStreamInstances. do 2 tracks_step. destruct r as [rc imm]. cbn [fst snd ledger_step].
  case_bool_decide; cbn [negb]; [|apply tracks_ret; split; [done|]; exists [], false; split; [done|]; split; [cbn; lia|done]].
  tracks_step. eapply tracks_IMM_out; [|by intros|].
  { intros [rc' o] Hb. left. cbn. by rewrite is_busy_not_ok. }
  intros [rc' owner]. cbn [fst snd ledger_step]. case_bool_decide; cbn [negb].
  2:{ apply tracks_fail with (c := []); [|cbn; lia]. apply (tracks_log_imm_finalize imm 0 s [] false). }
  tracks_step. eapply tracks_IMM; [|by intros|].
  { intros rc'' Hb. left. cbn. by rewrite is_busy_not_ok. }
  intros rc''. cbn [ledger_step imm_handles owner_handles owning ccb_handles applied only_ccbs].
  case_bool_decide; cbn [negb]; [|apply tracks_fail with (c := []); [apply tracks_log_imm_finalize|cbn; lia]].
  rewrite (union_empty_r_L {[owner]}).
  assert (Hfail : forall c, (length c <= 1)%nat -> tracks ledger_step (release_and_finalize env imm owner ;; mret MafFailure) s
            (MkLedger (take_handle imm ∅) (take_handle owner ∅) {[owner]} c false)
            (fun r s' l => s' = s /\ exists c b, l = only_ccbs c b /\ (length c <= 1)%nat /\ (r = MafOk <-> b = true)))
    by (intros c Hc; apply tracks_fail with (c := c); [apply tracks_release|done]).
  tracks_step. eapply tracks_IMM_out; [|by intros|].
  { intros [rc3 ccb] Hb. left. cbn. by rewrite is_busy_not_ok. }
  intros [rc3 ccb]. cbn [fst snd ledger_step imm_handles owner_handles owning ccb_handles applied app].
  case_bool_decide; cbn [negb]; [|apply Hfail; cbn; lia].
  assert (Hone : (length [ccb] <= 1)%nat) by done.
  tracks_step. eapply tracks_mono; [apply tracks_modify_streams|]. intros rc4 s' l' [-> ->].
  case_bool_decide; cbn [negb]; [|by apply Hfail].
  tracks_step. apply tracks_IMM_silent; [done|]. intros rc5. case_bool_decide; cbn [negb]; [|by apply Hfail].
  tracks_step. eapply tracks_IMM; [|by intros|].
  { intros rc6 Hb. left. cbn. by rewrite is_busy_not_ok. }
  intros rc6. cbn [ledger_step imm_handles owner_handles owning ccb_handles applied].
  case_bool_decide; cbn [negb]; [|by apply Hfail].
  tracks_step. eapply tracks_mono; [apply tracks_release|]. intros _ s' l' [-> ->]. apply tracks_ret.
  split; [done|]. exists [ccb], true. split; [done|]. by split.
Qed.
End imm.

(** ** Closing a stream *)
Section close.
Context {PT : Type} `{PollLaws PT} (env : environment logE).
Implicit Types (s : Log PT) (i : StreamId).

(** Giving a handle back: nothing for the null handle, otherwise at most five
    attempts. *)
Definition asked (h : Z) (e : logE SaAisErrorT) (evs : list (event logE)) (ok : bool) : Prop :=
  if h =? 0 then evs = [] /\ ok = true
  else exists refused r, evs = attempts e (usleep AMF_LOG_TRY_INTERVAL) refused r /\
    Forall (fun x => is_try_again x = true) refused /\ (length refused <= 4)%nat /\ ok = bool_decide (r = SA_AIS_OK).

Definition closed (x : Stream) : Stream :=
  MkStream 0 0 FALSE (LoggerName x) (SelectionObject x) (OpenThreadId x) (LogSevFlags x).
Definition after_close i s : Log PT :=
  on_stream i closed (with_polls (pt_unset (polls s) (SelectionObject (stream i s))) s).

Lemma LOG_TRY_sat (e : logE SaAisErrorT) s tr :
  sat (LOG_TRY env e) (s, tr) (fun r c' => c'.1 = s /\ exists refused,
    c'.2 = tr ++ attempts e (usleep AMF_LOG_TRY_INTERVAL) refused r /\
    Forall (fun x => is_try_again x = true) refused /\ (length refused <= 4)%nat).
Proof.
  eapply sat_mono; [apply (retry_sat env e (usleep AMF_LOG_TRY_INTERVAL) is_try_again 4 s tr)|].
  intros r c' (? & refused & ? & ? & ? & _). split; [done|]. by exists refused.
Qed.

Lemma close_handles_sat i s tr :
  sat (close_handles env i) (s, tr) (fun ok c' =>
    c'.1 = on_stream i (fun x => s_handle 0 (s_stream 0 x)) s /\
    exists e1 e2 ok1 ok2, c'.2 = tr ++ e1 ++ e2 /\
      asked (LogStreamHandle (stream i s)) (saLogStreamClose (LogStreamHandle (stream i s))) e1 ok1 /\
      asked (LogHandle (stream i s)) (saLogFinalize (LogHandle (stream i s))) e2 ok2 /\ ok = ok1 && ok2).
Proof.
  unfold close_handles. do 3 sat_step.
  eapply sat_mono with (P := fun ok1 c' => c'.1 = on_stream i (s_stream 0) s /\ exists e1, c'.2 = tr ++ e1 /\
      asked (LogStreamHandle (stream i s)) (saLogStreamClose (LogStreamHandle (stream i s))) e1 ok1).
  { unfold asked. destruct (Z.eqb_spec (LogStreamHandle (stream i s)) 0) as [Hz|Hz]; cbn [negb].
    - sat_step. split; [|exists []; by rewrite app_nil_r].
      symmetry. apply on_stream_id. by rewrite <- Hz, s_stream_same.
    - sat_step. eapply sat_mono; [apply LOG_TRY_sat|]. intros r [s1 tr1]. cbn [fst snd].
      intros (-> & refused & -> & ? & ?). do 3 sat_step. split; [done|]. eexists. split; [done|].
      by exists refused, r. }
  intros ok1 [s1 tr1]. cbn [fst snd]. intros (-> & e1 & -> & H1). do 3 sat_step.
  assert (Hh : LogHandle (stream i (on_stream i (s_stream 0) s)) = LogHandle (stream i s)) by (by log_simp).
  rewrite Hh.
  eapply sat_mono with (P := fun ok2 c' => c'.1 = on_stream i (fun x => s_handle 0 (s_stream 0 x)) s /\ exists e2, c'.2 = (tr ++ e1) ++ e2 /\
      asked (LogHandle (stream i s)) (saLogFinalize (LogHandle (stream i s))) e2 ok2).
  { unfold asked. destruct (Z.eqb_spec (LogHandle (stream i s)) 0) as [Hz|Hz]; cbn [negb].
    - sat_step. split; [|exists []; by rewrite app_nil_r].
      rewrite <- (on_stream_twice i (s_handle 0) (s_stream 0)). symmetry. apply on_stream_id.
      pose proof (s_handle_same (stream i (on_stream i (s_stream 0) s))) as E. by rewrite Hh, Hz in E.
    - sat_step. eapply sat_mono; [apply LOG_TRY_sat|]. intros r [s1 tr1]. cbn [fst snd].
      intros (-> & refused & -> & ? & ?). do 3 sat_step. split; [by rewrite on_stream_twice|]. eexists. split; [done|].
      by exists refused, r. }
  intros ok2 [s2 tr2]. cbn [fst snd]. intros (-> & e2 & -> & H2). sat_step. split; [done|].
  exists e1, e2, ok1, ok2. by rewrite <- app_assoc.
Qed.

Lemma close_stream_sat i s tr : OpenThreadId (stream i s) = 0 ->
  sat (close_stream env i) (s, tr) (fun ok c' => c'.1 = after_close i s /\
    exists e1 e2 ok1 ok2, c'.2 = tr ++ e1 ++ e2 /\
      asked (LogStreamHandle (stream i s)) (saLogStreamClose (LogStreamHandle (stream i s))) e1 ok1 /\
      asked (LogHandle (stream i s)) (saLogFinalize (LogHandle (stream i s))) e2 ok2 /\ ok = ok1 && ok2).
Proof.
  intros Ht. unfold close_stream, kill_and_join, unregister_fd. do 3 sat_step. rewrite Ht. cbn [Z.eqb negb when].
  do 7 sat_step. eapply sat_mono; [apply close_handles_sat|]. intros ok c'. cbn [fst snd]. log_simp.
  intros (Hs & rest). split; [|exact rest]. rewrite Hs, on_stream_twice. unfold after_close.
  by destruct i.
Qed.

(** A closed stream: no handle, not open, not registered. *)
Definition is_closed i s : Prop :=
  LogHandle (stream i s) = 0 /\ LogStreamHandle (stream i s) = 0 /\ LogFileIsOpen (stream i s) = FALSE /\
  pt_regs (polls s) !! SelectionObject (stream i s) = None.

Lemma polls_after_close i s : polls (after_close i s) = pt_unset (polls s) (SelectionObject (stream i s)).
Proof. unfold after_close. by log_simp. Qed.

Lemma stream_after_close i j s :
  stream j (after_close i s) = if decide (i = j) then closed (stream i s) else stream j s.
Proof. unfold after_close. case_decide; subst; by log_simp. Qed.

Lemma after_close_closed i s : pt_ok (polls s) -> is_closed i (after_close i s).
Proof.
  intros Hok. unfold is_closed. rewrite stream_after_close, decide_True by done.
  split; [done|]. split; [done|]. split; [done|]. rewrite polls_after_close, pt_unset_regs by done. by rewrite lookup_delete_eq.
Qed.

Lemma after_close_keeps i j s : pt_ok (polls s) -> is_closed j s -> is_closed j (after_close i s).
Proof.
  intros Hok (H1 & H2 & H3 & H4). destruct (decide (i = j)) as [->|Hne]; [by apply after_close_closed|].
  unfold is_closed. rewrite stream_after_close, decide_False by done. split; [done|]. split; [done|]. split; [done|].
  rewrite polls_after_close, pt_unset_regs by done.
  destruct (decide (SelectionObject (stream i s) = SelectionObject (stream j s))) as [->|]; [by rewrite lookup_delete_eq|].
  by rewrite lookup_delete_ne.
Qed.
End close.

(** ** The masks of severities *)
Lemma SEVERITY_FLAG_pow2 sev : 0 <= sev -> SEVERITY_FLAG sev = 2 ^ Z.min sev 6.
Proof.
  intros H. destruct (decide (sev < 7)) as [Hlt|].
  - assert (sev = 0 \/ sev = 1 \/ sev = 2 \/ sev = 3 \/ sev = 4 \/ sev = 5 \/ sev = 6) as Hs by lia.
    by repeat destruct Hs as [->|Hs]; [..|subst].
  - rewrite Z.min_r by lia. unfold SEVERITY_FLAG.
    repeat match goal with |- context [?a =? ?b] => rewrite (proj2 (Z.eqb_neq a b)) by (unfold MW_SA_LOG_SEV_EMERGENCY, MW_SA_LOG_SEV_ALERT, MW_SA_LOG_SEV_CRITICAL, MW_SA_LOG_SEV_ERROR, MW_SA_LOG_SEV_WARNING, MW_SA_LOG_SEV_NOTICE, MW_SA_LOG_SEV_INFO; lia) end.
    done.
Qed.

Lemma land_pow2 a k : 0 <= k -> negb (Z.land a (2 ^ k) =? 0) = Z.testbit a k.
Proof.
  intros Hk. assert (He : Z.land a (2 ^ k) = if Z.testbit a k then 2 ^ k else 0).
  { apply Z.bits_inj'. intros m Hm. rewrite Z.land_spec, Z.pow2_bits_eqb by done.
    destruct (Z.eqb_spec k m) as [->|Hne].
    - destruct (Z.testbit a m); simpl; [by rewrite Z.pow2_bits_true|by rewrite Z.bits_0].
    - rewrite andb_false_r. destruct (Z.testbit a k); [by rewrite Z.pow2_bits_false|by rewrite Z.bits_0]. }
  rewrite He. destruct (Z.testbit a k); [|done]. assert (0 < 2 ^ k) by (by apply Z.pow_pos_nonneg).
  by rewrite (proj2 (Z.eqb_neq _ _)) by lia.
Qed.

Lemma severity_filter_from values acc k :
  Z.testbit (fold_left (fun tmp v => Z.lor tmp (SEVERITY_FLAG (wrap_u 16 v))) values acc) k =
  Z.testbit acc k || existsb (fun v => Z.testbit (SEVERITY_FLAG (wrap_u 16 v)) k) values.
Proof.
  revert acc. induction values as [|v vs IH]; intros acc; simpl; [by rewrite orb_false_r|].
  by rewrite IH, Z.lor_spec, orb_assoc.
Qed.

Lemma severity_filter_mem values k : Forall (fun v => 0 <= v <= 6) values -> 0 <= k <= 6 ->
  Z.testbit (severity_filter values) k = bool_decide (k ∈ values).
Proof.
  intros Hv Hk. unfold severity_filter. rewrite severity_filter_from, Z.bits_0. simpl.
  induction Hv as [|v vs Hv Hvs IH]; cbn [existsb]; [done|].
  assert (Hw : wrap_u 16 v = v) by (unfold wrap_u; apply Z.mod_small; simpl; lia).
  rewrite IH, Hw, SEVERITY_FLAG_pow2, Z.pow2_bits_eqb, Z.min_l by lia.
  destruct (Z.eqb_spec v k) as [->|Hne]; simpl.
  - rewrite bool_decide_true; [done|left].
  - apply bool_decide_ext. rewrite elem_of_cons. intuition congruence.
Qed.

(** ** Opening a stream *)
Definition is_open_call (ev : event logE) : bool :=
  match ev with
  | @Ev _ R e _ => match e with saLogStreamOpen_2 _ _ => true | _ => false end
  end.
(** The attempts to open a stream so far. *)
Definition opens (tr : list (event logE)) : nat := length (List.filter is_open_call tr).

Lemma opens_snoc tr ev : opens (tr ++ [ev]) = (opens tr + if is_open_call ev then 1 else 0)%nat.
Proof. unfold opens. rewrite List.filter_app, length_app. simpl. by destruct (is_open_call ev). Qed.

(** A pause that a signal or an error has cut short, and how many of them a trace ends with. *)
Definition is_cut_short (ev : event logE) : bool :=
  match ev with
  | @Ev _ R e r => match e in logE R return R -> bool with
                   | nanosleep _ _ => fun r => match r with Slept => false | _ => true end
                   | _ => fun _ => false
                   end r
  end.
Fixpoint heading (l : list (event logE)) : nat :=
  match l with ev :: l => if is_cut_short ev then S (heading l) else 0%nat | [] => 0%nat end.
Definition cut_short (tr : list (event logE)) : nat := heading (rev tr).

Lemma cut_short_snoc tr ev : cut_short (tr ++ [ev]) = if is_cut_short ev then S (cut_short tr) else 0%nat.
Proof. unfold cut_short. by rewrite rev_app_distr. Qed.

Section open.
Context {PT : Type} `{PollLaws PT} (env : environment logE).
Implicit Types (s : Log PT) (i : StreamId).

(** The log service accepts, at the latest, the attempt after the first [n]. *)
Definition accepts (n : nat) : Prop :=
  forall tr h name, (n <= opens tr)%nat -> (env _ tr (saLogStreamOpen_2 h name)).1 = SA_AIS_OK.
(** After [m] pauses in a row that were cut short comes one that is not. *)
Definition rests (m : nat) : Prop :=
  forall tr sec nsec, (m <= cut_short tr)%nat -> env _ tr (nanosleep sec nsec) = Slept.
(** The last thing that happened is a failure of [nanosleep]. *)
Definition sleepless (tr : list (event logE)) : Prop := exists tr' sec nsec,
  tr = tr' ++ [Ev (nanosleep sec nsec) SleepError] /\ env _ tr' (nanosleep sec nsec) = SleepError.

(** [s'] is [s] with the stream handle [h], which the last call delivered. *)
Definition opened i s h (c' : Log PT * list (event logE)) : Prop :=
  c'.1 = on_stream i (s_stream h) s /\
  last c'.2 = Some (Ev (saLogStreamOpen_2 (LogHandle (stream i s)) (log_stream_name (cc_name s) i)) (SA_AIS_OK, h)).

Lemma on_stream_handle i h h' s : on_stream i (s_stream h') (on_stream i (s_stream h) s) = on_stream i (s_stream h') s.
Proof. by rewrite on_stream_twice. Qed.

Lemma LOG_open_sat n f i s tr : accepts n -> (n - opens tr < f)%nat ->
  sat (LOG_API_CALL env f (stream_open env i)) (s, tr) (fun rc c' => exists h,
    c'.1 = on_stream i (s_stream h) s /\ (opens tr < opens c'.2)%nat /\
    (rc = SA_AIS_OK -> opened i s h c') /\ (rc <> SA_AIS_OK -> (opens tr < n)%nat /\ rc <> SA_AIS_ERR_TRY_AGAIN)).
Proof.
  intros Hacc. revert s tr. induction f as [|f IH]; intros s tr Hf; [lia|].
  cbn [LOG_API_CALL]. sat_step. unfold stream_open at 1. do 4 sat_step.
  match goal with Ha : env _ _ _ = _ |- _ => rename Ha into Hans end. destruct r as [rc h].
  do 3 sat_step. set (ev := Ev _ _).
  assert (Ho : opens (tr ++ [ev]) = S (opens tr)) by (rewrite opens_snoc; simpl; lia).
  assert (Hn : rc <> SA_AIS_OK -> (opens tr < n)%nat).
  { intros Hrc. destruct (decide (n <= opens tr)%nat) as [Hle|]; [|lia]. exfalso. apply Hrc.
    pose proof (Hacc tr (LogHandle (stream i s)) (log_stream_name (cc_name s) i) Hle) as Ha. cbn [snd] in Hans. by rewrite Hans in Ha. }
  destruct (is_try_again rc) eqn:Er.
  - assert (rc <> SA_AIS_OK) as Hrc by (by intros ->). do 2 sat_step. specialize (Hn Hrc).
    eapply sat_mono; [apply IH; rewrite opens_snoc, Ho; simpl; lia|].
    intros rc' c'. cbn beta. rewrite opens_snoc, Ho. cbn [is_open_call]. intros (h' & E1 & E2 & E3 & E4).
    exists h'. rewrite E1, on_stream_handle. split; [done|]. split; [lia|]. split.
    + intros Hok. destruct (E3 Hok) as [E5 E6]. split; [by rewrite E5, on_stream_handle|].
      rewrite E6. by log_simp.
    + intros Hno. split; [lia|]. by apply E4.
  - sat_step. exists h. split; [done|]. rewrite Ho. split; [lia|]. split.
    + intros ->. split; [done|]. cbn [snd]. by rewrite last_snoc.
    + intros Hrc. split; [by apply Hn|]. by apply is_try_again_ok.
Qed.

(** A pause of the loop: it ends, and opens nothing. *)
Definition quiet_pause (m : M logE (Log PT) ()) : Prop :=
  forall s tr, sat m (s, tr) (fun _ c' => c'.1 = s /\ opens c'.2 = opens tr).

Lemma full_sleep_sat m fuel sec nsec s tr : rests m -> (m - cut_short tr < fuel)%nat ->
  sat (full_sleep env fuel sec nsec) (s, tr) (fun r c' =>
    c'.1 = s /\ opens c'.2 = opens tr /\ (r = false -> sleepless c'.2)).
Proof.
  intros Hm. revert sec nsec tr. induction fuel as [|fuel IH]; intros sec nsec tr Hf; [lia|].
  cbn [full_sleep]. do 2 sat_step. match goal with Ha : env _ _ _ = _ |- _ => rename Ha into Hans end.
  cbn [snd] in Hans.
  assert (Ho : opens (tr ++ [Ev (nanosleep sec nsec) r]) = opens tr) by (rewrite opens_snoc; simpl; lia).
  destruct r as [|sec' nsec'|].
  - sat_step. by rewrite Ho.
  - assert (cut_short tr < m)%nat.
    { destruct (decide (m <= cut_short tr)%nat) as [Hle|]; [|lia]. by rewrite (Hm tr sec nsec Hle) in Hans. }
    eapply sat_mono; [apply IH; rewrite cut_short_snoc; simpl; lia|].
    intros r c'. cbn beta. by rewrite Ho.
  - sat_step. split; [done|]. split; [done|]. intros _. by exists tr, sec, nsec.
Qed.

Lemma three_seconds_quiet m fuel : rests m -> (m < fuel)%nat -> quiet_pause (three_seconds env fuel).
Proof.
  intros Hm Hf s tr. assert (Hk : (m - cut_short tr < fuel)%nat) by lia. clear Hf. revert tr Hk.
  induction fuel as [|fuel IH]; intros tr Hf; [lia|].
  cbn [three_seconds]. do 2 sat_step. match goal with Ha : env _ _ _ = _ |- _ => rename Ha into Hans end.
  cbn [snd] in Hans.
  assert (Ho : opens (tr ++ [Ev (nanosleep 3 0) r]) = opens tr) by (rewrite opens_snoc; simpl; lia).
  assert (Hcut : r <> Slept -> (cut_short tr < m)%nat).
  { intros Hr. destruct (decide (m <= cut_short tr)%nat) as [Hle|]; [|lia]. by rewrite (Hm tr 3 0 Hle) in Hans. }
  destruct r; [sat_step; by rewrite Ho|..]; specialize (Hcut ltac:(done));
    (eapply sat_mono; [apply IH; rewrite cut_short_snoc; simpl; lia|]); intros r c'; cbn beta; by rewrite Ho.
Qed.

(** The loop ends with the stream's handle, or because [nanosleep] failed. *)
Lemma open_loop_sat n m fuel k i pause s tr : accepts n -> rests m -> quiet_pause pause ->
  (n < fuel)%nat -> (m < fuel)%nat -> (n - opens tr < k)%nat ->
  sat (open_loop env fuel k i pause) (s, tr) (fun r c' => exists h, c'.1 = on_stream i (s_stream h) s /\
    (r = true -> opened i s h c') /\ (r = false -> sleepless c'.2)).
Proof.
  intros Hacc Hm Hp Hfuel Hfm. revert s tr. induction k as [|k IH]; intros s tr Hk; [lia|].
  cbn [open_loop]. sat_step. eapply sat_mono; [apply (LOG_open_sat n); [done|lia]|].
  intros rc [s1 tr1]. cbn [fst snd]. intros (h & -> & Hlt & Hok & Hno).
  set (post := fun r c' => exists h, c'.1 = on_stream i (s_stream h) s /\ (r = true -> opened i s h c') /\ (r = false -> sleepless c'.2)).
  assert (Hnext : rc <> SA_AIS_OK -> forall tr2, opens tr2 = opens tr1 ->
            sat (open_loop env fuel k i pause) (on_stream i (s_stream h) s, tr2) post).
  { intros Hrc tr2 Ho. destruct (Hno Hrc) as [Hn _]. eapply sat_mono; [apply IH; lia|].
    intros r c' (h' & E1 & E2 & E3). exists h'. split; [by rewrite E1, on_stream_handle|]. split; [|done].
    intros Hr. destruct (E2 Hr) as [E4 E5]. split; [by rewrite E4, on_stream_handle|]. rewrite E5. by log_simp. }
  assert (Hpause : rc <> SA_AIS_OK -> sat (pause ;; open_loop env fuel k i pause) (on_stream i (s_stream h) s, tr1) post).
  { intros Hrc. sat_step. eapply sat_mono; [apply Hp|]. intros a [s2 tr2]. cbn [fst snd]. intros [-> Ho]. by apply Hnext. }
  destruct rc; try (by apply Hpause).
  - sat_step. exists h. split; [done|]. split; [|done]. intros _. by apply Hok.
  - by apply Hnext.
  - sat_step. eapply sat_mono; [apply (full_sleep_sat m); [done|lia]|]. intros a [s2 tr2]. cbn [fst snd].
    intros (-> & Ho & Ha). destruct a; [by apply Hnext|]. sat_step. exists h. split; [done|]. split; [done|].
    intros _. by apply Ha.
Qed.

Lemma register_fd_sat f pfd s tr : pt_ok (polls s) ->
  sat (register_fd f pfd) (s, tr) (fun rc c' => c'.2 = tr /\
    c'.1 = with_polls (polls c'.1) s /\ pt_ok (polls c'.1) /\
    (rc = 0 <-> pt_regs (polls s) !! pfd = None /\ (size (pt_regs (polls s)) < pt_cap (polls s))%nat) /\
    (rc = 0 -> pt_regs (polls c'.1) = <[pfd := (POLLIN, f, 0)]> (pt_regs (polls s)))).
Proof.
  intros Hok. unfold register_fd. do 2 sat_step.
  pose proof (pt_set_ok (polls s) f (MkPollfd pfd POLLIN 0) 0 Hok) as Hok'.
  pose proof (pt_set_known (polls s) f (MkPollfd pfd POLLIN 0) 0 Hok) as Hknown.
  pose proof (pt_set_new (polls s) f (MkPollfd pfd POLLIN 0) 0 Hok) as Hnew.
  pose proof (pt_set_full (polls s) f (MkPollfd pfd POLLIN 0) 0 Hok) as Hfull.
  pose proof (pt_size (polls s) Hok) as Hsize. cbn [fd events] in *.
  destruct (pt_set (polls s) f (MkPollfd pfd POLLIN 0) 0) as [rc t] eqn:E. do 3 sat_step. cbn [fst snd] in *.
  split; [done|]. split; [done|]. split; [done|].
  destruct (pt_regs (polls s) !! pfd) as [x|] eqn:Ex.
  - destruct (Hknown ltac:(eauto)) as [-> _]. split; [|done]. split; [done|by intros [? _]].
  - destruct (decide (size (pt_regs (polls s)) < pt_cap (polls s))%nat) as [Hlt|Hge].
    + destruct (Hnew eq_refl Hlt) as [-> Hre]. split; [done|]. intros _. exact Hre.
    + specialize (Hfull eq_refl ltac:(lia)). simplify_eq. split; [|done]. split; [done|by intros [_ ?]].
Qed.
End open.
