(* ===== verification/LogProps.v ===== *)
(** * Properties of the log service

    Where a record goes and when, the severity filters, opening, closing, and the
    handles of the IMM. *)
From Stdlib Require Import ZArith Lia Ascii.
From stdpp Require Import base gmap list strings.
From S2P Require Import Prelude SelectTimer PollTable Codes LogConfig LogService LogFacts.

#[local] Open Scope string_scope.
#[local] Open Scope list_scope.
#[local] Open Scope Z_scope.

(** ** Where a record goes *)
(** The abstract specification of [logWrite]. *)
Inductive destination :=
| ToSyslog (priority : Z)
| ToAuditLog (priority : Z)
| ToStream (i : StreamId) (severity : Z)
| Discarded.

(** Severities above INFO are filtered by the bit of INFO. *)
Definition passes (flags severity : Z) : bool := Z.testbit flags (Z.min severity 6).

Definition destination_of {PT} (s : Log PT) (severity facility : Z) : destination :=
  if decide (facility ∈ [4; 10]) then ToSyslog (severity + 8 * facility)
  else if decide (facility ∈ [13; 17]) then ToAuditLog 5
  else if decide (facility ∈ [300; 500]) then ToAuditLog severity
  else
    let i := if decide (cc_name s = "lm") then TheLog
             else if decide (facility = 100) then AlarmLog
             else if decide (facility = 101) then AlertLog else TheLog in
    let sev := if decide (cc_name s <> "lm" /\ i = TheLog /\ severity = 6) then 5 else severity in
    if passes (LogSevFlags (stream i s)) sev || (trace_flag s =? 1) then ToStream i sev else Discarded.

Lemma logger_info_allowed {PT} i sev (s : Log PT) : 0 <= sev ->
  isLogAllowed (logger_info i sev s) = passes (LogSevFlags (stream i s)) sev.
Proof. intros H. unfold logger_info, passes. cbn. rewrite SEVERITY_FLAG_pow2 by done. apply land_pow2. lia. Qed.

(** [getLoggerInfo] is the choice of stream and severity of the specification. *)
Lemma getLoggerInfo_spec {PT} (s : Log PT) severity facility : 0 <= severity -> facility <> 300 -> facility <> 500 ->
  exists i sev, 0 <= sev /\ getLoggerInfo facility severity s = logger_info i sev s /\
    i = (if decide (cc_name s = "lm") then TheLog
         else if decide (facility = 100) then AlarmLog
         else if decide (facility = 101) then AlertLog else TheLog) /\
    sev = (if decide (cc_name s <> "lm" /\ i = TheLog /\ severity = 6) then 5 else severity).
Proof.
  intros Hs H3 H5. unfold getLoggerInfo, ALARM_LOG, ALERT_LOG, COMMAND_LOG, SECURITY_LOG, MW_SA_LOG_SEV_INFO, MW_SA_LOG_SEV_NOTICE.
  case_bool_decide as Hcc.
  - exists TheLog, severity. rewrite decide_True by done. rewrite decide_False by naive_solver. done.
  - rewrite (decide_False (P := cc_name s = "lm")) by done.
    destruct (Z.eqb_spec facility 100) as [->|H100].
    { exists AlarmLog, severity. rewrite !decide_True by done. rewrite decide_False by naive_solver. done. }
    destruct (Z.eqb_spec facility 101) as [->|H101].
    { exists AlertLog, severity. rewrite decide_False by done. rewrite decide_True by done. rewrite decide_False by naive_solver. done. }
    rewrite (proj2 (Z.eqb_neq _ _) H3), (proj2 (Z.eqb_neq _ _) H5).
    exists TheLog, (if severity =? 6 then 5 else severity). rewrite !(decide_False (P := facility = _)) by done.
    destruct (Z.eqb_spec severity 6) as [->|H6].
    + by rewrite decide_True.
    + by rewrite decide_False by naive_solver.
Qed.

(** C36. [logWrite] sends every record where the specification says, and nowhere
    else: authorisation messages go to syslog, audit, command and security
    records to the audit log, and the rest to its stream exactly when the
    stream's severity filter has the severity's bit or tracing is on (INFO being
    written as NOTICE on the system stream).  This is for a severity that is not negative, a record whose stream is open (what
    happens to others contradicts the comments of the file, [logWrite_never_diverted]) and
    a log service that refuses a write at most [n] times in a row: the write is repeated after each
    refusal without a limit.  Then it returns, and reports failure
    exactly when the last answer is an error. *)
Theorem logWrite_routes {PT} (env : environment logE) fuel n (s : Log PT) tr id severity facility text :
  0 <= severity -> (forall i sev, destination_of s severity facility = ToStream i sev -> LogFileIsOpen (stream i s) = TRUE) ->
  (n < fuel)%nat -> (forall h r, settles env (saLogWriteLogAsync h r) n) ->
  sat (logWrite env fuel id severity facility text) (s, tr) (fun r c' => c'.1 = s /\
    match destination_of s severity facility with
    | ToSyslog p => r = MafOk /\ c'.2 = tr ++ [Ev (syslog p text) ()]
    | ToAuditLog p => r = MafOk /\ c'.2 = tr ++ [Ev (auditlogger p text) ()]
    | ToStream i sev => exists refused answer,
        c'.2 = tr ++ (if traceWrite s then [Ev (trace_write 0 text) ()] else []) ++
          attempts (saLogWriteLogAsync (LogStreamHandle (stream i s)) (MkRecord (LoggerName (stream i s)) sev text))
            (sleep 1) refused answer /\
        Forall (fun x => is_try_again x = true) refused /\ (length refused <= n)%nat /\
        answer <> SA_AIS_ERR_TRY_AGAIN /\ (r = MafOk <-> answer = SA_AIS_OK)
    | Discarded => r = MafOk /\ c'.2 = tr
    end).
Proof.
  intros Hsev _ Hfuel Hset. unfold logWrite, destination_of, SECURITY_AUTHORIZATION_MESSAGE_1, SECURITY_AUTHORIZATION_MESSAGE_2,
    LOG_AUDIT_MESSAGE, LOG_AUDIT_MESSAGE_LOCAL1, COMMAND_LOG, SECURITY_LOG.
  assert (Hin : forall a b, (facility =? a) || (facility =? b) = bool_decide (facility ∈ [a; b])).
  { intros a b. apply eq_true_iff_eq. rewrite orb_true_iff, !Z.eqb_eq, bool_decide_eq_true. set_solver. }
  rewrite !Hin. rewrite <- !decide_bool_decide.
  destruct (decide (facility ∈ [4; 10])).
  { do 3 sat_step. match goal with |- context [Ev _ ?u] => destruct u end. unfold SYSLOG_LEVEL. split; [done|]. split; [done|]. by rewrite (Z.mul_comm facility). }
  destruct (decide (facility ∈ [13; 17])).
  { do 3 sat_step. by match goal with |- context [Ev _ ?u] => destruct u end. }
  destruct (decide (facility ∈ [300; 500])) as [|Hd].
  { do 3 sat_step. by match goal with |- context [Ev _ ?u] => destruct u end. }
  destruct (getLoggerInfo_spec s severity facility Hsev) as (i & sev & Hsev' & Hinfo & Hi & Hsv); [set_solver..|].
  do 2 sat_step. rewrite Hinfo, logger_info_allowed by done. cbn zeta. rewrite <- Hi, <- Hsv.
  destruct (passes _ _ || _); [|by sat_step]. cbn [isLogFileOpen logger_info].
  assert (Hneg : negb (facility =? 500) && negb (facility =? 300) = true).
  { rewrite <- negb_orb, negb_true_iff, orb_comm. rewrite Hin. by rewrite bool_decide_false. }
  rewrite Hneg. sat_step. cbn [andb].
  eapply sat_mono with (P := fun _ c' => c' = (s, tr ++ if traceWrite s then [Ev (trace_write 0 text) ()] else [])).
  { destruct (traceWrite s); cbn [when]; sat_step; [|by rewrite app_nil_r].
    by match goal with |- context [Ev _ ?u] => destruct u end. }
  intros _ ? ->. sat_step. eapply sat_mono; [by apply LOG_API_CALL_sat|].
  intros answer [s1 tr1]. cbn [fst snd]. intros (-> & Ha & refused & -> & Hall & Hle). sat_step.
  split; [done|]. exists refused, answer. rewrite <- app_assoc. split; [done|]. split; [done|]. split; [done|]. split; [done|].
  case_bool_decide; naive_solver.
Qed.

(** A log service that refuses the first write and the first two attempts to open
    a stream. *)
Definition is_write (ev : event logE) : bool :=
  match ev with
  | @Ev _ R e _ => match e with saLogWriteLogAsync _ _ => true | _ => false end
  end.
Definition demo_env : environment logE := fun R tr e =>
  match e in logE R return R with
  | saLogInitialize _ => (SA_AIS_OK, 11)
  | saLogSelectionObjectGet _ => (SA_AIS_OK, 12)
  | saLogStreamOpen_2 _ _ => if (opens tr <? 2)%nat then (SA_AIS_ERR_UNAVAILABLE, 0) else (SA_AIS_OK, 13)
  | saLogStreamClose _ | saLogFinalize _ => SA_AIS_OK
  | saLogDispatch _ => ([], SA_AIS_OK)
  | saLogWriteLogAsync _ _ => if existsb is_write tr then SA_AIS_OK else SA_AIS_ERR_TRY_AGAIN
  | nanosleep _ _ => Slept
  | pthread_create _ => (0, 21)
  | pthread_detach _ | pthread_kill_SIGKILL _ | pthread_join _ | fcntl_getfl _ | fcntl_setfl _ _ => 0
  | pipe_sys => Some (31, 32)
  | popen_comea => true
  | fgets_comea => Some (lit "/cluster/root")
  | getClearStorage => lit "/storage"
  | read_lines _ => None
  | symlink _ _ => SymOk
  | stat_mtime _ => Some 1
  | processOpen _ | shmget | shmdt | shmctl_remove _ | pthread_attr_init | pthread_attr_setdetachstate | pthread_attr_destroy
  | pthread_create_config | pthread_cancel_config | pthread_join_config => 0
  | read_storage_path => Some (lit "/storage")
  | shmat _ => Some 0
  | sigaction_timer => true
  | get_timestamp => lit "2024-01-01 00:00:00"
  | autoRetry_saImmOmInitialize | autoRetry_saImmOmAccessorInitialize _ | saImmOmAdminOwnerInitialize _
  | saImmOmCcbInitialize _ => (SA_AIS_OK, 41)
  | autoRetry_saImmOmAccessorGet_2 _ _ _ => (SA_AIS_OK, [MkAttr LOGM_LOG_SEVERITYFILTER (SAINT32T [0; 3; 6])])
  | saImmOmAdminOwnerSet _ _ | saImmOmAdminOwnerRelease _ _ | saImmOmAdminOwnerFinalize _ | saImmOmFinalize _
  | saImmOmCcbObjectModify_2 _ _ _ | saImmOmCcbValidate _ | saImmOmCcbApply _ => SA_AIS_OK
  | _ => ()
  end.

(** The streams after opening, with an empty poll table. *)
Definition demo_log : Log pollextensions :=
  MkLog _ (MkStreams (MkStream 1 2 TRUE "COM SA logger" 3 0 63) (MkStream 4 5 TRUE "COM SA logger" 6 0 127)
             (MkStream 7 8 TRUE "COM SA logger" 9 0 127) (initial_stream 63) (initial_stream 63) (initial_stream 63) (initial_stream 63))
    false false false false None (Some "COM SA logger") default_attributes false false false true 0 "com"
    (MkPollExt 4 (replicate 4 (MkPollfd 0 0 0)) 0 (replicate 4 (MkPollFn 0%nat 0))).

Lemma demo_settles h r : settles demo_env (saLogWriteLogAsync h r) 1.
Proof.
  intros tr. cbn. destruct (existsb is_write tr) eqn:E.
  - exists 0%nat. cbn. rewrite app_nil_r, E. split; [lia|done].
  - exists 1%nat. split; [done|]. cbn. by rewrite existsb_app, E.
Qed.

Example logWrite_routes_witness : exists refused answer c',
  logWrite demo_env 5 0 6 0 "started" (demo_log, []) = (Ret MafOk, c') /\
  c'.2 = [Ev (trace_write 0 "started") ()] ++ attempts (saLogWriteLogAsync 2 (MkRecord "COM SA logger" 5 "started")) (sleep 1) refused answer /\
  answer = SA_AIS_OK.
Proof.
  destruct (logWrite_routes demo_env 5 1 demo_log [] 0 6 0 "started" ltac:(lia) ltac:(by intros [] ? [=]) ltac:(lia) (fun h r => demo_settles h r))
    as (r & c' & Hrun & _ & refused & answer & Htr & _ & _ & _ & Hr).
  exists refused, answer, c'. assert (r = MafOk) as ->.
  { vm_compute in Hrun. congruence. }
  split; [exact Hrun|]. split; [exact Htr|]. by apply Hr.
Defined.

(** A record for a stream is never diverted to syslog, even when the stream
    is not open: the test is made on the address of the flag, which is never
    null, and not on the flag.  With [destination_of] this holds of every facility
    but the two of authorisation messages. *)
Definition not_syslog (ev : event logE) : bool :=
  match ev with
  | @Ev _ R e _ => match e with syslog _ _ => false | _ => true end
  end.
Theorem logWrite_never_diverted {PT} (env : environment logE) fuel (s : Log PT) tr id severity facility text :
  facility <> 4 -> facility <> 10 ->
  post (logWrite env fuel id severity facility text) (s, tr) (fun _ c' =>
    exists evs, c'.2 = tr ++ evs /\ forallb not_syslog evs = true) (fun w => w = OutOfFuel).
Proof.
  intros H4 H10. unfold logWrite, SECURITY_AUTHORIZATION_MESSAGE_1, SECURITY_AUTHORIZATION_MESSAGE_2.
  rewrite (proj2 (Z.eqb_neq _ _) H4), (proj2 (Z.eqb_neq _ _) H10). cbn [orb].
  assert (Hone : forall (e : logE ()), not_syslog (Ev e ()) = true ->
    post (call env e ;; mret MafOk) (s, tr) (fun _ c' => exists evs, c'.2 = tr ++ evs /\ forallb not_syslog evs = true) (fun w => w = OutOfFuel)).
  { intros e He. do 3 post_step. match goal with |- context [Ev _ ?u] => destruct u end. eexists. split; [done|]. cbn [forallb]. by rewrite He. }
  destruct (_ || _); [by apply Hone|]. destruct (_ || _); [by apply Hone|].
  do 2 post_step. cbn zeta. destruct (_ || _); [|post_step; exists []; by rewrite app_nil_r].
  assert (Hptr : exists i, isLogFileOpen (getLoggerInfo facility severity s) = Some i).
  { unfold getLoggerInfo. repeat case_match; by eexists. }
  destruct Hptr as [i ->].
  assert (Hloop : forall e k, not_syslog (Ev e SA_AIS_OK) = true -> forall (s1 : Log PT) tr1, post (LOG_API_CALL env k (call env e)) (s1, tr1)
    (fun _ c' => exists evs, c'.2 = tr1 ++ evs /\ forallb not_syslog evs = true) (fun w => w = OutOfFuel)).
  { intros e k He. assert (He' : forall r, not_syslog (Ev e r) = true) by (intros r; exact He).
    induction k as [|k IH]; intros s1 tr1; cbn [LOG_API_CALL]; [done|]. do 2 post_step.
    destruct (is_try_again r).
    - do 2 post_step. match goal with |- context [Ev (sleep 1) ?u] => destruct u end.
      eapply post_mono; [apply IH| |done]. intros r2 [s2 tr2]. cbn [fst snd]. intros (evs & -> & Hevs).
      eexists (Ev e r :: Ev (sleep 1) () :: evs). rewrite <- !app_assoc. split; [done|]. cbn [forallb]. by rewrite He', Hevs.
    - post_step. eexists. split; [done|]. cbn [forallb]. by rewrite He'. }
  post_step. destruct (_ && _); cbn [when].
  - post_step. match goal with |- context [Ev _ ?u] => destruct u end. post_step.
    eapply post_mono; [by apply Hloop| |done]. intros r [s2 tr2]. cbn [fst snd]. intros (evs & -> & Hevs). post_step.
    eexists (Ev (trace_write 0 text) () :: evs). rewrite <- app_assoc. by split.
  - post_step. post_step. eapply post_mono; [by apply Hloop| |done]. intros r [s2 tr2]. cbn [fst snd]. intros (evs & -> & Hevs). post_step. by exists evs.
Qed.

Example logWrite_never_diverted_witness :
  100 <> 4 /\ 100 <> 10 /\
  post (logWrite demo_env 5 0 2 100 "alarm") (on_stream AlarmLog (s_isopen FALSE) demo_log, []) (fun _ c' =>
    exists evs, c'.2 = [] ++ evs /\ forallb not_syslog evs = true) (fun w => w = OutOfFuel).
Proof.
  split; [lia|]. split; [lia|].
  apply (logWrite_never_diverted demo_env 5 (on_stream AlarmLog (s_isopen FALSE) demo_log) [] 0 2 100 "alarm"); lia.
Defined.

(** ** Closing *)
Lemma AlarmAndAlertLogServiceClose_sat {PT} `{PollLaws PT} (env : environment logE) (s : Log PT) tr :
  OpenThreadId (stream AlarmLog s) = 0 -> OpenThreadId (stream AlertLog s) = 0 ->
  sat (AlarmAndAlertLogServiceClose env) (s, tr) (fun r c' =>
    c'.1 = after_close AlertLog (after_close AlarmLog s) /\
    exists e1 e2 e3 e4 ok1 ok2 ok3 ok4, c'.2 = tr ++ e1 ++ e2 ++ e3 ++ e4 /\
      asked (LogStreamHandle (stream AlarmLog s)) (saLogStreamClose (LogStreamHandle (stream AlarmLog s))) e1 ok1 /\
      asked (LogHandle (stream AlarmLog s)) (saLogFinalize (LogHandle (stream AlarmLog s))) e2 ok2 /\
      asked (LogStreamHandle (stream AlertLog s)) (saLogStreamClose (LogStreamHandle (stream AlertLog s))) e3 ok3 /\
      asked (LogHandle (stream AlertLog s)) (saLogFinalize (LogHandle (stream AlertLog s))) e4 ok4 /\
      (r = MafOk <-> ok1 = true /\ ok2 = true /\ ok3 = true /\ ok4 = true)).
Proof.
  intros H1 H2. unfold AlarmAndAlertLogServiceClose. sat_step.
  eapply sat_mono; [by apply close_stream_sat|]. intros oka [s1 tr1]. cbn [fst snd].
  intros (-> & e1 & e2 & ok1 & ok2 & -> & Ha1 & Ha2 & ->). sat_step.
  assert (Hs : stream AlertLog (after_close AlarmLog s) = stream AlertLog s) by (by rewrite stream_after_close, decide_False).
  eapply sat_mono; [apply close_stream_sat; by rewrite Hs|]. rewrite Hs. intros okb [s2 tr2]. cbn [fst snd].
  intros (-> & e3 & e4 & ok3 & ok4 & -> & Ha3 & Ha4 & ->). sat_step. split; [done|].
  exists e1, e2, e3, e4, ok1, ok2, ok3, ok4. split; [by rewrite <- !app_assoc|].
  do 4 (split; [done|]). by destruct ok1, ok2, ok3, ok4; naive_solver.
Qed.

(** C37. Closing the alarm and alert logs, when no thread is still opening them (else
    the process is killed, [close_kills_process]), always returns and leaves both closed: each
    handle that is not null is asked back with at most
    five attempts and forgotten, also when all of them failed; the flags are down, the two descriptors (and no
    other) leave the poll table, the other streams stay as they are; the result
    is [MafOk] exactly when all the calls succeeded.  A second close then makes no
    external call and answers [MafOk]. *)
Theorem alarm_alert_close_releases {PT} `{PollLaws PT} (env : environment logE) (s : Log PT) tr :
  OpenThreadId (stream AlarmLog s) = 0 -> OpenThreadId (stream AlertLog s) = 0 -> pt_ok (polls s) ->
  sat (AlarmAndAlertLogServiceClose env) (s, tr) (fun r c' =>
    is_closed AlarmLog c'.1 /\ is_closed AlertLog c'.1 /\
    (forall i, i <> AlarmLog -> i <> AlertLog -> stream i c'.1 = stream i s) /\
    pt_regs (polls c'.1) = delete (SelectionObject (stream AlertLog s))
                             (delete (SelectionObject (stream AlarmLog s)) (pt_regs (polls s))) /\
    (exists e1 e2 e3 e4 ok1 ok2 ok3 ok4, c'.2 = tr ++ e1 ++ e2 ++ e3 ++ e4 /\
      asked (LogStreamHandle (stream AlarmLog s)) (saLogStreamClose (LogStreamHandle (stream AlarmLog s))) e1 ok1 /\
      asked (LogHandle (stream AlarmLog s)) (saLogFinalize (LogHandle (stream AlarmLog s))) e2 ok2 /\
      asked (LogStreamHandle (stream AlertLog s)) (saLogStreamClose (LogStreamHandle (stream AlertLog s))) e3 ok3 /\
      asked (LogHandle (stream AlertLog s)) (saLogFinalize (LogHandle (stream AlertLog s))) e4 ok4 /\
      (r = MafOk <-> ok1 = true /\ ok2 = true /\ ok3 = true /\ ok4 = true)) /\
    sat (AlarmAndAlertLogServiceClose env) c' (fun r2 c2 => r2 = MafOk /\ c2.2 = c'.2)).
Proof.
  intros H1 H2 Hok. eapply sat_mono; [by apply AlarmAndAlertLogServiceClose_sat|].
  intros r [s1 tr1]. cbn [fst snd]. intros (-> & Hev).
  set (s1 := after_close AlarmLog s). assert (Hok1 : pt_ok (polls s1)).
  { unfold s1. rewrite polls_after_close. by apply pt_unset_ok. }
  assert (Hs : stream AlertLog s1 = stream AlertLog s) by (unfold s1; by rewrite stream_after_close, decide_False).
  assert (Hca : is_closed AlarmLog (after_close AlertLog s1)) by (by apply after_close_keeps, after_close_closed).
  assert (Hcb : is_closed AlertLog (after_close AlertLog s1)) by (by apply after_close_closed).
  split; [exact Hca|]. split; [exact Hcb|]. split.
  { intros i Ha Hb. unfold s1. rewrite !stream_after_close, !decide_False by done. done. }
  split.
  { rewrite polls_after_close, pt_unset_regs, Hs by done. unfold s1. by rewrite polls_after_close, pt_unset_regs. }
  split; [exact Hev|]. destruct Hca as (Hh1 & Hh2 & _), Hcb as (Hh3 & Hh4 & _).
  eapply sat_mono; [apply AlarmAndAlertLogServiceClose_sat|].
  - rewrite stream_after_close, decide_False by done. unfold s1. by rewrite stream_after_close, decide_True.
  - rewrite stream_after_close, decide_True by done. by rewrite Hs.
  - intros r2 [s2 tr2]. cbn [fst snd]. rewrite Hh1, Hh2, Hh3, Hh4. unfold asked. cbn [Z.eqb].
    intros (_ & e1 & e2 & e3 & e4 & ok1 & ok2 & ok3 & ok4 & -> & [-> ->] & [-> ->] & [-> ->] & [-> ->] & Hr).
    split; [by apply Hr|]. by rewrite !app_nil_r.
Qed.

Example alarm_alert_close_releases_witness :
  pt_ok (polls demo_log) /\
  sat (AlarmAndAlertLogServiceClose demo_env) (demo_log, []) (fun r c' =>
    is_closed AlarmLog c'.1 /\ is_closed AlertLog c'.1 /\ stream TheLog c'.1 = stream TheLog demo_log /\
    c'.2 = [Ev (saLogStreamClose 5) SA_AIS_OK; Ev (saLogFinalize 4) SA_AIS_OK;
            Ev (saLogStreamClose 8) SA_AIS_OK; Ev (saLogFinalize 7) SA_AIS_OK]).
Proof.
  assert (Hok : pt_ok (polls demo_log)) by (constructor; simpl; [lia|lia|lia|constructor]).
  split; [exact Hok|].
  destruct (alarm_alert_close_releases demo_env demo_log [] eq_refl eq_refl Hok) as (r & c' & Hrun & Ha & Hb & Hf & _).
  exists r, c'. split; [exact Hrun|]. split; [exact Ha|]. split; [exact Hb|]. split; [by apply Hf|].
  vm_compute in Hrun. by injection Hrun as _ <-.
Defined.

(** While the thread that opens a stream is still registered, closing the stream
    sends it [SIGKILL], which takes the process down. *)
Lemma close_kills_process {PT} `{PollOps PT} (env : environment logE) i (s : Log PT) tr :
  OpenThreadId (stream i s) <> 0 -> env _ tr (pthread_kill_SIGKILL (OpenThreadId (stream i s))) = 0 ->
  post (close_stream env i) (s, tr) (fun _ _ => False) (fun w => w = Killed).
Proof.
  intros Ht Hk. unfold close_stream, kill_and_join, kill_open_thread.
  do 3 post_step. rewrite (proj2 (Z.eqb_neq _ _) Ht). cbn [negb when]. do 6 post_step.
  match goal with Ha : env _ _ _ = _ |- _ => cbn [snd] in Ha; rewrite Hk in Ha; subst r end.
  cbn [Z.eqb when]. by post_step.
Qed.

(** ** Opening *)
(** C39. The thread that opens an alarm, alert, command or security stream (the thread of the system
    stream is another function) ends, when the log service accepts the attempt after the first [n] at the
    latest and at most [m] pauses in a row are cut short by a signal or an error.  Either [nanosleep]
    failed for another reason than a signal during the pause that follows [SA_AIS_ERR_UNAVAILABLE]: then the thread
    gives up with nothing changed but the handle that the failed attempts left.  Or the service accepted, and
    the stream ends marked open and holding the handle of the accepted attempt; the thread then succeeds
    exactly when the poll table takes the descriptor as a new one, and otherwise it
    ends with the stream still marked open, its descriptor not watched and its
    thread still registered. *)
Theorem open_thread_opens {PT} `{PollLaws PT} (env : environment logE) fuel n m i (s : Log PT) tr :
  i <> TheLog -> accepts env n -> rests env m -> (n < fuel)%nat -> (m < fuel)%nat -> pt_ok (polls s) ->
  sat (open_thread env fuel i) (s, tr) (fun r c' =>
    (r = false /\ sleepless env c'.2 /\ exists h, c'.1 = on_stream i (s_stream h) s) \/
    LogFileIsOpen (stream i c'.1) = TRUE /\
    last c'.2 = Some (Ev (saLogStreamOpen_2 (LogHandle (stream i s)) (log_stream_name (cc_name s) i))
                         (SA_AIS_OK, LogStreamHandle (stream i c'.1))) /\
    (r = true <-> pt_regs (polls s) !! SelectionObject (stream i s) = None /\
                  (size (pt_regs (polls s)) < pt_cap (polls s))%nat) /\
    (r = true -> OpenThreadId (stream i c'.1) = 0 /\
       pt_regs (polls c'.1) = <[SelectionObject (stream i s) := (POLLIN, fd_callback i, 0)]> (pt_regs (polls s))) /\
    (r = false -> OpenThreadId (stream i c'.1) = OpenThreadId (stream i s))).
Proof.
  intros Hi Hacc Hm Hfuel Hfm Hok. unfold open_thread, detach. do 7 sat_step.
  eapply sat_mono; [apply (open_loop_sat env n m); [done|done|by eapply three_seconds_quiet|lia..]|].
  intros a [s1 tr1]. unfold opened. cbn [fst snd]. intros (h & -> & Hopened & Hslept).
  destruct a; cbn [negb]; [|sat_step; left; split; [done|]; split; [by apply Hslept|by exists h]].
  destruct (Hopened eq_refl) as [_ Hlast]. do 5 sat_step.
  set (s2 := on_stream i (s_isopen TRUE) (on_stream i (s_stream h) s)).
  assert (Hp : polls s2 = polls s) by (unfold s2; by log_simp).
  assert (Hsel : SelectionObject (stream i s2) = SelectionObject (stream i s)) by (unfold s2; by log_simp).
  eapply sat_mono; [apply register_fd_sat; by rewrite Hp|]. rewrite Hp, Hsel.
  intros rc [s3 tr3]. cbn [fst snd]. intros (-> & Hs3 & Hok3 & Hrc & Hregs).
  assert (Hst : stream i s3 = s_isopen TRUE (s_stream h (stream i s))).
  { rewrite Hs3. rewrite stream_polls. unfold s2. by log_simp. }
  destruct (Z.eqb_spec rc 0) as [->|Hne]; cbn [negb].
  - do 3 sat_step. right. log_simp. rewrite Hst. split; [done|]. split; [exact Hlast|].
    split; [split; [intros _; by apply Hrc|done]|]. split; [|done]. intros _. split; [done|]. by apply Hregs.
  - sat_step. right. rewrite Hst. split; [done|]. split; [exact Hlast|]. split; [|done].
    split; [done|]. intros Hc. by apply Hrc in Hc.
Qed.

Lemma demo_accepts : accepts demo_env 2.
Proof. intros tr h name Hle. unfold demo_env. by rewrite (proj2 (Nat.ltb_ge _ _)). Qed.

(** A service that refuses twice, and a signal that wakes the thread up during its pause. *)
Definition restless_env : environment logE := fun R tr e =>
  match e in logE R return R with
  | nanosleep sec nsec => if (cut_short tr <? 1)%nat then Interrupted 7 500 else Slept
  | e => demo_env _ tr e
  end.
Lemma restless_accepts : accepts restless_env 2.
Proof. intros tr h name Hle. apply (demo_accepts tr h name Hle). Qed.
Lemma restless_rests : rests restless_env 1.
Proof. intros tr sec nsec Hle. unfold restless_env. by rewrite (proj2 (Nat.ltb_ge _ _)). Qed.

Example open_thread_opens_witness : exists c',
  alarmLogServiceOpenThread restless_env 3 (demo_log, []) = (Ret true, c') /\
  LogFileIsOpen (stream AlarmLog c'.1) = TRUE /\ LogStreamHandle (stream AlarmLog c'.1) = 13 /\
  regs (polls c'.1) = {[6 := (1, 2%nat, 0)]}.
Proof.
  assert (Hok : pt_ok (polls demo_log)) by (constructor; simpl; [lia|lia|lia|constructor]).
  destruct (open_thread_opens restless_env 3 2 1 AlarmLog demo_log [] ltac:(done) restless_accepts restless_rests ltac:(lia) ltac:(lia) Hok)
    as (r & c' & Hrun & Hcase).
  assert (r = true) as -> by (vm_compute in Hrun; congruence).
  destruct Hcase as [[[=] _]|(Hopen & _ & _ & Ht & _)].
  exists c'. split; [exact Hrun|]. split; [exact Hopen|].
  split; [|etransitivity; [apply (proj2 (Ht eq_refl))|done]].
  vm_compute in Hrun. by injection Hrun as <-.
Defined.

(** ** The IMM *)
(** C38. [modifyCfgLogStreamInstances] always returns, whatever the IMM answers,
    and on every path asks for everything it took to be taken back, but for the handle of
    the CCB: by its end every IMM handle and every owner handle that it got has been handed to
    its finalisation and the ownership of the streams to its release, each after it was
    taken (with the retries of [IMM_API_CALL]; the answer is not looked at).  The handle of at most one CCB
    is left, which the code never finalises.  It reports [MafOk] exactly when the
    change was applied. *)
Theorem modifyCfg_gives_back {PT} (env : environment logE) (s : Log PT) tr :
  sat (modifyCfgLogStreamInstances env) (s, tr) (fun r c' => c'.1 = s /\
    exists evs ccbs b, c'.2 = tr ++ evs /\ fold_left ledger_step evs (only_ccbs [] false) = only_ccbs ccbs b /\
      (length ccbs <= 1)%nat /\ (r = MafOk <-> b = true)).
Proof.
  eapply sat_mono; [apply (tracks_modifyCfg env s tr)|].
  intros r c' (evs & Htr & Hs & ccbs & b & Hl & Hc & Hr). split; [done|]. by exists evs, ccbs, b.
Qed.

(** The facility whose records go to a stream. *)
Definition facility_of (i : StreamId) : Z :=
  match i with AlarmLog => 100 | AlertLog => 101 | CmdLog => 300 | SecLog => 500 | _ => 502 end.

(** The severity filter that the IMM configures takes effect: after
    [getSeverityFilter] has read a list of severities for a stream, a record of a
    severity is allowed on that stream exactly when the list has it, the other
    streams keep their filters, and level events are enabled. *)
Theorem getSeverityFilter_takes_effect {PT} (env : environment logE) (s : Log PT) tr i acc dn values rest :
  i ∈ [AlarmLog; AlertLog; CmdLog; SecLog] -> cc_name s <> "lm" -> acc <> 0 -> Forall (fun v => 0 <= v <= 6) values ->
  env _ tr (autoRetry_saImmOmAccessorGet_2 acc dn LOGM_LOG_SEVERITYFILTER)
    = (SA_AIS_OK, MkAttr LOGM_LOG_SEVERITYFILTER (SAINT32T values) :: rest) ->
  sat (getSeverityFilter env acc dn (fun v => on_stream i (s_flags v))) (s, tr) (fun r c' =>
    r = SA_AIS_OK /\ logMEnabled c'.1 = true /\
    (forall sev, 0 <= sev <= 6 -> isLogAllowed (getLoggerInfo (facility_of i) sev c'.1) = bool_decide (sev ∈ values)) /\
    (forall j, j <> i -> stream j c'.1 = stream j s)).
Proof.
  intros Hi Hcc Hacc Hv Hans. unfold getSeverityFilter. rewrite (proj2 (Z.eqb_neq _ _) Hacc). cbn [negb].
  do 2 sat_step. match goal with Ha : env _ _ _ = _ |- _ => cbn [snd] in Ha; rewrite Hans in Ha; subst r end.
  rewrite bool_decide_true by done. cbn [negb head]. sat_step. eapply sat_of_option; [done|].
  cbn [attrName]. rewrite bool_decide_true by done. cbn [negb attrValues]. do 5 sat_step.
  split; [done|]. split; [done|]. split.
  - intros sev Hsev. rewrite <- severity_filter_mem by done.
    assert (He : getLoggerInfo (facility_of i) sev (with_logM true (on_stream i (s_flags (severity_filter values)) s))
               = logger_info i sev (with_logM true (on_stream i (s_flags (severity_filter values)) s))).
    { unfold getLoggerInfo. rewrite bool_decide_false by (by destruct i).
      repeat (apply elem_of_cons in Hi as [->|Hi]; [done|]). by apply elem_of_nil in Hi. }
    rewrite He. unfold logger_info. cbn [isLogAllowed]. rewrite SEVERITY_FLAG_pow2, land_pow2, Z.min_l by lia.
    by destruct i.
  - intros j Hj. by destruct i, j.
Qed.

Example getSeverityFilter_takes_effect_witness : exists c',
  getSeverityFilter demo_env 41 ALARM_LOGM_DN (fun v => on_stream AlarmLog (s_flags v)) (demo_log, []) = (Ret SA_AIS_OK, c') /\
  isLogAllowed (getLoggerInfo 100 3 c'.1) = true /\ isLogAllowed (getLoggerInfo 100 4 c'.1) = false.
Proof.
  destruct (getSeverityFilter_takes_effect demo_env demo_log [] AlarmLog 41 ALARM_LOGM_DN [0; 3; 6] []
    ltac:(left) ltac:(done) ltac:(lia) ltac:(repeat constructor; lia) eq_refl) as (r & c' & Hrun & -> & _ & Hal & _).
  exists c'. split; [exact Hrun|]. split; [exact (Hal 3 ltac:(lia))|exact (Hal 4 ltac:(lia))].
Defined.

(** ** The internal root directory *)
(** [getIntRootDir] leaves the trimmed line of the command in the caller's array;
    when there is none the array is unchanged, so the documented default path is
    never used. *)
Lemma getIntRootDir_spec {PT} (env : environment logE) rootDir (s : Log PT) tr :
  sat (getIntRootDir env rootDir) (s, tr) (fun r c' => c'.1 = s /\
    (r = rootDir \/ exists line, (trimWhiteSpace (Some line)).2 = Some r /\ (0 < length r)%nat)).
Proof.
  unfold getIntRootDir. do 2 sat_step. destruct r; [|sat_step; split; [done|by left]].
  do 2 sat_step. destruct r as [line|]; [|do 3 sat_step; split; [done|by left]].
  assert (Ht : exists t, (trimWhiteSpace (Some line)).2 = Some t).
  { unfold trimWhiteSpace. repeat case_match; simplify_eq; eauto. }
  destruct Ht as [t Ht]. rewrite Ht. cbn [default]. unfold default, from_option, id.
  destruct (Nat.eqb_spec (length t) 0); cbn [negb]; do 3 sat_step; (split; [done|]); [by left|right; exists line; split; [done|lia]].
Qed.
