(* ===== verification/TraceConfig.v ===== *)
(** * The trace configuration ([trace/ComSATraceService.c])

    The text side of the trace service: which trace groups the configuration file
    of COM enables ([get_trace_group_no], [load_new_configuration_comsa]), the subsystem
    switches of LM ([getSubsystemStatus]), and the table of registered
    subsystems ([coremw_registerSubsystem]). *)
From Stdlib Require Import ZArith Lia Ascii.
From stdpp Require Import base gmap list strings.
From S2P Require Import Prelude LogConfig.

#[local] Open Scope string_scope.
#[local] Open Scope list_scope.
#[local] Open Scope Z_scope.

(** ** Lines of the configuration file *)
Definition GLOBAL_TRACE_STR : cstr := lit "COMSA_GLOBAL_TRACE".
Definition GROUP_TRACE_STR : cstr := lit "COMSA_TRACE_GROUP_".
Definition MAX_TRACE_GRP_NO : Z := 32.

(** [toupper] in the C locale. *)
Definition toupper (c : ascii) : ascii :=
  let n := N_of_ascii c in
  if ((97 <=? n) && (n <=? 122))%N then ascii_of_N (n - 32) else c.

(** The loop over the characters of [ucstr]. *)
Fixpoint upper_prefix (ucstr str : cstr) : bool :=
  match ucstr, str with
  | [], _ => true
  | u :: ucstr, c :: str => if negb (Ascii.eqb (toupper c) u) then false else upper_prefix ucstr str
  | _ :: _, [] => false
  end.
Definition case_insensitive_compare (ucstr str : cstr) : bool :=
  if (length ucstr <=? length str)%nat then upper_prefix ucstr str else false.

(** The text after the first [=], if any. *)
Fixpoint after_equals (buf : cstr) : option cstr :=
  match buf with
  | [] => None
  | c :: buf => if Ascii.eqb c "=" then Some buf else after_equals buf
  end.
Definition get_enabled_state (buf : cstr) : bool :=
  match after_equals buf with
  | Some (c :: _) => Ascii.eqb (toupper c) "E"
  | _ => false
  end.

Definition get_trace_group_no (buf : cstr) : Z :=
  let len := length GROUP_TRACE_STR in
  if (len <? length buf)%nat then
    if upper_prefix GROUP_TRACE_STR buf then
      match buf !! len, buf !! S len with
      | Some c, Some d =>
          if isdigit c && isdigit d then
            if get_enabled_state buf then digit c * 10 + digit d else 0
          else 0
      | _, _ => 0
      end
    else 0
  else 0.

Definition is_comment (buf : cstr) : bool := match buf with c :: _ => Ascii.eqb c "#" | [] => false end.

(** [1 << n] of an [int], as a mask of 32 bits; [None] when the shift is undefined. *)
Definition shl1 (n : Z) : option Z := if n <? 32 then Some (2 ^ n) else None.

(** The loop of [load_new_configuration_comsa] over the lines of the file. *)
Fixpoint load_mask (lines : list cstr) (local_mask : Z) : option Z :=
  match lines with
  | [] => Some local_mask
  | buf :: lines =>
      if is_comment buf then load_mask lines local_mask
      else if case_insensitive_compare GLOBAL_TRACE_STR buf && negb (get_enabled_state buf) then Some 0
      else
        let trace_grp_no := get_trace_group_no buf in
        if (0 <=? trace_grp_no) && (trace_grp_no <=? MAX_TRACE_GRP_NO) then
          bit ← shl1 trace_grp_no;
          load_mask lines (Z.lor local_mask bit)
        else load_mask lines local_mask
  end.

(** ** Subsystem switches *)
Record SubsystemState := MkSubsystemState { lmsa_state : bool; lm_state : bool; maf_state : bool }.

Definition SUBSYSTEM_PREFIX : cstr := lit "SUBSYSTEM_".
Definition TRACE_SUBSYSTEM_LMSA_STR : cstr := lit "SUBSYSTEM_LMSA".
Definition TRACE_SUBSYSTEM_LM_STR : cstr := lit "SUBSYSTEM_LMSERVER".
Definition TRACE_SUBSYSTEM_MAF_STR : cstr := lit "SUBSYSTEM_MAF".

Definition getSubsystemStatus (buf : cstr) (st : SubsystemState) : SubsystemState :=
  if case_insensitive_compare TRACE_SUBSYSTEM_LMSA_STR buf then MkSubsystemState (get_enabled_state buf) (lm_state st) (maf_state st)
  else if case_insensitive_compare TRACE_SUBSYSTEM_LM_STR buf then MkSubsystemState (lmsa_state st) (get_enabled_state buf) (maf_state st)
  else if case_insensitive_compare TRACE_SUBSYSTEM_MAF_STR buf then MkSubsystemState (lmsa_state st) (lm_state st) (get_enabled_state buf)
  else st.

(** The loop of [load_new_configuration_lmsa]. *)
Fixpoint load_subsystems (lines : list cstr) (st : SubsystemState) : SubsystemState :=
  match lines with
  | [] => st
  | buf :: lines =>
      if is_comment buf then load_subsystems lines st
      else if case_insensitive_compare SUBSYSTEM_PREFIX buf then load_subsystems lines (getSubsystemStatus buf st)
      else load_subsystems lines st
  end.

(** ** The table of subsystems *)
Definition MAX_SUBSYSTEM_NAME_LEN : nat := 64.
Definition MAX_SUBSYSTEM_NUM : nat := 256.
Definition LMSERVER_SUBSYSTEM_PREFIX : cstr := lit "LmServer::".
Definition LMCLIENT_SUBSYSTEM_PREFIX : cstr := lit "LmClient::".
Definition MAF_SUBSYSTEM_PREFIX : cstr := lit "Maf".

Record subsystemMapT := MkSubsystem { subsystemHandle : Z; subsystem : cstr; lmServerUse : Z }.
Definition no_subsystem : subsystemMapT := MkSubsystem 0 [] 0.
Definition empty_subsystems : list subsystemMapT := replicate MAX_SUBSYSTEM_NUM no_subsystem.

(** The index of the first entry from [i] on that satisfies [f]. *)
Fixpoint find_from (f : subsystemMapT -> bool) (i : nat) (l : list subsystemMapT) : option (nat * subsystemMapT) :=
  match l with
  | [] => None
  | e :: l => if f e then Some (i, e) else find_from f (S i) l
  end.

Inductive register_result := RegOk (handle : Z) | RegInvalidArgument | RegNoResources.

(** [None] is a null pointer. *)
Definition coremw_registerSubsystem (name : option cstr) (handle_ptr : bool) (l : list subsystemMapT)
    : register_result * list subsystemMapT :=
  match name with
  | None => (RegInvalidArgument, l)
  | Some name =>
      if negb handle_ptr then (RegInvalidArgument, l)
      else if (MAX_SUBSYSTEM_NAME_LEN <=? length name)%nat then (RegInvalidArgument, l)
      else
        match find_from (fun e => bool_decide (name = subsystem e)) 0 l with
        | Some (_, e) => (RegOk (subsystemHandle e), l)
        | None =>
            match find_from (fun e => 0 =? subsystemHandle e) 0 l with
            | Some (i, e) =>
                let handle := Z.of_nat i + 1 in
                let lm := strncmp_eq LMSERVER_SUBSYSTEM_PREFIX name || strncmp_eq LMCLIENT_SUBSYSTEM_PREFIX name in
                (RegOk handle, <[i := MkSubsystem handle name (if lm then 1 else lmServerUse e)]> l)
            | None => (RegNoResources, l)
            end
        end
  end.

Definition getSubsystemInfo (handle : Z) (l : list subsystemMapT) : option subsystemMapT :=
  if (0 <? handle) && (handle <? Z.of_nat MAX_SUBSYSTEM_NUM + 1) then
    e ← l !! Z.to_nat (handle - 1);
    if handle =? subsystemHandle e then Some e else None
  else None.

Definition isMAFSubsystemEnabled (name : cstr) (st : SubsystemState) : bool :=
  if strncmp_eq MAF_SUBSYSTEM_PREFIX name && maf_state st then true else false.

Definition traceLevelStr : list string :=
  ["EMERG"; "ALERT"; "CRITI"; "ERROR"; "WARNI"; "NORMA"; "INFOR"; "DSYST"; "DPROG"; "DPROC"; "DMODU"; "DUNIT"; "DFUNC"; "DLINE"; "DOTHE"].
Definition getTraceLevelStr (level : Z) : string :=
  if (level <=? 14) && (0 <=? level) then default "" (traceLevelStr !! Z.to_nat level) else "UNKNOWN".

Example group_example : get_trace_group_no (lit "Comsa_Trace_Group_07 = x=e") = 0.
Proof. reflexivity. Qed.
Example group_example2 : get_trace_group_no (lit "COMSA_TRACE_GROUP_07=ENABLED") = 7.
Proof. reflexivity. Qed.
Example mask_example : load_mask [lit "# comment"; lit "COMSA_GLOBAL_TRACE=E"; lit "COMSA_TRACE_GROUP_01=E"] 0 = Some 3.
Proof. reflexivity. Qed.
