(* ===== verification/Config.v ===== *)
(** * The configuration of the components ([ac/ComSAAc.c])

    The tree that libxml2 builds from the configuration is the input; here are
    the functions that look things up in it ([coremw_find_config_item],
    [coremw_xmlnode_contents], [coremw_xmlnode_get_attribute]) and the functions of the C
    library with which the components read the values they find. *)
From Stdlib Require Import ZArith Lia Ascii.
From stdpp Require Import base gmap list strings.
From S2P Require Import Prelude LogConfig TraceConfig.

#[local] Open Scope string_scope.
#[local] Open Scope list_scope.
#[local] Open Scope Z_scope.
#[local] Set Warnings "-register-all".

(** ** The tree *)
Definition XML_ELEMENT_NODE : Z := 1.
Definition XML_TEXT_NODE : Z := 3.

(** An attribute and the content of its first child, [None] when it has no
    child; the content of a node can itself be null. *)
Record xmlAttr := MkAttr { attr_name : cstr; attr_children : option (option cstr) }.

(** A node; the siblings form the list of the children of their parent. *)
Inductive xmlNode :=
| XmlNode (type : Z) (name : cstr) (content : option cstr) (properties : list xmlAttr) (children : list xmlNode).

Definition type (n : xmlNode) : Z := let '(XmlNode t _ _ _ _) := n in t.
Definition name (n : xmlNode) : cstr := let '(XmlNode _ x _ _ _) := n in x.
Definition content (n : xmlNode) : option cstr := let '(XmlNode _ _ c _ _) := n in c.
Definition properties (n : xmlNode) : list xmlAttr := let '(XmlNode _ _ _ p _) := n in p.
Definition children (n : xmlNode) : list xmlNode := let '(XmlNode _ _ _ _ l) := n in l.

Definition isElementName (n : xmlNode) (s : cstr) : bool :=
  (type n =? XML_ELEMENT_NODE) && bool_decide (name n = s).

(** ** Looking up *)
Fixpoint find_attribute (a : list xmlAttr) (attr : cstr) : outcome (option cstr) :=
  match a with
  | [] => Ret None
  | x :: a => if bool_decide (attr_name x = attr)
              then match attr_children x with Some c => Ret c | None => Exit BadPointer end
              else find_attribute a attr
  end.
Definition coremw_xmlnode_get_attribute (n : xmlNode) (attr : cstr) : outcome (option cstr) :=
  find_attribute (properties n) attr.

Definition coremw_xmlnode_contents (cur : option xmlNode) : option cstr :=
  match cur with
  | None => None
  | Some cur =>
      match (if type cur =? XML_ELEMENT_NODE then head (children cur) else Some cur) with
      | None => None
      | Some cur => if type cur =? XML_TEXT_NODE then content cur else None
      end
  end.

(** The inner loop: is one of the children the name of the component? *)
Fixpoint has_name (component_name : cstr) (n : list xmlNode) : bool :=
  match n with
  | [] => false
  | x :: n =>
      if isElementName x (lit "name") then
        match coremw_xmlnode_contents (Some x) with
        | Some nm => if bool_decide (component_name = nm) then true else has_name component_name n
        | None => has_name component_name n
        end
      else has_name component_name n
  end.

Fixpoint find_component (component_name : cstr) (comp : list xmlNode) : option xmlNode :=
  match comp with
  | [] => None
  | c :: comp =>
      if isElementName c (lit "component") then
        if has_name component_name (children c) then Some c else find_component component_name comp
      else find_component component_name comp
  end.

Fixpoint find_element (node_name : cstr) (n : list xmlNode) : option xmlNode :=
  match n with
  | [] => None
  | x :: n => if isElementName x node_name then Some x else find_element node_name n
  end.

(** [doc]: null, or the document with its root element, if it has one. *)
Definition coremw_find_config_item (doc : option (option xmlNode)) (component_name node_name : cstr) : option xmlNode :=
  match doc with
  | None => None
  | Some None => None
  | Some (Some root) =>
      match find_component component_name (children root) with
      | None => None
      | Some comp => find_element node_name (children comp)
      end
  end.

(** ** Reading values *)
Definition isspace (c : ascii) : bool :=
  let n := Z.of_N (N_of_ascii c) in ((9 <=? n) && (n <=? 13)) || (n =? 32).

Fixpoint skip_space (s : cstr) : cstr :=
  match s with
  | c :: s' => if isspace c then skip_space s' else s
  | [] => []
  end.

(** The value of a digit or letter, 36 when it is neither. *)
Definition digit_value (c : ascii) : Z :=
  let n := Z.of_N (N_of_ascii (toupper c)) in
  if (48 <=? n) && (n <=? 57) then n - 48 else if (65 <=? n) && (n <=? 90) then n - 55 else 36.

Fixpoint read_digits (base acc : Z) (s : cstr) : Z * cstr :=
  match s with
  | c :: s' => if digit_value c <? base then read_digits base (acc * base + digit_value c) s' else (acc, s)
  | [] => (acc, [])
  end.

(** The base and the text after its prefix. *)
Definition base_of (base : Z) (s : cstr) : Z * cstr :=
  match s with
  | "0"%char :: x :: d :: s' =>
      if ((base =? 0) || (base =? 16)) && Ascii.eqb (toupper x) "X" && (digit_value d <? 16) then (16, d :: s')
      else (if base =? 0 then 8 else base, s)
  | "0"%char :: _ => (if base =? 0 then 8 else base, s)
  | _ => (if base =? 0 then 10 else base, s)
  end.

(** [strtoull(s, &end, base)]: the value and [end]. *)
Definition strtoull_end (base : Z) (s : cstr) : Z * cstr :=
  let t := skip_space s in
  let '(neg, t) := match t with
                   | "-"%char :: t' => (true, t')
                   | "+"%char :: t' => (false, t')
                   | _ => (false, t)
                   end in
  let '(b, t) := base_of base t in
  match t with
  | c :: _ =>
      if digit_value c <? b then
        let '(v, e) := read_digits b 0 t in
        ((if 2 ^ 64 <=? v then 2 ^ 64 - 1 else if neg then wrap_u 64 (- v) else v), e)
      else (0, s)
  | [] => (0, s)
  end.

(** [strcasecmp(a, b) == 0] *)
Definition strcasecmp_eq (a b : cstr) : bool := bool_decide (map toupper a = map toupper b).

(** ** Tests *)
Definition text (s : string) : xmlNode := XmlNode XML_TEXT_NODE (lit "text") (Some (lit s)) [] [].
Definition element (n : string) (a : list (string * string)) (l : list xmlNode) : xmlNode :=
  XmlNode XML_ELEMENT_NODE (lit n) None (map (fun x => MkAttr (lit x.1) (Some (Some (lit x.2)))) a) l.

Example strtoull_hex : strtoull_end 0 (lit " 0x1fZ") = (31, lit "Z").
Proof. reflexivity. Qed.
Example strtoull_octal : strtoull_end 0 (lit "017") = (15, []).
Proof. reflexivity. Qed.
Example strtoull_neg : strtoull_end 10 (lit "-1") = (2 ^ 64 - 1, []).
Proof. reflexivity. Qed.
Example strtoull_none : strtoull_end 10 (lit "x1") = (0, lit "x1").
Proof. reflexivity. Qed.
Example strtoull_big : strtoull_end 0 (lit "99999999999999999999") = (2 ^ 64 - 1, []).
Proof. reflexivity. Qed.

Lemma digit_value_nonneg c : 0 <= digit_value c.
Proof.
  unfold digit_value. cbn zeta. set (n := Z.of_N _). clearbody n.
  destruct (Z.leb_spec 48 n), (Z.leb_spec n 57), (Z.leb_spec 65 n), (Z.leb_spec n 90); cbn; lia.
Qed.

Lemma read_digits_nonneg base acc s : 0 <= base -> 0 <= acc -> 0 <= (read_digits base acc s).1.
Proof.
  intros Hb. revert acc. induction s as [|c s IH]; intros acc Ha; cbn [read_digits]; [done|].
  pose proof (digit_value_nonneg c). destruct (digit_value c <? base); [|done]. apply IH. nia.
Qed.

(** A value is an [unsigned long long]. *)
Lemma strtoull_range base s : 0 <= base -> 0 <= (strtoull_end base s).1 < 2 ^ 64.
Proof.
  intros Hb. unfold strtoull_end.
  destruct (match skip_space s with "-"%char :: t' => (true, t') | "+"%char :: t' => (false, t') | _ => (false, skip_space s) end)
    as [neg t]. destruct (base_of base t) as [b u] eqn:Eb.
  assert (0 <= b) as Hb'.
  { revert Eb. unfold base_of. destruct (base =? 0); destruct t as [|c [|x [|d t]]];
      repeat (case_match; simplify_eq); intros [= <- <-]; lia. }
  destruct u as [|c u]; [cbn; lia|]. destruct (digit_value c <? b); [|cbn; lia].
  pose proof (read_digits_nonneg b 0 (c :: u) Hb' ltac:(lia)) as Hv.
  destruct (read_digits b 0 (c :: u)) as [v e]. cbn [fst] in *.
  destruct (Z.leb_spec (2 ^ 64) v); [lia|]. destruct neg; [|lia].
  unfold wrap_u. apply Z.mod_pos_bound. lia.
Qed.

(** ** What is found

    [names c s]: [c] is a component element with a child that names it [s]. *)
Definition names (c : xmlNode) (s : cstr) : Prop :=
  isElementName c (lit "component") = true /\
  exists x, x ∈ children c /\ isElementName x (lit "name") = true /\ coremw_xmlnode_contents (Some x) = Some s.

Lemma has_name_spec s l :
  has_name s l = true <-> exists x, x ∈ l /\ isElementName x (lit "name") = true /\ coremw_xmlnode_contents (Some x) = Some s.
Proof.
  induction l as [|y l IH]; cbn [has_name].
  { split; [done|]. by intros (x & ?%elem_of_nil & _). }
  transitivity ((isElementName y (lit "name") = true /\ coremw_xmlnode_contents (Some y) = Some s)
                \/ has_name s l = true).
  - destruct (isElementName y (lit "name")); [|naive_solver].
    destruct (coremw_xmlnode_contents (Some y)) as [nm|]; [|naive_solver].
    case_bool_decide; naive_solver.
  - rewrite IH. setoid_rewrite elem_of_cons. naive_solver.
Qed.

Lemma find_component_spec s l c :
  find_component s l = Some c <->
  exists pre post, l = pre ++ c :: post /\ names c s /\ Forall (fun d => ~ names d s) pre.
Proof.
  assert (Hn : forall d, names d s <-> isElementName d (lit "component") && has_name s (children d) = true)
    by (intros d; unfold names; rewrite andb_true_iff, has_name_spec; done).
  setoid_rewrite Hn. induction l as [|d l IH]; cbn [find_component].
  - split; [done|]. intros ([] & ? & ? & _); done.
  - assert (Hf : (if isElementName d (lit "component")
                  then if has_name s (children d) then Some d else find_component s l
                  else find_component s l)
               = if isElementName d (lit "component") && has_name s (children d) then Some d else find_component s l)
      by (destruct (isElementName d (lit "component")), (has_name s (children d)); done).
    rewrite Hf. destruct (isElementName d (lit "component") && has_name s (children d)) eqn:Ed.
    + split; [intros [= ->]; by exists [], l|].
      intros (pre & post & Heq & _ & Hpre). destruct pre as [|e pre]; [by simplify_eq/=|].
      simplify_eq/=. by apply Forall_cons in Hpre as [? _].
    + rewrite IH. split.
      * intros (pre & post & -> & ? & ?). exists (d :: pre), post. repeat split; [done|].
        constructor; [congruence|done].
      * intros (pre & post & Heq & Hc & Hpre). destruct pre as [|e pre]; simplify_eq/=; [congruence|].
        apply Forall_cons in Hpre as [_ ?]. by exists pre, post.
Qed.

Lemma find_element_spec s l n :
  find_element s l = Some n <->
  exists pre post, l = pre ++ n :: post /\ isElementName n s = true /\ Forall (fun d => isElementName d s = false) pre.
Proof.
  induction l as [|d l IH]; cbn [find_element].
  - split; [done|]. intros ([] & ? & ? & _); done.
  - destruct (isElementName d s) eqn:Ed.
    + split; [intros [= ->]; by exists [], l|].
      intros (pre & post & Heq & _ & Hpre). destruct pre as [|e pre]; [by simplify_eq/=|].
      simplify_eq/=. apply Forall_cons in Hpre as [? _]. congruence.
    + rewrite IH. split.
      * intros (pre & post & -> & ? & ?). exists (d :: pre), post. repeat split; [done|]. by constructor.
      * intros (pre & post & Heq & Hc & Hpre). destruct pre as [|e pre]; simplify_eq/=; [congruence|].
        apply Forall_cons in Hpre as [_ ?]. by exists pre, post.
Qed.

(** The item that is found: the first element of that name in the
    first component whose name is the one asked for, and only there: when
    that component has no such element the answer is null even if a later
    component has the same name and the element.  Nodes that are not
    elements (text, comments) and names without a text never match. *)
Theorem find_config_item_first doc component node n :
  coremw_find_config_item doc component node = Some n <->
  exists root pre c post pre' post',
    doc = Some (Some root) /\
    children root = pre ++ c :: post /\ names c component /\ Forall (fun d => ~ names d component) pre /\
    children c = pre' ++ n :: post' /\ isElementName n node = true /\
    Forall (fun d => isElementName d node = false) pre'.
Proof.
  split.
  - destruct doc as [[root|]|]; cbn; [|done..].
    destruct (find_component component (children root)) as [c|] eqn:Ec; [|done].
    apply find_component_spec in Ec as (pre & post & ? & ? & ?).
    intros (pre' & post' & ? & ? & ?)%find_element_spec. by exists root, pre, c, post, pre', post'.
  - intros (root & pre & c & post & pre' & post' & -> & Hr & Hc & Hpre & Hch & Hn & Hpre'). cbn.
    assert (find_component component (children root) = Some c) as ->
      by (apply find_component_spec; eauto).
    apply find_element_spec. eauto.
Qed.
