(* ===== verification/ReplicatedList.v ===== *)
(** * The replicated list component ([rlist/ComSARlist.c])

    The functions of the interface hand their arguments to the implementation
    on top of IMM ([ComSARlist_imm.cc], C++), which is seen through the signature;
    the component reads its own settings from the configuration. *)
From Stdlib Require Import ZArith Lia Ascii.
From stdpp Require Import base gmap list strings.
From S2P Require Import Prelude Codes LogConfig TraceConfig Config.

#[local] Open Scope string_scope.
#[local] Open Scope list_scope.
#[local] Open Scope Z_scope.

(** The calls of the list interface, with the pointers they are given. *)
Inductive list_op :=
| ListCreate (listInstanceName : option ptr) (dataBufferSize : Z)
| ListDelete (listInstanceName : option ptr)
| ListClear (listInstanceName : option ptr)
| ListGetSize (listInstanceName listSize : option ptr)
| ListIsEmpty (listInstanceName listEmpty : option ptr)
| ListPushBack (listInstanceName listItemName newItemDataBuffer : option ptr)
| ListPopBack (listInstanceName : option ptr)
| ListEraseItem (listInstanceName listItemName : option ptr)
| ListGetFrontRef (listInstanceName listInstanceFrontRef : option ptr)
| ListGetFinalize (listInstanceName currentItemRef : option ptr)
| ListGetNextItemFront (listInstanceName currentItemRef listItemName copyOfItemData : option ptr)
| ListFindItem (listInstanceName listItemName copyOfItemData : option ptr)
| ListReplaceItem (listInstanceName listItemName replaceItemData : option ptr)
| ListNumberOfListInstances (numberOfLinkListInstances : option ptr)
| ListMemoryUsage (memoryUsed totalMemoryAvailable : option ptr).

Inductive rlE : Type -> Type :=
| imm (op : list_op) : rlE MafReturnT                         (** [maf_comsa_imm_list*] *)
| maf_comsa_imm_comSAMwComponentStart : rlE MafReturnT
| maf_comsa_imm_comSAMwComponentStop : rlE MafReturnT
| registerComponent : rlE MafReturnT
| unregisterComponent : rlE ()
| message_enabled : rlE bool                                  (** is the log or trace message formatted? *)
| fopen_shmmax : rlE bool                                     (** is the file there? *)
| fgets_shmmax : rlE (option cstr)
| getenv (name : string) : rlE (option cstr).

Record Rlist := MkRlist {
  rlist_maxsize : Z;                  (** [unsigned long long] *)
  clearAlarmsOnClusterReboot : bool;
  replicateInIMM : bool
}.
Definition rlist_initial : Rlist := MkRlist (2 * 1024 * 1024) true false.
Definition r_maxsize v s := MkRlist v (clearAlarmsOnClusterReboot s) (replicateInIMM s).
Definition r_clear v s := MkRlist (rlist_maxsize s) v (replicateInIMM s).
Definition r_imm v s := MkRlist (rlist_maxsize s) (clearAlarmsOnClusterReboot s) v.

Section rlist.
Context (env : environment rlE).
Abbreviation R := (M rlE Rlist).

(** ** The interface *)

(** A message with the name of the list reads it, when messages are written. *)
Definition print_name (p : option ptr) : R () :=
  on ← call env message_enabled; when (on && bool_decide (p = None)) (exit BadPointer).

Definition maf_comsa_listCreate (n : option ptr) (size : Z) : R MafReturnT :=
  rc ← call env (imm (ListCreate n size));
  if negb (bool_decide (rc = MafOk)) then print_name n ;; mret rc else mret rc.
Definition maf_comsa_listDelete n : R MafReturnT := call env (imm (ListDelete n)).
Definition maf_comsa_listClear n : R MafReturnT := call env (imm (ListClear n)).
Definition maf_comsa_listGetSize n size : R MafReturnT := print_name n ;; call env (imm (ListGetSize n size)).
Definition maf_comsa_listIsEmpty n empty : R MafReturnT := call env (imm (ListIsEmpty n empty)).
Definition maf_comsa_listPushBack n item data : R MafReturnT := call env (imm (ListPushBack n item data)).
Definition maf_comsa_listPopBack n : R MafReturnT := call env (imm (ListPopBack n)).
Definition maf_comsa_listEraseItem (n item : option ptr) : R MafReturnT :=
  if bool_decide (n = None) || bool_decide (item = None) then mret MafInvalidArgument
  else call env (imm (ListEraseItem n item)).
Definition maf_comsa_listGetFrontRef n ref : R MafReturnT := call env (imm (ListGetFrontRef n ref)).
Definition maf_comsa_listGetFinalize n ref : R MafReturnT := call env (imm (ListGetFinalize n ref)).
Definition maf_comsa_listGetNextItemFront n ref item data : R MafReturnT :=
  call env (imm (ListGetNextItemFront n ref item data)).
Definition maf_comsa_listFindItem n item data : R MafReturnT := call env (imm (ListFindItem n item data)).
Definition maf_comsa_listReplaceItem n item data : R MafReturnT := call env (imm (ListReplaceItem n item data)).
Definition maf_comsa_listNumberOfListInstances num : R MafReturnT := call env (imm (ListNumberOfListInstances num)).
Definition maf_comsa_listMemoryUsage used total : R MafReturnT := call env (imm (ListMemoryUsage used total)).

(** The table of the interface. *)
Definition maf_rlistService (op : list_op) : R MafReturnT :=
  match op with
  | ListCreate n size => maf_comsa_listCreate n size
  | ListDelete n => maf_comsa_listDelete n
  | ListClear n => maf_comsa_listClear n
  | ListGetSize n size => maf_comsa_listGetSize n size
  | ListIsEmpty n empty => maf_comsa_listIsEmpty n empty
  | ListPushBack n item data => maf_comsa_listPushBack n item data
  | ListPopBack n => maf_comsa_listPopBack n
  | ListEraseItem n item => maf_comsa_listEraseItem n item
  | ListGetFrontRef n ref => maf_comsa_listGetFrontRef n ref
  | ListGetFinalize n ref => maf_comsa_listGetFinalize n ref
  | ListGetNextItemFront n ref item data => maf_comsa_listGetNextItemFront n ref item data
  | ListFindItem n item data => maf_comsa_listFindItem n item data
  | ListReplaceItem n item data => maf_comsa_listReplaceItem n item data
  | ListNumberOfListInstances num => maf_comsa_listNumberOfListInstances num
  | ListMemoryUsage used total => maf_comsa_listMemoryUsage used total
  end.

(** ** The component *)
Definition maf_comSAMwComponentStart : R MafReturnT :=
  maf_rc ← call env maf_comsa_imm_comSAMwComponentStart;
  if negb (bool_decide (maf_rc = MafOk)) then mret maf_rc else mret maf_rc.
Definition maf_comSAMwComponentStop : R MafReturnT :=
  maf_rc ← call env maf_comsa_imm_comSAMwComponentStop;
  if negb (bool_decide (maf_rc = MafOk)) then mret maf_rc else mret maf_rc.

Definition readShmmaxValue : R Z :=
  ok ← call env fopen_shmmax;
  if (ok : bool) then
    buf ← call env fgets_shmmax;
    mret (match buf with Some buf => (strtoull_end 0 buf).1 | None => 0 end)
  else mret 0.

Definition lift {A} (o : outcome A) : R A := match o with Ret a => mret a | Exit w => exit w end.

Definition set_rlist_maxsize (cfg : xmlNode) : R () :=
  maxsize ← lift (coremw_xmlnode_get_attribute cfg (lit "maxsize"));
  match maxsize with
  | None => mret ()
  | Some maxsize =>
      let rlist_confsize := (strtoull_end 0 maxsize).1 in
      when (negb (rlist_confsize =? 0))
        (s ← get;
         let default_rlist_maxsize := rlist_maxsize s in
         systemMaxSize ← readShmmaxValue;
         (if negb (systemMaxSize =? 0) then modify (r_maxsize systemMaxSize)
          else modify (r_maxsize default_rlist_maxsize)) ;;
         s ← get;
         when (rlist_confsize <? rlist_maxsize s) (modify (r_maxsize rlist_confsize)))
  end.

Definition set_clearAlarmsOnClusterReboot (cfg : xmlNode) : R () :=
  value ← lift (coremw_xmlnode_get_attribute cfg (lit "clearAlarmsOnClusterReboot"));
  match value with
  | None => mret ()
  | Some value => when (strcasecmp_eq value (lit "false")) (modify (r_clear false))
  end.

Definition set_replicateInIMM : R () :=
  isLdaDeployment ← call env (getenv "LDA_DEPLOYMENT");
  match isLdaDeployment with
  | None => mret ()
  | Some v => when (bool_decide (v = lit "1")) (modify (r_imm true))
  end.

Definition maf_comSAMwComponentInitialize (doc : option (option xmlNode)) : R MafReturnT :=
  (match coremw_find_config_item doc (lit "MW") (lit "replicatedlist") with
   | Some cfg => set_rlist_maxsize cfg ;; set_clearAlarmsOnClusterReboot cfg
   | None => mret ()
   end : R ()) ;;
  set_replicateInIMM ;;
  call env registerComponent.

Definition maf_comSAMwComponentFinalize : R () := call env unregisterComponent.
End rlist.

(** ** Results *)
Section facts.
Context (env : environment rlE).

(** The calls of the implementation in a history. *)
Definition imm_call (e : event rlE) : option (list_op * MafReturnT) :=
  match e with
  | Ev c r => match c in rlE R return R -> option (list_op * MafReturnT) with
              | imm op => fun rc => Some (op, rc)
              | _ => fun _ => None
              end r
  end.

Definition list_name (op : list_op) : option ptr :=
  match op with
  | ListCreate n _ | ListDelete n | ListClear n | ListGetSize n _ | ListIsEmpty n _ | ListPushBack n _ _
  | ListPopBack n | ListEraseItem n _ | ListGetFrontRef n _ | ListGetFinalize n _
  | ListGetNextItemFront n _ _ _ | ListFindItem n _ _ | ListReplaceItem n _ _ => n
  | ListNumberOfListInstances p => p
  | ListMemoryUsage p _ => p
  end.
(** Erasing is the one call that checks its arguments. *)
Definition rejected (op : list_op) : bool :=
  match op with
  | ListEraseItem n item => bool_decide (n = None) || bool_decide (item = None)
  | _ => false
  end.

(** Each call reaches the implementation exactly once, with the same
    arguments, and gives back its answer; a fault is only possible with a null
    list name. *)
Lemma rlist_forwards op s tr :
  post (maf_rlistService env op) (s, tr)
    (fun rc c => c.1 = s /\ exists new, c.2 = tr ++ new /\
       omap imm_call new = (if rejected op then [] else [(op, rc)]) /\ (rejected op = true -> rc = MafInvalidArgument))
    (fun w => w = BadPointer /\ list_name op = None).
Proof.
  assert (Hone : forall op', rejected op' = false ->
    post (call env (imm op')) (s, tr)
      (fun rc c => c.1 = s /\ exists new, c.2 = tr ++ new /\
         omap imm_call new = (if rejected op' then [] else [(op', rc)]) /\ (rejected op' = true -> rc = MafInvalidArgument))
      (fun w => w = BadPointer /\ list_name op' = None)).
  { intros op' Hop. post_step. split; [done|]. eexists. split; [done|]. by rewrite Hop. }
  destruct op; try (by apply Hone).
  - cbn. unfold maf_comsa_listCreate. post_step. post_step.
    destruct (negb (bool_decide (r = MafOk))); [|post_step; split; [done|]; eexists; split; [done|]; done].
    unfold print_name. do 3 post_step.
    destruct (r0 && bool_decide (listInstanceName = None)) eqn:E; cbn [when]; post_step.
    + apply andb_true_iff in E as [_ E%bool_decide_eq_true]. done.
    + post_step. split; [done|]. eexists. rewrite <- app_assoc. split; [done|]. done.
  - cbn. unfold maf_comsa_listGetSize, print_name. do 3 post_step.
    destruct (r && bool_decide (listInstanceName = None)) eqn:E; cbn [when]; post_step.
    + apply andb_true_iff in E as [_ E%bool_decide_eq_true]. done.
    + post_step. split; [done|]. eexists. rewrite <- app_assoc. split; [done|]. done.
  - cbn. unfold maf_comsa_listEraseItem.
    destruct (bool_decide (listInstanceName = None) || bool_decide (listItemName = None)) eqn:E.
    + post_step. split; [done|]. exists []. rewrite app_nil_r. done.
    + post_step. split; [done|]. eexists. split; [done|]. done.
Qed.

(** The limit the system sets: the first line of the file, or nothing. *)
Definition shmmax (tr : list (event rlE)) : Z :=
  if env _ tr fopen_shmmax
  then match env _ (tr ++ [Ev fopen_shmmax true]) fgets_shmmax with
       | Some line => (strtoull_end 0 line).1
       | None => 0
       end
  else 0.

Lemma readShmmaxValue_sat s tr :
  sat (readShmmaxValue env) (s, tr) (fun v c => v = shmmax tr /\ c.1 = s).
Proof.
  unfold readShmmaxValue, shmmax. sat_step. sat_step. cbn in H. rewrite H. destruct r.
  - sat_step. sat_step. sat_step. cbn in H0. by rewrite H0.
  - by sat_step.
Qed.

Lemma lift_post {A} (o : outcome A) (c : Rlist * list (event rlE)) (Q : A -> _ -> Prop) (X : exit_reason -> Prop) :
  (forall a, o = Ret a -> Q a c) -> (forall w, o = Exit w -> X w) -> post (lift o) c Q X.
Proof. destruct o; intros HQ HX; unfold post, lift; cbn; eauto. Qed.

(** The value an attribute gives, 0 when it is absent or not a number. *)
Definition attribute_value (cfg : xmlNode) (a : string) : Z :=
  match coremw_xmlnode_get_attribute cfg (lit a) with
  | Ret (Some v) => (strtoull_end 0 v).1
  | _ => 0
  end.

Lemma attribute_exit cfg a w : coremw_xmlnode_get_attribute cfg a = Exit w -> w = BadPointer.
Proof.
  unfold coremw_xmlnode_get_attribute. induction (properties cfg) as [|x l IH]; [done|].
  cbn [find_attribute]. case_bool_decide; [|exact IH]. destruct (attr_children x); congruence.
Qed.

Lemma set_rlist_maxsize_post cfg s tr :
  post (set_rlist_maxsize env cfg) (s, tr)
    (fun _ c => c.1 = let conf := attribute_value cfg "maxsize" in
                      if conf =? 0 then s
                      else r_maxsize (Z.min conf (if shmmax tr =? 0 then rlist_maxsize s else shmmax tr)) s)
    (fun w => w = BadPointer /\ coremw_xmlnode_get_attribute cfg (lit "maxsize") = Exit BadPointer).
Proof.
  unfold set_rlist_maxsize, attribute_value. post_step. apply lift_post.
  2:{ intros w Hw. pose proof (attribute_exit _ _ _ Hw) as ->. done. }
  intros [v|] ->; [|post_step; done]. set (conf := (strtoull_end 0 v).1).
  destruct (conf =? 0) eqn:E0; cbn [negb when]; [apply sat_post, sat_ret; done|].
  post_step. post_step. post_step. apply sat_post. eapply sat_mono; [apply readShmmaxValue_sat|].
  intros ? [s' tr'] [-> Hs]; cbn in Hs; subst s'.
  apply sat_post, sat_bind. destruct (shmmax tr =? 0); cbn [negb]; sat_step; sat_step; sat_step; (apply sat_when; intros Hlt; [sat_step|]);
    cbn in *; unfold r_maxsize; cbn; destruct s; cbn in *; f_equal; lia.
Qed.

Lemma shmmax_nonneg tr : 0 <= shmmax tr.
Proof.
  unfold shmmax. destruct (env _ tr fopen_shmmax); [|done].
  destruct (env _ _ fgets_shmmax) as [l|]; [apply (strtoull_range 0 l); lia|done].
Qed.

Lemma attribute_value_nonneg cfg a : 0 <= attribute_value cfg a.
Proof.
  unfold attribute_value. destruct (coremw_xmlnode_get_attribute cfg _) as [[v|]|]; [|done..].
  apply (strtoull_range 0 v); lia.
Qed.

(** The other settings leave the size alone. *)
Lemma keeps_clear cfg c :
  post (set_clearAlarmsOnClusterReboot cfg) c (fun _ c' => rlist_maxsize c'.1 = rlist_maxsize c.1) (fun w => w = BadPointer).
Proof.
  apply post_bind, lift_post.
  - intros [v|] _; [|by post_step]. destruct (strcasecmp_eq v (lit "false")); apply sat_post; [by apply sat_modify|by apply sat_ret].
  - apply attribute_exit.
Qed.
Lemma keeps_imm c :
  post (set_replicateInIMM env) c (fun _ c' => rlist_maxsize c'.1 = rlist_maxsize c.1) (fun w => w = BadPointer).
Proof.
  unfold set_replicateInIMM. post_step. post_step.
  destruct r as [v|]; [|by post_step]. case_bool_decide; apply sat_post; [by apply sat_modify|by apply sat_ret].
Qed.

(** The size of the replicated lists after the initialisation of the
    component.  Without the configuration element, its attribute or a
    number in it, the size stays what it was (2 MiB); otherwise it is the
    configured size, but never more than the shared memory the system allows,
    or than the present size when the system gives no limit.  The size never
    becomes 0. *)
Theorem rlist_maxsize_configured doc s tr :
  0 < rlist_maxsize s ->
  post (maf_comSAMwComponentInitialize env doc) (s, tr)
    (fun _ c =>
       let limit := if shmmax tr =? 0 then rlist_maxsize s else shmmax tr in
       (match coremw_find_config_item doc (lit "MW") (lit "replicatedlist") with
        | Some cfg => if attribute_value cfg "maxsize" =? 0 then rlist_maxsize c.1 = rlist_maxsize s
                      else rlist_maxsize c.1 = Z.min (attribute_value cfg "maxsize") limit
        | None => rlist_maxsize c.1 = rlist_maxsize s
        end) /\ 0 < rlist_maxsize c.1)
    (fun w => w = BadPointer).
Proof.
  intros Hpos. set (limit := if shmmax tr =? 0 then rlist_maxsize s else shmmax tr).
  assert (Hlim : 0 < limit) by (unfold limit; pose proof (shmmax_nonneg tr); destruct (Z.eqb_spec (shmmax tr) 0); lia).
  unfold maf_comSAMwComponentInitialize.
  apply post_bind. destruct (coremw_find_config_item _ _ _) as [cfg|].
  - apply post_bind. eapply post_mono; [apply set_rlist_maxsize_post| |by intros w [-> _]].
    intros _ [s1 tr1] Hs1. cbn [fst] in Hs1.
    eapply post_mono; [apply keeps_clear| |done]. intros [] c2 H2.
    apply post_bind. eapply post_mono; [apply keeps_imm| |done]. intros [] c3 H3.
    post_step. cbn. rewrite H3, H2. cbn [fst]. rewrite Hs1.
    pose proof (attribute_value_nonneg cfg "maxsize").
    cbn zeta. destruct (Z.eqb_spec (attribute_value cfg "maxsize") 0); cbn; [done|]. fold limit. split; lia.
  - post_step. apply post_bind. eapply post_mono; [apply keeps_imm| |done]. intros [] c3 H3.
    post_step. cbn. by rewrite H3.
Qed.
End facts.

(** *** A run: the system allows 1 MiB, the configuration asks for 3 MiB. *)
Definition demo_env (R : Type) (tr : list (event rlE)) (e : rlE R) : R :=
  match e with
  | imm _ => MafOk
  | maf_comsa_imm_comSAMwComponentStart => MafOk
  | maf_comsa_imm_comSAMwComponentStop => MafOk
  | registerComponent => MafOk
  | unregisterComponent => ()
  | message_enabled => true
  | fopen_shmmax => true
  | fgets_shmmax => Some (lit "1048576")
  | getenv _ => None
  end.
Definition demo_doc : option (option xmlNode) := Some (Some (element "components" []
  [text "x"; element "component" [] [element "name" [] [text "MW"]; element "replicatedlist" [("maxsize", "3145728")] []]])).

Lemma rlist_maxsize_configured_witness :
  0 < rlist_maxsize rlist_initial /\
  (maf_comSAMwComponentInitialize demo_env demo_doc (rlist_initial, [])).1 = Ret MafOk /\
  post (maf_comSAMwComponentInitialize demo_env demo_doc) (rlist_initial, [])
    (fun _ c => rlist_maxsize c.1 = 1048576 /\ 0 < rlist_maxsize c.1) (fun w => w = BadPointer).
Proof.
  split; [reflexivity|]. split; [vm_compute; done|].
  exact (rlist_maxsize_configured demo_env demo_doc rlist_initial [] eq_refl).
Defined.

