(* ===== verification/OamComponent.v ===== *)
(** * The OAM component ([ntf/ComSAOamComponent.c])

    The component that opens the transactional resource, the managed objects
    and the notification service when MAF starts it, and closes them when it is
    stopped, and the settings it reads from the configuration: the flags, the
    memory for CM events, the mapping of UUIDs. *)
From Stdlib Require Import ZArith Lia Ascii.
From stdpp Require Import base gmap list strings.
From S2P Require Import Prelude Codes LogConfig TraceConfig Config.

#[local] Open Scope string_scope.
#[local] Open Scope list_scope.
#[local] Open Scope Z_scope.

Inductive MafInterface := MafOamSpiTransaction_2Id | MafOamSpiModelRepository_1Id | MafOamSpiModelRepository_4Id.

(** The calls with a result: the portal and the parts the component opens. *)
Inductive oam_step :=
| getInterface (i : MafInterface)
| OamSATransactionalResourceOpen | OamManagedObjectOpen | maf_ComNtfServiceOpen
| OamSATransactionalResourceClose | OamManagedObjectClose | maf_ComNtfServiceClose
| registerComponent.
#[export] Instance oam_step_eq : EqDecision oam_step.
Proof. intros [[]| | | | | | |] [[]| | | | | | |]; first [by left|by right]. Defined.

Inductive oamE : Type -> Type :=
| step (s : oam_step) : oamE MafReturnT
| createSecretAttrFile : oamE ()
| start_LogEventProducer : oamE ()
| pushComLogLevelEvents : oamE ()
| setUpFileMConsumer : oamE ()
| ObjImp_finalize_imm : oamE ()
| setMafStateChangeReason (reason : Z) : oamE ()
| unregisterComponent : oamE ()
| popen (command : cstr) : oamE bool
| fgets : oamE (option cstr)
| pclose : oamE Z
| read_lines (path : cstr) : oamE (option (list cstr)).   (** [fopen] and the [fgets] up to the end *)

Record Oam := MkOam {
  theModelRepoVersion : Z;
  uuid_cfg_flag : UuidCfg;
  lock_mo_for_config_change : bool;
  non_root_mo_notifications : bool;
  maxSAMemoryForCMEvents : Z              (** [SaUint64T] *)
}.
Definition oam_initial : Oam := MkOam 0 UuidDisableHandle false false 0.
Definition o_version v s := MkOam v (uuid_cfg_flag s) (lock_mo_for_config_change s) (non_root_mo_notifications s) (maxSAMemoryForCMEvents s).
Definition o_uuid v s := MkOam (theModelRepoVersion s) v (lock_mo_for_config_change s) (non_root_mo_notifications s) (maxSAMemoryForCMEvents s).
Definition o_lock v s := MkOam (theModelRepoVersion s) (uuid_cfg_flag s) v (non_root_mo_notifications s) (maxSAMemoryForCMEvents s).
Definition o_nonroot v s := MkOam (theModelRepoVersion s) (uuid_cfg_flag s) (lock_mo_for_config_change s) v (maxSAMemoryForCMEvents s).
Definition o_memory v s := MkOam (theModelRepoVersion s) (uuid_cfg_flag s) (lock_mo_for_config_change s) (non_root_mo_notifications s) v.

(** ** The mapping of UUIDs *)
Fixpoint upper_prefix_uuid (ucstr str : cstr) : bool :=
  match ucstr, str with
  | [], _ => true
  | u :: ucstr, c :: str =>
      if negb (Ascii.eqb (toupper c) (toupper u)) then false else upper_prefix_uuid ucstr str
  | _ :: _, [] => false
  end.
Definition case_insensitive_compare_uuid (ucstr str : cstr) : bool :=
  if (length ucstr <=? length str)%nat then upper_prefix_uuid ucstr str else false.

Definition get_config_state (buf : cstr) : UuidCfg :=
  match after_equals buf with
  | None => UuidDisableHandle
  | Some cptr =>
      match cptr with
      | "1"%char :: _ => UuidMapToAddInfoName
      | "2"%char :: _ => UuidMapValueToAddText
      | "0"%char :: _ => UuidDisableHandle
      | _ => UuidDisableHandle
      end
  end.

Definition UUID_CONF_STR : cstr := lit "uuidmapping".
Definition MAX_LINE_BUFF : nat := 1024.

(** The loop of [load_uuid_configuration] over the lines. *)
Fixpoint load_uuid (lines : list cstr) (flag : UuidCfg) : UuidCfg :=
  match lines with
  | [] => flag
  | buf :: lines =>
      if is_comment buf then load_uuid lines flag
      else if case_insensitive_compare_uuid UUID_CONF_STR buf then get_config_state buf
      else load_uuid lines flag
  end.

(** ** The memory for CM events *)
Definition parseNumber (number : cstr) (scale : Z) (s : Oam) : Oam :=
  let '(num, endptr) := strtoull_end 10 number in
  if bool_decide (endptr = []) && (0 <? num) then o_memory (wrap_u 64 (num * scale)) s else s.

(** [strstr(s, c)] of a string of one letter. *)
Definition has_letter (c : ascii) (s : cstr) : bool := existsb (Ascii.eqb c) s.

(** [strncpy(parsedValue, maxsize, strlen(maxsize) - 1)]: [parsedValue] has
    the size of a pointer and is filled with zeros; [None] when its terminator
    is overwritten. *)
Definition parsedValue_size : nat := 8.
Definition without_unit (maxsize : cstr) : option cstr :=
  let n := (length maxsize - 1)%nat in
  if (n <? parsedValue_size)%nat then Some (take n maxsize) else None.

Definition parse_scaled (maxsize : cstr) (scale : Z) (s : Oam) : option Oam :=
  parsedValue ← without_unit maxsize;
  Some (if (0 <? length parsedValue)%nat then parseNumber parsedValue scale s else s).

Definition parse_cache_size (maxsize : cstr) (s : Oam) : option Oam :=
  if has_letter "K" maxsize then parse_scaled maxsize 1024 s
  else if has_letter "M" maxsize then parse_scaled maxsize (1024 * 1024) s
  else if has_letter "G" maxsize then parse_scaled maxsize (1024 * 1024 * 1024) s
  else Some (parseNumber maxsize 1 s).

Section oam.
Context (env : environment oamE).
(** The name of the build, and its form in lower case. *)
Context (CC_NAME cc_name product_dir : string).
Abbreviation O := (M oamE Oam).

Definition STEP (s : oam_step) : O MafReturnT := call env (step s).
Definition failed (rc : MafReturnT) : bool := negb (bool_decide (rc = MafOk)).

Definition maf_comSAOamComponentStart : O MafReturnT :=
  maf_rc ← STEP (getInterface MafOamSpiTransaction_2Id);
  if failed maf_rc then mret maf_rc
  else
    maf_rc ← STEP (getInterface MafOamSpiModelRepository_1Id);
    if failed maf_rc then mret maf_rc
    else
      maf_rc ← STEP (getInterface MafOamSpiModelRepository_4Id);
      when (negb (failed maf_rc)) (modify (o_version 4)) ;;
      maf_rc ← STEP OamSATransactionalResourceOpen;
      if failed maf_rc then mret maf_rc
      else
        when (bool_decide (CC_NAME = "Com")) (call env createSecretAttrFile) ;;
        maf_rc ← STEP OamManagedObjectOpen;
        if failed maf_rc then mret maf_rc
        else
          maf_rc ← STEP maf_ComNtfServiceOpen;
          if failed maf_rc then mret maf_rc
          else
            when (negb (bool_decide (cc_name = "lm")))
              (call env start_LogEventProducer ;; call env pushComLogLevelEvents) ;;
            call env setUpFileMConsumer ;;
            mret maf_rc.

Definition maf_comSAOamComponentStop (reason : Z) : O MafReturnT :=
  call env ObjImp_finalize_imm ;;
  tmp_rc ← STEP OamSATransactionalResourceClose;
  let com_rc := if failed tmp_rc then tmp_rc else MafOk in
  tmp_rc ← STEP OamManagedObjectClose;
  let com_rc := if failed tmp_rc then tmp_rc else com_rc in
  call env (setMafStateChangeReason reason) ;;
  tmp_rc ← STEP maf_ComNtfServiceClose;
  let com_rc := if failed tmp_rc then tmp_rc else com_rc in
  mret com_rc.

(** The path, or [None] when the function answers [FALSE]. *)
Definition getUUIDConfigurationPath : O (option cstr) :=
  fpipe ← call env (popen (lit cc_name ++ lit "sa_pso getPath config"));
  if negb fpipe then mret None
  else
    line ← call env fgets;
    match line with
    | None => rc ← call env pclose; mret None
    | Some line =>
        match last line with
        | None => exit BadPointer
        | Some c =>
            if negb (Ascii.eqb c newline) then mret None
            else
              rc ← call env pclose;
              mret (if rc =? -1 then None else Some (take (length line - 1) line))
        end
    end.

Definition load_uuid_configuration : O () :=
  configPath ← getUUIDConfigurationPath;
  match configPath with
  | None => mret ()
  | Some configPath =>
      let path := configPath ++ lit "/" ++ lit product_dir ++ lit "/etc/" ++ lit cc_name ++ lit "sa.cfg" in
      if negb (length path <? MAX_LINE_BUFF)%nat then exit BadPointer
      else
        lines ← call env (read_lines path);
        match lines with
        | Some lines => modify (fun s => o_uuid (load_uuid lines (uuid_cfg_flag s)) s)
        | None => mret ()
        end
  end.

Definition oam_item (doc : option (option xmlNode)) (item : string) : option xmlNode :=
  coremw_find_config_item doc (lit "MW_OAM") (lit item).

(** A flag is set by the text [true] of its element. *)
Definition is_true (cfg : option xmlNode) : bool :=
  match cfg with
  | None => false
  | Some cfg => match coremw_xmlnode_contents (Some cfg) with
                | Some value => strcasecmp_eq value (lit "true")
                | None => false
                end
  end.

Definition cmNotificationCache (cfg : option xmlNode) : O () :=
  match cfg with
  | None => mret ()
  | Some cfg =>
      match coremw_xmlnode_get_attribute cfg (lit "maxsize") with
      | Exit w => exit w
      | Ret None => mret ()
      | Ret (Some maxsize) =>
          s ← get;
          s' ← of_option BadPointer (parse_cache_size maxsize s);
          put s'
      end
  end.

Definition maf_comSAOamComponentInitialize (doc : option (option xmlNode)) : O MafReturnT :=
  when (is_true (oam_item doc "lockMoForConfigChange")) (modify (o_lock true)) ;;
  when (is_true (oam_item doc "enableNonrootNBINotifications")) (modify (o_nonroot true)) ;;
  cmNotificationCache (oam_item doc "cmNotificationCache") ;;
  load_uuid_configuration ;;
  STEP registerComponent.

Definition maf_comSAOamComponentFinalize : O () := call env unregisterComponent.
End oam.

(** ** Tests *)
Example cache_512M : parse_cache_size (lit "512M") oam_initial = Some (o_memory (512 * 2 ^ 20) oam_initial).
Proof. vm_compute. reflexivity. Qed.
Example cache_plain : parse_cache_size (lit "1000000000") oam_initial = Some (o_memory 1000000000 oam_initial).
Proof. vm_compute. reflexivity. Qed.
Example cache_two_units : parse_cache_size (lit "5KM") oam_initial = Some oam_initial.
Proof. vm_compute. reflexivity. Qed.
Example cache_long : parse_cache_size (lit "10000000K") oam_initial = None.
Proof. vm_compute. reflexivity. Qed.
Example uuid_text : load_uuid [lit "# UuidMapping=1"; lit "UUIDMapping=2"] UuidDisableHandle = UuidMapValueToAddText.
Proof. vm_compute. reflexivity. Qed.
