(* ===== verification/OamProps.v ===== *)
(** * The OAM component: theorems *)
From Stdlib Require Import ZArith Lia Ascii.
From stdpp Require Import base gmap list strings pretty.
From S2P Require Import Prelude Codes LogConfig LogConfigProps TraceConfig Config OamComponent.

#[local] Open Scope string_scope.
#[local] Open Scope list_scope.
#[local] Open Scope Z_scope.

(** ** The memory for CM events *)

(** A digit, as the two readers of numbers see it. *)
Lemma digit_value_digit c : isdigit c = true -> digit_value c = digit c /\ 0 <= digit c < 10.
Proof.
  destruct c as [[] [] [] [] [] [] [] []]; intros H; vm_compute in H; try discriminate H;
    (split; [reflexivity|vm_compute; split; congruence]).
Qed.

Lemma read_digits_decimal ds acc :
  Forall (fun c => isdigit c = true) ds -> read_digits 10 acc ds = (digits_value 10 acc ds, []).
Proof.
  intros Hall. revert acc. induction Hall as [|c ds Hc _ IH]; intros acc; [done|]. cbn [read_digits digits_value].
  destruct (digit_value_digit c Hc) as [-> ?]. rewrite Hc, (proj2 (Z.ltb_lt _ _)) by lia. cbn [andb]. apply IH.
Qed.

Lemma base_of_10 s : base_of 10 s = (10, s).
Proof. destruct s as [|c [|x [|d s]]]; cbn; repeat (case_match; simplify_eq); done. Qed.

Lemma digits_value_bound ds acc :
  0 <= acc -> Forall (fun c => isdigit c = true) ds ->
  acc <= digits_value 10 acc ds < (acc + 1) * 10 ^ Z.of_nat (length ds).
Proof.
  intros Ha Hall. revert acc Ha. induction Hall as [|c ds Hc _ IH]; intros acc Ha; [cbn; lia|].
  cbn [digits_value length]. destruct (digit_value_digit c Hc) as [_ ?].
  rewrite Hc, (proj2 (Z.ltb_lt _ _)) by lia. cbn [andb].
  specialize (IH (acc * 10 + digit c) ltac:(lia)).
  rewrite Nat2Z.inj_succ, Z.pow_succ_r by lia.
  assert (0 < 10 ^ Z.of_nat (length ds)) by (apply Z.pow_pos_nonneg; lia). nia.
Qed.

(** The decimal form of a positive number: digits, whose value it is. *)
Lemma print_digits n : 0 < n ->
  exists c ds, print n = c :: ds /\ Forall (fun c => isdigit c = true) (print n) /\ digits_value 10 0 (print n) = n.
Proof.
  intros Hn. unfold print, pretty, pretty_N. case_decide as H0; [lia|].
  destruct (pretty_go (Z.to_N n) "") as (ds & Hs & Hall & Hval & Hhd & _).
  destruct (Hhd ltac:(lia)) as (c & ds' & He & _).
  rewrite Hs. change (lit "") with (@nil ascii). rewrite app_nil_r.
  exists c, ds'. split; [done|]. split; [done|].
  specialize (Hval 0 []). rewrite app_nil_r in Hval. rewrite Hval. cbn. lia.
Qed.

Lemma strtoull_print n : 0 < n < 2 ^ 64 -> strtoull_end 10 (print n) = (n, []).
Proof.
  intros Hn. destruct (print_digits n ltac:(lia)) as (c & ds & He & Hall & Hval).
  pose proof (Forall_inv (eq_ind _ (Forall _) Hall _ He)) as Hc. cbn in Hc.
  unfold strtoull_end.
  assert (Hs : skip_space (print n) = print n).
  { rewrite He. cbn [skip_space]. replace (isspace c) with false; [done|].
    destruct c as [[] [] [] [] [] [] [] []]; vm_compute in Hc; try discriminate Hc; reflexivity. }
  assert (Hsign : (match print n with "-"%char :: t' => (true, t') | "+"%char :: t' => (false, t') | _ => (false, print n) end)
                  = (false, print n)).
  { rewrite He. destruct c as [[] [] [] [] [] [] [] []]; vm_compute in Hc; try discriminate Hc; reflexivity. }
  rewrite Hs, Hsign, base_of_10, read_digits_decimal, Hval by done. rewrite He.
  destruct (digit_value_digit c Hc) as [-> ?].
  rewrite (proj2 (Z.ltb_lt _ _)), (proj2 (Z.leb_gt _ _)) by lia. done.
Qed.

Lemma parseNumber_print n scale s : 0 < n < 2 ^ 64 ->
  parseNumber (print n) scale s = o_memory (wrap_u 64 (n * scale)) s.
Proof.
  intros Hn. unfold parseNumber. rewrite strtoull_print by done.
  rewrite bool_decide_true by done. by rewrite (proj2 (Z.ltb_lt _ _)) by lia.
Qed.

(** Digits hold none of the letters. *)
Lemma has_letter_digits ds c tl : isdigit c = false -> Forall (fun c => isdigit c = true) ds ->
  has_letter c (ds ++ tl) = has_letter c tl.
Proof.
  intros Hc. unfold has_letter. induction 1 as [|d ds Hd _ IH]; [done|]. cbn [app existsb].
  rewrite IH. destruct (Ascii.eqb_spec c d); [congruence|done].
Qed.

Inductive unit := Kilo | Mega | Giga.
Definition letter (u : unit) : ascii := match u with Kilo => "K" | Mega => "M" | Giga => "G" end.
Definition factor (u : unit) : Z := match u with Kilo => 2 ^ 10 | Mega => 2 ^ 20 | Giga => 2 ^ 30 end.

(** The attribute [maxsize] of the cache of CM events.  A positive number
    without unit is the size in bytes; with one of the three units it is
    multiplied by 2^10, 2^20 or 2^30, and the product does not overflow.  This
    holds for numbers of at most seven digits only: the copy of the number
    is as large as a pointer (8 bytes), so that with eight digits or more the
    unit's form overwrites the terminator of the copy, or what follows it. *)
Theorem cache_size_units n s :
  0 < n < 2 ^ 64 ->
  parse_cache_size (print n) s = Some (o_memory n s) /\
  forall u, parse_cache_size (print n ++ [letter u]) s =
    if (length (print n) <=? 7)%nat then Some (o_memory (n * factor u) s) else None.
Proof.
  intros Hn. destruct (print_digits n ltac:(lia)) as (c & ds & He & Hall & Hval).
  split.
  - unfold parse_cache_size. rewrite <- (app_nil_r (print n)).
    do 3 (rewrite (has_letter_digits (print n)); [|reflexivity|exact Hall]). cbn [has_letter existsb]. rewrite app_nil_r, parseNumber_print by done.
    unfold wrap_u. by rewrite Z.mul_1_r, Z.mod_small by lia.
  - intros u.
    assert (Hp : parse_cache_size (print n ++ [letter u]) s = parse_scaled (print n ++ [letter u]) (factor u) s).
    { unfold parse_cache_size. do 3 (rewrite (has_letter_digits (print n)); [|reflexivity|exact Hall]). by destruct u. }
    rewrite Hp. unfold parse_scaled, without_unit, parsedValue_size. rewrite length_app. cbn [length].
    replace (length (print n) + 1 - 1)%nat with (length (print n)) by lia.
    rewrite take_app_length. destruct (Nat.leb_spec (length (print n)) 7) as [H7|H7].
    + rewrite (proj2 (Nat.ltb_lt _ _)) by lia. cbn [mbind option_bind]. rewrite (proj2 (Nat.ltb_lt _ _)) by (rewrite He; cbn; lia).
      rewrite parseNumber_print by done. do 2 f_equal. apply Z.mod_small.
      pose proof (digits_value_bound (print n) 0 ltac:(lia) Hall) as Hb. rewrite Hval in Hb.
      assert (10 ^ Z.of_nat (length (print n)) <= 10 ^ 7) by (apply Z.pow_le_mono_r; lia).
      destruct u; cbn [factor]; lia.
    + rewrite (proj2 (Nat.ltb_ge _ _)) by lia. done.
Qed.

Lemma cache_size_units_witness :
  0 < 10000000 < 2 ^ 64 /\
  parse_cache_size (lit "10000000") oam_initial = Some (o_memory 10000000 oam_initial) /\
  parse_cache_size (lit "10000000K") oam_initial = None /\
  parse_cache_size (lit "512M") oam_initial = Some (o_memory (512 * 2 ^ 20) oam_initial).
Proof.
  split; [lia|]. split; [exact (proj1 (cache_size_units 10000000 oam_initial ltac:(lia)))|].
  split; [exact (proj2 (cache_size_units 10000000 oam_initial ltac:(lia)) Kilo)|].
  exact (proj2 (cache_size_units 512 oam_initial ltac:(lia)) Mega).
Defined.

(** ** Starting and stopping *)
Section start.
Context (env : environment oamE) (CC_NAME cc_name : string).

(** The steps of a run with their answers. *)
Definition answer (e : event oamE) : option (oam_step * MafReturnT) :=
  match e with
  | Ev c r => match c in oamE R return R -> option (oam_step * MafReturnT) with
              | step s => fun rc => Some (s, rc)
              | _ => fun _ => None
              end r
  end.
Definition answers (tr : list (event oamE)) : list (oam_step * MafReturnT) := omap answer tr.

Definition mandatory : list oam_step :=
  [getInterface MafOamSpiTransaction_2Id; getInterface MafOamSpiModelRepository_1Id;
   OamSATransactionalResourceOpen; OamManagedObjectOpen; maf_ComNtfServiceOpen].
Definition mandatory_answers (tr : list (event oamE)) : list (oam_step * MafReturnT) :=
  filter (fun x => x.1 ∈ mandatory) (answers tr).
Definition consumer_set_up (tr : list (event oamE)) : bool :=
  existsb (fun e => match e with Ev c _ => match c with setUpFileMConsumer => true | _ => false end end) tr.

(** Symbolic execution of one step: it fails (first goal), or it is [MafOk]. *)
Ltac run_step rc :=
  apply sat_bind; apply sat_call; intros rc _; cbn [fst snd]; unfold failed at 1;
  destruct (decide (rc = MafOk)) as [->|];
  [rewrite (bool_decide_true (MafOk = MafOk)) by done; cbn [negb]
  |rewrite (bool_decide_false (rc = MafOk)) by done; cbn [negb]]; revgoals.
Ltac run_call := apply sat_call; intros [] _; cbn [fst snd].

(** The end of a run in which the steps [d] succeeded before the last one. *)
Ltac finish d :=
  apply sat_ret; eexists _, d, _, _; cbn [fst snd]; rewrite <- ?app_assoc; cbn [app];
  split; [reflexivity|]; split; [reflexivity|]; split; [reflexivity|];
  split; [first [reflexivity|congruence|done]|]; split;
  [first [by rewrite bool_decide_false|by rewrite bool_decide_true]|by apply (bool_decide_unpack _)].

(** The start of the OAM component.  It returns for every answer of the
    parts it needs; it asks for the two mandatory interfaces and opens the
    transactional resource, the managed objects and the notification service
    in this order, every one only when all before it answered [MafOk], and
    its result is the last answer.  The consumer of the file model is set up
    exactly when all five succeeded; nothing is asked twice and nothing that
    was opened is closed again when a later step fails. *)
Theorem oam_start_in_order s tr :
  sat (maf_comSAOamComponentStart env CC_NAME cc_name) (s, tr) (fun rc c => exists new done last rest,
    c.2 = tr ++ new /\ mandatory = done ++ last :: rest /\
    mandatory_answers new = ((fun x => (x, MafOk)) <$> done) ++ [(last, rc)] /\
    (rc = MafOk -> rest = []) /\
    consumer_set_up new = bool_decide (rc = MafOk) /\
    Forall (fun x => x.1 ∉ [OamSATransactionalResourceClose; OamManagedObjectClose; maf_ComNtfServiceClose]) (answers new)).
Proof.
  unfold maf_comSAOamComponentStart. run_step rc1; [finish (@nil oam_step)|].
  run_step rc2; [finish (take 1 mandatory)|].
  apply sat_bind, sat_call; intros rc3 _; cbn [fst snd].
  apply sat_bind, sat_when; intros _; [apply sat_modify; cbn [fst snd]|].
  all: run_step rc4; [finish (take 2 mandatory)|].
  all: apply sat_bind, sat_when; intros _; [run_call|].
  all: run_step rc5; [finish (take 3 mandatory)|].
  all: run_step rc6; [finish (take 4 mandatory)|].
  all: apply sat_bind, sat_when; intros _; [apply sat_bind; do 2 run_call|].
  all: apply sat_bind; run_call; finish (take 4 mandatory).
Qed.

(** The stop runs the three closes whatever they answer, in the order in
    which the parts were opened, and reports the last failure. *)
Lemma oam_stop_closes_all reason s tr :
  sat (maf_comSAOamComponentStop env reason) (s, tr) (fun rc c => exists new r1 r2 r3,
    c = (s, tr ++ new) /\
    answers new = [(OamSATransactionalResourceClose, r1); (OamManagedObjectClose, r2); (maf_ComNtfServiceClose, r3)] /\
    rc = (if failed r3 then r3 else if failed r2 then r2 else if failed r1 then r1 else MafOk) /\
    (rc = MafOk <-> r1 = MafOk /\ r2 = MafOk /\ r3 = MafOk)).
Proof.
  unfold maf_comSAOamComponentStop. apply sat_bind; run_call.
  apply sat_bind, sat_call; intros r1 _; cbn [fst snd]. apply sat_bind, sat_call; intros r2 _; cbn [fst snd].
  apply sat_bind; run_call. apply sat_bind, sat_call; intros r3 _; cbn [fst snd].
  apply sat_ret. eexists _, r1, r2, r3. rewrite <- !app_assoc. split; [reflexivity|]. split; [reflexivity|].
  split; [done|]. unfold failed. repeat case_bool_decide; cbn; naive_solver.
Qed.
End start.

(** *** Two runs of the start: all parts answer [MafOk]; the managed objects fail. *)
Definition oam_env (mo : MafReturnT) (R : Type) (tr : list (event oamE)) (e : oamE R) : R :=
  match e with
  | step OamManagedObjectOpen => mo
  | step _ => MafOk
  | createSecretAttrFile => ()
  | start_LogEventProducer => ()
  | pushComLogLevelEvents => ()
  | setUpFileMConsumer => ()
  | ObjImp_finalize_imm => ()
  | setMafStateChangeReason _ => ()
  | unregisterComponent => ()
  | popen _ => true
  | fgets => Some (lit "/cluster" ++ [newline])
  | pclose => 0
  | read_lines _ => Some [lit "uuidMapping=1"]
  end.
Example oam_start_ok : (maf_comSAOamComponentStart (oam_env MafOk) "Com" "com" (oam_initial, [])).1 = Ret MafOk.
Proof. vm_compute. reflexivity. Qed.
Example oam_start_fails :
  (maf_comSAOamComponentStart (oam_env MafFailure) "Com" "com" (oam_initial, [])).1 = Ret MafFailure.
Proof. vm_compute. reflexivity. Qed.
Example oam_initialize_uuid :
  uuid_cfg_flag (maf_comSAOamComponentInitialize (oam_env MafOk) "com" "comsa" None (oam_initial, [])).2.1 = UuidMapToAddInfoName.
Proof. vm_compute. reflexivity. Qed.
