(* ===== verification/TraceConfigProps.v ===== *)
(** * Properties of the trace configuration

    The mask that a configuration file gives, and the table of subsystems as a
    finite map from handles to names. *)
From Stdlib Require Import ZArith Lia Ascii.
From stdpp Require Import base gmap list strings.
From S2P Require Import Prelude LogConfig TraceConfig.

#[local] Open Scope string_scope.
#[local] Open Scope list_scope.
#[local] Open Scope Z_scope.

(** ** The mask *)
(** A line that switches tracing off altogether, and a line that selects a group. *)
Definition global_off (buf : cstr) : bool :=
  negb (is_comment buf) && (case_insensitive_compare GLOBAL_TRACE_STR buf && negb (get_enabled_state buf)).
Definition selects (k : Z) (buf : cstr) : bool := negb (is_comment buf) && (get_trace_group_no buf =? k).

Lemma isdigit_digit c : isdigit c = true -> 0 <= digit c <= 9.
Proof. unfold isdigit, digit. rewrite andb_true_iff, !Z.leb_le. lia. Qed.

Lemma group_range buf : 0 <= get_trace_group_no buf <= 99.
Proof.
  unfold get_trace_group_no. destruct (_ <? _)%nat; [|lia]. destruct (upper_prefix _ _); [|lia].
  destruct (buf !! _) as [c|]; [|lia]. destruct (buf !! _) as [d|]; [|lia].
  destruct (isdigit c && isdigit d) eqn:Hd; [|lia]. destruct (get_enabled_state buf); [|lia].
  apply andb_true_iff in Hd as [?%isdigit_digit ?%isdigit_digit]. lia.
Qed.

Lemma load_mask_from lines mask : Forall (fun l => get_trace_group_no l <> 32) lines -> 0 <= mask < 2 ^ 32 ->
  exists m, load_mask lines mask = Some m /\ 0 <= m < 2 ^ 32 /\
    forall k, 0 <= k < 32 -> Z.testbit m k = negb (existsb global_off lines) && (Z.testbit mask k || existsb (selects k) lines).
Proof.
  intros Hl. revert mask. induction Hl as [|l lines Hl32 _ IH]; intros mask Hm.
  { exists mask. split; [done|]. split; [done|]. intros k _. simpl. by rewrite orb_false_r. }
  cbn [load_mask existsb]. unfold global_off at 1, selects at 1.
  destruct (is_comment l); [by apply IH|]. cbn [negb andb].
  destruct (_ && _).
  { exists 0. split; [done|]. split; [done|]. intros k _. by rewrite Z.bits_0. }
  pose proof (group_range l) as Hr. cbn [orb].
  assert (Hskip : (0 <=? get_trace_group_no l) && (get_trace_group_no l <=? MAX_TRACE_GRP_NO) = (get_trace_group_no l <? 32)).
  { unfold MAX_TRACE_GRP_NO. apply eq_true_iff_eq. rewrite andb_true_iff, !Z.leb_le, Z.ltb_lt. lia. }
  rewrite Hskip. unfold shl1. destruct (Z.ltb_spec (get_trace_group_no l) 32) as [Hlt|Hge]; cbn [mbind option_bind].
  - assert (Hp : 2 ^ get_trace_group_no l < 2 ^ 32) by (by apply Z.pow_lt_mono_r).
    assert (0 <= 2 ^ get_trace_group_no l) by (by apply Z.pow_nonneg).
    destruct (IH (Z.lor mask (2 ^ get_trace_group_no l))) as (m & -> & Hmr & Hbits).
    { split; [apply Z.lor_nonneg; lia|]. destruct (decide (Z.lor mask (2 ^ get_trace_group_no l) = 0)) as [->|Hn]; [done|].
      apply Z.log2_lt_pow2; [assert (0 <= Z.lor mask (2 ^ get_trace_group_no l)) by (apply Z.lor_nonneg; lia); lia|].
      rewrite Z.log2_lor by lia. apply Z.max_lub_lt; [|by rewrite Z.log2_pow2 by lia].
      destruct (decide (mask = 0)) as [->|]; [done|]. apply Z.log2_lt_pow2; lia. }
    exists m. split; [done|]. split; [done|]. intros k Hk. rewrite Hbits by done.
    rewrite Z.lor_spec, Z.pow2_bits_eqb by lia. by rewrite <- orb_assoc.
  - destruct (IH mask Hm) as (m & -> & Hmr & Hbits). exists m. split; [done|]. split; [done|]. intros k Hk.
    rewrite Hbits by done. rewrite (proj2 (Z.eqb_neq (get_trace_group_no l) k)) by lia. done.
Qed.

(** The mask that [load_new_configuration_comsa] computes from the lines of
    the file: if a line switches tracing off the mask is empty, and otherwise it
    has the bit of a group exactly when a line that is not a comment selects it.
    A line that names no group, or does not enable it, selects group 0.  (A
    line that enables group 32 would shift a 32-bit one by 32.) *)
Theorem load_mask_selects lines : Forall (fun l => get_trace_group_no l <> 32) lines ->
  exists m, load_mask lines 0 = Some m /\ 0 <= m < 2 ^ 32 /\
    forall k, 0 <= k < 32 -> Z.testbit m k = true <->
      (forall l, l ∈ lines -> global_off l = false) /\
      (exists l, l ∈ lines /\ is_comment l = false /\ get_trace_group_no l = k).
Proof.
  intros Hl. destruct (load_mask_from lines 0 Hl ltac:(lia)) as (m & Hm & Hr & Hb).
  exists m. split; [done|]. split; [done|]. intros k Hk. rewrite Hb by done. rewrite Z.bits_0. cbn [orb].
  rewrite andb_true_iff, negb_true_iff. f_equiv.
  - split.
    + intros H l Hin. destruct (global_off l) eqn:E; [|done]. rewrite <- H. symmetry. apply existsb_exists. exists l.
      by rewrite <- list_elem_of_In.
    + intros H. destruct (existsb global_off lines) eqn:E; [|done]. apply existsb_exists in E as (l & Hin & <-).
      apply H. by apply list_elem_of_In.
  - rewrite existsb_exists. unfold selects. setoid_rewrite <- list_elem_of_In. setoid_rewrite andb_true_iff.
    setoid_rewrite negb_true_iff. setoid_rewrite Z.eqb_eq. done.
Qed.

Example load_mask_selects_witness : exists m,
  load_mask [lit "COMSA_GLOBAL_TRACE=ENABLED"; lit "comsa_trace_group_01=enabled"; lit "COMSA_TRACE_GROUP_09=DISABLED"] 0 = Some m /\
  Z.testbit m 1 = true /\ Z.testbit m 0 = true /\ ~ Z.testbit m 9 = true.
Proof.
  destruct (load_mask_selects [lit "COMSA_GLOBAL_TRACE=ENABLED"; lit "comsa_trace_group_01=enabled"; lit "COMSA_TRACE_GROUP_09=DISABLED"]
    ltac:(repeat constructor; vm_compute; lia)) as (m & Hm & _ & Hb).
  assert (Hon : forall l, l ∈ [lit "COMSA_GLOBAL_TRACE=ENABLED"; lit "comsa_trace_group_01=enabled"; lit "COMSA_TRACE_GROUP_09=DISABLED"] -> global_off l = false)
    by (intros l Hin; repeat (apply elem_of_cons in Hin as [->|Hin]; [reflexivity|]); by apply elem_of_nil in Hin).
  exists m. split; [exact Hm|]. split; [|split].
  - apply Hb; [lia|]. split; [exact Hon|]. exists (lit "comsa_trace_group_01=enabled"). split; [right; left|by split].
  - apply Hb; [lia|]. split; [exact Hon|]. exists (lit "COMSA_GLOBAL_TRACE=ENABLED"). split; [left|by split].
  - intros H9. destruct (proj1 (Hb 9 ltac:(lia)) H9) as [_ (l & Hin & _ & Hg)].
    repeat (apply elem_of_cons in Hin as [->|Hin]; [vm_compute in Hg; discriminate|]). by apply elem_of_nil in Hin.
Defined.

(** The shift by 32 that the bound of the check allows. *)
Lemma load_mask_undefined : load_mask [lit "COMSA_TRACE_GROUP_32=E"] 0 = None.
Proof. reflexivity. Qed.

(** ** The table of subsystems *)
Record subsystems_ok (l : list subsystemMapT) : Prop := {
  sub_length : length l = MAX_SUBSYSTEM_NUM;
  sub_entry : forall i e, l !! i = Some e ->
    (subsystemHandle e = 0 /\ subsystem e = []) \/ (subsystemHandle e = Z.of_nat i + 1 /\ subsystem e <> []);
  sub_names : forall i j d e, l !! i = Some d -> l !! j = Some e -> subsystem d = subsystem e -> subsystem d <> [] -> i = j
}.

Lemma empty_subsystems_ok : subsystems_ok empty_subsystems.
Proof.
  constructor; unfold empty_subsystems.
  - apply length_replicate.
  - intros i e [-> _]%lookup_replicate. by left.
  - intros i j d e [-> _]%lookup_replicate [-> _]%lookup_replicate _ []. done.
Qed.

Lemma find_from_some f n l i e : find_from f n l = Some (i, e) -> (n <= i)%nat /\ l !! (i - n)%nat = Some e /\ f e = true.
Proof.
  revert n. induction l as [|d l IH]; intros n; simpl; [done|]. destruct (f d) eqn:E.
  - intros [= <- <-]. rewrite Nat.sub_diag. by split_and!.
  - intros (H1 & H2 & H3)%IH. split; [lia|]. split; [|done]. by replace (i - n)%nat with (S (i - S n)) by lia.
Qed.

Lemma find_from_none f n l : find_from f n l = None -> forall i e, l !! i = Some e -> f e = false.
Proof.
  revert n. induction l as [|d l IH]; intros n; simpl; [done|]. destruct (f d) eqn:E; [done|].
  intros H [|i] e; simpl; [by intros [= <-]|]. by eapply IH.
Qed.

Lemma find_from_first f n l i e : l !! i = Some e -> f e = true ->
  (forall j d, l !! j = Some d -> f d = true -> j = i) -> find_from f n l = Some ((n + i)%nat, e).
Proof.
  revert n i. induction l as [|d l IH]; intros n i; simpl; [done|]. destruct i as [|i]; simpl.
  - intros [= ->] -> _. by rewrite Nat.add_0_r.
  - intros Hi He Hu. destruct (f d) eqn:E; [by specialize (Hu 0%nat d eq_refl E)|].
    rewrite (IH (S n) i); [f_equal; f_equal; lia|done|done|]. intros j d' Hj Hd'. by specialize (Hu (S j) d' Hj Hd') as [= ->].
Qed.

Lemma getSubsystemInfo_some h l e : subsystems_ok l ->
  getSubsystemInfo h l = Some e <-> exists i, h = Z.of_nat i + 1 /\ l !! i = Some e /\ subsystem e <> [].
Proof.
  intros Hok. unfold getSubsystemInfo. split.
  - destruct (_ && _) eqn:Hr; [|done]. apply andb_true_iff in Hr as [Hr1%Z.ltb_lt Hr2%Z.ltb_lt].
    destruct (l !! Z.to_nat (h - 1)) as [d|] eqn:El; [|done]. cbn.
    destruct (Z.eqb_spec h (subsystemHandle d)) as [Hh|]; [|done]. intros [= <-].
    exists (Z.to_nat (h - 1)). split; [lia|]. split; [done|].
    destruct (sub_entry _ Hok _ _ El) as [[? ?]|[? ?]]; [lia|done].
  - intros (i & -> & Hi & Hne). pose proof (lookup_lt_Some _ _ _ Hi) as Hlt. rewrite (sub_length _ Hok) in Hlt.
    rewrite (proj2 (andb_true_iff _ _)) by (rewrite !Z.ltb_lt; lia).
    replace (Z.to_nat (Z.of_nat i + 1 - 1)) with i by lia. rewrite Hi. cbn.
    destruct (sub_entry _ Hok _ _ Hi) as [[? ?]|[-> _]]; [done|]. by rewrite Z.eqb_refl.
Qed.

Lemma insert_subsystem_ok l i name lm e : subsystems_ok l -> l !! i = Some e -> subsystem e = [] -> name <> [] ->
  (forall j d, l !! j = Some d -> subsystem d <> name) ->
  subsystems_ok (<[i := MkSubsystem (Z.of_nat i + 1) name lm]> l).
Proof.
  intros Hok Hi He Hname Hnew. pose proof (lookup_lt_Some _ _ _ Hi) as Hlt. constructor.
  - rewrite length_insert. apply Hok.
  - intros j d [(<- & <- & _)|[Hne Hj]]%list_lookup_insert_Some; [by right|by eapply sub_entry].
  - intros j k d1 d2 [(<- & <- & _)|[Hne1 Hj]]%list_lookup_insert_Some [(<- & <- & _)|[Hne2 Hk]]%list_lookup_insert_Some;
      cbn [subsystem]; intros Heq Hn.
    + done.
    + by destruct (Hnew _ _ Hk).
    + by destruct (Hnew _ _ Hj).
    + by eapply sub_names.
Qed.

(** C40. Registering a subsystem under a name that is not empty and fits: the
    answer is a handle that looks the name up again, every handle given before
    still means what it meant, the table keeps its invariant (handles are
    positions, names are distinct), and registering the name once more gives the
    same handle and changes nothing.  The only other answer is that the table is
    full of other names, and then nothing changes. *)
Theorem registerSubsystem_roundtrip l name : subsystems_ok l -> name <> [] -> (length name < MAX_SUBSYSTEM_NAME_LEN)%nat ->
  match coremw_registerSubsystem (Some name) true l with
  | (RegOk h, l') => subsystems_ok l' /\ (exists e, getSubsystemInfo h l' = Some e /\ subsystem e = name) /\
      (forall h' e, getSubsystemInfo h' l = Some e -> getSubsystemInfo h' l' = Some e) /\
      coremw_registerSubsystem (Some name) true l' = (RegOk h, l')
  | (RegNoResources, l') => l' = l /\ forall i e, l !! i = Some e -> subsystem e <> [] /\ subsystem e <> name
  | (RegInvalidArgument, _) => False
  end.
Proof.
  intros Hok Hne Hlen. unfold coremw_registerSubsystem. cbn [negb]. rewrite (proj2 (Nat.leb_gt _ _)) by done.
  destruct (find_from _ 0 l) as [[i e]|] eqn:Ef.
  - apply find_from_some in Ef as Hf. destruct Hf as (_ & Hi & ->%bool_decide_eq_true). rewrite Nat.sub_0_r in Hi.
    destruct (sub_entry _ Hok _ _ Hi) as [[? ?]|[Hh _]]; [done|].
    split; [done|]. split; [|split; [done|by rewrite Ef]].
    exists e. split; [|done]. apply getSubsystemInfo_some; [done|]. by exists i.
  - assert (Hnew : forall j d, l !! j = Some d -> subsystem d <> name).
    { intros j d Hj Heq. pose proof (find_from_none _ _ _ Ef _ _ Hj) as Hf%bool_decide_eq_false. by rewrite Heq in Hf. }
    destruct (find_from (fun e => 0 =? subsystemHandle e) 0 l) as [[i e]|] eqn:Ez.
    + apply find_from_some in Ez as (_ & Hi & H0%Z.eqb_eq). rewrite Nat.sub_0_r in Hi.
      destruct (sub_entry _ Hok _ _ Hi) as [[_ He]|[? _]]; [|lia].
      set (lm := if _ || _ then 1 else lmServerUse e).
      pose proof (insert_subsystem_ok l i name lm e Hok Hi He Hne Hnew) as Hok'.
      pose proof (lookup_lt_Some _ _ _ Hi) as Hlt.
      assert (Hat : <[i:=MkSubsystem (Z.of_nat i + 1) name lm]> l !! i = Some (MkSubsystem (Z.of_nat i + 1) name lm))
        by (by apply list_lookup_insert_eq).
      split; [done|]. split; [|split].
      * eexists. split; [apply getSubsystemInfo_some; [done|]|]; [|]; [exists i; split; [done|]; split; [exact Hat|done]|done].
      * intros h' d. rewrite !getSubsystemInfo_some by done. intros (j & -> & Hj & Hd). exists j. split; [done|]. split; [|done].
        rewrite list_lookup_insert_ne; [done|]. intros <-. by simplify_eq.
      * rewrite (find_from_first _ 0 _ i _ Hat); [done|by rewrite bool_decide_true|].
        intros j d Hj Hd%bool_decide_eq_true. eapply (sub_names _ Hok'); [exact Hj|exact Hat|by rewrite <- Hd|by rewrite <- Hd].
    + split; [done|]. intros i e Hi. split; [|by eapply Hnew].
      pose proof (find_from_none _ _ _ Ez _ _ Hi) as H0%Z.eqb_neq.
      destruct (sub_entry _ Hok _ _ Hi) as [[? _]|[_ ?]]; [lia|done].
Qed.

Example registerSubsystem_roundtrip_witness : exists l',
  coremw_registerSubsystem (Some (lit "LmServer::core")) true empty_subsystems = (RegOk 1, l') /\ subsystems_ok l' /\
  (exists e, getSubsystemInfo 1 l' = Some e /\ subsystem e = lit "LmServer::core").
Proof.
  pose proof (registerSubsystem_roundtrip empty_subsystems (lit "LmServer::core") empty_subsystems_ok ltac:(done) ltac:(vm_compute; lia)) as H.
  assert (Hr : fst (coremw_registerSubsystem (Some (lit "LmServer::core")) true empty_subsystems) = RegOk 1) by reflexivity.
  destruct (coremw_registerSubsystem _ _ _) as [r l']. cbn [fst] in Hr. subst r. exists l'.
  split; [done|]. split; [exact (proj1 H)|exact (proj1 (proj2 H))].
Defined.

(** The empty name is taken for the name of a free entry: it is answered with
    success and the handle 0, which no lookup accepts. *)
Lemma register_empty_name l : subsystems_ok l -> (exists i e, l !! i = Some e /\ subsystem e = []) ->
  coremw_registerSubsystem (Some []) true l = (RegOk 0, l) /\ getSubsystemInfo 0 l = None.
Proof.
  intros Hok (i & e & Hi & He). split; [|done]. unfold coremw_registerSubsystem. simpl.
  destruct (find_from _ 0 l) as [[j d]|] eqn:Ef.
  - apply find_from_some in Ef as (_ & Hj & Hd%bool_decide_eq_true). rewrite Nat.sub_0_r in Hj.
    destruct (sub_entry _ Hok _ _ Hj) as [[-> _]|[_ ?]]; [done|]. by rewrite <- Hd in *.
  - pose proof (find_from_none _ _ _ Ef _ _ Hi) as Hf%bool_decide_eq_false. by rewrite He in Hf.
Qed.
