(* ===== verification/TraceService.v ===== *)
(** * The trace service ([trace/ComSATraceService.c], [trace/SaInternalTrace.c])

    Two more log streams (of COM and of the support agent), opened, filtered and
    closed like those of the log service; the trace calls of the SPI, filtered by
    group or by subsystem; reloading of the configuration file; start and stop.

    The streams, [trace_flag] and the poll table are those of the state of the log
    service, so its operations are used through [on_log]. *)
From Stdlib Require Import ZArith Lia Ascii.
From stdpp Require Import base gmap list strings.
From S2P Require Import Prelude SelectTimer PollTable Codes LogConfig LogService TraceConfig.

#[local] Open Scope string_scope.
#[local] Open Scope list_scope.
#[local] Open Scope Z_scope.

Definition COMCFG_LOG : Z := 501.
Definition SALOG_SEV_FLAG_DEFAULT : Z := 7.

(** ** State *)
(** [ptr_trace_flag]: null, attached to the shared flag, or left pointing to memory
    that was detached. *)
Inductive shared_flag := NotShared | Shared (v : Z) | Dangling.
#[export] Instance shared_flag_eq_dec : EqDecision shared_flag.
Proof. solve_decision. Defined.

Record Trace (PT : Type) := MkTrace {
  log : Log PT;
  current_mask : Z;
  configfile_name : option cstr;
  ptr_trace_flag : shared_flag;
  segment_id : Z;
  time_last_changed : Z;  (** of [check_and_load_configuration] *)
  subsystemArray : list subsystemMapT;
  subsystemState : SubsystemState;
  comCfglog_status : bool;
  status : bool;  (** of [SaInternalTrace.c] *)
  compIdentityString : option string;
  compSaIdentityString : option string
}.
Arguments log {PT} _.
Arguments current_mask {PT} _.
Arguments configfile_name {PT} _.
Arguments ptr_trace_flag {PT} _.
Arguments segment_id {PT} _.
Arguments time_last_changed {PT} _.
Arguments subsystemArray {PT} _.
Arguments subsystemState {PT} _.
Arguments comCfglog_status {PT} _.
Arguments status {PT} _.
Arguments compIdentityString {PT} _.
Arguments compSaIdentityString {PT} _.
Definition t_log {PT} v (s : Trace PT) : Trace PT := MkTrace _ v (current_mask s) (configfile_name s) (ptr_trace_flag s) (segment_id s) (time_last_changed s) (subsystemArray s) (subsystemState s) (comCfglog_status s) (status s) (compIdentityString s) (compSaIdentityString s).
Definition t_mask {PT} v (s : Trace PT) : Trace PT := MkTrace _ (log s) v (configfile_name s) (ptr_trace_flag s) (segment_id s) (time_last_changed s) (subsystemArray s) (subsystemState s) (comCfglog_status s) (status s) (compIdentityString s) (compSaIdentityString s).
Definition t_config {PT} v (s : Trace PT) : Trace PT := MkTrace _ (log s) (current_mask s) v (ptr_trace_flag s) (segment_id s) (time_last_changed s) (subsystemArray s) (subsystemState s) (comCfglog_status s) (status s) (compIdentityString s) (compSaIdentityString s).
Definition t_shared {PT} v (s : Trace PT) : Trace PT := MkTrace _ (log s) (current_mask s) (configfile_name s) v (segment_id s) (time_last_changed s) (subsystemArray s) (subsystemState s) (comCfglog_status s) (status s) (compIdentityString s) (compSaIdentityString s).
Definition t_segment {PT} v (s : Trace PT) : Trace PT := MkTrace _ (log s) (current_mask s) (configfile_name s) (ptr_trace_flag s) v (time_last_changed s) (subsystemArray s) (subsystemState s) (comCfglog_status s) (status s) (compIdentityString s) (compSaIdentityString s).
Definition t_changed {PT} v (s : Trace PT) : Trace PT := MkTrace _ (log s) (current_mask s) (configfile_name s) (ptr_trace_flag s) (segment_id s) v (subsystemArray s) (subsystemState s) (comCfglog_status s) (status s) (compIdentityString s) (compSaIdentityString s).
Definition t_subsystems {PT} v (s : Trace PT) : Trace PT := MkTrace _ (log s) (current_mask s) (configfile_name s) (ptr_trace_flag s) (segment_id s) (time_last_changed s) v (subsystemState s) (comCfglog_status s) (status s) (compIdentityString s) (compSaIdentityString s).
Definition t_states {PT} v (s : Trace PT) : Trace PT := MkTrace _ (log s) (current_mask s) (configfile_name s) (ptr_trace_flag s) (segment_id s) (time_last_changed s) (subsystemArray s) v (comCfglog_status s) (status s) (compIdentityString s) (compSaIdentityString s).
Definition t_cfg_status {PT} v (s : Trace PT) : Trace PT := MkTrace _ (log s) (current_mask s) (configfile_name s) (ptr_trace_flag s) (segment_id s) (time_last_changed s) (subsystemArray s) (subsystemState s) v (status s) (compIdentityString s) (compSaIdentityString s).
Definition t_status {PT} v (s : Trace PT) : Trace PT := MkTrace _ (log s) (current_mask s) (configfile_name s) (ptr_trace_flag s) (segment_id s) (time_last_changed s) (subsystemArray s) (subsystemState s) (comCfglog_status s) v (compIdentityString s) (compSaIdentityString s).
Definition t_identity {PT} v (s : Trace PT) : Trace PT := MkTrace _ (log s) (current_mask s) (configfile_name s) (ptr_trace_flag s) (segment_id s) (time_last_changed s) (subsystemArray s) (subsystemState s) (comCfglog_status s) (status s) v (compSaIdentityString s).
Definition t_sa_identity {PT} v (s : Trace PT) : Trace PT := MkTrace _ (log s) (current_mask s) (configfile_name s) (ptr_trace_flag s) (segment_id s) (time_last_changed s) (subsystemArray s) (subsystemState s) (comCfglog_status s) (status s) (compIdentityString s) v.

Definition with_trace_flag {PT} v (s : Log PT) : Log PT := MkLog _ (strs s) (logMEnabled s) (updateAlarmLogFileNameAttr s) (updateAlertLogFileNameAttr s) (updateCmdLogFileNameAttr s) (cmdLogString s) (IdentityString s) (fileAttributes s) (log_status s) (alarm_status s) (alert_status s) (traceWrite s) v (cc_name s) (polls s).
Definition flag {PT} (t : Trace PT) : Z := trace_flag (log t).
Definition is_lm {PT} (t : Trace PT) : bool := bool_decide (cc_name (log t) = "lm").

Section ops.
Context {PT : Type} `{PollOps PT}.
Context (env : environment logE) (fuel : nat).
Abbreviation T := (M logE (Trace PT)).

Definition on_log {A} (m : M logE (Log PT) A) : T A := zoom log t_log m.
Definition set_flag (v : Z) : T () := on_log (modify (with_trace_flag v)).

(** ** Loading the configuration *)
(** [if (ptr_trace_flag) *ptr_trace_flag = trace_flag;] *)
Definition share_flag (v : Z) : T () :=
  t ← get;
  match ptr_trace_flag t with
  | NotShared => mret ()
  | Shared _ => modify (t_shared (Shared v))
  | Dangling => exit BadPointer
  end.

Definition load_new_configuration_comsa : T () :=
  t ← get;
  name ← of_option BadPointer (configfile_name t);
  lines ← call env (read_lines name);
  match lines with
  | None => mret ()
  | Some lines =>
      local_mask ← of_option Undefined (load_mask lines 0);
      modify (t_mask local_mask) ;;
      let v := if Z.testbit local_mask (2 - 1) then 1 else 0 in
      set_flag v ;;
      share_flag v
  end.

Definition lmsa_trace_config_relative_path : cstr := lit "/lmsa-apr9010528/etc/lm_sa_trace.conf".
Definition TRACE_FILE_NAME_LEN : nat := 1024.

Definition initTraceConfigFileName : T (option cstr) :=
  path ← call env read_storage_path;
  match path with
  | None => mret None
  | Some path =>
      let name := path ++ lit "/" ++ lmsa_trace_config_relative_path in
      when (negb (length name <? TRACE_FILE_NAME_LEN)%nat) (exit BadPointer) ;;
      mret (Some name)
  end.

Definition load_new_configuration_lmsa : T () :=
  t ← get;
  when (bool_decide (configfile_name t = None)) (n ← initTraceConfigFileName; modify (t_config n)) ;;
  t ← get;
  name ← of_option BadPointer (configfile_name t);
  lines ← call env (read_lines name);
  match lines with
  | Some lines => modify (fun t => t_states (load_subsystems lines (subsystemState t)) t)
  | None => mret ()
  end ;;
  t ← get;
  set_flag (if lmsa_state (subsystemState t) then 1 else 0).

Definition load_new_configuration : T () :=
  t ← get;
  if is_lm t then load_new_configuration_lmsa else load_new_configuration_comsa.

Definition check_and_load_configuration : T () :=
  t ← get;
  call env (processOpen (cc_name (log t) +:+ "sa_pso trcconf")) ;;
  when (is_lm t && bool_decide (configfile_name t = None))
    (n ← initTraceConfigFileName; modify (t_config n)) ;;
  t ← get;
  match configfile_name t with
  | None => mret ()
  | Some name =>
      st ← call env (stat_mtime name);
      match st with
      | Some mtime =>
          when (negb (mtime =? time_last_changed t))
            (modify (t_changed mtime) ;; load_new_configuration)
      | None => mret ()
      end
  end.

Definition SECONDS_TO_SLEEP : Z := 20.

(** One turn of the loop of [configFileLoadThread]; [false] for a failed sleep. *)
Definition configFileLoadThread_turn : T () :=
  awake ← on_log (full_sleep env fuel SECONDS_TO_SLEEP 0);
  when awake check_and_load_configuration.

(** The handler of the timer signal starts a detached thread that runs
    [check_and_load_configuration]; [true] when it was started. *)
Definition timerHandlerLoadConfigFile : T bool :=
  rc ← call env pthread_attr_init;
  if negb (rc =? 0) then mret false
  else
    rc ← call env pthread_attr_setdetachstate;
    if negb (rc =? 0) then call env pthread_attr_destroy ;; mret false
    else
      rc ← call env pthread_create_config;
      if negb (rc =? 0) then call env pthread_attr_destroy ;; mret false
      else call env pthread_attr_destroy ;; mret true.

(** ** Writing *)
Definition compCfgLogStreamWrite (severity : Z) (databuffer : string) (comp_trace_flag : Z) : T MafReturnT :=
  t ← get;
  let severity := if MW_SA_LOG_SEV_INFO <? severity then MW_SA_LOG_SEV_INFO else severity in
  let s := stream CompCfgLog (log t) in
  if negb (Z.land (LogSevFlags s) (SEVERITY_FLAG severity) =? 0) || (comp_trace_flag =? 1) then
    if LogFileIsOpen s =? 0 then
      call env (syslog (LOG_USER * 8 + LOG_INFO) databuffer) ;; mret MafOk
    else
      Errt ← LOG_API_CALL env fuel
        (call env (saLogWriteLogAsync (LogStreamHandle s) (MkRecord (LoggerName s) (SEVERITY severity) databuffer)));
      mret (if bool_decide (Errt = SA_AIS_OK) then MafOk else MafFailure)
  else mret MafOk.

(** The condition of the three trace calls; [None] when the shift is undefined. *)
Definition group_enabled (group mask trace_flag : Z) : option bool :=
  if trace_flag =? 0 then Some true
  else if (0 <=? group) && (group <=? MAX_TRACE_GRP_NO) then
    bit ← shl1 group; Some (negb (Z.land mask bit =? 0))
  else Some false.

Definition coremw_traceWrite (group : Z) (msg : string) : T () :=
  t ← get;
  b ← of_option Undefined (group_enabled group (current_mask t) (flag t));
  when b (compCfgLogStreamWrite MW_SA_LOG_SEV_INFO msg (flag t) ;; mret ()).
Definition coremw_traceWriteEnter (group : Z) (funcName msg : string) : T () := coremw_traceWrite group msg.
Definition coremw_traceWriteExit (group : Z) (funcName : string) (exitCode : Z) (msg : string) : T () := coremw_traceWrite group msg.

Definition registerSubsystem (name : option cstr) (handle_ptr : bool) : T register_result :=
  t ← get;
  let '(r, l) := coremw_registerSubsystem name handle_ptr (subsystemArray t) in
  modify (t_subsystems l) ;; mret r.

Definition LM_TIMESTAMP_SIZE : nat := 23.
Definition MAX_TRACE_LEN : nat := 2048.

(** [sprintf] of the prefix and [vsnprintf] of the message into an array of
    [MAX_TRACE_LEN]; [render] is the format applied to the arguments. *)
Definition trace_string (prefix : cstr) (msg : cstr) : option cstr :=
  if (length prefix <? MAX_TRACE_LEN)%nat
  then Some (prefix ++ take (MAX_TRACE_LEN - length prefix - 1) msg) else None.

(** [strrchr(file, '/')]: what [basename] leaves of a path. *)
Fixpoint basename (file : cstr) : cstr :=
  match file with
  | [] => []
  | c :: rest => if existsb (Ascii.eqb "/") file then basename rest else file
  end.

Definition coremw_traceWrite_2 (handle level : Z) (file : cstr) (line : cstr) (func : cstr) (format : cstr)
    (render : cstr -> cstr) : T () :=
  t ← get;
  match getSubsystemInfo handle (subsystemArray t) with
  | None => mret ()
  | Some e =>
      '(text, traceFlag) ←
        (if negb (lmServerUse e =? 0) then
           when (length format <? LM_TIMESTAMP_SIZE)%nat (exit BadPointer) ;;
           let prefix := lit "[" ++ take LM_TIMESTAMP_SIZE format ++ lit " " ++ subsystem e ++ lit " "
             ++ lit (getTraceLevelStr level) ++ lit " " ++ file ++ lit " " ++ line ++ lit " " ++ func ++ lit "]  " in
           text ← of_option BadPointer (trace_string prefix (render (drop LM_TIMESTAMP_SIZE format)));
           mret (text, if lm_state (subsystemState t) then 1 else 0)
         else
           stamp ← call env get_timestamp;
           let prefix := lit "[" ++ stamp ++ lit " " ++ subsystem e ++ lit " "
             ++ lit (getTraceLevelStr level) ++ lit " " ++ basename file ++ lit " " ++ line ++ lit " " ++ func ++ lit "]  " in
           text ← of_option BadPointer (trace_string prefix (render format));
           mret (text, if isMAFSubsystemEnabled (subsystem e) (subsystemState t) then 1 else 0));
      when (negb (bool_decide (text = [])))
        (compCfgLogStreamWrite level (String.string_of_list_ascii text) traceFlag ;; mret ())
  end.

Definition compSaCfgLogStreamWrite (severity : Z) (databuffer : string) : T MafReturnT :=
  t ← get;
  let s := stream CompSaCfgLog (log t) in
  Errt ← LOG_API_CALL env fuel
    (call env (saLogWriteLogAsync (LogStreamHandle s) (MkRecord (LoggerName s) (SEVERITY severity) databuffer)));
  if negb (bool_decide (Errt = SA_AIS_OK)) then
    call env (syslog (LOG_USER * 8 + LOG_WARNING) "Failure after saLogWriteLog") ;; mret MafFailure
  else mret MafOk.

(** [text] is the message after the name and the cut to the buffer. *)
Definition coremw_vlog (priority : Z) (text : string) : T () :=
  t ← get;
  if LogFileIsOpen (stream CompSaCfgLog (log t)) =? 0 then call env (syslog (LOG_USER * 8 + priority) text)
  else
    let priority := if MW_SA_LOG_SEV_INFO <? priority then MW_SA_LOG_SEV_INFO else priority in
    compSaCfgLogStreamWrite (wrap_u 16 priority) text ;; mret ().

Definition coremw_log (priority : Z) (text : string) : T () :=
  t ← get;
  let tmpSev := wrap_u 16 priority in
  let tmpSev := if MW_SA_LOG_SEV_INFO <? tmpSev then MW_SA_LOG_SEV_INFO else tmpSev in
  when (negb (Z.land (LogSevFlags (stream CompSaCfgLog (log t))) (SEVERITY_FLAG tmpSev) =? 0) || (flag t =? 1))
    (coremw_vlog priority text).
Definition coremw_debug_log (priority : Z) (text : string) : T () := coremw_log priority text.
End ops.

Section streams.
Context {PT : Type} `{PollOps PT}.
Context (env : environment logE) (fuel : nat).
Abbreviation T := (M logE (Trace PT)).
Abbreviation L := (M logE (Log PT)).

(** ** Call-backs of the two streams *)
Definition pushComDebugLogLevelEvent : T () :=
  t ← get; call env (push_LogEventProducer (LogSevFlags (stream CompCfgLog (log t))) COMCFG_LOG).

Definition compLogFilterSetCallbackT (h sev : Z) : T () :=
  on_log (modify (on_stream CompCfgLog (s_flags (wrap_u 16 sev)))) ;;
  t ← get;
  when (negb (is_lm t)) pushComDebugLogLevelEvent.
Definition compSaLogFilterSetCallbackT (h sev : Z) : T () :=
  t ← get;
  when (negb (flag t =? 0)) (call env (syslog (LOG_USER * 8 + LOG_INFO) "compSaLogFilterSetCallbackT")) ;;
  on_log (modify (on_stream CompSaCfgLog (s_flags (wrap_u 16 sev)))).

Definition compCfgLogWriteLogCallbackT (inv : Z) (err : SaAisErrorT) : T () :=
  t ← get;
  when (negb (bool_decide (err = SA_AIS_OK)))
    (if bool_decide (err = SA_AIS_ERR_TRY_AGAIN) then
       when (negb (comCfglog_status t))
         (call env (syslog (LOG_USER * 8 + LOG_WARNING) "compCfglogWriteLogCallbackT") ;; modify (t_cfg_status true))
     else
       call env (syslog (LOG_USER * 8 + LOG_WARNING) "compCfglogWriteLogCallbackT") ;; modify (t_cfg_status false)).
Definition compSaCfgLogWriteLogCallbackT (inv : Z) (err : SaAisErrorT) : T () :=
  t ← get;
  when (negb (bool_decide (err = SA_AIS_OK)))
    (if bool_decide (err = SA_AIS_ERR_TRY_AGAIN) then
       when (negb (status t))
         (call env (syslog (LOG_USER * 8 + LOG_WARNING) "compSaLogWriteLogCallbackT") ;; modify (t_status true))
     else
       call env (syslog (LOG_USER * 8 + LOG_WARNING) "compSaLogWriteLogCallbackT") ;; modify (t_status false)).

Fixpoint run_tracecbs (ack : Z -> SaAisErrorT -> T ()) (filter : Z -> Z -> T ()) (cbs : list logcb) : T () :=
  match cbs with
  | [] => mret ()
  | WriteAck inv err :: cbs => ack inv err ;; run_tracecbs ack filter cbs
  | FilterSet h sev :: cbs => filter h sev ;; run_tracecbs ack filter cbs
  end.
Definition compCfgfdCallbackFn : T () :=
  t ← get;
  '(cbs, rc) ← call env (saLogDispatch (LogHandle (stream CompCfgLog (log t))));
  run_tracecbs compCfgLogWriteLogCallbackT compLogFilterSetCallbackT cbs.
Definition compSaCfgfdCallbackFn : T () :=
  t ← get;
  '(cbs, rc) ← call env (saLogDispatch (LogHandle (stream CompSaCfgLog (log t))));
  run_tracecbs compSaCfgLogWriteLogCallbackT compSaLogFilterSetCallbackT cbs.

(** ** Opening *)
(** The two opening threads: the stream counts as open only once its descriptor is
    watched. *)
Definition comp_open_thread (i : StreamId) (audit : string) : L bool :=
  detach env i ;;
  opened ← open_loop env fuel fuel i (mret ());
  if negb opened then mret false
  else
    s ← get;
    when (bool_decide (cc_name s = "lm")) (call env (auditlogger LOG_INFO audit)) ;;
    rc ← register_fd (fd_callback i) (SelectionObject (stream i s));
    if negb (rc =? 0) then mret false
    else
      modify (on_stream i (s_isopen TRUE)) ;;
      modify (on_stream i (s_thread 0)) ;;
      mret true.
Definition compCfgLogServiceOpenThread : T bool :=
  on_log (comp_open_thread CompCfgLog "lmCfgLogService is successfully opened").
Definition compSaCfgLogServiceOpenThread : T bool :=
  on_log (comp_open_thread CompSaCfgLog "lmSaCfgLogService is successfully opened").

(** [setCompLogMSevFilter] and [setCompSaLogMSevFilter], by stream and object. *)
Definition set_sev_filter (i : StreamId) (lm_dn com_dn : string) : L () :=
  '(Errt, imm) ← call env autoRetry_saImmOmInitialize;
  if negb (bool_decide (Errt = SA_AIS_OK)) then mret ()
  else
    '(Errt, acc) ← call env (autoRetry_saImmOmAccessorInitialize imm);
    when (bool_decide (Errt = SA_AIS_OK))
      (s ← get;
       getSeverityFilter env acc (if bool_decide (cc_name s = "lm") then lm_dn else com_dn)
         (fun v => on_stream i (s_flags v)) ;; mret ()) ;;
    call env (om_imm_finalize imm acc).
Definition setCompLogMSevFilter : T () := on_log (set_sev_filter CompCfgLog LM_LOGM_DN COM_LOGM_DN).
Definition setCompSaLogMSevFilter : T () := on_log (set_sev_filter CompSaCfgLog LMSA_LOGM_DN COMSA_LOGM_DN).

Definition trace_logger (cc : string) : string := if bool_decide (cc = "lm") then "LM SA logger" else "COM SA logger".

Definition initCompCfgLogStream : T MafReturnT :=
  t ← get;
  when (is_lm t) (on_log (modify (on_stream CompCfgLog (s_flags SALOG_SEV_FLAG_DEFAULT)))) ;;
  let name := trace_logger (cc_name (log t)) in
  modify (t_identity (Some name)) ;;
  on_log (set_logger_name CompCfgLog (Some name)) ;;
  ok ← on_log (log_initialize env fuel CompCfgLog);
  if negb ok then mret MafFailure
  else
    setCompLogMSevFilter ;;
    on_log (start_open_thread env CompCfgLog) ;;
    mret MafOk.

Definition initCompSaCfgLogStream : T MafReturnT :=
  t ← get;
  let name := trace_logger (cc_name (log t)) in
  modify (t_sa_identity (Some name)) ;;
  on_log (set_logger_name CompSaCfgLog (Some name)) ;;
  ok ← on_log (log_initialize env fuel CompSaCfgLog);
  if negb ok then mret MafFailure
  else
    setCompSaLogMSevFilter ;;
    on_log (start_open_thread env CompSaCfgLog) ;;
    mret MafOk.

(** ** Closing *)
Definition finalize_stream (i : StreamId) (audit : string) : L () :=
  s ← get;
  when (negb (OpenThreadId (stream i s) =? 0)) (kill_open_thread env i ;; mret ()) ;;
  unregister_fd (SelectionObject (stream i s)) ;;
  modify (on_stream i (s_isopen FALSE)) ;;
  Errt ← LOG_TRY env (saLogStreamClose (LogStreamHandle (stream i s)));
  when (bool_decide (Errt = SA_AIS_OK) && bool_decide (cc_name s = "lm")) (call env (auditlogger LOG_INFO audit)) ;;
  LOG_TRY env (saLogFinalize (LogHandle (stream i s))) ;;
  mret ().
Definition finalizeCfgLogStream : T () :=
  on_log (finalize_stream CompCfgLog "lmCfgLogService is successfully closed") ;;
  modify (t_identity None).
Definition finalizeCompSaCfgLogStream : T () :=
  on_log (finalize_stream CompSaCfgLog "lmSaCfgLogService is successfully closed") ;;
  modify (t_sa_identity None).

(** ** Start and stop *)
(** The shared memory segment that holds the flag, and the timer that refreshes
    it. *)
Definition attach_shared_flag : T () :=
  seg ← call env shmget;
  modify (t_segment seg) ;;
  when (negb (seg <? 0))
    (shm ← call env (shmat seg);
     modify (t_shared (match shm with Some v => Shared v | None => NotShared end))).

Definition start_timer : T () :=
  default_handler ← call env sigaction_timer;
  if default_handler : bool then call env timer_start else call env sigaction_restore.

(** [cfg_file] is the contents of the XML element. *)
Definition comSATraceStart (cfg_file : option cstr) : T MafReturnT :=
  initCompSaCfgLogStream ;;
  initCompCfgLogStream ;;
  modify (t_config cfg_file) ;;
  match cfg_file with
  | None => mret MafOk
  | Some _ =>
      attach_shared_flag ;;
      check_and_load_configuration env ;;
      t ← get;
      when (negb (bool_decide (ptr_trace_flag t = NotShared))) start_timer ;;
      coremw_traceWrite env fuel 0 "====== TRACE (RE)STARTED ======" ;;
      mret MafOk
  end.

Definition lmSATraceStart : T MafReturnT :=
  initCompCfgLogStream ;;
  initCompSaCfgLogStream ;;
  modify (t_subsystems empty_subsystems) ;;
  check_and_load_configuration env ;;
  rc ← call env pthread_create_config;
  mret (if negb (rc =? 0) then MafPrepareFailed else MafOk).

Definition comSATraceStop : T () :=
  finalizeCfgLogStream ;;
  finalizeCompSaCfgLogStream ;;
  modify (t_config None) ;;
  t ← get;
  when (negb (bool_decide (ptr_trace_flag t = NotShared)))
    (call env shmdt ;;
     modify (t_shared Dangling) ;;
     call env timer_delete ;;
     call env (shmctl_remove (segment_id t)) ;; mret ()).

Definition lmSATraceStop : T () :=
  finalizeCfgLogStream ;;
  finalizeCompSaCfgLogStream ;;
  t ← get;
  when (negb (bool_decide (configfile_name t = None)))
    (call env pthread_cancel_config ;;
     call env pthread_join_config ;; mret ()).
End streams.
