(* ===== verification/TraceProps.v ===== *)
(** * Properties of the trace service

    When a trace message is written and where, what reloading the configuration
    changes, and how its streams are opened. *)
From Stdlib Require Import ZArith Lia Ascii.
From stdpp Require Import base gmap list strings.
From S2P Require Import Prelude SelectTimer PollTable Codes LogConfig LogService LogFacts LogProps TraceConfig TraceService.

#[local] Open Scope string_scope.
#[local] Open Scope list_scope.
#[local] Open Scope Z_scope.

(** ** Running the operations of the log service *)
Section zoom.
Context {PT : Type}.
Implicit Types (t : Trace PT) (s : Log PT).

Lemma t_log_id t : t_log (log t) t = t.
Proof. by destruct t. Qed.

Lemma sat_on_log {A} (m : M logE (Log PT) A) t tr Q :
  sat m (log t, tr) (fun a c' => Q a (t_log c'.1 t, c'.2)) -> sat (on_log m) (t, tr) Q.
Proof. apply sat_zoom. Qed.
End zoom.

(** ** Writing *)
(** Whether a message of a group is to be written: every group while tracing is
    off, the selected ones while it is on; the filter of the stream is applied only
    while tracing is off. *)
Definition trace_passes {PT} (t : Trace PT) (group : Z) : bool :=
  ((flag t =? 0) || Z.testbit (current_mask t) group) &&
  (passes (LogSevFlags (stream CompCfgLog (log t))) 6 || (flag t =? 1)).

Lemma group_enabled_spec group mask fl : 0 <= group < 32 ->
  group_enabled group mask fl = Some ((fl =? 0) || Z.testbit mask group).
Proof.
  intros Hg. unfold group_enabled, MAX_TRACE_GRP_NO, shl1. destruct (fl =? 0); [done|].
  rewrite (proj2 (andb_true_iff _ _)) by (rewrite !Z.leb_le; lia). rewrite (proj2 (Z.ltb_lt _ _)) by lia. cbn.
  by rewrite land_pow2 by lia.
Qed.

Lemma compCfgLogStreamWrite_sat {PT} (env : environment logE) fuel n (t : Trace PT) tr sev msg fl :
  0 <= sev -> (n < fuel)%nat -> (forall h r, settles env (saLogWriteLogAsync h r) n) ->
  sat (compCfgLogStreamWrite env fuel sev msg fl) (t, tr) (fun r c' => c'.1 = t /\
    let s := stream CompCfgLog (log t) in
    if passes (LogSevFlags s) sev || (fl =? 1) then
      if LogFileIsOpen s =? 0 then r = MafOk /\ c'.2 = tr ++ [Ev (syslog 70 msg) ()]
      else exists refused answer,
        c'.2 = tr ++ attempts (saLogWriteLogAsync (LogStreamHandle s) (MkRecord (LoggerName s) (Z.min sev 6) msg)) (sleep 1) refused answer /\
        Forall (fun x => is_try_again x = true) refused /\ (length refused <= n)%nat /\
        answer <> SA_AIS_ERR_TRY_AGAIN /\ (r = MafOk <-> answer = SA_AIS_OK)
    else r = MafOk /\ c'.2 = tr).
Proof.
  intros Hsev Hfuel Hset. unfold compCfgLogStreamWrite. do 2 sat_step.
  assert (Hmin : (if MW_SA_LOG_SEV_INFO <? sev then MW_SA_LOG_SEV_INFO else sev) = Z.min sev 6).
  { unfold MW_SA_LOG_SEV_INFO. destruct (Z.ltb_spec 6 sev); lia. }
  rewrite Hmin. cbn zeta. rewrite SEVERITY_FLAG_pow2, land_pow2 by lia. rewrite <- Z.min_assoc, Z.min_id.
  fold (passes (LogSevFlags (stream CompCfgLog (log t))) sev).
  destruct (passes _ sev || (fl =? 1)); [|by sat_step].
  destruct (LogFileIsOpen _ =? 0).
  - do 3 sat_step. match goal with |- context [Ev _ ?u] => destruct u end. done.
  - sat_step. eapply sat_mono; [by apply LOG_API_CALL_sat|]. intros answer [t1 tr1]. cbn [fst snd].
    intros (-> & Ha & refused & -> & Hall & Hle). sat_step. split; [done|]. exists refused, answer.
    split_and!; [done..|]. case_bool_decide; naive_solver.
Qed.

(** A trace message of a group below 32 is written exactly when
    [trace_passes] says so: to the stream while it is open, repeated after each
    refusal of the log service, and to syslog otherwise; a message that does not
    pass leaves no trace at all. *)
Theorem traceWrite_routes {PT} (env : environment logE) fuel n (t : Trace PT) tr group msg :
  0 <= group < 32 -> (n < fuel)%nat -> (forall h r, settles env (saLogWriteLogAsync h r) n) ->
  sat (coremw_traceWrite env fuel group msg) (t, tr) (fun _ c' => c'.1 = t /\
    let s := stream CompCfgLog (log t) in
    if trace_passes t group then
      if LogFileIsOpen s =? 0 then c'.2 = tr ++ [Ev (syslog 70 msg) ()]
      else exists refused answer,
        c'.2 = tr ++ attempts (saLogWriteLogAsync (LogStreamHandle s) (MkRecord (LoggerName s) 6 msg)) (sleep 1) refused answer /\
        (length refused <= n)%nat /\ answer <> SA_AIS_ERR_TRY_AGAIN
    else c'.2 = tr).
Proof.
  intros Hg Hfuel Hset. unfold coremw_traceWrite. do 3 sat_step.
  eapply sat_of_option; [by apply group_enabled_spec|]. unfold trace_passes.
  destruct ((flag t =? 0) || _); cbn [when andb]; [|by sat_step].
  sat_step. eapply sat_mono; [by apply (compCfgLogStreamWrite_sat env fuel n)|].
  intros r [t1 tr1]. cbn [fst snd]. intros (-> & Hw). sat_step. split; [done|]. cbn zeta in Hw.
  unfold MW_SA_LOG_SEV_INFO in Hw. cbn [Z.min Z.compare Pos.compare Pos.compare_cont] in Hw.
  destruct (passes _ 6 || (flag t =? 1)); [|by destruct Hw].
  destruct (LogFileIsOpen _ =? 0); [by destruct Hw|]. destruct Hw as (refused & answer & ? & _ & ? & ? & _). by exists refused, answer.
Qed.

(** A COM agent whose trace stream is open. *)
Definition demo_trace (fl mask : Z) : Trace pollextensions :=
  MkTrace _ (with_trace_flag fl (on_stream CompCfgLog (fun _ => MkStream 51 52 TRUE "COM SA logger" 53 0 63) demo_log))
    mask (Some (lit "/etc/trace.conf")) (Shared 0) 5 0 empty_subsystems (MkSubsystemState false false false) false false None None.

Example traceWrite_routes_witness : exists c',
  coremw_traceWrite demo_env 5 3 "hello" (demo_trace 1 10, []) = (Ret (), c') /\
  exists refused answer, c'.2 = attempts (saLogWriteLogAsync 52 (MkRecord "COM SA logger" 6 "hello")) (sleep 1) refused answer.
Proof.
  destruct (traceWrite_routes demo_env 5 1 (demo_trace 1 10) [] 3 "hello" ltac:(lia) ltac:(lia) (fun h r => demo_settles h r))
    as ([] & c' & Hrun & _ & refused & answer & Htr & _).
  exists c'. split; [exact Hrun|]. exists refused, answer. exact Htr.
Defined.

(** ** Reloading *)
(** Looking at the configuration file of COM again: when its modification time
    is the one seen before nothing changes; otherwise the mask becomes the one of
    the file's lines, tracing is on exactly when the file selects group 1, and the
    shared flag, when there is one, has the same value as the flag of the
    process. *)
Theorem check_and_load_reloads {PT} (env : environment logE) (t : Trace PT) tr name mtime lines m :
  cc_name (log t) <> "lm" -> configfile_name t = Some name -> ptr_trace_flag t <> Dangling ->
  (forall tr', env _ tr' (stat_mtime name) = Some mtime) -> (forall tr', env _ tr' (read_lines name) = Some lines) ->
  load_mask lines 0 = Some m ->
  sat (check_and_load_configuration env) (t, tr) (fun _ c' =>
    (time_last_changed t = mtime -> c'.1 = t) /\
    (time_last_changed t <> mtime ->
       time_last_changed c'.1 = mtime /\ current_mask c'.1 = m /\
       flag c'.1 = (if Z.testbit m 1 then 1 else 0) /\
       ptr_trace_flag c'.1 = (if decide (ptr_trace_flag t = NotShared) then NotShared else Shared (flag c'.1)) /\
       strs (log c'.1) = strs (log t))).
Proof.
  intros Hcc Hname Hptr Hstat Hread Hm. unfold check_and_load_configuration. do 5 sat_step.
  assert (Hlm : is_lm t = false) by (unfold is_lm; by rewrite bool_decide_false). rewrite Hlm. cbn [andb when].
  do 3 sat_step. rewrite Hname. do 2 sat_step. rewrite Hstat in H0. subst r0.
  destruct (Z.eqb_spec mtime (time_last_changed t)) as [He|Hne]; cbn [negb when].
  { sat_step. split; [done|]. intros Hn. by destruct Hn. }
  do 2 sat_step. unfold load_new_configuration. do 2 sat_step.
  assert (Hlm' : is_lm (t_changed mtime t) = false) by exact Hlm. rewrite Hlm'.
  unfold load_new_configuration_comsa. do 3 sat_step. cbn [configfile_name t_changed]. rewrite Hname.
  eapply sat_of_option; [done|]. do 2 sat_step. rewrite Hread in H0. subst r0. sat_step.
  eapply sat_of_option; [done|]. do 3 sat_step. unfold set_flag. apply sat_on_log. sat_step.
  unfold share_flag. do 2 sat_step. cbn [ptr_trace_flag t_log t_mask t_changed log].
  replace (2 - 1) with 1 by lia.
  destruct (ptr_trace_flag t) as [|v|] eqn:Ep; [| |done].
  - sat_step. split; [by intros <-|]. intros _. rewrite decide_True by done.
    cbn. rewrite Ep. done.
  - sat_step. split; [by intros <-|]. intros _. rewrite decide_False by done. cbn. done.
Qed.

(** [demo_env] with a configuration file. *)
Definition config_lines : list cstr := [lit "COMSA_GLOBAL_TRACE=ENABLED"; lit "COMSA_TRACE_GROUP_01=ENABLED"; lit "COMSA_TRACE_GROUP_05=ENABLED"].
Definition config_env : environment logE := fun R tr e =>
  match e in logE R return R with
  | read_lines _ => Some config_lines
  | stat_mtime _ => Some 77
  | e => demo_env _ tr e
  end.

Example check_and_load_reloads_witness : exists c',
  check_and_load_configuration config_env (demo_trace 0 0, []) = (Ret (), c') /\
  flag c'.1 = 1 /\ current_mask c'.1 = 35 /\ ptr_trace_flag c'.1 = Shared 1.
Proof.
  destruct (check_and_load_reloads config_env (demo_trace 0 0) [] (lit "/etc/trace.conf") 77 config_lines 35
    ltac:(done) eq_refl ltac:(done) (fun _ => eq_refl) (fun _ => eq_refl) ltac:(reflexivity)) as ([] & c' & Hrun & _ & H).
  destruct (H ltac:(done)) as (_ & Hm & Hf & Hp & _). exists c'. split; [exact Hrun|].
  split; [exact Hf|]. split; [exact Hm|]. rewrite Hp. rewrite Hf. reflexivity.
Defined.

(** Stopping the service detaches the shared flag but keeps the pointer: the next
    change of the configuration writes through it. *)
Lemma reload_after_stop_faults {PT} (env : environment logE) (t : Trace PT) tr name lines :
  configfile_name t = Some name -> ptr_trace_flag t = Dangling ->
  env _ tr (read_lines name) = Some lines ->
  post (load_new_configuration_comsa env) (t, tr) (fun _ _ => False) (fun w => w = BadPointer \/ w = Undefined).
Proof.
  intros Hname Hptr Hread. unfold load_new_configuration_comsa. do 3 post_step. rewrite Hname. cbn [of_option].
  do 3 post_step. match goal with Ha : env _ _ _ = _ |- _ => cbn [snd] in Ha; rewrite Hread in Ha; subst r end.
  post_step. destruct (load_mask lines 0) as [m|]; cbn [of_option]; post_step; [|by right].
  do 3 post_step. unfold set_flag, on_log. apply post_zoom. post_step.
  unfold share_flag. do 2 post_step. cbn. rewrite Hptr. by left.
Qed.

(** ** Opening *)
(** The opening thread of a trace stream keeps trying until the log service
    accepts, or gives up when [nanosleep] fails.  Unlike the threads of the log service it marks the stream open
    only when its descriptor was taken by the poll table: the stream is open, its
    thread forgotten and its descriptor watched together, or none of them. *)
Theorem comp_open_thread_opens {PT} `{PollLaws PT} (env : environment logE) fuel n m i audit (s : Log PT) tr :
  accepts env n -> rests env m -> (n < fuel)%nat -> (m < fuel)%nat -> pt_ok (polls s) ->
  sat (comp_open_thread env fuel i audit) (s, tr) (fun r c' =>
    (r = false /\ sleepless env c'.2 /\ exists h, c'.1 = on_stream i (s_stream h) s) \/
    (r = true <-> pt_regs (polls s) !! SelectionObject (stream i s) = None /\
                  (size (pt_regs (polls s)) < pt_cap (polls s))%nat) /\
    (exists h, LogStreamHandle (stream i c'.1) = h /\
       Ev (saLogStreamOpen_2 (LogHandle (stream i s)) (log_stream_name (cc_name s) i)) (SA_AIS_OK, h) ∈ c'.2) /\
    (r = true -> LogFileIsOpen (stream i c'.1) = TRUE /\ OpenThreadId (stream i c'.1) = 0 /\
       pt_regs (polls c'.1) = <[SelectionObject (stream i s) := (POLLIN, fd_callback i, 0)]> (pt_regs (polls s))) /\
    (r = false -> LogFileIsOpen (stream i c'.1) = LogFileIsOpen (stream i s) /\
       OpenThreadId (stream i c'.1) = OpenThreadId (stream i s))).
Proof.
  intros Hacc Hm Hfuel Hfm Hok. unfold comp_open_thread, detach. do 7 sat_step.
  eapply sat_mono; [apply (open_loop_sat env n m); [done|done| |lia..]|].
  { intros s1 tr1. by sat_step. }
  intros a [s1 tr1]. unfold opened. cbn [fst snd]. intros (h & -> & Hopened & Hslept).
  destruct a; cbn [negb]; [|sat_step; left; split; [done|]; split; [by apply Hslept|by exists h]].
  destruct (Hopened eq_refl) as [_ Hlast].
  set (s1 := on_stream i (s_stream h) s) in *. do 3 sat_step.
  assert (Hp : polls s1 = polls s) by (unfold s1; by log_simp).
  assert (Hsel : SelectionObject (stream i s1) = SelectionObject (stream i s)) by (unfold s1; by log_simp).
  eapply sat_mono with (P := fun _ c' => c'.1 = s1 /\ exists l, c'.2 = tr1 ++ l).
  { apply sat_when; intros _; [sat_step|]; (split; [done|]); [by eexists|exists []; by rewrite app_nil_r]. }
  intros _ [s2 tr2]. cbn [fst snd]. intros (-> & l & ->). sat_step.
  eapply sat_mono; [apply register_fd_sat; by rewrite Hp|]. rewrite Hp, Hsel.
  intros rc [s3 tr3]. cbn [fst snd]. intros (-> & Hs3 & Hok3 & Hrc & Hregs).
  assert (Hst : stream i s3 = s_stream h (stream i s)) by (rewrite Hs3; rewrite stream_polls; unfold s1; by log_simp).
  assert (Hin : Ev (saLogStreamOpen_2 (LogHandle (stream i s)) (log_stream_name (cc_name s) i)) (SA_AIS_OK, h) ∈ tr1 ++ l)
    by (apply elem_of_app; left; by apply last_Some_elem_of).
  destruct (Z.eqb_spec rc 0) as [->|Hne]; cbn [negb].
  - do 5 sat_step. right. log_simp. rewrite Hst. split; [split; [intros _; by apply Hrc|done]|].
    split; [by exists h|]. split; [|done]. intros _. split; [done|]. split; [done|]. by apply Hregs.
  - sat_step. right. rewrite Hst. split; [split; [done|intros Hc; by destruct (Hne (proj2 Hrc Hc))]|].
    split; [by exists h|]. by split.
Qed.

Lemma demo_rests : rests demo_env 0.
Proof. done. Qed.

Example comp_open_thread_opens_witness : exists c',
  compCfgLogServiceOpenThread demo_env 3 (demo_trace 0 0, []) = (Ret true, c') /\
  LogFileIsOpen (stream CompCfgLog (log c'.1)) = TRUE /\ LogStreamHandle (stream CompCfgLog (log c'.1)) = 13.
Proof.
  assert (Hok : pt_ok (polls (log (demo_trace 0 0)))) by (constructor; simpl; [lia|lia|lia|constructor]).
  destruct (comp_open_thread_opens demo_env 3 2 0 CompCfgLog "lmCfgLogService is successfully opened" (log (demo_trace 0 0)) []
    demo_accepts demo_rests ltac:(lia) ltac:(lia) Hok) as (r & c' & Hrun & Hcase).
  assert (r = true) as -> by (vm_compute in Hrun; congruence).
  destruct Hcase as [[[=] _]|(_ & _ & Ht & _)].
  exists (t_log c'.1 (demo_trace 0 0), c'.2). split; [unfold compCfgLogServiceOpenThread, on_log, zoom; cbn [fst snd]; rewrite Hrun; by destruct c'|].
  split; [exact (proj1 (Ht eq_refl))|]. vm_compute in Hrun. by injection Hrun as <-.
Defined.
