(* ===== verification/Lifecycle.v ===== *)
(** * Loading and unloading ([ac/ComSAAc.c])

    [mafLCMinit] and [mafLCMterminate]: the functions that MAF calls when the library
    is loaded and unloaded.  They put the other parts together, so the
    state is made of the states of the parts, and the parts run here with
    their own definitions.  Calls to code that is not modelled elsewhere are
    constructors of [lcE]. *)
From Stdlib Require Import ZArith Lia Ascii.
From stdpp Require Import base gmap list strings.
From S2P Require Import Prelude PollTable Codes AvailController LogConfig LogService TraceConfig Config.
From S2P Require Import ReplicatedList OamComponent TraceService.

#[local] Open Scope string_scope.
#[local] Open Scope list_scope.
#[local] Open Scope Z_scope.

Inductive lcE : Type -> Type :=
| on_ac {R} (e : acE R) : lcE R
| on_lg {R} (e : logE R) : lcE R
| on_rl {R} (e : rlE R) : lcE R
| on_oam {R} (e : oamE R) : lcE R
| getenv_SECURITY_STREAM : lcE bool
| dlopen : lcE bool
| dlsym (name : string) : lcE bool
| dlclose : lcE ()
| rfc5424_open_call : lcE ()
| rfc5424_close_call : lcE ()
| audit_logging_call (text : string) : lcE ()
| pipe : lcE Z
| fcntl_getfl : lcE Z
| fcntl_setfl (flags : Z) : lcE Z
| run_command (command : string) : lcE Z                         (** [processOpen] *)
| getPortal (version : string) : lcE bool
| xmlNewParserCtxt : lcE bool
| xmlCtxtReadMemory (config : cstr) : lcE (option (option xmlNode))
| create_timer_handles : lcE ()                                  (** [timerCreateHandle_r], [poll_maxfd], twice *)
| syslog_warning (text : string) : lcE ()
| register_base : lcE MafReturnT                                 (** [registerComponent(&maf_coremw_sa)] *)
| unregister_base : lcE ()
| maf_comSAMgmtSpiThreadContInit : lcE MafReturnT
| maf_oamSAOiProxyInitialization : lcE MafReturnT
| setUpInstanceModelConsumers : lcE ()
| ClearOamContextTransactionMap : lcE ()
| stop_LogEventProducer : lcE ().

(** A pointer to a document that libxml2 owns: null, valid, or freed. *)
Inductive xmlDoc := NoDoc | Doc (root : option xmlNode) | FreedDoc.

Record Lc (PT : Type) := MkLc {
  ac : Ac;
  trace : Trace PT;                   (** with the log service in it *)
  rl : Rlist;
  oam : Oam;
  CC_NAME_known : bool;               (** [_CC_NAME] is not null *)
  lib : bool;
  audit_logging : bool;
  rfc5424_open : bool;
  rfc5424_close : bool;
  doc : xmlDoc;
  portal_MAF : bool;
  portal_3_1 : bool
}.
Arguments MkLc {PT}.
Arguments ac {PT} _.
Arguments trace {PT} _.
Arguments rl {PT} _.
Arguments oam {PT} _.
Arguments CC_NAME_known {PT} _.
Arguments lib {PT} _.
Arguments audit_logging {PT} _.
Arguments rfc5424_open {PT} _.
Arguments rfc5424_close {PT} _.
Arguments doc {PT} _.
Arguments portal_MAF {PT} _.
Arguments portal_3_1 {PT} _.

Section setters.
Context {PT : Type}.
Definition l_ac v (s : Lc PT) : Lc PT := MkLc v (trace s) (rl s) (oam s) (CC_NAME_known s) (lib s) (audit_logging s) (rfc5424_open s) (rfc5424_close s) (doc s) (portal_MAF s) (portal_3_1 s).
Definition l_trace v (s : Lc PT) : Lc PT := MkLc (ac s) v (rl s) (oam s) (CC_NAME_known s) (lib s) (audit_logging s) (rfc5424_open s) (rfc5424_close s) (doc s) (portal_MAF s) (portal_3_1 s).
Definition l_rl v (s : Lc PT) : Lc PT := MkLc (ac s) (trace s) v (oam s) (CC_NAME_known s) (lib s) (audit_logging s) (rfc5424_open s) (rfc5424_close s) (doc s) (portal_MAF s) (portal_3_1 s).
Definition l_oam v (s : Lc PT) : Lc PT := MkLc (ac s) (trace s) (rl s) v (CC_NAME_known s) (lib s) (audit_logging s) (rfc5424_open s) (rfc5424_close s) (doc s) (portal_MAF s) (portal_3_1 s).
Definition l_known v (s : Lc PT) : Lc PT := MkLc (ac s) (trace s) (rl s) (oam s) v (lib s) (audit_logging s) (rfc5424_open s) (rfc5424_close s) (doc s) (portal_MAF s) (portal_3_1 s).
Definition l_lib b l o c (s : Lc PT) : Lc PT := MkLc (ac s) (trace s) (rl s) (oam s) (CC_NAME_known s) b l o c (doc s) (portal_MAF s) (portal_3_1 s).
Definition l_doc v (s : Lc PT) : Lc PT := MkLc (ac s) (trace s) (rl s) (oam s) (CC_NAME_known s) (lib s) (audit_logging s) (rfc5424_open s) (rfc5424_close s) v (portal_MAF s) (portal_3_1 s).
Definition l_portal v (s : Lc PT) : Lc PT := MkLc (ac s) (trace s) (rl s) (oam s) (CC_NAME_known s) (lib s) (audit_logging s) (rfc5424_open s) (rfc5424_close s) (doc s) v (portal_3_1 s).
Definition l_portal31 v (s : Lc PT) : Lc PT := MkLc (ac s) (trace s) (rl s) (oam s) (CC_NAME_known s) (lib s) (audit_logging s) (rfc5424_open s) (rfc5424_close s) (doc s) (portal_MAF s) v.
End setters.

(** [Utils::convertToLowerCase]. *)
Definition tolower (c : ascii) : ascii :=
  let n := N_of_ascii c in if ((65 <=? n) && (n <=? 90))%N then ascii_of_N (n + 32) else c.
Definition convertToLowerCase (s : string) : string :=
  String.string_of_list_ascii (map tolower (lit s)).

Definition with_cc {PT} v (s : Log PT) : Log PT := MkLog _ (strs s) (logMEnabled s) (updateAlarmLogFileNameAttr s) (updateAlertLogFileNameAttr s) (updateCmdLogFileNameAttr s) (cmdLogString s) (IdentityString s) (fileAttributes s) (log_status s) (alarm_status s) (alert_status s) (traceWrite s) (trace_flag s) v (polls s).

Section lifecycle.
Context {PT : Type} `{PollOps PT}.
Context (env : environment lcE) (fuel : nat).
(** The name of the build, [Com] or [Lm]. *)
Context (CC_NAME : string).
Abbreviation C := (M lcE (Lc PT)).

(** ** The parts, run with their own definitions *)
Definition on_Ac {A} (m : environment acE -> M acE Ac A) : C A := zoom ac l_ac (embed (@on_ac) env m).
Definition on_Trace {A} (m : environment logE -> M logE (Trace PT) A) : C A := zoom trace l_trace (embed (@on_lg) env m).
Definition on_Log {A} (m : environment logE -> M logE (Log PT) A) : C A := on_Trace (fun env' => on_log (m env')).
Definition on_Rlist {A} (m : environment rlE -> M rlE Rlist A) : C A := zoom rl l_rl (embed (@on_rl) env m).
Definition on_Oam {A} (m : environment oamE -> M oamE Oam A) : C A := zoom oam l_oam (embed (@on_oam) env m).

(** Every part reads the same [_CC_NAME]. *)
Definition set_CC_NAME (n : string) (s : Lc PT) : Lc PT :=
  let a := ac s in
  l_known true
    (l_ac (MkAc (evs a) (maf_eventq_head a) (maf_eventq_tail a) (pipe_bytes a) (maf_acCallbacks a) (amf_pthread_isrunning a)
             (ntf_pthread_isrunning a) (stop_thread a) (maf_com_ha_state a) (maf_new_com_ha_state a) (alertalarm a)
             (comsa_sshd_control a) n)
      (l_trace (t_log (with_cc n (log (trace s))) (trace s)) s)).
Definition _CC_NAME (s : Lc PT) : string := AvailController.cc_name (ac s).

(** ** The audit logger *)
Definition load_logger_library : C () :=
  on ← call env getenv_SECURITY_STREAM;
  when on
    (ok ← call env dlopen;
     modify (fun s => l_lib ok (audit_logging s) (rfc5424_open s) (rfc5424_close s) s) ;;
     when ok
       (o ← call env (dlsym "rfc5424_open");
        l ← call env (dlsym "rfc5424_syslog");
        c ← call env (dlsym "rfc5424_close");
        modify (l_lib true l o c) ;;
        when (negb l) (call env dlclose ;; modify (l_lib false false false false)))).

Definition auditlogger (text : string) : C () :=
  s ← get; when (audit_logging s) (call env (audit_logging_call text)).

(** ** Loading *)
Definition LC_OK (rc : MafReturnT) : bool := bool_decide (rc = MafOk).
Definition MW_BASE : cstr := lit "MW_BASE".

(** The document as the parts see it. *)
Definition the_doc (d : xmlDoc) : option (option (option xmlNode)) :=
  match d with
  | NoDoc => Some None
  | Doc root => Some (Some root)
  | FreedDoc => None
  end.
Definition get_doc : C (option (option xmlNode)) := s ← get; of_option BadPointer (the_doc (doc s)).

(** The read end of the pipe is set to non-blocking mode. *)
Definition O_NONBLOCK : Z := 2048.
Definition open_event_pipe (k : C MafReturnT) : C MafReturnT :=
  rc ← call env pipe;
  if negb (rc =? 0) then mret MafFailure
  else
    rc ← call env fcntl_getfl;
    when (rc <? 0) (exit Aborted) ;;
    rc ← call env (fcntl_setfl (Z.lor rc O_NONBLOCK));
    when (negb (rc =? 0)) (exit Aborted) ;;
    k.

Definition parse_config (config : option cstr) : C () :=
  match config with
  | None => mret ()
  | Some config =>
      ctxt ← call env xmlNewParserCtxt;
      when (negb ctxt) (exit ErrQuit) ;;
      d ← call env (xmlCtxtReadMemory config);
      modify (l_doc (match d with Some root => Doc root | None => NoDoc end))
  end.

(** The log and the trace service: a failure of either is only logged. *)
Definition start_log_service : C () :=
  rc ← on_Log (fun env' => maf_ComLogServiceOpen env' fuel);
  if negb (LC_OK rc) then call env (syslog_warning "LogService failed to start")
  else auditlogger "Com LogService successfully opened".

Definition start_trace_service : C () :=
  s ← get;
  rc ← (if negb (bool_decide (_CC_NAME s = "lm")) then
          d ← get_doc;
          on_Trace (fun env' => comSATraceStart env' fuel
            (coremw_xmlnode_contents (coremw_find_config_item d MW_BASE (lit "traceconfig"))))
        else on_Trace (fun env' => lmSATraceStart env' fuel));
  when (negb (LC_OK rc)) (call env (syslog_warning "TraceService failed to start")).

(** The rest of the initialisation, after the components are registered. *)
Definition after_registration : C MafReturnT :=
  rc ← call env maf_comSAMgmtSpiThreadContInit;
  if negb (LC_OK rc) then mret rc
  else
    rc ← call env maf_oamSAOiProxyInitialization;
    if negb (LC_OK rc) then mret rc
    else
      call env setUpInstanceModelConsumers ;;
      call env ClearOamContextTransactionMap ;;
      s ← get;
      rc ← (if negb (bool_decide (_CC_NAME s = "lm")) then on_Ac (fun env' => InitAmfSshdControl env') else mret MafOk);
      if negb (LC_OK rc) then mret rc
      else
        portal ← call env (getPortal "3_1");
        modify (l_portal31 portal) ;;
        mret (if (portal : bool) then MafOk else MafFailure).

Definition register_components : C MafReturnT :=
  rc ← call env register_base;
  if negb (LC_OK rc) then mret rc
  else
    d ← get_doc;
    rc ← on_Rlist (fun env' => maf_comSAMwComponentInitialize env' d);
    if negb (LC_OK rc) then mret rc
    else
      s ← get;
      d ← get_doc;
      rc ← on_Oam (fun env' => maf_comSAOamComponentInitialize env' (_CC_NAME s) (product_dir (_CC_NAME s)) d);
      if negb (LC_OK rc) then mret rc
      else after_registration.

Definition mafLCMinit (config : option cstr) : C MafReturnT :=
  modify (set_CC_NAME (convertToLowerCase CC_NAME)) ;;
  load_logger_library ;;
  s ← get;
  when (rfc5424_open s) (call env rfc5424_open_call) ;;
  open_event_pipe
    (s ← get;
     call env (run_command (_CC_NAME s +:+ "sa_pso start")) ;;
     portal ← call env (getPortal "3");
     modify (l_portal portal) ;;
     if negb portal then mret MafFailure
     else
       parse_config config ;;
       call env create_timer_handles ;;
       start_log_service ;;
       start_trace_service ;;
       register_components).

(** ** Unloading *)
Definition with_portal (m : C ()) : C () := s ← get; if portal_MAF s then m else exit BadPointer.

Definition close_com_logs : C () :=
  s ← get;
  when (negb (alertalarm (ac s) =? 0))
    (modify (fun s => l_ac (set_alertalarm 0 (ac s)) s) ;;
     on_Log (fun env' => LogService.AlarmAndAlertLogServiceClose env') ;;
     on_Log (fun env' => LogService.cmdLogServiceClose env') ;;
     on_Log (fun env' => LogService.secLogServiceClose env') ;; mret ()).

Definition mafLCMterminate : C () :=
  s ← get;
  when (negb (CC_NAME_known s)) (exit BadPointer) ;;
  (if negb (bool_decide (_CC_NAME s = "lm")) then
     close_com_logs ;; on_Trace (fun env' => comSATraceStop env')
   else on_Trace (fun env' => lmSATraceStop env')) ;;
  with_portal (on_Oam (fun env' => maf_comSAOamComponentFinalize env')) ;;
  with_portal (on_Rlist (fun env' => maf_comSAMwComponentFinalize env')) ;;
  call env stop_LogEventProducer ;;
  on_Log (fun env' => ComLogServiceClose env') ;;
  with_portal (call env unregister_base) ;;
  s ← get;
  match doc s with
  | NoDoc => mret ()
  | Doc _ => modify (l_doc FreedDoc)
  | FreedDoc => exit BadPointer
  end ;;
  modify (l_known false) ;;
  s ← get;
  when (rfc5424_close s) (call env rfc5424_close_call) ;;
  when (lib s) (call env dlclose ;; modify (l_lib false false false false)).
End lifecycle.
