(* ===== verification/LifecycleProps.v ===== *)
(** * Loading and unloading: theorems *)
From Stdlib Require Import ZArith Lia Ascii.
From stdpp Require Import base gmap list strings.
From S2P Require Import Prelude Marks SelectTimer PollTable Codes AvailController AcSystem AcProps LogConfig LogService LogProps TraceConfig.
From S2P Require Import Config ReplicatedList OamComponent OamProps TraceService TraceProps Lifecycle.

#[local] Open Scope string_scope.
#[local] Open Scope list_scope.
#[local] Open Scope Z_scope.

(** ** Registrations in a history *)
Abbreviation mark := (string * MafReturnT)%type.

Definition mark_rl (e : event rlE) : option mark :=
  match e with
  | Ev c r => match c in rlE R return R -> option mark with
              | ReplicatedList.registerComponent => fun rc => Some ("MW", rc)
              | _ => fun _ => None
              end r
  end.
Definition mark_oam (e : event oamE) : option mark :=
  match e with
  | Ev c r => match c in oamE R return R -> option mark with
              | step OamComponent.registerComponent => fun rc => Some ("MW_OAM", rc)
              | _ => fun _ => None
              end r
  end.
Definition mark_lc (e : event lcE) : option mark :=
  match e with
  | Ev c r => match c in lcE R return R -> option mark with
              | register_base => fun rc => Some ("MW_BASE", rc)
              | on_rl e => fun r => mark_rl (Ev e r)
              | on_oam e => fun r => mark_oam (Ev e r)
              | _ => fun _ => None
              end r
  end.

(** Parts that register nothing. *)
Lemma ac_silent e : mark_lc (map_event (@on_ac) e) = None.
Proof. by destruct e. Qed.
Lemma lg_silent e : mark_lc (map_event (@on_lg) e) = None.
Proof. by destruct e. Qed.
Lemma rl_marks e : mark_lc (map_event (@on_rl) e) = mark_rl e.
Proof. by destruct e. Qed.
Lemma oam_marks e : mark_lc (map_event (@on_oam) e) = mark_oam e.
Proof. by destruct e. Qed.

(** The initialisation of a component ends with its registration, and its
    result is the answer. *)
Lemma rlist_registers env d s :
  emits mark_rl (maf_comSAMwComponentInitialize env d) s (fun rc _ l => l = [("MW", rc)]).
Proof.
  assert (Hlift : forall A (o : outcome A), silent mark_rl (lift o)).
  { intros A [a|w]; unfold lift; silence. }
  assert (Hmax : forall cfg, silent mark_rl (set_rlist_maxsize env cfg)).
  { intros cfg. unfold set_rlist_maxsize, readShmmaxValue. apply silent_bind; [apply Hlift|intros []; silence]. }
  assert (Hclear : forall cfg, silent mark_rl (set_clearAlarmsOnClusterReboot cfg)).
  { intros cfg. unfold set_clearAlarmsOnClusterReboot. apply silent_bind; [apply Hlift|intros []; silence]. }
  assert (Himm : silent mark_rl (set_replicateInIMM env)) by (unfold set_replicateInIMM; silence).
  unfold maf_comSAMwComponentInitialize. emits_step. destruct (coremw_find_config_item _ _ _) as [cfg|].
  - emits_step. apply Hmax. intros _ s1. apply Hclear. intros _ s2. emits_step. apply Himm. intros _ s3. by emits_step.
  - emits_step. emits_step. apply Himm. intros _ s3. by emits_step.
Qed.

Lemma oam_registers env cc dir d s :
  emits mark_oam (maf_comSAOamComponentInitialize env cc dir d) s (fun rc _ l => l = [("MW_OAM", rc)]).
Proof.
  assert (Hcache : forall cfg, silent mark_oam (cmNotificationCache cfg)) by (intros cfg; unfold cmNotificationCache; silence).
  assert (Huuid : silent mark_oam (load_uuid_configuration env cc dir)).
  { unfold load_uuid_configuration, getUUIDConfigurationPath. silence. }
  unfold maf_comSAOamComponentInitialize.
  emits_step. apply silent_when; [silence|]. intros _ s1. emits_step. apply silent_when; [silence|]. intros _ s2.
  emits_step. apply Hcache. intros _ s3. emits_step. apply Huuid. intros _ s4. unfold STEP. by emits_step.
Qed.

(** ** Loading *)
Section props.
Context {PT : Type} `{PollOps PT}.
Context (env : environment lcE) (fuel : nat) (CC_NAME : string).

Lemma silent_ac {A} (m : environment acE -> M acE Ac A) : silent mark_lc (on_Ac (PT:=PT) env m).
Proof. intros s Q HQ. apply emits_zoom, emits_embed_silent; [apply ac_silent|]. intros a s'. apply HQ. Qed.
Lemma silent_trace {A} (m : environment logE -> M logE (Trace PT) A) : silent mark_lc (on_Trace env m).
Proof. intros s Q HQ. apply emits_zoom, emits_embed_silent; [apply lg_silent|]. intros a s'. apply HQ. Qed.
Lemma silent_log {A} (m : environment logE -> M logE (Log PT) A) : silent mark_lc (on_Log env m).
Proof. apply silent_trace. Qed.

Ltac lc_silence :=
  repeat first [progress silence | apply silent_ac | apply silent_trace | apply silent_log].

Lemma silent_library : silent mark_lc (load_logger_library (PT:=PT) env).
Proof. unfold load_logger_library. lc_silence. Qed.
Lemma silent_parse config : silent mark_lc (parse_config (PT:=PT) env config).
Proof. unfold parse_config. lc_silence. Qed.
Lemma silent_start_log : silent mark_lc (start_log_service (PT:=PT) env fuel).
Proof. unfold start_log_service, auditlogger. lc_silence. Qed.
Lemma silent_start_trace : silent mark_lc (start_trace_service (PT:=PT) env fuel).
Proof. unfold start_trace_service, get_doc. lc_silence. Qed.
Lemma silent_get_doc : silent mark_lc (get_doc (PT:=PT)).
Proof. unfold get_doc. lc_silence. Qed.

(** What follows the registrations. *)
Lemma after_registration_emits s :
  emits mark_lc (after_registration (PT:=PT) env) s (fun rc s' l => l = [] /\ (rc = MafOk -> portal_3_1 s' = true)).
Proof.
  assert (Hbad : forall (rc : MafReturnT) (s1 : Lc PT), LC_OK rc = false ->
     emits mark_lc (mret rc) s1 (fun rc s' l => l = [] /\ (rc = MafOk -> portal_3_1 s' = true))).
  { intros rc s1 Hrc. emits_step. split; [done|]. intros ->. done. }
  unfold after_registration. do 2 emits_step. destruct (LC_OK r) eqn:E1; cbn [negb]; [|by apply Hbad].
  do 2 emits_step. destruct (LC_OK r0) eqn:E2; cbn [negb]; [|by apply Hbad].
  do 2 emits_step. do 2 emits_step. do 2 emits_step. apply emits_silent_bind.
  { destruct (bool_decide _); cbn [negb]; lc_silence. }
  intros rc s1. destruct (LC_OK rc) eqn:E3; cbn [negb]; [|by apply Hbad].
  do 2 emits_step. do 2 emits_step. emits_step. split; [done|]. by destruct r3.
Qed.

(** The components in the order in which they are registered. *)
Definition components : list string := ["MW_BASE"; "MW"; "MW_OAM"].
(** The first [k] of them are registered; a failing one is the last that is tried. *)
Definition registered (rc : MafReturnT) (l : list mark) : Prop := exists k,
  (l = ((fun c => (c, MafOk)) <$> take k components) /\ (k = 0%nat /\ rc = MafFailure \/ k = 3%nat)) \/
  (exists c, components !! k = Some c /\ rc <> MafOk /\
     l = ((fun c => (c, MafOk)) <$> take k components) ++ [(c, rc)]).

Lemma register_components_emits s :
  emits mark_lc (register_components (PT:=PT) env) s
    (fun rc s' l => registered rc l /\ (rc = MafOk -> l = (fun c => (c, MafOk)) <$> components /\ portal_3_1 s' = true)).
Proof.
  unfold register_components. do 2 emits_step. unfold LC_OK at 1. case_bool_decide as E1; cbn [negb]; [subst r|].
  2:{ emits_step. split; [|done]. exists 0%nat. right. by exists "MW_BASE". }
  apply emits_silent_bind; [apply silent_get_doc|]. intros d s1. emits_step.
  apply emits_zoom, (emits_embed _ mark_rl); [apply rl_marks|]. intros env1.
  eapply emits_mono; [apply rlist_registers|]. intros rc s2 l ->. cbv beta. unfold LC_OK at 1.
  case_bool_decide as E2; cbn [negb]; [subst rc|].
  2:{ emits_step. split; [|done]. exists 1%nat. right. by exists "MW". }
  emits_step. emits_step. apply emits_silent_bind; [apply silent_get_doc|]. intros d2 s3. emits_step.
  apply emits_zoom, (emits_embed _ mark_oam); [apply oam_marks|]. intros env2.
  eapply emits_mono; [apply oam_registers|]. intros rc s4 l ->. cbv beta. unfold LC_OK at 1.
  case_bool_decide as E3; cbn [negb]; [subst rc|].
  2:{ emits_step. split; [|done]. exists 2%nat. right. by exists "MW_OAM". }
  eapply emits_mono; [apply after_registration_emits|]. intros rc s5 l [-> Hrc]. cbn [app]. split; [|eauto].
  exists 3%nat. left. split; [done|]. by right.
Qed.

(** Loading the library.  When [mafLCMinit] returns, the three components were
    offered to MAF in the order base, replicated list, OAM, each after the one
    before it was accepted; a refusal ends the initialisation with the answer
    of MAF.  Before that only a missing pipe or portal makes it fail (with
    [MafFailure] and nothing registered): a failure of the log or of the trace
    service does not.  A successful initialisation has registered all three
    and has both portals. *)
Theorem mafLCMinit_registers config s tr :
  post (mafLCMinit (PT:=PT) env fuel CC_NAME config) (s, tr) (fun rc c => exists new, c.2 = tr ++ new /\
    registered rc (omap mark_lc new) /\
    (rc = MafOk -> omap mark_lc new = (fun c => (c, MafOk)) <$> components /\ portal_3_1 c.1 = true))
    (fun _ => True).
Proof.
  revert tr. change (emits mark_lc (mafLCMinit (PT:=PT) env fuel CC_NAME config) s
    (fun rc s' l => registered rc l /\ (rc = MafOk -> l = (fun c => (c, MafOk)) <$> components /\ portal_3_1 s' = true))).
  assert (Hfail : forall s1 : Lc PT, emits mark_lc (mret MafFailure) s1
    (fun rc s' l => registered rc l /\ (rc = MafOk -> l = (fun c => (c, MafOk)) <$> components /\ portal_3_1 s' = true))).
  { intros s1. emits_step. split; [|done]. exists 0%nat. left. split; [done|]. by left. }
  unfold mafLCMinit. do 2 emits_step. apply emits_silent_bind; [apply silent_library|]. intros _ s1.
  do 2 emits_step. apply emits_silent_bind; [lc_silence|]. intros _ s2.
  unfold open_event_pipe. do 2 emits_step. destruct (negb (r =? 0)); [apply Hfail|].
  do 2 emits_step. apply emits_silent_bind; [lc_silence|]. intros _ s3.
  do 2 emits_step. apply emits_silent_bind; [lc_silence|]. intros _ s4.
  do 2 emits_step. do 2 emits_step. do 2 emits_step. do 2 emits_step. destruct (negb r3); [apply Hfail|].
  apply emits_silent_bind; [apply silent_parse|]. intros _ s6. do 2 emits_step.
  apply emits_silent_bind; [apply silent_start_log|]. intros _ s7.
  apply emits_silent_bind; [apply silent_start_trace|]. intros _ s8. apply register_components_emits.
Qed.
End props.

(** ** Unloading *)
Definition unmark_lc (e : event lcE) : option string :=
  match e with
  | Ev c r => match c with
              | unregister_base => Some "MW_BASE"
              | on_rl ReplicatedList.unregisterComponent => Some "MW"
              | on_oam OamComponent.unregisterComponent => Some "MW_OAM"
              | _ => None
              end
  end.
Definition unmark_rl (e : event rlE) : option string :=
  match e with Ev c _ => match c with ReplicatedList.unregisterComponent => Some "MW" | _ => None end end.
Definition unmark_oam (e : event oamE) : option string :=
  match e with Ev c _ => match c with OamComponent.unregisterComponent => Some "MW_OAM" | _ => None end end.

Section unload.
Context {PT : Type} `{PollOps PT}.
Context (env : environment lcE).

Lemma unmark_trace {A} (m : environment logE -> M logE (Trace PT) A) : silent unmark_lc (on_Trace env m).
Proof. intros s Q HQ. apply emits_zoom, emits_embed_silent; [by intros []|]. intros a s'. apply HQ. Qed.

Lemma trace_keeps {A} (m : environment logE -> M logE (Trace PT) A) s (Q : A -> Lc PT -> list string -> Prop) :
  (forall a v, Q a (l_trace v s) []) -> emits unmark_lc (on_Trace env m) s Q.
Proof. intros HQ. apply emits_zoom, emits_embed_silent; [by intros []|]. intros a v. apply HQ. Qed.

(** Unloading takes the components back in the reverse order, leaves no
    name and no usable document behind, and no library of the audit logger. *)
Lemma mafLCMterminate_unregisters s :
  emits unmark_lc (mafLCMterminate (PT:=PT) env) s (fun _ s' l =>
    l = rev components /\ CC_NAME_known s' = false /\ lib s' = false /\
    doc s' = (match doc s with Doc _ => FreedDoc | d => d end) /\
    (AvailController.cc_name (ac s) <> "lm" -> alertalarm (ac s') = 0)).
Proof.
  unfold mafLCMterminate. do 2 emits_step. destruct (CC_NAME_known s) eqn:Ek; cbn [negb when]; emits_step; [emits_step|emits_step].
  emits_step.
  apply (emits_mono _ _ _ (fun _ s' l => l = [] /\ lib s' = lib s /\ doc s' = doc s /\ portal_MAF s' = portal_MAF s /\
    (AvailController.cc_name (ac s) <> "lm" -> alertalarm (ac s') = 0))).
  { unfold _CC_NAME. destruct (bool_decide_reflect (AvailController.cc_name (ac s) = "lm")); cbn [negb].
    - apply trace_keeps. done.
    - unfold close_com_logs. do 3 emits_step. apply emits_when.
      + intros _. do 2 emits_step. do 3 (emits_step; apply trace_keeps; intros ? ?). emits_step.
        apply trace_keeps. done.
      + intros Ha%negb_false_iff%Z.eqb_eq. apply trace_keeps. done. }
  intros [] s1 ? (-> & Hlib & Hdoc & Hportal & Halarm). cbn [app].
  unfold with_portal. emits_step. do 2 emits_step. destruct (portal_MAF s1) eqn:Ep; [|emits_step].
  apply emits_zoom, (emits_embed _ unmark_oam); [by intros [? []]|]. intros env1.
  unfold maf_comSAOamComponentFinalize. emits_step. emits_step. do 2 emits_step. cbn [l_oam portal_MAF]. rewrite Ep.
  apply emits_zoom, (emits_embed _ unmark_rl); [by intros [? []]|]. intros env2.
  unfold maf_comSAMwComponentFinalize. emits_step. do 2 emits_step.
  emits_step. apply trace_keeps. intros ? v. emits_step. do 2 emits_step.
  cbn [l_oam l_rl l_trace portal_MAF]. rewrite Ep. emits_step.
  do 2 emits_step. cbn [doc l_oam l_rl l_trace]. rewrite Hdoc.
  destruct (doc s); [emits_step; emits_step|emits_step; emits_step|emits_step; emits_step].
  all: do 2 emits_step; do 2 emits_step; emits_step; (apply emits_when; intros _; [emits_step|]).
  all: apply emits_when; intros Hl; [do 3 emits_step; done|].
  all: cbn in Hl |- *; repeat split; (done || congruence || exact Halarm).
Qed.
End unload.

(** *** A run of both: nothing fails, and the library of the audit logger is there. *)
Definition lc_env : environment lcE := fun R tr e =>
  match e in lcE R return R with
  | on_ac e => good_env _ [] e
  | on_lg e => LogProps.demo_env _ [] e
  | on_rl e => ReplicatedList.demo_env _ [] e
  | on_oam e => oam_env MafOk _ [] e
  | getenv_SECURITY_STREAM => true
  | dlopen => true
  | dlsym _ => true
  | dlclose => ()
  | rfc5424_open_call => ()
  | rfc5424_close_call => ()
  | audit_logging_call _ => ()
  | pipe => 0
  | fcntl_getfl => 2
  | fcntl_setfl _ => 0
  | run_command _ => 0
  | getPortal _ => true
  | xmlNewParserCtxt => true
  | xmlCtxtReadMemory _ => demo_doc
  | create_timer_handles => ()
  | syslog_warning _ => ()
  | register_base => MafOk
  | unregister_base => ()
  | maf_comSAMgmtSpiThreadContInit => MafOk
  | maf_oamSAOiProxyInitialization => MafOk
  | setUpInstanceModelConsumers => ()
  | ClearOamContextTransactionMap => ()
  | stop_LogEventProducer => ()
  end.
Definition lc_start : Lc pollextensions :=
  MkLc (AcSystem.ac (initial "")) (demo_trace 0 0) rlist_initial oam_initial false false false false false NoDoc false false.

Example loads : exists s tr,
  mafLCMinit lc_env 5 "Com" (Some (lit "<components/>")) (lc_start, []) = (Ret MafOk, (s, tr)) /\
  rlist_maxsize (rl s) = 1048576 /\ uuid_cfg_flag (oam s) = UuidMapToAddInfoName /\ _CC_NAME s = "com".
Proof. eexists _, _. split; [vm_compute; reflexivity|]. vm_compute. done. Qed.
