(* ===== verification/CmTypes.v ===== *)
(** * Events of the configuration: data ([MafOamSpiCmEvent_1.h], [MafOamSpiManagedObject_3.h])

    The values of attributes as the MAF has them, and the events that are sent to
    the consumers. *)
From Stdlib Require Import ZArith Lia.
From stdpp Require Import base list strings.
From S2P Require Import Prelude.

#[local] Open Scope string_scope.
Open Scope Z_scope.

(** ** Types of attributes *)
Definition MafOamSpiMoAttributeType_3_INT8 : Z := 1.
Definition MafOamSpiMoAttributeType_3_INT16 : Z := 2.
Definition MafOamSpiMoAttributeType_3_INT32 : Z := 3.
Definition MafOamSpiMoAttributeType_3_INT64 : Z := 4.
Definition MafOamSpiMoAttributeType_3_UINT8 : Z := 5.
Definition MafOamSpiMoAttributeType_3_UINT16 : Z := 6.
Definition MafOamSpiMoAttributeType_3_UINT32 : Z := 7.
Definition MafOamSpiMoAttributeType_3_UINT64 : Z := 8.
Definition MafOamSpiMoAttributeType_3_STRING : Z := 9.
Definition MafOamSpiMoAttributeType_3_BOOL : Z := 10.
Definition MafOamSpiMoAttributeType_3_REFERENCE : Z := 11.
Definition MafOamSpiMoAttributeType_3_ENUM : Z := 12.
Definition MafOamSpiMoAttributeType_3_STRUCT : Z := 14.
Definition MafOamSpiMoAttributeType_3_DECIMAL64 : Z := 16.

(** ** Values

    [P] is the type of addresses.  A pointer that owns what it points to is the
    address and the contents; [theString], [moRef] and [structMember] are
    members of a union of eight bytes with the numbers, which are kept as the 64
    bits.  The number of values is the length of the list. *)
Inductive AvcBody (P : Type) :=
| MkAvc (type : Z) (values : option P) (elems : list (MafMoAttributeValue_3T P))
with MafMoAttributeValue_3T (P : Type) :=
| Number (bits : Z)
| TextAt (t : option (P * string))
| Members (l : list (StructMember P))
with StructMember (P : Type) :=
| MkMember (sm : P) (memberName : P * string) (memberValue : option (P * AvcBody P)).
Arguments MkAvc {P} _ _ _.
Arguments Number {P} _.
Arguments TextAt {P} _.
Arguments Members {P} _.
Arguments MkMember {P} _ _ _.

(** [MafMoAttributeValueContainer_3T *] that is not null. *)
Abbreviation Avc := (ptr * AvcBody ptr)%type.
Definition avc_type {P} (b : AvcBody P) : Z := match b with MkAvc t _ _ => t end.
Definition avc_values {P} (b : AvcBody P) : option P := match b with MkAvc _ v _ => v end.
Definition avc_elems {P} (b : AvcBody P) : list (MafMoAttributeValue_3T P) := match b with MkAvc _ _ l => l end.
Definition nrOfValues {P} (b : AvcBody P) : nat := length (avc_elems b).

(** ** Events *)
Inductive MafOamSpiCmEvent_SourceIndicator_1T :=
| MafOamSpiCmEvent_ResourceOperation_1 | MafOamSpiCmEvent_ManagementOperation_1 | MafOamSpiCmEvent_SonOperation_1 | MafOamSpiCmEvent_Unknown_1.
#[export] Instance SourceIndicator_eq_dec : EqDecision MafOamSpiCmEvent_SourceIndicator_1T.
Proof. solve_decision. Defined.

Inductive MafOamSpiCmEvent_EventType_1T :=
| MafOamSpiCmEvent_MoCreated_1 | MafOamSpiCmEvent_MoDeleted_1 | MafOamSpiCmEvent_AttributeValueChange_1 | MafOamSpiCmEvent_Overflow_1.
#[export] Instance EventType_eq_dec : EqDecision MafOamSpiCmEvent_EventType_1T.
Proof. solve_decision. Defined.

(** [MafMoNamedAttributeValueContainer_3T]: its block, the name, and the container
    inside of it. *)
Record NamedAvc := MkNamedAvc { na_addr : ptr; na_name : ptr * string; na_value : AvcBody ptr }.

(** [MafOamSpiCmEvent_1T]: its block, the name, and the null terminated array of
    attributes. *)
Record CmEvent := MkCmEvent {
  ev_addr : ptr;
  ev_dn : option (ptr * string);
  ev_type : MafOamSpiCmEvent_EventType_1T;
  ev_attrs_addr : ptr;
  ev_attributes : list NamedAvc
}.

(** [MafOamSpiCmEvent_Notification_1T]; the array of events is a block too. *)
Record CmNotification := MkCmNotification {
  txHandle : Z;
  cm_eventTime : Z;
  cm_source : MafOamSpiCmEvent_SourceIndicator_1T;
  events_addr : ptr;
  events : list CmEvent
}.
