(* ===== verification/NtfData.v ===== *)
(** * Notifications: data and memory ([ntf/ComSANtf.c], [incl/ComSANtf.h])

    The notifications of OpenSAF, the structures handed to the middleware
    (COM), the heap they live in, and the external calls of the notification
    component.  Addresses are typed: each kind of block has a heap of its
    own.  [malloc] may fail; the address of a new block is any one that is not
    in use.  Tracing is left out. *)
From Stdlib Require Import ZArith Lia.
From stdpp Require Import base gmap list strings.
From S2P Require Import Prelude Codes CmTypes.

#[local] Open Scope string_scope.
Open Scope Z_scope.

(** ** Notifications of OpenSAF ([saNtf.h]) *)
Inductive SaNtfNotificationTypeT :=
| SA_NTF_TYPE_OBJECT_CREATE_DELETE | SA_NTF_TYPE_ATTRIBUTE_CHANGE | SA_NTF_TYPE_STATE_CHANGE
| SA_NTF_TYPE_ALARM | SA_NTF_TYPE_SECURITY_ALARM
| SA_NTF_ALARM_QOS               (** an event type the code also takes for a notification type *)
| SA_NTF_TYPE_other (code : Z).
#[export] Instance SaNtfNotificationTypeT_eq_dec : EqDecision SaNtfNotificationTypeT.
Proof. solve_decision. Defined.

Inductive SaNtfValueTypeT := SA_NTF_VALUE_STRING | SA_NTF_VALUE_LDAP_NAME | SA_NTF_VALUE_other (code : Z).
#[export] Instance SaNtfValueTypeT_eq_dec : EqDecision SaNtfValueTypeT.
Proof. solve_decision. Defined.

(** [infoValue] names a piece of data inside the notification; it is read with
    [saNtfPtrValGet]. *)
Record SaNtfAdditionalInfoT := MkInfo { infoId : Z; infoType : SaNtfValueTypeT; infoValue : Z }.

(** [notificationId] is a pointer: the address and what it points to are both
    kept, because the code uses both.  A [SaNameT] is the string it holds; the
    number of additional information items is the length of the list. *)
Record SaNtfNotificationHeaderT := MkHeader {
  notificationObject : string;
  notifyingObject : string;
  vendorId : Z;            (** 32 bits *)
  majorId : Z;             (** 16 bits *)
  minorId : Z;             (** 16 bits *)
  nh_eventTime : Z;
  notificationId_addr : Z;
  notificationId : Z;
  nh_additionalText : option string;
  additionalInfo : list SaNtfAdditionalInfoT
}.

(** An attribute of a changed object: the (new) value is the eight bytes of the union
    [SaNtfValueT], a number or the place of the data, which is read with
    [saNtfPtrValGet]. *)
Record SaNtfAttributeT := MkAttribute { attributeId : Z; attributeType : SaNtfValueTypeT; attributeValue : Z }.

(** What only the notifications of the configuration have: [sourceIndicator] and
    [eventType] are pointers to numbers; [attributes] is [objectAttributes] or
    [changedAttributes], a pointer to an array; [numAttributes] has 16 bits. *)
Record ChangePart := MkChange {
  sourceIndicator : option Z;
  eventTypeCode : option Z;
  numAttributes : Z;
  attributes : option (list SaNtfAttributeT)
}.
Definition no_change : ChangePart := MkChange None None 0 None.

(** The union of the notifications: handle and header come first in every
    member; the severity is [perceivedSeverity] of an alarm and [severity] of a
    security alarm. *)
Record SaNtfNotificationsT := MkNotification {
  notificationType : SaNtfNotificationTypeT;
  notificationHandle : Z;
  notificationHeader : SaNtfNotificationHeaderT;
  nSeverity : Z;
  thresholdInformation : option Z;  (** opaque; only of an alarm *)
  changePart : ChangePart           (** of a change of the configuration *)
}.

(** ** Attributes read from IMM ([saImm.h]) *)
Inductive SaImmValue :=
| ImmName (s : string) | ImmUint32 (n : Z) | ImmInt32 (n : Z) | ImmString (s : option string)
| ImmInt64 (n : Z) | ImmUint64 (n : Z) | ImmTime (n : Z) | ImmFloat (bits : Z) | ImmDouble (bits : Z) | ImmAny (bytes : string).
Inductive SaImmValueTypeT :=
| SA_IMM_ATTR_SAINT32T | SA_IMM_ATTR_SAUINT32T | SA_IMM_ATTR_SAINT64T | SA_IMM_ATTR_SAUINT64T | SA_IMM_ATTR_SATIMET | SA_IMM_ATTR_SANAMET
| SA_IMM_ATTR_SAFLOATT | SA_IMM_ATTR_SADOUBLET | SA_IMM_ATTR_SASTRINGT | SA_IMM_ATTR_SAANYT | SA_IMM_ATTR_other (code : Z).
#[export] Instance SaImmValueTypeT_eq_dec : EqDecision SaImmValueTypeT.
Proof. solve_decision. Defined.
Record SaImmAttrValuesT_2 := MkAttr { attrName : string; attrValueType : SaImmValueTypeT; attrValues : list SaImmValue }.

(** ** Structures handed to COM ([MafOamSpiNotificationFm_2.h], [_4.h]) *)
Record MafOamSpiNotificationFmStruct_4T := MkFm4 {
  dn : option ptr;
  majorType : Z;
  minorType : Z;
  eventTime : Z;
  additionalText : option ptr;
  severity : Z;
  additionalInfoArr : option ptr;
  additionalInfo_size : Z
}.
(** The older structure; its texts are those of the newer one. *)
Record MafOamSpiNotificationFmStruct_2T := MkFm2 {
  dn_2 : option ptr;
  majorType_2 : Z;
  minorType_2 : Z;
  eventTime_2 : Z;
  additionalText_2 : option ptr;
  severity_2 : Z
}.

Definition set_dn o f := MkFm4 o (majorType f) (minorType f) (eventTime f) (additionalText f) (severity f) (additionalInfoArr f) (additionalInfo_size f).
Definition set_class maj min f := MkFm4 (dn f) maj min (eventTime f) (additionalText f) (severity f) (additionalInfoArr f) (additionalInfo_size f).
Definition set_eventTime t f := MkFm4 (dn f) (majorType f) (minorType f) t (additionalText f) (severity f) (additionalInfoArr f) (additionalInfo_size f).
Definition set_text o f := MkFm4 (dn f) (majorType f) (minorType f) (eventTime f) o (severity f) (additionalInfoArr f) (additionalInfo_size f).
Definition set_severity z f := MkFm4 (dn f) (majorType f) (minorType f) (eventTime f) (additionalText f) z (additionalInfoArr f) (additionalInfo_size f).
Definition set_info a n f := MkFm4 (dn f) (majorType f) (minorType f) (eventTime f) (additionalText f) (severity f) a n.
(** What [calloc] gives. *)
Definition zero_fm4 : MafOamSpiNotificationFmStruct_4T := MkFm4 None 0 0 0 None 0 None 0.

(** [MafOamSpiNotificationFmAdditionalInfoT]: name and value. *)
Abbreviation FmInfo := (option ptr * option ptr)%type.

(** A node of the value list; [comNot_2] is only set for the older structure. *)
Record valueList4T := MkValue {
  comNot : ptr;
  comNot_2 : option ptr;
  v_next : option ptr
}.
Definition set_v_next o v := MkValue (comNot v) (comNot_2 v) o.

(** A node of the queue of alarms that wait for the old ones to be read. *)
Record AlarmObjectT := MkAlarm { alarm : option ptr; a_next : option ptr }.
Definition set_a_next o a := MkAlarm (alarm a) o.
Definition set_alarm o a := MkAlarm o (a_next a).

(** [MafOamSpiNtfFmVersionT]; the static variable starts at zero. *)
Inductive FmVersion := FmNone | MafOamSpiNotificationFm_3 | MafOamSpiNotificationFm_4.
#[export] Instance FmVersion_eq_dec : EqDecision FmVersion.
Proof. solve_decision. Defined.

Definition MafOamSpiNotificationFmEventType_2 : string := "MafOamSpiNotificationFmEventType_2".
Definition MafOamSpiNotificationFmEventType_4 : string := "MafOamSpiNotificationFmEventType_4".
Definition MafOamSpiNotificationFmEventComponent_3 : string := "MafOamSpiNotificationFmEventComponent_3".
Definition MafOamSpiNotificationFmEventComponent_4 : string := "MafOamSpiNotificationFmEventComponent_4".

Definition CM_NOTIFICATIONS_SUBS_ID : Z := 45.
Definition COMSA_NTF_SUBSCRIPTION_ID : Z := 44.
Definition OAM_SA_NTF_RETRY_SLEEP : Z := 100000.
Definition OAM_SA_NTF_MAX_RETRIES : nat := 100.
Definition OAM_SA_NTF_READER_MAX_RETRIES : Z := 5.

(** ** Memory *)
Record Mem := MkMem {
  values : gmap ptr valueList4T;
  fms : gmap ptr MafOamSpiNotificationFmStruct_4T;
  fms_2 : gmap ptr MafOamSpiNotificationFmStruct_2T;
  texts : gmap ptr string;
  infos : gmap ptr (list FmInfo);
  alarms : gmap ptr AlarmObjectT
}.

Class Block (B : Type) := { heap : Mem -> gmap ptr B; set_heap : gmap ptr B -> Mem -> Mem }.
#[export] Instance value_block : Block valueList4T :=
  {| heap := values; set_heap := fun h m => MkMem h (fms m) (fms_2 m) (texts m) (infos m) (alarms m) |}.
#[export] Instance fm_block : Block MafOamSpiNotificationFmStruct_4T :=
  {| heap := fms; set_heap := fun h m => MkMem (values m) h (fms_2 m) (texts m) (infos m) (alarms m) |}.
#[export] Instance fm2_block : Block MafOamSpiNotificationFmStruct_2T :=
  {| heap := fms_2; set_heap := fun h m => MkMem (values m) (fms m) h (texts m) (infos m) (alarms m) |}.
#[export] Instance text_block : Block string :=
  {| heap := texts; set_heap := fun h m => MkMem (values m) (fms m) (fms_2 m) h (infos m) (alarms m) |}.
#[export] Instance infos_block : Block (list FmInfo) :=
  {| heap := infos; set_heap := fun h m => MkMem (values m) (fms m) (fms_2 m) (texts m) h (alarms m) |}.
#[export] Instance alarm_block : Block AlarmObjectT :=
  {| heap := alarms; set_heap := fun h m => MkMem (values m) (fms m) (fms_2 m) (texts m) (infos m) h |}.

(** ** External calls *)
Inductive Mutex := list_lock | notify_lock | cm_notification_lock | alarm_queue_lock.
#[export] Instance Mutex_eq_dec : EqDecision Mutex.
Proof. solve_decision. Defined.

(** The filters that are allocated and freed. *)
Inductive FilterKind := AlarmFilter | SecurityAlarmFilter | ObjectCreateDeleteFilter | AttributeChangeFilter | StateChangeFilter.

Inductive ntfE : Type -> Type :=
| mutex_lock (m : Mutex) : ntfE Z
| mutex_unlock (m : Mutex) : ntfE Z
| malloc : ntfE bool                                   (** memory is left *)
| usleep (microseconds : Z) : ntfE ()
| saNtfInitialize : ntfE SaAisErrorT
| saNtfFinalize : ntfE SaAisErrorT
| saNtfSelectionObjectGet : ntfE (SaAisErrorT * Z)
| saNtfDispatch : ntfE SaAisErrorT
| filterAllocate (k : FilterKind) : ntfE (SaAisErrorT * Z)
| saNtfNotificationFilterFree (handle : option Z) : ntfE SaAisErrorT   (** [None]: a variable that was never set *)
| saNtfNotificationSubscribe (handles : list Z) (id : Z) : ntfE SaAisErrorT
| saNtfNotificationUnsubscribe (id : Z) : ntfE SaAisErrorT
| saNtfNotificationReadInitialize (byId : bool) (eventTime notificationId : Z) (handles : list Z) : ntfE (SaAisErrorT * Z)
| saNtfNotificationReadNext (handle : Z) : ntfE (SaAisErrorT * SaNtfNotificationsT)
| saNtfNotificationReadFinalize (handle : option Z) : ntfE ()
| saNtfNotificationFree (handle : Z) : ntfE SaAisErrorT
| saNtfPtrValGet (handle value : Z) : ntfE (SaAisErrorT * string)
| saNtfPtrValAllocate (handle length : Z) : ntfE (SaAisErrorT * Z)
| saNtfAlarmNotificationAllocate (lengthAdditionalText numAdditionalInfo : Z) : ntfE (SaAisErrorT * Z)
| saNtfNotificationSend (n : SaNtfNotificationsT) (values : list string) : ntfE SaAisErrorT
| convertTo3Gpp (name : string) : ntfE (option string)
| convertToImm (name : string) : ntfE (option string)
| removeMOMPrefix (name : string) : ntfE (Z * Z * string)
| formatAdditionalText (threshold : option Z) (measTypeDn : option string) (direction : Z) (measObjLdn : string) : ntfE (option string)
| saImmOmInitialize : ntfE SaAisErrorT
| saImmOmFinalize : ntfE ()
| saImmOmAccessorInitialize : ntfE SaAisErrorT
| saImmOmAccessorFinalize : ntfE ()
| saImmOmAccessorGet_2 (object : string) (attributes : list string) : ntfE (SaAisErrorT * list SaImmAttrValuesT_2)
| saImmOmSearchInitialize_2 (root : string) : ntfE SaAisErrorT
| saImmOmSearchNext_2 : ntfE (SaAisErrorT * (string * list SaImmAttrValuesT_2))
| saImmOmSearchFinalize : ntfE ()
| poll_setcallback (fd : Z) : ntfE Z
| poll_unsetcallback (fd : Z) : ntfE ()
| getInterface : ntfE (MafReturnT * bool)
| start_CmEventHandler : ntfE ()
| stop_CmEventHandler : ntfE ()
| registerProducer : ntfE (MafReturnT * Z)
| unregisterProducer (producer : Z) : ntfE MafReturnT
| addProducerEvent (producer : Z) (eventType : string) : ntfE MafReturnT
| removeProducerEvent (producer : Z) (eventType : string) : ntfE MafReturnT
| registerConsumer : ntfE (MafReturnT * Z)
| unregisterConsumer (consumer : Z) : ntfE MafReturnT
| addSubscription (consumer : Z) (eventType : string) : ntfE MafReturnT
| removeSubscription (consumer : Z) (eventType : string) : ntfE MafReturnT
| notify (producer consumer : Z) (eventType : string) (value : option ptr) : ntfE ()
| pthread_create : ntfE Z
| pthread_detach : ntfE Z
| read_pipe : ntfE Z
(* events of the configuration *)
| notify_cm (producer consumer : Z) (eventType : string) (filter : option Z) (value : ptr) : ntfE (list ptr)
                                                       (** the values given back meanwhile *)
| abandon_producer (producer : Z) : ntfE MafReturnT    (** [unregisterProducer] of the producer of these events *)
| regcomp (pattern : string) : ntfE bool
| regexec (pattern subject : string) : ntfE bool
| clock_gettime : ntfE (option (Z * Z))                (** seconds and nanoseconds *)
| isNotified (attribute : option string) (class immRdn : string) : ntfE bool
| isStructAttribute (immRdn attribute : string) : ntfE bool
| getStructAttributeName (immRdn attribute : string) : ntfE (option string)
| fillStructMembers (immRdn attribute : string) : ntfE (bool * AvcBody ())
| getTypeForAttribute (attribute immRdn : string) : ntfE Z
| getTypeForStructMemberAttribute (attribute member immRdn : string) : ntfE Z
| getClassName (immRdn : string) : ntfE (option string)
| ImmRdn2MOTop (immRdn : string) : ntfE string.
