(* ===== verification/NtfValues.v ===== *)
(** * Notifications: the list of values COM has not given back ([ntf/ComSANtf.c])

    Every notification handed to COM stays on a list until COM says it is done
    with it: [addNotValue4] appends, [doneWithValue] finds, unlinks and frees,
    [cleanVlist4] frees everything. *)
From Stdlib Require Import ZArith Lia.
From stdpp Require Import base gmap list strings.
From S2P Require Import Prelude Codes NtfData.

#[local] Open Scope string_scope.
Open Scope Z_scope.

(** The file's static variables for the list, the version of the interface, and
    the memory of the component. *)
Record Values := MkValues {
  mem : Mem;
  mafSpiNtfFmVersion : FmVersion;
  nVlist4 : option ptr;
  nVlLast4 : option ptr
}.
Definition set_mem m s := MkValues m (mafSpiNtfFmVersion s) (nVlist4 s) (nVlLast4 s).
Definition set_version v s := MkValues (mem s) v (nVlist4 s) (nVlLast4 s).
Definition set_ends hd tl s := MkValues (mem s) (mafSpiNtfFmVersion s) hd tl.

Abbreviation V := (M ntfE Values).

(** ** Memory *)
Section memory.
Context {B : Type} `{Block B}.

Definition load (o : option ptr) : V B :=
  s ← get; of_option BadPointer (p ← o; heap (mem s) !! p).

Definition write (p : ptr) (b : B) : V () :=
  modify (fun s => set_mem (set_heap (<[p := b]> (heap (mem s))) (mem s)) s).
Definition store (o : option ptr) (b : B) : V () :=
  load o ;; match o with Some p => write p b | None => exit BadPointer end.

(** [malloc] and the writes that fill the block; [NULL] when there is no memory. *)
Definition allocate (env : environment ntfE) (b : B) : V (option ptr) :=
  left ← call env malloc;
  if (left : bool) then
    s ← get;
    let p := fresh (dom (heap (mem s))) in write p b ;; mret (Some p)
  else mret None.
End memory.

Definition free (B : Type) `{Block B} (o : option ptr) : V () :=
  match o with
  | None => mret ()
  | Some p =>
      load (B := B) (Some p) ;;
      modify (fun s => set_mem (set_heap (delete p (heap (B := B) (mem s))) (mem s)) s)
  end.

(** Locks whose failure takes the process down. *)
Section list.
Context (env : environment ntfE).

Definition checked (rc : V Z) : V () := r ← rc; when (negb (r =? 0)) (exit Aborted).
Definition lock (m : Mutex) : V () := checked (call env (mutex_lock m)).
Definition unlock (m : Mutex) : V () := checked (call env (mutex_unlock m)).

Abbreviation Fm4 := MafOamSpiNotificationFmStruct_4T.

(** ** Freeing a notification *)
Fixpoint free_entries (arr : option ptr) (n i : nat) : V () :=
  match n with
  | O => mret ()
  | S n =>
      addInfo ← load (B := list FmInfo) arr;
      e ← of_option BadPointer (addInfo !! i);
      free string (fst e) ;; free string (snd e) ;;
      store arr (<[i := (None, None)]> addInfo) ;;
      free_entries arr n (S i)
  end.

Definition freeAdditionalInfo (cn : ptr) : V () :=
  f ← load (B := Fm4) (Some cn);
  free_entries (additionalInfoArr f) (Z.to_nat (additionalInfo_size f)) 0 ;;
  free (list FmInfo) (additionalInfoArr f) ;;
  store (Some cn) (set_info None 0 f).

(** The texts, the additional information and the structure itself; the steps
    [cleanVlist4] and [doneWithValue] share. *)
Definition free_notification (cn : ptr) : V () :=
  f ← load (B := Fm4) (Some cn);
  when (bool_decide (is_Some (dn f))) (free string (dn f) ;; store (Some cn) (set_dn None f)) ;;
  f ← load (B := Fm4) (Some cn);
  when (bool_decide (is_Some (additionalText f)))
    (free string (additionalText f) ;; store (Some cn) (set_text None f)) ;;
  freeAdditionalInfo cn ;;
  free Fm4 (Some cn).

(** ** Cleaning the list *)
Fixpoint clean_loop (fuel : nat) (tmp : option ptr) : V () :=
  match tmp with
  | None => mret ()
  | Some _ =>
      match fuel with
      | O => exit OutOfFuel
      | S fuel =>
          v ← load (B := valueList4T) tmp;
          free_notification (comNot v) ;;
          s ← get;
          when (bool_decide (mafSpiNtfFmVersion s = MafOamSpiNotificationFm_3))
            (free MafOamSpiNotificationFmStruct_2T (comNot_2 v)) ;;
          free valueList4T tmp ;;
          clean_loop fuel (v_next v)
      end
  end.

Definition cleanVlist4 : V () :=
  lock list_lock ;;
  s ← get;
  clean_loop (S (size (values (mem s)))) (nVlist4 s) ;;
  modify (set_ends None None) ;;
  unlock list_lock.

(** ** Appending *)
Definition old_struct (f : Fm4) : MafOamSpiNotificationFmStruct_2T :=
  MkFm2 (dn f) (majorType f) (minorType f) (eventTime f) (additionalText f) (severity f).

Definition addNotValue4 (cn : ptr) : V ptr :=
  lock list_lock ;;
  ne ← allocate env (MkValue cn None None);
  ne ← (match ne with Some p => mret p | None => exit Aborted end : V ptr);
  s ← get;
  when (bool_decide (mafSpiNtfFmVersion s = MafOamSpiNotificationFm_3))
    (f ← load (B := Fm4) (Some cn);
     old ← allocate env (old_struct f);
     old ← of_option BadPointer old;
     store (Some ne) (MkValue cn (Some old) None)) ;;
  s ← get;
  (match nVlist4 s with
   | None => modify (set_ends (Some ne) (Some ne))
   | Some _ =>
       l ← load (B := valueList4T) (nVlLast4 s);
       store (nVlLast4 s) (set_v_next (Some ne) l) ;;
       modify (set_ends (nVlist4 s) (Some ne))
   end : V ()) ;;
  unlock list_lock ;;
  mret ne.

(** ** COM is done with a value *)

(** [while (tmp != NULL) { if (found) break; prev = tmp; tmp = tmp->next; }] *)
Fixpoint walk (found : valueList4T -> bool) (fuel : nat) (prev tmp : option ptr) : V (option ptr * option ptr) :=
  match tmp with
  | None => mret (prev, None)
  | Some _ =>
      match fuel with
      | O => exit OutOfFuel
      | S fuel =>
          v ← load (B := valueList4T) tmp;
          if found v then mret (prev, tmp) else walk found fuel tmp (v_next v)
      end
  end.

(** The node of a value: the previous node, the node and the notification. *)
Definition find_value (value : ptr) : V (option ptr * option ptr * option ptr) :=
  s ← get;
  let fuel := S (size (values (mem s))) in
  match mafSpiNtfFmVersion s with
  | MafOamSpiNotificationFm_4 =>
      r ← walk (fun v => bool_decide (comNot v = value)) fuel (nVlist4 s) (nVlist4 s);
      mret (fst r, snd r, Some value)
  | MafOamSpiNotificationFm_3 =>
      r ← walk (fun v => bool_decide (comNot_2 v = Some value)) fuel (nVlist4 s) (nVlist4 s);
      match snd r with
      | None => mret (fst r, None, None)
      | Some _ =>
          v ← load (B := valueList4T) (snd r);
          free MafOamSpiNotificationFmStruct_2T (Some value) ;;
          mret (fst r, snd r, Some (comNot v))
      end
  | FmNone => mret (nVlist4 s, nVlist4 s, None)
  end.

Definition unlink_value (prev tmp : option ptr) : V () :=
  s ← get;
  if bool_decide (tmp = nVlLast4 s) then
    if bool_decide (nVlist4 s = nVlLast4 s) then modify (set_ends None None)
    else
      l ← load (B := valueList4T) prev;
      modify (set_ends (nVlist4 s) prev) ;; store prev (set_v_next None l)
  else
    v ← load (B := valueList4T) tmp;
    if bool_decide (tmp = nVlist4 s) then modify (set_ends (v_next v) (nVlLast4 s))
    else
      l ← load (B := valueList4T) prev;
      store prev (set_v_next (v_next v) l).

Definition doneWithValue (eventType : option string) (value : option ptr) : V MafReturnT :=
  lock list_lock ;;
  rv ← (match value with
   | None => mret MafFailure
   | Some value =>
       if match eventType with
          | None => true
          | Some t => bool_decide (t = MafOamSpiNotificationFmEventType_4) || bool_decide (t = MafOamSpiNotificationFmEventType_2)
          end
       then
         r ← find_value value;
         let '(prev, tmp, inV) := r in
         match tmp with
         | None => mret MafNotExist
         | Some _ =>
             unlink_value prev tmp ;;
             cn ← of_option BadPointer inV;
             free_notification cn ;;
             free valueList4T tmp ;;
             mret MafOk
         end
       else mret MafFailure
   end : V MafReturnT);
  unlock list_lock ;;
  mret rv.

Definition doneWithValue_V4 (eventType : option string) (value : option ptr) : V MafReturnT :=
  doneWithValue eventType value.
End list.
