(* ===== verification/NtfValueFacts.v ===== *)
(** * Notifications: ownership of memory, and freeing a notification

    [deletes], what a notification owns, and the lemmas about the memory
    primitives of [NtfValues]: freeing a notification gives back exactly the
    blocks it owns. *)
From Stdlib Require Import ZArith Lia.
From stdpp Require Import base gmap list strings.
From S2P Require Import Prelude Codes NtfData NtfValues.

Open Scope Z_scope.

(** ** Heaps without some addresses *)
Definition deletes {B} (ks : list ptr) (h : gmap ptr B) : gmap ptr B := foldr delete h ks.

Section deletes.
Context {B : Type}.
Implicit Types (h : gmap ptr B) (ks : list ptr).

Lemma lookup_deletes_in ks h k : k ∈ ks -> deletes ks h !! k = None.
Proof.
  induction ks as [|k' ks IH]; [by intros ?%elem_of_nil|]. cbn. intros Hk.
  destruct (decide (k = k')) as [->|Hne]; [by rewrite lookup_delete_eq|].
  rewrite lookup_delete_ne by done. apply IH. set_solver.
Qed.
Lemma lookup_deletes_out ks h k : k ∉ ks -> deletes ks h !! k = h !! k.
Proof.
  induction ks as [|k' ks IH]; [done|]. cbn. intros Hk.
  rewrite lookup_delete_ne by set_solver. apply IH. set_solver.
Qed.
Lemma deletes_app ks ks' h : deletes (ks ++ ks') h = deletes ks (deletes ks' h).
Proof. unfold deletes. by rewrite foldr_app. Qed.

(** The order does not matter. *)
Lemma deletes_ext ks ks' h : (forall k, k ∈ ks <-> k ∈ ks') -> deletes ks h = deletes ks' h.
Proof.
  intros Heq. apply map_eq. intros k. destruct (decide (k ∈ ks)) as [Hk|Hk].
  - rewrite !lookup_deletes_in; [done|by apply Heq|done].
  - rewrite !lookup_deletes_out; [done|by rewrite <- Heq|done].
Qed.
Lemma deletes_insert_in ks h k b : k ∈ ks -> deletes ks (<[k := b]> h) = deletes ks h.
Proof.
  intros Hk. apply map_eq. intros k'. destruct (decide (k' ∈ ks)) as [Hk'|Hk'].
  - by rewrite !lookup_deletes_in.
  - rewrite !lookup_deletes_out by done. apply lookup_insert_ne. congruence.
Qed.
Lemma deletes_delete ks h k : deletes ks (delete k h) = deletes (k :: ks) h.
Proof.
  change (delete k h) with (deletes [k] h). rewrite <- deletes_app. apply deletes_ext. set_solver.
Qed.
Lemma deletes_none ks h : (forall k, k ∈ ks -> h !! k = None) -> deletes ks h = h.
Proof.
  intros Hk. apply map_eq. intros k. destruct (decide (k ∈ ks)).
  - by rewrite lookup_deletes_in, Hk.
  - by rewrite lookup_deletes_out.
Qed.
End deletes.

Lemma elem_concat {A B} (f : B -> list A) xs x p : x ∈ xs -> p ∈ f x -> p ∈ concat (map f xs).
Proof.
  induction 1 as [x xs|x y xs _ IH]; intros Hp; cbn; apply elem_of_app; [by left|right; by apply IH].
Qed.

(** ** The primitives *)
Section primitives.
Context {B : Type} `{Block B}.

Lemma sat_load_block p b s tr (Q : B -> _ -> Prop) :
  heap (mem s) !! p = Some b -> Q b (s, tr) -> sat (load (Some p)) (s, tr) Q.
Proof. intros Hp HQ. unfold load. sat_steps. eapply sat_of_option; [cbn; exact Hp|exact HQ]. Qed.

Lemma sat_store_block p b b' s tr (Q : () -> _ -> Prop) :
  heap (mem s) !! p = Some b ->
  Q () (set_mem (set_heap (<[p := b']> (heap (mem s))) (mem s)) s, tr) -> sat (store (Some p) b') (s, tr) Q.
Proof. intros Hp HQ. unfold store. sat_step. eapply sat_load_block; [done|]. unfold write. by sat_step. Qed.

Lemma sat_free_block p b s tr (Q : () -> _ -> Prop) :
  heap (B := B) (mem s) !! p = Some b ->
  Q () (set_mem (set_heap (delete p (heap (B := B) (mem s))) (mem s)) s, tr) -> sat (free B (Some p)) (s, tr) Q.
Proof. intros Hp HQ. unfold free. sat_step. eapply sat_load_block; [done|]. by sat_step. Qed.

Lemma sat_free_nothing s tr (Q : () -> _ -> Prop) : Q () (s, tr) -> sat (free B None) (s, tr) Q.
Proof. intros HQ. by apply sat_ret. Qed.
End primitives.

(** ** What a notification owns *)
Definition opt (o : option ptr) : list ptr := match o with Some p => [p] | None => [] end.
Definition entry_texts (e : FmInfo) : list ptr := opt (fst e) ++ opt (snd e).

Record item := MkItem {
  i_fm : ptr;               (** the structure *)
  i_head : list ptr;        (** its name and text *)
  i_arr : option ptr;       (** its array of additional information *)
  i_entries : list FmInfo   (** what the array holds *)
}.
Definition info_texts (es : list FmInfo) : list ptr := concat (map entry_texts es).
Definition i_texts (i : item) : list ptr := i_head i ++ info_texts (i_entries i).

(** The item [i] describes a live notification. *)
Record item_ok (m : Mem) (i : item) : Prop := MkItemOk {
  ok_fm : exists f, fms m !! i_fm i = Some f /\ opt (dn f) ++ opt (additionalText f) = i_head i /\
            additionalInfoArr f = i_arr i /\ additionalInfo_size f = Z.of_nat (length (i_entries i));
  ok_arr : match i_arr i with Some a => infos m !! a = Some (i_entries i) | None => i_entries i = [] end;
  ok_live : forall p, p ∈ i_texts i -> is_Some (texts m !! p);
  ok_nodup : NoDup (i_texts i)
}.

(** The memory without the notification. *)
Definition drop (i : item) (m : Mem) : Mem :=
  MkMem (values m) (delete (i_fm i) (fms m)) (fms_2 m) (deletes (i_texts i) (texts m))
    (deletes (opt (i_arr i)) (infos m)) (alarms m).

Lemma free_texts_sat (o : option ptr) s tr (Q : () -> _ -> Prop) :
  (forall p, o = Some p -> is_Some (texts (mem s) !! p)) ->
  Q () (set_mem (set_heap (deletes (opt o) (texts (mem s))) (mem s)) s, tr) -> sat (free string o) (s, tr) Q.
Proof.
  destruct o as [p|]; intros Hp HQ.
  - destruct (Hp p eq_refl) as [t Ht]. eapply sat_free_block; [exact Ht|exact HQ].
  - apply sat_free_nothing. destruct s as [[] ? ? ?]. exact HQ.
Qed.

Definition with_infos (tx : gmap ptr string) (ar : gmap ptr (list FmInfo)) (m : Mem) : Mem :=
  MkMem (values m) (fms m) (fms_2 m) tx ar (alarms m).

(** Entry by entry, the texts of the additional information are freed. *)
Lemma free_entries_sat arr k todo m s tr (Q : () -> _ -> Prop) :
  mem s = m -> infos m !! arr = Some (replicate k (None, None) ++ todo) ->
  (forall p, p ∈ info_texts todo -> is_Some (texts m !! p)) -> NoDup (info_texts todo) ->
  Q () (set_mem (with_infos (deletes (info_texts todo) (texts m))
                   (<[arr := replicate (k + length todo) (None, None)]> (infos m)) m) s, tr) ->
  sat (free_entries (Some arr) (length todo) k) (s, tr) Q.
Proof.
  revert k m s Q. induction todo as [|e todo IH]; intros k m s Q <- Harr Hlive Hnd HQ.
  - cbn in *. apply sat_ret. rewrite app_nil_r in Harr. rewrite Nat.add_0_r, insert_id in HQ by done.
    by destruct s as [[] ? ? ?].
  - unfold info_texts in *. cbn [length free_entries map concat] in *.
    apply NoDup_app in Hnd as (Hnd & Hdis & Hnd'). unfold entry_texts in Hnd, Hdis, Hlive.
    apply NoDup_app in Hnd as (_ & Hdis' & _).
    sat_step. eapply sat_load_block; [exact Harr|]. sat_step.
    eapply sat_of_option; [by rewrite lookup_app_r, length_replicate, Nat.sub_diag by (by rewrite length_replicate)|].
    sat_step. apply free_texts_sat; [intros p Hp; apply Hlive; rewrite Hp; cbn; set_solver|].
    sat_step. apply free_texts_sat.
    { intros p Hp. cbn. rewrite lookup_deletes_out; [apply Hlive; rewrite Hp; cbn; set_solver|].
      intros Hin. eapply Hdis'; [exact Hin|]. rewrite Hp. by left. }
    sat_step. eapply sat_store_block; [exact Harr|]. cbn.
    apply (IH (S k)) with (m := with_infos (deletes (entry_texts e) (texts (mem s)))
      (<[arr := replicate (S k) (None, None) ++ todo]> (infos (mem s))) (mem s)).
    + unfold with_infos, entry_texts. cbn. f_equal.
      * rewrite deletes_app. apply map_eq. intros q.
        destruct (decide (q ∈ opt e.1)), (decide (q ∈ opt e.2));
          rewrite ?lookup_deletes_in by done; rewrite ?lookup_deletes_out by done;
          rewrite ?lookup_deletes_in by done; rewrite ?lookup_deletes_out by done; done.
      * f_equal. rewrite insert_app_r_alt by (rewrite length_replicate; lia).
        rewrite length_replicate, Nat.sub_diag. change (replicate k ((None, None) : FmInfo) ++ [(None, None)] ++ todo = replicate (S k) (None, None) ++ todo).
        by rewrite replicate_S_end, <- app_assoc.
    + cbn. by rewrite lookup_insert_eq.
    + intros p Hp. cbn. rewrite lookup_deletes_out; [apply Hlive; set_solver|].
      intros Hin. eapply Hdis; [exact Hin|exact Hp].
    + exact Hnd'.
    + cbn. unfold with_infos in HQ |- *. cbn. rewrite insert_insert_eq, <- deletes_app.
      rewrite (deletes_ext _ (entry_texts e ++ concat (map entry_texts todo))) by (unfold entry_texts; set_solver).
      replace (k + S (length todo))%nat with (S (k + length todo)) in HQ by lia. exact HQ.
Qed.

Lemma set_mem_twice m m' s : set_mem m (set_mem m' s) = set_mem m s.
Proof. done. Qed.

(** The memory after some writes to the structure. *)
Definition with_fm (p : ptr) (f : MafOamSpiNotificationFmStruct_4T) (tx : gmap ptr string) (ar : gmap ptr (list FmInfo)) (m : Mem) : Mem :=
  MkMem (values m) (<[p := f]> (fms m)) (fms_2 m) tx ar (alarms m).

Lemma freeAdditionalInfo_sat p f arr es m s tr (Q : () -> _ -> Prop) :
  mem s = m -> fms m !! p = Some f -> additionalInfoArr f = arr -> additionalInfo_size f = Z.of_nat (length es) ->
  match arr with Some a => infos m !! a = Some es | None => es = [] end ->
  (forall q, q ∈ info_texts es -> is_Some (texts m !! q)) -> NoDup (info_texts es) ->
  Q () (set_mem (with_fm p (set_info None 0 f) (deletes (info_texts es) (texts m)) (deletes (opt arr) (infos m)) m) s, tr) ->
  sat (freeAdditionalInfo p) (s, tr) Q.
Proof.
  intros Hm Hf Harr Hsize Hes Hlive Hnd HQ. subst m. unfold freeAdditionalInfo. sat_step. eapply sat_load_block; [exact Hf|].
  rewrite Harr, Hsize, Nat2Z.id. destruct arr as [a|].
  - sat_step. eapply (free_entries_sat a 0 es); [done|done|done|done|].
    sat_step. eapply sat_free_block; [by cbn; rewrite lookup_insert_eq|]. eapply sat_store_block; [exact Hf|].
    rewrite !set_mem_twice. cbn. rewrite delete_insert_eq. exact HQ.
  - subst es. cbn. sat_step. apply sat_ret. sat_step. apply sat_free_nothing. eapply sat_store_block; [exact Hf|].
    exact HQ.
Qed.

(** Freeing a field of the structure and clearing it. *)
Lemma free_field_sat (o : option ptr) p f f' m s tr (Q : () -> _ -> Prop) :
  mem s = m -> fms m !! p = Some f -> (o = None -> f' = f) ->
  (forall q, o = Some q -> is_Some (texts m !! q)) ->
  Q () (set_mem (with_fm p f' (deletes (opt o) (texts m)) (infos m) m) s, tr) ->
  sat (when (bool_decide (is_Some o)) (free string o ;; store (Some p) f')) (s, tr) Q.
Proof.
  intros <- Hf Hsame Hlive HQ. destruct o as [q|].
  - rewrite bool_decide_true by eauto. cbv [when]. destruct (Hlive q eq_refl) as [t Ht].
    sat_step. eapply sat_free_block; [exact Ht|]. eapply sat_store_block; [exact Hf|]. exact HQ.
  - rewrite bool_decide_false by (by intros []). apply sat_ret. rewrite Hsame in HQ by done.
    unfold with_fm in HQ. rewrite insert_id in HQ by done. by destruct s as [[] ? ? ?].
Qed.

Lemma free_notification_sat i s tr (Q : () -> _ -> Prop) :
  item_ok (mem s) i -> Q () (set_mem (drop i (mem s)) s, tr) -> sat (free_notification (i_fm i)) (s, tr) Q.
Proof.
  intros [(f & Hf & Hhead & Harr & Hsize) Hes Hlive Hnd] HQ. destruct i as [p hd arr es].
  unfold i_texts, drop in *. cbn [i_fm i_head i_arr i_entries] in *. subst hd.
  apply NoDup_app in Hnd as (Hnd1 & Hdis & Hnd2). apply NoDup_app in Hnd1 as (_ & Hdis1 & _).
  unfold free_notification. sat_step. eapply sat_load_block; [exact Hf|].
  sat_step. eapply free_field_sat; [done|exact Hf|by destruct f; cbn; intros ->| |].
  { intros q Hq. apply Hlive. rewrite Hq. set_solver. }
  sat_step. eapply sat_load_block; [by cbn; rewrite lookup_insert_eq|].
  sat_step. eapply free_field_sat; [done|by cbn; rewrite lookup_insert_eq|by destruct f; cbn; intros ->| |].
  { intros q Hq. cbn. rewrite lookup_deletes_out; [apply Hlive; cbn in Hq; rewrite Hq; set_solver|].
    intros Hin. eapply Hdis1; [exact Hin|]. cbn in Hq. rewrite Hq. by left. }
  sat_step. eapply freeAdditionalInfo_sat with (es := es) (arr := arr);
    [done|by cbn; rewrite lookup_insert_eq|done|done|done| |done|].
  { intros q Hq. cbn. rewrite !lookup_deletes_out; [apply Hlive; set_solver| |];
      intros Hin; eapply Hdis; eauto; set_solver. }
  eapply sat_free_block; [by cbn; rewrite lookup_insert_eq|].
  rewrite !set_mem_twice. cbn. rewrite !delete_insert_eq, <- !deletes_app.
  rewrite (deletes_ext _ ((opt (dn f) ++ opt (additionalText f)) ++ info_texts es)) by set_solver. exact HQ.
Qed.
