(* ===== verification/NtfValueProps.v ===== *)
(** * Notifications: the value list is a list of owned notifications

    [repr s xs]: the nodes of the list hold the notifications [xs], each of
    which owns its blocks.  Every operation implements the obvious operation on
    [xs], and the memory that is not on the list is never touched. *)
From Stdlib Require Import ZArith Lia.
From stdpp Require Import base gmap list strings.
From S2P Require Import Prelude Codes CmTypes NtfData NtfValues NtfValueFacts.

Open Scope Z_scope.

(** ** Representation *)
Abbreviation node := (ptr * item)%type.
Definition cells (xs : list node) : list (ptr * ptr) := map (fun x => (fst x, i_fm (snd x))) xs.
Definition all_texts (xs : list node) : list ptr := concat (map (fun x => i_texts (snd x)) xs).
Definition all_arrs (xs : list node) : list ptr := concat (map (fun x => opt (i_arr (snd x))) xs).
Definition all_fms (xs : list node) : list ptr := map (fun x => i_fm (snd x)) xs.

Record repr (s : Values) (xs : list node) : Prop := MkRepr {
  r_list : lseg v_next comNot (values (mem s)) (nVlist4 s) (cells xs) None;
  r_last : nVlLast4 s = last_ptr (cells xs) None;
  r_nodes : NoDup (xs.*1);
  r_fms : NoDup (all_fms xs);
  r_texts : NoDup (all_texts xs);
  r_arrs : NoDup (all_arrs xs);
  r_items : Forall (fun x => item_ok (mem s) (snd x)) xs
}.

(** The memory that is not on the list. *)
Definition rest (m : Mem) (xs : list node) : Mem :=
  MkMem (deletes (xs.*1) (values m)) (deletes (all_fms xs) (fms m)) (fms_2 m) (deletes (all_texts xs) (texts m))
    (deletes (all_arrs xs) (infos m)) (alarms m).

Lemma cells_keys xs : (cells xs).*1 = xs.*1.
Proof. unfold cells. induction xs as [|x xs IH]; cbn; [done|]. by rewrite IH. Qed.
Lemma cells_app xs ys : cells (xs ++ ys) = cells xs ++ cells ys.
Proof. apply map_app. Qed.

(** ** Items stay in order when another one is dropped *)
Definition apart (i j : item) : Prop :=
  i_fm i <> i_fm j /\ (forall p, p ∈ i_texts i -> p ∉ i_texts j) /\ (forall p, p ∈ opt (i_arr i) -> p ∉ opt (i_arr j)).

Lemma item_ok_drop i j m : apart i j -> item_ok m j -> item_ok (drop i m) j.
Proof.
  intros (Hfm & Htx & Har) [(f & Hf & ?) Hes Hlive Hnd]. split; [| | |done].
  - exists f. cbn. by rewrite lookup_delete_ne.
  - destruct (i_arr j) as [a|] eqn:Ea; [|done]. cbn. rewrite lookup_deletes_out; [done|].
    intros Hin. eapply Har; [exact Hin|]. by left.
  - intros p Hp. cbn. rewrite lookup_deletes_out; [by apply Hlive|]. intros Hin. by eapply Htx.
Qed.

Lemma item_ok_values h i m : item_ok m i -> item_ok (set_heap (B := valueList4T) h m) i.
Proof. intros [? ? ? ?]. by split. Qed.

Lemma all_texts_app xs ys : all_texts (xs ++ ys) = all_texts xs ++ all_texts ys.
Proof. unfold all_texts. by rewrite map_app, concat_app. Qed.
Lemma all_arrs_app xs ys : all_arrs (xs ++ ys) = all_arrs xs ++ all_arrs ys.
Proof. unfold all_arrs. by rewrite map_app, concat_app. Qed.
Lemma all_fms_app xs ys : all_fms (xs ++ ys) = all_fms xs ++ all_fms ys.
Proof. apply map_app. Qed.

Lemma elem_all_fms xs x : x ∈ xs -> i_fm (snd x) ∈ all_fms xs.
Proof. apply (list_elem_of_fmap_2 (fun x : node => i_fm (snd x))). Qed.

(** An element of the list is apart from all the others. *)
Lemma apart_others s xs x ys y : repr s (xs ++ x :: ys) -> y ∈ xs ++ ys -> apart (snd x) (snd y).
Proof.
  intros [_ _ _ Hfm Htx Har _] Hy.
  rewrite all_fms_app in Hfm. rewrite all_texts_app in Htx. rewrite all_arrs_app in Har. cbn in *.
  assert (Hmid : forall (a b c : list ptr), NoDup (a ++ b ++ c) -> forall p, p ∈ b -> p ∉ a ++ c).
  { intros a b c (_ & H1 & (_ & H2 & _)%NoDup_app)%NoDup_app p Hp [Hin|Hin]%elem_of_app; [|by eapply H2].
    eapply H1; [exact Hin|]. set_solver. }
  split; [|split].
  - intros Heq. eapply (Hmid _ [i_fm (snd x)] _ Hfm); [by left|]. rewrite Heq, <- all_fms_app. by apply elem_all_fms.
  - intros p Hp Hin. eapply (Hmid _ _ _ Htx); [exact Hp|]. fold (all_texts ys). rewrite <- all_texts_app. exact (elem_concat (fun x => i_texts (snd x)) _ _ _ Hy Hin).
  - intros p Hp Hin. eapply (Hmid _ _ _ Har); [exact Hp|]. fold (all_arrs ys). rewrite <- all_arrs_app. exact (elem_concat (fun x => opt (i_arr (snd x))) _ _ _ Hy Hin).
Qed.

(** ** Searching and unlinking *)
Lemma walk_sat found value l fuel prev tmp s tr (Q : _ -> _ -> Prop) :
  (forall v, found v = bool_decide (comNot v = value)) ->
  lseg v_next comNot (values (mem s)) tmp l None -> (length l <= fuel)%nat ->
  (value ∉ l.*2 -> Q (last_ptr l prev, None) (s, tr)) ->
  (forall l1 p l2, l = l1 ++ (p, value) :: l2 -> value ∉ l1.*2 -> Q (last_ptr l1 prev, Some p) (s, tr)) ->
  sat (walk found fuel prev tmp) (s, tr) Q.
Proof.
  intros Hf. revert fuel prev tmp Q. induction l as [|[p c] l IH]; intros fuel prev tmp Q Hl Hfuel Hout Hin.
  - cbn in Hl. subst tmp. destruct fuel; apply sat_ret, Hout; set_solver.
  - destruct Hl as (v & -> & Hv & Hc & Hl). destruct fuel as [|fuel]; [cbn in Hfuel; lia|]. cbn [walk].
    sat_step. eapply sat_load_block; [exact Hv|]. rewrite Hf. case_bool_decide as Hcv.
    + apply sat_ret. apply (Hin [] p l); [by rewrite <- Hcv, Hc|set_solver].
    + eapply IH; [done|cbn in Hfuel; lia| |].
      * intros Hni. rewrite <- (last_ptr_cons p c l prev). apply Hout. cbn. set_solver.
      * intros l1 q l2 -> Hni. rewrite <- (last_ptr_cons p c l1 prev). apply (Hin ((p, c) :: l1) q l2); [done|set_solver].
Qed.

Lemma last_ptr_default {C} (l : list (ptr * C)) o o' : l <> [] -> last_ptr l o = last_ptr l o'.
Proof. destruct l as [|[p c] l _] using rev_ind; [done|]. by rewrite !last_ptr_snoc. Qed.

Lemma last_ptr_mid (l1 l2 : list (ptr * ptr)) p c o :
  NoDup (l1 ++ (p, c) :: l2).*1 -> last_ptr (l1 ++ (p, c) :: l2) o = Some p <-> l2 = [].
Proof.
  rewrite last_ptr_app, last_ptr_cons. destruct l2 as [|[q d] l2 _] using rev_ind; [done|].
  rewrite last_ptr_snoc, fmap_app. cbn. intros (_ & _ & Hnd)%NoDup_app. split; [|by destruct l2].
  intros [= ->]. exfalso. rewrite fmap_app in Hnd. cbn in Hnd. apply NoDup_cons in Hnd. set_solver.
Qed.

Lemma head_mid (l1 l2 : list (ptr * ptr)) p c :
  NoDup (l1 ++ (p, c) :: l2).*1 -> head_ptr (l1 ++ (p, c) :: l2) = Some p <-> l1 = [].
Proof.
  destruct l1 as [|[q d] l1]; [done|]. cbn. intros [Hni _]%NoDup_cons. split; [|done].
  intros [= ->]. exfalso. apply Hni. rewrite fmap_app. set_solver.
Qed.

(** The list without the node; the node itself stays allocated. *)
Lemma unlink_sat l1 l2 p c s tr (Q : _ -> _ -> Prop) :
  NoDup (l1 ++ (p, c) :: l2).*1 -> lseg v_next comNot (values (mem s)) (nVlist4 s) (l1 ++ (p, c) :: l2) None ->
  nVlLast4 s = last_ptr (l1 ++ (p, c) :: l2) None ->
  (forall h hd, lseg v_next comNot h hd (l1 ++ l2) None -> is_Some (h !! p) ->
     (forall ks, (forall q, q ∈ l1.*1 -> q ∈ ks) -> deletes ks h = deletes ks (values (mem s))) ->
     Q () (MkValues (set_heap h (mem s)) (mafSpiNtfFmVersion s) hd (last_ptr (l1 ++ l2) None), tr)) ->
  sat (unlink_value (last_ptr l1 (nVlist4 s)) (Some p)) (s, tr) Q.
Proof.
  intros Hnd Hl Hlast HQ.
  destruct (lseg_unlink v_next comNot set_v_next ltac:(done) ltac:(done) _ _ _ _ _ _ Hnd Hl) as (n & Hn & _ & Hrel).
  assert (Hhd : nVlist4 s = head_ptr (l1 ++ (p, c) :: l2)) by (by apply lseg_head in Hl).
  assert (Hnx : v_next n = head_ptr l2).
  { apply lseg_app in Hl as (mid & _ & m & -> & Hm & _ & Hl2). simplify_eq. by apply lseg_head in Hl2. }
  assert (Hsame : mem s = set_heap (values (mem s)) (mem s)) by (by destruct s as [[] ? ? ?]).
  unfold unlink_value. do 2 sat_step. rewrite Hlast, Hhd.
  case_bool_decide as Htl; [|assert (l2 <> []) as Hl2 by (intros ->; by apply Htl; symmetry; apply last_ptr_mid)].
  - symmetry in Htl. pose proof (proj1 (last_ptr_mid _ _ _ _ _ Hnd) Htl) as ->. rewrite Htl.
    case_bool_decide as Hh.
    + pose proof (proj1 (head_mid _ _ _ _ Hnd) Hh) as ->. sat_step. cbn in HQ |- *.
      unfold set_ends. rewrite Hsame. apply HQ; [done|eauto|done].
    + assert (l1 <> []) as Hne by (intros ->; by apply Hh).
      destruct l1 as [|[q d] l1 _] using rev_ind; [done|]. rewrite last_ptr_snoc in Hrel |- *.
      destruct Hrel as (m & Hm & Hrel). rewrite app_nil_r in *. rewrite last_ptr_snoc in HQ.
      sat_step. eapply sat_load_block; [exact Hm|]. do 2 sat_step. eapply sat_store_block; [exact Hm|].
      rewrite Hnx in Hrel. cbn in Hrel. apply (HQ (<[q := set_v_next None m]> (values (mem s)))).
      * by rewrite <- Hhd.
      * rewrite lookup_insert_ne; [eauto|]. intros ->. rewrite !fmap_app in Hnd. cbn in Hnd.
        apply NoDup_app in Hnd as (_ & Hdis & _). apply (Hdis p); set_solver.
      * intros ks Hks. apply deletes_insert_in, Hks. rewrite fmap_app. set_solver.
  - sat_step. eapply sat_load_block; [exact Hn|].
    assert (Hll : last_ptr (l1 ++ (p, c) :: l2) None = last_ptr (l1 ++ l2) None).
    { rewrite !last_ptr_app, last_ptr_cons. by apply last_ptr_default. }
    rewrite Hll. case_bool_decide as Hh.
    + symmetry in Hh. pose proof (proj1 (head_mid _ _ _ _ Hnd) Hh) as ->. sat_step. unfold set_ends. rewrite Hsame.
      apply HQ; [exact Hrel|eauto|done].
    + assert (l1 <> []) as Hne by (intros ->; by apply Hh).
      destruct l1 as [|[q d] l1 _] using rev_ind; [done|]. rewrite last_ptr_snoc in Hrel |- *.
      destruct Hrel as (m & Hm & Hrel).
      sat_step. eapply sat_load_block; [exact Hm|]. eapply sat_store_block; [exact Hm|].
      unfold set_mem. rewrite Hlast, Hll. apply (HQ (<[q := set_v_next (v_next n) m]> (values (mem s)))).
      * done.
      * rewrite lookup_insert_ne; [eauto|]. intros ->. rewrite !fmap_app in Hnd. cbn in Hnd.
        apply NoDup_app in Hnd as (_ & Hdis & _). apply (Hdis p); set_solver.
      * intros ks Hks. apply deletes_insert_in, Hks. rewrite fmap_app. set_solver.
Qed.

(** ** One element less *)
Lemma nodup_drop {A} (xs : list A) x ys : NoDup (xs ++ x :: ys) -> NoDup (xs ++ ys).
Proof. intros Hnd. eapply (sublist_NoDup _ (xs ++ x :: ys)); [done|]. apply sublist_app; [done|by constructor]. Qed.

Lemma nodup_concat_mid {A} (xs y ys : list A) : NoDup (xs ++ y ++ ys) -> NoDup (xs ++ ys).
Proof. intros Hnd. eapply (sublist_NoDup _ (xs ++ y ++ ys)); [done|]. apply sublist_app; [done|by apply sublist_inserts_l]. Qed.

Lemma rest_remove m h xs x ys :
  (forall ks, (forall q, q ∈ xs.*1 -> q ∈ ks) -> deletes ks h = deletes ks (values m)) ->
  rest (set_heap (delete (fst x) h) (drop (snd x) m)) (xs ++ ys) = rest m (xs ++ x :: ys).
Proof.
  intros Hh. unfold rest. cbn. f_equal.
  - rewrite deletes_delete, Hh by (rewrite fmap_app; set_solver). apply deletes_ext. intros k.
    rewrite !fmap_app. cbn. set_solver.
  - rewrite deletes_delete. apply deletes_ext. intros k. rewrite !all_fms_app. cbn. set_solver.
  - rewrite <- deletes_app. apply deletes_ext. intros k. rewrite !all_texts_app. cbn. set_solver.
  - rewrite <- deletes_app. apply deletes_ext. intros k. rewrite !all_arrs_app. cbn. set_solver.
Qed.

Lemma repr_remove s xs x ys h hd :
  repr s (xs ++ x :: ys) -> lseg v_next comNot h hd (cells (xs ++ ys)) None ->
  repr (MkValues (set_heap (delete (fst x) h) (drop (snd x) (mem s))) (mafSpiNtfFmVersion s) hd (last_ptr (cells (xs ++ ys)) None))
    (xs ++ ys).
Proof.
  intros Hr Hl. pose proof Hr as [_ _ Hn Hfm Htx Har Hit]. rewrite fmap_app in Hn. cbn in Hn. split; cbn.
  - apply lseg_delete; [|done]. rewrite cells_keys, fmap_app. apply NoDup_app in Hn as (_ & Hdis & Hn).
    apply NoDup_cons in Hn as [Hn _]. intros [Hin|Hin]%elem_of_app; [eapply Hdis; [exact Hin|by left]|done].
  - done.
  - rewrite fmap_app. by eapply nodup_drop.
  - rewrite all_fms_app in Hfm |- *. by eapply nodup_drop.
  - rewrite all_texts_app in Htx |- *. cbn in Htx. by eapply nodup_concat_mid.
  - rewrite all_arrs_app in Har |- *. cbn in Har. by eapply nodup_concat_mid.
  - rewrite Forall_forall. intros y Hy. apply (item_ok_values (delete x.1 h) _ (drop _ _)), item_ok_drop.
    + eapply apart_others; [exact Hr|exact Hy].
    + rewrite Forall_forall in Hit. apply Hit. set_solver.
Qed.

(** ** [doneWithValue] *)
Section operations.
Context (env : environment ntfE).

(** A lock that cannot be taken or given back takes the process down. *)
Lemma locked_post {A} m (body : V A) s tr (Q : A -> _ -> Prop) :
  (forall tr', sat body (s, tr') (fun a c => forall tr'', Q a (fst c, tr''))) ->
  post (lock env m ;; a ← body; unlock env m ;; mret a) (s, tr) Q (fun w => w = Aborted).
Proof.
  intros Hb. unfold lock, unlock, checked.
  post_step. do 2 post_step. destruct (r =? 0); cbn [negb when]; [post_step|done].
  post_step. eapply sat_post, sat_mono; [apply Hb|]. intros a [s' tr'] HQ.
  match goal with |- post ?p _ _ _ => idtac end.
  post_step. do 2 post_step. destruct (r0 =? 0); cbn [negb when]; [post_step|done]. post_step. apply HQ.
Qed.

Lemma cells_size s xs : repr s xs -> (length (cells xs) <= size (values (mem s)))%nat.
Proof. intros [Hl _ Hn _ _ _ _]. eapply lseg_length; [by rewrite cells_keys|exact Hl]. Qed.

Definition known (t : option string) : bool :=
  match t with
  | None => true
  | Some t => bool_decide (t = MafOamSpiNotificationFmEventType_4) || bool_decide (t = MafOamSpiNotificationFmEventType_2)
  end.

(** The middle of [doneWithValue], for the structure in use. *)
Lemma done_body_sat s xs value tr (Q : _ -> _ -> Prop) :
  repr s xs -> mafSpiNtfFmVersion s = MafOamSpiNotificationFm_4 ->
  (value ∉ all_fms xs -> Q MafNotExist (s, tr)) ->
  (forall ys x zs s', xs = ys ++ x :: zs -> i_fm (snd x) = value -> repr s' (ys ++ zs) ->
     rest (mem s') (ys ++ zs) = rest (mem s) xs -> mafSpiNtfFmVersion s' = mafSpiNtfFmVersion s -> Q MafOk (s', tr)) ->
  sat (r ← find_value value;
       let '(prev, tmp, inV) := r in
       match tmp with
       | None => mret MafNotExist
       | Some _ => unlink_value prev tmp ;; cn ← of_option BadPointer inV; free_notification cn ;; free valueList4T tmp ;; mret MafOk
       end) (s, tr) Q.
Proof.
  intros Hr Hv Hout Hin. pose proof (cells_size _ _ Hr) as Hsz. pose proof Hr as [Hl Hlast Hn _ _ _ Hit].
  sat_step. unfold find_value. do 2 sat_step. rewrite Hv. sat_step.
  eapply (walk_sat _ value (cells xs)); [done|exact Hl|cbn; lia| |].
  - intros Hni. sat_step. sat_step. apply Hout. intros Hx. apply Hni. clear -Hx. unfold cells, all_fms in *.
    induction xs as [|x xs IH]; cbn in *; [done|]. set_solver.
  - intros l1 p l2 Heq _. sat_step. cbn [fst snd].
    unfold cells in Heq. apply map_eq_app in Heq as (ys & zs' & -> & <- & Hz).
    apply map_eq_cons in Hz as (x & zs & -> & [= <- Hx] & <-). fold (cells ys) (cells zs) in *.
    rewrite cells_app in Hl, Hlast. cbn in Hl, Hlast. rewrite Hx in Hl, Hlast.
    assert (Hnd : NoDup (cells ys ++ (x.1, value) :: cells zs).*1).
    { rewrite fmap_app. cbn. rewrite !cells_keys. by rewrite fmap_app in Hn. }
    sat_step. eapply unlink_sat; [exact Hnd|exact Hl|exact Hlast|]. intros h hd Hl' Hp Hh.
    rewrite <- cells_app in Hl' |- *. rewrite cells_keys in Hh. sat_step. eapply sat_of_option; [done|].
    rewrite <- Hx. sat_step. apply free_notification_sat.
    { apply item_ok_values. rewrite Forall_forall in Hit. apply Hit. set_solver. }
    destruct Hp as [n Hnode]. sat_step. eapply sat_free_block; [exact Hnode|]. sat_step.
    eapply (Hin ys x zs); [done|done|exact (repr_remove s ys x zs h hd Hr Hl')|exact (rest_remove (mem s) h ys x zs Hh)|done].
Qed.

(** ** [cleanVlist4] *)
Lemma clean_loop_sat xs fuel tmp s tr (Q : _ -> _ -> Prop) :
  repr (set_ends tmp (last_ptr (cells xs) None) s) xs -> mafSpiNtfFmVersion s = MafOamSpiNotificationFm_4 ->
  (length xs < fuel)%nat -> Q () (set_mem (rest (mem s) xs) s, tr) -> sat (clean_loop fuel tmp) (s, tr) Q.
Proof.
  revert fuel tmp s. induction xs as [|x xs IH]; intros fuel tmp s Hr Hv Hfuel HQ.
  - destruct Hr as [Hl _ _ _ _ _ _]. cbn in Hl. subst tmp. destruct fuel; apply sat_ret; by destruct s as [[] ? ? ?].
  - pose proof Hr as [Hl _ _ _ _ _ Hit]. destruct Hl as (v & Htmp & Hnode & Hcn & Hl). cbn in Htmp, Hnode, Hl. subst tmp.
    destruct fuel as [|fuel]; [lia|]. cbn [clean_loop]. sat_step. eapply sat_load_block; [exact Hnode|]. rewrite Hcn.
    sat_step. apply free_notification_sat; [by apply Forall_inv in Hit|].
    do 2 sat_step. rewrite bool_decide_false by (cbn; congruence). sat_step. apply sat_ret.
    sat_step. eapply sat_free_block; [exact Hnode|]. apply IH; [|done|cbn in Hfuel; lia|].
    + exact (repr_remove _ [] x xs _ _ Hr Hl).
    + rewrite set_mem_twice. cbn [mem set_mem]. pose proof (rest_remove (mem s) (values (mem s)) [] x xs (fun _ _ => eq_refl)) as Hre.
      cbn in Hre |- *. rewrite Hre. exact HQ.
Qed.

Lemma repr_empty m v : repr (MkValues m v None None) [].
Proof. split; cbn; auto using NoDup_nil_2. Qed.

Lemma rest_nil m : rest m [] = m.
Proof. by destruct m. Qed.

Lemma cleanVlist4_post s xs tr :
  repr s xs -> mafSpiNtfFmVersion s = MafOamSpiNotificationFm_4 ->
  post (cleanVlist4 env) (s, tr) (fun _ c => fst c = MkValues (rest (mem s) xs) (mafSpiNtfFmVersion s) None None) (fun w => w = Aborted).
Proof.
  intros Hr Hv. unfold cleanVlist4, lock, unlock, checked.
  post_step. do 2 post_step. destruct (r =? 0); cbn [negb when]; [post_step|done].
  do 3 post_step. eapply sat_post, (clean_loop_sat xs); [ |done| | ].
  - destruct Hr as [Hl Hlast ? ? ? ? ?]. split; try done.
  - pose proof (cells_size _ _ Hr) as Hsz. unfold cells in Hsz. rewrite length_map in Hsz. lia.
  - post_step. do 2 post_step. post_step. destruct (r0 =? 0); cbn [negb when]; [by post_step|done].
Qed.

(** ** [addNotValue4] *)

(** What is live in the rest of the memory is not on the list. *)
Lemma rest_fm m xs p f : fms (rest m xs) !! p = Some f -> fms m !! p = Some f /\ (p ∉ all_fms xs).
Proof.
  cbn. intros Hp. destruct (decide (p ∈ all_fms xs)) as [Hin|Hin]; [by rewrite lookup_deletes_in in Hp|].
  by rewrite lookup_deletes_out in Hp.
Qed.
Lemma rest_text m xs p t : texts (rest m xs) !! p = Some t -> texts m !! p = Some t /\ (p ∉ all_texts xs).
Proof.
  cbn. intros Hp. destruct (decide (p ∈ all_texts xs)) as [Hin|Hin]; [by rewrite lookup_deletes_in in Hp|].
  by rewrite lookup_deletes_out in Hp.
Qed.
Lemma rest_arr m xs p a : infos (rest m xs) !! p = Some a -> infos m !! p = Some a /\ (p ∉ all_arrs xs).
Proof.
  cbn. intros Hp. destruct (decide (p ∈ all_arrs xs)) as [Hin|Hin]; [by rewrite lookup_deletes_in in Hp|].
  by rewrite lookup_deletes_out in Hp.
Qed.

Lemma item_ok_rest m xs i : item_ok (rest m xs) i ->
  item_ok m i /\ (i_fm i ∉ all_fms xs) /\ (forall p, p ∈ i_texts i -> p ∉ all_texts xs) /\ (forall p, p ∈ opt (i_arr i) -> p ∉ all_arrs xs).
Proof.
  intros [(f & Hf & Hrest) Hes Hlive Hnd]. apply rest_fm in Hf as [Hf Hni]. split_and!; [split; [by eauto| | |done]|done| |].
  - destruct (i_arr i); [by apply rest_arr in Hes as [? _]|done].
  - intros p Hp. destruct (Hlive p Hp) as [t Ht]. apply rest_text in Ht as [? _]. eauto.
  - intros p Hp. destruct (Hlive p Hp) as [t Ht]. by apply rest_text in Ht as [_ ?].
  - intros p Hp. destruct (i_arr i) as [a|]; [|by apply elem_of_nil in Hp]. apply list_elem_of_singleton in Hp as ->.
    by apply rest_arr in Hes as [_ ?].
Qed.

(** One element more, at a new node. *)
Lemma repr_append s xs i ne h hd :
  repr s xs -> item_ok (rest (mem s) xs) i -> ne ∉ xs.*1 -> lseg v_next comNot h hd (cells (xs ++ [(ne, i)])) None ->
  repr (MkValues (set_heap h (mem s)) (mafSpiNtfFmVersion s) hd (Some ne)) (xs ++ [(ne, i)]).
Proof.
  intros [_ _ Hn Hfm Htx Har Hit] (Hok & Hni & Hnt & Hna)%item_ok_rest Hne Hl. split; cbn.
  - exact Hl.
  - rewrite cells_app. cbn. by rewrite last_ptr_snoc.
  - rewrite fmap_app. apply NoDup_app. split_and!; [done|set_solver|apply NoDup_singleton].
  - rewrite all_fms_app. apply NoDup_app. split_and!; [done|set_solver|apply NoDup_singleton].
  - rewrite all_texts_app. apply NoDup_app. split_and!; [done| |].
    + intros p Hp. cbn. rewrite app_nil_r. intros Hin. by eapply Hnt.
    + cbn. rewrite app_nil_r. by destruct Hok.
  - rewrite all_arrs_app. apply NoDup_app. split_and!; [done| |].
    + intros p Hp. cbn. rewrite app_nil_r. intros Hin. by eapply Hna.
    + cbn. rewrite app_nil_r. destruct (i_arr i); [apply NoDup_singleton|apply NoDup_nil_2].
  - apply Forall_app. split; [|constructor; [by apply item_ok_values|done]].
    eapply Forall_impl; [exact Hit|]. intros x. apply item_ok_values.
Qed.

Lemma rest_append m h xs i ne :
  deletes (ne :: xs.*1) h = deletes (xs.*1) (values m) ->
  rest (set_heap h m) (xs ++ [(ne, i)]) = drop i (rest m xs).
Proof.
  intros Hh. unfold rest, drop. cbn. f_equal.
  - rewrite <- Hh. apply deletes_ext. intros k. rewrite fmap_app. set_solver.
  - change (delete (i_fm i) ?h) with (deletes [i_fm i] h). rewrite <- deletes_app. apply deletes_ext. intros k.
    rewrite all_fms_app. set_solver.
  - rewrite <- deletes_app. apply deletes_ext. intros k. rewrite all_texts_app. cbn. set_solver.
  - rewrite <- deletes_app. apply deletes_ext. intros k. rewrite all_arrs_app. cbn. set_solver.
Qed.

Lemma addNotValue4_post s xs i tr :
  repr s xs -> mafSpiNtfFmVersion s = MafOamSpiNotificationFm_4 -> item_ok (rest (mem s) xs) i ->
  post (addNotValue4 env (i_fm i)) (s, tr) (fun ne c =>
    repr (fst c) (xs ++ [(ne, i)]) /\ rest (mem (fst c)) (xs ++ [(ne, i)]) = drop i (rest (mem s) xs) /\
    mafSpiNtfFmVersion (fst c) = mafSpiNtfFmVersion s) (fun w => w = Aborted).
Proof.
  intros Hr Hv Hi. unfold addNotValue4, lock, unlock, checked.
  post_step. do 2 post_step. destruct (r =? 0); cbn [negb when]; [post_step|done].
  post_step. unfold allocate. do 2 post_step. destruct r0; [|repeat post_step; done].
  repeat post_step. set (ne := fresh _). cbv zeta. unfold write. repeat post_step.
  rewrite bool_decide_false by (cbn; congruence). eapply sat_post, sat_when; [done|intros _]. repeat post_step.
  pose proof Hr as [Hl Hlast Hn _ _ _ _].
  assert (Hne : values (mem s) !! ne = None) by (apply not_elem_of_dom; exact (is_fresh (dom (values (mem s))))).
  assert (Hni : ne ∉ xs.*1).
  { intros Hin. rewrite <- cells_keys in Hin. destruct (lseg_alive _ _ _ _ _ _ _ Hl Hin) as [? ?]. congruence. }
  assert (Hfinal : forall h hd tr', lseg v_next comNot h hd (cells (xs ++ [(ne, i)])) None ->
      deletes (ne :: xs.*1) h = deletes (xs.*1) (values (mem s)) ->
      post (unlock env list_lock ;; mret ne)
        (MkValues (set_heap h (mem s)) (mafSpiNtfFmVersion s) hd (Some ne), tr') (fun ne c =>
        repr (fst c) (xs ++ [(ne, i)]) /\ rest (mem (fst c)) (xs ++ [(ne, i)]) = drop i (rest (mem s) xs) /\
        mafSpiNtfFmVersion (fst c) = mafSpiNtfFmVersion s) (fun w => w = Aborted)).
  { intros h hd tr' Hl' Hh. unfold unlock, checked. post_step. do 2 post_step.
    destruct (_ =? 0); cbn [negb when]; [post_step|done]. post_step. cbn [fst snd mem].
    split; [by apply repr_append|]. split; [by apply rest_append|done]. }
  destruct xs as [|x xs _] using rev_ind; cbn [set_mem nVlist4 nVlLast4].
  - cbn in Hl. rewrite Hl. post_step. apply Hfinal.
    + exists (MkValue (i_fm i) None None). cbn. by rewrite lookup_insert_eq.
    + change (delete ne (<[ne := MkValue (i_fm i) None None]> (values (mem s))) = values (mem s)).
      by apply delete_insert_id.
  - rewrite cells_app in Hl, Hlast. cbn in Hl, Hlast. rewrite last_ptr_snoc in Hlast.
    rewrite fmap_app in Hn. cbn in Hn. rewrite fmap_app in Hni. cbn in Hni.
    assert (Hx : x.1 ∉ (cells xs).*1) by (rewrite cells_keys; apply NoDup_app in Hn as (_ & Hn & _); intros ?; eapply Hn; set_solver).
    assert (Hnx : x.1 <> ne) by set_solver.
    destruct (lseg_relink v_next comNot set_v_next ltac:(done) ltac:(done) _ _ _ _ _ _ Hx Hl) as (n & Hnode & Hcn & Hnxt & Hre).
    assert (is_Some (nVlist4 s)) as [hd Hhd].
    { apply lseg_head in Hl. rewrite Hl. destruct (cells xs) as [|[]]; cbn; eauto. }
    rewrite Hhd, Hlast. post_step. eapply sat_post, sat_load_block; [cbn; by rewrite lookup_insert_ne by done|].
    post_step. eapply sat_post, sat_store_block; [cbn; by rewrite lookup_insert_ne by done|]. post_step. cbn [set_mem set_ends mem].
    eapply (Hfinal (<[x.1 := set_v_next (Some ne) n]> (<[ne := MkValue (i_fm i) None None]> (values (mem s))))).
    + rewrite cells_app, cells_app. cbn. apply lseg_app. exists (Some ne). split.
      * rewrite insert_insert_ne by done. apply lseg_insert; [|rewrite <- Hhd; apply Hre].
        rewrite fmap_app, cells_keys. cbn. set_solver.
      * exists (MkValue (i_fm i) None None). by rewrite lookup_insert_ne, lookup_insert_eq.
    + rewrite fmap_app. rewrite deletes_insert_in by (cbn; set_solver). rewrite deletes_insert_in by (cbn; set_solver).
      apply (deletes_none [ne]). intros k ->%list_elem_of_singleton.
      by rewrite lookup_deletes_out.
Qed.

(** ** Refinement *)
Inductive operation :=
| Add (i : item)                                      (** a notification goes to COM *)
| Done (eventType : option string) (value : option ptr)  (** COM gives one back *)
| Clean.                                              (** the service closes *)

Definition exec (o : operation) : V (option MafReturnT) :=
  match o with
  | Add i => addNotValue4 env (i_fm i) ;; mret None
  | Done t v => rv ← doneWithValue_V4 env t v; mret (Some rv)
  | Clean => cleanVlist4 env ;; mret None
  end.

Fixpoint exec_all (os : list operation) : V (list (option MafReturnT)) :=
  match os with
  | [] => mret []
  | o :: os => r ← exec o; rs ← exec_all os; mret (r :: rs)
  end.
End operations.

(** The specification: a list of notifications. *)
Definition spec (o : operation) (l : list item) : option MafReturnT * list item :=
  match o with
  | Add i => (None, l ++ [i])
  | Done t None => (Some MafFailure, l)
  | Done t (Some v) =>
      if known t then
        if bool_decide (v ∈ map i_fm l) then (Some MafOk, filter (fun i => i_fm i <> v) l) else (Some MafNotExist, l)
      else (Some MafFailure, l)
  | Clean => (None, [])
  end.
Fixpoint spec_all (os : list operation) (l : list item) : list (option MafReturnT) * list item :=
  match os with
  | [] => ([], l)
  | o :: os => let '(r, l) := spec o l in let '(rs, l) := spec_all os l in (r :: rs, l)
  end.

(** The memory that is left to the rest of the component. *)
Definition left_over (o : operation) (F : Mem) : Mem := match o with Add i => drop i F | _ => F end.
(** A notification that goes to COM is live and owned by the one who sends it. *)
Fixpoint legal (os : list operation) (F : Mem) : Prop :=
  match os with
  | [] => True
  | o :: os => match o with Add i => item_ok F i | _ => True end /\ legal os (left_over o F)
  end.

Lemma map_fms xs : map i_fm (map snd xs) = all_fms xs.
Proof. unfold all_fms. by rewrite map_map. Qed.

Lemma filter_mid ys x zs v : NoDup (all_fms (ys ++ x :: zs)) -> i_fm (snd x) = v ->
  filter (fun i => i_fm i <> v) (map snd (ys ++ x :: zs)) = map snd (ys ++ zs).
Proof.
  intros Hnd Hx. rewrite all_fms_app in Hnd. cbn in Hnd. apply NoDup_app in Hnd as (_ & Hdis & Hnd).
  apply NoDup_cons in Hnd as [Hni _]. fold (all_fms zs) in Hni. subst v.
  assert (Hkeep : forall ws : list node, (i_fm x.2 ∉ all_fms ws) -> filter (fun i => i_fm i <> i_fm x.2) (map snd ws) = map snd ws).
  { intros ws Hws. apply filter_all, Forall_forall. intros i Hi Heq. apply Hws. rewrite <- map_fms, <- Heq.
    by apply list_elem_of_fmap_2. }
  rewrite !map_app, filter_app. cbn [map]. rewrite filter_cons, decide_False by (intros Hne; by apply Hne).
  rewrite !Hkeep; [done|done|]. intros Hin. eapply Hdis; [exact Hin|]. by left.
Qed.

Section refinement.
Context (env : environment ntfE).

Lemma exec_post o s xs tr :
  repr s xs -> mafSpiNtfFmVersion s = MafOamSpiNotificationFm_4 -> legal [o] (rest (mem s) xs) ->
  post (exec env o) (s, tr) (fun r c => exists xs', (r, map snd xs') = spec o (map snd xs) /\ repr (fst c) xs' /\
    rest (mem (fst c)) xs' = left_over o (rest (mem s) xs) /\ mafSpiNtfFmVersion (fst c) = MafOamSpiNotificationFm_4)
    (fun w => w = Aborted).
Proof.
  intros Hr Hv [Hlegal _]. destruct o as [i|t v|]; cbn [exec left_over].
  - post_step. eapply post_mono; [by apply addNotValue4_post| |done]. intros ne c (Hr' & Hrest & Hver). post_step.
    exists (xs ++ [(ne, i)]). rewrite map_app. split_and!; [done|done|done|congruence].
  - unfold doneWithValue_V4. post_step. unfold doneWithValue. apply locked_post. intros tr'. fold (known t).
    assert (Hsame : forall rv, spec (Done t v) (map snd xs) = (Some rv, map snd xs) ->
      sat (mret rv : V MafReturnT) (s, tr') (fun a c => forall tr'',
        post (mret (Some a) : V (option MafReturnT)) (c.1, tr'') (fun r c => exists xs', (r, map snd xs') = spec (Done t v) (map snd xs) /\ repr c.1 xs' /\
          rest (mem c.1) xs' = rest (mem s) xs /\ mafSpiNtfFmVersion c.1 = MafOamSpiNotificationFm_4) (fun w => w = Aborted))).
    { intros rv Hspec. apply sat_ret. intros tr''. post_step. exists xs. cbn [fst]. rewrite Hspec. split_and!; done. }
    destruct v as [v|]; [|by apply Hsame]. destruct (known t) eqn:Ek; [|by apply Hsame; cbn; rewrite Ek].
    eapply done_body_sat; [exact Hr|exact Hv| |].
    + intros Hni. destruct (Hsame MafNotExist) as (a & c & Hm & HQ).
      { cbn. by rewrite Ek, bool_decide_false by (by rewrite map_fms). }
      injection Hm as <- <-. exact HQ.
    + intros ys x zs s' -> Hx Hr' Hrest Hver tr''. post_step. exists (ys ++ zs). cbn [fst]. split_and!; [|done|done|congruence].
      cbn. rewrite Ek, bool_decide_true by (rewrite map_fms, <- Hx; apply elem_all_fms; set_solver).
      by rewrite filter_mid by (done || by destruct Hr).
  - post_step. eapply post_mono; [by apply cleanVlist4_post| |done]. intros [] c Hc. post_step.
    exists []. rewrite Hc. cbn [mem]. rewrite rest_nil. split_and!; [done|apply repr_empty|done|done].
Qed.

(** C6. Refinement.  Whatever COM and the component do with notifications in
    the version of the interface that is opened, the linked list behaves as the
    plain list of notifications: every notification is given back at most once,
    an unknown one is refused, closing gives back all of them; and the memory
    besides the list is exactly what it was, less the notifications that were
    sent: nothing leaks, nothing is freed twice, and no freed block is read
    (such an access would be an exit other than [Aborted], which only a mutex
    or an allocation that fails causes). *)
Theorem value_list_refines os s xs tr :
  repr s xs -> mafSpiNtfFmVersion s = MafOamSpiNotificationFm_4 -> legal os (rest (mem s) xs) ->
  post (exec_all env os) (s, tr) (fun rs c => exists xs', (rs, map snd xs') = spec_all os (map snd xs) /\ repr (fst c) xs' /\
    rest (mem (fst c)) xs' = foldl (fun F o => left_over o F) (rest (mem s) xs) os) (fun w => w = Aborted).
Proof.
  revert s xs tr. induction os as [|o os IH]; intros s xs tr Hr Hv Hlegal.
  - cbn [exec_all]. post_step. exists xs. done.
  - destruct Hlegal as [Ho Hos]. cbn [exec_all spec_all foldl]. post_step.
    eapply post_mono; [apply exec_post; [exact Hr|exact Hv|by split]| |done].
    intros r [s1 tr1] (xs1 & Hspec & Hr1 & Hrest1 & Hv1). cbn [fst] in *. post_step. rewrite <- Hspec.
    eapply post_mono; [apply IH; [exact Hr1|exact Hv1|by rewrite Hrest1]| |done].
    intros rs [s2 tr2] (xs2 & Hspec2 & Hr2 & Hrest2). cbn [fst] in *. post_step. exists xs2. rewrite <- Hspec2.
    split_and!; [done|done|by rewrite Hrest2, Hrest1].
Qed.
End refinement.

(** Two notifications, one with additional information, in a memory of their own. *)
Definition demo_mem : Mem :=
  MkMem ∅ {[ 0%nat := MkFm4 (Some 0%nat) 193 65537 5 None 1 (Some 0%nat) 1; 1%nat := MkFm4 (Some 1%nat) 193 65538 6 (Some 2%nat) 2 None 0 ]}
    ∅ {[ 0%nat := "ManagedElement=1"; 1%nat := "ManagedElement=2"; 2%nat := "high"; 3%nat := "uuid"; 4%nat := "x" ]}%string
    {[ 0%nat := [(Some 3%nat, Some 4%nat)] ]} ∅.
Definition demo_item0 : item := MkItem 0%nat [0%nat] (Some 0%nat) [(Some 3%nat, Some 4%nat)].
Definition demo_item1 : item := MkItem 1%nat [1%nat; 2%nat] None [].
Definition demo_values : Values := MkValues demo_mem MafOamSpiNotificationFm_4 None None.
Definition demo_ntf : environment ntfE := fun R tr e =>
  match e in ntfE R return R with
  | mutex_lock _ => 0 | mutex_unlock _ => 0 | malloc => true
  | saNtfSelectionObjectGet => (SA_AIS_OK, 7) | filterAllocate _ => (SA_AIS_OK, 8)
  | saNtfNotificationReadInitialize _ _ _ _ => (SA_AIS_OK, 9)
  | saNtfNotificationReadNext _ => (SA_AIS_ERR_NOT_EXIST, MkNotification SA_NTF_TYPE_ALARM 0 (MkHeader "" "" 0 0 0 0 0 0 None []) 0 None no_change)
  | saNtfPtrValGet _ _ => (SA_AIS_OK, "v"%string) | saNtfPtrValAllocate _ _ => (SA_AIS_OK, 0)
  | saNtfAlarmNotificationAllocate _ _ => (SA_AIS_OK, 0)
  | convertTo3Gpp n => Some n | convertToImm n => Some n | removeMOMPrefix n => (0, 0, n)
  | formatAdditionalText _ _ _ _ => None 
  | saImmOmAccessorGet_2 _ _ => (SA_AIS_OK, []) | saImmOmSearchNext_2 => (SA_AIS_ERR_NOT_EXIST, (""%string, []))
  | getInterface => (MafOk, true) | registerProducer => (MafOk, 1) | registerConsumer => (MafOk, 2)
  | addProducerEvent _ _ | removeProducerEvent _ _ | unregisterProducer _ | unregisterConsumer _
  | addSubscription _ _ | removeSubscription _ _ => MafOk
  | saNtfInitialize | saNtfFinalize | saNtfDispatch | saNtfNotificationFilterFree _ | saNtfNotificationSubscribe _ _
  | saNtfNotificationUnsubscribe _ | saNtfNotificationFree _ | saNtfNotificationSend _ _ | saImmOmInitialize
  | saImmOmAccessorInitialize | saImmOmSearchInitialize_2 _ => SA_AIS_OK
  | poll_setcallback _ | pthread_create | pthread_detach | read_pipe => 0
  | usleep _ | saNtfNotificationReadFinalize _ | saImmOmFinalize | saImmOmAccessorFinalize | saImmOmSearchFinalize
  | poll_unsetcallback _ | start_CmEventHandler | stop_CmEventHandler | notify _ _ _ _ => ()
  | notify_cm _ _ _ _ _ => [] | abandon_producer _ => MafOk | regcomp _ | regexec _ _ | isNotified _ _ _ => true
  | clock_gettime => Some (1, 5) | isStructAttribute _ _ => false | getStructAttributeName _ _ => Some "s"%string
  | fillStructMembers _ _ => (false, MkAvc 14 None []) | getTypeForAttribute _ _ | getTypeForStructMemberAttribute _ _ _ => 9
  | getClassName _ => Some "c"%string | ImmRdn2MOTop r => r
  end.

Definition demo_ops : list operation :=
  [Add demo_item0; Add demo_item1; Done None (Some 0%nat); Done None (Some 0%nat); Done None None; Clean].

(** What the operations answer, and that the memory is empty afterwards. *)
Example demo_run :
  (let '(o, (s, _)) := exec_all demo_ntf demo_ops (demo_values, []) in (o, mem s)) =
  (Ret [None; None; Some MafOk; Some MafNotExist; Some MafFailure; None], MkMem ∅ ∅ ∅ ∅ ∅ ∅).
Proof. vm_compute. reflexivity. Qed.

Ltac live_texts := intros p Hp; repeat (apply elem_of_cons in Hp as [->|Hp]; [vm_compute; eauto|]); by apply elem_of_nil in Hp.
Lemma demo_item0_ok : item_ok demo_mem demo_item0.
Proof. split; cbn; [by eexists|done|live_texts|]. apply (bool_decide_unpack _). vm_compute. done. Qed.
Lemma demo_item1_ok : item_ok (drop demo_item0 demo_mem) demo_item1.
Proof. split; cbn; [by eexists|done|live_texts|]. apply (bool_decide_unpack _). vm_compute. done. Qed.
Lemma demo_legal : legal demo_ops (rest (mem demo_values) []).
Proof. rewrite rest_nil. split; [apply demo_item0_ok|split; [apply demo_item1_ok|repeat split]]. Qed.

Lemma value_list_refines_witness :
  post (exec_all demo_ntf demo_ops) (demo_values, []) (fun rs c => exists xs', (rs, map snd xs') = spec_all demo_ops [] /\ repr (fst c) xs' /\
    rest (mem (fst c)) xs' = foldl (fun F o => left_over o F) (rest (mem demo_values) []) demo_ops) (fun w => w = Aborted).
Proof. apply (value_list_refines demo_ntf demo_ops demo_values []); [apply repr_empty|done|apply demo_legal]. Defined.
