(* ===== verification/NtfInfo.v ===== *)
(** * Notifications: additional information, names and UUIDs ([ntf/ComSANtf.c])

    Reading the additional information of an OpenSAF notification, copying it
    to the structure for COM ([copyAdditionalInfo]), the list of UUIDs that is
    appended to the text ([getUUIDFromAdditionalInfo]), and the name of the
    alarming object ([convertTo3GPPDN]). *)
From Stdlib Require Import ZArith Lia.
From stdpp Require Import base gmap list strings.
From S2P Require Import Prelude Codes NtfData NtfValues.

#[local] Open Scope string_scope.
Open Scope Z_scope.

Definition UUID_LENGTH : nat := 36.
Definition UUID_ADDTEXT_HEADER : string := ";uuid:".
Definition ERICSSON_VENDOR_ID : Z := 193.
Definition UUID : Z := 99.

(** ** Lengths of names ([utils/saname_utils.cc]) *)
Definition SA_MAX_UNEXTENDED_NAME_LENGTH : nat := 256.
Definition MAX_DN_LENGTH : nat := 2048.
Definition saNameMaxLen (bExtendedNameEnabled : bool) : nat :=
  if negb bExtendedNameEnabled then SA_MAX_UNEXTENDED_NAME_LENGTH else MAX_DN_LENGTH.
Definition saNameMaxLenNtf (bExtendedNameEnabled : bool) : nat :=
  if negb bExtendedNameEnabled then (SA_MAX_UNEXTENDED_NAME_LENGTH + 1)%nat else MAX_DN_LENGTH.

Section info.
Context (env : environment ntfE) (bExtendedNameEnabled : bool) (uuid_cfg_flag : UuidCfg).

Abbreviation Fm4 := MafOamSpiNotificationFmStruct_4T.

(** [strdup] *)
Definition strdup (s : string) : V (option ptr) := allocate env s.

(** A string that a function outside the file has allocated. *)
Definition received (o : option string) : V (option ptr) :=
  match o with
  | None => mret None
  | Some t => s ← get; let p := fresh (dom (texts (mem s))) in write p t ;; mret (Some p)
  end.

(** Writing a field of the structure for COM. *)
Definition update_fm (cn : ptr) (f : Fm4 -> Fm4) : V () :=
  b ← load (Some cn); store (Some cn) (f b).

(** The text, and the block to free when it was allocated for the caller. *)
Definition getAdditionalInfoName (handle : Z) (nextAddInfo : SaNtfAdditionalInfoT) : V (option string * option ptr) :=
  match infoType nextAddInfo with
  | SA_NTF_VALUE_STRING =>
      r ← call env (saNtfPtrValGet handle (infoValue nextAddInfo));
      mret (if bool_decide (fst r = SA_AIS_OK) then (Some (snd r), None) else (None, None))
  | SA_NTF_VALUE_LDAP_NAME =>
      r ← call env (saNtfPtrValGet handle (infoValue nextAddInfo));
      if bool_decide (fst r = SA_AIS_OK) then
        name ← call env (convertTo3Gpp (snd r));
        block ← received name;
        mret (name, block)
      else mret (None, None)
  | SA_NTF_VALUE_other _ => mret (None, None)
  end.

(** A UUID of an Ericsson notification. *)
Definition is_uuid (i : SaNtfAdditionalInfoT) : bool :=
  bool_decide (infoId i = UUID) && bool_decide (infoType i = SA_NTF_VALUE_STRING).
Definition isUUIDAlarm (nh : SaNtfNotificationHeaderT) (i : SaNtfAdditionalInfoT) : bool :=
  bool_decide (infoId i = UUID) && bool_decide (vendorId nh = ERICSSON_VENDOR_ID) && bool_decide (infoType i = SA_NTF_VALUE_STRING).
(** What goes to the text does not go to the additional information. *)
Definition to_text (nh : SaNtfNotificationHeaderT) (i : SaNtfAdditionalInfoT) : bool :=
  bool_decide (uuid_cfg_flag = UuidMapValueToAddText) && isUUIDAlarm nh i.

(** ** [copyAdditionalInfo] *)
Definition set_entry (cn : ptr) (i : nat) (f : FmInfo -> FmInfo) : V () :=
  b ← load (B := Fm4) (Some cn);
  arr ← load (B := list FmInfo) (additionalInfoArr b);
  e ← of_option BadPointer (arr !! i);
  store (additionalInfoArr b) (<[i := f e]> arr).

Definition copy_entry (nh : SaNtfNotificationHeaderT) (handle : Z) (cn : ptr) (i : SaNtfAdditionalInfoT) (iComAddInfo : nat) : V () :=
  name ← strdup (if bool_decide (uuid_cfg_flag = UuidMapToAddInfoName) && isUUIDAlarm nh i then "uuid" else "");
  set_entry cn iComAddInfo (fun e => (name, snd e)) ;;
  r ← getAdditionalInfoName handle i;
  match fst r with
  | Some strValue =>
      value ← strdup strValue;
      set_entry cn iComAddInfo (fun e => (fst e, value)) ;;
      when (bool_decide (infoType i = SA_NTF_VALUE_LDAP_NAME)) (free string (snd r))
  | None =>
      value ← strdup "";
      set_entry cn iComAddInfo (fun e => (fst e, value))
  end.

Fixpoint copy_entries (nh : SaNtfNotificationHeaderT) (handle : Z) (cn : ptr) (l : list SaNtfAdditionalInfoT) (iComAddInfo : nat) : V () :=
  match l with
  | [] => mret ()
  | i :: l =>
      if negb (to_text nh i) then
        copy_entry nh handle cn i iComAddInfo ;; copy_entries nh handle cn l (S iComAddInfo)
      else copy_entries nh handle cn l iComAddInfo
  end.

Definition set_size (n : Z) (f : Fm4) : Fm4 := set_info (additionalInfoArr f) n f.
Definition set_arr (o : option ptr) (f : Fm4) : Fm4 := set_info o (additionalInfo_size f) f.

Definition copyAdditionalInfo (nh : SaNtfNotificationHeaderT) (handle : Z) (cn : ptr) : V () :=
  update_fm cn (set_size 0) ;;
  when (bool_decide (0 < length (additionalInfo nh))%nat)
    (let iNumUUIDInfo := length (filter (fun i => to_text nh i = true) (additionalInfo nh)) in
     let size := Z.of_nat (length (additionalInfo nh)) - Z.of_nat iNumUUIDInfo in
     update_fm cn (set_size size) ;;
     if bool_decide (0 < size) then
       arr ← allocate env (replicate (Z.to_nat size) ((None, None) : FmInfo));
       update_fm cn (set_arr arr) ;;
       copy_entries nh handle cn (additionalInfo nh) 0
     else update_fm cn (set_arr None)).

(** ** [getUUIDFromAdditionalInfo] *)

(** The loop that writes the UUIDs, each followed by a comma, into a buffer of
    [room] bytes after the header; [written] is what is there already. *)
Fixpoint write_uuids (handle : Z) (room : nat) (l : list SaNtfAdditionalInfoT) (written : string) : V string :=
  match l with
  | [] => mret written
  | i :: l =>
      if is_uuid i then
        r ← getAdditionalInfoName handle i;
        match fst r with
        | Some strValue =>
            if (String.length strValue <=? UUID_LENGTH)%nat then
              if (String.length written + String.length strValue + 1 <=? room)%nat then
                write_uuids handle room l (written +:+ strValue +:+ ",")
              else exit BadPointer
            else write_uuids handle room l written
        | None => write_uuids handle room l written
        end
      else write_uuids handle room l written
  end.

Definition getUUIDFromAdditionalInfo (nh : SaNtfNotificationHeaderT) (handle : Z) : V (option ptr) :=
  if bool_decide (uuid_cfg_flag = UuidMapValueToAddText) && bool_decide (vendorId nh = ERICSSON_VENDOR_ID)
     && bool_decide (0 < length (additionalInfo nh))%nat
  then
    let iNumUUIDInfo := length (filter (fun i => is_uuid i = true) (additionalInfo nh)) in
    if bool_decide (0 < iNumUUIDInfo)%nat then
      retUUIDs ← allocate env "";
      match retUUIDs with
      | None => mret None
      | Some _ =>
          written ← write_uuids handle (iNumUUIDInfo * (UUID_LENGTH + 1)) (additionalInfo nh) "";
          if bool_decide (written <> "") then
            store retUUIDs (UUID_ADDTEXT_HEADER +:+ String.substring 0 (String.length written - 1) written) ;;
            mret retUUIDs
          else free string retUUIDs ;; mret None
      end
    else mret None
  else mret None.

(** ** [convertTo3GPPDN] *)

(** The name without its prefix is copied with [strncpy], at most four bytes
    less than the buffer, and terminated where the whole name ends: a byte that
    was not written may then be part of the string. *)
Definition strip_3GPP {S} (no : string) : M ntfE S string :=
  let max := saNameMaxLenNtf bExtendedNameEnabled in
  let n := (String.length no - 4)%nat in
  if (n <=? max - 5)%nat then mret (String.substring 4 n no)
  else if (n <? max)%nat then exit Undefined else exit BadPointer.

(** The name for COM, [None] when there is no memory. *)
Definition convertTo3GPPDN (no : string) : V (option ptr) :=
  if (4 <=? String.length no)%nat && bool_decide (String.substring 0 4 no = "3GPP") then
    dn ← allocate env "";
    match dn with
    | None => mret None
    | Some _ => t ← strip_3GPP no; store dn t ;; mret dn
    end
  else
    r ← call env (convertTo3Gpp no);
    received r.
End info.
