(* ===== verification/NtfInfoProps.v ===== *)
(** * Notifications: additional information, UUIDs and names are copied right

    The structure for COM is built in a memory [F] that nothing else of the
    construction touches: [join F p f es T] is [F] with the structure [f] at
    [p], its array of additional information [es] and its texts [T].  The
    lemmas follow [NtfInfo]. *)
From Stdlib Require Import ZArith Lia.
From stdpp Require Import base gmap list strings.
From S2P Require Import Prelude Codes NtfData NtfValues NtfValueFacts NtfInfo.

Open Scope Z_scope.

Definition join (F : Mem) (p : ptr) (f : MafOamSpiNotificationFmStruct_4T) (es : list FmInfo) (T : gmap ptr string) : Mem :=
  MkMem (values F) (<[p := f]> (fms F)) (fms_2 F) (T ∪ texts F)
    (match additionalInfoArr f with Some a => <[a := es]> (infos F) | None => infos F end) (alarms F).

(** The blocks are not those of [F], and the texts are exactly the ones the
    structure, its entries and the loose pointers [ls] refer to, once each. *)
Record fits (F : Mem) (p : ptr) (f : MafOamSpiNotificationFmStruct_4T) (es : list FmInfo) (ls : list ptr) (T : gmap ptr string) : Prop := MkFits {
  f_fm : fms F !! p = None;
  f_disj : T ##ₘ texts F;
  f_arr : match additionalInfoArr f with Some a => infos F !! a = None | None => es = [] end;
  f_nodup : NoDup (ls ++ opt (dn f) ++ opt (additionalText f) ++ info_texts es);
  f_dom : forall q, is_Some (T !! q) <-> q ∈ ls ++ opt (dn f) ++ opt (additionalText f) ++ info_texts es
}.

(** What an entry says. *)
Definition entry_view (T : gmap ptr string) (e : FmInfo) : option string * option string := (fst e ≫= (T !!.), snd e ≫= (T !!.)).

Lemma fits_fresh F p f es ls T q : fits F p f es ls T -> T !! q = None -> q ∉ ls ++ opt (dn f) ++ opt (additionalText f) ++ info_texts es.
Proof. intros [_ _ _ _ Hdom] Hq Hin. apply Hdom in Hin as [? ?]. congruence. Qed.

Lemma union_none (T R : gmap ptr string) q : (T ∪ R) !! q = None -> T !! q = None /\ R !! q = None.
Proof. by rewrite lookup_union_None. Qed.

(** A new text becomes a loose one. *)
Lemma fits_loose F p f es ls T q t : fits F p f es ls T -> T !! q = None -> texts F !! q = None ->
  fits F p f es (q :: ls) (<[q := t]> T).
Proof.
  intros Hfit HT HF. pose proof (fits_fresh _ _ _ _ _ _ _ Hfit HT) as Hni. destruct Hfit as [? ? ? Hnd Hdom]. split; [done| |done| |].
  - by apply map_disjoint_insert_l_2.
  - rewrite <- app_comm_cons. by apply NoDup_cons.
  - intros k. rewrite <- app_comm_cons, elem_of_cons, <- Hdom. destruct (decide (k = q)) as [->|Hne].
    + rewrite lookup_insert_eq. split; [by left|eauto].
    + rewrite lookup_insert_ne by done. split; [by right|by intros [?|?]].
Qed.

(** A loose text is freed. *)
Lemma fits_unloose F p f es ls T q : fits F p f es (q :: ls) T -> fits F p f es ls (delete q T).
Proof.
  intros [? ? ? Hnd Hdom]. rewrite <- app_comm_cons in Hnd. apply NoDup_cons in Hnd as [Hni Hnd]. split; [done| |done|done|].
  - by apply map_disjoint_delete_l.
  - intros k. destruct (decide (k = q)) as [->|Hne].
    + rewrite lookup_delete_eq. split; [by intros [? ?]|done].
    + rewrite lookup_delete_ne, Hdom, <- app_comm_cons, elem_of_cons by done. split; [by intros [?|?]|by right].
Qed.

(** The loose texts move into the structure. *)
Lemma fits_move F p f es ls f' es' ls' T :
  fits F p f es ls T ->
  match additionalInfoArr f' with Some a => infos F !! a = None | None => es' = [] end ->
  (ls' ++ opt (dn f') ++ opt (additionalText f') ++ info_texts es') ≡ₚ (ls ++ opt (dn f) ++ opt (additionalText f) ++ info_texts es) ->
  fits F p f' es' ls' T.
Proof.
  intros [? ? ? Hnd Hdom] Harr Hperm. split; [done|done|done|by rewrite Hperm|].
  intros q. rewrite Hdom. by rewrite Hperm.
Qed.

(** The finished structure is a notification that the value list accepts. *)
Lemma fits_item F p f es T : fits F p f es [] T -> additionalInfo_size f = Z.of_nat (length es) ->
  let i := MkItem p (opt (dn f) ++ opt (additionalText f)) (additionalInfoArr f) es in
  item_ok (join F p f es T) i /\ drop i (join F p f es T) = F.
Proof.
  intros [Hfm Hdisj Harr Hnd Hdom] Hsize. cbn in Hnd, Hdom.
  assert (Hi : i_texts (MkItem p (opt (dn f) ++ opt (additionalText f)) (additionalInfoArr f) es)
               = opt (dn f) ++ opt (additionalText f) ++ info_texts es) by (unfold i_texts; cbn; by rewrite <- app_assoc).
  cbn zeta. split.
  - split; rewrite ?Hi; [| | |exact Hnd].
    + exists f. cbn. by rewrite lookup_insert_eq.
    + cbn. destruct (additionalInfoArr f); [by rewrite lookup_insert_eq|done].
    + intros q Hq. apply Hdom in Hq as [t Ht]. exists t. cbn. by apply lookup_union_Some_l.
  - unfold drop, join. rewrite Hi. destruct F as [vs fs fs2 ts ars als]; cbn in *. f_equal.
    + by apply delete_insert_id.
    + apply map_eq. intros q. destruct (decide (q ∈ opt (dn f) ++ opt (additionalText f) ++ info_texts es)) as [Hq|Hq].
      * rewrite lookup_deletes_in by done. symmetry. apply Hdom in Hq as [t Ht]. by eapply map_disjoint_Some_l.
      * rewrite lookup_deletes_out, lookup_union_r by (done || (apply eq_None_not_Some; by rewrite Hdom)). done.
    + destruct (additionalInfoArr f) as [a|]; [by apply delete_insert_id|done].
Qed.

(** ** Consistent services *)
Section services.
Context (env : environment ntfE) (ext : bool) (cfg : UuidCfg).
Context (answer : Z -> Z -> SaAisErrorT * string) (to3gpp : string -> option string).
Context (malloc_ok : forall tr, env _ tr malloc = true).
Context (get_ok : forall tr h v, env _ tr (saNtfPtrValGet h v) = answer h v).
Context (to3gpp_ok : forall tr n, env _ tr (convertTo3Gpp n) = to3gpp n).

Lemma strdup_sat F p f es ls T t s0 tr (Q : _ -> _ -> Prop) :
  fits F p f es ls T ->
  (forall q tr', T !! q = None -> texts F !! q = None ->
     fits F p f es (q :: ls) (<[q := t]> T) -> Q (Some q) (set_mem (join F p f es (<[q := t]> T)) s0, tr')) ->
  sat (strdup env t) (set_mem (join F p f es T) s0, tr) Q.
Proof using malloc_ok.
  intros Hfit HQ. unfold strdup, allocate. sat_step. sat_step. subst r. rewrite malloc_ok. sat_steps. cbv zeta. unfold write. sat_steps.
  set (q := fresh _). pose proof (is_fresh (dom (T ∪ texts F))) as Hq. fold q in Hq. apply not_elem_of_dom in Hq.
  apply union_none in Hq as [HT HF]. cbn. rewrite !set_mem_twice, insert_union_l. apply HQ; [done|done|by apply fits_loose].
Qed.

Lemma received_sat F p f es ls T o s0 tr (Q : _ -> _ -> Prop) :
  fits F p f es ls T ->
  (o = None -> Q None (set_mem (join F p f es T) s0, tr)) ->
  (forall t q, o = Some t -> T !! q = None -> texts F !! q = None ->
     fits F p f es (q :: ls) (<[q := t]> T) -> Q (Some q) (set_mem (join F p f es (<[q := t]> T)) s0, tr)) ->
  sat (received o) (set_mem (join F p f es T) s0, tr) Q.
Proof.
  intros Hfit Hnone Hsome. destruct o as [t|]; [|by apply sat_ret, Hnone]. unfold received. sat_steps. cbv zeta. unfold write. sat_steps.
  set (q := fresh _). pose proof (is_fresh (dom (T ∪ texts F))) as Hq. fold q in Hq. apply not_elem_of_dom in Hq.
  apply union_none in Hq as [HT HF]. cbn. rewrite !set_mem_twice, insert_union_l. eapply Hsome; [done|done|done|by apply fits_loose].
Qed.

Lemma free_loose_sat F p f es ls T q s0 tr (Q : _ -> _ -> Prop) :
  fits F p f es (q :: ls) T ->
  (fits F p f es ls (delete q T) -> Q () (set_mem (join F p f es (delete q T)) s0, tr)) ->
  sat (free string (Some q)) (set_mem (join F p f es T) s0, tr) Q.
Proof.
  intros Hfit HQ. assert (is_Some (T !! q)) as [t Ht] by (apply Hfit; rewrite <- app_comm_cons; by left).
  eapply sat_free_block; [cbn; by apply lookup_union_Some_l|]. cbn. rewrite !set_mem_twice.
  rewrite delete_union, (delete_id (texts F)) by (destruct Hfit as [_ Hd _ _ _]; by eapply map_disjoint_Some_l).
  by apply HQ, fits_unloose.
Qed.

Lemma update_fm_sat F p f g es ls T s0 tr (Q : _ -> _ -> Prop) :
  fits F p f es ls T -> additionalInfoArr (g f) = additionalInfoArr f ->
  Q () (set_mem (join F p (g f) es T) s0, tr) -> sat (update_fm p g) (set_mem (join F p f es T) s0, tr) Q.
Proof.
  intros Hfit Harr HQ. unfold update_fm. sat_step. eapply sat_load_block; [cbn; by rewrite lookup_insert_eq|].
  eapply sat_store_block; [cbn; by rewrite lookup_insert_eq|]. rewrite set_mem_twice. cbn.
  unfold join in HQ. rewrite Harr in HQ. by rewrite insert_insert_eq.
Qed.

Lemma set_entry_sat F p f es ls T a i e g s0 tr (Q : _ -> _ -> Prop) :
  fits F p f es ls T -> additionalInfoArr f = Some a -> es !! i = Some e ->
  Q () (set_mem (join F p f (<[i := g e]> es) T) s0, tr) ->
  sat (set_entry p i g) (set_mem (join F p f es T) s0, tr) Q.
Proof.
  intros Hfit Ha He HQ. unfold set_entry. sat_step. eapply sat_load_block; [cbn; by rewrite lookup_insert_eq|].
  rewrite Ha. sat_step. eapply sat_load_block; [cbn; rewrite Ha; by rewrite lookup_insert_eq|].
  sat_step. eapply sat_of_option; [exact He|]. eapply sat_store_block; [cbn; rewrite Ha; by rewrite lookup_insert_eq|].
  rewrite set_mem_twice. unfold join in *. rewrite Ha in *. cbn. by rewrite insert_insert_eq.
Qed.
End services.

Lemma info_texts_mid d e r : info_texts (d ++ e :: r) ≡ₚ entry_texts e ++ info_texts (d ++ r).
Proof. unfold info_texts. rewrite !map_app, !concat_app. cbn. by rewrite Permutation_app_swap_app. Qed.

(** A loose text becomes part of an entry. *)
Lemma fits_entry F p f d e e' r q ls T :
  fits F p f (d ++ e :: r) (q :: ls) T -> entry_texts e' ≡ₚ q :: entry_texts e -> fits F p f (d ++ e' :: r) ls T.
Proof.
  intros Hfit He. eapply fits_move; [exact Hfit| |].
  - destruct Hfit as [_ _ Harr _ _]. destruct (additionalInfoArr f); [done|by destruct d].
  - rewrite !info_texts_mid, He, <- !app_comm_cons. by rewrite <- !Permutation_middle.
Qed.

Section services.
Context (env : environment ntfE) (ext : bool) (cfg : UuidCfg).
Context (answer : Z -> Z -> SaAisErrorT * string) (to3gpp : string -> option string).
Context (malloc_ok : forall tr, env _ tr malloc = true).
Context (get_ok : forall tr h v, env _ tr (saNtfPtrValGet h v) = answer h v).
Context (to3gpp_ok : forall tr n, env _ tr (convertTo3Gpp n) = to3gpp n).
Context (F : Mem) (p : ptr) (s0 : Values).

(** ** What the functions should say *)
Definition info_text (h : Z) (i : SaNtfAdditionalInfoT) : option string :=
  let r := answer h (infoValue i) in
  match infoType i with
  | SA_NTF_VALUE_STRING => if bool_decide (fst r = SA_AIS_OK) then Some (snd r) else None
  | SA_NTF_VALUE_LDAP_NAME => if bool_decide (fst r = SA_AIS_OK) then to3gpp (snd r) else None
  | SA_NTF_VALUE_other _ => None
  end.
Definition info_label (nh : SaNtfNotificationHeaderT) (i : SaNtfAdditionalInfoT) : string :=
  if bool_decide (cfg = UuidMapToAddInfoName) && isUUIDAlarm nh i then "uuid" else "".
Definition info_spec (nh : SaNtfNotificationHeaderT) (h : Z) (i : SaNtfAdditionalInfoT) : option string * option string :=
  (Some (info_label nh i), Some (default "" (info_text h i))).
Definition copied (nh : SaNtfNotificationHeaderT) : list SaNtfAdditionalInfoT :=
  filter (fun i => to_text cfg nh i = false) (additionalInfo nh).

Lemma getAdditionalInfoName_sat h i f es ls T tr (Q : _ -> _ -> Prop) :
  fits F p f es ls T ->
  (forall tr', infoType i <> SA_NTF_VALUE_LDAP_NAME \/ info_text h i = None ->
     Q (info_text h i, None) (set_mem (join F p f es T) s0, tr')) ->
  (forall t q tr', infoType i = SA_NTF_VALUE_LDAP_NAME -> info_text h i = Some t -> T !! q = None -> texts F !! q = None ->
     fits F p f es (q :: ls) (<[q := t]> T) -> Q (Some t, Some q) (set_mem (join F p f es (<[q := t]> T)) s0, tr')) ->
  sat (getAdditionalInfoName env h i) (set_mem (join F p f es T) s0, tr) Q.
Proof using get_ok to3gpp_ok.
  intros Hfit Hno Hyes. unfold getAdditionalInfoName, info_text in *. destruct (infoType i).
  - sat_step. sat_step. subst r. rewrite get_ok. sat_step. case_bool_decide; apply Hno; by left.
  - sat_step. sat_step. subst r. rewrite get_ok. case_bool_decide; [|sat_step; apply Hno; by right].
    sat_step. sat_step. subst r. rewrite to3gpp_ok. sat_step. eapply received_sat; [exact Hfit| |].
    + intros Hn. sat_step. rewrite Hn in Hno |- *. apply Hno. by right.
    + intros t q Ht HT HF Hf. sat_step. rewrite Ht. by apply Hyes.
  - sat_step. apply Hno. by left.
Qed.

Lemma insert_mid {A} (d : list A) e r e' : <[length d := e']> (d ++ e :: r) = d ++ e' :: r.
Proof. rewrite insert_app_r_alt by lia. by rewrite Nat.sub_diag. Qed.
Lemma lookup_mid {A} (d : list A) e r : (d ++ e :: r) !! length d = Some e.
Proof. rewrite lookup_app_r by lia. by rewrite Nat.sub_diag. Qed.

(** One entry, with its two texts. *)
Lemma copy_entry_sat nh h i f a d r ls T tr (Q : _ -> _ -> Prop) :
  fits F p f (d ++ (None, None) :: r) ls T -> additionalInfoArr f = Some a ->
  (forall q1 q2 tr', q1 <> q2 -> T !! q1 = None -> T !! q2 = None ->
     let T' := <[q2 := default "" (info_text h i)]> (<[q1 := info_label nh i]> T) in
     fits F p f (d ++ (Some q1, Some q2) :: r) ls T' -> Q () (set_mem (join F p f (d ++ (Some q1, Some q2) :: r) T') s0, tr')) ->
  sat (copy_entry env cfg nh h p i (length d)) (set_mem (join F p f (d ++ (None, None) :: r) T) s0, tr) Q.
Proof using malloc_ok get_ok to3gpp_ok.
  intros Hfit Ha HQ. unfold copy_entry. sat_step. eapply strdup_sat; [done|exact Hfit|].
  fold (info_label nh i). intros q1 tr1 HT1 HF1 Hfit1. sat_step.
  eapply set_entry_sat; [exact Hfit1|exact Ha|apply lookup_mid|]. rewrite insert_mid. cbn [snd fst].
  apply (fits_entry _ _ _ _ _ (Some q1, None)) in Hfit1; [|done].
  assert (Hval : forall q3 tr3, (<[q1 := info_label nh i]> T) !! q3 = None ->
    fits F p f (d ++ (Some q1, Some q3) :: r) ls (<[q3 := default "" (info_text h i)]> (<[q1 := info_label nh i]> T)) ->
    Q () (set_mem (join F p f (d ++ (Some q1, Some q3) :: r) (<[q3 := default "" (info_text h i)]> (<[q1 := info_label nh i]> T))) s0, tr3)).
  { intros q3 tr3 [HT3 Hne]%lookup_insert_None Hfit3. by apply HQ. }
  sat_step. eapply getAdditionalInfoName_sat; [exact Hfit1| |].
  - intros tr2 Hldap. cbn [fst]. destruct (info_text h i) as [t|] eqn:Et; cbn [fst].
    + sat_step. eapply strdup_sat; [done|exact Hfit1|]. intros q3 tr3 HT3 HF3 Hfit3. sat_step.
      eapply set_entry_sat; [exact Hfit3|exact Ha|apply lookup_mid|]. rewrite insert_mid. cbn [snd fst].
      rewrite bool_decide_false by (by destruct Hldap). apply sat_ret. apply Hval; [done|].
      eapply fits_entry; [exact Hfit3|]. cbn. by apply perm_swap.
    + sat_step. eapply strdup_sat; [done|exact Hfit1|]. intros q3 tr3 HT3 HF3 Hfit3.
      eapply set_entry_sat; [exact Hfit3|exact Ha|apply lookup_mid|]. rewrite insert_mid. cbn [snd fst].
      apply Hval; [done|]. eapply fits_entry; [exact Hfit3|]. cbn. by apply perm_swap.
  - intros t q tr2 Hty Et HT2 HF2 Hfit2. cbn [fst snd]. rewrite Et in Hval. cbn [default] in Hval.
    sat_step. eapply strdup_sat; [done|exact Hfit2|]. intros q3 tr3 HT3 HF3 Hfit3. sat_step.
    eapply set_entry_sat; [exact Hfit3|exact Ha|apply lookup_mid|]. rewrite insert_mid. cbn [snd fst].
    rewrite bool_decide_true by done. cbv [when]. apply lookup_insert_None in HT3 as [HT3 Hne].
    apply (fits_entry _ _ _ _ _ (Some q1, Some q3)) in Hfit3; [|cbn; by apply perm_swap].
    eapply free_loose_sat; [exact Hfit3|]. intros Hfit4.
    rewrite delete_insert_ne, delete_insert_eq, (delete_id (<[q1 := _]> T)) in Hfit4 |- * by done. by apply Hval.
Qed.

(** ** The additional information *)
Lemma entry_view_weaken T T' e : T ⊆ T' -> (forall q, q ∈ entry_texts e -> is_Some (T !! q)) -> entry_view T' e = entry_view T e.
Proof.
  intros Hsub Hin. assert (Hone : forall o : option ptr, (forall q, q ∈ opt o -> is_Some (T !! q)) -> o ≫= (T' !!.) = o ≫= (T !!.)).
  { intros [q|] Hq; [|done]. destruct (Hq q) as [t Ht]; [by left|]. cbn. rewrite Ht. by eapply lookup_weaken. }
  unfold entry_view, entry_texts in *. f_equal; apply Hone; intros q Hq; apply Hin; apply elem_of_app; auto.
Qed.

Lemma copy_entries_sat nh h l f a d ls T tr (Q : _ -> _ -> Prop) :
  fits F p f (d ++ replicate (length (filter (fun i => to_text cfg nh i = false) l)) (None, None)) ls T ->
  additionalInfoArr f = Some a ->
  (forall new T' tr', T ⊆ T' -> map (entry_view T') new = map (info_spec nh h) (filter (fun i => to_text cfg nh i = false) l) ->
     fits F p f (d ++ new) ls T' -> Q () (set_mem (join F p f (d ++ new) T') s0, tr')) ->
  sat (copy_entries env cfg nh h p l (length d))
    (set_mem (join F p f (d ++ replicate (length (filter (fun i => to_text cfg nh i = false) l)) (None, None)) T) s0, tr) Q.
Proof using malloc_ok get_ok to3gpp_ok.
  revert d T tr Q. induction l as [|i l IH]; intros d T tr Q Hfit Ha HQ; cbn [copy_entries].
  - apply sat_ret. by apply HQ.
  - rewrite filter_cons in Hfit, HQ |- *. destruct (to_text cfg nh i) eqn:Et; cbn [negb].
    + rewrite decide_False in Hfit, HQ |- * by done. by apply IH.
    + rewrite decide_True in Hfit, HQ |- * by done. cbn [length replicate map] in *.
      sat_step. eapply copy_entry_sat; [exact Hfit|exact Ha|]. intros q1 q2 tr1 Hne HT1 HT2 T1 Hfit1.
      rewrite (cons_middle _ d), app_assoc in Hfit1. rewrite (cons_middle _ d), app_assoc.
      replace (S (length d)) with (length (d ++ [(Some q1, Some q2)])) by (rewrite length_app; cbn; lia). eapply IH; [exact Hfit1|exact Ha|].
      intros new T' tr' Hsub Hview Hfit'. rewrite <- app_assoc in Hfit' |- *. eapply HQ; [| |exact Hfit'].
      * etrans; [|exact Hsub]. unfold T1. etrans; [by apply (insert_subseteq _ q1)|]. apply insert_subseteq. by rewrite lookup_insert_ne.
      * cbn [map app]. rewrite Hview. f_equal. unfold info_spec, entry_view. cbn. f_equal.
        -- eapply lookup_weaken; [|exact Hsub]. unfold T1. by rewrite lookup_insert_ne, lookup_insert_eq.
        -- eapply lookup_weaken; [|exact Hsub]. unfold T1. by rewrite lookup_insert_eq.
Qed.

Lemma filter_split {A} (f : A -> bool) l :
  (length (filter (fun x => f x = true) l) + length (filter (fun x => f x = false) l) = length l)%nat.
Proof. induction l as [|x l IH]; [done|]. rewrite !filter_cons. destruct (f x) eqn:E; repeat case_decide; cbn; lia || congruence. Qed.

Lemma copyAdditionalInfo_sat nh h f ls T tr (Q : _ -> _ -> Prop) :
  fits F p f [] ls T -> additionalInfoArr f = None ->
  (forall arr es T' tr', T ⊆ T' -> map (entry_view T') es = map (info_spec nh h) (copied nh) ->
     let f' := set_info arr (Z.of_nat (length es)) f in
     fits F p f' es ls T' -> Q () (set_mem (join F p f' es T') s0, tr')) ->
  sat (copyAdditionalInfo env cfg nh h p) (set_mem (join F p f [] T) s0, tr) Q.
Proof using malloc_ok get_ok to3gpp_ok.
  intros Hfit Ha HQ. unfold copyAdditionalInfo, copied in *. pose proof (filter_split (to_text cfg nh) (additionalInfo nh)) as Hsplit.
  assert (Hsz : forall n, fits F p (set_size n f) [] ls T) by (intros n; by eapply fits_move; [exact Hfit|cbn; by rewrite Ha|]).
  sat_step. eapply update_fm_sat; [exact Hfit|done|]. case_bool_decide as Hlen; cbv [when].
  - cbv zeta. sat_step. eapply update_fm_sat; [apply Hsz|done|].
    replace (Z.of_nat _ - Z.of_nat _) with (Z.of_nat (length (filter (fun i => to_text cfg nh i = false) (additionalInfo nh)))) by lia.
    set (n := length (filter (fun i => to_text cfg nh i = false) (additionalInfo nh))) in *. rewrite Nat2Z.id.
    change (set_size ?x (set_size 0 f)) with (set_size x f). case_bool_decide as Hn.
    + sat_step. unfold allocate. sat_step. sat_step. subst r. rewrite malloc_ok. sat_steps. cbv zeta. unfold write. sat_steps.
      set (a := fresh _). assert (Hfr : infos F !! a = None).
      { unfold a. cbn. rewrite Ha. apply not_elem_of_dom, is_fresh. }
      clearbody a. unfold update_fm.
      sat_step. eapply sat_load_block; [cbn; by rewrite lookup_insert_eq|]. eapply sat_store_block; [cbn; by rewrite lookup_insert_eq|].
      rewrite !set_mem_twice. cbn. rewrite Ha, insert_insert_eq.
      set (f' := set_info (Some a) (Z.of_nat n) f).
      assert (Hfit' : fits F p f' ([] ++ replicate n (None, None)) ls T).
      { eapply fits_move; [exact Hfit|exact Hfr|]. cbn. f_equiv. f_equiv. f_equiv.
        clear. induction n as [|n IH]; [done|]. by cbn. }
      eapply (copy_entries_sat nh h _ f' a []); [exact Hfit'|done|]. intros new T' tr' Hsub Hview Hfinal.
      assert (length new = n) as Hnew by (apply (f_equal length) in Hview; by rewrite !length_map in Hview).
      specialize (HQ (Some a) new T' tr' Hsub Hview). cbv zeta in HQ. rewrite Hnew in HQ. by apply HQ.
    + assert (Hn0 : n = 0%nat) by lia. eapply update_fm_sat; [apply Hsz|cbn; by rewrite Ha|].
      assert (Hnil : filter (fun i => to_text cfg nh i = false) (additionalInfo nh) = []) by (by apply length_zero_iff_nil).
      rewrite Hn0. specialize (HQ None [] T). cbv zeta in HQ. rewrite Hnil in HQ.
      apply HQ; [done|done|]. by eapply fits_move; [exact Hfit|done|].
  - assert (Hnil : additionalInfo nh = []) by (apply length_zero_iff_nil; lia). apply sat_ret.
    specialize (HQ None [] T). cbv zeta in HQ. rewrite Hnil in HQ. cbn in HQ.
    replace (set_size 0 f) with (set_info None 0 f) by (unfold set_size; by rewrite Ha).
    apply HQ; [done|done|]. by eapply fits_move; [exact Hfit|done|].
Qed.

(** ** UUIDs *)
Definition uuids (h : Z) (l : list SaNtfAdditionalInfoT) : list string :=
  omap (fun i => if is_uuid i then t ← info_text h i; if (String.length t <=? UUID_LENGTH)%nat then Some t else None else None) l.

Fixpoint join_comma (us : list string) : string :=
  match us with
  | [] => ""
  | [t] => t
  | t :: us => t +:+ "," +:+ join_comma us
  end.
Definition with_commas (us : list string) : string := foldr (fun t r => t +:+ "," +:+ r) "" us.

Lemma str_app_cons c a b : String c a +:+ b = String c (a +:+ b).
Proof. done. Qed.
Lemma str_app_nil (t : string) : t +:+ "" = t.
Proof. induction t as [|c t IH]; [done|]. by rewrite str_app_cons, IH. Qed.
Lemma str_app_assoc (a b c : string) : (a +:+ b) +:+ c = a +:+ (b +:+ c).
Proof. induction a as [|x a IH]; [done|]. by rewrite !str_app_cons, IH. Qed.
Lemma str_length_app (a b : string) : String.length (a +:+ b) = (String.length a + String.length b)%nat.
Proof. induction a as [|x a IH]; [done|]. rewrite str_app_cons. simpl. by rewrite IH. Qed.
Lemma substring_whole (a b : string) : String.substring 0 (String.length a) (a +:+ b) = a.
Proof. induction a as [|x a IH]; [by destruct b|]. rewrite str_app_cons. simpl. by rewrite IH. Qed.

Lemma with_commas_join us : us <> [] -> with_commas us = join_comma us +:+ ",".
Proof.
  induction us as [|t us IH]; [done|]. intros _. destruct us as [|u us]; [done|].
  cbn [with_commas foldr] in *. cbn [join_comma]. rewrite IH by done. by rewrite !str_app_assoc.
Qed.

Lemma write_uuids_sat h room l w s tr (Q : _ -> _ -> Prop) :
  (String.length w + length (filter (fun i => is_uuid i = true) l) * (UUID_LENGTH + 1) <= room)%nat ->
  (forall tr', Q (w +:+ with_commas (uuids h l)) (s, tr')) ->
  sat (write_uuids env h room l w) (s, tr) Q.
Proof using get_ok.
  revert w tr. induction l as [|i l IH]; intros w tr Hroom HQ; cbn [write_uuids].
  - apply sat_ret. specialize (HQ tr). cbn in HQ. by rewrite str_app_nil in HQ.
  - rewrite filter_cons in Hroom. cbn [uuids omap list_omap] in HQ. destruct (is_uuid i) eqn:Eu.
    + rewrite decide_True in Hroom by done. cbn [length] in Hroom. unfold is_uuid in Eu. apply andb_true_iff in Eu as [_ Ety].
      apply bool_decide_eq_true in Ety. unfold info_text in HQ. rewrite Ety in HQ. sat_step. unfold getAdditionalInfoName. rewrite Ety.
      sat_step. sat_step. subst r. rewrite get_ok. sat_step. case_bool_decide; cbn [fst snd].
      * cbn [mbind option_bind] in HQ. destruct (Nat.leb_spec (String.length (answer h (infoValue i)).2) UUID_LENGTH) as [Hle|Hgt].
        -- destruct (Nat.leb_spec (String.length w + String.length (answer h (infoValue i)).2 + 1) room) as [Hr|Hr]; [|lia].
           apply IH; [rewrite !str_length_app; cbn [String.length]; lia|].
           intros tr'. specialize (HQ tr'). cbn [with_commas foldr] in HQ. by rewrite !str_app_assoc.
        -- apply IH; [lia|exact HQ].
      * apply IH; [lia|exact HQ].
    + rewrite decide_False in Hroom by done. apply IH; [exact Hroom|exact HQ].
Qed.

(** The list of UUIDs for the text. *)
Definition uuid_list (nh : SaNtfNotificationHeaderT) (h : Z) : option string :=
  if bool_decide (cfg = UuidMapValueToAddText) && bool_decide (vendorId nh = ERICSSON_VENDOR_ID) then
    match uuids h (additionalInfo nh) with [] => None | us => Some (UUID_ADDTEXT_HEADER +:+ join_comma us) end
  else None.

Lemma uuids_none h l : filter (fun i => is_uuid i = true) l = [] -> uuids h l = [].
Proof.
  unfold uuids. induction l as [|i l IH]; [done|]. rewrite filter_cons. cbn. destruct (is_uuid i); [by rewrite decide_True by done|].
  rewrite decide_False by done. exact IH.
Qed.

Lemma comma_nonempty us : us <> [] <-> with_commas us <> "".
Proof. destruct us as [|t us]; [done|]. split; [|done]. intros _. cbn. by destruct t. Qed.

Lemma getUUIDFromAdditionalInfo_sat nh h f es ls T tr (Q : _ -> _ -> Prop) :
  fits F p f es ls T ->
  (forall tr', uuid_list nh h = None -> Q None (set_mem (join F p f es T) s0, tr')) ->
  (forall t q tr', uuid_list nh h = Some t -> T !! q = None -> texts F !! q = None ->
     fits F p f es (q :: ls) (<[q := t]> T) -> Q (Some q) (set_mem (join F p f es (<[q := t]> T)) s0, tr')) ->
  sat (getUUIDFromAdditionalInfo env cfg nh h) (set_mem (join F p f es T) s0, tr) Q.
Proof using malloc_ok get_ok.
  intros Hfit Hnone Hsome. unfold getUUIDFromAdditionalInfo, uuid_list in *.
  destruct (bool_decide (cfg = UuidMapValueToAddText) && bool_decide (vendorId nh = ERICSSON_VENDOR_ID)); cbn [andb] in *;
    [|by apply sat_ret, Hnone].
  case_bool_decide as Hlen; cbv zeta; [|apply sat_ret, Hnone; by destruct (additionalInfo nh); [|cbn in Hlen; lia]].
  case_bool_decide as Hn; [|apply sat_ret, Hnone; rewrite uuids_none; [done|by apply length_zero_iff_nil; lia]].
  sat_step. eapply (strdup_sat env); [done|exact Hfit|]. intros q tr1 HT HF Hfit1. sat_step.
  apply write_uuids_sat; [cbn; lia|]. intros tr2. change ("" +:+ ?x) with x.
  set (us := uuids h (additionalInfo nh)) in *. case_bool_decide as Hus.
  - apply comma_nonempty in Hus. sat_step. eapply sat_store_block; [cbn; by rewrite <- insert_union_l, lookup_insert_eq|]. sat_step.
    rewrite set_mem_twice. cbn. rewrite with_commas_join by done. rewrite str_length_app. cbn [String.length].
    rewrite Nat.add_sub, substring_whole.
    rewrite insert_union_l, insert_insert_eq. apply Hsome; [by destruct us|done|done|by apply fits_loose].
  - sat_step. eapply free_loose_sat; [exact Hfit1|]. intros _. sat_step. rewrite delete_insert_id by done.
    apply Hnone. destruct us; [done|]. exfalso. by apply (proj1 (comma_nonempty (s :: us))).
Qed.

(** ** The name *)
Definition dn_spec (no : string) : option string :=
  if (4 <=? String.length no)%nat && bool_decide (String.substring 0 4 no = "3GPP")
  then Some (String.substring 4 (String.length no - 4) no) else to3gpp no.

Lemma convertTo3GPPDN_sat no f es ls T tr (Q : _ -> _ -> Prop) :
  (String.length no < saNameMaxLenNtf ext)%nat -> fits F p f es ls T ->
  (forall tr', dn_spec no = None -> Q None (set_mem (join F p f es T) s0, tr')) ->
  (forall t q tr', dn_spec no = Some t -> T !! q = None -> texts F !! q = None ->
     fits F p f es (q :: ls) (<[q := t]> T) -> Q (Some q) (set_mem (join F p f es (<[q := t]> T)) s0, tr')) ->
  sat (convertTo3GPPDN env ext no) (set_mem (join F p f es T) s0, tr) Q.
Proof using malloc_ok to3gpp_ok.
  intros Hlen Hfit Hnone Hsome. unfold convertTo3GPPDN, dn_spec in *.
  destruct ((4 <=? String.length no)%nat && bool_decide (String.substring 0 4 no = "3GPP")).
  - sat_step. eapply (strdup_sat env); [done|exact Hfit|]. intros q tr1 HT HF Hfit1. sat_step.
    unfold strip_3GPP. destruct (Nat.leb_spec (String.length no - 4) (saNameMaxLenNtf ext - 5)) as [_|Hgt]; [|lia].
    sat_step. sat_step. eapply sat_store_block; [cbn; by rewrite <- insert_union_l, lookup_insert_eq|]. sat_step.
    rewrite set_mem_twice. cbn. rewrite insert_union_l, insert_insert_eq.
    apply Hsome; [done|done|done|by apply fits_loose].
  - sat_step. sat_step. subst r. rewrite to3gpp_ok. eapply received_sat; [exact Hfit| |].
    + intros Hn. by apply Hnone.
    + intros t q Ht HT HF Hfit1. by apply Hsome.
Qed.
End services.
