(* ===== verification/NtfPm.v ===== *)
(** * Notifications: threshold alarms of the PM service ([ntf/ComSANtf.c])

    An alarm of the PM service names the measurement type in its text and the
    job in its notifying object.  [convertPmThresholdHeader4] looks up in IMM
    which alarm to send to COM and which measurement reader it is about.

    The search in IMM goes on as long as IMM delivers objects; [objects] bounds
    the number of turns of that loop in the model. *)
From Stdlib Require Import ZArith Lia.
From stdpp Require Import base gmap list strings.
From S2P Require Import Prelude Codes NtfData NtfValues NtfInfo.

#[local] Open Scope string_scope.
Open Scope Z_scope.

Definition PM_THRESHOLD_FMALARMTYPE_DN : string := "fmAlarmTypeId=PMThresholdCrossedOrReached,fmAlarmModelId=PM,fmId=1".
Definition OAM_SA_RETRY_SLEEP : Z := 1000.

(** The text after position [n]. *)
Definition from (n : nat) (s : string) : string := String.substring n (String.length s - n) s.

(** [strncmp(s, t, strlen(t)) == 0] *)
Definition begins (t s : string) : bool := bool_decide (String.substring 0 (String.length t) s = t).

(** [resultBuffer] has [room] bytes; [None] is a write behind its end,
    [Some None] the result 0. *)
Definition parseDnValues (hayStack needle : string) (room maxlen : nat) : option (option string) :=
  match String.index 0 needle hayStack with
  | None => Some None
  | Some n =>
      let jStart := from (n + String.length needle) hayStack in
      let jStop := match String.index 0 "," jStart with Some k => k | None => String.length jStart end in
      let i := min jStop maxlen in
      if (i <? room)%nat then Some (Some (String.substring 0 i jStart)) else None
  end.

Section pm.
Context (env : environment ntfE) (bExtendedNameEnabled : bool) (uuid_cfg_flag : UuidCfg) (objects : nat).

Abbreviation Fm4 := MafOamSpiNotificationFmStruct_4T.
Abbreviation V := (M ntfE Values).

(** A name is cut at the size of the structure when long names are not enabled. *)
Definition saNameSet (value : string) : string :=
  if negb bExtendedNameEnabled then String.substring 0 SA_MAX_UNEXTENDED_NAME_LENGTH value else value.
(** The string of a long name is on the heap and is freed. *)
Definition saNameDelete_frees (name : string) : bool :=
  bExtendedNameEnabled && (SA_MAX_UNEXTENDED_NAME_LENGTH <=? String.length name)%nat.

(** ** The measurement reader *)

(** One attempt, and [retries] more. *)
Fixpoint search_initialize (root : string) (retries : nat) : V SaAisErrorT :=
  rc ← call env (saImmOmSearchInitialize_2 root);
  if bool_decide (rc = SA_AIS_OK) then mret rc
  else
    call env (usleep OAM_SA_RETRY_SLEEP) ;;
    match retries with
    | S retries => if is_try_again rc then search_initialize root retries else mret rc
    | O => mret rc
    end.

(** The attributes of one object: the reader it belongs to. *)
Fixpoint reader_of (objectName ecimMeasTypeDn : string) (attributes : list SaImmAttrValuesT_2) : V (option string) :=
  match attributes with
  | [] => mret None
  | oneAttr :: rest =>
      let next := reader_of objectName ecimMeasTypeDn rest in
      if begins "measurementTypeRef" (attrName oneAttr) then
        if bool_decide (attrValueType oneAttr = SA_IMM_ATTR_SANAMET) then
          match attrValues oneAttr with
          | ImmName v :: _ =>
              if begins ecimMeasTypeDn v then
                r ← of_option BadPointer (parseDnValues objectName "measurementReaderId="
                       (saNameMaxLen bExtendedNameEnabled) (saNameMaxLen bExtendedNameEnabled));
                match r with Some id => mret (Some id) | None => next end
              else next
          | _ => exit BadPointer
          end
        else next
      else next
  end.

Definition search_next : V (SaAisErrorT * (string * list SaImmAttrValuesT_2)) := call env saImmOmSearchNext_2.

(** [saImmOmSearchNext_2] again, at most twice, when IMM is busy. *)
Definition search_again (r : SaAisErrorT * (string * list SaImmAttrValuesT_2)) : V (SaAisErrorT * (string * list SaImmAttrValuesT_2)) :=
  if is_try_again (fst r) then
    call env (usleep OAM_SA_RETRY_SLEEP) ;;
    retry (fun r => is_try_again (fst r)) (call env (usleep OAM_SA_RETRY_SLEEP)) search_next 1
  else mret r.

Fixpoint search_objects (n : nat) (ecimMeasTypeDn : string) (r : SaAisErrorT * (string * list SaImmAttrValuesT_2)) : V (option ptr) :=
  if bool_decide (fst r = SA_AIS_OK) || is_try_again (fst r) then
    match n with
    | O => exit OutOfFuel
    | S n =>
        r ← search_again r;
        if bool_decide (fst r = SA_AIS_OK) then
          id ← reader_of (fst (snd r)) ecimMeasTypeDn (snd (snd r));
          match id with
          | Some id => call env saImmOmSearchFinalize ;; strdup env id
          | None => r ← search_next; search_objects n ecimMeasTypeDn r
          end
        else call env saImmOmSearchFinalize ;; mret None
    end
  else mret None.

Definition findThatEcimMeasReader (ecimMeasTypeDn theJobName : string) : V (option ptr) :=
  assert_c (bool_decide (theJobName <> "")) ;;
  let value := String.substring 0 (saNameMaxLen bExtendedNameEnabled - 1) ("pmJobId=" +:+ theJobName +:+ ",CmwPmpmId=1") in
  rc ← search_initialize (saNameSet value) 2;
  if bool_decide (rc = SA_AIS_OK) then
    r ← search_next; search_objects objects ecimMeasTypeDn r
  else mret None.

(** ** Reading attributes *)
Definition finalize_handles : V () := call env saImmOmAccessorFinalize ;; call env saImmOmFinalize.

Definition reInitializeBadHandler : V SaAisErrorT :=
  finalize_handles ;;
  retCode ← call env saImmOmInitialize;
  if bool_decide (retCode = SA_AIS_OK) then call env saImmOmAccessorInitialize else mret retCode.

Definition accessor_get (object : string) (names : list string) : V (SaAisErrorT * list SaImmAttrValuesT_2) :=
  call env (saImmOmAccessorGet_2 object names).

Definition getMOAttributesRetry (object : string) (names : list string) : V (MafReturnT * list SaImmAttrValuesT_2) :=
  r ← accessor_get object names;
  r ← (if bool_decide (fst r = SA_AIS_ERR_BAD_HANDLE) then
         rc ← reInitializeBadHandler;
         if bool_decide (rc = SA_AIS_OK) then accessor_get object names else mret r
       else mret r : V (SaAisErrorT * list SaImmAttrValuesT_2));
  r ← (if is_busy (fst r) then
         call env (usleep 1000) ;;
         retry (fun r => is_busy (fst r)) (call env (usleep 1000)) (accessor_get object names) (OAM_SA_NTF_MAX_RETRIES - 1)
       else mret r : V (SaAisErrorT * list SaImmAttrValuesT_2));
  mret (if bool_decide (fst r = SA_AIS_OK) then (MafOk, snd r) else (MafFailure, snd r)).

Definition direction_of (attributes : list SaImmAttrValuesT_2) (thresholdDirection : Z) : V Z :=
  match attributes with
  | [] => mret thresholdDirection
  | a :: _ =>
      if begins "thresholdDirection" (attrName a) then
        match attrValues a with
        | [] => mret thresholdDirection
        | ImmInt32 n :: _ => mret n
        | _ => exit BadPointer
        end
      else mret thresholdDirection
  end.

Definition getThresholdDirection (thePmJobName theMeasReaderId measTypeIMMDn : string) : V (MafReturnT * Z) :=
  block ← allocate env ("measurementReaderId=" +:+ theMeasReaderId +:+ ",pmJobId=" +:+ thePmJobName +:+ ",CmwPmpmId=1");
  block ← of_option BadPointer block;
  name ← load (Some block);
  r ← getMOAttributesRetry (saNameSet name) ["thresholdDirection"];
  if bool_decide (fst r <> MafOk) then free string (Some block) ;; mret (MafFailure, 3)
  else
    direction ← direction_of (snd r) 3;
    free string (Some block) ;;
    if direction =? 3 then
      r ← getMOAttributesRetry measTypeIMMDn ["thresholdDirection"];
      if bool_decide (fst r <> MafOk) then mret (MafFailure, direction)
      else direction ← direction_of (snd r) direction; mret (MafOk, direction)
    else mret (MafOk, direction).

(** ** The alarm to send *)

(** The DN of the alarm and whether it is the generic one. *)
Definition alarm_dn (oneAttrValue : SaImmAttrValuesT_2) : V (string * bool) :=
  match attrValues oneAttrValue with
  | [] => mret (saNameSet PM_THRESHOLD_FMALARMTYPE_DN, true)
  | ImmName v :: _ =>
      let n := saNameSet v in
      if bool_decide (n = "0") || bool_decide (n = "") then mret (saNameSet PM_THRESHOLD_FMALARMTYPE_DN, true)
      else mret (n, bool_decide (n = PM_THRESHOLD_FMALARMTYPE_DN))
  | _ => exit BadPointer
  end.

Definition uint32_value (a : SaImmAttrValuesT_2) : V Z :=
  match attrValues a with ImmUint32 n :: _ => mret n | _ => exit BadPointer end.

(** Major type, minor type and text; [None] when an attribute has the wrong type. *)
Fixpoint alarm_codes (l : list SaImmAttrValuesT_2) (majAlarm minAlarm : Z) (addText : option string) : V (option (Z * Z * option string)) :=
  match l with
  | [] => mret (Some (majAlarm, minAlarm, addText))
  | a :: l =>
      if begins "majorType" (attrName a) then
        if bool_decide (attrValueType a <> SA_IMM_ATTR_SAUINT32T) then mret None
        else n ← uint32_value a; alarm_codes l n minAlarm addText
      else if begins "minorType" (attrName a) then
        if bool_decide (attrValueType a <> SA_IMM_ATTR_SAUINT32T) then mret None
        else n ← uint32_value a; alarm_codes l majAlarm n addText
      else if bool_decide (attrValueType a <> SA_IMM_ATTR_SASTRINGT) then mret None
      else
        match attrValues a with
        | [] => alarm_codes l majAlarm minAlarm addText
        | ImmString t :: _ => alarm_codes l majAlarm minAlarm t
        | _ => exit BadPointer
        end
  end.

(** The text of the generic alarm. *)
Definition generic_text (n : SaNtfNotificationsT) (thePmJobName theMeasReaderId text : string) : V (MafReturnT * option ptr * option string) :=
  let nh := notificationHeader n in
  let ntfAddText := saNameSet text in
  r ← getThresholdDirection thePmJobName theMeasReaderId ntfAddText;
  if bool_decide (fst r <> MafOk) then mret (fst r, None, None)
  else if saNameDelete_frees ntfAddText then exit BadPointer
  else
    name ← call env (convertTo3Gpp ntfAddText);
    measTypeDn ← received name;
    measObjLdn ← allocate env (notificationObject nh);
    measObjLdn ← of_option BadPointer measObjLdn;
    let threshold := if bool_decide (notificationType n = SA_NTF_TYPE_SECURITY_ALARM) then None else thresholdInformation n in
    t ← call env (formatAdditionalText threshold name (snd r) (notificationObject nh));
    addText ← received t;
    free string measTypeDn ;; free string (Some measObjLdn) ;;
    mret (MafOk, addText, t).

(** The structure for COM, once the reader is known. *)
Definition fill_pm (n : SaNtfNotificationsT) (cn : ptr) (thePmJobName text : string) (generic : bool)
    (majAlarm minAlarm : Z) (addText : option string) (reader : ptr) : V MafReturnT :=
  let nh := notificationHeader n in
  theMeasReaderId ← load (Some reader);
  block ← allocate env ("ManagedElement=1,SystemFunctions=1,Pm=1,PmJob=" +:+ thePmJobName +:+ ",MeasurementReader=" +:+ theMeasReaderId
                        +:+ ":" +:+ notificationObject nh);
  update_fm cn (set_dn block) ;;
  match block with
  | None => finalize_handles ;; free string (Some reader) ;; mret MafNoResources
  | Some _ =>
      r ← (if generic then generic_text n thePmJobName theMeasReaderId text else mret (MafOk, None, addText)
           : V (MafReturnT * option ptr * option string));
      let '(ret, own, addText) := r in
      if bool_decide (ret <> MafOk) then finalize_handles ;; free string (Some reader) ;; mret ret
      else
        t ← (match addText with
             | Some t => if bool_decide (t <> "") then (if generic then mret own else strdup env t) else strdup env ""
             | None => strdup env ""
             end : V (option ptr));
        update_fm cn (set_text t) ;;
        free string (Some reader) ;;
        update_fm cn (set_eventTime (wrap_u 64 (nh_eventTime nh))) ;;
        update_fm cn (set_class majAlarm minAlarm) ;;
        copyAdditionalInfo env uuid_cfg_flag nh (notificationHandle n) cn ;;
        finalize_handles ;;
        mret MafOk
  end.

Definition convertPmThresholdHeader4 (n : SaNtfNotificationsT) (cn : ptr) : V MafReturnT :=
  let nh := notificationHeader n in
  let len := saNameMaxLenNtf bExtendedNameEnabled in
  job ← of_option BadPointer (parseDnValues (notifyingObject nh) "\,safPm=1,safJob=" len len);
  match job with
  | None => mret MafInvalidArgument
  | Some thePmJobName =>
      retCode ← retry is_busy (call env (usleep OAM_SA_RETRY_SLEEP)) (call env saImmOmInitialize) OAM_SA_NTF_MAX_RETRIES;
      if bool_decide (retCode <> SA_AIS_OK) then mret MafFailure
      else
        retCode ← retry is_try_again (call env (usleep 1000)) (call env saImmOmAccessorInitialize) OAM_SA_NTF_MAX_RETRIES;
        if bool_decide (retCode <> SA_AIS_OK) then call env saImmOmFinalize ;; mret MafFailure
        else
          text ← of_option BadPointer (nh_additionalText nh);
          ecimMeasurementTypeId ← strdup env text;
          if bool_decide (ecimMeasurementTypeId = None) || bool_decide (text = "") then
            finalize_handles ;; free string ecimMeasurementTypeId ;; mret MafInvalidArgument
          else
            let ecimMeasTypeDN := saNameSet text in
            r ← getMOAttributesRetry ecimMeasTypeDN ["fmAlarmType"];
            if bool_decide (fst r <> MafOk) then finalize_handles ;; free string ecimMeasurementTypeId ;; mret MafFailure
            else
              free string ecimMeasurementTypeId ;;
              oneAttrValue ← of_option AssertFailed (snd r !! 0%nat);
              if bool_decide (attrValueType oneAttrValue <> SA_IMM_ATTR_SANAMET) then finalize_handles ;; mret MafFailure
              else
                alarm ← alarm_dn oneAttrValue;
                r ← getMOAttributesRetry (fst alarm) ["majorType"; "minorType"; "additionalText"];
                if bool_decide (fst r <> MafOk) then finalize_handles ;; mret MafFailure
                else
                  assert_c (3 <=? length (snd r))%nat ;;
                  codes ← alarm_codes (take 3 (snd r)) 0 0 None;
                  match codes with
                  | None => finalize_handles ;; mret MafFailure
                  | Some (majAlarm, minAlarm, addText) =>
                      theMeasReaderId ← findThatEcimMeasReader ecimMeasTypeDN thePmJobName;
                      match theMeasReaderId with
                      | None => finalize_handles ;; mret MafFailure
                      | Some reader => fill_pm n cn thePmJobName text (snd alarm) majAlarm minAlarm addText reader
                      end
                  end
  end.
End pm.

Example parse_job : parseDnValues "safThreshold=1\,safPm=1,safJob=job1,safApp=x" "\,safPm=1,safJob=" 257 257 = Some (Some "job1").
Proof. vm_compute. reflexivity. Qed.
Example parse_none : parseDnValues "safApp=x" "\,safPm=1,safJob=" 257 257 = Some None.
Proof. vm_compute. reflexivity. Qed.
(** A value as long as the buffer is terminated behind its end. *)
Example parse_overrun : parseDnValues "a=1234,b" "a=" 4 4 = None.
Proof. vm_compute. reflexivity. Qed.
