(* ===== verification/NtfPmProps.v ===== *)
(** * Notifications: the handles of IMM are given back on every path

    The conversion of an alarm of the PM service opens an object manager handle
    and an accessor, loses and reopens them when IMM says they are bad, and
    leaves at fifteen places. *)
From Stdlib Require Import ZArith Lia.
From stdpp Require Import base gmap list strings.
From S2P Require Import Prelude Marks Codes NtfData NtfValues NtfInfo NtfPm.

Open Scope Z_scope.

(** ** Parsing *)
Lemma str_index_le n s1 s2 k : String.index n s1 s2 = Some k -> (k <= String.length s2)%nat.
Proof.
  revert n k. induction s2 as [|c s2 IH]; intros n k.
  - destruct n, s1; intros Hk; simplify_eq/=; lia.
  - assert (Htail : forall m, match String.index m s1 s2 with Some i => Some (S i) | None => None end = Some k ->
              (k <= String.length (String c s2))%nat).
    { intros m Hm. destruct (String.index m s1 s2) as [i|] eqn:E; [|done]. injection Hm as <-. apply IH in E. simpl. lia. }
    destruct n as [|n]; [|apply Htail]. cbn [String.index]. destruct (String.prefix s1 (String c s2)); [|apply Htail].
    intros [= <-]. lia.
Qed.

Lemma substring_length n m s : (String.length (String.substring n m s) <= String.length s - n)%nat.
Proof.
  revert n m. induction s as [|c s IH]; intros n m; [by destruct n, m|].
  destruct n as [|n]; [destruct m as [|m]|]; simpl; [lia| |].
  - specialize (IH 0%nat m). lia.
  - apply IH.
Qed.

(** A text shorter than the buffer cannot overrun it. *)
Lemma parseDnValues_in_bounds hayStack needle room maxlen :
  (String.length hayStack < room)%nat -> parseDnValues hayStack needle room maxlen <> None.
Proof.
  intros Hlen. unfold parseDnValues. destruct (String.index 0 needle hayStack) as [n|]; [|done].
  cbv zeta. set (js := from _ hayStack).
  assert (String.length js <= String.length hayStack)%nat as Hjs by (unfold js, from; etrans; [apply substring_length|lia]).
  assert (Hstop : (match String.index 0 "," js with Some k => k | None => String.length js end <= String.length hayStack)%nat).
  { destruct (String.index 0 "," js) eqn:E; [apply str_index_le in E; lia|done]. }
  destruct (Nat.ltb_spec (match String.index 0 "," js with Some k => k | None => String.length js end `min` maxlen) room); [done|lia].
Qed.

(** ** Handles *)
Inductive mark := OmOpen | OmClose | AccOpen | AccClose.
Definition handle_mark (e : event ntfE) : option mark :=
  match e with
  | Ev saImmOmInitialize rc => if bool_decide (rc = SA_AIS_OK) then Some OmOpen else None
  | Ev saImmOmAccessorInitialize rc => if bool_decide (rc = SA_AIS_OK) then Some AccOpen else None
  | Ev saImmOmFinalize _ => Some OmClose
  | Ev saImmOmAccessorFinalize _ => Some AccClose
  | _ => None
  end.

(** The number of open handles: object manager, accessor. *)
Definition turn (c : nat * nat) (m : mark) : nat * nat :=
  match m with
  | OmOpen => (S (fst c), snd c)
  | OmClose => (pred (fst c), snd c)
  | AccOpen => (fst c, S (snd c))
  | AccClose => (fst c, pred (snd c))
  end.
Definition open_handles (c : nat * nat) (l : list mark) : nat * nat := foldl turn c l.
Definition at_most_one (c : nat * nat) : Prop := (fst c <= 1 /\ snd c <= 1)%nat.

Abbreviation V := (M ntfE Values).
Abbreviation quiet := (silent handle_mark).

(** [counts P m Q]: from counts in [P], [m] leads to counts in [Q]. *)
Definition counts {A} (P : nat * nat -> Prop) (m : V A) (Q : A -> nat * nat -> Prop) : Prop :=
  forall s c, P c -> emits handle_mark m s (fun a _ l => Q a (open_handles c l)).

Lemma counts_bind {A B} P (m : V A) Q (k : A -> V B) R :
  counts P m Q -> (forall a, counts (Q a) (k a) R) -> counts P (m ≫= k) R.
Proof.
  intros Hm Hk s c Hc. apply emits_bind. eapply emits_mono; [by apply (Hm s c)|]. intros a s' l Hl.
  eapply emits_mono; [by apply (Hk a s' (open_handles c l))|]. intros b s'' l' Hl'.
  unfold open_handles in *. by rewrite foldl_app.
Qed.
Lemma counts_quiet {A} P (m : V A) : quiet m -> counts P m (fun _ => P).
Proof. intros Hm s c Hc. by apply Hm. Qed.
Lemma counts_ret {A} (P : nat * nat -> Prop) (a : A) (Q : A -> nat * nat -> Prop) : (forall c, P c -> Q a c) -> counts P (mret a) Q.
Proof. intros HQ s c Hc. apply emits_ret. by apply HQ. Qed.
Lemma counts_exit {A} P w (Q : A -> _ -> Prop) : counts P (exit w : V A) Q.
Proof. intros s c _. apply emits_exit. Qed.
Lemma counts_call (env : environment ntfE) {R} (e : ntfE R) (P : nat * nat -> Prop) (Q : R -> nat * nat -> Prop) :
  (forall r c, P c -> Q r (match handle_mark (Ev e r) with Some m => turn c m | None => c end)) -> counts P (call env e) Q.
Proof. intros HQ s c Hc. apply emits_call. intros r. specialize (HQ r c Hc). by destruct (handle_mark (Ev e r)). Qed.
(** A quiet part in front. *)
Lemma counts_skip {A B} P (m : V A) (k : A -> V B) R : quiet m -> (forall a, counts P (k a) R) -> counts P (m ≫= k) R.
Proof. intros Hm Hk. eapply counts_bind; [by apply counts_quiet|done]. Qed.

Definition none_open (c : nat * nat) : Prop := c = (0, 0)%nat.
Abbreviation keeps m := (counts at_most_one m (fun _ => at_most_one)).
Abbreviation closes m := (counts at_most_one m (fun _ => none_open)).

(** ** The parts that do not touch handles *)
Section pm.
Context (env : environment ntfE) (ext : bool) (cfg : UuidCfg) (objects : nat).

Lemma quiet_load {B} `{Block B} o : quiet (load o : V B).
Proof. unfold load. silence. Qed.
Lemma quiet_store {B} `{Block B} o (b : B) : quiet (store o b).
Proof. unfold store, write. apply silent_bind; [apply quiet_load|intros _]. silence. Qed.
Lemma quiet_allocate {B} `{Block B} (b : B) : quiet (allocate env b).
Proof. unfold allocate, write. silence. Qed.
Lemma quiet_free B `{Block B} o : quiet (free B o).
Proof. unfold free. destruct o; [|silence]. apply silent_bind; [apply quiet_load|intros _]. silence. Qed.
Lemma quiet_update p f : quiet (update_fm p f).
Proof. unfold update_fm. apply silent_bind; [apply quiet_load|intros ?; apply quiet_store]. Qed.
Lemma quiet_set_entry p i f : quiet (set_entry p i f).
Proof. unfold set_entry. repeat first [apply quiet_load|apply quiet_store|apply silent_bind; [|intros ?]|apply silent_of_option]. Qed.
Lemma quiet_received o : quiet (received o).
Proof. unfold received, write. silence. Qed.
Lemma retry_quiet {R} again (pause : V ()) (m : V R) n : quiet pause -> quiet m -> quiet (retry again pause m n).
Proof.
  intros Hp Hm. induction n as [|n IH]; rewrite retry_unfold; (apply silent_bind; [done|intros r]); destruct (again r);
    try apply silent_ret. apply silent_bind; [done|intros _; done].
Qed.

Ltac hush :=
  repeat first
    [ apply quiet_load | apply quiet_store | apply quiet_allocate | apply quiet_free | apply quiet_update | apply quiet_set_entry
    | apply quiet_received | apply retry_quiet | progress silence ].

Lemma quiet_info h i : quiet (getAdditionalInfoName env h i).
Proof. unfold getAdditionalInfoName. hush. Qed.
Lemma quiet_copy_entries nh h p l i : quiet (copy_entries env cfg nh h p l i).
Proof.
  revert i. induction l as [|a l IH]; intros i; cbn [copy_entries]; [hush|]. destruct (negb _); [|apply IH].
  apply silent_bind; [|intros _; apply IH]. unfold copy_entry, strdup. hush; apply quiet_info.
Qed.
Lemma quiet_copyAdditionalInfo nh h p : quiet (copyAdditionalInfo env cfg nh h p).
Proof. unfold copyAdditionalInfo. hush; apply quiet_copy_entries. Qed.

Lemma quiet_alarm_codes l maj min t : quiet (alarm_codes l maj min t).
Proof.
  revert maj min t. induction l as [|a l IH]; intros maj min t; cbn [alarm_codes];
    repeat first [progress hush | apply IH | progress unfold uint32_value].
Qed.
Lemma quiet_search_initialize root n : quiet (search_initialize env root n).
Proof. induction n as [|n IH]; cbn [search_initialize]; hush; apply IH. Qed.
Lemma quiet_reader_of o d l : quiet (reader_of ext o d l).
Proof. induction l as [|a l IH]; cbn [reader_of]; hush; apply IH. Qed.
Lemma quiet_search_objects n d r : quiet (search_objects env ext n d r).
Proof.
  revert r. induction n as [|n IH]; intros r; cbn [search_objects];
    repeat first [progress hush | apply IH | apply quiet_reader_of | progress unfold search_again, search_next, strdup].
Qed.
Lemma quiet_find d job : quiet (findThatEcimMeasReader env ext objects d job).
Proof.
  unfold findThatEcimMeasReader, assert_c, search_next. hush; first [apply quiet_search_initialize|apply quiet_search_objects].
Qed.

(** ** The parts that do *)
Lemma finalize_closes : closes (finalize_handles env).
Proof.
  unfold finalize_handles. eapply (counts_bind _ _ (fun _ c => c.1 <= 1 /\ c.2 = 0)%nat).
  - apply counts_call. intros [] [a b]. unfold at_most_one. cbn. lia.
  - intros []. apply counts_call. intros [] [a b]. unfold none_open. cbn. intros [Ha ->]. f_equal. lia.
Qed.

(** After the handles are given back, a result. *)
Lemma finalize_then {A} (k : () -> V A) : (forall a, quiet (k a)) -> closes (finalize_handles env ≫= k).
Proof. intros Hk. eapply counts_bind; [apply finalize_closes|]. intros []. by apply counts_quiet. Qed.

Lemma reInitialize_keeps : keeps (reInitializeBadHandler env).
Proof.
  unfold reInitializeBadHandler. eapply counts_bind; [apply finalize_closes|]. intros [].
  eapply (counts_bind _ _ (fun rc c => c.2 = 0 /\ c.1 = if bool_decide (rc = SA_AIS_OK) then 1 else 0)%nat).
  - apply counts_call. intros r c ->. cbn. by case_bool_decide.
  - intros rc. case_bool_decide.
    + apply counts_call. intros r [a b] [Hb Ha]. cbn in *. subst. unfold at_most_one. case_bool_decide; cbn; lia.
    + apply counts_ret. intros [a b] [Hb Ha]. cbn in *. subst. unfold at_most_one. cbn. lia.
Qed.

Lemma getMO_keeps o ns : keeps (getMOAttributesRetry env o ns).
Proof.
  unfold getMOAttributesRetry, accessor_get. apply counts_skip; [hush|]. intros r.
  eapply counts_bind.
  - case_bool_decide.
    + eapply counts_bind; [apply reInitialize_keeps|]. intros rc. apply counts_quiet. hush.
    + apply counts_quiet. hush.
  - intros r1. apply counts_quiet. hush.
Qed.

(** The first calls, retried while IMM is busy. *)
Lemma counts_retry_call again pause (e : ntfE SaAisErrorT) n P Q :
  quiet pause -> (forall r, again r = true -> handle_mark (Ev e r) = None) ->
  (forall r c, P c -> Q r (match handle_mark (Ev e r) with Some m => turn c m | None => c end)) ->
  counts P (retry again pause (call env e) n) Q.
Proof.
  intros Hp Hag HQ. induction n as [|n IH]; rewrite retry_unfold;
    (eapply counts_bind; [apply (counts_call env e P (fun r c => if again r then P c /\ Q r c else Q r c));
       intros r c Hc; specialize (HQ r c Hc); specialize (Hag r); destruct (again r); [rewrite Hag in HQ |- * by done; done|done]|]).
  - intros r. cbv beta. destruct (again r); apply counts_ret; [by intros c []|done].
  - intros r. cbv beta. destruct (again r); [|by apply counts_ret]. intros s c [Hc _]. revert s c Hc. change (counts P (pause ;; retry again pause (call env e) n) Q).
    by apply counts_skip.
Qed.

Lemma getThresholdDirection_keeps j r d : keeps (getThresholdDirection env ext j r d).
Proof.
  unfold getThresholdDirection. do 3 (apply counts_skip; [hush|intros ?]).
  eapply counts_bind; [apply getMO_keeps|]. intros r1. case_bool_decide; [apply counts_quiet; hush|].
  apply counts_skip; [unfold direction_of; hush|]. intros dir. apply counts_skip; [hush|intros _].
  destruct (dir =? 3); [|apply counts_quiet; hush].
  eapply counts_bind; [apply getMO_keeps|]. intros r2. apply counts_quiet. unfold direction_of. hush.
Qed.

Lemma generic_text_keeps n j r t : keeps (generic_text env ext n j r t).
Proof.
  unfold generic_text. eapply counts_bind; [apply getThresholdDirection_keeps|]. intros r1. apply counts_quiet. hush.
Qed.

Lemma fill_pm_closes n cn job t g maj min a r : closes (fill_pm env ext cfg n cn job t g maj min a r).
Proof.
  unfold fill_pm. do 3 (apply counts_skip; [hush|intros ?]). destruct _ as [block|]; [|apply finalize_then; intros ?; hush].
  eapply counts_bind; [destruct g; [apply generic_text_keeps|apply counts_quiet; hush]|]. intros [[ret own] addText].
  case_bool_decide; [apply finalize_then; intros ?; hush|].
  apply counts_skip; [unfold strdup; hush|]. intros tx. do 4 (apply counts_skip; [hush|intros ?]).
  apply counts_skip; [apply quiet_copyAdditionalInfo|intros ?]. apply finalize_then. intros ?; hush.
Qed.

(** With both handles open. *)
Lemma convert_open_closes n cn job : closes (
  text ← of_option BadPointer (nh_additionalText (notificationHeader n));
  ecimMeasurementTypeId ← strdup env text;
  if bool_decide (ecimMeasurementTypeId = None) || bool_decide (text = "") then
    finalize_handles env ;; free string ecimMeasurementTypeId ;; mret MafInvalidArgument
  else
    r ← getMOAttributesRetry env (saNameSet ext text) ["fmAlarmType"];
    if bool_decide (fst r <> MafOk) then finalize_handles env ;; free string ecimMeasurementTypeId ;; mret MafFailure
    else
      free string ecimMeasurementTypeId ;;
      oneAttrValue ← of_option AssertFailed (snd r !! 0%nat);
      if bool_decide (attrValueType oneAttrValue <> SA_IMM_ATTR_SANAMET) then finalize_handles env ;; mret MafFailure
      else
        alarm ← alarm_dn ext oneAttrValue;
        r ← getMOAttributesRetry env (fst alarm) ["majorType"; "minorType"; "additionalText"];
        if bool_decide (fst r <> MafOk) then finalize_handles env ;; mret MafFailure
        else
          assert_c (3 <=? length (snd r))%nat ;;
          codes ← alarm_codes (take 3 (snd r)) 0 0 None;
          match codes with
          | None => finalize_handles env ;; mret MafFailure
          | Some (majAlarm, minAlarm, addText) =>
              theMeasReaderId ← findThatEcimMeasReader env ext objects (saNameSet ext text) job;
              match theMeasReaderId with
              | None => finalize_handles env ;; mret MafFailure
              | Some reader => fill_pm env ext cfg n cn job text (snd alarm) majAlarm minAlarm addText reader
              end
          end)%string.
Proof.
  apply counts_skip; [hush|intros text]. apply counts_skip; [unfold strdup; hush|intros id].
  destruct (_ || _); [apply finalize_then; intros ?; hush|].
  eapply counts_bind; [apply getMO_keeps|]. intros r. case_bool_decide; [apply finalize_then; intros ?; hush|].
  apply counts_skip; [hush|intros _]. apply counts_skip; [hush|intros a].
  case_bool_decide; [apply finalize_then; intros ?; hush|].
  apply counts_skip; [unfold alarm_dn; hush|intros alarm].
  eapply counts_bind; [apply getMO_keeps|]. intros r'. case_bool_decide; [apply finalize_then; intros ?; hush|].
  apply counts_skip; [unfold assert_c; hush|intros _]. apply counts_skip; [apply quiet_alarm_codes|].
  intros [[[maj min] addText]|]; [|apply finalize_then; intros ?; hush].
  apply counts_skip; [apply quiet_find|]. intros [reader|]; [apply fill_pm_closes|apply finalize_then; intros ?; hush].
Qed.

Lemma convertPm_counts n cn : counts none_open (convertPmThresholdHeader4 env ext cfg objects n cn) (fun _ => none_open).
Proof.
  unfold convertPmThresholdHeader4. apply counts_skip; [hush|]. intros [job|]; [|by apply counts_ret].
  eapply counts_bind.
  { apply (counts_retry_call _ _ _ _ none_open (fun rc c => c = (if bool_decide (rc = SA_AIS_OK) then 1 else 0, 0)%nat)); [hush| |].
    - intros r Hr. cbn. rewrite bool_decide_false; [done|]. by intros ->.
    - intros r c ->. cbn. by case_bool_decide. }
  intros rc. case_bool_decide as Hrc; [apply counts_ret; intros c; by rewrite bool_decide_false|].
  eapply counts_bind.
  { apply (counts_retry_call _ _ _ _ _ (fun rc c => c = (1, if bool_decide (rc = SA_AIS_OK) then 1 else 0)%nat)); [hush| |].
    - intros r Hr. cbn. rewrite bool_decide_false; [done|]. by intros ->.
    - intros r c ->. subst rc. cbn. by case_bool_decide. }
  intros rc'. case_bool_decide as Hrc'.
  - apply (counts_bind _ _ (fun _ => none_open)); [|by intros []; apply counts_ret].
    apply counts_call. intros [] c ->. unfold none_open. cbn. by rewrite bool_decide_false.
  - intros s c Hc. apply convert_open_closes. rewrite Hc, bool_decide_true by by done. done.
Qed.
End pm.

(** C9. Resources.  Whatever IMM, memory and the notification say, on every path on
    which the conversion of an alarm of the PM service returns, each of the
    handles it opened (object manager and accessor, also those reopened after a
    bad handle) has been given back. *)
Theorem pm_handles_closed env ext cfg objects n cn s :
  emits handle_mark (convertPmThresholdHeader4 env ext cfg objects n cn) s (fun _ _ l => open_handles (0, 0)%nat l = (0, 0)%nat).
Proof. exact (convertPm_counts env ext cfg objects n cn s (0, 0)%nat eq_refl). Qed.
