(* ===== verification/NtfHeader.v ===== *)
(** * Notifications: from OpenSAF to COM and back ([ntf/ComSANtf.c])

    [convertHeader4] fills the structure for COM from an OpenSAF notification;
    [comsaNotify4] sends a notification of COM to OpenSAF. *)
From Stdlib Require Import ZArith Lia.
From stdpp Require Import base gmap list strings.
From S2P Require Import Prelude Codes NtfData NtfValues NtfInfo NtfPm.

#[local] Open Scope string_scope.
Open Scope Z_scope.

Definition SA_NTF_VENDOR_ID_SAF : Z := 18568.

Section header.
Context (env : environment ntfE) (bExtendedNameEnabled : bool) (uuid_cfg_flag : UuidCfg) (objects : nat) (_CC_NAME : string).

Abbreviation Fm4 := MafOamSpiNotificationFmStruct_4T.
Abbreviation V := (M ntfE Values).

(** ** From OpenSAF to COM *)

(** A threshold alarm of the PM service. *)
Definition is_pm (nh : SaNtfNotificationHeaderT) : bool :=
  bool_decide (vendorId nh = SA_NTF_VENDOR_ID_SAF) && bool_decide (majorId nh = 20) && bool_decide (minorId nh = 1).

(** The text with the UUIDs behind it; [false] when there is no memory. *)
Definition convert_text (nh : SaNtfNotificationHeaderT) (handle : Z) (cn : ptr) : V bool :=
  match nh_additionalText nh with
  | None => update_fm cn (set_text None) ;; mret true
  | Some t =>
      uuidList ← (if bool_decide (uuid_cfg_flag = UuidMapValueToAddText)
                  then getUUIDFromAdditionalInfo env uuid_cfg_flag nh handle else mret None : V (option ptr));
      match uuidList with
      | Some _ =>
          u ← load uuidList;
          block ← allocate env (t +:+ u);
          update_fm cn (set_text block) ;;
          free string uuidList ;;
          mret (bool_decide (block <> None))
      | None =>
          block ← strdup env t;
          update_fm cn (set_text block) ;;
          mret (bool_decide (block <> None))
      end
  end.

Definition class_minor (nh : SaNtfNotificationHeaderT) : Z := wrap_u 32 (Z.lor (Z.shiftl (majorId nh) 16) (minorId nh)).

(** The conversion of every notification but those of the PM service. *)
Definition convert_legacy (n : SaNtfNotificationsT) (cn : ptr) : V MafReturnT :=
  let nh := notificationHeader n in
  update_fm cn (set_eventTime (wrap_u 64 (nh_eventTime nh))) ;;
  s ← get;
  when (bool_decide (mafSpiNtfFmVersion s <> MafOamSpiNotificationFm_3))
    (copyAdditionalInfo env uuid_cfg_flag nh (notificationHandle n) cn) ;;
  ok ← convert_text nh (notificationHandle n) cn;
  if (ok : bool) then
    dn ← convertTo3GPPDN env bExtendedNameEnabled (notificationObject nh);
    update_fm cn (set_dn dn) ;;
    match dn with
    | None =>
        f ← load (B := Fm4) (Some cn); free string (additionalText f) ;; mret MafNoResources
    | Some _ => update_fm cn (set_class (vendorId nh) (class_minor nh)) ;; mret MafOk
    end
  else mret MafNoResources.

(** [filter]: a consumer has subscribed ([nFilter_V4.filter]). *)
Definition convertHeader4 (filter : bool) (n : SaNtfNotificationsT) (cn : ptr) : V MafReturnT :=
  if negb filter then mret MafNotExist
  else if is_pm (notificationHeader n) then
    pmRetCode ← convertPmThresholdHeader4 env bExtendedNameEnabled uuid_cfg_flag objects n cn;
    if bool_decide (pmRetCode = MafOk) then mret pmRetCode else convert_legacy n cn
  else convert_legacy n cn.

(** ** From COM to OpenSAF *)

(** A string of COM's structure. *)
Definition text_of (o : option ptr) : V string := load o.

(** The entries, in the memory of the notification: [room] of them; the name is not sent. *)
Fixpoint send_entries (handle : Z) (room : nat) (l : list FmInfo) {struct l} : V (option (list SaNtfAdditionalInfoT * list string)) :=
  match l with
  | [] => mret (Some ([], []))
  | e :: l =>
      match room with
      | O => exit BadPointer
      | S room =>
          value ← text_of (snd e);
          let lenValue := Z.of_nat (String.length value) + 1 in
          r ← call env (saNtfPtrValAllocate handle (wrap_u 16 lenValue));
          if bool_decide (fst r <> SA_AIS_OK) then mret None
          else if lenValue <=? wrap_u 16 lenValue then
            rest ← send_entries handle room l;
            mret (match rest with
                  | Some (is', vs) => Some (MkInfo 20 SA_NTF_VALUE_STRING (snd r) :: is', value :: vs)
                  | None => None
                  end)
          else exit BadPointer
      end
  end.

(** The object the alarm is about and the one that notifies; the event type. *)
Definition convert_names (dn : string) : V (option (SaNtfNotificationTypeT * string * string)) :=
  if bool_decide ("lm" = _CC_NAME) then
    r ← call env (removeMOMPrefix dn);
    let '(statusPrefix, size, immDn) := r in
    if statusPrefix =? -1 then mret None
    else if statusPrefix =? 2 then
      o ← call env (convertToImm dn);
      mret (match o with Some o => Some (SA_NTF_ALARM_QOS, o, "lmId=1") | None => None end)
    else mret (Some (SA_NTF_ALARM_QOS, saNameSet bExtendedNameEnabled (String.substring 0 (Z.to_nat size) immDn), "lmId=1"))
  else
    o ← call env (convertToImm dn);
    mret (match o with Some o => Some (SA_NTF_TYPE_ALARM, o, o) | None => None end).

(** [handle], [room] bytes for the text and [slots] entries are what
    [saNtfAlarmNotificationAllocate] has set up; the notification and the values
    of its entries are the result. *)
Definition convertMafHeader4ToNtf (f : Fm4) (handle room slots : Z) : V (option (SaNtfNotificationsT * list string)) :=
  match dn f with
  | None => mret None
  | Some _ =>
      name ← text_of (dn f);
      names ← convert_names name;
      match names with
      | None => mret None
      | Some (eventType, notificationObject, notifyingObject) =>
          t ← (match additionalText f with
               | None => mret None
               | Some _ =>
                   t ← text_of (additionalText f);
                   if Z.of_nat (String.length t) + 1 <=? room then mret (Some t) else exit BadPointer
               end : V (option string));
          s ← get;
          rest ← (if bool_decide (mafSpiNtfFmVersion s = MafOamSpiNotificationFm_3) then mret (Some ([], []))
                  else if bool_decide (additionalInfo_size f = 0) then mret (Some ([], []))
                  else
                    es ← load (B := list FmInfo) (additionalInfoArr f);
                    if bool_decide (additionalInfo_size f <= Z.of_nat (length es)) then
                      send_entries handle (Z.to_nat slots) (take (Z.to_nat (additionalInfo_size f)) es)
                    else exit BadPointer
                  : V (option (list SaNtfAdditionalInfoT * list string)));
          mret (match rest with
                | None => None
                | Some (infos, vs) =>
                    Some (MkNotification eventType handle
                            (MkHeader notificationObject notifyingObject (majorType f)
                               (wrap_u 16 (minorType f / 65536)) (wrap_u 16 (minorType f mod 65536)) (wrap_s 64 (eventTime f)) 0 0 t infos)
                            (severity f) None no_change, vs)
                end)
      end
  end.

(** [strncmp(eventType, component, strlen(component) - 1)]: the last character does
    not count. *)
Definition same_component (eventType component : string) : bool :=
  let n := (String.length component - 1)%nat in
  bool_decide (String.substring 0 n eventType = String.substring 0 n component).

(** The structure COM has passed, as the newer one; the block to free when it is a copy. *)
Definition incoming (value : ptr) : V (Fm4 * option ptr) :=
  s ← get;
  if bool_decide (mafSpiNtfFmVersion s = MafOamSpiNotificationFm_3) then
    o ← load (B := MafOamSpiNotificationFmStruct_2T) (Some value);
    let f := MkFm4 (dn_2 o) (majorType_2 o) (minorType_2 o) (eventTime_2 o) (additionalText_2 o) (severity_2 o) None 0 in
    block ← allocate env f;
    block ← of_option BadPointer block;
    mret (f, Some block)
  else
    f ← load (Some value); mret (f, None).

Definition comsaNotify4 (handle : Z) (eventType : option string) (filter : bool) (value : option ptr) : V MafReturnT :=
  s ← get;
  match eventType, value with
  | Some eventType, Some value =>
      if bool_decide (handle <= 0) || negb filter then mret MafInvalidArgument
      else if negb (same_component eventType
                      (if bool_decide (mafSpiNtfFmVersion s = MafOamSpiNotificationFm_3)
                       then MafOamSpiNotificationFmEventComponent_3 else MafOamSpiNotificationFmEventComponent_4))
      then mret MafInvalidArgument
      else
        r ← incoming value;
        let '(f, copy) := r in
        length ← (match additionalText f with
                  | None => mret 0
                  | Some _ => t ← text_of (additionalText f); mret (wrap_u 16 (Z.of_nat (String.length t) + 1))
                  end : V Z);
        let slots := wrap_u 16 (additionalInfo_size f) in
        r ← call env (saNtfAlarmNotificationAllocate length slots);
        if bool_decide (fst r <> SA_AIS_OK) then free Fm4 copy ;; mret MafFailure
        else
          n ← convertMafHeader4ToNtf f (snd r) length slots;
          match n with
          | None => call env (saNtfNotificationFree (snd r)) ;; free Fm4 copy ;; mret MafFailure
          | Some (n, vs) =>
              status ← call env (saNtfNotificationSend n vs);
              call env (saNtfNotificationFree (snd r)) ;;
              free Fm4 copy ;;
              mret (if bool_decide (status <> SA_AIS_OK) then MafFailure else MafOk)
          end
  | _, _ => mret MafInvalidArgument
  end.

Definition comsaNotify (handle : Z) (eventType : option string) (filter : bool) (value : option ptr) : V MafReturnT :=
  comsaNotify4 handle eventType filter value.
End header.
