(* ===== verification/NtfHeaderProps.v ===== *)
(** * Notifications: the conversion says what the notification says *)
From Stdlib Require Import ZArith Lia.
From stdpp Require Import base gmap list strings.
From S2P Require Import Prelude Codes NtfData NtfValues NtfValueFacts NtfValueProps NtfInfo NtfInfoProps NtfPm NtfHeader.

Open Scope Z_scope.

(** What a structure for COM says. *)
Record view := MkView {
  v_dn : option string; v_major : Z; v_minor : Z; v_time : Z; v_text : option string;
  v_info : list (option string * option string)
}.
Definition view_of (T : gmap ptr string) (f : MafOamSpiNotificationFmStruct_4T) (es : list FmInfo) : view :=
  MkView (dn f ≫= (T !!.)) (majorType f) (minorType f) (eventTime f) (additionalText f ≫= (T !!.)) (map (entry_view T) es).
(** The same, read from the memory. *)
Definition fm_view (m : Mem) (p : ptr) : option view :=
  f ← fms m !! p;
  Some (view_of (texts m) f (match additionalInfoArr f with Some a => default [] (infos m !! a) | None => [] end)).

Lemma fm_view_join F p f es ls T : fits F p f es ls T -> fm_view (join F p f es T) p = Some (view_of T f es).
Proof.
  intros Hfit. pose proof Hfit as [_ Hd Harr _ Hdom]. unfold fm_view. cbn. rewrite lookup_insert_eq. cbn. f_equal.
  assert (Hes : (match additionalInfoArr f with Some a => default [] (match additionalInfoArr f with Some a => <[a := es]> (infos F) | None => infos F end !! a) | None => [] end) = es).
  { destruct (additionalInfoArr f); [by rewrite lookup_insert_eq|done]. }
  rewrite Hes. unfold view_of.
  assert (Hone : forall o : option ptr, (forall q, q ∈ opt o -> is_Some (T !! q)) -> o ≫= ((T ∪ texts F) !!.) = o ≫= (T !!.)).
  { intros [q|] Hq; [|done]. destruct (Hq q) as [t Ht]; [by left|]. cbn. rewrite Ht. by apply lookup_union_Some_l. }
  f_equal; [apply Hone|apply Hone|]; [intros q Hq; apply Hdom; set_solver..|].
  apply map_ext_in. intros e He. unfold entry_view. apply list_elem_of_In in He.
  assert (Hin : forall q, q ∈ entry_texts e -> is_Some (T !! q)).
  { intros q Hq. apply Hdom. rewrite !elem_of_app. right. right. right. unfold info_texts. by eapply (elem_concat entry_texts). }
  unfold entry_texts in Hin. f_equal; apply Hone; intros q Hq; apply Hin; set_solver.
Qed.

Section services.
Context (env : environment ntfE) (ext : bool) (cfg : UuidCfg) (objects : nat).
Context (answer : Z -> Z -> SaAisErrorT * string) (to3gpp : string -> option string).
Context (malloc_ok : forall tr, env _ tr malloc = true).
Context (get_ok : forall tr h v, env _ tr (saNtfPtrValGet h v) = answer h v).
Context (to3gpp_ok : forall tr n, env _ tr (convertTo3Gpp n) = to3gpp n).
Context (F : Mem) (p : ptr) (s0 : Values).

(** ** What the structure should say *)
Definition text_spec (nh : SaNtfNotificationHeaderT) (h : Z) : option string :=
  t ← nh_additionalText nh; Some (t +:+ default "" (uuid_list cfg answer to3gpp nh h)).
Definition header_view (nh : SaNtfNotificationHeaderT) (h : Z) : view :=
  MkView (dn_spec to3gpp (notificationObject nh)) (vendorId nh) (class_minor nh) (wrap_u 64 (nh_eventTime nh))
    (text_spec nh h) (map (info_spec cfg answer to3gpp nh h) (copied cfg nh)).

Lemma fits_set_text f es ls T q : additionalText f = None -> fits F p f es (q :: ls) T -> fits F p (set_text (Some q) f) es ls T.
Proof.
  intros Ht Hfit. eapply fits_move; [exact Hfit|by destruct Hfit|]. cbn. rewrite Ht. cbn.
  by rewrite <- !Permutation_middle.
Qed.

Lemma load_text_sat f es T q t s tr (Q : _ -> _ -> Prop) :
  T !! q = Some t -> Q t (set_mem (join F p f es T) s, tr) -> sat (load (B := string) (Some q)) (set_mem (join F p f es T) s, tr) Q.
Proof. intros Hq HQ. eapply sat_load_block; [cbn; by apply lookup_union_Some_l|done]. Qed.

Lemma convert_text_sat nh h f es T tr (Q : _ -> _ -> Prop) :
  fits F p f es [] T -> additionalText f = None ->
  (forall o T' tr', T ⊆ T' -> o ≫= (T' !!.) = text_spec nh h -> fits F p (set_text o f) es [] T' ->
     Q true (set_mem (join F p (set_text o f) es T') s0, tr')) ->
  sat (convert_text env cfg nh h p) (set_mem (join F p f es T) s0, tr) Q.
Proof using malloc_ok get_ok.
  intros Hfit Ht HQ. unfold convert_text, text_spec in *. destruct (nh_additionalText nh) as [t|]; cbn [mbind option_bind] in HQ.
  - assert (Hplain : uuid_list cfg answer to3gpp nh h = None -> forall tr', sat (block ← strdup env t; update_fm p (set_text block) ;; mret (bool_decide (block <> None)))
      (set_mem (join F p f es T) s0, tr') Q).
    { intros Hnone tr'. sat_step. eapply strdup_sat; [done|exact Hfit|]. intros q tr1 HT HF Hfit1. sat_step.
      eapply update_fm_sat; [exact Hfit1|done|]. sat_step. apply HQ.
      - by apply insert_subseteq.
      - cbn. by rewrite lookup_insert_eq, Hnone, str_app_nil.
      - by apply fits_set_text. }
    sat_step. case_bool_decide as Hcfg; [|by sat_step; apply Hplain; unfold uuid_list; rewrite bool_decide_false].
    eapply getUUIDFromAdditionalInfo_sat; [done|done|exact Hfit| |].
    + intros tr1 Hnone. by apply Hplain.
    + intros u q tr1 Hu HT HF Hfit1. sat_step. eapply load_text_sat; [by rewrite lookup_insert_eq|].
      sat_step. eapply (strdup_sat env); [done|exact Hfit1|]. intros b tr2 [HTb Hne]%lookup_insert_None HFb Hfit2. sat_step.
      eapply update_fm_sat; [exact Hfit2|done|]. sat_step. apply fits_set_text in Hfit2; [|done].
      eapply free_loose_sat; [exact Hfit2|]. rewrite delete_insert_ne, delete_insert_id by done. intros Hfit3. sat_step. apply HQ.
      * by apply insert_subseteq.
      * cbn. by rewrite lookup_insert_eq, Hu.
      * done.
  - sat_step. eapply update_fm_sat; [exact Hfit|done|]. sat_step. apply (HQ None); [done|done|].
    eapply fits_move; [exact Hfit|by destruct Hfit|]. cbn. by rewrite Ht.
Qed.

Lemma infos_weaken T T' es f ls : fits F p f es ls T -> T ⊆ T' -> map (entry_view T') es = map (entry_view T) es.
Proof.
  intros [_ _ _ _ Hdom] Hsub. apply map_ext_in. intros e He. apply list_elem_of_In in He. apply entry_view_weaken; [done|].
  intros q Hq. apply Hdom. rewrite !elem_of_app. right. right. right. by eapply (elem_concat entry_texts).
Qed.
End services.

Lemma convertHeader4_sat (env : environment ntfE) ext cfg objects answer to3gpp F p s0 n tr d :
  (forall tr, env _ tr malloc = true) -> (forall tr h v, env _ tr (saNtfPtrValGet h v) = answer h v) ->
  (forall tr n, env _ tr (convertTo3Gpp n) = to3gpp n) ->
  mafSpiNtfFmVersion s0 = MafOamSpiNotificationFm_4 -> fms F !! p = None -> is_pm (notificationHeader n) = false ->
  (String.length (notificationObject (notificationHeader n)) < saNameMaxLenNtf ext)%nat ->
  dn_spec to3gpp (notificationObject (notificationHeader n)) = Some d ->
  sat (convertHeader4 env ext cfg objects true n p) (set_mem (join F p zero_fm4 [] ∅) s0, tr) (fun rc c =>
    rc = MafOk /\ fm_view (mem c.1) p = Some (header_view cfg answer to3gpp (notificationHeader n) (notificationHandle n)) /\
    c.1 = set_mem (mem c.1) s0 /\
    exists i, i_fm i = p /\ item_ok (mem c.1) i /\ drop i (mem c.1) = F).
Proof.
  intros Hmalloc Hget H3gpp Hver Hp Hpm Hlen Hdn. set (nh := notificationHeader n) in *. set (h := notificationHandle n).
  assert (Hfit : fits F p zero_fm4 [] [] ∅).
  { split; [done|apply map_disjoint_empty_l|done|constructor|]. intros q. cbn. rewrite lookup_empty. split; [by intros []|by intros ?%elem_of_nil]. }
  unfold convertHeader4. cbn [negb]. fold nh. rewrite Hpm. unfold convert_legacy. fold nh h. cbv zeta.
  sat_step. eapply update_fm_sat; [exact Hfit|done|]. do 2 sat_step. rewrite bool_decide_true by (cbn; congruence). cbv [when].
  set (f1 := set_eventTime (wrap_u 64 (nh_eventTime nh)) zero_fm4).
  assert (Hfit1 : fits F p f1 [] [] ∅) by (by eapply fits_move; [exact Hfit|done|]).
  sat_step. eapply copyAdditionalInfo_sat; [done|done|done|exact Hfit1|done|].
  intros arr es T1 tr1 _ Hview f2 Hfit2.
  sat_step. eapply convert_text_sat; [done|done|exact Hfit2|done|]. intros o T2 tr2 Hsub2 Htext Hfit3.
  sat_step. eapply convertTo3GPPDN_sat; [done|done|exact Hlen|exact Hfit3|by rewrite Hdn|].
  intros t q tr3 Ht HT HF Hfit4. rewrite Hdn in Ht. injection Ht as <-.
  sat_step. eapply update_fm_sat; [exact Hfit4|done|].
  assert (Hfit5 : fits F p (set_dn (Some q) (set_text o f2)) es [] (<[q := d]> T2)).
  { eapply fits_move; [exact Hfit4|by destruct Hfit4|]. done. }
  sat_step. eapply update_fm_sat; [exact Hfit5|done|]. sat_step.
  set (f5 := set_class _ _ _). assert (Hfit6 : fits F p f5 es [] (<[q := d]> T2)) by (by eapply fits_move; [exact Hfit5|by destruct Hfit5|]).
  cbn [fst mem set_mem]. split; [done|]. split_and!.
  - erewrite fm_view_join by exact Hfit6. f_equal. unfold header_view, view_of, f5. cbn.
    assert (Hsub3 : T2 ⊆ <[q := d]> T2) by (by apply insert_subseteq). f_equal.
    + by rewrite lookup_insert_eq.
    + rewrite <- Htext. destruct o as [b|]; [|done]. cbn. destruct (decide (b = q)) as [->|Hne]; [|by rewrite lookup_insert_ne].
      exfalso. assert (is_Some (T2 !! q)) as [? ?]; [|congruence]. apply Hfit3. cbn. by left.
    + erewrite infos_weaken; [|exact Hfit3|exact Hsub3]. erewrite infos_weaken; [exact Hview|exact Hfit2|exact Hsub2].
  - done.
  - eexists. split; [|by apply fits_item]. done.
Qed.

(** C7. Functional.  A notification that is not a threshold alarm of the PM service
    becomes a structure that says the same: name, class, time, text (with the
    UUIDs behind it when so configured) and additional information (less those
    UUIDs); the structure owns every block it refers to, once, and nothing else
    in memory has changed: it can be lent to COM. *)
Theorem convertHeader4_converts (env : environment ntfE) ext cfg objects answer to3gpp F p s0 n tr d :
  (forall tr, env _ tr malloc = true) -> (forall tr h v, env _ tr (saNtfPtrValGet h v) = answer h v) ->
  (forall tr n, env _ tr (convertTo3Gpp n) = to3gpp n) ->
  mafSpiNtfFmVersion s0 = MafOamSpiNotificationFm_4 -> fms F !! p = None -> is_pm (notificationHeader n) = false ->
  (String.length (notificationObject (notificationHeader n)) < saNameMaxLenNtf ext)%nat ->
  dn_spec to3gpp (notificationObject (notificationHeader n)) = Some d ->
  sat (convertHeader4 env ext cfg objects true n p) (set_mem (join F p zero_fm4 [] ∅) s0, tr) (fun rc c =>
    rc = MafOk /\ fm_view (mem c.1) p = Some (header_view cfg answer to3gpp (notificationHeader n) (notificationHandle n)) /\
    mafSpiNtfFmVersion c.1 = MafOamSpiNotificationFm_4 /\
    exists i, i_fm i = p /\ item_ok (mem c.1) i /\ drop i (mem c.1) = F).
Proof.
  intros Hm Hg H3 Hv Hp Hpm Hlen Hd. eapply sat_mono; [by eapply convertHeader4_sat|].
  intros rc c (-> & Hview & Hc & Hi). split_and!; [done|exact Hview|by rewrite Hc|exact Hi].
Qed.

(** A notification with a UUID that is appended to the text. *)
Definition demo_n : SaNtfNotificationsT :=
  MkNotification SA_NTF_TYPE_ALARM 11
    (MkHeader "3GPPManagedElement=1" "safApp=x" 193 3 7 1000 64 5 (Some "high") [MkInfo 99 SA_NTF_VALUE_STRING 0; MkInfo 5 SA_NTF_VALUE_LDAP_NAME 1]) 4 None no_change.
Definition empty_mem : Mem := MkMem ∅ ∅ ∅ ∅ ∅ ∅.

Example demo_view : header_view UuidMapValueToAddText (fun _ _ => (SA_AIS_OK, "v")) Some (notificationHeader demo_n) 11 =
  MkView (Some "ManagedElement=1") 193 196615 1000 (Some "high;uuid:v") [(Some "", Some "v")].
Proof. vm_compute. reflexivity. Qed.

Lemma convertHeader4_converts_witness :
  sat (convertHeader4 demo_ntf false UuidMapValueToAddText 0 true demo_n 0%nat) (set_mem (join empty_mem 0%nat zero_fm4 [] ∅) demo_values, [])
    (fun rc c => rc = MafOk /\ fm_view (mem c.1) 0%nat = Some (header_view UuidMapValueToAddText (fun _ _ => (SA_AIS_OK, "v")) Some (notificationHeader demo_n) 11) /\
    mafSpiNtfFmVersion c.1 = MafOamSpiNotificationFm_4 /\ exists i, i_fm i = 0%nat /\ item_ok (mem c.1) i /\ drop i (mem c.1) = empty_mem).
Proof.
  apply (convertHeader4_converts demo_ntf false UuidMapValueToAddText 0 (fun _ _ => (SA_AIS_OK, "v")) Some empty_mem 0%nat demo_values demo_n [] "ManagedElement=1");
    try done; vm_compute; (reflexivity || lia).
Defined.

(** ** Back and forth *)
Lemma lor_shift a b : 0 <= b < 65536 -> Z.lor (Z.shiftl a 16) b = a * 65536 + b.
Proof.
  intros Hb. assert (Hland : Z.land (Z.shiftl a 16) b = 0).
  { apply Z.bits_inj'. intros i Hi. rewrite Z.land_spec, Z.bits_0, Z.shiftl_spec by done. destruct (decide (i < 16)).
    - by rewrite Z.testbit_neg_r by lia.
    - rewrite <- (Z.mod_small b (2 ^ 16)) by lia. rewrite Z.mod_pow2_bits_high by lia. apply andb_false_r. }
  pose proof (Z.add_lor_land (Z.shiftl a 16) b) as Hadd. rewrite Z.shiftl_mul_pow2 in * by lia. lia.
Qed.

(** The class of a notification: what COM sends is what COM receives. *)
Lemma class_roundtrip minor : 0 <= minor < 2 ^ 32 ->
  wrap_u 32 (Z.lor (Z.shiftl (wrap_u 16 (minor / 65536)) 16) (wrap_u 16 (minor mod 65536))) = minor.
Proof.
  intros Hm. unfold wrap_u. rewrite (Z.mod_small (minor / 65536)) by (split; [apply Z.div_pos|apply Z.div_lt_upper_bound]; lia).
  rewrite (Z.mod_small (minor mod 65536)) by (apply Z.mod_pos_bound; lia).
  rewrite lor_shift by (apply Z.mod_pos_bound; lia). pose proof (Z.div_mod minor 65536). rewrite Z.mod_small; lia.
Qed.

Lemma time_roundtrip t : 0 <= t < 2 ^ 64 -> wrap_u 64 (wrap_s 64 t) = t.
Proof.
  intros Ht. unfold wrap_s. assert (Hu : wrap_u 64 t = t) by (apply Z.mod_small; lia). rewrite Hu.
  destruct (t <? 2 ^ (64 - 1)); [done|]. unfold wrap_u. rewrite <- (Z.mod_unique (t - 2 ^ 64) (2 ^ 64) (-1) t); lia.
Qed.

(** The notifications that were sent. *)
Definition sends (tr : list (event ntfE)) : list (SaNtfNotificationsT * list string) :=
  omap (fun e => match e with Ev (saNtfNotificationSend n vs) _ => Some (n, vs) | _ => None end) tr.
Lemma sends_app tr tr' : sends (tr ++ tr') = sends tr ++ sends tr'.
Proof. apply omap_app. Qed.

Section sending.
Context (env : environment ntfE) (ext : bool) (cc : string) (to_imm : string -> option string).
Context (val_ok : forall tr h l, fst (env _ tr (saNtfPtrValAllocate h l)) = SA_AIS_OK).
Context (imm_ok : forall tr n, env _ tr (convertToImm n) = to_imm n).
Context (not_lm : "lm" <> cc).

(** The values go out in order, each as a string with the application's number. *)
Lemma send_entries_sat h room es vs s tr (Q : _ -> _ -> Prop) :
  Forall2 (fun e v => (snd e ≫= (texts (mem s) !!.)) = Some v /\ Z.of_nat (String.length v) < 65535) es vs -> (length es <= room)%nat ->
  (forall infos tr', Forall (fun i => infoId i = 20 /\ infoType i = SA_NTF_VALUE_STRING) infos -> length infos = length vs ->
     sends tr' = sends tr -> Q (Some (infos, vs)) (s, tr')) ->
  sat (send_entries env h room es) (s, tr) Q.
Proof using val_ok.
  intros Hvs. revert room tr Q. induction Hvs as [|e v es vs [He Hv] Hvs IH]; intros room tr Q Hroom HQ; cbn [send_entries].
  - apply sat_ret. by apply HQ.
  - destruct room as [|room]; [cbn in Hroom; lia|]. destruct e as [nm [q|]]; [|done]. cbn in He. cbn [snd].
    sat_step. eapply sat_load_block; [exact He|]. cbv zeta. sat_step. apply sat_call. intros r Hr.
    pose proof (val_ok tr h (wrap_u 16 (Z.of_nat (String.length v) + 1))) as Hok. cbn [snd] in Hr. rewrite Hr in Hok. rewrite Hok.
    rewrite bool_decide_false by (intros Hne; by apply Hne).
    assert (Hw : wrap_u 16 (Z.of_nat (String.length v) + 1) = Z.of_nat (String.length v) + 1) by (apply Z.mod_small; lia).
    rewrite Hw, Z.leb_refl. sat_step. apply IH; [cbn in Hroom; lia|]. intros infos tr' Hinfos Hlen Hs. sat_step.
    apply HQ; [by constructor|cbn; by rewrite Hlen|]. rewrite Hs, sends_app. cbn. by rewrite app_nil_r.
Qed.
(** What the conversion hands to [saNtfNotificationSend]. *)
Lemma convertMafHeader4ToNtf_sat f es h s tr name obj room slots (Q : _ -> _ -> Prop) :
  mafSpiNtfFmVersion s = MafOamSpiNotificationFm_4 -> dn f ≫= (texts (mem s) !!.) = Some name -> to_imm name = Some obj ->
  (forall b, additionalText f = Some b -> exists t, texts (mem s) !! b = Some t /\ Z.of_nat (String.length t) + 1 <= room) ->
  additionalInfo_size f = Z.of_nat (length es) -> Z.of_nat (length es) <= slots ->
  match additionalInfoArr f with Some a => infos (mem s) !! a = Some es | None => es = [] end ->
  Forall (fun e => exists t, snd e ≫= (texts (mem s) !!.) = Some t /\ Z.of_nat (String.length t) < 65535) es ->
  (forall ins vs tr', Forall2 (fun e t => snd e ≫= (texts (mem s) !!.) = Some t) es vs -> length ins = length vs ->
     Forall (fun i => infoId i = 20 /\ infoType i = SA_NTF_VALUE_STRING) ins -> sends tr' = sends tr ->
     Q (Some (MkNotification SA_NTF_TYPE_ALARM h (MkHeader obj obj (majorType f) (wrap_u 16 (minorType f / 65536))
          (wrap_u 16 (minorType f mod 65536)) (wrap_s 64 (eventTime f)) 0 0 (additionalText f ≫= (texts (mem s) !!.)) ins) (severity f) None no_change, vs))
       (s, tr')) ->
  sat (convertMafHeader4ToNtf env ext cc f h room slots) (s, tr) Q.
Proof using val_ok imm_ok not_lm.
  intros Hv Hdn Himm Htext Hsize Hslots Harr Hes HQ. unfold convertMafHeader4ToNtf. destruct (dn f) as [q|]; [|done].
  sat_step. eapply sat_load_block; [exact Hdn|]. sat_step. unfold convert_names. rewrite bool_decide_false by done.
  sat_step. sat_step. subst r. rewrite imm_ok, Himm. sat_step. sat_step.
  apply (sat_mono _ _ (fun o c => o = additionalText f ≫= (texts (mem s) !!.) /\ c.1 = s /\ sends c.2 = sends tr)).
  { destruct (additionalText f) as [b|].
    - destruct (Htext b eq_refl) as (t & Ht & Hlen). sat_step. eapply sat_load_block; [exact Ht|].
      rewrite (proj2 (Z.leb_le _ _)) by done. sat_step. cbn. rewrite Ht, sends_app. cbn. by rewrite app_nil_r.
    - sat_step. cbn. rewrite sends_app. cbn. by rewrite app_nil_r. }
  intros o [s' tr1] (-> & Hs & Htr1). cbn [fst snd] in *. subst s'. do 3 sat_step.
  rewrite bool_decide_false by (rewrite Hv; done). rewrite Hsize.
  case_bool_decide as Hz.
  - sat_step. sat_step. assert (es = []) as -> by (destruct es; [done|cbn in Hz; lia]). by apply (HQ [] []).
  - destruct (additionalInfoArr f) as [a|]; [|by subst es].
    sat_step. eapply sat_load_block; [exact Harr|]. rewrite bool_decide_true by done. rewrite Nat2Z.id, firstn_all.
    assert (exists vs, Forall2 (fun e v => (snd e ≫= (texts (mem s) !!.)) = Some v /\ Z.of_nat (String.length v) < 65535) es vs) as [vs Hvs].
    { clear -Hes. induction Hes as [|e es (t & ?) _ [vs IH]]; [by exists []|]. exists (t :: vs). by constructor. }
    eapply send_entries_sat; [exact Hvs|lia|]. intros ins tr2 Hins Hlen Htr2. sat_step.
    apply HQ; [eapply Forall2_impl; [exact Hvs|]; by intros ? ? []|done|done|congruence].
Qed.
End sending.

(** What COM says in an alarm leaves as one notification: object, class, time,
    text, severity, and the values of the additional information as strings
    with the application's number. *)
Definition sent_alarm (h : Z) (obj : string) (v : view) (sev : Z) (ins : list SaNtfAdditionalInfoT) : SaNtfNotificationsT :=
  MkNotification SA_NTF_TYPE_ALARM h (MkHeader obj obj (v_major v) (wrap_u 16 (v_minor v / 65536))
    (wrap_u 16 (v_minor v mod 65536)) (wrap_s 64 (v_time v)) 0 0 (v_text v) ins) sev None no_change.

(** What can be sent: a class of 32 and a time of 64 bits, a text and values of
    less than 65535 characters, less than 65536 values. *)
Definition sendable (v : view) : Prop :=
  0 <= v_minor v < 2 ^ 32 /\ 0 <= v_time v < 2 ^ 64 /\
  Z.of_nat (String.length (default "" (v_text v))) < 65535 /\ Z.of_nat (length (v_info v)) < 65536 /\
  Forall (fun e => exists t, snd e = Some t /\ Z.of_nat (String.length t) < 65535) (v_info v).

Lemma notify_sends (env : environment ntfE) ext cc to_imm h handle i p v sev name obj s tr :
  (forall tr l k, env _ tr (saNtfAlarmNotificationAllocate l k) = (SA_AIS_OK, h)) ->
  (forall tr h l, fst (env _ tr (saNtfPtrValAllocate h l)) = SA_AIS_OK) ->
  (forall tr n, env _ tr (convertToImm n) = to_imm n) ->
  (forall tr n vs, env _ tr (saNtfNotificationSend n vs) = SA_AIS_OK) ->
  "lm" <> cc -> 0 < handle -> mafSpiNtfFmVersion s = MafOamSpiNotificationFm_4 ->
  item_ok (mem s) i -> i_fm i = p -> fm_view (mem s) p = Some v -> severity <$> fms (mem s) !! p = Some sev ->
  v_dn v = Some name -> to_imm name = Some obj -> sendable v ->
  sat (comsaNotify4 env ext cc handle (Some MafOamSpiNotificationFmEventComponent_4) true (Some p)) (s, tr) (fun rc c =>
    rc = MafOk /\ c.1 = s /\ exists ins vs, sends c.2 = sends tr ++ [(sent_alarm h obj v sev ins, vs)] /\
      Forall2 (fun e t => snd e = Some t) (v_info v) vs /\ length ins = length vs /\
      Forall (fun a => infoId a = 20 /\ infoType a = SA_NTF_VALUE_STRING) ins).
Proof.
  intros Halloc Hval Himm Hsend Hlm Hh Hv Hi <- Hview Hsev Hname Hobj (Hmin & Htime & Htext & Hlen & Hinfo).
  destruct Hi as [(f & Hf & Hhead & Harr & Hsize) Hes Hlive _]. unfold fm_view in Hview. rewrite Hf in Hview, Hsev. cbn in Hview, Hsev.
  injection Hsev as <-.
  rewrite Harr in Hview. set (es := i_entries i) in *.
  assert (Hes' : (match i_arr i with Some a => default [] (infos (mem s) !! a) | None => [] end) = es) by (destruct (i_arr i); [by rewrite Hes|done]).
  rewrite Hes' in Hview. injection Hview as <-. cbn [v_dn v_major v_minor v_time v_text v_info view_of] in *. rewrite length_map in Hlen.
  assert (Htx : forall b, additionalText f = Some b -> exists t, texts (mem s) !! b = Some t /\ Z.of_nat (String.length t) < 65535).
  { intros b Hb. destruct (Hlive b) as [t Ht]; [unfold i_texts; rewrite <- Hhead, Hb; set_solver|]. exists t. split; [done|].
    rewrite Hb in Htext. cbn in Htext. by rewrite Ht in Htext. }
  unfold comsaNotify4, incoming. do 2 sat_step. rewrite (bool_decide_false (handle <= 0)) by lia. cbn [orb negb].
  rewrite bool_decide_false by (rewrite Hv; done). replace (same_component _ _) with true by (by vm_compute). cbn [negb].
  repeat sat_step. rewrite bool_decide_false by (rewrite Hv; done). sat_step. eapply sat_load_block; [exact Hf|]. sat_step. sat_step.
  set (len := match additionalText f ≫= (texts (mem s) !!.) with Some t => Z.of_nat (String.length t) + 1 | None => 0 end).
  apply (sat_mono _ _ (fun n c => n = len /\ c = (s, tr))).
  { unfold len. destruct (additionalText f) as [b|]; [|by sat_step]. destruct (Htx b eq_refl) as (t & Ht & Hb).
    sat_step. eapply sat_load_block; [exact Ht|]. sat_step. cbn. rewrite Ht. split; [|done]. apply Z.mod_small. lia. }
  intros n c [-> ->]. cbv zeta. rewrite Hsize. replace (wrap_u 16 _) with (Z.of_nat (length es)) by (symmetry; apply Z.mod_small; lia).
  sat_step. sat_step. subst r. rewrite Halloc. rewrite bool_decide_false by (intros Hne; by apply Hne).
  sat_step. eapply (convertMafHeader4ToNtf_sat env ext cc to_imm); [done|done|done|exact Hv|exact Hname|exact Hobj| |exact Hsize|done|by rewrite Harr| |].
  { intros b Hb. destruct (Htx b Hb) as (t & Ht & ?). exists t. split; [done|]. unfold len. rewrite Hb. cbn. rewrite Ht. lia. }
  { rewrite Forall_map in Hinfo. exact Hinfo. }
  intros ins vs tr1 Hvs Hins Hids Htr1. sat_step. sat_step. subst r. rewrite Hsend. do 3 sat_step. apply sat_ret. sat_step. cbn [fst snd].
  split; [done|]. split; [done|]. exists ins, vs. split.
  { rewrite !sends_app, Htr1, sends_app. cbn. by rewrite !app_nil_r. }
  split; [|done]. cbn [v_info view_of]. apply Forall2_fmap_l. exact Hvs.
Qed.

(** ... and when it comes back it says what COM said, but for the names of the
    additional information, which are not sent. *)
Lemma sent_view answer to3gpp h obj v sev ins vs name' :
  sendable v -> dn_spec to3gpp obj = Some name' -> length ins = length vs ->
  Forall2 (fun e t => snd e = Some t) (v_info v) vs ->
  Forall (fun a => infoId a = 20 /\ infoType a = SA_NTF_VALUE_STRING) ins ->
  Forall2 (fun a t => answer h (infoValue a) = (SA_AIS_OK, t)) ins vs ->
  header_view UuidDisableHandle answer to3gpp (notificationHeader (sent_alarm h obj v sev ins)) h =
  MkView (Some name') (v_major v) (v_minor v) (v_time v) (v_text v) (map (fun e => (Some "", snd e)) (v_info v)).
Proof.
  intros (Hmin & Htime & _) Hdn Hins Hvs Hids Hans. unfold header_view, class_minor.
  cbn [sent_alarm notificationHeader notificationObject additionalInfo majorId minorId vendorId nh_eventTime].
  rewrite Hdn, class_roundtrip, time_roundtrip by done. f_equal.
  - unfold text_spec. cbn. destruct (v_text v); [cbn; by rewrite str_app_nil|done].
  - unfold copied. cbn. rewrite filter_all by (apply Forall_true; done).
    rewrite (map_ext _ (fun a => (Some "", Some (default "" (info_text answer to3gpp h a))))) by done.
    clear -Hvs Hins Hids Hans. revert ins Hins Hids Hans. induction Hvs as [|e v' es vs He _ IH]; intros [|a ins] Hins Hids Hans; try done.
    apply Forall_cons in Hids as [[_ Hty] Hids]. apply Forall2_cons in Hans as [Ha Hans]. cbn [map]. f_equal; [|apply IH; [by injection Hins|done|done]].
    unfold info_text. cbn. rewrite Hty, Ha. cbn. by rewrite He.
Qed.
