(* ===== verification/NtfAlarms.v ===== *)
(** * Notifications: alarms on their way to COM ([ntf/ComSANtf.c])

    The call-back of OpenSAF, the queue in which new alarms wait while the old ones
    are read ([NtfReader]), and their delivery.  Three threads are involved:
    the notification thread (call-backs), the reader thread, and COM's; what they
    share is protected by [alarm_queue_lock] (the queue), [notify_lock] (the
    filter) and [list_lock] (the value list). *)
From Stdlib Require Import ZArith Lia.
From stdpp Require Import base gmap list strings.
From S2P Require Import Prelude Codes NtfData NtfValues NtfInfo NtfHeader.

#[local] Open Scope string_scope.
Open Scope Z_scope.

(** [MafNameValuePairT **]: the address of the null terminated array, and the
    values (times) of its pairs. *)
Record Filter := MkFilter { f_addr : Z; f_values : list (option Z) }.
Record MafFilterT := MkMafFilter {
  consumerHandle : Z;
  eventTypeOf : option string;
  filter_of : option Filter;
  subscriptionId : Z
}.
Definition no_filter : MafFilterT := MkMafFilter 0 None None 0.

(** The file's static variables. *)
Record Alarms := MkAlarms {
  vals : Values;
  readOldAlarm : bool;
  lastNotificationMatched : bool;
  readOldAlarmDone : bool;
  sReaderMaxRetries : Z;
  alarmQueue : option ptr;
  alarmQueueFront : option ptr;
  callbackLastCmwNotificationID : Z;
  readerLastNotificationID : Z;
  nFilter_V4 : MafFilterT;
  is_ntf_stop_component : bool;
  ntf_stop_thread : bool;
  addFilter_setup : bool;
  event_router_MAF : bool;          (** not [NULL] *)
  producer_handle : Z;
  consumer_handle : Z;
  failing_over : bool;              (** [_reason == MafFailingOver] *)
  cm_locked : bool                  (** [cm_notification_lock] is held by the thread that closes *)
}.
Definition set_vals v s := MkAlarms v (readOldAlarm s) (lastNotificationMatched s) (readOldAlarmDone s) (sReaderMaxRetries s) (alarmQueue s) (alarmQueueFront s) (callbackLastCmwNotificationID s) (readerLastNotificationID s) (nFilter_V4 s) (is_ntf_stop_component s) (ntf_stop_thread s) (addFilter_setup s) (event_router_MAF s) (producer_handle s) (consumer_handle s) (failing_over s) (cm_locked s).
Definition set_reading r m d s := MkAlarms (vals s) r m d (sReaderMaxRetries s) (alarmQueue s) (alarmQueueFront s) (callbackLastCmwNotificationID s) (readerLastNotificationID s) (nFilter_V4 s) (is_ntf_stop_component s) (ntf_stop_thread s) (addFilter_setup s) (event_router_MAF s) (producer_handle s) (consumer_handle s) (failing_over s) (cm_locked s).
Definition set_retries n s := MkAlarms (vals s) (readOldAlarm s) (lastNotificationMatched s) (readOldAlarmDone s) n (alarmQueue s) (alarmQueueFront s) (callbackLastCmwNotificationID s) (readerLastNotificationID s) (nFilter_V4 s) (is_ntf_stop_component s) (ntf_stop_thread s) (addFilter_setup s) (event_router_MAF s) (producer_handle s) (consumer_handle s) (failing_over s) (cm_locked s).
Definition set_queue tl fr s := MkAlarms (vals s) (readOldAlarm s) (lastNotificationMatched s) (readOldAlarmDone s) (sReaderMaxRetries s) tl fr (callbackLastCmwNotificationID s) (readerLastNotificationID s) (nFilter_V4 s) (is_ntf_stop_component s) (ntf_stop_thread s) (addFilter_setup s) (event_router_MAF s) (producer_handle s) (consumer_handle s) (failing_over s) (cm_locked s).
Definition set_ids cb rd s := MkAlarms (vals s) (readOldAlarm s) (lastNotificationMatched s) (readOldAlarmDone s) (sReaderMaxRetries s) (alarmQueue s) (alarmQueueFront s) cb rd (nFilter_V4 s) (is_ntf_stop_component s) (ntf_stop_thread s) (addFilter_setup s) (event_router_MAF s) (producer_handle s) (consumer_handle s) (failing_over s) (cm_locked s).
Definition set_filter f s := MkAlarms (vals s) (readOldAlarm s) (lastNotificationMatched s) (readOldAlarmDone s) (sReaderMaxRetries s) (alarmQueue s) (alarmQueueFront s) (callbackLastCmwNotificationID s) (readerLastNotificationID s) f (is_ntf_stop_component s) (ntf_stop_thread s) (addFilter_setup s) (event_router_MAF s) (producer_handle s) (consumer_handle s) (failing_over s) (cm_locked s).
Definition set_stops c t s := MkAlarms (vals s) (readOldAlarm s) (lastNotificationMatched s) (readOldAlarmDone s) (sReaderMaxRetries s) (alarmQueue s) (alarmQueueFront s) (callbackLastCmwNotificationID s) (readerLastNotificationID s) (nFilter_V4 s) c t (addFilter_setup s) (event_router_MAF s) (producer_handle s) (consumer_handle s) (failing_over s) (cm_locked s).
Definition set_router a r s := MkAlarms (vals s) (readOldAlarm s) (lastNotificationMatched s) (readOldAlarmDone s) (sReaderMaxRetries s) (alarmQueue s) (alarmQueueFront s) (callbackLastCmwNotificationID s) (readerLastNotificationID s) (nFilter_V4 s) (is_ntf_stop_component s) (ntf_stop_thread s) a r (producer_handle s) (consumer_handle s) (failing_over s) (cm_locked s).
Definition set_handles p c s := MkAlarms (vals s) (readOldAlarm s) (lastNotificationMatched s) (readOldAlarmDone s) (sReaderMaxRetries s) (alarmQueue s) (alarmQueueFront s) (callbackLastCmwNotificationID s) (readerLastNotificationID s) (nFilter_V4 s) (is_ntf_stop_component s) (ntf_stop_thread s) (addFilter_setup s) (event_router_MAF s) p c (failing_over s) (cm_locked s).
Definition set_reason r s := MkAlarms (vals s) (readOldAlarm s) (lastNotificationMatched s) (readOldAlarmDone s) (sReaderMaxRetries s) (alarmQueue s) (alarmQueueFront s) (callbackLastCmwNotificationID s) (readerLastNotificationID s) (nFilter_V4 s) (is_ntf_stop_component s) (ntf_stop_thread s) (addFilter_setup s) (event_router_MAF s) (producer_handle s) (consumer_handle s) r (cm_locked s).
Definition set_cm_locked b s := MkAlarms (vals s) (readOldAlarm s) (lastNotificationMatched s) (readOldAlarmDone s) (sReaderMaxRetries s) (alarmQueue s) (alarmQueueFront s) (callbackLastCmwNotificationID s) (readerLastNotificationID s) (nFilter_V4 s) (is_ntf_stop_component s) (ntf_stop_thread s) (addFilter_setup s) (event_router_MAF s) (producer_handle s) (consumer_handle s) (failing_over s) b.

Abbreviation A := (M ntfE Alarms).
Abbreviation Fm4 := MafOamSpiNotificationFmStruct_4T.

Definition on_vals {B} (m : M ntfE Values B) : A B := zoom vals set_vals m.

Section alarms.
Context (env : environment ntfE) (bExtendedNameEnabled : bool) (uuid_cfg_flag : UuidCfg) (objects : nat).

(** A lock of the filter; its failure takes the process down. *)
Definition lock_notify : A () := on_vals (lock env notify_lock).
Definition unlock_notify : A () := on_vals (unlock env notify_lock).

Definition getNotificationId (n : SaNtfNotificationsT) : Z :=
  match notificationType n with
  | SA_NTF_TYPE_ALARM | SA_NTF_ALARM_QOS | SA_NTF_TYPE_SECURITY_ALARM => notificationId_addr (notificationHeader n)
  | _ => 0
  end.

(** ** Delivery *)
Definition sendSaNtfNotification (cn : ptr) : A () :=
  ntfContainer ← on_vals (addNotValue4 env cn);
  s ← get;
  when (event_router_MAF s)
    (match mafSpiNtfFmVersion (vals s) with
     | MafOamSpiNotificationFm_4 =>
         v ← on_vals (load (B := valueList4T) (Some ntfContainer));
         call env (notify (producer_handle s) (consumerHandle (nFilter_V4 s)) MafOamSpiNotificationFmEventType_4 (Some (comNot v)))
     | MafOamSpiNotificationFm_3 =>
         v ← on_vals (load (B := valueList4T) (Some ntfContainer));
         call env (notify (producer_handle s) (consumerHandle (nFilter_V4 s)) MafOamSpiNotificationFmEventType_2 (comNot_2 v))
     | FmNone => mret ()
     end).

(** One turn of the loop of [sendQueuedAlarms], from lock to unlock; [true]: go
    on.  A failure of this lock is only logged. *)
Definition queue_turn : A bool :=
  call env (mutex_lock alarm_queue_lock) ;;
  s ← get;
  match alarmQueueFront s with
  | None =>
      modify (fun s => set_reading false (lastNotificationMatched s) (readOldAlarmDone s) (set_queue None None s)) ;;
      call env (mutex_unlock alarm_queue_lock) ;; mret false
  | Some front =>
      a ← on_vals (load (B := AlarmObjectT) (Some front));
      cn ← of_option BadPointer (alarm a);
      sendSaNtfNotification cn ;;
      on_vals (store (Some front) (set_alarm None a)) ;;
      modify (fun s => set_queue (alarmQueue s) (a_next a) s) ;;
      on_vals (free AlarmObjectT (Some front)) ;;
      call env (mutex_unlock alarm_queue_lock) ;; mret true
  end.

Fixpoint queue_loop (fuel : nat) : A () :=
  s ← get;
  if ntf_stop_thread s then mret ()
  else
    match fuel with
    | O => exit OutOfFuel
    | S fuel =>
        more ← queue_turn;
        if (more : bool) then queue_loop fuel else mret ()
    end.

(** Every turn but the last frees a node of the queue. *)
Definition sendQueuedAlarms : A () :=
  s ← get; queue_loop (S (size (alarms (mem (vals s))))).

(** ** The call-back *)

(** The part under [alarm_queue_lock]. *)
Definition deliver_or_queue (n : SaNtfNotificationsT) (cn : ptr) : A () :=
  call env (mutex_lock alarm_queue_lock) ;;
  s ← get;
  if negb (readOldAlarm s) then
    modify (fun s => set_ids (getNotificationId n) (readerLastNotificationID s) s) ;;
    call env (mutex_unlock alarm_queue_lock) ;;
    sendSaNtfNotification cn
  else
    newAlarm ← on_vals (allocate env (MkAlarm (Some cn) None));
    newAlarm ← of_option BadPointer newAlarm;
    (match alarmQueue s with
     | None => modify (set_queue (Some newAlarm) (Some newAlarm))
     | Some last =>
         a ← on_vals (load (B := AlarmObjectT) (Some last));
         on_vals (store (Some last) (set_a_next (Some newAlarm) a)) ;;
         modify (fun s => set_queue (Some newAlarm) (alarmQueueFront s) s)
     end : A ()) ;;
    r ← call env (mutex_unlock alarm_queue_lock); mret ().

Definition free_unsent (cn : ptr) : A () :=
  on_vals (f ← load (B := Fm4) (Some cn);
           free string (dn f) ;; free string (additionalText f) ;; free Fm4 (Some cn)).

(** The conversion of an alarm, and its severity. *)
Definition convert_alarm (n : SaNtfNotificationsT) (cn : ptr) : A MafReturnT :=
  s ← get;
  maf_rc ← on_vals (convertHeader4 env bExtendedNameEnabled uuid_cfg_flag objects (bool_decide (is_Some (filter_of (nFilter_V4 s)))) n cn);
  assert_c (bool_decide (maf_rc = MafOk) || bool_decide (maf_rc = MafNotExist)) ;;
  on_vals (update_fm cn (set_severity (nSeverity n))) ;;
  mret maf_rc.

(** [subId] is the subscription of the call-back, 0 from the reader.  Notifications of
    the configuration are handled elsewhere. *)
Definition saNtfNotificationCallback4 (cmNotificationCallback : SaNtfNotificationsT -> A ()) (subId : Z) (n : SaNtfNotificationsT) : A () :=
  if subId =? CM_NOTIFICATIONS_SUBS_ID then cmNotificationCallback n
  else
    block ← on_vals (allocate env zero_fm4);
    cn ← of_option Aborted block;
    let free_handle := r ← call env (saNtfNotificationFree (notificationHandle n)); mret () in
    let alarm_body (maf_rc : MafReturnT) :=
      lock_notify ;;
      s ← get;
      let localSubId := subscriptionId (nFilter_V4 s) in
      unlock_notify ;;
      s ← get;
      if negb (localSubId =? 0) && bool_decide (maf_rc = MafOk) then
        if (subId =? 0) || readOldAlarmDone s then sendSaNtfNotification cn else deliver_or_queue n cn
      else free_unsent cn in
    match notificationType n with
    | SA_NTF_TYPE_ALARM | SA_NTF_TYPE_SECURITY_ALARM =>
        maf_rc ← convert_alarm n cn; alarm_body maf_rc ;; free_handle
    | SA_NTF_ALARM_QOS => maf_rc ← convert_alarm n cn; alarm_body maf_rc
    | SA_NTF_TYPE_STATE_CHANGE | SA_NTF_TYPE_OBJECT_CREATE_DELETE | SA_NTF_TYPE_ATTRIBUTE_CHANGE =>
        free_handle ;; on_vals (free Fm4 (Some cn))
    | SA_NTF_TYPE_other _ => alarm_body MafOk
    end.
End alarms.
