(* ===== verification/NtfReader.v ===== *)
(** * Notifications: the reader of old alarms ([ntf/ComSANtf.c])

    When COM subscribes, a thread reads the alarms COM has missed, from the
    time in the filter on, and then releases those that were queued meanwhile.
    The reading goes on as long as OpenSAF delivers notifications;
    [notifications] bounds the turns of that loop in the model. *)
From Stdlib Require Import ZArith Lia.
From stdpp Require Import base gmap list strings.
From S2P Require Import Prelude Codes NtfData NtfValues NtfInfo NtfHeader NtfAlarms.

#[local] Open Scope string_scope.
Open Scope Z_scope.

Section reader.
Context (env : environment ntfE) (bExtendedNameEnabled : bool) (uuid_cfg_flag : UuidCfg) (objects notifications : nat).
Context (cmNotificationCallback : SaNtfNotificationsT -> A ()).

Definition callback : Z -> SaNtfNotificationsT -> A () :=
  saNtfNotificationCallback4 env bExtendedNameEnabled uuid_cfg_flag objects cmNotificationCallback.

(** ** [readOldAlarms] *)

(** The time from which COM wants the alarms. *)
Definition search_time : A Z :=
  lock_notify env ;;
  s ← get;
  let t := match filter_of (nFilter_V4 s) with
           | Some f => match f_values f with Some t :: _ => t | _ => 0 end
           | None => 0
           end in
  unlock_notify env ;; mret t.

(** The handle to free, kept from the turn before when the type is unknown. *)
Definition handle_of (n : SaNtfNotificationsT) (nh : option Z) : option Z :=
  match notificationType n with
  | SA_NTF_TYPE_ALARM | SA_NTF_ALARM_QOS | SA_NTF_TYPE_SECURITY_ALARM => Some (notificationHandle n)
  | _ => nh
  end.

Definition free_read (nh : option Z) : A () :=
  h ← of_option Undefined nh;
  rc ← call env (saNtfNotificationFree h);
  assert_c (bool_decide (rc = SA_AIS_OK)).

(** A notification against the identifiers that were reported as discarded. *)
Fixpoint match_discarded (ids : list Z) (n : SaNtfNotificationsT) (nh : option Z) : A (option Z) :=
  match ids with
  | [] => mret nh
  | id :: ids =>
      if id =? notificationId (notificationHeader n) then callback 0 n ;; match_discarded ids n nh
      else
        let nh := handle_of n nh in
        free_read nh ;; match_discarded ids n nh
  end.

(** A notification of the time COM asks for; [true]: it is the last one that the
    call-back has delivered, stop. *)
Definition read_one (isDiscarded : bool) (eventTime : Z) (n : SaNtfNotificationsT) (nh : option Z) : A (bool * option Z) :=
  if (eventTime <? nh_eventTime (notificationHeader n)) || (eventTime =? 0) then
    if negb isDiscarded then
      modify (fun s => set_ids (callbackLastCmwNotificationID s) (getNotificationId n) s) ;;
      s ← get;
      if readerLastNotificationID s =? callbackLastCmwNotificationID s then
        modify (fun s => set_reading (readOldAlarm s) true (readOldAlarmDone s) s) ;;
        callback 0 n ;; mret (true, nh)
      else callback 0 n ;; mret (false, nh)
    else callback 0 n ;; mret (false, nh)
  else
    let nh := handle_of n nh in
    free_read nh ;; mret (false, nh).

Fixpoint read_loop (fuel : nat) (ids : list Z) (isDiscarded : bool) (eventTime readHandle : Z) (nh : option Z) : A SaAisErrorT :=
  r ← call env (saNtfNotificationReadNext readHandle);
  s ← get;
  if bool_decide (fst r = SA_AIS_OK) && negb (ntf_stop_thread s) then
    match fuel with
    | O => exit OutOfFuel
    | S fuel =>
        match ids with
        | _ :: _ =>
            nh ← match_discarded ids (snd r) nh;
            read_loop fuel ids isDiscarded eventTime readHandle nh
        | [] =>
            o ← read_one isDiscarded eventTime (snd r) nh;
            if (fst o : bool) then mret SA_AIS_OK else read_loop fuel ids isDiscarded eventTime readHandle (snd o)
        end
    end
  else mret (fst r).

Definition close_filters (saf af : Z) (readHandle : option Z) : A () :=
  r ← call env (saNtfNotificationFilterFree (Some saf));
  call env (saNtfNotificationReadFinalize readHandle) ;;
  r ← call env (saNtfNotificationFilterFree (Some af)); mret ().

(** The search criteria: by time at first, by the last notification later. *)
Definition search_criteria (isDiscarded : bool) : A bool :=
  if negb isDiscarded then
    modify (fun s => set_retries (wrap_u 32 (sReaderMaxRetries s + 1)) s) ;;
    s ← get;
    if readOldAlarm s then mret true
    else modify (fun s => set_reading true (lastNotificationMatched s) (readOldAlarmDone s) s) ;; mret false
  else mret false.

(** One reading; [next] is the call of the function itself for another one. *)
Definition attempt (ids : list Z) (isDiscarded : bool) (next : A SaAisErrorT) : A SaAisErrorT :=
  s ← get;
  if is_ntf_stop_component s && failing_over s then mret SA_AIS_OK
  else
    eventTime ← search_time;
    af ← call env (filterAllocate AlarmFilter);
    if bool_decide (fst af <> SA_AIS_OK) then mret (fst af)
    else
      saf ← call env (filterAllocate SecurityAlarmFilter);
      if bool_decide (fst saf <> SA_AIS_OK) then
        r ← call env (saNtfNotificationFilterFree None); mret (fst saf)   (* [fhdls.alarmFilterHandle] is set below *)
      else
        byId ← search_criteria isDiscarded;
        s ← get;
        r ← call env (saNtfNotificationReadInitialize byId eventTime (readerLastNotificationID s) [snd af; snd saf]);
        if bool_decide (fst r <> SA_AIS_OK) then close_filters (snd saf) (snd af) None ;; mret (fst r)
        else
          rc ← read_loop notifications ids isDiscarded eventTime (snd r) None;
          let rc := if bool_decide (rc = SA_AIS_ERR_NOT_EXIST) then SA_AIS_OK else rc in
          rc ← (if negb isDiscarded then
                  s ← get;
                  if lastNotificationMatched s || (callbackLastCmwNotificationID s =? 0) then sendQueuedAlarms env ;; mret rc
                  else if sReaderMaxRetries s <? OAM_SA_NTF_READER_MAX_RETRIES then
                    call env (usleep OAM_SA_NTF_RETRY_SLEEP) ;; next
                  else sendQueuedAlarms env ;; mret rc
                else mret rc : A SaAisErrorT);
          close_filters (snd saf) (snd af) (Some (snd r)) ;;
          mret rc.

(** [depth] bounds the recursion; [OAM_SA_NTF_READER_MAX_RETRIES] is enough. *)
Fixpoint readOldAlarms (depth : nat) (ids : list Z) (isDiscarded : bool) : A SaAisErrorT :=
  attempt ids isDiscarded (match depth with O => exit OutOfFuel | S depth => readOldAlarms depth [] false end).

(** ** Who calls it *)
Definition saNtfNotificationDiscardedCallback (discardedNotificationIdentifiers : list Z) : A () :=
  rc ← readOldAlarms (Z.to_nat OAM_SA_NTF_READER_MAX_RETRIES) discardedNotificationIdentifiers true; mret ().

Definition OAM_SA_NTF_RETRY (f : A SaAisErrorT) : A SaAisErrorT :=
  retry is_try_again (call env (usleep OAM_SA_NTF_RETRY_SLEEP)) f OAM_SA_NTF_MAX_RETRIES.

Definition readerThread : A () :=
  rc ← OAM_SA_NTF_RETRY (readOldAlarms (Z.to_nat OAM_SA_NTF_READER_MAX_RETRIES) [] false);
  modify (fun s => set_reading (readOldAlarm s) (lastNotificationMatched s) true s).

Definition createReaderThread : A MafReturnT :=
  rc ← call env pthread_create;
  if negb (rc =? 0) then mret MafFailure
  else
    rc ← call env pthread_detach;
    if negb (rc =? 0) then mret MafFailure else mret MafOk.
End reader.
