(* ===== verification/NtfAlarmProps.v ===== *)
(** * Notifications: the queue of alarms that wait for the old ones

    While the old alarms are read, the notification thread appends new ones to
    a queue and the reader thread delivers from its front, one lock section
    each.  The sections of the two threads, in any order, refine a queue of
    notifications; one order ends in an access to freed memory, and the
    specification says which. *)
From Stdlib Require Import ZArith Lia.
From stdpp Require Import base gmap list strings.
From S2P Require Import Prelude Marks Codes NtfData NtfValues NtfValueFacts NtfValueProps NtfPmProps NtfHeaderProps NtfAlarms.

Open Scope Z_scope.

(** ** What COM is told *)
Definition notified (e : event ntfE) : option (option ptr) :=
  match e with Ev (notify _ _ _ v) _ => Some v | _ => None end.

Section post_emits.
Context {E : Type -> Type} {S X A : Type} (f : event E -> option X).

Lemma post_emits (m : M E S A) s tr (Q : A -> S -> Prop) (R : A -> S -> list X -> Prop) Y :
  post m (s, tr) (fun a c => Q a c.1) Y -> emits f m s R ->
  post m (s, tr) (fun a c => Q a c.1 /\ exists l, omap f c.2 = omap f tr ++ l /\ R a c.1 l) Y.
Proof.
  intros HQ HR. specialize (HR tr). unfold post in *. destruct (m (s, tr)) as [[a|w] [s' tr']]; [|done].
  destruct HR as (new & Htr & HR). cbn [fst snd] in *. subst tr'. split; [done|]. eexists. by rewrite omap_app.
Qed.
End post_emits.

Section mute.
Context (env : environment ntfE).
Abbreviation mute := (silent (S := Values) notified).

Lemma mute_load {B} `{Block B} o : mute (load o : V B).
Proof. unfold load. silence. Qed.
Lemma mute_store {B} `{Block B} o (b : B) : mute (store o b).
Proof. unfold store, write. apply silent_bind; [apply mute_load|intros _]. silence. Qed.
Lemma mute_allocate {B} `{Block B} (b : B) : mute (allocate env b).
Proof. unfold allocate, write. silence. Qed.
Lemma mute_addNotValue4 cn : mute (addNotValue4 env cn).
Proof.
  unfold addNotValue4, lock, unlock, checked.
  repeat first [apply mute_load|apply mute_store|apply mute_allocate|progress silence].
Qed.
End mute.

(** ** Representation *)
Abbreviation waiting := (list (ptr * item)).
Definition slots (l : waiting) : list (ptr * option ptr) := map (fun x => (fst x, Some (i_fm (snd x)))) l.

(** The queue in its heap; [stale]: the node [alarmQueue] refers to is gone. *)
Record queue (h : gmap ptr AlarmObjectT) (front last : option ptr) (l : waiting) (stale : bool) : Prop := MkQueue {
  q_list : lseg a_next alarm h front (slots l) None;
  q_nodes : NoDup l.*1;
  q_last : if stale then l = [] /\ exists p, last = Some p /\ h !! p = None else last = last_ptr (slots l) None
}.

(** The notifications that wait own their blocks, apart from each other. *)
Fixpoint owned (l : list item) (F : Mem) : Prop :=
  match l with [] => True | i :: l => item_ok F i /\ owned l (drop i F) end.

Lemma slots_keys l : (slots l).*1 = l.*1.
Proof. unfold slots. induction l as [|x l IH]; cbn; [done|]. by rewrite IH. Qed.
Lemma slots_app l l' : slots (l ++ l') = slots l ++ slots l'.
Proof. apply map_app. Qed.

(** The memory with another heap of queue nodes. *)
Definition with_alarms (h : gmap ptr AlarmObjectT) (m : Mem) : Mem := set_heap h m.

Lemma item_ok_alarms h i m : item_ok m i -> item_ok (with_alarms h m) i.
Proof. intros [? ? ? ?]. by split. Qed.
Lemma owned_alarms h l m : owned l m -> owned l (with_alarms h m).
Proof.
  revert m. induction l as [|i l IH]; intros m; [done|]. intros [Hi Hl]. split; [by apply item_ok_alarms|].
  apply (IH (drop i m)), Hl.
Qed.
Lemma repr_alarms h v xs : repr v xs -> repr (set_mem (with_alarms h (mem v)) v) xs.
Proof.
  intros [? ? ? ? ? ? Hit]. split; try done. eapply Forall_impl; [exact Hit|]. intros x. apply item_ok_alarms.
Qed.
Lemma rest_alarms h m xs : rest (with_alarms h m) xs = with_alarms h (rest m xs).
Proof. done. Qed.

(** ** Delivery *)
Section alarms.
Context (env : environment ntfE).

(** The component delivers to COM in the version it opened. *)
Record open_state (s : Alarms) (xs : list node) : Prop := MkOpen {
  o_repr : repr (vals s) xs;
  o_version : mafSpiNtfFmVersion (vals s) = MafOamSpiNotificationFm_4;
  o_router : event_router_MAF s = true;
  o_running : ntf_stop_thread s = false
}.

Lemma last_node v xs ne i : repr v (xs ++ [(ne, i)]) -> exists b, values (mem v) !! ne = Some b /\ comNot b = i_fm i.
Proof.
  intros [Hl _ _ _ _ _ _]. rewrite cells_app in Hl. apply lseg_app in Hl as (mid & _ & b & _ & Hb & Hc & _). eauto.
Qed.

Lemma addNotValue4_last v xs i tr :
  repr v xs -> mafSpiNtfFmVersion v = MafOamSpiNotificationFm_4 -> item_ok (rest (mem v) xs) i ->
  post (addNotValue4 env (i_fm i)) (v, tr) (fun ne c =>
    (repr (fst c) (xs ++ [(ne, i)]) /\ rest (mem (fst c)) (xs ++ [(ne, i)]) = drop i (rest (mem v) xs) /\
    mafSpiNtfFmVersion (fst c) = mafSpiNtfFmVersion v) /\ omap notified (snd c) = omap notified tr) (fun w => w = Aborted).
Proof.
  intros Hr Hv Hi. eapply post_mono; [eapply (post_emits notified (addNotValue4 env (i_fm i)) v tr
    (fun ne v' => repr v' (xs ++ [(ne, i)]) /\ rest (mem v') (xs ++ [(ne, i)]) = drop i (rest (mem v) xs) /\
      mafSpiNtfFmVersion v' = mafSpiNtfFmVersion v) (fun _ _ l => l = []) (fun w => w = Aborted))| |done].
  - by apply addNotValue4_post.
  - apply mute_addNotValue4. done.
  - intros ne c (HQ & l & Hl & ->). rewrite app_nil_r in Hl. done.
Qed.

Lemma sendSaNtfNotification_post s xs i tr :
  open_state s xs -> item_ok (rest (mem (vals s)) xs) i ->
  post (sendSaNtfNotification env (i_fm i)) (s, tr) (fun _ c => exists ne v, c.1 = set_vals v s /\
    open_state c.1 (xs ++ [(ne, i)]) /\ rest (mem v) (xs ++ [(ne, i)]) = drop i (rest (mem (vals s)) xs) /\
    omap notified c.2 = omap notified tr ++ [Some (i_fm i)]) (fun w => w = Aborted).
Proof.
  intros [Hr Hv Hrt Hrun] Hi. unfold sendSaNtfNotification, on_vals. post_step.
  apply post_zoom. eapply post_mono; [by apply addNotValue4_last| |done].
  intros ne [v tr1] ((Hr1 & Hrest1 & Hv1) & Hn1). cbn [fst snd] in *. rewrite Hv in Hv1.
  do 2 post_step. cbn [event_router_MAF set_vals vals]. rewrite Hrt, Hv1. cbn [when].
  destruct (last_node _ _ _ _ Hr1) as (b & Hb & Hcn).
  post_step. apply post_zoom. eapply sat_post, sat_load_block; [exact Hb|]. cbn [fst snd].
  eapply sat_post, sat_call. intros r _. exists ne, v. split_and!; [by destruct s|by split| exact Hrest1|].
  cbn [snd]. rewrite omap_app, Hn1. cbn. by rewrite Hcn.
Qed.

(** ** The lock sections *)
Lemma queue_append h front last l p (cn : item) :
  h !! p = None -> queue h front last l false ->
  match last with
  | None => queue (<[p := MkAlarm (Some (i_fm cn)) None]> h) (Some p) (Some p) (l ++ [(p, cn)]) false
  | Some q => exists a, h !! q = Some a /\ q <> p /\
      queue (<[q := set_a_next (Some p) a]> (<[p := MkAlarm (Some (i_fm cn)) None]> h)) front (Some p) (l ++ [(p, cn)]) false
  end.
Proof.
  intros Hp [Hl Hn Hlast]. assert (Hni : p ∉ l.*1).
  { intros Hin. rewrite <- slots_keys in Hin. destruct (lseg_alive _ _ _ _ _ _ _ Hl Hin) as [? ?]. congruence. }
  assert (Hn' : NoDup (l ++ [(p, cn)]).*1).
  { rewrite fmap_app. apply NoDup_app. split_and!; [done|set_solver|apply NoDup_singleton]. }
  destruct l as [|x l _] using rev_ind; cbn in Hlast.
  - subst last. split; [|done|by cbn]. eexists. cbn. by rewrite lookup_insert_eq.
  - rewrite slots_app in Hl, Hlast. cbn in Hl, Hlast. rewrite last_ptr_snoc in Hlast. subst last.
    rewrite fmap_app in Hn, Hni. cbn in Hn, Hni.
    assert (Hx : x.1 ∉ (slots l).*1) by (rewrite slots_keys; apply NoDup_app in Hn as (_ & Hn & _); intros ?; eapply Hn; set_solver).
    assert (Hnx : x.1 <> p) by set_solver.
    destruct (lseg_relink a_next alarm set_a_next ltac:(done) ltac:(done) _ _ _ _ _ _ Hx Hl) as (a & Ha & _ & _ & Hre).
    exists a. split_and!; [done|done|]. split; [|done|by rewrite slots_app; cbn; rewrite last_ptr_snoc].
    rewrite !slots_app. cbn. apply lseg_app. exists (Some p). split.
    + rewrite insert_insert_ne by done. apply lseg_insert; [|apply Hre]. rewrite fmap_app, slots_keys. cbn. set_solver.
    + exists (MkAlarm (Some (i_fm cn)) None). by rewrite lookup_insert_ne, lookup_insert_eq.
Qed.

Lemma queue_pop h front last p i l stale : queue h front last ((p, i) :: l) stale ->
  front = Some p /\ exists a, h !! p = Some a /\ alarm a = Some (i_fm i) /\
  queue (delete p h) (a_next a) last l (bool_decide (l = [])).
Proof.
  intros [Hl Hn Hlast]. destruct stale; [by destruct Hlast|]. destruct Hl as (a & -> & Ha & Hc & Hl). cbn in Hc.
  apply NoDup_cons in Hn as [Hni Hn]. split; [done|]. exists a. split_and!; [done|done|]. split; [|done|].
  - apply lseg_delete; [by rewrite slots_keys|done].
  - cbn [slots map fst snd] in Hlast. fold (slots l) in Hlast. rewrite last_ptr_cons in Hlast. case_bool_decide as El.
    + subst l. split; [done|]. exists p. split; [done|]. apply lookup_delete_eq.
    + rewrite Hlast. destruct l as [|x l _] using rev_ind; [done|]. rewrite slots_app. cbn. by rewrite !last_ptr_snoc.
Qed.

(** What is in memory besides the list of values and the queue. *)
Definition outside (s : Alarms) (xs : list node) (l : waiting) : Mem :=
  with_alarms (deletes l.*1 (alarms (mem (vals s)))) (rest (mem (vals s)) xs).

(** One section of either thread. *)
Inductive queue_op :=
| Arrive (n : SaNtfNotificationsT) (i : item)   (** the call-back, with the structure it made *)
| Turn.                                         (** a turn of the reader's loop *)
Definition exec_section (o : queue_op) : A () :=
  match o with
  | Arrive n i => deliver_or_queue env n (i_fm i)
  | Turn => more ← queue_turn env; mret ()
  end.
Fixpoint exec_sections (os : list queue_op) : A () :=
  match os with [] => mret () | o :: os => exec_section o ;; exec_sections os end.
End alarms.

(** ** Specification *)
Record Fifo := MkFifo {
  lent : list item;        (** given to COM *)
  held : list item;        (** waiting *)
  reading : bool;          (** the old alarms are being read *)
  stale : bool             (** the last turn has emptied the queue *)
}.
(** [None]: the node that was freed last is written to. *)
Definition fifo_step (o : queue_op) (q : Fifo) : option Fifo :=
  match o with
  | Arrive _ i =>
      if reading q then
        if stale q then None else Some (MkFifo (lent q) (held q ++ [i]) true false)
      else Some (MkFifo (lent q ++ [i]) (held q) false (stale q))
  | Turn =>
      match held q with
      | [] => Some (MkFifo (lent q) [] false false)
      | i :: l => Some (MkFifo (lent q ++ [i]) l (reading q) (bool_decide (l = [])))
      end
  end.
Fixpoint fifo_run (os : list queue_op) (q : Fifo) : option Fifo :=
  match os with [] => Some q | o :: os => q ← fifo_step o q; fifo_run os q end.
Definition arrivals (os : list queue_op) : list item :=
  omap (fun o => match o with Arrive _ i => Some i | Turn => None end) os.

(** First in, first out. *)
Lemma fifo_step_order o q q' : (reading q = false -> held q = []) -> fifo_step o q = Some q' ->
  lent q' ++ held q' = lent q ++ held q ++ arrivals [o] /\ (reading q' = false -> held q' = []).
Proof.
  intros Hidle. destruct o as [n i|]; cbn.
  - destruct (reading q); [destruct (stale q); [done|]|]; intros [= <-]; cbn; [by split|].
    rewrite Hidle by done. by rewrite app_nil_r.
  - rewrite app_nil_r. destruct (held q) as [|j l] eqn:Eh; intros [= <-]; cbn; [by split|]. rewrite <- app_assoc. split; [done|].
    intros Hr. by specialize (Hidle Hr).
Qed.
Lemma arrivals_cons o os : arrivals (o :: os) = arrivals [o] ++ arrivals os.
Proof. by destruct o. Qed.
Lemma fifo_run_order os q q' : (reading q = false -> held q = []) -> fifo_run os q = Some q' ->
  lent q' ++ held q' = lent q ++ held q ++ arrivals os.
Proof.
  revert q. induction os as [|o os IH]; intros q Hidle Hrun; [injection Hrun as <-; by rewrite app_nil_r|].
  cbn [fifo_run] in Hrun. destruct (fifo_step o q) as [q1|] eqn:Eo; [|done]. cbn in Hrun.
  destruct (fifo_step_order _ _ _ Hidle Eo) as [Heq Hidle1]. rewrite (IH _ Hidle1 Hrun), app_assoc, Heq, (arrivals_cons o os).
  by rewrite !app_assoc.
Qed.

Section refinement.
Context (env : environment ntfE) (memory_left : forall tr, env _ tr malloc = true).

Record related (s : Alarms) (q : Fifo) (xs : list node) (l : waiting) : Prop := MkRelated {
  rel_open : open_state s xs;
  rel_lent : map snd xs = lent q;
  rel_held : map snd l = held q;
  rel_reading : readOldAlarm s = reading q;
  rel_queue : queue (alarms (mem (vals s))) (alarmQueueFront s) (alarmQueue s) l (stale q);
  rel_idle : reading q = false -> held q = []
}.

(** After a section: the next state of the specification, with what COM was told. *)
Definition next (q' : Fifo) (told : list item) (s : Alarms) (xs : list node) (l : waiting) (tr : list (event ntfE))
    (c : Alarms * list (event ntfE)) : Prop :=
  exists xs' l', related c.1 q' xs' l' /\ outside c.1 xs' l' = foldl (fun F i => drop i F) (outside s xs l) told /\
    omap notified c.2 = omap notified tr ++ map (fun i => Some (i_fm i)) told.

Lemma item_ok_outside s xs l i : item_ok (outside s xs l) i -> item_ok (rest (mem (vals s)) xs) i.
Proof.
  intros Hi. exact (item_ok_alarms (alarms (mem (vals s))) _ _ Hi).
Qed.

Lemma turn_post s q xs l tr : related s q xs l -> owned (held q) (outside s xs l) ->
  exists q', fifo_step Turn q = Some q' /\
  post (queue_turn env) (s, tr) (fun more c => more = negb (bool_decide (held q = [])) /\
    next q' (take 1 (held q)) s xs l tr c) (fun w => w = Aborted).
Proof.
  intros [Ho Hlent Hheld Hread Hq Hidle] Hown. cbn [fifo_step]. rewrite <- Hheld in Hown, Hidle |- *.
  destruct l as [|[p i] l]; cbn [map snd] in *.
  - eexists. split; [done|]. unfold queue_turn. post_step. post_step. do 2 post_step.
    assert (alarmQueueFront s = None) as -> by (destruct Hq as [Hl _ _]; exact Hl). repeat post_step. split; [done|].
    exists xs, []. cbn [fst snd]. split_and!.
    + split; try done; [by destruct Ho as [? ? ? ?]; split|by split; [|apply NoDup_nil_2|]].
    + done.
    + by rewrite !omap_app; cbn; rewrite !app_nil_r.
  - eexists. split; [done|]. destruct (queue_pop _ _ _ _ _ _ _ Hq) as (Hf & a & Ha & Hal & Hq').
    destruct Hown as [Hi _]. unfold queue_turn. post_step. post_step. do 2 post_step. rewrite Hf. unfold on_vals.
    post_step. apply post_zoom. eapply sat_post, sat_load_block; [exact Ha|]. cbn [fst snd]. post_step.
    eapply sat_post, sat_of_option; [exact Hal|].
    assert (Hsame : set_vals (vals s) s = s) by (by destruct s). rewrite Hsame.
    post_step. eapply post_mono; [apply sendSaNtfNotification_post; [exact Ho|by eapply item_ok_outside]| |done].
    intros [] [s1 tr1] (ne & v & Hs1 & Ho1 & Hrest1 & Hn1). cbn [fst snd] in *. subst s1.
    assert (Hav : alarms (mem v) = alarms (mem (vals s))) by exact (f_equal alarms Hrest1).
    post_step. apply post_zoom. eapply sat_post, sat_store_block; [cbn; rewrite Hav; exact Ha|]. cbn [fst snd].
    post_step. post_step. post_step. apply post_zoom. eapply sat_post, sat_free_block; [cbn; by rewrite lookup_insert_eq|].
    cbn [fst snd]. do 3 post_step. split; [done|]. exists (xs ++ [(ne, i)]), l.
    destruct Ho1 as [Hr1 Hv1 Hrt1 Hrun1]. cbn in Hr1, Hv1, Hrt1, Hrun1.
    assert (Hheap : delete p (<[p:=set_alarm None a]> (alarms (mem v))) = delete p (alarms (mem (vals s))))
      by (by rewrite Hav, delete_insert_eq).
    split_and!; cbn [fst snd].
    + split; cbn [lent held reading stale].
      * split; [|done|done|done]. cbn. rewrite Hheap. exact (repr_alarms _ _ _ Hr1).
      * rewrite map_app, Hlent. done.
      * done.
      * done.
      * cbn. rewrite Hheap. rewrite (bool_decide_ext (map snd l = []) (l = [])) by (by destruct l). exact Hq'.
      * intros Hrf. specialize (Hidle Hrf). done.
    + unfold outside. cbn. rewrite Hheap. rewrite deletes_delete. unfold with_alarms. cbn.
      pose proof Hrest1 as Hr'. unfold rest, drop in Hr'. cbn in Hr'. unfold rest, drop. cbn. 
      injection Hr' as H1 H2 H3 H4 H5 H6. by rewrite H1, H2, H3, H4, H5.
    + rewrite omap_app, Hn1, omap_app. cbn. by rewrite !app_nil_r.
Qed.

(** A new node of the queue, at an address that is free. *)
Lemma allocate_alarm (b : AlarmObjectT) s tr (Q : option ptr -> _ -> Prop) Y :
  (forall p, alarms (mem (vals s)) !! p = None ->
     Q (Some p) (set_vals (set_mem (with_alarms (<[p := b]> (alarms (mem (vals s)))) (mem (vals s))) (vals s)) s, tr ++ [Ev malloc true])) ->
  post (on_vals (allocate env b)) (s, tr) Q Y.
Proof using memory_left.
  intros HQ. unfold on_vals. apply post_zoom. unfold allocate. post_step. eapply sat_post, sat_call. intros r <-.
  rewrite memory_left. do 2 post_step. unfold write. do 3 post_step. apply HQ. apply not_elem_of_dom. apply is_fresh.
Qed.

Lemma related_alarms s q xs l h front last rd told : open_state s xs ->
  map snd xs = lent q -> map snd told = held q -> rd = reading q -> queue h front last told (stale q) -> (reading q = false -> held q = []) ->
  forall s', s' = set_queue last front (set_vals (set_mem (with_alarms h (mem (vals s))) (vals s)) s) -> readOldAlarm s = rd ->
  deletes told.*1 h = deletes l.*1 (alarms (mem (vals s))) -> related s' q xs told /\ outside s' xs told = outside s xs l.
Proof.
  intros [Hr Hv Hrt Hrun] ? ? ? ? ? s' -> ? Hh. split.
  - split; [|done|done|cbn; congruence|done|done]. split; [exact (repr_alarms h _ _ Hr)|exact Hv|exact Hrt|exact Hrun].
  - unfold outside. cbn. by rewrite Hh.
Qed.

(** The alarm goes to the end of the queue, or straight to COM. *)
Lemma arrive_post s q q' xs l n i tr :
  related s q xs l -> item_ok (outside s xs l) i -> fifo_step (Arrive n i) q = Some q' ->
  post (deliver_or_queue env n (i_fm i)) (s, tr) (fun _ => next q' (if reading q then [] else [i]) s xs l tr) (fun w => w = Aborted).
Proof using memory_left.
  intros [Ho Hlent Hheld Hread Hq Hidle] Hi Hstep. unfold deliver_or_queue. do 4 post_step. rewrite Hread.
  cbn [fifo_step] in Hstep. destruct (reading q) eqn:Er; cbn [negb].
  - destruct (stale q) eqn:Es; [done|]. injection Hstep as <-. post_step. apply allocate_alarm. intros p Hp.
    post_step. eapply sat_post, sat_of_option; [done|].
    pose proof (queue_append _ _ _ _ p i Hp Hq) as Happ. cbn [alarmQueue set_vals].
    assert (Hkeys : forall h, deletes (p :: l.*1) h = deletes l.*1 (alarms (mem (vals s))) ->
      deletes (l ++ [(p, i)]).*1 h = deletes l.*1 (alarms (mem (vals s)))).
    { intros h <-. apply deletes_ext. intros k. rewrite fmap_app. cbn. set_solver. }
    assert (Hnone : forall ks, deletes (p :: ks) (<[p:=MkAlarm (Some (i_fm i)) None]> (alarms (mem (vals s)))) = deletes ks (alarms (mem (vals s)))).
    { intros ks. rewrite deletes_insert_in by (by left). apply (deletes_none [p]).
      intros k ->%list_elem_of_singleton. destruct (decide (p ∈ ks)); [by apply lookup_deletes_in|by rewrite lookup_deletes_out]. }
    destruct (alarmQueue s) as [last|] eqn:El.
    + destruct Happ as (a & Ha & Hne & Happ).
      assert (Hlive : last ∈ l.*1).
      { destruct Hq as [_ _ Hl]. symmetry in Hl. apply last_ptr_in in Hl. by rewrite slots_keys in Hl. }
      destruct (related_alarms s (MkFifo (lent q) (held q ++ [i]) true false) xs l _ _ _ true (l ++ [(p, i)]) Ho Hlent
        ltac:(by rewrite map_app, Hheld) eq_refl Happ ltac:(done) _ eq_refl Hread) as [Hrel Hout].
      { apply Hkeys. rewrite deletes_insert_in by (by right). apply Hnone. }
      unfold on_vals. do 2 post_step. apply post_zoom. eapply sat_post, sat_load_block; [cbn; by rewrite lookup_insert_ne by done|].
      cbn [fst snd]. post_step. apply post_zoom. eapply sat_post, sat_store_block; [cbn; by rewrite lookup_insert_ne by done|].
      cbn [fst snd]. repeat post_step. exists xs, (l ++ [(p, i)]). split_and!; [exact Hrel|exact Hout|].
      cbn [snd]. rewrite !omap_app. cbn. by rewrite !app_nil_r.
    + destruct (related_alarms s (MkFifo (lent q) (held q ++ [i]) true false) xs l _ _ _ true (l ++ [(p, i)]) Ho Hlent
        ltac:(by rewrite map_app, Hheld) eq_refl Happ ltac:(done) _ eq_refl Hread ltac:(by apply Hkeys)) as [Hrel Hout].
      repeat post_step. exists xs, (l ++ [(p, i)]). split_and!; [exact Hrel|exact Hout|by cbn [snd]; rewrite !omap_app; cbn; rewrite !app_nil_r].
  - injection Hstep as <-. do 4 post_step. change (set_vals (vals s) s) with s.
    eapply post_mono; [apply sendSaNtfNotification_post; [|by eapply item_ok_outside]| |done].
    + destruct Ho as [? ? ? ?]. by split.
    + intros [] [s1 tr1] (ne & v & Hs1 & Ho1 & Hrest1 & Hn1). cbn [fst snd] in *. subst s1.
      assert (Hav : alarms (mem v) = alarms (mem (vals s))) by exact (f_equal alarms Hrest1).
      exists (xs ++ [(ne, i)]), l. split_and!.
      * split; [exact Ho1|by rewrite map_app; cbn; rewrite Hlent|done|done|cbn; by rewrite Hav|done].
      * transitivity (with_alarms (deletes l.*1 (alarms (mem v))) (rest (mem v) (xs ++ [(ne, i)]))); [done|]. by rewrite Hav, Hrest1.
      * cbn [snd]. rewrite Hn1, !omap_app. cbn. by rewrite !app_nil_r.
Qed.

(** ** Any order of sections *)
Lemma item_ok_undrop i j m : item_ok (drop j m) i -> item_ok m i.
Proof.
  intros [(f & Hf & Hfs) Hes Hlive Hnd]. cbn in Hf. apply lookup_delete_Some in Hf as [_ Hf].
  assert (Hback : forall {B} ks (h : gmap ptr B) k b, deletes ks h !! k = Some b -> h !! k = Some b).
  { intros B ks h k b Hk. destruct (decide (k ∈ ks)) as [Hin|Hin]; [by rewrite lookup_deletes_in in Hk|by rewrite lookup_deletes_out in Hk]. }
  split; [by exists f|destruct (i_arr i); [exact (Hback _ (opt (i_arr j)) _ _ _ Hes)|done]| |done].
  intros p Hp. destruct (Hlive p Hp) as [t Ht]. exists t. exact (Hback _ (i_texts j) _ _ _ Ht).
Qed.
Lemma owned_middle l i r F : owned (l ++ i :: r) F -> item_ok F i.
Proof.
  revert F. induction l as [|j l IH]; intros F; [by intros []|]. cbn. intros [_ Hl]. eapply item_ok_undrop. by apply IH.
Qed.
Lemma owned_front l r F : owned (l ++ r) F -> owned l F.
Proof. revert F. induction l as [|j l IH]; intros F; [done|]. cbn. intros [? Hl]. split; [done|by apply IH]. Qed.

Lemma section_post o q q' s xs l tr later :
  related s q xs l -> owned (held q ++ arrivals [o] ++ later) (outside s xs l) -> fifo_step o q = Some q' ->
  exists told, lent q' = lent q ++ told /\
    owned (held q' ++ later) (foldl (fun F i => drop i F) (outside s xs l) told) /\
    post (exec_section env o) (s, tr) (fun _ => next q' told s xs l tr) (fun w => w = Aborted).
Proof using memory_left.
  intros Hrel Hown Hstep. pose proof (rel_idle _ _ _ _ Hrel) as Hidle. destruct o as [n i|]; cbn [arrivals omap list_omap app] in *.
  - exists (if reading q then [] else [i]). pose proof (arrive_post s q q' xs l n i tr Hrel (owned_middle _ _ _ _ Hown) Hstep) as Hp.
    cbn [fifo_step] in Hstep. destruct (reading q); [destruct (stale q); [done|]|rewrite Hidle in * by done]; injection Hstep as <-;
      cbn [lent held foldl app] in *; rewrite ?app_nil_r, <- ?app_assoc; split_and!; try done. by destruct Hown.
  - destruct (turn_post s q xs l tr Hrel (owned_front _ _ _ Hown)) as (q1 & Hstep1 & Hp).
    rewrite Hstep in Hstep1. injection Hstep1 as <-. exists (take 1 (held q)). split_and!.
    + cbn [fifo_step] in Hstep. destruct (held q); injection Hstep as <-; cbn; [by rewrite app_nil_r|by rewrite take_0].
    + cbn [fifo_step] in Hstep. destruct (held q); injection Hstep as <-; cbn in *; [done|rewrite take_0; by destruct Hown].
    + cbn [exec_section]. post_step. eapply post_mono; [exact Hp| |done]. intros more c [_ Hn]. post_step. by destruct c.
Qed.

Lemma next_trans q1 q2 t1 t2 s s1 xs xs1 l l1 tr c :
  outside s1 xs1 l1 = foldl (fun F i => drop i F) (outside s xs l) t1 ->
  forall tr1, omap notified tr1 = omap notified tr ++ map (fun i => Some (i_fm i)) t1 ->
  related s1 q1 xs1 l1 -> next q2 t2 s1 xs1 l1 tr1 c -> next q2 (t1 ++ t2) s xs l tr c.
Proof.
  intros Hout tr1 Htr _ (xs2 & l2 & Hrel & Hout2 & Htr2). exists xs2, l2. split_and!; [done| |].
  - by rewrite foldl_app, <- Hout.
  - by rewrite Htr2, Htr, map_app, app_assoc.
Qed.
End refinement.

(** C10. Refinement.  The notification thread and the reader thread share the
    queue of alarms one lock section at a time.  In any order of their sections
    in which no alarm arrives between the turn that empties the queue and the
    reader's last one, the component is a first-in first-out buffer: COM is told
    of the alarms in the order of their arrival, each once and none lost; every
    node of the queue is freed when its alarm is delivered; and the rest of the
    memory is what it was, less the notifications lent to COM. *)
Theorem alarm_queue_refines (env : environment ntfE) os s q q' xs l tr
    (memory : forall tr, env _ tr malloc = true) (Hrel : related s q xs l)
    (Hown : owned (held q ++ arrivals os) (outside s xs l)) (Hrun : fifo_run os q = Some q') :
  lent q' ++ held q' = lent q ++ held q ++ arrivals os /\
  post (exec_sections env os) (s, tr) (fun _ c => exists told, lent q' = lent q ++ told /\ next q' told s xs l tr c)
    (fun w => w = Aborted).
Proof.
  split; [by eapply fifo_run_order; [exact (rel_idle _ _ _ _ Hrel)|]|].
  revert s q xs l tr Hrel Hown Hrun. induction os as [|o os IH]; intros s q xs l tr Hrel Hown Hrun.
  - injection Hrun as <-. cbn [exec_sections]. post_step. exists []. rewrite app_nil_r. split; [done|].
    exists xs, l. split_and!; [done|done|by rewrite app_nil_r].
  - cbn [fifo_run] in Hrun. destruct (fifo_step o q) as [q1|] eqn:Eo; [|done]. cbn in Hrun.
    rewrite (arrivals_cons o os) in Hown.
    destruct (section_post env memory o q q1 s xs l tr _ Hrel Hown Eo) as (told & Hl1 & Hown1 & Hp).
    cbn [exec_sections]. post_step. eapply post_mono; [exact Hp| |done].
    intros [] [s1 tr1] (xs1 & l1 & Hrel1 & Hout1 & Htr1). cbn [fst snd] in *. rewrite <- Hout1 in Hown1.
    eapply post_mono; [exact (IH s1 q1 xs1 l1 tr1 Hrel1 Hown1 Hrun)| |done].
    intros [] c (told1 & Hl2 & Hnext). exists (told ++ told1). split; [by rewrite Hl2, Hl1, app_assoc|].
    eapply next_trans; [exact Hout1|exact Htr1|exact Hrel1|exact Hnext].
Qed.

(** ** All of them *)
Lemma queue_loop_post env fuel s q xs l tr :
  related s q xs l -> owned (held q) (outside s xs l) -> (length l < fuel)%nat ->
  post (queue_loop env fuel) (s, tr) (fun _ => next (MkFifo (lent q ++ held q) [] false false) (held q) s xs l tr) (fun w => w = Aborted).
Proof.
  revert s q xs l tr. induction fuel as [|fuel IH]; intros s q xs l tr Hrel Hown Hfuel; [lia|].
  cbn [queue_loop]. do 2 post_step. destruct (rel_open _ _ _ _ Hrel) as [_ _ _ ->]. post_step.
  destruct (turn_post env s q xs l tr Hrel Hown) as (q1 & Hstep & Hp). eapply post_mono; [exact Hp| |done].
  intros more [s1 tr1] [-> Hnext]. cbn [fifo_step] in Hstep. pose proof (rel_held _ _ _ _ Hrel) as Hheld.
  destruct (held q) as [|i r] eqn:Eh; injection Hstep as <-.
  - rewrite bool_decide_true by done. cbn [negb]. post_step. rewrite app_nil_r. exact Hnext.
  - rewrite bool_decide_false by done. cbn [negb]. cbn [take] in Hnext. rewrite take_0 in Hnext.
    destruct Hnext as (xs1 & l1 & Hrel1 & Hout1 & Htr1). cbn [fst snd] in *.
    pose proof (rel_held _ _ _ _ Hrel1) as Hheld1. cbn [held] in Hheld1.
    eapply post_mono; [apply (IH s1 _ xs1 l1 tr1 Hrel1)| |done].
    + rewrite Hout1. cbn. by destruct Hown.
    + apply (f_equal length) in Hheld, Hheld1. rewrite length_map in Hheld, Hheld1. cbn in Hheld. lia.
    + intros [] c Hn. cbn [lent held] in Hn. rewrite <- app_assoc in Hn.
      eapply (next_trans _ _ [i]); [exact Hout1|exact Htr1|exact Hrel1|exact Hn].
Qed.

(** C11. Termination.  [sendQueuedAlarms] comes to an end: every alarm that
    waits is delivered to COM, once and in the order of the queue, every node
    is freed, the queue is empty and not stale, and the reading is over, so
    that later alarms go straight to COM. *)
Theorem sendQueuedAlarms_delivers (env : environment ntfE) s q xs l tr
    (Hrel : related s q xs l) (Hown : owned (held q) (outside s xs l)) :
  post (sendQueuedAlarms env) (s, tr)
    (fun _ => next (MkFifo (lent q ++ held q) [] false false) (held q) s xs l tr) (fun w => w = Aborted).
Proof.
  unfold sendQueuedAlarms. do 2 post_step. apply queue_loop_post; [done|done|].
  destruct (rel_queue _ _ _ _ Hrel) as [Hl Hn _]. apply le_n_S. rewrite <- (length_map (fun x => (fst x, Some (i_fm (snd x)))) l).
  eapply (lseg_length a_next alarm); [|exact Hl]. by rewrite slots_keys.
Qed.

(** Error behaviour.  An alarm that arrives between the turn that empties the
    queue and the reader's last one is lost: the call-back links it behind
    the node that was freed.  Either that access faults, or the address has been
    handed out again for the new node, which then refers to itself and is never
    found: the reader's next turn ends the reading with the alarm undelivered. *)
Theorem stale_arrival_lost (env : environment ntfE) s q xs l n i tr
    (memory : forall tr, env _ tr malloc = true) (Hrel : related s q xs l) (Hreading : reading q = true) (Hstale : stale q = true) :
  post (deliver_or_queue env n (i_fm i) ;; queue_turn env) (s, tr)
    (fun more c => more = false /\ omap notified c.2 = omap notified tr /\ readOldAlarm c.1 = false /\
       exists p, alarms (mem (vals s)) !! p = None /\ alarms (mem (vals c.1)) !! p = Some (MkAlarm (Some (i_fm i)) (Some p)))
    (fun w => w = BadPointer).
Proof.
  destruct Hrel as [Ho Hlent Hheld Hread Hq Hidle]. rewrite Hstale in Hq. destruct Hq as [Hl _ [-> (last & Hlast & Hdead)]]. cbn in Hl.
  post_step. unfold deliver_or_queue. do 4 post_step. rewrite Hread, Hreading. cbn [negb].
  post_step. eapply allocate_alarm; [done|]. intros p Hp. post_step. eapply sat_post, sat_of_option; [done|].
  post_step. cbn [alarmQueue set_vals]. rewrite Hlast. unfold on_vals. post_step. apply post_zoom.
  destruct (decide (last = p)) as [->|Hne].
  - eapply sat_post, sat_load_block; [cbn; by rewrite lookup_insert_eq|]. cbn [fst snd].
    post_step. apply post_zoom. eapply sat_post, sat_store_block; [cbn; by rewrite lookup_insert_eq|].
    cbn [fst snd]. do 4 post_step. unfold queue_turn. do 4 post_step. cbn [alarmQueueFront set_queue set_vals]. rewrite Hl.
    repeat post_step. cbn [fst snd]. split_and!; [done|by rewrite !omap_app; cbn; rewrite !app_nil_r|done|].
    exists p. cbn. by rewrite lookup_insert_eq.
  - unfold load. do 2 post_step. cbn. rewrite lookup_insert_ne by done. by rewrite Hdead.
Qed.

(** ** Concrete queues: the two notifications of [demo_mem] *)
Definition demo_state (h : gmap ptr AlarmObjectT) (front last : option ptr) : Alarms :=
  MkAlarms (set_mem (with_alarms h demo_mem) demo_values) true false false 1 last front 0 0 (MkMafFilter 2 None None 44)
    false false true true 1 2 false false.
Definition demo_waiting : waiting := [(5%nat, demo_item0); (7%nat, demo_item1)].
Definition demo_nodes : gmap ptr AlarmObjectT := {[ 5%nat := MkAlarm (Some 0%nat) (Some 7%nat); 7%nat := MkAlarm (Some 1%nat) None ]}.

Lemma demo_open h front last : open_state (demo_state h front last) [].
Proof. split; [exact (repr_alarms h demo_values [] (repr_empty demo_mem _))|done|done|done]. Qed.
Lemma demo_owned h front last l : owned [demo_item0; demo_item1] (outside (demo_state h front last) [] l).
Proof.
  assert (Hown : owned [demo_item0; demo_item1] demo_mem) by (split; [apply demo_item0_ok|split; [apply demo_item1_ok|done]]).
  unfold outside. cbn [vals demo_state mem set_mem]. rewrite rest_alarms, rest_nil.
  exact (owned_alarms (deletes l.*1 h) _ _ Hown).
Qed.
Lemma demo_related_empty : related (demo_state ∅ None None) (MkFifo [] [] true false) [] [].
Proof. split; [apply demo_open|done|done|done|by split; [|apply NoDup_nil_2|]|done]. Qed.
Lemma demo_related_full : related (demo_state demo_nodes (Some 5%nat) (Some 7%nat)) (MkFifo [] [demo_item0; demo_item1] true false) [] demo_waiting.
Proof.
  split; [apply demo_open|done|done|done| |done]. split; [by repeat eexists| |done].
  apply (bool_decide_unpack _). vm_compute. done.
Qed.
Lemma demo_related_stale : related (demo_state ∅ None (Some 5%nat)) (MkFifo [] [] true true) [] [].
Proof. split; [apply demo_open|done|done|done| |done]. split; [done|apply NoDup_nil_2|]. split; [done|]. by exists 5%nat. Qed.

(** One alarm is delivered before the next arrives. *)
Definition demo_sections : list queue_op := [Arrive demo_n demo_item0; Arrive demo_n demo_item1; Turn; Turn; Turn].
Lemma alarm_queue_refines_witness :
  [demo_item0; demo_item1] = [demo_item0; demo_item1] /\
  post (exec_sections demo_ntf demo_sections) (demo_state ∅ None None, []) (fun _ c => exists told, [demo_item0; demo_item1] = told /\
    next (MkFifo [demo_item0; demo_item1] [] false false) told (demo_state ∅ None None) [] [] [] c) (fun w => w = Aborted).
Proof.
  apply (alarm_queue_refines demo_ntf demo_sections (demo_state ∅ None None) (MkFifo [] [] true false)
    (MkFifo [demo_item0; demo_item1] [] false false) [] [] []); [done|apply demo_related_empty|apply demo_owned|reflexivity].
Defined.

Lemma sendQueuedAlarms_delivers_witness :
  post (sendQueuedAlarms demo_ntf) (demo_state demo_nodes (Some 5%nat) (Some 7%nat), [])
    (fun _ => next (MkFifo [demo_item0; demo_item1] [] false false) [demo_item0; demo_item1]
                (demo_state demo_nodes (Some 5%nat) (Some 7%nat)) [] demo_waiting []) (fun w => w = Aborted).
Proof.
  apply (sendQueuedAlarms_delivers demo_ntf _ (MkFifo [] [demo_item0; demo_item1] true false)); [apply demo_related_full|apply demo_owned].
Defined.
Example demo_delivery :
  (let '(o, (s, tr)) := sendQueuedAlarms demo_ntf (demo_state demo_nodes (Some 5%nat) (Some 7%nat), []) in
   (o, omap notified tr, alarms (mem (vals s)), readOldAlarm s)) = (Ret (), [Some 0%nat; Some 1%nat], ∅, false).
Proof. vm_compute. reflexivity. Qed.

Lemma stale_arrival_lost_witness :
  post (deliver_or_queue demo_ntf demo_n 0%nat ;; queue_turn demo_ntf) (demo_state ∅ None (Some 5%nat), [])
    (fun more c => more = false /\ omap notified c.2 = [] /\ readOldAlarm c.1 = false /\
       exists p, (∅ : gmap ptr AlarmObjectT) !! p = None /\ alarms (mem (vals c.1)) !! p = Some (MkAlarm (Some 0%nat) (Some p)))
    (fun w => w = BadPointer).
Proof.
  exact (stale_arrival_lost demo_ntf (demo_state ∅ None (Some 5%nat)) (MkFifo [] [] true true) [] [] demo_n demo_item0 [] (fun _ => eq_refl) demo_related_stale eq_refl eq_refl).
Defined.
