(* ===== verification/NtfCallbackProps.v ===== *)
(** * Notifications: the call-back, from OpenSAF to COM and back

    What COM reads in the structure it is told of after an alarm has come in,
    and that an alarm which COM sends comes back saying the same. *)
From Stdlib Require Import ZArith Lia.
From stdpp Require Import base gmap list strings.
From S2P Require Import Prelude Marks Codes NtfData NtfValues NtfValueFacts NtfInfo NtfInfoProps NtfPm NtfHeader NtfValueProps NtfHeaderProps NtfAlarms NtfAlarmProps.

Open Scope Z_scope.

(** ** A new structure in the memory *)
Definition zeroed (m : Mem) (p : ptr) : Prop := fms m !! p = Some zero_fm4.
Definition without_fm (p : ptr) (m : Mem) : Mem := set_heap (B := MafOamSpiNotificationFmStruct_4T) (delete p (fms m)) m.

Lemma zeroed_join m p : zeroed m p -> m = join (without_fm p m) p zero_fm4 [] ∅.
Proof.
  intros Hp. destruct m as [v f f2 t i a]. unfold join, without_fm, zeroed in *. cbn in *.
  by rewrite insert_delete_id, (left_id_L ∅ (∪)) by done.
Qed.

Definition fm_severity (m : Mem) (p : ptr) : option Z := severity <$> fms m !! p.

(** What the severity is written to stays as it is otherwise. *)
Lemma severity_written m p f z : fms m !! p = Some f ->
  let m' := set_heap (<[p := set_severity z f]> (fms m)) m in
  fm_view m' p = fm_view m p /\ fm_severity m' p = Some z /\
  (forall i, i_fm i = p -> item_ok m i -> item_ok m' i) /\ (forall i, i_fm i = p -> drop i m' = drop i m).
Proof.
  intros Hf. cbn. split_and!.
  - unfold fm_view. cbn. by rewrite lookup_insert_eq, Hf.
  - unfold fm_severity. cbn. by rewrite lookup_insert_eq.
  - intros i <- [(g & Hg & Hh & Ha & Hs) Hes Hlive Hnd]. rewrite Hf in Hg. injection Hg as <-. split; [|exact Hes|exact Hlive|exact Hnd].
    exists (set_severity z f). cbn. by rewrite lookup_insert_eq.
  - intros i <-. unfold drop. cbn. by rewrite delete_insert_eq.
Qed.

Section receiver.
Context (env : environment ntfE) (ext : bool) (cfg : UuidCfg) (objects : nat).
Context (answer : Z -> Z -> SaAisErrorT * string) (to3gpp : string -> option string).
Context (malloc_ok : forall tr, env _ tr malloc = true).
Context (get_ok : forall tr h v, env _ tr (saNtfPtrValGet h v) = answer h v).
Context (to3gpp_ok : forall tr n, env _ tr (convertTo3Gpp n) = to3gpp n).

(** The structure made of an alarm: what it says, its severity, and that it owns
    its blocks; the rest of the memory and the state are as before. *)
Definition made (n : SaNtfNotificationsT) (p : ptr) (s : Alarms) (s' : Alarms) : Prop :=
  s' = set_vals (set_mem (mem (vals s')) (vals s)) s /\
  fm_view (mem (vals s')) p = Some (header_view cfg answer to3gpp (notificationHeader n) (notificationHandle n)) /\
  fm_severity (mem (vals s')) p = Some (nSeverity n) /\
  exists i, i_fm i = p /\ item_ok (mem (vals s')) i /\ drop i (mem (vals s')) = without_fm p (mem (vals s)).

Lemma convert_alarm_sat n p s tr d :
  mafSpiNtfFmVersion (vals s) = MafOamSpiNotificationFm_4 -> is_Some (filter_of (nFilter_V4 s)) -> zeroed (mem (vals s)) p ->
  is_pm (notificationHeader n) = false -> (String.length (notificationObject (notificationHeader n)) < saNameMaxLenNtf ext)%nat ->
  dn_spec to3gpp (notificationObject (notificationHeader n)) = Some d ->
  sat (convert_alarm env ext cfg objects n p) (s, tr) (fun rc c => rc = MafOk /\ made n p s c.1).
Proof using malloc_ok get_ok to3gpp_ok.
  intros Hv Hf Hz Hpm Hlen Hd. unfold convert_alarm, on_vals. do 2 sat_step. rewrite bool_decide_true by done.
  set (m := mem (vals s)) in *. assert (Hs : vals s = set_mem (join (without_fm p m) p zero_fm4 [] ∅) (vals s)).
  { rewrite <- zeroed_join by done. by destruct s as [[] ? ? ? ? ? ? ? ? ? ? ? ? ? ? ? ? ?]. }
  sat_step. apply sat_zoom. rewrite Hs. eapply sat_mono; [eapply (convertHeader4_sat env ext cfg objects answer to3gpp (without_fm p m) p); try done|].
  { cbn. by rewrite lookup_delete_eq. }
  intros rc [v tr1]; cbn [fst snd]; intros (-> & Hview & Hc & i & Hi & Hok & Hdrop).
  unfold assert_c. rewrite bool_decide_true by done. cbn [orb]. do 2 sat_step.
  sat_step. apply sat_zoom. unfold update_fm. sat_step.
  destruct (fms (mem v) !! p) as [f|] eqn:Ef; [|unfold fm_view in Hview; by rewrite Ef in Hview].
  eapply sat_load_block; [exact Ef|]. eapply sat_store_block; [exact Ef|]. sat_step.
  pose proof (severity_written (mem v) p f (nSeverity n) Ef) as Hw. cbv zeta in Hw.
  set (m' := set_heap (<[p := set_severity (nSeverity n) f]> (fms (mem v))) (mem v)) in *. destruct Hw as (H1 & H2 & H3 & H4).
  split; [done|]. change (made n p s (set_vals (set_mem m' v) (set_vals v s))). unfold made.
  change (mem (vals (set_vals (set_mem m' v) (set_vals v s)))) with m'.
  split; [by rewrite Hc|]. split; [by rewrite H1|]. split; [done|].
  exists i. split; [done|]. split; [by apply H3|]. by rewrite H4.
Qed.
End receiver.

(** ** From COM to OpenSAF and back *)

(** The class of threshold alarms. *)
Definition pm_class (v : view) : bool :=
  bool_decide (v_major v = SA_NTF_VENDOR_ID_SAF) && bool_decide (v_minor v = 20 * 65536 + 1).
Lemma sent_pm h obj v sev ins : 0 <= v_minor v < 2 ^ 32 -> pm_class v = false ->
  is_pm (notificationHeader (sent_alarm h obj v sev ins)) = false.
Proof.
  intros Hmin Hpm. apply not_true_is_false. unfold is_pm, pm_class in *. cbn. rewrite !andb_true_iff, !bool_decide_eq_true.
  intros [[Hven Hmaj] Hm]. rewrite (bool_decide_true (v_major v = _)) in Hpm by done. cbn in Hpm. apply bool_decide_eq_false in Hpm. apply Hpm.
  unfold wrap_u in *. rewrite Z.mod_small in Hmaj by (split; [apply Z.div_pos|apply Z.div_lt_upper_bound]; lia).
  rewrite Z.mod_small in Hm by (apply Z.mod_pos_bound; lia). rewrite (Z.div_mod (v_minor v) 65536) by lia. lia.
Qed.

(** C8. Round trip.  An alarm that COM (not LM) sends in version 4 of the
    interface, with a class of 32 bits, a time of 64 bits, and a text and values
    of less than 65535 characters, reaches OpenSAF as one notification, and the
    structure stays COM's.  When OpenSAF hands this notification back, with the
    values that were put into it, a component of version 4 that has a filter
    and no mapping of UUIDs makes a structure of it that says the same: class,
    time, text, severity, and the values of the additional information in
    order.  Their names are not sent and come back empty; the object comes back
    as the two translations of names make it ([to_imm], then [dn_spec]), which
    have to succeed and are not in the source; and a class that is the one of
    threshold alarms of the PM service is left out. *)
Theorem notify_roundtrip (env : environment ntfE) ext cc to_imm h handle i p v sev name obj s tr :
  (forall tr l k, env _ tr (saNtfAlarmNotificationAllocate l k) = (SA_AIS_OK, h)) ->
  (forall tr h l, fst (env _ tr (saNtfPtrValAllocate h l)) = SA_AIS_OK) ->
  (forall tr n, env _ tr (convertToImm n) = to_imm n) ->
  (forall tr n vs, env _ tr (saNtfNotificationSend n vs) = SA_AIS_OK) ->
  "lm"%string <> cc -> 0 < handle -> mafSpiNtfFmVersion s = MafOamSpiNotificationFm_4 ->
  item_ok (mem s) i -> i_fm i = p -> fm_view (mem s) p = Some v -> fm_severity (mem s) p = Some sev ->
  v_dn v = Some name -> to_imm name = Some obj -> sendable v ->
  sat (comsaNotify4 env ext cc handle (Some MafOamSpiNotificationFmEventComponent_4) true (Some p)) (s, tr) (fun rc c =>
    rc = MafOk /\ c.1 = s /\ exists n vs, sends c.2 = sends tr ++ [(n, vs)] /\
      Forall2 (fun e t => snd e = Some t) (v_info v) vs /\ length (additionalInfo (notificationHeader n)) = length vs /\
      forall (env' : environment ntfE) ext' objects answer to3gpp s' p' tr' name',
        (forall tr, env' _ tr malloc = true) -> (forall tr h v, env' _ tr (saNtfPtrValGet h v) = answer h v) ->
        (forall tr n, env' _ tr (convertTo3Gpp n) = to3gpp n) ->
        mafSpiNtfFmVersion (vals s') = MafOamSpiNotificationFm_4 -> is_Some (filter_of (nFilter_V4 s')) -> zeroed (mem (vals s')) p' ->
        pm_class v = false -> (String.length obj < saNameMaxLenNtf ext')%nat -> dn_spec to3gpp obj = Some name' ->
        Forall2 (fun a t => answer h (infoValue a) = (SA_AIS_OK, t)) (additionalInfo (notificationHeader n)) vs ->
        sat (convert_alarm env' ext' UuidDisableHandle objects n p') (s', tr') (fun rc c => rc = MafOk /\
          fm_severity (mem (vals c.1)) p' = Some sev /\
          fm_view (mem (vals c.1)) p' =
            Some (MkView (Some name') (v_major v) (v_minor v) (v_time v) (v_text v) (map (fun e => (Some ""%string, snd e)) (v_info v))))).
Proof.
  intros Halloc Hval Himm Hsend Hlm Hh Hv Hi Hp Hview Hsev Hname Hobj Hsv.
  eapply sat_mono; [by eapply (notify_sends env ext cc to_imm h handle i p v sev name obj s tr)|].
  intros rc c (-> & Hc & ins & vs & Hs & Hvs & Hlen & Hids). split; [done|]. split; [done|].
  eexists _, vs. split; [exact Hs|]. split; [exact Hvs|]. split; [exact Hlen|]. intros env' ext' objects answer to3gpp s' p' tr' name' Hm Hg H3 Hv' Hf Hz Hpm Hl Hd Hans.
  destruct Hsv as (Hmin & Hrest). apply (sent_pm h obj v sev ins) in Hpm; [|done].
  eapply sat_mono; [by eapply (convert_alarm_sat env' ext' UuidDisableHandle objects answer to3gpp)|].
  intros rc2 c2 (-> & _ & H1 & H2 & _). split; [done|]. split; [exact H2|]. rewrite H1. f_equal. by eapply sent_view.
Qed.

(** What was put into the notification is what comes out. *)
Definition echo_ntf : environment ntfE := fun R tr e =>
  match e in ntfE R return R with
  | saNtfPtrValGet _ _ => (SA_AIS_OK, "x"%string)
  | e => demo_ntf _ tr e
  end.
Definition receiving : Alarms := MkAlarms (MkValues (MkMem ∅ {[ 9%nat := zero_fm4 ]} ∅ ∅ ∅ ∅) MafOamSpiNotificationFm_4 None None)
  false false true 1 None None 0 0 (MkMafFilter 2 None (Some (MkFilter 1 [])) 44) false false true true 1 2 false false.

Lemma notify_roundtrip_witness :
  sat (comsaNotify4 demo_ntf false "com" 1 (Some MafOamSpiNotificationFmEventComponent_4) true (Some 0%nat)) (demo_values, []) (fun rc c =>
    rc = MafOk /\ exists n vs, sends c.2 = [(n, vs)] /\
        sat (convert_alarm echo_ntf false UuidDisableHandle 0 n 9%nat) (receiving, []) (fun rc c => rc = MafOk /\
          fm_severity (mem (vals c.1)) 9%nat = Some 1 /\
          fm_view (mem (vals c.1)) 9%nat = Some (MkView (Some "ManagedElement=1"%string) 193 65537 5 None [(Some ""%string, Some "x"%string)]))).
Proof.
  eapply sat_mono; [apply (notify_roundtrip demo_ntf false "com" Some 0 1 demo_item0 0%nat
    (MkView (Some "ManagedElement=1"%string) 193 65537 5 None [(Some "uuid"%string, Some "x"%string)]) 1 "ManagedElement=1" "ManagedElement=1");
    try first [done|lia|apply demo_item0_ok|vm_compute; done]|].
  - split_and!; try done. repeat constructor. by exists "x"%string.
  - intros rc c (-> & _ & n & vs & Hs & Hvs & Hlen & H). split; [done|]. exists n, vs. split; [exact Hs|].
    apply (H echo_ntf false 0%nat (fun _ _ => (SA_AIS_OK, "x"%string)) Some receiving 9%nat [] "ManagedElement=1"%string); try done.
    + vm_compute. lia.
    + apply Forall2_cons_inv_l in Hvs as (y & vs' & Hy & Hnil & ->). injection Hy as <-. apply Forall2_nil_inv_l in Hnil as ->.
      destruct (additionalInfo (notificationHeader n)) as [|a []]; try done. by repeat constructor.
Defined.

(** ** What the delivery leaves alone *)
Definition same_blocks (m m' : Mem) : Prop := fms m' = fms m /\ texts m' = texts m /\ infos m' = infos m.
#[export] Instance same_blocks_preorder : PreOrder same_blocks.
Proof. split; [by repeat split|]. intros m1 m2 m3 (H1 & H2 & H3) (G1 & G2 & G3). repeat split; congruence. Qed.

Lemma same_blocks_view m m' p : same_blocks m m' -> fm_view m' p = fm_view m p /\ fm_severity m' p = fm_severity m p.
Proof. intros (H1 & H2 & H3). unfold fm_view, fm_severity. by rewrite H1, H2, H3. Qed.

Class HasMem (S : Type) := memory : S -> Mem.
#[export] Instance values_memory : HasMem Values := mem.
#[export] Instance alarms_memory : HasMem Alarms := fun s => mem (vals s).
(** Blocks that no structure for COM consists of. *)
Class Beside (B : Type) `{Block B} := beside : forall m h, same_blocks m (set_heap (B := B) h m).
#[export] Instance value_beside : Beside valueList4T.
Proof. by repeat split. Qed.
#[export] Instance fm2_beside : Beside MafOamSpiNotificationFmStruct_2T.
Proof. by repeat split. Qed.
#[export] Instance alarm_beside : Beside AlarmObjectT.
Proof. by repeat split. Qed.

Section still.
Context {S : Type} `{HasMem S}.

Definition still {A} (m : M ntfE S A) : Prop :=
  forall s tr, post m (s, tr) (fun _ c => same_blocks (memory s) (memory c.1)) (fun _ => True).

Lemma still_bind {A B} (m : M ntfE S A) (k : A -> M ntfE S B) : still m -> (forall a, still (k a)) -> still (m ≫= k).
Proof.
  intros Hm Hk s tr. apply post_bind. eapply post_mono; [apply Hm| |done].
  intros a [s' tr'] Hs. eapply post_mono; [apply Hk| |done]. intros b c Hc. by etrans.
Qed.
Lemma still_ret {A} (a : A) : still (mret a).
Proof. intros s tr. by apply sat_post, sat_ret. Qed.
Lemma still_exit {A} w : still (exit w : M ntfE S A).
Proof. done. Qed.
Lemma still_of_option {A} w (o : option A) : still (of_option w o).
Proof. destruct o; [apply still_ret|apply still_exit]. Qed.
Lemma still_get : still get.
Proof. intros s tr. by apply sat_post, sat_get. Qed.
Lemma still_modify f : (forall s, same_blocks (memory s) (memory (f s))) -> still (modify f).
Proof. intros Hf s tr. apply sat_post, sat_modify, Hf. Qed.
Lemma still_call (env : environment ntfE) {R} (e : ntfE R) : still (call env e).
Proof. intros s tr. by apply sat_post, sat_call. Qed.
End still.

Lemma still_load {B} `{Block B} o : still (load o : V B).
Proof. unfold load. apply still_bind; [apply still_get|]. intros s. apply still_of_option. Qed.
Lemma still_store {B} `{Beside B} o b : still (store (B := B) o b).
Proof.
  unfold store. apply still_bind; [apply still_load|]. intros _. destruct o; [|apply still_exit].
  apply still_modify. intros s. apply beside.
Qed.
Lemma still_allocate {B} `{Beside B} env b : still (allocate (B := B) env b).
Proof.
  unfold allocate. apply still_bind; [apply still_call|]. intros [|]; [|apply still_ret].
  apply still_bind; [apply still_get|]. intros s. apply still_bind; [|intros; apply still_ret]. apply still_modify. intros s'. apply beside.
Qed.
Lemma still_on_vals {B} (m : V B) : still m -> still (on_vals m).
Proof. intros Hm s tr. apply post_zoom. eapply post_mono; [apply Hm| |done]. by intros a [v tr']. Qed.

Ltac still_step :=
  cbv beta zeta delta [when checked lock unlock];
  lazymatch goal with
  | |- still (mbind _ _) => apply still_bind; [|intros ?]
  | |- still (mret _) => apply still_ret
  | |- still (exit _) => apply still_exit
  | |- still get => apply still_get
  | |- still (of_option _ _) => apply still_of_option
  | |- still (call _ _) => apply still_call
  | |- still (load _) => apply still_load
  | |- still (store _ _) => apply still_store
  | |- still (allocate _ _) => apply still_allocate
  | |- still (on_vals _) => apply still_on_vals
  | |- still (modify _) => apply still_modify; by intros ?
  | |- still (match ?x with _ => _ end) => destruct x
  end.

Lemma still_send env cn : still (sendSaNtfNotification env cn).
Proof. unfold sendSaNtfNotification, addNotValue4. repeat still_step. Qed.
Lemma still_deliver env n cn : still (deliver_or_queue env n cn).
Proof. unfold deliver_or_queue. repeat first [apply still_send|still_step]. Qed.

(** ** The calls of the conversion

    It neither reads old alarms nor notifies COM: marks of such calls do not
    occur in it. *)
Definition of_conversion {R} (e : ntfE R) : bool :=
  match e with
  | filterAllocate _ | saNtfNotificationFilterFree _ | saNtfNotificationReadInitialize _ _ _ _ | saNtfNotificationReadFinalize _
  | notify _ _ _ _ => false
  | _ => true
  end.
Class Unmarked {X} (f : event ntfE -> option X) := unmarked : forall R (e : ntfE R) r, of_conversion e = true -> f (Ev e r) = None.
#[export] Instance notified_unmarked : Unmarked notified.
Proof. by intros R []. Qed.

Section hush.
Context {X : Type} {f : event ntfE -> option X} `{!Unmarked f}.
Abbreviation quiet := (silent (S := Values) f).

Lemma hush_retry {R} again (pause : V ()) (m : V R) n : quiet pause -> quiet m -> quiet (retry again pause m n).
Proof.
  intros Hp Hm. induction n as [|n IH]; rewrite retry_unfold; (apply silent_bind; [done|intros r]); destruct (again r);
    try apply silent_ret. apply silent_bind; [done|intros _; done].
Qed.

End hush.

Ltac hush_step :=
  cbv beta zeta delta [checked lock unlock load store write allocate update_fm set_entry received strdup assert_c finalize_handles
    accessor_get search_next search_again];
  lazymatch goal with
  | |- silent _ (mbind _ _) => apply silent_bind; [|intros ?]
  | |- silent _ (mret _) => apply silent_ret
  | |- silent _ get => apply silent_get
  | |- silent _ (modify _) => apply silent_modify
  | |- silent _ (exit _) => apply silent_exit
  | |- silent _ (of_option _ _) => apply silent_of_option
  | |- silent _ (when _ _) => apply silent_when
  | |- silent _ (call _ _) => apply silent_call; intros ?; apply unmarked; reflexivity
  | |- silent _ (free _ _) => unfold free
  | |- silent _ (retry _ _ _ _) => apply hush_retry
  | |- silent _ (match ?x with _ => _ end) => destruct x
  end.
Ltac hush := repeat hush_step.

Section quiet.
Context {X : Type} {f : event ntfE -> option X} `{!Unmarked f}.
Abbreviation quiet := (silent (S := Values) f).
Context (env : environment ntfE) (ext : bool) (cfg : UuidCfg) (objects : nat).
Lemma hush_info h i : quiet (getAdditionalInfoName env h i).
Proof. unfold getAdditionalInfoName. hush. Qed.
Lemma hush_entries nh h p l i : quiet (copy_entries env cfg nh h p l i).
Proof.
  revert i. induction l as [|a l IH]; intros i; cbn [copy_entries]; [hush|]. destruct (negb _); [|apply IH].
  apply silent_bind; [|intros _; apply IH]. unfold copy_entry. hush; apply hush_info.
Qed.
Lemma hush_info_copied nh h p : quiet (copyAdditionalInfo env cfg nh h p).
Proof. unfold copyAdditionalInfo. hush; apply hush_entries. Qed.
Lemma hush_uuids h room l w : quiet (write_uuids env h room l w).
Proof. revert w. induction l as [|a l IH]; intros w; cbn [write_uuids]; hush; first [apply hush_info|apply IH]. Qed.
Lemma hush_text nh h p : quiet (convert_text env cfg nh h p).
Proof. unfold convert_text, getUUIDFromAdditionalInfo. hush; apply hush_uuids. Qed.
Lemma hush_dn no : quiet (convertTo3GPPDN env ext no).
Proof. unfold convertTo3GPPDN, strip_3GPP. hush. Qed.
Lemma hush_legacy n p : quiet (convert_legacy env ext cfg n p).
Proof. unfold convert_legacy. hush; first [apply hush_info_copied|apply hush_text|apply hush_dn]. Qed.

Lemma hush_getMO o ns : quiet (getMOAttributesRetry env o ns).
Proof. unfold getMOAttributesRetry, reInitializeBadHandler. hush. Qed.
Lemma hush_direction j r d : quiet (getThresholdDirection env ext j r d).
Proof. unfold getThresholdDirection, direction_of. hush; apply hush_getMO. Qed.
Lemma hush_codes l maj min t : quiet (alarm_codes l maj min t).
Proof. revert maj min t. induction l as [|a l IH]; intros maj min t; cbn [alarm_codes]; unfold uint32_value; hush; apply IH. Qed.
Lemma hush_search_initialize root k : quiet (search_initialize env root k).
Proof. induction k as [|k IH]; cbn [search_initialize]; hush; apply IH. Qed.
Lemma hush_reader o d l : quiet (reader_of ext o d l).
Proof. induction l as [|a l IH]; cbn [reader_of]; hush; apply IH. Qed.
Lemma hush_search_objects k d r : quiet (search_objects env ext k d r).
Proof. revert r. induction k as [|k IH]; intros r; cbn [search_objects]; hush; first [apply IH|apply hush_reader]. Qed.
Lemma hush_find d job : quiet (findThatEcimMeasReader env ext objects d job).
Proof. unfold findThatEcimMeasReader. hush; first [apply hush_search_initialize|apply hush_search_objects]. Qed.
Lemma hush_fill n cn job t g maj min a r : quiet (fill_pm env ext cfg n cn job t g maj min a r).
Proof. unfold fill_pm, generic_text. hush; first [apply hush_direction|apply hush_info_copied]. Qed.
Lemma hush_pm n cn : quiet (convertPmThresholdHeader4 env ext cfg objects n cn).
Proof.
  unfold convertPmThresholdHeader4, alarm_dn. hush; first [apply hush_getMO|apply hush_codes|apply hush_find|apply hush_fill].
Qed.
Lemma hush_header filter n cn : quiet (convertHeader4 env ext cfg objects filter n cn).
Proof. unfold convertHeader4. hush; first [apply hush_pm|apply hush_legacy]. Qed.
Lemma hush_addNotValue4 cn : quiet (addNotValue4 env cn).
Proof. unfold addNotValue4. hush. Qed.
End quiet.

(** ** The call-back *)

Lemma concat_elem {A B} (f : B -> list A) xs p : p ∈ concat (map f xs) -> exists x, x ∈ xs /\ p ∈ f x.
Proof.
  induction xs as [|x xs IH]; cbn; [by intros ?%elem_of_nil|]. intros [Hp|Hp]%elem_of_app; [exists x; by split; [left|]|].
  destruct (IH Hp) as (y & ? & ?). exists y. by split; [right|].
Qed.

(** The list of values does not notice that the structure is there. *)
Lemma repr_undrop v m xs i : repr (set_mem (drop i m) v) xs -> item_ok m i ->
  repr (set_mem m v) xs /\ item_ok (rest m xs) i /\ drop i (rest m xs) = rest (drop i m) xs.
Proof.
  intros [Hl Hla Hn Hf Ht Ha Hit] [(f & Hfm & Hfs) Hes Hlive Hnd].
  assert (Hout : forall x, x ∈ xs -> i_fm i <> i_fm (snd x) /\ (forall p, p ∈ i_texts (snd x) -> p ∉ i_texts i) /\
                                     (forall p, p ∈ opt (i_arr (snd x)) -> p ∉ opt (i_arr i))).
  { intros x Hx. rewrite Forall_forall in Hit. destruct (Hit x Hx) as [(g & Hg & _) He Hlv _]. cbn in *. split_and!.
    - intros Heq. by rewrite Heq, lookup_delete_eq in Hg.
    - intros p Hp Hpi. destruct (Hlv p Hp) as [t Htx]. by rewrite lookup_deletes_in in Htx.
    - intros p Hp Hpi. destruct (i_arr (snd x)) as [a|]; [|by apply elem_of_nil in Hp].
      apply list_elem_of_singleton in Hp as ->. by rewrite lookup_deletes_in in He. }
  assert (Hnf : i_fm i ∉ all_fms xs).
  { intros (x & Heq & Hx)%list_elem_of_fmap. by destruct (Hout x Hx) as [? _]. }
  assert (Hnt : forall p, p ∈ i_texts i -> p ∉ all_texts xs).
  { intros p Hp Hin. apply concat_elem in Hin as (x & Hx & Hpx). destruct (Hout x Hx) as (_ & H & _). by eapply H. }
  assert (Hna : forall p, p ∈ opt (i_arr i) -> p ∉ all_arrs xs).
  { intros p Hp Hin. apply concat_elem in Hin as (x & Hx & Hpx). destruct (Hout x Hx) as (_ & _ & H). by eapply H. }
  split_and!.
  - split; try done. eapply Forall_impl; [exact Hit|]. intros x. apply item_ok_undrop.
  - split; [exists f; cbn; by rewrite lookup_deletes_out| | |done].
    + destruct (i_arr i) as [a|]; [|done]. cbn. rewrite lookup_deletes_out; [done|]. apply Hna. by left.
    + intros p Hp. cbn. rewrite lookup_deletes_out by (by apply Hnt). by apply Hlive.
  - unfold rest, drop. cbn. f_equal.
    + change (delete (i_fm i) ?h) with (deletes [i_fm i] h). rewrite <- !deletes_app. apply deletes_ext. set_solver.
    + rewrite <- !deletes_app. apply deletes_ext. set_solver.
    + rewrite <- !deletes_app. apply deletes_ext. set_solver.
Qed.

Lemma related_made s m2 q xs l i :
  related s q xs l -> item_ok m2 i -> drop i m2 = mem (vals s) ->
  let s2 := set_vals (set_mem m2 (vals s)) s in
  related s2 q xs l /\ item_ok (outside s2 xs l) i /\ drop i (outside s2 xs l) = outside s xs l.
Proof.
  intros [[Hr Hv Hrt Hrun] Hlent Hheld Hread Hq Hidle] Hok Hdrop s2.
  assert (Hr' : repr (set_mem (drop i m2) (vals s)) xs) by (rewrite Hdrop; by destruct s as [[] ? ? ? ? ? ? ? ? ? ? ? ? ? ? ? ? ?]).
  destruct (repr_undrop (vals s) m2 xs i Hr' Hok) as (H1 & H2 & H3).
  assert (Ha : alarms m2 = alarms (mem (vals s))) by (by rewrite <- Hdrop). split_and!.
  - split; [by split|done|done|done|cbn; by rewrite Ha|done].
  - exact (item_ok_alarms _ _ _ H2).
  - unfold outside. cbn [vals s2 set_vals mem set_mem]. rewrite Ha, <- Hdrop, <- H3. done.
Qed.

Lemma post_conj {S A} (m : M ntfE S A) c (P Q : A -> _ -> Prop) X :
  post m c P X -> post m c Q (fun _ => True) -> post m c (fun a c' => P a c' /\ Q a c') X.
Proof. unfold post. destruct (m c) as [[a|w] c']; [by split|done]. Qed.

(** Straight to COM. *)
Lemma send_now_post env s q xs l i tr :
  related s q xs l -> item_ok (outside s xs l) i ->
  post (sendSaNtfNotification env (i_fm i)) (s, tr)
    (fun _ => next (MkFifo (lent q ++ [i]) (held q) (reading q) (stale q)) [i] s xs l tr) (fun w => w = Aborted).
Proof.
  intros [Ho Hlent Hheld Hread Hq Hidle] Hi. eapply post_mono; [apply sendSaNtfNotification_post; [exact Ho|by eapply item_ok_outside]| |done].
  intros [] [s1 tr1] (ne & v & Hs1 & Ho1 & Hrest1 & Hn1). cbn [fst snd] in *. subst s1.
  assert (Hav : alarms (mem v) = alarms (mem (vals s))) by exact (f_equal alarms Hrest1).
  exists (xs ++ [(ne, i)]), l. split_and!; [| |exact Hn1].
  2: { transitivity (with_alarms (deletes l.*1 (alarms (mem v))) (rest (mem v) (xs ++ [(ne, i)]))); [done|]. by rewrite Hav, Hrest1. }
  split; [exact Ho1|by rewrite map_app; cbn; rewrite Hlent|done|done|cbn; by rewrite Hav|done].
Qed.

(** Whether the alarm goes to COM at once: it is one of the old ones, or the old
    ones have been read, or nobody reads them. *)
Definition at_once (subId : Z) (s : Alarms) : bool := (subId =? 0) || readOldAlarmDone s || negb (readOldAlarm s).
Definition is_alarm (t : SaNtfNotificationTypeT) : bool :=
  match t with SA_NTF_TYPE_ALARM | SA_NTF_ALARM_QOS | SA_NTF_TYPE_SECURITY_ALARM => true | _ => false end.

Section callback.
Context (env : environment ntfE) (ext : bool) (cfg : UuidCfg) (objects : nat).
Context (malloc_ok : forall tr, env _ tr malloc = true).

(** What the call-back achieves with the structure of [i]. *)
Definition told_or_kept (now : bool) (i : item) (q : Fifo) (F : Mem) (tr : list (event ntfE)) (c : Alarms * list (event ntfE)) : Prop :=
  exists xs l, related c.1 (if now then MkFifo (lent q ++ [i]) (held q) (reading q) (stale q) else MkFifo (lent q) (held q ++ [i]) true false) xs l /\
    (if now then outside c.1 xs l else drop i (outside c.1 xs l)) = F /\
    omap notified c.2 = omap notified tr ++ (if now then [Some (i_fm i)] else []).

Lemma hand_on_post n subId s q xs l i tr :
  related s q xs l -> item_ok (outside s xs l) i -> (reading q = true -> stale q = false) ->
  post (if (subId =? 0) || readOldAlarmDone s then sendSaNtfNotification env (i_fm i) else deliver_or_queue env n (i_fm i)) (s, tr)
    (fun _ c => told_or_kept (at_once subId s) i q (drop i (outside s xs l)) tr c) (fun w => w = Aborted).
Proof using malloc_ok.
  intros Hrel Hi Hst. unfold at_once. destruct ((subId =? 0) || readOldAlarmDone s); cbn [orb].
  - eapply post_mono; [by apply send_now_post| |done]. intros _ c (xs' & l' & Hrel' & Ho & Ht). exists xs', l'. split_and!; [done|exact Ho|exact Ht].
  - rewrite (rel_reading _ _ _ _ Hrel). destruct (reading q) eqn:Er; cbn [negb].
    + eapply post_mono; [apply (arrive_post env malloc_ok s q (MkFifo (lent q) (held q ++ [i]) true false) xs l n i tr Hrel Hi)| |done].
      * cbn. by rewrite Er, Hst.
      * rewrite Er. intros _ c (xs' & l' & Hrel' & Ho & Ht). exists xs', l'. split_and!; [done|exact (f_equal (drop i) Ho)|exact Ht].
    + eapply post_mono; [apply (arrive_post env malloc_ok s q (MkFifo (lent q ++ [i]) (held q) false (stale q)) xs l n i tr Hrel Hi)| |done].
      * cbn. by rewrite Er.
      * rewrite Er. intros _ c (xs' & l' & Hrel' & Ho & Ht). exists xs', l'. split_and!; [rewrite Er; exact Hrel'|exact Ho|exact Ht].
Qed.
End callback.

Lemma mute_on_vals {B} (m : V B) : silent notified m -> silent notified (on_vals m).
Proof. intros Hm s Q HQ. apply emits_zoom, Hm. intros a s'. apply HQ. Qed.
Lemma mute_convert_alarm env ext cfg objects n p : silent notified (convert_alarm env ext cfg objects n p).
Proof.
  unfold convert_alarm, assert_c.
  repeat first [apply mute_on_vals; first [apply hush_header|hush]|apply silent_bind; [|intros ?]|apply silent_ret|apply silent_get
    |apply silent_exit|match goal with |- silent _ (match ?x with _ => _ end) => destruct x end].
Qed.

Lemma filter_lock_post env (e : ntfE Z) s tr : (forall r, notified (Ev e r) = None) ->
  post (on_vals (checked (call env e))) (s, tr) (fun _ c => c.1 = s /\ omap notified c.2 = omap notified tr) (fun w => w = Aborted).
Proof.
  intros He. unfold on_vals, checked. apply post_zoom. do 2 post_step. destruct (negb (r =? 0)); cbn [when]; post_step; [done|].
  split; [by destruct s|]. rewrite omap_app. cbn [omap list_omap snd]. by rewrite He, app_nil_r.
Qed.

(** C12. Functional.  What COM is told.  When OpenSAF calls with an alarm, a security
    alarm or an LM alarm that is not a threshold alarm of the PM service, and COM
    has a filter, the call-back makes one structure that says what the
    notification says: object, class, time, text, additional information and
    severity.  If the alarm is one of the old ones, or these are not being read,
    COM is told of exactly this structure, and it joins the list of those lent to
    COM; otherwise it goes to the end of the queue and COM is told nothing.  In
    both cases every other notification, the queue and the rest of the memory are
    as they were.  (Version 4; memory is not exhausted, the services of OpenSAF and
    of the model answer each question alike, the name of the object can be
    translated and is shorter than the limit, and no alarm is lost as in
    [stale_arrival_lost].) *)
Theorem callback_tells_com (env : environment ntfE) ext cfg objects answer to3gpp cm subId n s q xs l tr d :
  (forall tr, env _ tr malloc = true) -> (forall tr h v, env _ tr (saNtfPtrValGet h v) = answer h v) ->
  (forall tr n, env _ tr (convertTo3Gpp n) = to3gpp n) ->
  related s q xs l -> (reading q = true -> stale q = false) ->
  is_Some (filter_of (nFilter_V4 s)) -> subscriptionId (nFilter_V4 s) <> 0 -> subId <> CM_NOTIFICATIONS_SUBS_ID ->
  is_alarm (notificationType n) = true -> is_pm (notificationHeader n) = false ->
  (String.length (notificationObject (notificationHeader n)) < saNameMaxLenNtf ext)%nat ->
  dn_spec to3gpp (notificationObject (notificationHeader n)) = Some d ->
  post (saNtfNotificationCallback4 env ext cfg objects cm subId n) (s, tr) (fun _ c => exists i,
    fm_view (mem (vals c.1)) (i_fm i) = Some (header_view cfg answer to3gpp (notificationHeader n) (notificationHandle n)) /\
    fm_severity (mem (vals c.1)) (i_fm i) = Some (nSeverity n) /\
    told_or_kept (at_once subId s) i q (outside s xs l) tr c) (fun w => w = Aborted).
Proof.
  intros Hm Hg H3 Hrel Hst Hf Hsub Hcm Hal Hpm Hlen Hd. unfold saNtfNotificationCallback4. rewrite (proj2 (Z.eqb_neq _ _) Hcm).
  post_step. apply post_zoom. unfold allocate. post_step. eapply sat_post, sat_call. intros r <-. rewrite Hm.
  do 2 post_step. unfold write. do 2 post_step. post_step. cbn [fst snd]. post_step. eapply sat_post, sat_of_option; [done|]. cbv zeta.
  set (p := fresh (dom _)). assert (Hp : fms (mem (vals s)) !! p = None) by (apply not_elem_of_dom, is_fresh). clearbody p.
  set (s1 := set_vals _ _). set (tr1 := tr ++ _).
  assert (Htr1 : omap notified tr1 = omap notified tr) by (unfold tr1; rewrite omap_app; cbn; by rewrite app_nil_r).
  assert (Hz : zeroed (mem (vals s1)) p) by (unfold zeroed; cbn; by rewrite lookup_insert_eq).
  assert (Hw : without_fm p (mem (vals s1)) = mem (vals s)).
  { unfold without_fm. cbn. rewrite delete_insert_id by done. by destruct s as [[[]] ? ? ? ? ? ? ? ? ? ? ? ? ? ? ? ? ?]. }
  pose (Q := fun c : Alarms * list (event ntfE) => exists i,
    fm_view (mem (vals c.1)) (i_fm i) = Some (header_view cfg answer to3gpp (notificationHeader n) (notificationHandle n)) /\
    fm_severity (mem (vals c.1)) (i_fm i) = Some (nSeverity n) /\
    told_or_kept (at_once subId s) i q (outside s xs l) tr c).
  assert (Hbody : post (convert_alarm env ext cfg objects n p) (s1, tr1) (fun rc c => post (
      lock_notify env ;; s ← get; let localSubId := subscriptionId (nFilter_V4 s) in unlock_notify env ;; s ← get;
      if negb (localSubId =? 0) && bool_decide (rc = MafOk) then
        if (subId =? 0) || readOldAlarmDone s then sendSaNtfNotification env p else deliver_or_queue env n p
      else free_unsent p) c (fun _ => Q) (fun w => w = Aborted)) (fun w => w = Aborted)).
  { eapply post_mono; [eapply (post_emits notified _ s1 tr1 (fun rc s' => rc = MafOk /\ made cfg answer to3gpp n p s1 s') (fun _ _ l => l = []))| |done].
    - eapply sat_post, (convert_alarm_sat env ext cfg objects answer to3gpp Hm Hg H3); [exact (o_version _ _ (rel_open _ _ _ _ Hrel))|done..].
    - by apply mute_convert_alarm.
    - intros rc [s2 tr2] ((-> & Hs2 & Hview & Hsev & i & Hi & Hok & Hdrop) & l0 & Htr2 & ->). cbn [fst snd] in *.
      rewrite Hw in Hdrop. rewrite app_nil_r, Htr1 in Htr2.
      destruct (related_made s (mem (vals s2)) q xs l i Hrel Hok Hdrop) as (Hrel2 & Hok2 & Hout2).
      change (set_vals (set_mem (mem (vals s2)) (vals s)) s) with (set_vals (set_mem (mem (vals s2)) (vals s1)) s1) in *. rewrite <- Hs2 in *.
      assert (Hctl : at_once subId s2 = at_once subId s /\ subscriptionId (nFilter_V4 s2) = subscriptionId (nFilter_V4 s)) by (rewrite Hs2; done).
      destruct Hctl as [Hnow Hs2sub]. clear Hw Hz Hs2. clearbody s1 tr1.
      post_step. eapply post_mono; [by apply filter_lock_post| |done]. intros _ [s3 tr3]; cbn [fst snd]; intros [-> Htr3].
      do 3 post_step. eapply post_mono; [by apply filter_lock_post| |done]. intros _ [s3' tr4]; cbn [fst snd]; intros [-> Htr4].
      do 2 post_step. rewrite Hs2sub, (proj2 (Z.eqb_neq _ _) Hsub), bool_decide_true by done. cbn [negb andb].
      rewrite <- Hi. eapply post_mono; [apply post_conj; [by eapply (hand_on_post env Hm n subId s2 q xs l i tr4)|]| |done].
      + destruct ((subId =? 0) || readOldAlarmDone s2); [apply still_send|apply still_deliver].
      + intros _ c [Htold Hsame]. destruct (same_blocks_view _ _ (i_fm i) Hsame) as [Hv Hsv]. exists i.
        unfold memory, alarms_memory in *. cbn [fst] in *. rewrite Hv, Hsv, Hi. split; [done|]. split; [done|].
        rewrite <- Hnow, <- Hout2. destruct Htold as (xs' & l' & ? & ? & Ht). exists xs', l'. split_and!; [done..|].
        by rewrite Ht, Htr4, Htr3, Htr2. }
  assert (Hfree : forall c, Q c -> post (r ← call env (saNtfNotificationFree (notificationHandle n)); mret () : A ()) c (fun _ => Q) (fun w => w = Aborted)).
  { intros [s2 tr2] HQ. do 3 post_step. destruct HQ as (i & ? & ? & xs' & l' & ? & ? & Ht). exists i. split; [done|]. split; [done|].
    exists xs', l'. split; [done|]. split; [done|]. cbn [snd] in *. rewrite omap_app, Ht. cbn. by rewrite app_nil_r. }
  destruct (notificationType n); try done; post_step; (eapply post_mono; [exact Hbody| |done]); intros rc c Hc; try exact Hc;
    post_step; (eapply post_mono; [exact Hc|by intros ? ?; apply Hfree|done]).
Qed.

(** One of the old alarms, while they are read. *)
Definition subscribed : Alarms := set_filter (MkMafFilter 2 None (Some (MkFilter 1 [])) 44) (demo_state ∅ None None).
Lemma subscribed_related : related subscribed (MkFifo [] [] true false) [] [].
Proof. destruct demo_related_empty as [[? ? ? ?] ? ? ? ? ?]. by split; [split|..]. Qed.

Lemma callback_tells_com_witness :
  post (saNtfNotificationCallback4 demo_ntf false UuidMapValueToAddText 0 (fun _ => mret ()) 0 demo_n) (subscribed, []) (fun _ c => exists i,
    fm_view (mem (vals c.1)) (i_fm i) = Some (MkView (Some "ManagedElement=1"%string) 193 196615 1000 (Some "high;uuid:v"%string) [(Some ""%string, Some "v"%string)]) /\
    fm_severity (mem (vals c.1)) (i_fm i) = Some 4 /\ omap notified c.2 = [Some (i_fm i)]) (fun w => w = Aborted).
Proof.
  eapply post_mono; [apply (callback_tells_com demo_ntf false UuidMapValueToAddText 0 (fun _ _ => (SA_AIS_OK, "v"%string)) Some (fun _ => mret ())
    0 demo_n subscribed (MkFifo [] [] true false) [] [] [] "ManagedElement=1"); try done; [apply subscribed_related|vm_compute; lia]| |done].
  intros _ c (i & Hv & Hs & xs & l & _ & _ & Ht). exists i. split; [exact Hv|]. split; [exact Hs|exact Ht].
Defined.
