(* ===== verification/NtfReaderProps.v ===== *)
(** * Notifications: the reader gives everything back and does not go on for ever

    The reader allocates two filters and opens a session for every attempt; an
    attempt may call itself for the next one.  On every path that returns, the
    sessions are closed and the filters freed, innermost first, and the number
    of attempts is bounded by the retries that are left. *)
From Stdlib Require Import ZArith Lia.
From stdpp Require Import base gmap list strings.
From S2P Require Import Prelude Marks Codes NtfData NtfValues NtfInfo NtfPm NtfHeader NtfValueProps NtfHeaderProps NtfAlarms NtfAlarmProps NtfCallbackProps NtfReader.

Open Scope Z_scope.

(** ** What is allocated and opened *)
Inductive session_mark := FilterAllocated (h : Z) | FilterFreed (h : Z) | UnsetFreed | ReadOpened (h : Z) | ReadClosed (h : Z).
Definition session (e : event ntfE) : option session_mark :=
  match e with
  | Ev (filterAllocate _) r => if bool_decide (fst r = SA_AIS_OK) then Some (FilterAllocated (snd r)) else None
  | Ev (saNtfNotificationFilterFree (Some h)) _ => Some (FilterFreed h)
  | Ev (saNtfNotificationFilterFree None) _ => Some UnsetFreed
  | Ev (saNtfNotificationReadInitialize _ _ _ _) r => if bool_decide (fst r = SA_AIS_OK) then Some (ReadOpened (snd r)) else None
  | Ev (saNtfNotificationReadFinalize (Some h)) _ => Some (ReadClosed h)
  | _ => None
  end.

(** The filters and the sessions in use, the latest first, and the filters that
    were lost; [None]: something else than the latest is given back.  When a
    variable that was never set is freed in place of the latest filter, that
    filter is lost. *)
Record in_hand := MkInHand { filters : list Z; sessions : list Z; lost_filters : list Z }.
Definition in_use (st : in_hand) (m : session_mark) : option in_hand :=
  let '(MkInHand fs ss lk) := st in
  match m, fs, ss with
  | FilterAllocated h, _, _ => Some (MkInHand (h :: fs) ss lk)
  | FilterFreed h, f :: fs, _ => if h =? f then Some (MkInHand fs ss lk) else None
  | UnsetFreed, f :: fs, _ => Some (MkInHand fs ss (f :: lk))
  | ReadOpened h, _, _ => Some (MkInHand fs (h :: ss) lk)
  | ReadClosed h, _, s :: ss => if h =? s then Some (MkInHand fs ss lk) else None
  | _, _, _ => None
  end.
Fixpoint uses (st : in_hand) (l : list session_mark) : option in_hand :=
  match l with [] => Some st | m :: l => st' ← in_use st m; uses st' l end.
(** Everything is given back, but for the filters [lk]. *)
Definition balanced_but (lk : list Z) (l : list session_mark) : Prop :=
  forall fs ss lk0, uses (MkInHand fs ss lk0) l = Some (MkInHand fs ss (lk ++ lk0)).
(** At most one filter is lost; none when every filter was allocated. *)
Definition given_back (l : list session_mark) : Prop :=
  balanced_but [] l \/ UnsetFreed ∈ l /\ exists f, FilterAllocated f ∈ l /\ balanced_but [f] l.
Definition is_opened (m : session_mark) : bool := match m with ReadOpened _ => true | _ => false end.
Definition opened (l : list session_mark) : Z := Z.of_nat (length (filter (fun m => is_opened m = true) l)).

Lemma uses_app st l l' : uses st (l ++ l') = (uses st l ≫= fun st' => uses st' l').
Proof. revert st. induction l as [|m l IH]; intros st; [done|]. cbn. destruct (in_use st m); [apply IH|done]. Qed.
Lemma nothing_used : given_back [].
Proof. left. by intros fs ss lk. Qed.
Lemma opened_app l l' : opened (l ++ l') = opened l + opened l'.
Proof. unfold opened. rewrite filter_app, length_app. lia. Qed.

(** ** The parts that have nothing to do with it *)
Abbreviation quiet := (silent (S := Values) session).

#[export] Instance session_unmarked : Unmarked session.
Proof. by intros R []. Qed.

Ltac calm_step :=
  cbv beta zeta delta [when on_vals lock_notify unlock_notify assert_c];
  lazymatch goal with
  | |- calm _ _ (mbind _ _) => apply calm_bind; [|intros ?]
  | |- calm _ _ (mret _) => apply calm_ret
  | |- calm _ _ get => apply calm_get
  | |- calm _ _ (modify _) => apply calm_modify; intros ?; reflexivity
  | |- calm _ _ (exit _) => apply calm_exit
  | |- calm _ _ (of_option _ _) => apply calm_of_option
  | |- calm _ _ (call _ _) => apply calm_call; intros ?; reflexivity
  | |- calm _ _ (zoom _ _ _) => apply calm_zoom; [done|]
  | |- calm _ _ (match ?x with _ => _ end) => destruct x
  end.

Section reader.
Context (env : environment ntfE) (ext : bool) (cfg : UuidCfg) (objects notifications : nat) (cm : SaNtfNotificationsT -> A ()).

(** Neither marks nor retries. *)
Abbreviation steady := (calm session sReaderMaxRetries).
Ltac steady_steps := repeat first [calm_step | apply hush_addNotValue4 | apply hush_header | progress hush].

Lemma steady_send cn : steady (sendSaNtfNotification env cn).
Proof. unfold sendSaNtfNotification. steady_steps. Qed.
Lemma steady_deliver n cn : steady (deliver_or_queue env n cn).
Proof. unfold deliver_or_queue. repeat first [apply steady_send | progress steady_steps]. Qed.
Lemma steady_callback n : steady (callback env ext cfg objects cm 0 n).
Proof.
  unfold callback, saNtfNotificationCallback4, convert_alarm, free_unsent. change (0 =? CM_NOTIFICATIONS_SUBS_ID) with false. cbv iota.
  repeat first [apply steady_send | apply steady_deliver | progress steady_steps].
Qed.
Lemma steady_queue fuel : steady (queue_loop env fuel).
Proof.
  induction fuel as [|fuel IH]; cbn [queue_loop]; unfold queue_turn; repeat first [apply steady_send | apply IH | progress steady_steps].
Qed.
Lemma steady_sendQueued : steady (sendQueuedAlarms env).
Proof. unfold sendQueuedAlarms. apply calm_bind; [apply calm_get|intros s; apply steady_queue]. Qed.
Lemma steady_discarded ids n nh : steady (match_discarded env ext cfg objects cm ids n nh).
Proof.
  revert nh. induction ids as [|id ids IH]; intros nh; cbn [match_discarded]; unfold free_read;
    repeat first [apply steady_callback | apply IH | progress steady_steps].
Qed.
Lemma steady_read_one d t n nh : steady (read_one env ext cfg objects cm d t n nh).
Proof. unfold read_one, free_read. repeat first [apply steady_callback | progress steady_steps]. Qed.
Lemma steady_read fuel ids d t h nh : steady (read_loop env ext cfg objects cm fuel ids d t h nh).
Proof.
  revert nh. induction fuel as [|fuel IH]; intros nh; cbn [read_loop];
    repeat first [apply steady_discarded | apply steady_read_one | apply IH | progress steady_steps].
Qed.
Lemma steady_search_time : steady (search_time env).
Proof. unfold search_time. steady_steps. Qed.

(** Giving the filters and the session back, after attempts that are balanced. *)
Lemma close_marks saf af h (l : list session_mark) : given_back l ->
  given_back (FilterAllocated af :: FilterAllocated saf :: ReadOpened h :: l ++ [FilterFreed saf; ReadClosed h; FilterFreed af]).
Proof.
  assert (Hbut : forall lk, balanced_but lk l ->
    balanced_but lk (FilterAllocated af :: FilterAllocated saf :: ReadOpened h :: l ++ [FilterFreed saf; ReadClosed h; FilterFreed af])).
  { intros lk Hl fs ss lk0. cbn. rewrite uses_app, (Hl _ _ _). cbn. do 3 (rewrite Z.eqb_refl; cbn). done. }
  intros [Hl|(Hu & f & Hf & Hl)]; [left; by apply Hbut|right]. split; [|exists f; split; [|by apply Hbut]]; set_solver.
Qed.
Lemma close_unopened saf af : given_back [FilterAllocated af; FilterAllocated saf; FilterFreed saf; FilterFreed af].
Proof. left. intros fs ss lk. cbn. do 2 (rewrite Z.eqb_refl; cbn). done. Qed.
Lemma close_unset af : given_back [FilterAllocated af; UnsetFreed].
Proof. right. split; [set_solver|]. exists af. split; [set_solver|]. by intros fs ss lk. Qed.

Lemma close_filters_emits saf af o s (Q : () -> Alarms -> list session_mark -> Prop) :
  Q () s (FilterFreed saf :: match o with Some h => [ReadClosed h] | None => [] end ++ [FilterFreed af]) ->
  emits session (close_filters env saf af o) s Q.
Proof.
  intros HQ. unfold close_filters. emits_step. emits_step. emits_step. emits_step. destruct o as [h|]; emits_step; emits_step; emits_step; exact HQ.
Qed.

Definition attempts_left (r : Z) : Z := Z.max 1 (OAM_SA_NTF_READER_MAX_RETRIES - r).

Lemma few_attempts l r : (opened l <=? 1) = true -> opened l <= attempts_left r.
Proof. unfold attempts_left. lia. Qed.

Lemma attempt_alone r : 1 + opened [] <= attempts_left r.
Proof. change (opened []) with 0. unfold attempts_left. lia. Qed.

(** One attempt, given what the next one does. *)
Lemma attempt_emits ids d s next :
  0 <= sReaderMaxRetries s < 2 ^ 32 - 1 ->
  (forall s', sReaderMaxRetries s' = sReaderMaxRetries s + 1 -> sReaderMaxRetries s' < OAM_SA_NTF_READER_MAX_RETRIES ->
     emits session next s' (fun _ _ l => given_back l /\ opened l <= attempts_left (sReaderMaxRetries s'))) ->
  emits session (attempt env ext cfg objects notifications cm ids d next) s (fun _ _ l => given_back l /\ opened l <= attempts_left (sReaderMaxRetries s)).
Proof.
  intros Hr Hnext. unfold attempt. set (r := sReaderMaxRetries s) in *. 
  do 2 emits_step. destruct (is_ntf_stop_component s && failing_over s); [emits_step; split; [apply nothing_used|by apply few_attempts]|].
  apply (calm_then _ sReaderMaxRetries); [apply steady_search_time|]. intros t s1 Hs1.
  emits_step. apply emits_call. intros [rc af]. cbn [session fst snd].
  destruct (decide (rc = SA_AIS_OK)) as [->|Haf]; [rewrite (bool_decide_true (_ = _)) by done; rewrite (bool_decide_false (_ <> _)) by tauto
    |rewrite (bool_decide_false (rc = _)), (bool_decide_true (rc <> _)) by done; emits_step; split; [apply nothing_used|by apply few_attempts]].
  emits_step. apply emits_call. intros [rc saf]. cbn [session fst snd].
  destruct (decide (rc = SA_AIS_OK)) as [->|Hsaf]; [rewrite (bool_decide_true (_ = _)) by done; rewrite (bool_decide_false (_ <> _)) by tauto
    |rewrite (bool_decide_false (rc = _)), (bool_decide_true (rc <> _)) by done; emits_step; emits_step; emits_step; split; [|by apply few_attempts]].
  2: { apply close_unset. }
  assert (Hw : wrap_u 32 (r + 1) = r + 1) by (apply Z.mod_small; lia).
  assert (Hcrit : emits session (search_criteria d) s1 (fun _ s' l => l = [] /\ sReaderMaxRetries s' = if d then r else r + 1)).
  { unfold search_criteria. destruct d; cbn [negb]; [by emits_step|]. emits_step. emits_step. do 2 emits_step.
    destruct (readOldAlarm _); [emits_step; split; [done|]|emits_step; emits_step; emits_step; split; [done|]];
      cbn [sReaderMaxRetries set_retries set_reading]; rewrite Hs1; exact Hw. }
  emits_step. eapply emits_mono; [exact Hcrit|]. intros byId s2 l2 [-> Hs2]. do 2 emits_step.
  emits_step. apply emits_call. intros [rc h]. cbn [session fst snd].
  destruct (decide (rc = SA_AIS_OK)) as [->|Hread]; [rewrite (bool_decide_true (_ = _)) by done; rewrite (bool_decide_false (_ <> _)) by tauto
    |rewrite (bool_decide_false (rc = _)), (bool_decide_true (rc <> _)) by done].
  2: { emits_step. apply close_filters_emits. emits_step. split; [apply close_unopened|by apply few_attempts]. }
  apply (calm_then _ sReaderMaxRetries); [apply steady_read|]. intros rc s3 Hs3. cbv zeta.
  set (rc' := if bool_decide _ then _ else _).
  assert (Hend : forall rc1 s', emits session (close_filters env saf af (Some h) ;; mret rc1 : A SaAisErrorT) s' (fun _ _ l => l = [FilterFreed saf; ReadClosed h; FilterFreed af])).
  { intros rc1 s'. emits_step. apply close_filters_emits. by emits_step. }
  assert (Hlast : forall (m : A ()), steady m -> emits session (m ;; mret rc' : A SaAisErrorT) s3 (fun _ _ l => l = [])).
  { intros m Hm. apply (calm_then _ sReaderMaxRetries); [exact Hm|]. intros [] s4 _. by emits_step. }
  emits_step. eapply (emits_mono _ _ _ (fun _ _ l => given_back l /\ 1 + opened l <= attempts_left r)).
  - destruct d; cbn [negb]; [emits_step; split; [apply nothing_used|apply attempt_alone]|].
    assert (Hz : forall (a : SaAisErrorT) (s' : Alarms) l, l = [] -> given_back l /\ 1 + opened l <= attempts_left r).
    { intros _ _ l ->. split; [apply nothing_used|apply attempt_alone]. }
    do 2 emits_step. destruct (_ || _); [by eapply emits_mono; [apply Hlast, steady_sendQueued|]|].
    destruct (Z.ltb_spec (sReaderMaxRetries s3) OAM_SA_NTF_READER_MAX_RETRIES) as [Hlt|Hge];
      [|by eapply emits_mono; [apply Hlast, steady_sendQueued|]].
    apply (calm_then _ sReaderMaxRetries); [by apply calm_call|]. intros [] s4 Hs4. rewrite <- Hs4 in Hlt.
    assert (Hr4 : sReaderMaxRetries s4 = r + 1) by congruence.
    eapply emits_mono; [by apply Hnext|]. intros _ _ l [Hl Hn]. split; [done|]. unfold attempts_left in *. lia.
  - intros rc1 s4 l [Hl Hn]. eapply emits_mono; [apply Hend|]. intros _ _ l' ->.
    split; [by apply close_marks|]. cbn [app].
    change (FilterAllocated af :: FilterAllocated saf :: ReadOpened h :: l ++ [FilterFreed saf; ReadClosed h; FilterFreed af])
      with ([FilterAllocated af; FilterAllocated saf; ReadOpened h] ++ l ++ [FilterFreed saf; ReadClosed h; FilterFreed af]).
    rewrite !opened_app. change (opened [FilterFreed saf; ReadClosed h; FilterFreed af]) with 0.
    change (opened [FilterAllocated af; FilterAllocated saf; ReadOpened h]) with 1. lia.
Qed.

Lemma readOldAlarms_emits depth ids d s :
  0 <= sReaderMaxRetries s < 2 ^ 32 - 1 ->
  emits session (readOldAlarms env ext cfg objects notifications cm depth ids d) s (fun _ s' l =>
    given_back l /\ opened l <= attempts_left (sReaderMaxRetries s)).
Proof.
  revert ids d s. induction depth as [|depth IH]; intros ids d s Hr; cbn [readOldAlarms]; apply attempt_emits; try done.
  intros s' Hs' Hlt. apply IH. unfold OAM_SA_NTF_READER_MAX_RETRIES in Hlt. lia.
Qed.

(** ** The depth is enough *)
Lemma steady_then {B} (m : A B) (k k' : B -> A SaAisErrorT) s tr :
  steady m -> (forall a s' tr', sReaderMaxRetries s' = sReaderMaxRetries s -> k a (s', tr') = k' a (s', tr')) ->
  (m ≫= k) (s, tr) = (m ≫= k') (s, tr).
Proof. intros Hm Hk. eapply bind_same; [by apply (calm_post session sReaderMaxRetries)|]. intros a [s' tr'] Hs. by apply Hk. Qed.

Lemma attempt_same ids d next next' s tr :
  0 <= sReaderMaxRetries s < 2 ^ 32 - 1 ->
  (forall s' tr', sReaderMaxRetries s' = sReaderMaxRetries s + 1 -> sReaderMaxRetries s' < OAM_SA_NTF_READER_MAX_RETRIES ->
     next (s', tr') = next' (s', tr')) ->
  attempt env ext cfg objects notifications cm ids d next (s, tr) = attempt env ext cfg objects notifications cm ids d next' (s, tr).
Proof.
  intros Hr Hnext. unfold attempt. apply steady_then; [apply calm_get|]. intros s0 s1 tr1 Hs1.
  destruct (is_ntf_stop_component s0 && failing_over s0); [done|].
  apply steady_then; [apply steady_search_time|]. intros t s2 tr2 Hs2.
  assert (Hcall : forall R (e : ntfE R) k k' s tr, (forall r tr', k r (s, tr') = k' r (s, tr')) ->
     (call env e ≫= k) (s, tr) = (call env e ≫= k' : A SaAisErrorT) (s, tr)) by (intros * Hk; apply Hk).
  apply Hcall. intros af tr3. destruct (bool_decide _); [done|].
  apply Hcall. intros saf tr4. destruct (bool_decide _); [done|].
  eapply (bind_same _ _ _ _ (fun _ c => sReaderMaxRetries c.1 = if d then sReaderMaxRetries s else sReaderMaxRetries s + 1)).
  { unfold search_criteria. destruct d; cbn [negb]; [post_step; cbn; congruence|]. repeat post_step.
    assert (Hw : wrap_u 32 (sReaderMaxRetries s + 1) = sReaderMaxRetries s + 1) by (apply Z.mod_small; lia).
    rewrite Hs2, Hs1. destruct (readOldAlarm _); repeat post_step; exact Hw. }
  intros byId [s3 tr5] Hs3. cbn [fst] in Hs3. apply steady_then; [apply calm_get|]. intros s4 s5 tr6 Hs5.
  apply Hcall. intros h tr7. destruct (bool_decide _); [done|].
  apply steady_then; [apply steady_read|]. intros rc s6 tr8 Hs6. cbv zeta. destruct d; cbn [negb]; [done|].
  apply bind_first.
  assert (Hget : forall (k k' : Alarms -> A SaAisErrorT) s tr, k s (s, tr) = k' s (s, tr) -> (get ≫= k) (s, tr) = (get ≫= k') (s, tr)) by done.
  apply Hget. destruct (_ || _); [done|].
  destruct (Z.ltb_spec (sReaderMaxRetries s6) OAM_SA_NTF_READER_MAX_RETRIES) as [Hlt|]; [|done].
  apply Hcall. intros [] tr9. apply Hnext; [congruence|done].
Qed.

(** A deeper recursion changes nothing: the retries are used up first. *)
Lemma readOldAlarms_depth depth ids d s tr :
  0 <= sReaderMaxRetries s < 2 ^ 32 - 1 -> OAM_SA_NTF_READER_MAX_RETRIES <= Z.of_nat depth + sReaderMaxRetries s + 1 ->
  readOldAlarms env ext cfg objects notifications cm (S depth) ids d (s, tr) =
  readOldAlarms env ext cfg objects notifications cm depth ids d (s, tr).
Proof.
  revert ids d s tr. induction depth as [|depth IH]; intros ids d s tr Hr Hd.
  - cbn [readOldAlarms]. apply attempt_same; [done|]. intros s' tr' Hs' Hlt. lia.
  - change (readOldAlarms env ext cfg objects notifications cm (S (S depth)) ids d)
      with (attempt env ext cfg objects notifications cm ids d (readOldAlarms env ext cfg objects notifications cm (S depth) [] false)).
    change (readOldAlarms env ext cfg objects notifications cm (S depth) ids d)
      with (attempt env ext cfg objects notifications cm ids d (readOldAlarms env ext cfg objects notifications cm depth [] false)).
    apply attempt_same; [done|]. intros s' tr' Hs' Hlt. apply IH; unfold OAM_SA_NTF_READER_MAX_RETRIES in *; lia.
Qed.
End reader.

(** C14. Bounds.  Whatever OpenSAF, IMM and the other threads answer, a reading of
    old alarms that returns has closed its sessions and freed its filters, the
    latest first, with one exception: when the filter of security alarms cannot
    be allocated, [saNtfNotificationFilterFree] is called with a variable that
    was never set, and the filter of alarms of that (last) attempt is lost; this
    happens at most once.  The reading has opened at most as many sessions as
    retries were left (five after the service was opened); and the depth that
    bounds the recursion in the model is never what ends it: a deeper one gives
    the same. *)
Theorem reader_bounded (env : environment ntfE) ext cfg objects notifications cm ids d s
    (Hretries : 0 <= sReaderMaxRetries s < 2 ^ 32 - 1) :
  let depth := Z.to_nat OAM_SA_NTF_READER_MAX_RETRIES in
  emits session (readOldAlarms env ext cfg objects notifications cm depth ids d) s (fun _ _ l =>
    given_back l /\ opened l <= attempts_left (sReaderMaxRetries s)) /\
  forall k tr, readOldAlarms env ext cfg objects notifications cm (k + depth) ids d (s, tr) =
               readOldAlarms env ext cfg objects notifications cm depth ids d (s, tr).
Proof.
  intros depth. split; [by apply readOldAlarms_emits|]. intros k tr. induction k as [|k IH]; [done|].
  rewrite <- IH. apply readOldAlarms_depth; [done|]. subst depth. unfold OAM_SA_NTF_READER_MAX_RETRIES. lia.
Qed.

Lemma reader_bounded_witness :
  emits session (readOldAlarms demo_ntf false UuidDisableHandle 0 0 (fun _ => mret ()) 5 [] false) (demo_state ∅ None None) (fun _ _ l =>
    given_back l /\ opened l <= attempts_left 1) /\
  forall k tr, readOldAlarms demo_ntf false UuidDisableHandle 0 0 (fun _ => mret ()) (k + 5) [] false (demo_state ∅ None None, tr) =
               readOldAlarms demo_ntf false UuidDisableHandle 0 0 (fun _ => mret ()) 5 [] false (demo_state ∅ None None, tr).
Proof.
  assert (Hretries : 0 <= 1 < 2 ^ 32 - 1) by lia.
  exact (reader_bounded demo_ntf false UuidDisableHandle 0 0 (fun _ => mret ()) [] false (demo_state ∅ None None) Hretries).
Defined.

(** A service whose last notification the reader never meets: five sessions, each in the one before. *)
Definition demo_unmatched : Alarms := set_retries 0 (set_reading false false false (set_ids 7 0 (demo_state ∅ None None))).
Example demo_reader :
  (let '(o, (s, tr)) := readerThread demo_ntf false UuidDisableHandle 0 0 (fun _ => mret ()) (demo_unmatched, []) in
   (o, sReaderMaxRetries s, readOldAlarmDone s, opened (omap session tr), uses (MkInHand [] [] []) (omap session tr))) =
  (Ret (), 5, true, 5, Some (MkInHand [] [] [])).
Proof. vm_compute. reflexivity. Qed.

(** The filter of security alarms cannot be allocated: the other one is lost. *)
Definition no_security_filter : environment ntfE := fun R tr e =>
  match e in ntfE R return R with
  | filterAllocate SecurityAlarmFilter => (SA_AIS_ERR_NO_RESOURCES, 0)
  | e => demo_ntf _ tr e
  end.
Example demo_leak :
  (let '(o, (s, tr)) := readOldAlarms no_security_filter false UuidDisableHandle 0 0 (fun _ => mret ()) 5 [] false (demo_unmatched, []) in
   (o, uses (MkInHand [] [] []) (omap session tr))) = (Ret SA_AIS_ERR_NO_RESOURCES, Some (MkInHand [] [] [8])).
Proof. vm_compute. reflexivity. Qed.
