(* ===== verification/NtfService.v ===== *)
(** * Notifications: subscriptions and the life of the service ([ntf/ComSANtf.c])

    COM subscribes through the event router ([addFilter_V4], [removeFilter_V4],
    [clearAll_V4]); the service is opened and closed by the controller and its
    thread is stopped through a pipe. *)
From Stdlib Require Import ZArith Lia.
From stdpp Require Import base gmap list strings.
From S2P Require Import Prelude Codes NtfData NtfValues NtfAlarms NtfReader.

#[local] Open Scope string_scope.
Open Scope Z_scope.

Section service.
Context (env : environment ntfE) (_CC_NAME : string).

(** ** Subscriptions at OpenSAF *)
Definition subscribeForNotifications (subId : Z) : A SaAisErrorT :=
  af ← call env (filterAllocate AlarmFilter);
  if bool_decide (fst af <> SA_AIS_OK) then mret (fst af)
  else
    saf ← call env (filterAllocate SecurityAlarmFilter);
    if bool_decide (fst saf <> SA_AIS_OK) then mret (fst saf)
    else
      rc ← call env (saNtfNotificationSubscribe [snd af; snd saf] subId);
      when (bool_decide (rc <> SA_AIS_OK))
        (rc2 ← call env (saNtfNotificationFilterFree (Some (snd af)));
         when (bool_decide (rc2 = SA_AIS_OK))
           (r ← call env (saNtfNotificationFilterFree (Some (snd saf))); mret ())) ;;
      mret rc.

(** ** Subscriptions of COM *)
Definition component_type (v : FmVersion) : option string :=
  match v with
  | MafOamSpiNotificationFm_4 => Some MafOamSpiNotificationFmEventComponent_4
  | MafOamSpiNotificationFm_3 => Some MafOamSpiNotificationFmEventComponent_3
  | FmNone => None
  end.

Definition setupInterface : A () :=
  s ← get;
  if addFilter_setup s then mret ()
  else if event_router_MAF s then
    retval ← (match component_type (mafSpiNtfFmVersion (vals s)) with
              | Some t => call env (addSubscription (consumer_handle s) t)
              | None => mret MafFailure
              end : A MafReturnT);
    when (bool_decide (retval = MafOk)) (modify (fun s => set_router true (event_router_MAF s) s))
  else modify (fun s => set_router true (event_router_MAF s) s).

(** The event type of a consumer in the version of the interface. *)
Definition wrong_type (v : FmVersion) (eventType : string) : bool :=
  match v with
  | MafOamSpiNotificationFm_4 => bool_decide (eventType <> MafOamSpiNotificationFmEventType_4)
  | MafOamSpiNotificationFm_3 => bool_decide (eventType <> MafOamSpiNotificationFmEventType_2)
  | FmNone => false
  end.

Definition addFilter_V4 (handle : Z) (eventType : string) (filter : option Filter) : A MafReturnT :=
  s ← get;
  if wrong_type (mafSpiNtfFmVersion (vals s)) eventType then mret MafNotExist
  else
    setupInterface ;;
    lock_notify env ;;
    s ← get;
    rc_maf ← (match filter_of (nFilter_V4 s) with
     | Some _ => mret MafAlreadyExist
     | None =>
         let f := nFilter_V4 s in
         modify (set_filter (MkMafFilter (consumerHandle f) (eventTypeOf f) None COMSA_NTF_SUBSCRIPTION_ID)) ;;
         rc ← OAM_SA_NTF_RETRY env (subscribeForNotifications COMSA_NTF_SUBSCRIPTION_ID);
         if bool_decide (rc <> SA_AIS_OK) then
           modify (set_filter (MkMafFilter (consumerHandle f) (eventTypeOf f) None 0)) ;; mret (maf_coremw_rc rc)
         else
           modify (set_filter (MkMafFilter handle (Some eventType) filter COMSA_NTF_SUBSCRIPTION_ID)) ;;
           r ← createReaderThread env;
           mret (maf_coremw_rc rc)
     end : A MafReturnT);
    unlock_notify env ;;
    mret rc_maf.

(** [filter] is the address of the filter. *)
Definition removeFilter_V4 (handle : Z) (filter : option Z) : A MafReturnT :=
  lock_notify env ;;
  s ← get;
  let f := nFilter_V4 s in
  rc_maf ← (if bool_decide (consumerHandle f = handle) && bool_decide (f_addr <$> filter_of f = filter) then
      rc ← OAM_SA_NTF_RETRY env (call env (saNtfNotificationUnsubscribe (subscriptionId f)));
      if bool_decide (rc = SA_AIS_OK) || bool_decide (rc = SA_AIS_ERR_NOT_EXIST) then
        modify (set_filter no_filter) ;; mret MafOk
      else
        (* the warning prints the name of the first pair of the filter *)
        match filter_of f with
        | Some {| f_values := _ :: _ |} => mret MafFailure
        | _ => exit BadPointer
        end
    else mret MafFailure : A MafReturnT);
  unlock_notify env ;;
  mret rc_maf.

Definition clearAll_V4 : A MafReturnT :=
  s ← get;
  rc ← (if negb (consumerHandle (nFilter_V4 s) =? 0)
        then removeFilter_V4 (consumerHandle (nFilter_V4 s)) (f_addr <$> filter_of (nFilter_V4 s))
        else mret MafOk : A MafReturnT);
  mret (if bool_decide (rc <> MafOk) then MafFailure else rc).

(** ** The thread *)
Definition dispatch_ntf : A () :=
  rc ← call env saNtfDispatch;
  if bool_decide (rc = SA_AIS_ERR_BAD_HANDLE) then mret ()
  else when (bool_decide (rc <> SA_AIS_OK)) (exit ErrQuit).

(** [fd]: the end of the pipe; [wouldblock]: the reason when [read] fails. *)
Definition stop_ntf_polling (fd : Z) (wouldblock : bool) : A () :=
  rc ← call env read_pipe;
  when ((rc <? 0) && negb wouldblock) (exit ErrQuit) ;;
  modify (fun s => set_stops (is_ntf_stop_component s) true s) ;;
  call env (poll_unsetcallback fd).

Definition setMafStateChangeReason (failing : bool) : A () := modify (set_reason failing).

(** ** Opening *)
Definition reset_statics (s : Alarms) : Alarms :=
  set_filter no_filter (set_queue None None (set_ids 0 0 (set_retries 0 (set_reading false false false
    (set_stops false (ntf_stop_thread s) (set_router false false s)))))).

(** [do { saNtfInitialize; if (nRetries) usleep; } while (try again && nRetries++ < max)] *)
Fixpoint initialize_loop (nRetries : nat) (tries : nat) : A SaAisErrorT :=
  rc ← call env saNtfInitialize;
  when (0 <? Z.of_nat nRetries) (call env (usleep OAM_SA_NTF_RETRY_SLEEP)) ;;
  if is_try_again rc then
    match tries with
    | O => mret rc
    | S tries => initialize_loop (S nRetries) tries
    end
  else mret rc.

Definition event_type (v : FmVersion) : string :=
  if bool_decide (v = MafOamSpiNotificationFm_3) then MafOamSpiNotificationFmEventType_2 else MafOamSpiNotificationFmEventType_4.

(** Producer and consumer at the event router. *)
Definition register_router : A MafReturnT :=
  r ← call env registerProducer;
  modify (fun s => set_handles (snd r) (consumer_handle s) s) ;;
  if bool_decide (fst r <> MafOk) then mret (fst r)
  else
    s ← get;
    retval ← call env (addProducerEvent (producer_handle s) (event_type (mafSpiNtfFmVersion (vals s))));
    if bool_decide (retval <> MafOk) then mret retval
    else
      r ← call env registerConsumer;
      modify (fun s => set_handles (producer_handle s) (snd r) s) ;;
      if bool_decide (fst r <> MafOk) then mret (fst r)
      else setupInterface ;; mret (fst r).

(** [portal]: the portal of the MAF is given. *)
Definition maf_ComNtfServiceOpen (portal : bool) : A MafReturnT :=
  modify reset_statics ;;
  rc ← initialize_loop 0 OAM_SA_NTF_MAX_RETRIES;
  if bool_decide (rc <> SA_AIS_OK) then mret (maf_coremw_rc rc)
  else
    sel ← call env saNtfSelectionObjectGet;
    when (bool_decide (fst sel <> SA_AIS_OK)) (exit ErrQuit) ;;
    rv ← call env (poll_setcallback (snd sel));
    when (negb (rv =? 0)) (exit ErrQuit) ;;
    modify (fun s => set_vals (set_version MafOamSpiNotificationFm_4 (vals s)) s) ;;
    when (negb portal) (exit BadPointer) ;;
    r ← call env getInterface;
    modify (fun s => set_router (addFilter_setup s) (snd r) s) ;;
    call env start_CmEventHandler ;;
    if (snd r : bool) then register_router else mret (fst r).

(** ** Closing *)

(** The router is left; the first failure ends the closing there. *)
Definition leave_router : A MafReturnT :=
  s ← get;
  let v := mafSpiNtfFmVersion (vals s) in
  retval ← call env (removeProducerEvent (producer_handle s) (event_type v));
  if bool_decide (retval <> MafOk) then mret retval
  else
    retval ← call env (unregisterProducer (producer_handle s));
    if bool_decide (retval <> MafOk) then mret retval
    else
      retval ← call env (removeSubscription (consumer_handle s)
        (if bool_decide (v = MafOamSpiNotificationFm_3) then MafOamSpiNotificationFmEventComponent_3 else MafOamSpiNotificationFmEventComponent_4));
      if bool_decide (retval <> MafOk) then mret retval
      else
        retval ← call env (unregisterConsumer (consumer_handle s));
        when (bool_decide (retval = MafOk)) (modify (set_router false false)) ;;
        mret retval.

Definition finish_close : A MafReturnT :=
  when (bool_decide ("lm" <> _CC_NAME)) (call env stop_CmEventHandler) ;;
  rc ← OAM_SA_NTF_RETRY env (call env saNtfFinalize);
  modify (set_stops true false) ;;
  on_vals (cleanVlist4 env) ;;
  r ← call env (mutex_unlock cm_notification_lock);
  modify (set_cm_locked false) ;;
  mret (maf_coremw_rc rc).

(** The lock of the call-back for configuration is taken first, so that no
    notification is in the middle of being processed; a thread that holds it
    already waits for ever. *)
Definition maf_ComNtfServiceClose : A MafReturnT :=
  modify (fun s => set_stops (is_ntf_stop_component s) true s) ;;
  s ← get;
  when (cm_locked s) (exit Blocked) ;;
  r ← call env (mutex_lock cm_notification_lock);
  modify (set_cm_locked true) ;;
  sel ← call env saNtfSelectionObjectGet;
  when (bool_decide (fst sel = SA_AIS_OK)) (call env (poll_unsetcallback (snd sel))) ;;
  s ← get;
  retval ← (if event_router_MAF s then leave_router else mret MafOk : A MafReturnT);
  if bool_decide (retval <> MafOk) then mret retval else finish_close.
End service.
