(* ===== verification/NtfServiceProps.v ===== *)
(** * Notifications: the subscription of COM and the end of the service

    What the component has subscribed to at OpenSAF is what COM has a filter
    for, whatever OpenSAF answers; and what closing does and leaves undone. *)
From Stdlib Require Import ZArith Lia.
From stdpp Require Import base gmap list strings.
From S2P Require Import Prelude Marks Codes NtfData NtfValues NtfValueFacts NtfValueProps NtfAlarms NtfReader NtfService.

Open Scope Z_scope.

(** ** Subscriptions at OpenSAF *)
Inductive sub_mark := Subscribed (id : Z) | Unsubscribed (id : Z).
Definition subscription_mark (e : event ntfE) : option sub_mark :=
  match e with
  | Ev (saNtfNotificationSubscribe _ id) rc => if bool_decide (rc = SA_AIS_OK) then Some (Subscribed id) else None
  | Ev (saNtfNotificationUnsubscribe id) rc =>
      if bool_decide (rc = SA_AIS_OK) || bool_decide (rc = SA_AIS_ERR_NOT_EXIST) then Some (Unsubscribed id) else None
  | _ => None
  end.
Definition sub_step (active : gset Z) (m : sub_mark) : gset Z :=
  match m with Subscribed id => {[ id ]} ∪ active | Unsubscribed id => active ∖ {[ id ]} end.
Definition subscribed (active : gset Z) (l : list sub_mark) : gset Z := foldl sub_step active l.

(** The filter COM has, and the subscription that goes with it. *)
Definition in_step (f : MafFilterT) (active : gset Z) : Prop :=
  match filter_of f with
  | Some _ => subscriptionId f = COMSA_NTF_SUBSCRIPTION_ID /\ active = {[ COMSA_NTF_SUBSCRIPTION_ID ]}
  | None => subscriptionId f = 0 /\ active = ∅
  end.

(** ** The operations of the event router *)
Inductive router_op :=
| AddFilter (handle : Z) (eventType : string) (filter : Filter)
| RemoveFilter (handle : Z) (filter : option Z)
| ClearAll.

Section router.
Context (env : environment ntfE).

Definition exec_router (o : router_op) : A MafReturnT :=
  match o with
  | AddFilter h t f => addFilter_V4 env h t (Some f)
  | RemoveFilter h f => removeFilter_V4 env h f
  | ClearAll => clearAll_V4 env
  end.
Fixpoint exec_routers (os : list router_op) : A (list MafReturnT) :=
  match os with
  | [] => mret []
  | o :: os => r ← exec_router o; rs ← exec_routers os; mret (r :: rs)
  end.

(** Parts that leave the filter alone and make no mark. *)
Abbreviation calm := (calm subscription_mark nFilter_V4).
Lemma calm_lock m : calm (on_vals (lock env m)).
Proof. apply calm_zoom; [done|]. unfold lock, checked. silence. Qed.
Lemma calm_unlock m : calm (on_vals (unlock env m)).
Proof. apply calm_zoom; [done|]. unfold unlock, checked. silence. Qed.

Ltac calm :=
  repeat first
    [ apply calm_bind; [|intros ?] | apply calm_ret | apply calm_get | apply calm_modify; intros ?; reflexivity | apply calm_exit
    | apply calm_call; intros ?; reflexivity | apply calm_lock | apply calm_unlock
    | match goal with |- calm (match ?x with _ => _ end) => destruct x end | progress cbv [when] ].

Lemma calm_setupInterface : calm (setupInterface env).
Proof. unfold setupInterface. calm. Qed.
Lemma calm_createReaderThread : calm (createReaderThread env).
Proof. unfold createReaderThread. calm. Qed.

(** ** The calls that change a subscription *)
Lemma retry_marks {R} again (pause : A ()) (m : A R) (P : R -> list sub_mark) n s (Q : R -> Alarms -> list sub_mark -> Prop) :
  calm pause -> (forall rc, again rc = true -> P rc = []) ->
  (forall s' (Q' : R -> Alarms -> list sub_mark -> Prop), nFilter_V4 s' = nFilter_V4 s ->
     (forall rc s'', nFilter_V4 s'' = nFilter_V4 s' -> Q' rc s'' (P rc)) -> emits subscription_mark m s' Q') ->
  (forall rc s', nFilter_V4 s' = nFilter_V4 s -> Q rc s' (P rc)) -> emits subscription_mark (retry again pause m n) s Q.
Proof.
  intros Hp Hagain Hm HQ. assert (Hgo : forall s', nFilter_V4 s' = nFilter_V4 s -> emits subscription_mark (retry again pause m n) s' Q); [|by apply Hgo].
  induction n as [|n IH]; intros s' Hs'; rewrite retry_unfold; apply emits_bind, Hm; try done; intros rc s'' Hs''; destruct (again rc) eqn:Ea.
  1, 2, 4: apply emits_ret; rewrite app_nil_r; apply HQ; congruence.
  rewrite (Hagain rc Ea). cbn [app]. apply (calm_then _ nFilter_V4); [done|]. intros [] s3 Hs3. apply IH. congruence.
Qed.

Lemma subscribe_marks s (Q : SaAisErrorT -> Alarms -> list sub_mark -> Prop) :
  (forall rc s', nFilter_V4 s' = nFilter_V4 s -> Q rc s' (if bool_decide (rc = SA_AIS_OK) then [Subscribed COMSA_NTF_SUBSCRIPTION_ID] else [])) ->
  emits subscription_mark (OAM_SA_NTF_RETRY env (subscribeForNotifications env COMSA_NTF_SUBSCRIPTION_ID)) s Q.
Proof.
  intros HQ. apply (retry_marks _ _ _ (fun rc => if bool_decide (rc = SA_AIS_OK) then [Subscribed COMSA_NTF_SUBSCRIPTION_ID] else [])); [calm|by intros []| |done].
  intros s' Q' _ HQ'. unfold subscribeForNotifications. apply (calm_then _ nFilter_V4); [calm|]. intros af s1 Hs1.
  case_bool_decide as Haf; [apply emits_ret; specialize (HQ' (fst af) s1 Hs1); by rewrite bool_decide_false in HQ'|].
  apply (calm_then _ nFilter_V4); [calm|]. intros saf s2 Hs2.
  case_bool_decide as Hsaf; [apply emits_ret; specialize (HQ' (fst saf) s2 ltac:(congruence)); by rewrite bool_decide_false in HQ'|].
  apply emits_bind, emits_call. intros rc. cbn [subscription_mark].
  specialize (HQ' rc). case_bool_decide as Hrc.
  - rewrite (bool_decide_false (rc <> SA_AIS_OK)) by tauto. cbv [when]. emits_step. emits_step. emits_step. apply HQ'. congruence.
  - rewrite (bool_decide_true (rc <> SA_AIS_OK)) by done. cbv [when]. apply (calm_then _ nFilter_V4); [calm|]. intros ? s3 Hs3.
    emits_step. apply HQ'. congruence.
Qed.

Lemma unsubscribe_marks id s (Q : SaAisErrorT -> Alarms -> list sub_mark -> Prop) :
  (forall rc s', nFilter_V4 s' = nFilter_V4 s ->
     Q rc s' (if bool_decide (rc = SA_AIS_OK) || bool_decide (rc = SA_AIS_ERR_NOT_EXIST) then [Unsubscribed id] else [])) ->
  emits subscription_mark (OAM_SA_NTF_RETRY env (call env (saNtfNotificationUnsubscribe id))) s Q.
Proof.
  intros HQ. apply (retry_marks _ _ _ (fun rc => if bool_decide (rc = SA_AIS_OK) || bool_decide (rc = SA_AIS_ERR_NOT_EXIST) then [Unsubscribed id] else []));
    [calm|by intros []| |done].
  intros s' Q' _ HQ'. apply emits_call. intros rc. specialize (HQ' rc s' eq_refl). cbn [subscription_mark]. by destruct (_ || _).
Qed.

(** ** One filter at most *)

(** What COM is answered, and the filter afterwards. *)
Definition answered (o : router_op) (f : MafFilterT) (rv : MafReturnT) (f' : MafFilterT) : Prop :=
  match o with
  | AddFilter h t fl =>
      match filter_of f with
      | Some _ => rv <> MafOk /\ f' = f
      | None => if bool_decide (rv = MafOk) then f' = MkMafFilter h (Some t) (Some fl) COMSA_NTF_SUBSCRIPTION_ID else filter_of f' = None
      end
  | RemoveFilter h a => if bool_decide (rv = MafOk) then consumerHandle f = h /\ f_addr <$> filter_of f = a /\ f' = no_filter else f' = f
  | ClearAll => if bool_decide (rv = MafOk) then (consumerHandle f = 0 /\ f' = f) \/ f' = no_filter else f' = f
  end.
Fixpoint answered_all (os : list router_op) (f : MafFilterT) (rs : list MafReturnT) (f' : MafFilterT) : Prop :=
  match os, rs with
  | [], [] => f' = f
  | o :: os, rv :: rs => exists f1, answered o f rv f1 /\ answered_all os f1 rs f'
  | _, _ => False
  end.

Lemma addFilter_marks h t fl s active (Q : MafReturnT -> Alarms -> list sub_mark -> Prop) :
  in_step (nFilter_V4 s) active ->
  (forall rv s' l, answered (AddFilter h t fl) (nFilter_V4 s) rv (nFilter_V4 s') -> in_step (nFilter_V4 s') (subscribed active l) -> Q rv s' l) ->
  emits subscription_mark (addFilter_V4 env h t (Some fl)) s Q.
Proof.
  intros Hin HQ. unfold addFilter_V4. do 2 emits_step. destruct (wrong_type _ _).
  { emits_step. apply HQ; [|exact Hin]. unfold in_step in Hin. cbn. destruct (filter_of (nFilter_V4 s)) eqn:Ef; done. }
  apply (calm_then _ nFilter_V4); [apply calm_setupInterface|]. intros [] s1 Hs1. apply (calm_then _ nFilter_V4); [apply calm_lock|]. intros [] s2 Hs2.
  do 2 emits_step. assert (nFilter_V4 s2 = nFilter_V4 s) as -> by congruence. unfold in_step in Hin.
  destruct (filter_of (nFilter_V4 s)) as [f0|] eqn:Ef.
  - emits_step. emits_step. apply (calm_then _ nFilter_V4); [apply calm_unlock|]. intros [] s3 Hs3. emits_step.
    assert (nFilter_V4 s3 = nFilter_V4 s) as Hs by congruence. apply HQ; rewrite Hs; [cbn; by rewrite Ef|unfold in_step; by rewrite Ef].
  - destruct Hin as [Hid ->]. emits_step. do 2 emits_step. emits_step. apply subscribe_marks. intros rc s3 Hs3.
    destruct (decide (rc = SA_AIS_OK)) as [->|Hrc].
    + rewrite (bool_decide_false (_ <> _)) by tauto. rewrite bool_decide_true by done. do 2 emits_step. apply (calm_then _ nFilter_V4); [apply calm_createReaderThread|].
      intros rt s4 Hs4. emits_step. apply (calm_then _ nFilter_V4); [apply calm_unlock|]. intros [] s5 Hs5. emits_step.
      assert (nFilter_V4 s5 = MkMafFilter h (Some t) (Some fl) COMSA_NTF_SUBSCRIPTION_ID) as Hs by (rewrite Hs5, Hs4; done).
      apply HQ; rewrite Hs; [cbn; by rewrite Ef|split; [done|]]. cbn. set_solver.
    + rewrite (bool_decide_true (_ <> _)), (bool_decide_false (rc = _)) by done. do 2 emits_step. emits_step. apply (calm_then _ nFilter_V4); [apply calm_unlock|]. intros [] s4 Hs4. emits_step.
      assert (filter_of (nFilter_V4 s4) = None /\ subscriptionId (nFilter_V4 s4) = 0) as [Hf Hi] by (rewrite Hs4; done).
      apply HQ; [|unfold in_step; by rewrite Hf, Hi].
      unfold answered. rewrite Ef, bool_decide_false; [done|]. destruct rc; done.
Qed.

Lemma removeFilter_marks h a s active (Q : MafReturnT -> Alarms -> list sub_mark -> Prop) :
  in_step (nFilter_V4 s) active ->
  (forall rv s' l, answered (RemoveFilter h a) (nFilter_V4 s) rv (nFilter_V4 s') -> in_step (nFilter_V4 s') (subscribed active l) -> Q rv s' l) ->
  emits subscription_mark (removeFilter_V4 env h a) s Q.
Proof.
  intros Hin HQ. unfold removeFilter_V4. apply (calm_then _ nFilter_V4); [apply calm_lock|]. intros [] s1 Hs1. do 2 emits_step. rewrite Hs1.
  assert (Hfail : forall s2, nFilter_V4 s2 = nFilter_V4 s -> emits subscription_mark (on_vals (unlock env notify_lock) ;; mret MafFailure) s2 Q).
  { intros s2 Hs2. apply (calm_then _ nFilter_V4); [apply calm_unlock|]. intros [] s3 Hs3. emits_step. rewrite Hs2 in Hs3. by apply HQ; rewrite Hs3. }
  case_bool_decide as Hh; cbn [andb]; [|emits_step; emits_step; by apply Hfail].
  case_bool_decide as Ha; [|emits_step; emits_step; by apply Hfail].
  do 2 emits_step. apply unsubscribe_marks. intros rc s2 Hs2. rewrite Hs1 in Hs2. destruct (_ || _).
  - do 2 emits_step. emits_step. apply (calm_then _ nFilter_V4); [apply calm_unlock|]. intros [] s3 Hs3. emits_step. apply HQ; rewrite Hs3; [done|].
    split; [done|]. cbn. unfold in_step in Hin. destruct (filter_of (nFilter_V4 s)); destruct Hin as [-> ->]; set_solver.
  - destruct (filter_of _) as [[? [|? ?]]|] eqn:Ef; try apply emits_exit. emits_step. by apply Hfail.
Qed.

Lemma exec_router_marks o s active :
  in_step (nFilter_V4 s) active ->
  emits subscription_mark (exec_router o) s (fun rv s' l =>
    answered o (nFilter_V4 s) rv (nFilter_V4 s') /\ in_step (nFilter_V4 s') (subscribed active l)).
Proof.
  intros Hin. destruct o as [h t fl|h a|]; cbn [exec_router].
  - by apply (addFilter_marks h t fl s active).
  - by apply (removeFilter_marks h a s active).
  - unfold clearAll_V4. do 2 emits_step. destruct (consumerHandle (nFilter_V4 s) =? 0) eqn:Eh; cbn [negb].
    + emits_step. emits_step. rewrite bool_decide_false by (by intros []). emits_step. split; [|done]. left. split; [lia|done].
    + emits_step. eapply removeFilter_marks; [exact Hin|]. intros rv s' l Hans Hin'. emits_step. rewrite app_nil_r. split; [|done].
      unfold answered in Hans |- *. destruct (decide (rv = MafOk)) as [->|Hrv].
      * rewrite (bool_decide_false (_ <> _)) by tauto. rewrite bool_decide_true in Hans |- * by done. right. by destruct Hans as (_ & _ & ->).
      * rewrite (bool_decide_true (_ <> _)) by done. by rewrite bool_decide_false in Hans |- * by done.
Qed.
End router.

(** C13. Invariant.  Whatever COM asks in whatever order, and whatever OpenSAF
    answers: the component is subscribed at OpenSAF, with its one identifier,
    exactly while COM has a filter (a refused or repeated subscription changes
    neither); and COM is answered as by a store of one filter: a second one
    is refused, only the filter that was given is removed, and an operation that fails
    leaves the filter alone. *)
Theorem subscription_in_step (env : environment ntfE) os s active :
  in_step (nFilter_V4 s) active ->
  emits subscription_mark (exec_routers env os) s (fun rs s' l =>
    answered_all os (nFilter_V4 s) rs (nFilter_V4 s') /\ in_step (nFilter_V4 s') (subscribed active l)).
Proof.
  revert s active. induction os as [|o os IH]; intros s active Hin; cbn [exec_routers]; [by emits_step|].
  emits_step. eapply emits_mono; [by apply (exec_router_marks env o s active)|]. intros rv s1 l1 [Hans Hin1].
  emits_step. eapply emits_mono; [by apply (IH s1 (subscribed active l1))|]. intros rs s2 l2 [Hall Hin2]. emits_step.
  split; [by exists (nFilter_V4 s1)|]. rewrite app_nil_r. unfold subscribed in *. by rewrite foldl_app.
Qed.

Definition demo_service : Alarms :=
  MkAlarms demo_values false false false 0 None None 0 0 no_filter false false true true 1 2 false false.
Definition demo_router_ops : list router_op :=
  [AddFilter 2 MafOamSpiNotificationFmEventType_4 (MkFilter 9 [None]); AddFilter 3 MafOamSpiNotificationFmEventType_4 (MkFilter 5 []);
   RemoveFilter 2 (Some 9); ClearAll].
Example demo_router :
  (let '(o, (s, tr)) := exec_routers demo_ntf demo_router_ops (demo_service, []) in (o, nFilter_V4 s, omap subscription_mark tr)) =
  (Ret [MafOk; MafAlreadyExist; MafOk; MafOk], no_filter, [Subscribed 44; Unsubscribed 44]).
Proof. vm_compute. reflexivity. Qed.
Lemma subscription_in_step_witness :
  emits subscription_mark (exec_routers demo_ntf demo_router_ops) demo_service (fun rs s' l =>
    answered_all demo_router_ops no_filter rs (nFilter_V4 s') /\ in_step (nFilter_V4 s') (subscribed ∅ l)).
Proof. apply (subscription_in_step demo_ntf demo_router_ops demo_service ∅). done. Defined.

(** ** Closing *)




Lemma leave_router_post env s tr :
  post (leave_router env) (s, tr) (fun rv c =>
    if bool_decide (rv = MafOk) then c.1 = set_router false false s else c.1 = s) (fun _ => False).
Proof.
  unfold leave_router. do 2 post_step.
  do 3 (do 2 post_step; match goal with |- context [bool_decide (?r <> MafOk)] => destruct (decide (r = MafOk)) end;
    [rewrite (bool_decide_false (_ <> _)) by tauto|rewrite (bool_decide_true (_ <> _)) by done; post_step; by rewrite bool_decide_false by done]).
  do 3 post_step. match goal with |- context [bool_decide (?r = MafOk)] => destruct (decide (r = MafOk)) as [Hr|Hr] end; [rewrite Hr, bool_decide_true by done|rewrite bool_decide_false by done]; cbv [when];
    repeat post_step; [done|by rewrite bool_decide_false].
Qed.

Lemma retry_finalize_post env s tr :
  sat (OAM_SA_NTF_RETRY env (call env saNtfFinalize)) (s, tr) (fun _ c => c.1 = s).
Proof. eapply sat_mono; [apply (retry_sat env saNtfFinalize (usleep OAM_SA_NTF_RETRY_SLEEP))|]. by intros rc c [? _]. Qed.

Lemma finish_close_post env cc s xs tr :
  repr (vals s) xs -> mafSpiNtfFmVersion (vals s) = MafOamSpiNotificationFm_4 ->
  post (finish_close env cc) (s, tr) (fun _ c =>
    c.1 = set_cm_locked false (set_vals (MkValues (rest (mem (vals s)) xs) MafOamSpiNotificationFm_4 None None) (set_stops true false s)))
    (fun w => w = Aborted).
Proof.
  intros Hr Hv. unfold finish_close. post_step. eapply (post_mono _ _ (fun _ c => c.1 = s) _ (fun _ => False)); [|intros [] [s1 tr1] Hs1|done].
  { case_bool_decide; cbv [when]; [by post_step|by post_step]. }
  cbn in Hs1. subst s1. post_step. eapply sat_post, sat_mono; [apply retry_finalize_post|]. intros rc [s1 tr2] Hs1. cbn in Hs1. subst s1.
  do 3 post_step. unfold on_vals. apply post_zoom. eapply post_mono; [eapply cleanVlist4_post; [exact Hr|exact Hv]| |done].
  intros [] [v tr3] Hc. cbn [fst snd vals set_stops] in *. rewrite Hv in Hc. subst v. repeat post_step. done.
Qed.

(** Error behaviour.  Closing the service either finishes: the router is left,
    every notification that was lent is freed, the lock for configuration
    notifications is given back; or, when the router refuses one of the four
    steps of leaving it, it stops there: the refusal is reported, but nothing is
    freed, the threads stay told to stop, and the lock is kept, so that a second
    attempt to close waits for ever. *)
Theorem close_all_or_stuck (env : environment ntfE) cc s xs tr :
  cm_locked s = false -> event_router_MAF s = true -> repr (vals s) xs -> mafSpiNtfFmVersion (vals s) = MafOamSpiNotificationFm_4 ->
  post (maf_ComNtfServiceClose env cc) (s, tr) (fun rv c =>
    (cm_locked c.1 = false /\ event_router_MAF c.1 = false /\ is_ntf_stop_component c.1 = true /\ ntf_stop_thread c.1 = false /\
     vals c.1 = MkValues (rest (mem (vals s)) xs) MafOamSpiNotificationFm_4 None None) \/
    (rv <> MafOk /\ c.1 = set_cm_locked true (set_stops (is_ntf_stop_component s) true s) /\
     fst (maf_ComNtfServiceClose env cc c) = Exit Blocked)) (fun w => w = Aborted).
Proof.
  intros Hcm Hrt Hr Hv. unfold maf_ComNtfServiceClose at 1. do 4 post_step. cbn [cm_locked set_stops]. rewrite Hcm. cbv [when].
  do 8 post_step. post_step. eapply (post_mono _ _ (fun _ c => c.1 = set_cm_locked true (set_stops (is_ntf_stop_component s) true s)) _ (fun _ => False));
    [|intros [] [s1 tr1] Hs1|done].
  { case_bool_decide; [by post_step|by post_step]. }
  cbn in Hs1. subst s1. do 2 post_step. cbn [event_router_MAF set_cm_locked set_stops]. rewrite Hrt.
  post_step. eapply post_mono; [apply leave_router_post| |done]. intros rv [s1 tr2]. cbn [fst].
  destruct (decide (rv = MafOk)) as [->|Hrv].
  - rewrite bool_decide_true, bool_decide_false by tauto. intros ->.
    eapply post_mono; [by apply (finish_close_post env cc _ xs)| |done]. intros rv [s2 tr3]. cbn [fst]. intros ->. left. done.
  - rewrite bool_decide_false, bool_decide_true by done. intros ->. post_step. right. done.
Qed.

(** A router that refuses to forget the consumer. *)
Definition demo_refusing : environment ntfE := fun R tr e =>
  match e in ntfE R return R -> R with unregisterConsumer _ => fun _ => MafFailure | _ => fun r => r end (demo_ntf R tr e).
Example demo_stuck :
  (let '(o, c) := maf_ComNtfServiceClose demo_refusing "cmw" (demo_service, []) in (o, fst (maf_ComNtfServiceClose demo_refusing "cmw" c))) =
  (Ret MafFailure, Exit Blocked).
Proof. vm_compute. reflexivity. Qed.
Lemma close_all_or_stuck_witness :
  post (maf_ComNtfServiceClose demo_refusing "cmw") (demo_service, []) (fun rv c =>
    (cm_locked c.1 = false /\ event_router_MAF c.1 = false /\ is_ntf_stop_component c.1 = true /\ ntf_stop_thread c.1 = false /\
     vals c.1 = MkValues (rest demo_mem []) MafOamSpiNotificationFm_4 None None) \/
    (rv <> MafOk /\ c.1 = set_cm_locked true (set_stops false true demo_service) /\
     fst (maf_ComNtfServiceClose demo_refusing "cmw" c) = Exit Blocked)) (fun w => w = Aborted).
Proof. exact (close_all_or_stuck demo_refusing "cmw" demo_service [] [] eq_refl eq_refl (repr_empty _ _) eq_refl). Defined.
