(* ===== verification/StdMap.v ===== *)
(** * [std::map], and trees of names

    The ordered map of the C++ library, as the list of its pairs in the order of an
    iteration.  [insert] does not replace what is there.  The laws relate a map to a
    finite map: a client reasons with lookups, and with the order where it
    iterates.

    The caches of a transaction ([motransaction/OamSACache.cc]) keep their objects in
    trees: a name is split at its commas, each part leads from a node to one below it.
    [tree A]: the nodes hold an [A] and an ordered map of the nodes below.
    Paths, the nodes that they lead to, and changes of a node. *)
From Stdlib Require Import ZArith Lia.
From stdpp Require Import base gmap list strings.
From S2P Require Import Prelude.

Open Scope Z_scope.

(** ** Keys *)
Class KeyOrder (K : Type) := { key_ltb : K -> K -> bool }.
Class StrictKeyOrder (K : Type) `{KeyOrder K} : Prop := {
  key_irrefl (a : K) : key_ltb a a = false;
  key_trans (a b c : K) : key_ltb a b = true -> key_ltb b c = true -> key_ltb a c = true;
  key_total (a b : K) : key_ltb a b = false -> key_ltb b a = false -> a = b
}.

#[export] Instance Z_key : KeyOrder Z := {| key_ltb := Z.ltb |}.
#[export] Instance Z_key_strict : StrictKeyOrder Z.
Proof. split; cbn; intros *; rewrite ?Z.ltb_lt, ?Z.ltb_ge; lia. Qed.

(** [std::string] is compared byte by byte, unsigned. *)
#[export] Instance string_key : KeyOrder string := {| key_ltb := String.ltb |}.

Lemma ascii_compare_refl a : Ascii.compare a a = Eq.
Proof. apply N.compare_refl. Qed.
Lemma string_compare_refl a : String.compare a a = Eq.
Proof. induction a as [|x a IH]; [done|]. cbn. by rewrite ascii_compare_refl. Qed.

Lemma string_compare_trans a b c : String.compare a b = Lt -> String.compare b c = Lt -> String.compare a c = Lt.
Proof.
  revert b c. induction a as [|x a IH]; intros [|y b] [|z c]; try done. cbn.
  destruct (Ascii.compare x y) eqn:Exy; [|clear IH|done]; destruct (Ascii.compare y z) eqn:Eyz; try done.
  - apply Ascii.compare_eq_iff in Exy, Eyz. subst. rewrite ascii_compare_refl. apply IH.
  - apply Ascii.compare_eq_iff in Exy. subst. by rewrite Eyz.
  - apply Ascii.compare_eq_iff in Eyz. subst. by rewrite Exy.
  - intros _ _. assert (Ascii.compare x z = Lt) as ->; [|done]. unfold Ascii.compare in *. apply N.compare_lt_iff in Exy, Eyz. apply N.compare_lt_iff. by etrans.
Qed.

#[export] Instance string_key_strict : StrictKeyOrder string.
Proof.
  split; cbn; unfold String.ltb.
  - intros a. by rewrite string_compare_refl.
  - intros a b c. destruct (String.compare a b) eqn:E1; try done. destruct (String.compare b c) eqn:E2; try done. by rewrite (string_compare_trans _ _ _ E1 E2).
  - intros a b. rewrite (String.compare_antisym b a). destruct (String.compare a b) eqn:E; try done. intros _ _. by apply String.compare_eq_iff.
Qed.

(** ** Operations *)
Definition StdMap (K V : Type) : Type := list (K * V).

Section ops.
Context {K V : Type} `{StrictKeyOrder K} `{EqDecision K}.
Implicit Types (m : StdMap K V) (k : K) (v : V).

Fixpoint map_find m k : option V :=
  match m with
  | [] => None
  | (k', v) :: m => if decide (k = k') then Some v else map_find m k
  end.

Fixpoint map_insert m k v : StdMap K V :=
  match m with
  | [] => [(k, v)]
  | (k', v') :: m' =>
      if decide (k = k') then m else if key_ltb k k' then (k, v) :: m else (k', v') :: map_insert m' k v
  end.

Fixpoint map_erase m k : StdMap K V :=
  match m with
  | [] => []
  | (k', v') :: m' => if decide (k = k') then m' else (k', v') :: map_erase m' k
  end.

(** A change of the object that a key leads to. *)
Fixpoint map_update m k (f : V -> V) : StdMap K V :=
  match m with
  | [] => []
  | (k', v') :: m' => if decide (k = k') then (k', f v') :: m' else (k', v') :: map_update m' k f
  end.

(** In order, each key once. *)
Fixpoint ordered m : Prop :=
  match m with
  | [] => True
  | (k, _) :: m' => Forall (fun p => key_ltb k p.1 = true) m' /\ ordered m'
  end.

Lemma key_ne k k' : key_ltb k k' = true -> k <> k'.
Proof. intros Hlt ->. by rewrite key_irrefl in Hlt. Qed.
Lemma key_gt k k' : k <> k' -> key_ltb k k' = false -> key_ltb k' k = true.
Proof. intros Hne Hlt. destruct (key_ltb k' k) eqn:E; [done|]. destruct Hne. by apply key_total. Qed.

Lemma ordered_nodup m : ordered m -> NoDup m.*1.
Proof.
  induction m as [|[k v] m IH]; [constructor|]. intros [Hk Hm]. cbn. constructor; [|by apply IH].
  intros (p & -> & Hp)%list_elem_of_fmap. rewrite Forall_forall in Hk. by apply (key_ne _ _ (Hk p Hp)).
Qed.

Lemma find_elem m k v : map_find m k = Some v -> (k, v) ∈ m.
Proof. induction m as [|[k' v'] m IH]; [done|]. cbn. case_decide; [intros [= ->]; subst; left|intros Hf; right; by apply IH]. Qed.
Lemma find_none m k : map_find m k = None <-> k ∉ m.*1.
Proof.
  induction m as [|[k' v'] m IH]; cbn; [split; [intros _ ?%elem_of_nil; done|done]|]. case_decide as Hk.
  - subst. split; [done|]. intros Hn. destruct Hn. left.
  - rewrite IH. set_solver.
Qed.

(** *** Lookups after an operation *)
Lemma find_before m k k' : Forall (fun p => key_ltb k' p.1 = true) m -> key_ltb k k' = true \/ k = k' -> map_find m k = None.
Proof.
  intros Hm Hk. apply find_none. intros (p & -> & Hp)%list_elem_of_fmap. rewrite Forall_forall in Hm. specialize (Hm p Hp).
  destruct Hk as [Hk|Hk]; [|symmetry in Hk; by apply (key_ne _ _ Hm)]. by apply (key_ne _ _ (key_trans _ _ _ Hm Hk)).
Qed.

Lemma find_insert m k v k' : ordered m ->
  map_find (map_insert m k v) k' = match map_find m k' with Some w => Some w | None => if decide (k' = k) then Some v else None end.
Proof.
  induction m as [|[k1 v1] m IH]; [done|]. intros [Hm Ho]. cbn. destruct (decide (k = k1)) as [->|Hk]; cbn.
  { case_decide; [done|]. by destruct (map_find m k'). }
  destruct (key_ltb k k1) eqn:Hlt; cbn; repeat case_decide; subst; try done.
  - by rewrite (find_before m k k1) by eauto.
  - by destruct (map_find m k').
  - by rewrite IH.
  - by rewrite IH.
Qed.

Lemma find_erase m k k' : ordered m -> map_find (map_erase m k) k' = if decide (k' = k) then None else map_find m k'.
Proof.
  induction m as [|[k1 v1] m IH]; [by case_decide|]. intros [Hm Ho]. cbn. repeat (case_decide; cbn); subst; try done.
  - by apply (find_before m k1 k1); [|right].
  - by apply IH.
  - by apply IH.
Qed.

Lemma find_update m k f k' : map_find (map_update m k f) k' = if decide (k' = k) then f <$> map_find m k else map_find m k'.
Proof. induction m as [|[k1 v1] m IH]; cbn; [by case_decide|]. repeat (case_decide; cbn); subst; done. Qed.

(** *** The order is kept *)
Lemma insert_keys m k v p : p ∈ map_insert m k v -> p = (k, v) \/ p ∈ m.
Proof.
  induction m as [|[k1 v1] m IH]; cbn; [by intros ->%list_elem_of_singleton; left|]. case_decide; [by right|].
  destruct (key_ltb k k1); [by intros [->|?]%elem_of_cons; [left|right]|].
  intros [->|Hp]%elem_of_cons; [right; left|]. destruct (IH Hp) as [->|?]; [by left|right; by right].
Qed.

Lemma insert_ordered m k v : ordered m -> ordered (map_insert m k v).
Proof.
  induction m as [|[k1 v1] m IH]; [by repeat constructor|]. intros [Hm Ho]. cbn. case_decide as Hk; [done|].
  destruct (key_ltb k k1) eqn:Hlt; cbn.
  - split; [|done]. constructor; [done|]. eapply Forall_impl; [exact Hm|]. intros p. by apply key_trans.
  - split; [|by apply IH]. apply Forall_forall. intros p [->|Hp]%insert_keys; [by apply key_gt|by eapply Forall_forall in Hm].
Qed.

Lemma erase_sub m k p : p ∈ map_erase m k -> p ∈ m.
Proof. induction m as [|[k1 v1] m IH]; cbn; [done|]. case_decide; [by right|]. intros [->|Hp]%elem_of_cons; [left|right; by apply IH]. Qed.

Lemma erase_ordered m k : ordered m -> ordered (map_erase m k).
Proof.
  induction m as [|[k1 v1] m IH]; [done|]. intros [Hm Ho]. cbn. case_decide; [done|]. split; [|by apply IH].
  apply Forall_forall. intros p Hp%erase_sub. by eapply Forall_forall in Hm.
Qed.

Lemma update_keys m k f : (map_update m k f).*1 = m.*1.
Proof. induction m as [|[k1 v1] m IH]; cbn; [done|]. case_decide; cbn; by f_equal. Qed.

Lemma ordered_keys m m' : m.*1 = m'.*1 -> ordered m -> ordered m'.
Proof.
  revert m'. induction m as [|[k v] m IH]; intros [|[k' v'] m']; try done. cbn. intros [= -> Heq] [Hm Ho]. split; [|by eapply IH].
  rewrite Forall_forall in Hm |- *. intros p Hp. assert (p.1 ∈ m.*1) as (q & -> & Hq)%list_elem_of_fmap; [|by apply Hm].
  rewrite Heq. by apply list_elem_of_fmap_2.
Qed.
Lemma update_ordered m k f : ordered m -> ordered (map_update m k f).
Proof. apply ordered_keys. by rewrite update_keys. Qed.

(** Two maps in order that agree on lookups are equal. *)
Lemma ordered_ext m m' : ordered m -> ordered m' -> (forall k, map_find m k = map_find m' k) -> m = m'.
Proof.
  revert m'. induction m as [|[k v] m IH]; intros [|[k' v'] m']; [done| | |].
  - intros _ _ Hf. specialize (Hf k'). cbn in Hf. by rewrite decide_True in Hf.
  - intros _ _ Hf. specialize (Hf k). cbn in Hf. by rewrite decide_True in Hf.
  - intros [Hm Ho] [Hm' Ho'] Hf.
    assert (k = k') as <-.
    { destruct (key_ltb k k') eqn:E1; [|destruct (key_ltb k' k) eqn:E2; [|by apply key_total]].
      - specialize (Hf k). cbn in Hf. rewrite decide_True in Hf by done. rewrite decide_False in Hf by by apply key_ne.
        by rewrite (find_before m' k k') in Hf by eauto.
      - specialize (Hf k'). cbn in Hf. rewrite (decide_True (P := k' = k')) in Hf by done. rewrite decide_False in Hf by by apply key_ne.
        by rewrite (find_before m k' k) in Hf by eauto. }
    pose proof (Hf k) as Hv. cbn in Hv. rewrite !decide_True in Hv by done. simplify_eq. f_equal. apply IH; [done..|].
    intros k'. specialize (Hf k'). cbn in Hf. case_decide; [|done]. subst.
    by rewrite (find_before m k k), (find_before m' k k) by eauto.
Qed.

Lemma erase_insert m k v : ordered m -> map_find m k = None -> map_erase (map_insert m k v) k = m.
Proof.
  intros Ho Hf. apply ordered_ext; [by apply erase_ordered, insert_ordered|done|]. intros k'. rewrite find_erase by by apply insert_ordered.
  case_decide as Hk; [by subst|]. rewrite find_insert by done. rewrite decide_False by done. by destruct (map_find m k').
Qed.

(** *** The values of a map *)
Lemma update_values (P : V -> Prop) m k f : Forall P m.*2 -> (forall v, map_find m k = Some v -> P v -> P (f v)) -> Forall P (map_update m k f).*2.
Proof.
  induction m as [|[k1 v1] m IH]; cbn; [done|]. intros [Hv Hm]%Forall_cons Hf. case_decide; cbn; constructor; auto.
Qed.
Lemma insert_values (P : V -> Prop) m k v : Forall P m.*2 -> P v -> Forall P (map_insert m k v).*2.
Proof.
  induction m as [|[k1 v1] m IH]; cbn; [by repeat constructor|]. intros [Hv Hm]%Forall_cons Hf.
  case_decide; [by constructor|]. destruct (key_ltb k k1); cbn; repeat constructor; auto.
Qed.

Lemma find_values (P : V -> Prop) m k v : Forall P m.*2 -> map_find m k = Some v -> P v.
Proof. intros HP Hf. apply find_elem in Hf. eapply Forall_forall; [exact HP|]. by apply (list_elem_of_fmap_2 snd) in Hf. Qed.
Lemma erase_values (P : V -> Prop) m k : Forall P m.*2 -> Forall P (map_erase m k).*2.
Proof. induction m as [|[k1 v1] m IH]; cbn; [done|]. intros [Hv Hm]%Forall_cons. case_decide; [done|]. constructor; auto. Qed.
(** A value that was just made is replaced. *)
Lemma insert_update_values (P : V -> Prop) m k v w :
  Forall P m.*2 -> map_find m k = None -> P w -> Forall P (map_update (map_insert m k v) k (fun _ => w)).*2.
Proof.
  intros HP Hf Hw. induction m as [|[k1 v1] m IH]; cbn in *; [rewrite decide_True by done; by repeat constructor|].
  destruct (decide (k = k1)) as [Hk|Hk]; [done|]. apply Forall_cons in HP as [H1 Hl]. destruct (key_ltb k k1); cbn.
  - rewrite decide_True by done. cbn. by repeat constructor.
  - rewrite decide_False by done. cbn. constructor; [done|]. by apply IH.
Qed.

(** What a list computed of every value is after an operation, up to order. *)
Section collect.
Context {X : Type} (g : V -> list X).

Lemma collect_split m k v : ordered m -> map_find m k = Some v -> m.*2 ≫= g ≡ₚ g v ++ ((map_erase m k).*2 ≫= g).
Proof.
  induction m as [|[k1 v1] m IH]; [done|]. intros [Hm Ho]. cbn. case_decide; [by intros [= ->]|]. intros Hf. cbn.
  rewrite (IH Ho Hf). by rewrite !app_assoc, (Permutation_app_comm (g v1)).
Qed.
Lemma collect_insert m k v : map_find m k = None -> (map_insert m k v).*2 ≫= g ≡ₚ g v ++ (m.*2 ≫= g).
Proof.
  induction m as [|[k1 v1] m IH]; [done|]. cbn. case_decide; [done|]. intros Hf. destruct (key_ltb k k1); [done|]. cbn.
  rewrite (IH Hf). by rewrite !app_assoc, (Permutation_app_comm (g v1)).
Qed.
Lemma collect_update m k v f : ordered m -> map_find m k = Some v -> (map_update m k f).*2 ≫= g ≡ₚ g (f v) ++ ((map_erase m k).*2 ≫= g).
Proof.
  induction m as [|[k1 v1] m IH]; [done|]. intros [Hm Ho]. cbn. case_decide; [by intros [= ->]|]. intros Hf. cbn.
  rewrite (IH Ho Hf). by rewrite !app_assoc, (Permutation_app_comm (g v1)).
Qed.
End collect.
End ops.

(** ** Data *)
#[local] Set Warnings "-register-all".
#[local] Unset Elimination Schemes.
Inductive tree (A : Type) := Node (data : A) (below : StdMap string (tree A)).
#[local] Set Elimination Schemes.
Arguments Node {A} _ _.

Definition data {A} (t : tree A) : A := let 'Node a _ := t in a.
Definition below {A} (t : tree A) : StdMap string (tree A) := let 'Node _ m := t in m.

(** Induction: the hypothesis holds for all nodes right below. *)
Lemma tree_ind {A} (P : tree A -> Prop) : (forall a m, Forall P m.*2 -> P (Node a m)) -> forall t, P t.
Proof.
  intros Hnode. fix IH 1. intros [a m]. apply Hnode. induction m as [|[x t] m IHm]; constructor; [apply IH|exact IHm].
Qed.

Section ops.
Context {A : Type}.
Implicit Types (t : tree A) (m : StdMap string (tree A)) (dn : list string).

Definition set_data (a : A) t : tree A := Node a (below t).
(** The nodes right below are changed, those at [x]. *)
Definition change_below (f : StdMap string (tree A) -> StdMap string (tree A)) t : tree A := Node (data t) (f (below t)).

(** The node that a name leads to. *)
Fixpoint node_at dn t : option (tree A) :=
  match dn with
  | [] => Some t
  | x :: dn => c ← map_find (below t) x; node_at dn c
  end.

(** A change of the node that a name leads to, if there is one. *)
Fixpoint change_at dn (f : tree A -> tree A) t : tree A :=
  match dn with
  | [] => f t
  | x :: dn => change_below (fun m => map_update m x (change_at dn f)) t
  end.

(** The maps of all nodes are in order. *)
Inductive sorted_tree : tree A -> Prop :=
| sorted_node a m : ordered m -> Forall sorted_tree m.*2 -> sorted_tree (Node a m).

(** ** Paths *)
Lemma node_at_app dn dn' t : node_at (dn ++ dn') t = (c ← node_at dn t; node_at dn' c).
Proof. revert t. induction dn as [|x dn IH]; intros t; [done|]. cbn. destruct (map_find (below t) x); [apply IH|done]. Qed.

Lemma change_below_data f t : data (change_below f t) = data t.
Proof. done. Qed.

(** What a change at [dn] does to the node at any other path: inside of the changed node, on the
    way to it, and elsewhere. *)
Lemma node_change_here dn f t c : node_at dn t = Some c -> node_at dn (change_at dn f t) = Some (f c).
Proof.
  revert t. induction dn as [|x dn IH]; intros t; cbn; [by intros [= ->]|].
  destruct (map_find (below t) x) as [d|] eqn:Ed; [|done]. cbn. intros Hc. rewrite find_update, decide_True, Ed by done. cbn. by apply IH.
Qed.
Lemma node_change_below dn dn' f t : node_at (dn ++ dn') (change_at dn f t) = (c ← node_at dn t; node_at dn' (f c)).
Proof.
  destruct (node_at dn t) as [c|] eqn:Ec; cbn.
  - by rewrite node_at_app, (node_change_here _ _ _ _ Ec).
  - rewrite node_at_app. replace (node_at dn (change_at dn f t)) with (@None (tree A)); [done|]. revert t Ec. induction dn as [|x dn IH]; intros t; [done|]. cbn.
    rewrite find_update, decide_True by done. destruct (map_find (below t) x); [|done]. cbn. by apply IH.
Qed.
Lemma node_change_other dn dn' f t : ~ dn `prefix_of` dn' -> data <$> node_at dn' (change_at dn f t) = data <$> node_at dn' t.
Proof.
  revert dn' t. induction dn as [|x dn IH]; intros dn' t Hp; [destruct Hp; apply prefix_nil|].
  destruct dn' as [|x' dn']; [done|]. cbn. rewrite find_update. destruct (decide (x' = x)) as [->|Hx].
  - destruct (map_find (below t) x) as [d|]; [|done]. cbn. apply IH. intros Hd. apply Hp. by apply prefix_cons.
  - done.
Qed.

Lemma sorted_below a m : sorted_tree (Node a m) -> ordered m /\ Forall sorted_tree m.*2.
Proof. by inversion_clear 1. Qed.
Lemma sorted_child t x c : sorted_tree t -> map_find (below t) x = Some c -> sorted_tree c.
Proof. destruct t as [a m]. intros [_ Hm]%sorted_below. by apply find_values. Qed.
Lemma sorted_set_data a t : sorted_tree t -> sorted_tree (set_data a t).
Proof. destruct t as [b m]. intros [? ?]%sorted_below. by constructor. Qed.
Lemma sorted_change dn f t : (forall c, sorted_tree c -> sorted_tree (f c)) -> sorted_tree t -> sorted_tree (change_at dn f t).
Proof.
  intros Hf. revert t. induction dn as [|x dn IH]; intros [a m] Ht; cbn; [by apply Hf|].
  apply sorted_below in Ht as [Ho Hm]. constructor; [by apply update_ordered|]. apply update_values; [done|]. intros c _. apply IH.
Qed.
End ops.

#[export] Hint Resolve sorted_set_data sorted_change : core.
