(* ===== verification/EventProducer.v ===== *)
(** * Producers of events ([incl/EventProducer.h])

    The template [Com::EventProducer]: an event object is handed to every
    consumer whose filter matches, and destroyed when its creator and
    all of them have let go of it ([Com::RefCounter]).  The event, its destructor
    and the filter are parameters of the template; here they are an interface,
    which [CmProducer] and [LogEvents] implement.

    [_mutex] protects the list of consumers: an operation on the list is one
    step.  Giving a value back takes no lock, so it may happen during a
    delivery: [notify] answers which values were given back meanwhile. *)
From Stdlib Require Import ZArith Lia.
From stdpp Require Import base gmap list strings.
From S2P Require Import Prelude Codes.

Open Scope Z_scope.

(** ** State *)

(** [Com::eventproducerInternal::Consumer]; the filter is a pointer to an object. *)
Record Consumer := MkConsumer { _consumerHandle : Z; _eventType : string; _filter : ptr }.

(** [operator==] compares the handle and the type. *)
Definition same_consumer (handle : Z) (eventType : string) (c : Consumer) : bool :=
  bool_decide (_consumerHandle c = handle) && bool_decide (_eventType c = eventType).

(** [_instance]: the static pointer is set; [objects]: the events that are not
    destroyed, with their counts; [filters]: the filter objects. *)
Record Producer (Ev F : Type) := MkProducer {
  instance : bool;
  router : bool;
  producerHandle : Z;
  eventTypeName : string;
  consumers : list Consumer;
  filters : gmap ptr F;
  objects : gmap ptr (Z * Ev)
}.
Arguments MkProducer {Ev F} _ _ _ _ _ _ _.
Arguments instance {Ev F} _.
Arguments router {Ev F} _.
Arguments producerHandle {Ev F} _.
Arguments eventTypeName {Ev F} _.
Arguments consumers {Ev F} _.
Arguments filters {Ev F} _.
Arguments objects {Ev F} _.

Section setters.
Context {Ev F : Type}.
Implicit Types p : Producer Ev F.
Definition set_instance (b : bool) p := MkProducer b (router p) (producerHandle p) (eventTypeName p) (consumers p) (filters p) (objects p).
Definition set_route r h t p := MkProducer (instance p) r h t (consumers p) (filters p) (objects p).
Definition set_consumers l p := MkProducer (instance p) (router p) (producerHandle p) (eventTypeName p) l (filters p) (objects p).
Definition set_filters (m : gmap ptr F) p := MkProducer (instance p) (router p) (producerHandle p) (eventTypeName p) (consumers p) m (objects p).
Definition set_objects (m : gmap ptr (Z * Ev)) p := MkProducer (instance p) (router p) (producerHandle p) (eventTypeName p) (consumers p) (filters p) m.
End setters.
Definition no_producer {Ev F} : Producer Ev F := MkProducer false false 0 ""%string [] ∅ ∅.

(** ** Interfaces *)

(** The event router of the MAF, and where the producer is in the state. *)
Class EventRouter (E : Type -> Type) := {
  getRouter : E (MafReturnT * bool)%type;
  register_producer : E (MafReturnT * Z)%type;
  add_producer_event (producer : Z) (eventType : string) : E MafReturnT;
  remove_producer_event (producer : Z) (eventType : string) : E MafReturnT;
  unregister_producer (producer : Z) : E MafReturnT;
  notify_consumer (producer consumer : Z) (eventType : string) (filter : option Z) (value : ptr) : E (list ptr)
}.
Class HasProducer (S Ev F : Type) := { producer_of : S -> Producer Ev F; set_producer : Producer Ev F -> S -> S }.

(** [MafNameValuePairT **]: the address of the array, and its pairs; a name and a
    value may be missing. *)
Definition Pairs : Type := Z * list (option string * option string).

(** The parameters of the template.  [newFilter] is the constructor of the filter,
    which may do anything; [isValid] may change the filter (its members are
    [mutable]). *)
Class EventKind (E : Type -> Type) (S Ev F : Type) := {
  newFilter (filters : option Pairs) : M E S F;
  isValid (f : F) : M E S (bool * F)%type;
  isMatch (f : F) (e : Ev) : M E S bool;
  getFilter (f : F) : option Z;
  deleteFilter (f : F) : M E S ();
  destroy (e : Ev) : M E S ()
}.

Section producer.
Context {E : Type -> Type} {S Ev F : Type} `{EventRouter E} `{HasProducer S Ev F} `{EventKind E S Ev F} (env : environment E).

Definition producer : M E S (Producer Ev F) := gets producer_of.
Definition on_producer (f : Producer Ev F -> Producer Ev F) : M E S () :=
  modify (fun s => set_producer (f (producer_of s)) s).

(** ** Reference counts *)
Definition object (p : ptr) : M E S (Z * Ev) := pr ← producer; of_option BadPointer (objects pr !! p).
Definition set_object (p : ptr) (o : Z * Ev) : M E S () := on_producer (fun pr => set_objects (<[p := o]> (objects pr)) pr).

(** [new EventT(..)]: the count starts at one. *)
Definition new_object (e : Ev) : M E S ptr :=
  pr ← producer;
  let p := fresh (dom (objects pr)) in set_object p (1, e) ;; mret p.

Definition addRef (p : ptr) : M E S () := o ← object p; set_object p (fst o + 1, snd o).

Definition releaseRef (p : ptr) : M E S () :=
  o ← object p;
  if fst o - 1 =? 0 then
    destroy (snd o) ;; on_producer (fun pr => set_objects (delete p (objects pr)) pr)
  else set_object p (fst o - 1, snd o).

(** ** Values that are given back *)
Definition onDoneWithValue (p : ptr) : M E S () := releaseRef p.
Definition evtProdDoneWithValue (p : ptr) : M E S MafReturnT :=
  pr ← producer;
  when (instance pr) (onDoneWithValue p) ;;
  mret MafOk.
Fixpoint given_back (l : list ptr) : M E S () :=
  match l with
  | [] => mret ()
  | p :: l => r ← evtProdDoneWithValue p; given_back l
  end.

(** ** Delivery *)
Definition filter_object (c : Consumer) : M E S F := pr ← producer; of_option BadPointer (filters pr !! _filter c).

Fixpoint matching (l : list Consumer) (e : Ev) : M E S (list Consumer) :=
  match l with
  | [] => mret []
  | c :: l =>
      f ← filter_object c;
      b ← isMatch f e;
      rest ← matching l e;
      mret (if (b : bool) then c :: rest else rest)
  end.

Fixpoint notify_all (l : list Consumer) (p : ptr) : M E S () :=
  match l with
  | [] => mret ()
  | c :: l =>
      addRef p ;;
      f ← filter_object c;
      pr ← producer;
      if router pr then
        given ← call env (notify_consumer (producerHandle pr) (_consumerHandle c) (eventTypeName pr) (getFilter f) p);
        given_back given ;; notify_all l p
      else exit BadPointer
  end.

Definition push (p : ptr) : M E S () :=
  pr ← producer;
  o ← object p;
  matches ← matching (consumers pr) (snd o);
  notify_all matches p.

(** ** Consumers *)
Definition onAddFilter (consumerHandle : Z) (eventType : string) (aFilter : option Pairs) : M E S bool :=
  f ← newFilter aFilter;
  r ← isValid f;
  if (fst r : bool) then
    pr ← producer;
    let q := fresh (dom (filters pr)) in
    on_producer (set_filters (<[q := snd r]> (filters pr))) ;;
    on_producer (fun pr => set_consumers (consumers pr ++ [MkConsumer consumerHandle eventType q]) pr) ;;
    mret true
  else deleteFilter (snd r) ;; mret false.

(** The first consumer that is equal, its filter, and the list without it. *)
Definition onRemoveFilter (consumerHandle : Z) (eventType : string) : M E S () :=
  pr ← producer;
  match list_find (fun c => same_consumer consumerHandle eventType c = true) (consumers pr) with
  | Some (i, c) =>
      f ← filter_object c;
      deleteFilter f ;;
      on_producer (fun pr => set_consumers (delete i (consumers pr)) (set_filters (delete (_filter c) (filters pr)) pr))
  | None => mret ()
  end.

(** The filter objects are not deleted. *)
Definition onClearAll : M E S () := on_producer (set_consumers []).

(** [evtProdAddFilter] does not look whether there is an instance. *)
Definition evtProdAddFilter (consumerHandle : Z) (eventType : string) (filter : option Pairs) : M E S MafReturnT :=
  pr ← producer;
  if instance pr then
    b ← onAddFilter consumerHandle eventType filter;
    mret (if (b : bool) then MafOk else MafFailure)
  else exit BadPointer.
Definition evtProdRemoveFilter (consumerHandle : Z) (eventType : string) : M E S MafReturnT :=
  pr ← producer; when (instance pr) (onRemoveFilter consumerHandle eventType) ;; mret MafOk.
Definition evtProdClearAll : M E S MafReturnT :=
  pr ← producer; when (instance pr) onClearAll ;; mret MafOk.

(** ** Life of the producer *)
Definition EventProducer_new : M E S () :=
  on_producer (fun pr => MkProducer true false 0 ""%string [] (filters pr) (objects pr)).
Definition EventProducer_delete : M E S () := on_producer (set_instance false).

Definition getEventRouter : M E S bool :=
  r ← call env getRouter;
  if bool_decide (fst r <> MafOk) then exit Aborted else mret (snd r).

Definition start (eventType : string) : M E S () :=
  r ← getEventRouter;
  on_producer (fun pr => set_route r (producerHandle pr) eventType pr) ;;
  when (negb r) (exit BadPointer) ;;
  h ← call env register_producer;
  on_producer (set_route r (snd h) eventType) ;;
  when (bool_decide (fst h <> MafOk)) (exit Aborted) ;;
  rc ← call env (add_producer_event (snd h) eventType);
  when (bool_decide (rc <> MafOk)) (exit Aborted).

Definition stop : M E S () :=
  pr ← producer;
  when (router pr)
    (r ← call env (remove_producer_event (producerHandle pr) (eventTypeName pr));
     r ← call env (unregister_producer (producerHandle pr));
     mret ()) ;;
  on_producer (fun pr => set_route false (producerHandle pr) (eventTypeName pr) (set_consumers [] pr)).
End producer.
