(* ===== verification/CmData.v ===== *)
(** * Events of the configuration: state and memory ([ntf/CmEventHandler.cc], [ntf/CmEventProducer.cc])

    The notification cache and its parts, the event handler, the filters of the
    consumers, and the blocks from [malloc] that the values of attributes and
    the events are made of.  A pointer that owns a block is kept as the address
    with the contents; [live] are the addresses in use.  Objects made with
    [new] are values: none of them is reached by two pointers when it changes.
    Nothing in this part of the program survives a failure of [calloc]: the result is
    used unchecked. *)
From Stdlib Require Import ZArith Lia.
From stdpp Require Import base gmap list strings.
From S2P Require Import Prelude Codes CmTypes NtfData StdMap EventProducer.

#[local] Open Scope string_scope.
Open Scope Z_scope.

(** ** The notification cache ([incl/CmEventHandler.h])

    The template [BaseCache]: the map, the size of the object and the bytes it
    accounts for ([cacheMemory], 64 bits). *)
Record BaseCache (K V : Type) := MkBase { cacheMap : StdMap K V; own_bytes : Z; held_bytes : Z }.
Arguments MkBase {K V} _ _ _.
Arguments cacheMap {K V} _.
Arguments own_bytes {K V} _.
Arguments held_bytes {K V} _.

(** An element of an array of structs: its members, and the bytes. *)
Record StructElementCache := MkElement {
  structElementList : list (string * Avc);
  se_own : Z;
  se_held : Z
}.
(** An attribute. *)
Record AvcCache := MkAvcCache {
  avc_elements : BaseCache string StructElementCache;
  avcSimple : option Avc;
  avcReference : option Avc;
  avcRuntimeStruct : option Avc
}.
(** An object: [eventTypeSet], the two flags and the attributes. *)
Record DnCache := MkDnCache {
  dn_attrs : BaseCache string AvcCache;
  set_create : bool;
  set_mod : bool;
  set_del : bool;
  modifiedReference : bool;
  modifiedRuntimeStructObject : bool
}.
(** A bundle of changes (CCB). *)
Record CcbCache := MkCcbCache {
  ccb_dns : BaseCache string DnCache;
  ccb_source : MafOamSpiCmEvent_SourceIndicator_1T;
  ccb_txHandle : Z
}.
Definition CmNotificationCache : Type := BaseCache Z CcbCache.

(** ** Filters of the consumers

    A compiled expression is its pattern. *)
Record RegexpFilter := MkRegexpFilter { _filters : option Pairs; filterList : list string }.

(** ** The handler; [_cmEventProducer] is a static member *)
Record CmEventHandler := MkHandler { _discardedCcbList : list Z; _notificationCacheInDiscardMode : bool }.

(** The members of [notificationFilterHandles] that are used. *)
Record FilterHandles := MkHandles {
  objectCreateDeleteFilterHandle : Z;
  attributeChangeFilterHandle : Z;
  stateChangeFilterHandle : Z
}.

Record Cm := MkCm {
  live : gset ptr;
  cmNotificationCache : option CmNotificationCache;
  cmEventHandler : option CmEventHandler;
  _cmEventProducer : bool;                      (** not null *)
  _eventProducer : Producer CmNotification RegexpFilter;
  s_theCmEventProducer : bool;                  (** not null *)
  alreadySubscribed : bool;
  isSubscribed : bool;                          (** in [ComSANtf.c] *)
  notificationFilterHandles : FilterHandles
}.
Definition set_live l s := MkCm l (cmNotificationCache s) (cmEventHandler s) (_cmEventProducer s) (_eventProducer s) (s_theCmEventProducer s) (alreadySubscribed s) (isSubscribed s) (notificationFilterHandles s).
Definition set_cache c s := MkCm (live s) c (cmEventHandler s) (_cmEventProducer s) (_eventProducer s) (s_theCmEventProducer s) (alreadySubscribed s) (isSubscribed s) (notificationFilterHandles s).
Definition set_handler h s := MkCm (live s) (cmNotificationCache s) h (_cmEventProducer s) (_eventProducer s) (s_theCmEventProducer s) (alreadySubscribed s) (isSubscribed s) (notificationFilterHandles s).
Definition set_has_producer b s := MkCm (live s) (cmNotificationCache s) (cmEventHandler s) b (_eventProducer s) (s_theCmEventProducer s) (alreadySubscribed s) (isSubscribed s) (notificationFilterHandles s).
Definition set_eventProducer p s := MkCm (live s) (cmNotificationCache s) (cmEventHandler s) (_cmEventProducer s) p (s_theCmEventProducer s) (alreadySubscribed s) (isSubscribed s) (notificationFilterHandles s).
Definition set_theProducer b a s := MkCm (live s) (cmNotificationCache s) (cmEventHandler s) (_cmEventProducer s) (_eventProducer s) b a (isSubscribed s) (notificationFilterHandles s).
Definition set_subscribed b h s := MkCm (live s) (cmNotificationCache s) (cmEventHandler s) (_cmEventProducer s) (_eventProducer s) (s_theCmEventProducer s) (alreadySubscribed s) b h.

Definition cm_initial : Cm := MkCm ∅ None None false no_producer false false false (MkHandles 0 0 0).

Abbreviation C := (M ntfE Cm).

#[export] Instance ntf_router : EventRouter ntfE := {|
  getRouter := getInterface;
  register_producer := registerProducer;
  add_producer_event := addProducerEvent;
  remove_producer_event := removeProducerEvent;
  unregister_producer := abandon_producer;
  notify_consumer := notify_cm
|}.
#[export] Instance cm_has_producer : HasProducer Cm CmNotification RegexpFilter := {| producer_of := _eventProducer; set_producer := set_eventProducer |}.

(** ** Memory *)
Definition add_live (l : list ptr) : C () := modify (fun s => set_live (list_to_set l ∪ live s) s).

(** [calloc], whose result is used. *)
Definition block (env : environment ntfE) : C ptr :=
  left ← call env malloc;
  if (left : bool) then s ← get; let p := fresh (live s) in add_live [p] ;; mret p else exit BadPointer.

(** [strdup] and the like. *)
Definition text (env : environment ntfE) (t : string) : C (ptr * string) := p ← block env; mret (p, t).

(** The block is in use. *)
Definition touch (p : ptr) : C () := s ← get; when (negb (bool_decide (p ∈ live s))) (exit BadPointer).

Definition free (p : ptr) : C () := touch p ;; modify (fun s => set_live (live s ∖ {[ p ]}) s).
Definition free_opt (o : option ptr) : C () := match o with Some p => free p | None => mret () end.

(** ** Freeing values ([freeAVC], [freeCmEvents] in [ntf/CmEventProducer.cc])

    The pointer that the bytes of a value are. *)
Definition as_pointer (v : MafMoAttributeValue_3T ptr) : option (option ptr) :=
  match v with
  | Number 0 | TextAt None | Members [] => Some None
  | Number _ => None
  | TextAt (Some t) => Some (Some t.1)
  | Members (MkMember p _ _ :: _) => Some (Some p)
  end.
Definition free_pointer (v : MafMoAttributeValue_3T ptr) : C () := o ← of_option BadPointer (as_pointer v); free_opt o.

(** A loop over the elements of a list. *)
Definition for_each {X} (f : X -> C ()) : list X -> C () :=
  fix each (l : list X) : C () := match l with [] => mret () | x :: l => f x ;; each l end.

(** What is freed of the values of a container depends on its type. *)
Fixpoint freeAVC (b : AvcBody ptr) : C () :=
  match b with
  | MkAvc type values elems =>
      when (1 <=? length elems)%nat (p ← of_option BadPointer values; touch p) ;;
      for_each (fun v =>
        if (type =? MafOamSpiMoAttributeType_3_STRING) || (type =? MafOamSpiMoAttributeType_3_REFERENCE) then free_pointer v
        else if type =? MafOamSpiMoAttributeType_3_STRUCT then
          match v with
          | Members ms =>
              for_each (fun m =>
                match m with
                | MkMember sm memberName memberValue =>
                    free memberName.1 ;;
                    (match memberValue with
                     | Some a => freeAVC a.2 ;; free a.1
                     | None => mret ()
                     end : C ()) ;;
                    free sm
                end) ms
          | Number 0 | TextAt None => mret ()
          | _ => exit BadPointer
          end
        else mret ()) elems ;;
      when (1 <=? length elems)%nat (free_opt values)
  end.

Definition free_attribute (a : NamedAvc) : C () := free (na_name a).1 ;; freeAVC (na_value a) ;; free (na_addr a).
Definition free_CmEvent (e : CmEvent) : C () :=
  free_opt (fst <$> ev_dn e) ;;
  for_each free_attribute (ev_attributes e) ;;
  free (ev_attrs_addr e) ;;
  free (ev_addr e).
Definition freeCmEvents (n : CmNotification) : C () := for_each free_CmEvent (events n) ;; free (events_addr n).
