(* ===== verification/CmProducer.v ===== *)
(** * Events of the configuration: subscription and producer ([ntf/ComSANtf.c], [ntf/CmEventProducer.cc], [ntf/CmEventHandler.cc])

    The subscription for changes of the configuration at OpenSAF, the filters by which a
    consumer selects events, the producer, and the handler in front of it. *)
From Stdlib Require Import ZArith Lia.
From stdpp Require Import base gmap list strings.
From S2P Require Import Prelude Codes CmTypes NtfData StdMap EventProducer CmData.

#[local] Open Scope string_scope.
Open Scope Z_scope.

Definition MafOamSpiCmEvent_Notification_1 : string := "MafOamSpiCmEvent_Notification_1".

Section producer.
Context (env : environment ntfE).

(** ** Subscription at OpenSAF *)

(** Frees the filters up to the first failure; the result of the last call is
    the answer. *)
Definition free_filters (h : FilterHandles) : C SaAisErrorT :=
  rc ← call env (saNtfNotificationFilterFree (Some (objectCreateDeleteFilterHandle h)));
  if bool_decide (rc <> SA_AIS_OK) then mret rc
  else
    rc ← call env (saNtfNotificationFilterFree (Some (attributeChangeFilterHandle h)));
    if bool_decide (rc <> SA_AIS_OK) then mret rc
    else call env (saNtfNotificationFilterFree (Some (stateChangeFilterHandle h))).

Definition subscribeFor_CM_Notifications : C SaAisErrorT :=
  modify (fun s => set_subscribed (isSubscribed s) (MkHandles 0 0 0) s) ;;
  o ← call env (filterAllocate ObjectCreateDeleteFilter);
  if bool_decide (fst o <> SA_AIS_OK) then mret (fst o)
  else
    c ← call env (filterAllocate StateChangeFilter);
    if bool_decide (fst c <> SA_AIS_OK) then mret (fst c)
    else
      a ← call env (filterAllocate AttributeChangeFilter);
      if bool_decide (fst a <> SA_AIS_OK) then mret (fst a)
      else
        let h := MkHandles (snd o) (snd a) (snd c) in
        modify (fun s => set_subscribed (isSubscribed s) h s) ;;
        rc ← call env (saNtfNotificationSubscribe [snd o; snd a; snd c] CM_NOTIFICATIONS_SUBS_ID);
        if bool_decide (rc = SA_AIS_OK) then modify (fun s => set_subscribed true h s) ;; mret rc
        else free_filters h.

Definition unsubscribeFor_CM_Notifications : C SaAisErrorT :=
  s ← get;
  if isSubscribed s then
    rc ← free_filters (notificationFilterHandles s);
    if bool_decide (rc <> SA_AIS_OK) then mret rc
    else
      rc ← retry is_try_again (call env (usleep OAM_SA_NTF_RETRY_SLEEP))
             (call env (saNtfNotificationUnsubscribe CM_NOTIFICATIONS_SUBS_ID)) OAM_SA_NTF_MAX_RETRIES;
      when (bool_decide (rc = SA_AIS_OK)) (modify (fun s => set_subscribed false (notificationFilterHandles s) s)) ;;
      mret rc
  else mret SA_AIS_OK.

(** ** [CmEventProducer::RegexpFilter] *)

(** The first filter subscribes; whether that succeeded is not looked at. *)
Definition RegexpFilter_new (filters : option Pairs) : C RegexpFilter :=
  s ← get;
  when (negb (alreadySubscribed s))
    (when (negb (s_theCmEventProducer s)) (exit BadPointer) ;;
     rc ← subscribeFor_CM_Notifications;
     modify (fun s => set_theProducer (s_theCmEventProducer s) true s)) ;;
  mret (MkRegexpFilter filters []).

(** The expressions are compiled one after the other; an invalid one clears the list.
    A [std::string] cannot be made of a null pointer. *)
Fixpoint compile (pairs : list (option string * option string)) (done : list string) : C (bool * list string) :=
  match pairs with
  | [] => mret (true, done)
  | (Some _, Some regExpValue) :: pairs =>
      valid ← call env (regcomp regExpValue);
      if (valid : bool) then compile pairs (done ++ [regExpValue]) else mret (false, [])
  | _ => exit Aborted
  end.

Definition RegexpFilter_isValid (f : RegexpFilter) : C (bool * RegexpFilter) :=
  match _filters f with
  | None => mret (false, f)
  | Some (addr, []) => mret (true, f)
  | Some (addr, pairs) =>
      r ← compile pairs (filterList f);
      mret (fst r, MkRegexpFilter (_filters f) (snd r))
  end.

Fixpoint any_dn (pattern : string) (dns : list string) : C bool :=
  match dns with
  | [] => mret false
  | dn :: dns =>
      b ← call env (regexec pattern dn);
      if (b : bool) then mret true else any_dn pattern dns
  end.
Fixpoint any_pattern (patterns dns : list string) : C bool :=
  match patterns with
  | [] => mret false
  | p :: patterns =>
      b ← any_dn p dns;
      if (b : bool) then mret true else any_pattern patterns dns
  end.

(** The names of the events; a null name cannot be made a string. *)
Fixpoint dn_list (l : list CmEvent) : C (list string) :=
  match l with
  | [] => mret []
  | e :: l => dn ← of_option Aborted (ev_dn e); rest ← dn_list l; mret (dn.2 :: rest)
  end.

Definition RegexpFilter_isMatch (f : RegexpFilter) (n : CmNotification) : C bool :=
  match events n with
  | [] => mret false
  | l =>
      dns ← dn_list l;
      match filterList f with
      | [] => mret true
      | patterns => any_pattern patterns dns
      end
  end.

Definition cm_kind : EventKind ntfE Cm CmNotification RegexpFilter := {|
  newFilter := RegexpFilter_new;
  isValid := RegexpFilter_isValid;
  isMatch := RegexpFilter_isMatch;
  getFilter := fun f => fst <$> _filters f;
  deleteFilter := fun _ => mret ();
  destroy := freeCmEvents
|}.
#[local] Existing Instance cm_kind.

(** ** [CmEventProducer] *)
Definition CmEventProducer_new : C () :=
  EventProducer_new ;; modify (set_theProducer true false).

(** The members are destroyed after the body of the destructor. *)
Definition CmEventProducer_delete : C () :=
  s ← get;
  when (alreadySubscribed s)
    (rc ← unsubscribeFor_CM_Notifications;
     when (bool_decide (rc = SA_AIS_OK)) (modify (fun s => set_theProducer (s_theCmEventProducer s) false s))) ;;
  modify (fun s => set_theProducer false (alreadySubscribed s) s) ;;
  EventProducer_delete.

Definition CmEventProducer_start : C MafReturnT := start env MafOamSpiCmEvent_Notification_1 ;; mret MafOk.
Definition CmEventProducer_sendEvent (n : CmNotification) : C MafReturnT :=
  eventValue ← new_object n;
  push env eventValue ;;
  releaseRef eventValue ;;
  mret MafOk.
Definition CmEventProducer_stop : C MafReturnT := stop env ;; mret MafOk.

(** ** [CmEventHandler] *)
Definition CmEventHandler_start : C MafReturnT :=
  CmEventProducer_new ;; modify (set_has_producer true) ;; CmEventProducer_start.

(** Without a producer the event is dropped, and with it its memory. *)
Definition CmEventHandler_sendEvent (n : CmNotification) : C MafReturnT :=
  s ← get;
  if _cmEventProducer s then CmEventProducer_sendEvent n else mret MafOk.
Definition CmEventHandler_pushEvent (n : CmNotification) : C MafReturnT := CmEventHandler_sendEvent n.

Definition CmEventHandler_stop : C MafReturnT :=
  s ← get;
  if _cmEventProducer s then
    ret ← CmEventProducer_stop;
    CmEventProducer_delete ;;
    modify (set_has_producer false) ;;
    mret ret
  else mret MafOk.

Definition push_CmEventHandler (n : CmNotification) : C MafReturnT :=
  s ← get;
  match cmEventHandler s with
  | Some _ =>
      ret ← CmEventHandler_pushEvent n;
      mret (if bool_decide (ret = MafOk) then MafOk else MafFailure)
  | None => mret MafFailure
  end.

(** *** Discarded bundles *)
Definition on_handler (f : CmEventHandler -> CmEventHandler) : C () :=
  s ← get;
  match cmEventHandler s with
  | Some h => modify (set_handler (Some (f h)))
  | None => exit BadPointer
  end.
Definition addDiscardedCcb (ccbId : Z) : C () :=
  on_handler (fun h => MkHandler (ccbId :: _discardedCcbList h) (_notificationCacheInDiscardMode h)).
Definition setNotificationCacheDiscardMode (b : bool) : C () := on_handler (fun h => MkHandler (_discardedCcbList h) b).
Definition isNotificationCacheInDiscardMode : C bool :=
  s ← get;
  match cmEventHandler s with
  | Some h => mret (_notificationCacheInDiscardMode h)
  | None => exit BadPointer
  end.

(** Nanoseconds, or zero. *)
Definition getTime : C Z :=
  ts ← call env clock_gettime;
  mret match ts with Some (sec, nsec) => wrap_u 64 (nsec + sec * 1000000000) | None => 0 end.

(** An event that says that events were lost. *)
Definition buildOverflowEvent : C CmNotification :=
  t ← getTime;
  arr ← block env;
  ev ← block env;
  attrs ← block env;
  dn ← text env "";
  mret (MkCmNotification 0 t MafOamSpiCmEvent_ResourceOperation_1 arr
          [MkCmEvent ev (Some dn) MafOamSpiCmEvent_Overflow_1 attrs []]).
End producer.
