(* ===== verification/CmCache.v ===== *)
(** * Events of the configuration: the notification cache ([ntf/CmEventHandler.cc])

    The changes of a bundle (CCB) are collected until its last one and then sent as
    one event per object.  The attributes of an object come before its name is
    known: they wait in a temporary entry ([addAttr]), which [setDn] moves
    to the name.  Maps iterate in the order of their keys ([StdMap]); with a limit
    on the memory every level accounts for its bytes. *)
From Stdlib Require Import ZArith Lia.
From stdpp Require Import base gmap list strings.
From S2P Require Import Prelude Codes CmTypes NtfData StdMap EventProducer CmData CmProducer.

#[local] Open Scope string_scope.
Open Scope Z_scope.

Definition tempCacheKey : string := "TEMP_CACHE".

(** Sizes of the classes and structures, in bytes. *)
Record Sizes := MkSizes {
  size_CcbCache : Z; size_DnCache : Z; size_AvcCache : Z; size_StructElementCache : Z;
  size_Container : Z; size_Value : Z
}.

(** ** The template [BaseCache] *)
Section base.
Context {K V : Type} `{KeyOrder K} `{EqDecision K}.
Implicit Types c : BaseCache K V.

Definition existsCache c (k : K) : bool := bool_decide (is_Some (map_find (cacheMap c) k)).
(** [insert] keeps a value that is there. *)
Definition addToCacheMap (k : K) (v : V) c := MkBase (map_insert (cacheMap c) k v) (own_bytes c) (held_bytes c).
(** The value of the key, which is made when there is none. *)
Definition getCache (k : K) (new : V) c : V * BaseCache K V :=
  match map_find (cacheMap c) k with
  | Some v => (v, c)
  | None => (new, addToCacheMap k new c)
  end.
Definition deleteCacheFromMap (k : K) c := MkBase (map_erase (cacheMap c) k) (own_bytes c) (held_bytes c).
Definition changeCache (k : K) (v : V) c := MkBase (map_update (cacheMap c) k (fun _ => v)) (own_bytes c) (held_bytes c).
Definition cacheSize c : nat := length (cacheMap c).

(** Bytes: 64 bits unsigned; a subtraction stops at zero. *)
Definition getMemory c : Z := wrap_u 64 (own_bytes c + held_bytes c).
Definition setMemory (bytes : Z) (memoryDeleted : bool) c :=
  MkBase (cacheMap c) (own_bytes c)
    (if negb memoryDeleted then wrap_u 64 (held_bytes c + bytes)
     else if held_bytes c <? bytes then 0 else held_bytes c - bytes).
Definition resetMemory (bytes : Z) c := MkBase (cacheMap c) (own_bytes c) bytes.
End base.

(** The same for an element of an array of structs. *)
Definition se_getMemory (e : StructElementCache) : Z := wrap_u 64 (se_own e + se_held e).
Definition se_setMemory (bytes : Z) (e : StructElementCache) := MkElement (structElementList e) (se_own e) (wrap_u 64 (se_held e + bytes)).

Definition on_elements f (a : AvcCache) := MkAvcCache (f (avc_elements a)) (avcSimple a) (avcReference a) (avcRuntimeStruct a).
Definition on_attrs f (d : DnCache) := MkDnCache (f (dn_attrs d)) (set_create d) (set_mod d) (set_del d) (modifiedReference d) (modifiedRuntimeStructObject d).
Definition on_dns f (c : CcbCache) := MkCcbCache (f (ccb_dns c)) (ccb_source c) (ccb_txHandle c).

(** ** [DnCache] *)
Definition setEventType (t : MafOamSpiCmEvent_EventType_1T) (d : DnCache) : DnCache :=
  match t with
  | MafOamSpiCmEvent_MoCreated_1 => MkDnCache (dn_attrs d) true (set_mod d) (set_del d) (modifiedReference d) (modifiedRuntimeStructObject d)
  | MafOamSpiCmEvent_MoDeleted_1 => MkDnCache (dn_attrs d) (set_create d) (set_mod d) true (modifiedReference d) (modifiedRuntimeStructObject d)
  | MafOamSpiCmEvent_AttributeValueChange_1 => MkDnCache (dn_attrs d) (set_create d) true (set_del d) (modifiedReference d) (modifiedRuntimeStructObject d)
  | MafOamSpiCmEvent_Overflow_1 => d
  end.
Definition setReferenceCalled (d : DnCache) := MkDnCache (dn_attrs d) (set_create d) (set_mod d) (set_del d) true (modifiedRuntimeStructObject d).
Definition setRuntimeStructObjectCalled (d : DnCache) := MkDnCache (dn_attrs d) (set_create d) (set_mod d) (set_del d) (modifiedReference d) true.

(** [ret] is assigned up to three times; the last assignment counts. *)
Definition getEventType (d : DnCache) : MafOamSpiCmEvent_EventType_1T :=
  let ret := MafOamSpiCmEvent_Overflow_1 in
  if modifiedRuntimeStructObject d then MafOamSpiCmEvent_AttributeValueChange_1
  else
    let ret :=
      if modifiedReference d then
        if set_create d && set_mod d then MafOamSpiCmEvent_AttributeValueChange_1
        else if set_create d then MafOamSpiCmEvent_MoCreated_1
        else MafOamSpiCmEvent_AttributeValueChange_1
      else ret in
    if set_mod d then
      if set_del d then MafOamSpiCmEvent_AttributeValueChange_1
      else if set_create d then MafOamSpiCmEvent_AttributeValueChange_1
      else MafOamSpiCmEvent_AttributeValueChange_1
    else
      if set_create d then MafOamSpiCmEvent_MoCreated_1
      else if set_del d then MafOamSpiCmEvent_MoDeleted_1
      else ret.

(** ** [AvcCache] *)
Definition IsConfigStructType (a : AvcCache) : bool := negb (cacheSize (avc_elements a) =? 0)%nat.
Definition IsRuntimeStructType (a : AvcCache) : bool := bool_decide (is_Some (avcRuntimeStruct a)).

(** ** Kinds of attributes *)
Inductive attributeType := simpleType | configStructType | runtimeStructType | referenceType.

(** The name starts with "id=" and goes on. *)
Definition isStruct (immRdn : string) : bool :=
  (3 <? String.length immRdn)%nat && bool_decide (String.substring 0 3 immRdn = "id=").
Definition getAttrType (ccbId : Z) (immRdn : string) (avc : Avc) : attributeType :=
  if (ccbId =? 0) && (avc_type avc.2 =? MafOamSpiMoAttributeType_3_STRUCT) then runtimeStructType
  else if avc_type avc.2 =? MafOamSpiMoAttributeType_3_STRUCT then referenceType
  else if isStruct immRdn then configStructType
  else simpleType.

Section cache.
Context (env : environment ntfE) (sizes : Sizes) (maxSAMemoryForCMEvents : Z).

Definition limited : bool := negb (maxSAMemoryForCMEvents =? 0).

(** ** Objects without contents *)
Definition own (n : Z) : Z := if limited then n else 0.
Definition new_CcbCache : CcbCache := MkCcbCache (MkBase [] (own (size_CcbCache sizes)) 0) MafOamSpiCmEvent_Unknown_1 0.
Definition new_DnCache : DnCache := MkDnCache (MkBase [] (own (size_DnCache sizes)) 0) false false false false false.
Definition new_AvcCache : AvcCache := MkAvcCache (MkBase [] (own (size_AvcCache sizes)) 0) None None None.
Definition new_StructElementCache : StructElementCache := MkElement [] (own (size_StructElementCache sizes)) 0.

(** ** The bytes of a container ([memgetAVC]); [strlen] of what is no string is a fault *)
Fixpoint text_bytes (l : list (MafMoAttributeValue_3T ptr)) : option Z :=
  match l with
  | [] => Some 0
  | TextAt (Some t) :: l => n ← text_bytes l; Some (Z.of_nat (String.length t.2) + n)
  | _ => None
  end.
Definition memgetAVC (b : AvcBody ptr) : option Z :=
  match avc_values b with
  | None => Some (size_Container sizes)
  | Some _ =>
      n ← (if (avc_type b =? MafOamSpiMoAttributeType_3_STRING) || (avc_type b =? MafOamSpiMoAttributeType_3_REFERENCE)
           then text_bytes (avc_elems b) else Some 0);
      Some (wrap_u 64 (size_Container sizes + Z.of_nat (nrOfValues b) * size_Value sizes + n))
  end.
(** Asked only with a limit. *)
Definition bytes_of (avc : Avc) : C Z := if limited then of_option BadPointer (memgetAVC avc.2) else mret 0.

(** ** Destructors

    [discard]: the handler is in the mode in which everything is freed. *)
Definition free_member (m : string * Avc) : C () := freeAVC m.2.2 ;; free m.2.1.
Definition free_element (e : string * StructElementCache) : C () := for_each free_member (structElementList e.2).
Definition free_container (o : option Avc) : C () :=
  match o with Some a => freeAVC a.2 ;; free a.1 | None => mret () end.

Definition AvcCache_delete (a : AvcCache) : C () :=
  (match avcReference a with
   | Some r =>
       touch r.1 ;;
       when (avc_type r.2 =? MafOamSpiMoAttributeType_3_STRUCT) (for_each free_pointer (avc_elems r.2) ;; free_opt (avc_values r.2)) ;;
       free r.1
   | None => mret ()
   end : C ()) ;;
  discard ← isNotificationCacheInDiscardMode;
  when discard
    (free_container (avcSimple a) ;;
     free_container (avcRuntimeStruct a) ;;
     when (IsConfigStructType a) (for_each free_element (cacheMap (avc_elements a)))).

Definition DnCache_delete (d : DnCache) : C () := for_each (fun a => AvcCache_delete a.2) (cacheMap (dn_attrs d)).
Definition CcbCache_delete (c : CcbCache) : C () := for_each (fun d => DnCache_delete d.2) (cacheMap (ccb_dns c)).

(** ** Adding an attribute *)
Definition addToStructElementList (memberName : string) (memberValue : Avc) (e : StructElementCache) : C (bool * StructElementCache) :=
  touch memberValue.1 ;;
  if avc_type memberValue.2 =? MafOamSpiMoAttributeType_3_STRUCT then mret (false, e)
  else
    n ← bytes_of memberValue;
    let e := MkElement (structElementList e ++ [(memberName, memberValue)]) (se_own e) (se_held e) in
    mret (true, if limited then se_setMemory n e else e).

(** The attribute with the value, and whether the value was taken. *)
Definition add_value (ccbId : Z) (immRdn memberName : string) (avc : Avc) (a : AvcCache) : C (bool * AvcCache) :=
  touch avc.1 ;;
  match getAttrType ccbId immRdn avc with
  | configStructType =>
      let (e, elements) := getCache immRdn new_StructElementCache (avc_elements a) in
      r ← addToStructElementList memberName avc e;
      let a := on_elements (fun _ => changeCache immRdn (snd r) elements) a in
      mret (fst r, if fst r && limited then on_elements (resetMemory (se_getMemory (snd r))) a else a)
  | runtimeStructType =>
      n ← bytes_of avc;
      let a := MkAvcCache (avc_elements a) (avcSimple a) (avcReference a) (Some avc) in
      mret (true, if limited then on_elements (resetMemory n) a else a)
  | simpleType =>
      n ← bytes_of avc;
      let a := MkAvcCache (avc_elements a) (Some avc) (avcReference a) (avcRuntimeStruct a) in
      mret (true, if limited then on_elements (resetMemory n) a else a)
  | referenceType =>
      n ← bytes_of avc;
      let a := MkAvcCache (avc_elements a) (avcSimple a) (Some avc) (avcRuntimeStruct a) in
      mret (true, if limited then on_elements (resetMemory n) a else a)
  end.

(** The part of [addAttr] after the limit was looked at. *)
Definition add_attr (ccbId : Z) (attrName immRdn memberName : string) (avc : Avc) (cm : CmNotificationCache) : C (MafReturnT * CmNotificationCache) :=
  let cm := if limited && negb (existsCache cm ccbId) then setMemory (size_CcbCache sizes) false cm else cm in
  let (ccb, cm) := getCache ccbId new_CcbCache cm in
  let (dn, dns) := getCache tempCacheKey new_DnCache (ccb_dns ccb) in
  let dn := if (ccbId =? 0) && isStruct immRdn then setRuntimeStructObjectCalled dn else dn in
  let (attr, attrs) := getCache attrName new_AvcCache (dn_attrs dn) in
  r ← add_value ccbId immRdn memberName avc attr;
  let n := getMemory (avc_elements (snd r)) in
  let account {K V : Type} (c : BaseCache K V) := if fst r && limited then setMemory n false c else c in
  let dn := on_attrs (fun _ => account (changeCache attrName (snd r) attrs)) dn in
  let dn := match getAttrType ccbId immRdn avc with referenceType => setReferenceCalled dn | _ => dn end in
  let ccb := on_dns (fun _ => account (changeCache tempCacheKey dn dns)) ccb in
  mret (if fst r then MafOk else MafInvalidArgument, account (changeCache ccbId ccb cm)).

(** ** The event of a bundle *)

(** What is taken out of the cache is freed but for the values. *)
Definition taken (o : option Avc) : C (AvcBody ptr) :=
  match o with
  | Some a => touch a.1 ;; free a.1 ;; mret a.2
  | None => mret (MkAvc MafOamSpiMoAttributeType_3_STRUCT None [])
  end.

Fixpoint build_members (l : list (string * Avc)) : C (list (StructMember ptr)) :=
  match l with
  | [] => mret []
  | m :: l =>
      sm ← block env;
      name ← text env m.1;
      rest ← build_members l;
      mret (MkMember sm name (Some m.2) :: rest)
  end.
(** An element without members: the end of the list is written through a null
    pointer. *)
Fixpoint build_elements (l : StdMap string StructElementCache) : C (list (MafMoAttributeValue_3T ptr)) :=
  match l with
  | [] => mret []
  | e :: l =>
      ms ← build_members (structElementList e.2);
      when (bool_decide (length ms = 0%nat)) (exit BadPointer) ;;
      rest ← build_elements l;
      mret (Members ms :: rest)
  end.
Definition buildAVC_configStructType (a : AvcCache) : C (AvcBody ptr) :=
  values ← block env;
  elems ← build_elements (cacheMap (avc_elements a));
  mret (MkAvc MafOamSpiMoAttributeType_3_STRUCT (Some values) elems).

(** The value, and what stays in the cache. *)
Definition build_attribute (a : AvcCache) : C (AvcBody ptr * AvcCache) :=
  if IsConfigStructType a then v ← buildAVC_configStructType a; mret (v, a)
  else if IsRuntimeStructType a then
    v ← taken (avcRuntimeStruct a); mret (v, MkAvcCache (avc_elements a) (avcSimple a) (avcReference a) None)
  else
    v ← taken (avcSimple a); mret (v, MkAvcCache (avc_elements a) None (avcReference a) (avcRuntimeStruct a)).

Fixpoint build_attributes (l : StdMap string AvcCache) : C (list NamedAvc * StdMap string AvcCache) :=
  match l with
  | [] => mret ([], [])
  | a :: l =>
      addr ← block env;
      name ← text env a.1;
      r ← build_attribute a.2;
      rest ← build_attributes l;
      mret (MkNamedAvc addr name (fst r) :: fst rest, (a.1, snd r) :: snd rest)
  end.
Fixpoint build_events (l : StdMap string DnCache) : C (list CmEvent * StdMap string DnCache) :=
  match l with
  | [] => mret ([], [])
  | d :: l =>
      ev ← block env;
      dn ← text env d.1;
      attrs ← block env;
      r ← build_attributes (cacheMap (dn_attrs d.2));
      rest ← build_events l;
      mret (MkCmEvent ev (Some dn) (getEventType d.2) attrs (fst r) :: fst rest,
            (d.1, on_attrs (fun b => MkBase (snd r) (own_bytes b) (held_bytes b)) d.2) :: snd rest)
  end.
Definition buildEventStruct (c : CcbCache) : C (CmNotification * CcbCache) :=
  t ← getTime env;
  arr ← block env;
  r ← build_events (cacheMap (ccb_dns c));
  mret (MkCmNotification (ccb_txHandle c) t (ccb_source c) arr (fst r),
        on_dns (fun b => MkBase (snd r) (own_bytes b) (held_bytes b)) c).

(** ** Giving a name to the attributes that wait *)

(** The levels whose bytes an update touches. *)
Record Levels := MkLevels { l_cm : CmNotificationCache; l_ccb : CcbCache; l_dn : DnCache }.
Definition account_dn (n : Z) (deleted : bool) (s : Levels) : Levels :=
  if limited then
    MkLevels (setMemory n deleted (l_cm s)) (on_dns (setMemory n deleted) (l_ccb s)) (on_attrs (setMemory n deleted) (l_dn s))
  else s.
Definition set_attr (attr : string) (a : AvcCache) (s : Levels) : Levels := MkLevels (l_cm s) (l_ccb s) (on_attrs (changeCache attr a) (l_dn s)).
(** [updateMemory] down to the attribute [a]. *)
Definition account_attr (attr : string) (a : AvcCache) (n : Z) (deleted : bool) (s : Levels) : Levels :=
  account_dn n deleted (set_attr attr (if limited then on_elements (setMemory n deleted) a else a) s).

Fixpoint add_members (l : list (string * Avc)) (e : StructElementCache) : C StructElementCache :=
  match l with
  | [] => mret e
  | m :: l => r ← addToStructElementList m.1 m.2 e; add_members l (snd r)
  end.

Definition attr_of (attr : string) (s : Levels) : C AvcCache := of_option BadPointer (map_find (cacheMap (dn_attrs (l_dn s))) attr).

(** The elements of the waiting attribute are added to those of the attribute. *)
Fixpoint merge_elements (attr : string) (l : StdMap string StructElementCache) (s : Levels) : C Levels :=
  match l with
  | [] => mret s
  | (key, structTempCache) :: l =>
      dnAvc ← attr_of attr s;
      match map_find (cacheMap (avc_elements dnAvc)) key with
      | Some structDnCache =>
          let s := account_attr attr dnAvc (se_getMemory structDnCache) true s in
          structDnCache ← add_members (structElementList structTempCache) structDnCache;
          dnAvc ← attr_of attr s;
          merge_elements attr l
            (account_attr attr (on_elements (changeCache key structDnCache) dnAvc) (se_getMemory structDnCache) false s)
      | None =>
          merge_elements attr l
            (account_attr attr (on_elements (addToCacheMap key structTempCache) dnAvc) (se_getMemory structTempCache) false s)
      end
  end.

(** An attribute that the object has already keeps its value; of the waiting one
    only the elements are used. *)
Fixpoint merge_attrs (l : StdMap string AvcCache) (s : Levels) : C Levels :=
  match l with
  | [] => mret s
  | (attr, tempAvc) :: l =>
      if existsCache (dn_attrs (l_dn s)) attr then
        s ← merge_elements attr (cacheMap (avc_elements tempAvc)) s;
        AvcCache_delete tempAvc ;;
        merge_attrs l s
      else
        merge_attrs l (account_dn (getMemory (avc_elements tempAvc)) false
          (MkLevels (l_cm s) (l_ccb s) (on_attrs (addToCacheMap attr tempAvc) (l_dn s))))
  end.

Definition merge_flags (temp dn : DnCache) : DnCache :=
  let dn := if modifiedReference temp then setReferenceCalled dn else dn in
  let dn := if set_create temp then setEventType MafOamSpiCmEvent_MoCreated_1 dn else dn in
  let dn := if set_mod temp then setEventType MafOamSpiCmEvent_AttributeValueChange_1 dn else dn in
  if set_del temp then setEventType MafOamSpiCmEvent_MoDeleted_1 dn else dn.

(** The waiting attributes come under the name [dn] of the bundle.  In the mode in
    which everything is freed, the temporary entry would be deleted with what was
    moved. *)
Definition place (dn : string) (eventType : MafOamSpiCmEvent_EventType_1T) (cm : CmNotificationCache) (ccb : CcbCache) : C (CmNotificationCache * CcbCache) :=
  let account n deleted (p : CmNotificationCache * CcbCache) :=
    if limited then (setMemory n deleted p.1, on_dns (setMemory n deleted) p.2) else p in
  match map_find (cacheMap (ccb_dns ccb)) tempCacheKey, map_find (cacheMap (ccb_dns ccb)) dn with
  | None, None =>
      let d := setEventType eventType new_DnCache in
      mret (account (getMemory (dn_attrs d)) false (cm, on_dns (addToCacheMap dn d) ccb))
  | None, Some _ => mret (cm, ccb)
  | Some temp, Some d =>
      let temp := setEventType eventType temp in
      let p := account (getMemory (dn_attrs temp)) true (cm, ccb) in
      s ← merge_attrs (cacheMap (dn_attrs temp)) (MkLevels p.1 p.2 (merge_flags temp d));
      discard ← isNotificationCacheInDiscardMode;
      when discard (exit BadPointer) ;;
      mret (l_cm s, on_dns (fun b => deleteCacheFromMap tempCacheKey (changeCache dn (l_dn s) b)) (l_ccb s))
  | Some temp, None =>
      mret (cm, on_dns (fun b => deleteCacheFromMap tempCacheKey (addToCacheMap dn (setEventType eventType temp) b)) ccb)
  end.
End cache.
