(* ===== verification/CmHandler.v ===== *)
(** * Events of the configuration: the handler ([ntf/CmEventHandler.cc])

    The interface of the cache and of the handler: attributes and names come in,
    the event of a bundle goes out with its last change; over the limit, an
    overflow event goes out and the bundles are discarded. *)
From Stdlib Require Import ZArith Lia.
From stdpp Require Import base gmap list strings pretty.
From S2P Require Import Prelude Codes CmTypes NtfData StdMap EventProducer CmData CmProducer CmCache.

#[local] Open Scope string_scope.
Open Scope Z_scope.

(** ** Values as texts ([attrValueContainerToString])

    Every line of the debug log is made, also when no log is written. *)
Definition type_name (type : Z) : option string :=
  if type =? MafOamSpiMoAttributeType_3_INT8 then Some "INT8"
  else if type =? MafOamSpiMoAttributeType_3_INT16 then Some "INT16"
  else if type =? MafOamSpiMoAttributeType_3_INT32 then Some "INT32"
  else if type =? MafOamSpiMoAttributeType_3_INT64 then Some "INT64"
  else if type =? MafOamSpiMoAttributeType_3_UINT8 then Some "UINT8"
  else if type =? MafOamSpiMoAttributeType_3_UINT16 then Some "UINT16"
  else if type =? MafOamSpiMoAttributeType_3_UINT32 then Some "UINT32"
  else if type =? MafOamSpiMoAttributeType_3_UINT64 then Some "UINT64"
  else if type =? MafOamSpiMoAttributeType_3_STRING then Some "STRING"
  else if type =? MafOamSpiMoAttributeType_3_BOOL then Some "BOOL"
  else if type =? MafOamSpiMoAttributeType_3_ENUM then Some "ENUM"
  else if type =? MafOamSpiMoAttributeType_3_DECIMAL64 then Some "DECIMAL64"
  else None.

(** The bits of the union: of a pointer they are an address. *)
Definition union_bits (v : MafMoAttributeValue_3T ptr) : Z :=
  match v with
  | Number bits => bits
  | TextAt None | Members [] => 0
  | TextAt (Some t) => Z.of_nat t.1
  | Members (MkMember p _ _ :: _) => Z.of_nat p
  end.
Definition unsigned (w bits : Z) : Z := bits mod 2 ^ w.
Definition signed (w bits : Z) : Z := (bits + 2 ^ (w - 1)) mod 2 ^ w - 2 ^ (w - 1).
(** The number that is printed of an integer, a boolean or an enumeration. *)
Definition printed_number (type bits : Z) : Z :=
  if type =? MafOamSpiMoAttributeType_3_INT8 then signed 8 bits
  else if type =? MafOamSpiMoAttributeType_3_INT16 then signed 16 bits
  else if type =? MafOamSpiMoAttributeType_3_INT32 then signed 32 bits
  else if type =? MafOamSpiMoAttributeType_3_UINT8 then unsigned 8 bits
  else if type =? MafOamSpiMoAttributeType_3_UINT16 then unsigned 16 bits
  else if type =? MafOamSpiMoAttributeType_3_UINT32 then unsigned 32 bits
  else if type =? MafOamSpiMoAttributeType_3_UINT64 then unsigned 64 bits
  else if type =? MafOamSpiMoAttributeType_3_BOOL then unsigned 8 bits
  else signed 64 bits.

(** ["%f"] of a double: its value in millionths, rounded to the nearest of them, to the
    even one in the middle. *)
Definition double_exponent (bits : Z) : Z := Z.land (Z.shiftr bits 52) 2047.
Definition double_fraction (bits : Z) : Z := Z.land bits (2 ^ 52 - 1).
Definition millionths (bits : Z) : Z :=
  let e := double_exponent bits in
  let n := 1000000 * (if e =? 0 then double_fraction bits else double_fraction bits + 2 ^ 52) in
  let k := Z.max e 1 - 1075 in
  if 0 <=? k then n * 2 ^ k
  else
    let d := 2 ^ (- k) in
    let q := n / d in
    let r := n mod d in
    if (d <? 2 * r) || ((2 * r =? d) && Z.odd q) then q + 1 else q.
Definition double_text (bits : Z) : string :=
  let minus := if Z.testbit bits 63 then "-" else "" in
  if double_exponent bits =? 2047 then minus +:+ (if double_fraction bits =? 0 then "inf" else "nan")
  else
    minus +:+ pretty (Z.to_N (millionths bits / 1000000)) +:+ "." +:+
    String.substring 1 6 (pretty (Z.to_N (1000000 + millionths bits mod 1000000))).

(** [sprintf] into a buffer of 100 bytes. *)
Definition sprintf_100 (t : string) : C string := if (String.length t <? 100)%nat then mret t else exit BadPointer.

(** A null text cannot be made a string. *)
Definition value_text (type : Z) (v : MafMoAttributeValue_3T ptr) : C string :=
  if type =? MafOamSpiMoAttributeType_3_STRING then
    match v with
    | TextAt (Some t) => touch t.1 ;; mret t.2
    | TextAt None | Members [] | Number 0 => exit Aborted
    | _ => exit BadPointer
    end
  else if type =? MafOamSpiMoAttributeType_3_DECIMAL64 then sprintf_100 (double_text (union_bits v))
  else sprintf_100 (pretty (printed_number type (union_bits v))).
Fixpoint value_texts (type : Z) (l : list (MafMoAttributeValue_3T ptr)) : C string :=
  match l with
  | [] => mret ""
  | v :: l => t ← value_text type v; ts ← value_texts type l; mret (" " +:+ t +:+ ts)
  end.
Definition attrValueContainerToString (avc : AvcBody ptr) : C string :=
  if avc_type avc =? MafOamSpiMoAttributeType_3_REFERENCE then mret " attrType: REFERENCE"
  else
    match type_name (avc_type avc) with
    | None => mret ""
    | Some name =>
        when (1 <=? nrOfValues avc)%nat (p ← of_option BadPointer (avc_values avc); touch p) ;;
        ts ← value_texts (avc_type avc) (avc_elems avc);
        mret (" attrType: " +:+ name +:+ " nrOfValues: " +:+ pretty (nrOfValues avc) +:+ " values:" +:+ ts)
    end.

Section handler.
Context (env : environment ntfE) (sizes : Sizes) (maxSAMemoryForCMEvents : Z).

Abbreviation limited := (limited maxSAMemoryForCMEvents).

(** ** [CmNotificationCache] *)

(** Every bundle is marked and deleted.  The loop goes on from the iterator whose
    entry it has just erased. *)
Definition discardAllCcbs (cm : CmNotificationCache) : C CmNotificationCache :=
  setNotificationCacheDiscardMode true ;;
  overflow ← buildOverflowEvent env;
  r ← push_CmEventHandler env overflow;
  match cacheMap cm with
  | [] => setNotificationCacheDiscardMode false ;; mret cm
  | (ccbId, c) :: _ =>
      addDiscardedCcb ccbId ;;
      CcbCache_delete c ;;
      exit BadPointer
  end.

(** The limit is looked at first. *)
Definition over_limit (cm : CmNotificationCache) : bool := limited && (maxSAMemoryForCMEvents <? getMemory cm).

Definition addAttr (ccbId : Z) (attrName immRdn memberName : string) (avc : Avc) (cm : CmNotificationCache) : C (MafReturnT * CmNotificationCache) :=
  if over_limit cm then cm ← discardAllCcbs cm; mret (MafNoResources, cm)
  else add_attr sizes maxSAMemoryForCMEvents ccbId attrName immRdn memberName avc cm.

Definition setDn (ccbId : Z) (sourceIndicator : MafOamSpiCmEvent_SourceIndicator_1T) (dn : string) (eventType : MafOamSpiCmEvent_EventType_1T)
    (ccbLast : bool) (cm : CmNotificationCache) : C (MafReturnT * CmNotificationCache) :=
  if over_limit cm then cm ← discardAllCcbs cm; mret (MafNoResources, cm)
  else if bool_decide (dn = tempCacheKey) then exit Undefined
  else
    let cm := if limited && negb (existsCache cm ccbId) then setMemory (size_CcbCache sizes) false cm else cm in
    let (ccb, cm) := getCache ccbId (new_CcbCache sizes maxSAMemoryForCMEvents) cm in
    let ccb := MkCcbCache (ccb_dns ccb) sourceIndicator (ccb_txHandle ccb) in
    p ← place sizes maxSAMemoryForCMEvents dn eventType cm ccb;
    let (cm, ccb) := (p : CmNotificationCache * CcbCache) in
    if ccbLast then
      d ← of_option BadPointer (map_find (cacheMap (ccb_dns ccb)) dn);
      ccb ← (if (cacheSize (dn_attrs d) =? 0)%nat && bool_decide (eventType = MafOamSpiCmEvent_AttributeValueChange_1)
             then mret ccb
             else
               r ← buildEventStruct env ccb;
               rc ← push_CmEventHandler env (fst r);
               mret (snd r)
             : C CcbCache);
      let cm := if limited then setMemory (getMemory (ccb_dns ccb)) true cm else cm in
      CcbCache_delete ccb ;;
      mret (MafOk, deleteCacheFromMap ccbId cm)
    else mret (MafOk, changeCache ccbId ccb cm).

(** ** Interface *)
Definition isDiscardedCcb (ccbId : Z) : C bool :=
  s ← get;
  mret match cmEventHandler s with
       | Some h => limited && bool_decide (ccbId ∈ _discardedCcbList h)
       | None => false
       end.
Definition removeDiscardedCcb (ccbId : Z) : C () :=
  s ← get;
  match cmEventHandler s with
  | Some h => when limited (on_handler (fun h => MkHandler (filter (fun id => id <> ccbId) (_discardedCcbList h)) (_notificationCacheInDiscardMode h)))
  | None => mret ()
  end.

(** A new cache; an old one is not deleted. *)
Definition newCmNotificationCache : C MafReturnT :=
  modify (set_cache (Some (MkBase [] 0 0))) ;; mret MafOk.

Definition start_CmEventHandler : C MafReturnT :=
  r ← newCmNotificationCache;
  modify (set_handler (Some (MkHandler [] false))) ;;
  rc ← CmEventHandler_start env;
  mret (if bool_decide (rc = MafOk) then MafOk else MafFailure).

Definition stop_CmEventHandler : C MafReturnT :=
  s ← get;
  (match cmNotificationCache s with
   | Some cm => for_each (fun c => CcbCache_delete c.2) (cacheMap cm) ;; modify (set_cache None)
   | None => mret ()
   end : C ()) ;;
  s ← get;
  match cmEventHandler s with
  | Some _ =>
      rc ← CmEventHandler_stop env;
      if bool_decide (rc = MafOk) then modify (set_handler None) ;; mret MafOk else mret MafFailure
  | None => mret MafOk
  end.

(** The values are made a text for the debug log first.  A null name cannot be made a
    string; a missing member name is the empty one. *)
Definition addToCmCache (ccbId : Z) (attrName immRdn memberName : option string) (memberValue : option Avc) : C MafReturnT :=
  match memberValue with
  | None => mret MafFailure
  | Some avc =>
      touch avc.1 ;;
      log ← attrValueContainerToString avc.2;
      s ← get;
      match cmNotificationCache s with
      | None => mret MafFailure
      | Some cm =>
          attrName ← of_option Aborted attrName;
          immRdn ← of_option Aborted immRdn;
          r ← addAttr ccbId attrName immRdn (default "" memberName) avc cm;
          modify (set_cache (Some (snd r))) ;;
          mret (fst r)
      end
  end.

Definition setDnInCmCache (ccbId : Z) (sourceIndicator : MafOamSpiCmEvent_SourceIndicator_1T) (dn : option string)
    (eventType : MafOamSpiCmEvent_EventType_1T) (ccbLast : bool) : C MafReturnT :=
  s ← get;
  match cmNotificationCache s with
  | None => mret MafFailure
  | Some cm =>
      dn ← of_option Aborted dn;
      r ← setDn ccbId sourceIndicator dn eventType ccbLast cm;
      modify (set_cache (Some (snd r))) ;;
      mret (if bool_decide (fst r = MafOk) then MafOk else MafFailure)
  end.
End handler.
