(* ===== verification/EventProducerFacts.v ===== *)
(** * Producers of events: the ledger of lent values

    The consumers' side of the contract is a ledger: a delivery lends the value once
    more, and a value is only given back while it is lent.  On that condition the
    counts of [Com::RefCounter] are the ledger, for any kind of event whose
    destructor and filters keep to [EventKindLaws]. *)
From Stdlib Require Import ZArith Lia.
From stdpp Require Import base gmap gmultiset list strings.
From S2P Require Import Prelude Marks Codes EventProducer.

Open Scope Z_scope.

(** ** The ledger *)

(** The values of [l] are given back, one after the other. *)
Fixpoint back (l : list ptr) (led : gmultiset ptr) : option (gmultiset ptr) :=
  match l with
  | [] => Some led
  | p :: l => if decide (p ∈ led) then back l (led ∖ {[+ p +]}) else None
  end.
(** A mark: the value of a delivery, and what was given back meanwhile. *)
Fixpoint ledger (ms : list (ptr * list ptr)) (led : gmultiset ptr) : option (gmultiset ptr) :=
  match ms with
  | [] => Some led
  | (p, l) :: ms => led' ← back l (led ⊎ {[+ p +]}); ledger ms led'
  end.

Lemma ledger_app ms ms' led : ledger (ms ++ ms') led = (led' ← ledger ms led; ledger ms' led').
Proof. revert led. induction ms as [|[p l] ms IH]; intros led; [done|]. cbn. destruct (back l _); cbn; [apply IH|done]. Qed.

(** ** Laws of a kind of events *)
Class ProducerLens (S EvT F : Type) `{HasProducer S EvT F} : Prop := {
  producer_set (p : Producer EvT F) (s : S) : producer_of (set_producer p s) = p;
}.

(** [owns es s]: the state holds all that the destructors of [es] need; [delivery]
    finds the deliveries in the history; [fails]: how the operations of the kind
    may take the process down. *)
Class EventKindLaws {E : Type -> Type} {S EvT F : Type} `{EventRouter E} `{HasProducer S EvT F} (K : EventKind E S EvT F)
    (owns : list EvT -> S -> Prop) (delivery : event E -> option (ptr * list ptr)) (fails : exit_reason -> Prop) : Prop := {
  delivery_notify a b c d p l : delivery (Ev (notify_consumer a b c d p) l) = Some (p, l);
  owns_producer es p s : owns es s -> owns es (set_producer p s);
  owns_perm es es' s : es ≡ₚ es' -> owns es s -> owns es' s;
  destroy_ok e es s : owns (e :: es) s ->
    traces delivery (destroy e) s (fun _ s' l => l = [] /\ producer_of s' = producer_of s /\ owns es s') (fun w _ l => l = [] /\ fails w);
  destroy_grows e : grows (destroy e);
  newFilter_ok fl es s : owns es s ->
    traces delivery (newFilter fl) s (fun _ s' l => l = [] /\ producer_of s' = producer_of s /\ owns es s') (fun w _ l => l = [] /\ fails w);
  isValid_ok f es s : owns es s ->
    traces delivery (isValid f) s (fun _ s' l => l = [] /\ producer_of s' = producer_of s /\ owns es s') (fun w _ l => l = [] /\ fails w);
  isMatch_ok f e es s : owns es s ->
    traces delivery (isMatch f e) s (fun _ s' l => l = [] /\ producer_of s' = producer_of s /\ owns es s') (fun w _ l => l = [] /\ fails w);
  deleteFilter_ok f es s : owns es s ->
    traces delivery (deleteFilter f) s (fun _ s' l => l = [] /\ producer_of s' = producer_of s /\ owns es s') (fun w _ l => l = [] /\ fails w)
}.

Section facts.
Context {E : Type -> Type} {S EvT F : Type} `{EventRouter E} `{HasProducer S EvT F} `{!ProducerLens S EvT F} (K : EventKind E S EvT F).
Context (owns : list EvT -> S -> Prop) (delivery : event E -> option (ptr * list ptr)) (fails : exit_reason -> Prop).
Context `{L : !EventKindLaws K owns delivery fails} (env : environment E).
#[local] Existing Instance K.

Abbreviation traces := (traces delivery).
Abbreviation producer_of := (producer_of (S := S) (Ev := EvT) (F := F)).

(** ** The state of a producer in service

    [held]: who holds which object, the consumers and, during a delivery, the
    creator. *)
Definition counted (held : gmultiset ptr) (m : gmap ptr (Z * EvT)) : Prop :=
  forall p, match m !! p with
       | Some o => fst o = Z.of_nat (multiplicity p held) /\ p ∈ held
       | None => p ∉ held
       end.
Definition alive (m : gmap ptr (Z * EvT)) : list EvT := map (fun o => snd (snd o)) (map_to_list m).

Record in_service (held : gmultiset ptr) (s : S) : Prop := {
  sv_instance : instance (producer_of s) = true;
  sv_router : router (producer_of s) = true;
  sv_counted : counted held (objects (producer_of s));
  sv_filters : Forall (fun c => is_Some (filters (producer_of s) !! _filter c)) (consumers (producer_of s));
  sv_distinct : NoDup (map _filter (consumers (producer_of s)));
  sv_owns : owns (alive (objects (producer_of s))) s
}.
(** Consumers and filters are untouched. *)
Definition same_consumers (s s' : S) : Prop :=
  consumers (producer_of s') = consumers (producer_of s) /\ filters (producer_of s') = filters (producer_of s).

Lemma alive_insert m p n e : m !! p = None -> alive (<[p := (n, e)]> m) ≡ₚ e :: alive m.
Proof. intros Hp. unfold alive. by rewrite map_to_list_insert. Qed.
Lemma alive_delete m p n e : m !! p = Some (n, e) -> alive m ≡ₚ e :: alive (delete p m).
Proof. intros Hp. rewrite <- (alive_insert _ p n); [|apply lookup_delete_eq]. by rewrite insert_delete_eq, insert_id. Qed.
Lemma alive_update m p n n' e : m !! p = Some (n, e) -> alive (<[p := (n', e)]> m) ≡ₚ alive m.
Proof. intros Hp. rewrite (alive_delete m p n e Hp), <- (alive_insert _ p n'); [|apply lookup_delete_eq]. by rewrite insert_delete_eq. Qed.

(** A change of the objects, with their owner in step. *)
Lemma in_service_objects held held' s s' m :
  in_service held s -> producer_of s' = set_objects m (producer_of s) -> counted held' m -> owns (alive m) s' -> in_service held' s'.
Proof. intros [] Hs Hc Ho. split; rewrite Hs; done. Qed.

(** ** References *)
Lemma object_ok held p s (Q : Z * EvT -> S -> _ -> Prop) W : in_service held s -> p ∈ held ->
  (forall e, objects (producer_of s) !! p = Some (Z.of_nat (multiplicity p held), e) -> Q (Z.of_nat (multiplicity p held), e) s []) ->
  traces (object p) s Q W.
Proof.
  intros Hs Hp HQ. unfold object, producer. traces_step. traces_step. traces_step.
  pose proof (sv_counted _ _ Hs p) as Hc. destruct (objects _ !! p) as [[n e]|]; [|by destruct Hc]. cbn in Hc. destruct Hc as [-> _]. by apply HQ.
Qed.

Lemma addRef_ok held p s W : in_service held s -> p ∈ held ->
  traces (addRef p) s (fun _ s' l => l = [] /\ in_service (held ⊎ {[+ p +]}) s' /\ same_consumers s s') W.
Proof.
  intros Hs Hp. unfold addRef. traces_step. apply (object_ok held); [done..|]. intros e He. unfold set_object, on_producer. traces_step.
  split; [done|]. split; [|split; by rewrite producer_set]. eapply in_service_objects; [done|by rewrite producer_set| |].
  - intros q. rewrite lookup_insert. case_decide as Hq; cbn.
    + subst q. rewrite multiplicity_disj_union, multiplicity_singleton_eq. split; [lia|multiset_solver].
    + pose proof (sv_counted _ _ Hs q) as Hc. destruct (objects _ !! q) as [[n e']|]; [|multiset_solver]. destruct Hc as [-> ?].
      rewrite multiplicity_disj_union, multiplicity_singleton_ne by done. split; [cbn; lia|multiset_solver].
  - apply owns_producer, (owns_perm (alive (objects (producer_of s)))), sv_owns with held; [|done]. by rewrite alive_update.
Qed.

Lemma releaseRef_ok held p s : in_service held s -> p ∈ held ->
  traces (releaseRef p) s (fun _ s' l => l = [] /\ in_service (held ∖ {[+ p +]}) s' /\ same_consumers s s') (fun w _ l => l = [] /\ fails w).
Proof.
  intros Hs Hp. unfold releaseRef. traces_step. apply (object_ok held); [done..|]. intros e He. cbn [fst snd].
  pose proof (proj1 (elem_of_multiplicity _ _) Hp) as Hn.
  assert (Hother : forall q, q <> p -> match objects (producer_of s) !! q with
    | Some o => fst o = Z.of_nat (multiplicity q (held ∖ {[+ p +]})) /\ q ∈ held ∖ {[+ p +]} | None => q ∉ held ∖ {[+ p +]} end).
  { intros q Hq. pose proof (sv_counted _ _ Hs q) as Hc. destruct (objects _ !! q) as [[n e']|]; [|multiset_solver]. destruct Hc as [-> ?].
    rewrite multiplicity_difference, multiplicity_singleton_ne by done. split; [cbn; lia|multiset_solver]. }
  destruct (Z.eqb_spec (Z.of_nat (multiplicity p held) - 1) 0) as [H1|H1].
  - traces_step. eapply traces_mono; [apply (destroy_ok e (alive (delete p (objects (producer_of s)))))| |].
    + eapply owns_perm; [by apply (alive_delete _ p (Z.of_nat (multiplicity p held)))|]. by apply sv_owns with held.
    + intros [] s1 l (-> & Hs1 & Ho). unfold on_producer. traces_step. split; [done|]. split; [|split; rewrite producer_set, Hs1; done].
      eapply (in_service_objects held); [done|rewrite producer_set, Hs1; done| |by apply owns_producer].
      intros q. rewrite lookup_delete. case_decide as Hq; [|by apply Hother]. subst q.
      apply not_elem_of_multiplicity. rewrite multiplicity_difference, multiplicity_singleton_eq. lia.
    + by intros w s' l [-> ?].
  - unfold set_object, on_producer. traces_step. split; [done|]. split; [|split; by rewrite producer_set].
    eapply in_service_objects; [done|by rewrite producer_set| |].
    + intros q. rewrite lookup_insert. case_decide as Hq; [subst q|by apply Hother]. cbn.
      rewrite multiplicity_difference, multiplicity_singleton_eq. split; [lia|]. apply elem_of_multiplicity. rewrite multiplicity_difference, multiplicity_singleton_eq. lia.
    + apply owns_producer, (owns_perm (alive (objects (producer_of s)))), sv_owns with held; [|done]. by rewrite alive_update.
Qed.

(** ** Values that are given back *)
Section adds.
Context (Ok : event E -> Prop) (Hdestroy : forall e, adds Ok (destroy e)).
Lemma adds_releaseRef p : adds Ok (releaseRef p).
Proof. unfold releaseRef, object, set_object, on_producer, producer. grow. apply Hdestroy. Qed.
Lemma adds_given_back l : adds Ok (given_back l).
Proof.
  induction l as [|p l IH]; cbn [given_back]; [apply adds_ret|]. unfold evtProdDoneWithValue, onDoneWithValue, releaseRef, object, set_object, on_producer, producer. grow. apply Hdestroy.
Qed.
Lemma adds_notify_all (Hnotify : forall a b c d p r, Ok (Ev (notify_consumer a b c d p) r)) l p : adds Ok (notify_all env l p).
Proof.
  induction l as [|c l IH]; cbn [notify_all]; [apply adds_ret|].
  unfold addRef, filter_object, object, set_object, on_producer, producer. grow; [apply adds_call; intros ?; apply Hnotify|apply adds_given_back].
Qed.
End adds.
Lemma grows_releaseRef p : grows (releaseRef p).
Proof. apply adds_releaseRef, destroy_grows. Qed.
Lemma grows_given_back l : grows (given_back l).
Proof. apply adds_given_back, destroy_grows. Qed.

(** What the state is in when the marks keep to the contract. *)
Definition then_service (rest : gmultiset ptr) (s s' : S) (o : option (gmultiset ptr)) : Prop :=
  forall led, o = Some led -> in_service (led ⊎ rest) s' /\ same_consumers s s'.

Lemma given_back_ok l led rest s : in_service (led ⊎ rest) s ->
  traces (given_back l) s
    (fun _ s' ms => is_Some (back l led) -> ms = [] /\ then_service rest s s' (back l led))
    (fun w _ ms => is_Some (back l led) -> ms = [] /\ fails w).
Proof.
  revert led s. induction l as [|p l IH]; intros led s Hs; cbn [given_back back].
  - traces_step. intros _. split; [done|]. intros ? [= <-]. by split.
  - destruct (decide (p ∈ led)) as [Hp|Hp].
    2: { eapply adds_traces; [apply (grows_given_back (p :: l))| |]; by intros ? ? ? [? ?]. }
    traces_step. unfold evtProdDoneWithValue, producer. traces_step. traces_step. rewrite (sv_instance _ _ Hs). cbv [when]. traces_step.
    unfold onDoneWithValue. eapply traces_mono; [apply (releaseRef_ok (led ⊎ rest)); [done|multiset_solver]| |].
    + intros [] s1 ms (-> & Hs1 & Hsame). traces_step. cbn [app].
      replace ((led ⊎ rest) ∖ {[+ p +]}) with (led ∖ {[+ p +]} ⊎ rest) in Hs1 by multiset_solver.
      eapply traces_mono; [apply IH, Hs1| |].
      * intros [] s2 ms Hms Hb. destruct (Hms Hb) as [Hnil Hthen]. split; [done|]. intros led' Hled. destruct (Hthen led' Hled) as [? [? ?]].
        destruct Hsame. split; [done|]. split; congruence.
      * intros w s2 ms Hms Hb. by apply Hms.
    + intros w s1 ms (-> & Hw) _. done.
Qed.

(** ** Delivery *)
Lemma filter_object_ok held c s (Q : F -> S -> _ -> Prop) W : in_service held s -> c ∈ consumers (producer_of s) -> (forall f, Q f s []) ->
  traces (filter_object c) s Q W.
Proof.
  intros Hs Hc HQ. unfold filter_object, producer. traces_step. traces_step. traces_step.
  destruct (proj1 (Forall_forall _ _) (sv_filters _ _ Hs) c Hc) as [f ->]. apply HQ.
Qed.

Lemma grows_notify_all l p : grows (notify_all env l p).
Proof. apply adds_notify_all; [apply destroy_grows|done]. Qed.

Lemma notify_all_ok l p led s : in_service (led ⊎ {[+ p +]}) s -> (forall c, c ∈ l -> c ∈ consumers (producer_of s)) ->
  traces (notify_all env l p) s
    (fun _ s' ms => is_Some (ledger ms led) -> then_service {[+ p +]} s s' (ledger ms led))
    (fun w _ ms => is_Some (ledger ms led) -> fails w).
Proof.
  revert led s. induction l as [|c l IH]; intros led s Hs Hl; cbn [notify_all].
  - traces_step. intros _ led' [= <-]. by split.
  - traces_step. eapply traces_mono; [apply (addRef_ok (led ⊎ {[+ p +]}) p s (fun _ _ _ => False)); [done|multiset_solver]| |done].
    intros [] s1 ms (-> & Hs1 & Hsame1). traces_step.
    assert (Hl1 : forall c', c' ∈ c :: l -> c' ∈ consumers (producer_of s1)) by (intros c' Hc'; rewrite (proj1 Hsame1); by apply Hl).
    eapply (filter_object_ok _ c); [exact Hs1|apply Hl1; left|]. intros f. unfold producer. traces_step. traces_step. rewrite (sv_router _ _ Hs1).
    traces_step. traces_step. rewrite delivery_notify. traces_step. rename r into given.
    eapply traces_mono; [apply (given_back_ok given (led ⊎ {[+ p +]}) {[+ p +]}), Hs1| |].
    + intros [] s2 ms Hback. destruct (back given (led ⊎ {[+ p +]})) as [led2|] eqn:Eb.
      * destruct (Hback ltac:(done)) as [Hnil Hthen]. subst ms. destruct (Hthen led2 eq_refl) as [Hs2 Hsame2].
        eapply traces_mono; [apply (IH led2); [exact Hs2|]| |].
        -- intros c' Hc'. rewrite (proj1 Hsame2). apply Hl1. by right.
        -- intros [] s3 ms Hms. cbn [app ledger]. rewrite Eb. cbn. intros Hsome led3 Hled3. destruct (Hms Hsome led3 Hled3) as [? [? ?]].
           destruct Hsame1, Hsame2. split; [done|]. split; congruence.
        -- intros w s3 ms Hms. cbn [app ledger]. rewrite Eb. cbn. exact Hms.
      * eapply adds_traces; [apply grows_notify_all| |]; intros ? ? ?; cbn [app ledger]; rewrite Eb; cbn; by intros [? ?].
    + intros w s2 ms Hback. cbn [app ledger]. destruct (back given (led ⊎ {[+ p +]})) as [led2|] eqn:Eb; cbn; [|by intros [? ?]].
      intros _. by destruct (Hback ltac:(done)).
Qed.

Lemma matching_ok held l e s : in_service held s -> (forall c, c ∈ l -> c ∈ consumers (producer_of s)) ->
  traces (matching l e) s
    (fun r s' ms => ms = [] /\ in_service held s' /\ producer_of s' = producer_of s /\ forall c, c ∈ r -> c ∈ l)
    (fun w _ ms => ms = [] /\ fails w).
Proof.
  revert s. induction l as [|c l IH]; intros s Hs Hl; cbn [matching]; [by traces_step|].
  traces_step. apply (filter_object_ok held); [exact Hs|apply Hl; left|]. intros f. traces_step.
  eapply traces_mono; [apply isMatch_ok, (sv_owns held), Hs| |done]. intros b s1 ms (-> & Hp1 & Ho1).
  assert (Hs1 : in_service held s1) by (destruct Hs; split; rewrite ?Hp1; done).
  traces_step. eapply traces_mono; [apply IH; [done|]| |done].
  - intros c' Hc'. rewrite Hp1. apply Hl. by right.
  - intros r s2 ms (-> & Hs2 & Hp2 & Hr). traces_step. split; [done|]. split; [done|]. split; [congruence|].
    intros c' Hc'. destruct b; [apply elem_of_cons in Hc' as [->|?]; [left|right; auto]|right; auto].
Qed.

Lemma push_ok p led s : in_service (led ⊎ {[+ p +]}) s ->
  traces (push env p) s
    (fun _ s' ms => is_Some (ledger ms led) -> then_service {[+ p +]} s s' (ledger ms led))
    (fun w _ ms => is_Some (ledger ms led) -> fails w).
Proof.
  intros Hs. unfold push, producer. traces_step. traces_step. traces_step.
  eapply (object_ok _ p); [exact Hs|multiset_solver|]. intros e He. traces_step. cbn [snd].
  eapply traces_mono; [apply (matching_ok (led ⊎ {[+ p +]})); [done|done]| |].
  - intros ms s1 l (-> & Hs1 & Hp1 & Hms). eapply traces_mono; [apply (notify_all_ok _ p led); [done|]| |].
    + intros c Hc. rewrite Hp1. by apply Hms.
    + intros [] s2 l Hl Hsome led' Hled. destruct (Hl Hsome led' Hled) as [? [Hc Hf]]. split; [done|]. rewrite Hp1 in Hc, Hf. by split.
    + by intros w s2 l Hl.
  - by intros w s1 l [-> Hw] _.
Qed.

(** ** Sending an event

    The body of [sendEvent] of both producers: the creator lets go of the event after the
    delivery. *)
Definition send (e : EvT) : M E S () := eventValue ← new_object e; push env eventValue ;; releaseRef eventValue.

Lemma send_ok e led s : in_service led s -> owns (e :: alive (objects (producer_of s))) s ->
  traces (send e) s
    (fun _ s' ms => is_Some (ledger ms led) -> then_service ∅ s s' (ledger ms led))
    (fun w _ ms => is_Some (ledger ms led) -> fails w).
Proof.
  intros Hs Ho. unfold send, new_object, producer. traces_step. traces_step. traces_step. traces_step. unfold set_object, on_producer. traces_step.
  traces_step. set (p := fresh (dom (objects (producer_of s)))).
  assert (Hp : objects (producer_of s) !! p = None) by apply not_elem_of_dom, is_fresh.
  set (s1 := set_producer _ s).
  assert (Hs1 : in_service (led ⊎ {[+ p +]}) s1).
  { eapply (in_service_objects led); [exact Hs|by unfold s1; rewrite producer_set| |].
    - intros q. rewrite lookup_insert. case_decide as Hq; cbn.
      + subst q. pose proof (sv_counted _ _ Hs p) as Hc. rewrite Hp in Hc. apply not_elem_of_multiplicity in Hc.
        rewrite multiplicity_disj_union, multiplicity_singleton_eq. split; [lia|multiset_solver].
      + pose proof (sv_counted _ _ Hs q) as Hc. destruct (objects _ !! q) as [[n e']|]; [|multiset_solver]. destruct Hc as [-> ?].
        rewrite multiplicity_disj_union, multiplicity_singleton_ne by done. split; [cbn; lia|multiset_solver].
    - apply owns_producer. eapply owns_perm; [|exact Ho]. by rewrite alive_insert. }
  assert (Hsame : same_consumers s s1) by (split; unfold s1; by rewrite producer_set).
  traces_step. eapply traces_mono; [apply (push_ok p led), Hs1| |intros w s2 l Hl; exact Hl].
  intros [] s2 ms Hms. cbn [app]. destruct (ledger ms led) as [led2|] eqn:El.
  - destruct (Hms ltac:(done) led2 eq_refl) as [Hs2 Hsame2].
    eapply traces_mono; [apply (releaseRef_ok (led2 ⊎ {[+ p +]})); [done|multiset_solver]| |].
    + intros [] s3 l (-> & Hs3 & Hsame3). rewrite app_nil_r, El. intros _ led3 [= <-].
      replace ((led2 ⊎ {[+ p +]}) ∖ {[+ p +]}) with (led2 ⊎ ∅) in Hs3 by multiset_solver. split; [done|].
      destruct Hsame, Hsame2, Hsame3. split; congruence.
    + intros w s3 l (-> & Hw). rewrite app_nil_r. done.
  - eapply adds_traces; [apply grows_releaseRef| |]; intros ? ? ?; rewrite ledger_app, El; cbn; by intros [? ?].
Qed.

(** ** Consumers *)
Lemma producer_unchanged held s s' : in_service held s -> producer_of s' = producer_of s -> owns (alive (objects (producer_of s))) s' -> in_service held s'.
Proof. intros [] Hp Ho. split; rewrite ?Hp; done. Qed.

Lemma onAddFilter_ok held h t fl s : in_service held s ->
  traces (onAddFilter h t fl) s (fun _ s' ms => ms = [] /\ in_service held s') (fun w _ ms => ms = [] /\ fails w).
Proof.
  intros Hs. unfold onAddFilter, producer, on_producer. traces_step.
  eapply traces_mono; [apply newFilter_ok, (sv_owns held), Hs| |done]. intros f s1 ms (-> & Hp1 & Ho1). rewrite <- Hp1 in Ho1.
  assert (Hs1 : in_service held s1) by (eapply producer_unchanged; [exact Hs|done|by rewrite <- Hp1]).
  traces_step. eapply traces_mono; [apply isValid_ok, Ho1| |done]. intros [b f'] s2 ms (-> & Hp2 & Ho2).
  assert (Hs2 : in_service held s2) by by eapply producer_unchanged.
  destruct b; cbn [fst snd].
  - repeat traces_step. split; [done|]. destruct Hs2 as [Hi Hr Hc Hf Hd Ho].
    split; rewrite !producer_set; try done.
    + cbn. apply Forall_app. split.
      * eapply Forall_impl; [exact Hf|]. intros c [f0 Hf0]. cbn. rewrite lookup_insert. case_decide; eauto.
      * constructor; [|done]. cbn. rewrite lookup_insert_eq. eauto.
    + cbn. rewrite map_app. apply NoDup_app. split; [done|]. split; [|repeat constructor; by intros ?%elem_of_nil].
      intros q (c & -> & Hin)%list_elem_of_fmap. cbn. intros Heq%list_elem_of_singleton.
      destruct (proj1 (Forall_forall _ _) Hf c Hin) as [f0 Hf0]. apply (is_fresh (dom (filters (producer_of s2)))). rewrite <- Heq. by apply elem_of_dom_2 in Hf0.
    + by apply owns_producer, owns_producer.
  - traces_step. eapply traces_mono; [apply deleteFilter_ok, Ho2| |done]. intros _ s3 ms (-> & Hp3 & Ho3). traces_step.
    split; [done|]. eapply producer_unchanged; [exact Hs2|done|by rewrite Hp2].
Qed.

Lemma delete_distinct {A B} (g : A -> B) (l : list A) i x : NoDup (map g l) -> l !! i = Some x ->
  NoDup (map g (delete i l)) /\ forall y, y ∈ delete i l -> g y <> g x /\ y ∈ l.
Proof.
  intros Hd Hx. apply list_elem_of_split_length in Hx as (l1 & l2 & -> & ->). rewrite delete_middle. rewrite map_app in Hd. cbn in Hd.
  apply NoDup_app in Hd as (H1 & Hdis & [Hx H2]%NoDup_cons). rewrite map_app. split.
  - apply NoDup_app. split; [done|]. split; [|done]. intros b Hb Hb2. apply (Hdis b Hb). by right.
  - intros y [Hy|Hy]%elem_of_app; (split; [|set_solver]); intros Heq.
    + apply (Hdis (g y)); [by apply list_elem_of_fmap_2|rewrite Heq; left].
    + apply Hx. rewrite <- Heq. by apply list_elem_of_fmap_2.
Qed.

Lemma onRemoveFilter_ok held h t s : in_service held s ->
  traces (onRemoveFilter h t) s (fun _ s' ms => ms = [] /\ in_service held s') (fun w _ ms => ms = [] /\ fails w).
Proof.
  intros Hs. unfold onRemoveFilter, producer, on_producer. repeat traces_step. destruct (list_find _ _) as [[i c]|] eqn:Ef; [|by traces_step].
  apply list_find_Some in Ef as (Hi & _ & _).
  traces_step. apply (filter_object_ok held c); [done|by eapply list_elem_of_lookup_2|]. intros f. traces_step.
  eapply traces_mono; [apply deleteFilter_ok, (sv_owns held), Hs| |done]. intros _ s1 ms (-> & Hp1 & Ho1). traces_step.
  split; [done|]. assert (Hs1 : in_service held s1) by by eapply producer_unchanged.
  destruct Hs1 as [Hin Hr Hc Hf Hd Ho]. rewrite <- Hp1 in Hi.
  destruct (delete_distinct _filter _ _ _ Hd Hi) as [Hd' Hne].
  split; rewrite !producer_set; try done.
  - cbn. apply Forall_forall. intros c' Hc'. destruct (Hne c' Hc') as [Hq Hin']. rewrite lookup_delete_ne by done. by apply (proj1 (Forall_forall _ _) Hf).
  - by apply owns_producer.
Qed.

Lemma onClearAll_ok held s W : in_service held s -> traces onClearAll s (fun _ s' ms => ms = [] /\ in_service held s') W.
Proof.
  intros []. unfold onClearAll, on_producer. traces_step. split; [done|]. split; rewrite ?producer_set; try done; [constructor..|by apply owns_producer].
Qed.

(** ** All that happens to a producer in service *)
Inductive producer_op :=
| ConsumerAdds (handle : Z) (eventType : string) (filter : option Pairs)
| ConsumerRemoves (handle : Z) (eventType : string)
| ConsumersCleared
| GivesBack (value : ptr)
| Sends (e : EvT).

Definition exec_op (o : producer_op) : M E S () :=
  match o with
  | ConsumerAdds h t f => r ← evtProdAddFilter h t f; mret ()
  | ConsumerRemoves h t => r ← evtProdRemoveFilter h t; mret ()
  | ConsumersCleared => r ← evtProdClearAll; mret ()
  | GivesBack p => r ← evtProdDoneWithValue p; mret ()
  | Sends e => send e
  end.

(** A value is given back only while it is lent, and an event is sent with all that belongs to
    it. *)
Definition legal (led : gmultiset ptr) (s : S) (o : producer_op) : Prop :=
  match o with
  | GivesBack p => p ∈ led
  | Sends e => owns (e :: alive (objects (producer_of s))) s
  | _ => True
  end.
Definition ledger_op (o : producer_op) (ms : list (ptr * list ptr)) (led : gmultiset ptr) : option (gmultiset ptr) :=
  match o with GivesBack p => Some (led ∖ {[+ p +]}) | _ => ledger ms led end.

Lemma op_ok o led s : in_service led s -> legal led s o ->
  traces (exec_op o) s
    (fun _ s' ms => forall led', ledger_op o ms led = Some led' -> in_service led' s')
    (fun w _ ms => is_Some (ledger_op o ms led) -> fails w).
Proof.
  intros Hs Hl. pose proof (sv_instance _ _ Hs) as Hi.
  assert (Hdone : forall R (m : M E S R), traces m s (fun _ s' ms => ms = [] /\ in_service led s') (fun w _ ms => ms = [] /\ fails w) ->
    traces (r ← m; mret ()) s (fun _ s' ms => forall led', ledger ms led = Some led' -> in_service led' s') (fun w _ ms => is_Some (ledger ms led) -> fails w)).
  { intros R m Hm. traces_step. eapply traces_mono; [apply Hm| |by intros w s1 ms [-> ?] _]. intros r s1 ms [-> Hs1]. traces_step. by intros led' [= <-]. }
  destruct o as [h t f|h t| |p|e]; cbn [exec_op ledger_op] in *.
  - apply Hdone. unfold evtProdAddFilter, producer. repeat traces_step. rewrite Hi. traces_step.
    eapply traces_mono; [by apply (onAddFilter_ok led)| |done]. intros b s1 ms [-> Hs1]. by traces_step.
  - apply Hdone. unfold evtProdRemoveFilter, producer. repeat traces_step. rewrite Hi. cbv [when].
    eapply traces_mono; [by apply (onRemoveFilter_ok led)| |done]. intros _ s1 ms [-> Hs1]. by traces_step.
  - apply Hdone. unfold evtProdClearAll, producer. repeat traces_step. rewrite Hi. cbv [when].
    eapply traces_mono; [by apply (onClearAll_ok led s (fun w _ ms => ms = [] /\ fails w))| |done]. intros _ s1 ms [-> Hs1]. by traces_step.
  - unfold evtProdDoneWithValue, producer, onDoneWithValue. repeat traces_step. rewrite Hi. cbv [when].
    eapply traces_mono; [by apply (releaseRef_ok led)| |by intros w s1 ms [-> ?] _]. intros _ s1 ms (-> & Hs1 & _). repeat traces_step.
    by intros led' [= <-].
  - eapply traces_mono; [by apply (send_ok e led)| |done]. intros [] s1 ms Hms led' Hled. rewrite Hled in Hms.
    destruct (Hms ltac:(done) led' eq_refl) as [Hs1 _]. by rewrite (right_id_L ∅ _) in Hs1.
Qed.
End facts.
