(* ===== verification/CmMemory.v ===== *)
(** * Events of the configuration: ownership of memory

    Which blocks the values, the events and the cache own, and a small logic of
    ownership: [moves m P pre post] says that [m], given the blocks [pre] (all different, all
    in use), returns, with a result that satisfies [P] and owns the blocks
    [post], and leaves every other block alone.  Leaks are allowed: blocks may be
    forgotten, never freed twice or used after they are freed. *)
From Stdlib Require Import ZArith Lia.
From stdpp Require Import base gmap gmultiset list strings.
From S2P Require Import Prelude Marks Codes CmTypes NtfData StdMap EventProducer EventProducerFacts CmData CmProducer.

Open Scope Z_scope.

(** ** Blocks of values *)

(** Induction over a container, the values in it and the members of structs. *)
Section ind.
Context {P : Type} (Pb : AvcBody P -> Prop) (Pv : MafMoAttributeValue_3T P -> Prop) (Pm : StructMember P -> Prop).
Context (Hb : forall t v l, Forall Pv l -> Pb (MkAvc t v l)) (Hn : forall z, Pv (Number z)) (Ht : forall o, Pv (TextAt o))
  (Hms : forall l, Forall Pm l -> Pv (Members l)) (Hm : forall sm n, Pm (MkMember sm n None))
  (Hs : forall sm n p b, Pb b -> Pm (MkMember sm n (Some (p, b)))).

Fixpoint avc_ind (b : AvcBody P) : Pb b :=
  match b with
  | MkAvc t v l =>
      Hb t v l ((fix values (l : list (MafMoAttributeValue_3T P)) : Forall Pv l :=
        match l with
        | [] => Forall_nil_2 _
        | x :: l =>
            Forall_cons_2 _ x l
              match x with
              | Number z => Hn z
              | TextAt o => Ht o
              | Members ms =>
                  Hms ms ((fix members (ms : list (StructMember P)) : Forall Pm ms :=
                    match ms with
                    | [] => Forall_nil_2 _
                    | m :: ms =>
                        Forall_cons_2 _ m ms
                          match m with
                          | MkMember sm n None => Hm sm n
                          | MkMember sm n (Some (p, b)) => Hs sm n p b (avc_ind b)
                          end
                          (members ms)
                    end) ms)
              end
              (values l)
        end) l)
  end.
End ind.

Definition is_text_type (t : Z) : bool := (t =? MafOamSpiMoAttributeType_3_STRING) || (t =? MafOamSpiMoAttributeType_3_REFERENCE).
Definition text_block (v : MafMoAttributeValue_3T ptr) : list ptr := match v with TextAt (Some t) => [t.1] | _ => [] end.

(** What [freeAVC] frees, in its order. *)
Fixpoint avc_blocks (b : AvcBody ptr) : list ptr :=
  match b with
  | MkAvc type values elems =>
      (elems ≫= fun v =>
        if is_text_type type then text_block v
        else if type =? MafOamSpiMoAttributeType_3_STRUCT then
          match v with
          | Members ms => ms ≫= fun m =>
              match m with
              | MkMember sm name value => name.1 :: (match value with Some a => avc_blocks a.2 ++ [a.1] | None => [] end) ++ [sm]
              end
          | _ => []
          end
        else []) ++ (match elems, values with _ :: _, Some p => [p] | _, _ => [] end)
  end.

(** The values are of the type of the container, and an array is there when there are
    values. *)
Definition all_of {X} (f : X -> Prop) : list X -> Prop :=
  fix all (l : list X) : Prop := match l with [] => True | x :: l => f x /\ all l end.
Definition is_text {P} (v : MafMoAttributeValue_3T P) : Prop := match v with TextAt (Some _) => True | _ => False end.
Fixpoint avc_ok {P} (b : AvcBody P) : Prop :=
  match b with
  | MkAvc type values elems =>
      (elems = [] \/ is_Some values) /\
      all_of (fun v =>
        if is_text_type type then is_text v
        else if type =? MafOamSpiMoAttributeType_3_STRUCT then
          match v with
          | Members ms => all_of (fun m => match m with MkMember _ _ value => match value with Some a => avc_ok a.2 | None => True end end) ms
          | _ => False
          end
        else True) elems
  end.

(** A container and what it owns. *)
Definition owned_avc (a : Avc) : list ptr := a.1 :: avc_blocks a.2.
Definition owned_opt (o : option Avc) : list ptr := match o with Some a => owned_avc a | None => [] end.

(** A struct reference: the texts are the names of the referred objects. *)
Definition ref_ok (b : AvcBody ptr) : Prop :=
  avc_type b = MafOamSpiMoAttributeType_3_STRUCT /\ Forall is_text (avc_elems b).
Definition ref_blocks (b : AvcBody ptr) : list ptr := (avc_elems b ≫= text_block) ++ option_list (avc_values b).
Definition owned_ref (o : option Avc) : list ptr := match o with Some a => a.1 :: ref_blocks a.2 | None => [] end.

Definition attribute_blocks (a : NamedAvc) : list ptr := (na_name a).1 :: avc_blocks (na_value a) ++ [na_addr a].
Definition event_blocks (e : CmEvent) : list ptr :=
  option_list (fst <$> ev_dn e) ++ (ev_attributes e ≫= attribute_blocks) ++ [ev_attrs_addr e; ev_addr e].
Definition notification_blocks (n : CmNotification) : list ptr := (events n ≫= event_blocks) ++ [events_addr n].
Definition notification_ok (n : CmNotification) : Prop :=
  Forall (fun e => is_Some (ev_dn e) /\ Forall (fun a => avc_ok (na_value a)) (ev_attributes e)) (events n).

(** ** Owned blocks *)
Definition owned (l : list ptr) (s : Cm) : Prop := NoDup l /\ forall p, p ∈ l -> p ∈ live s.

Lemma owned_sub l l' s : l' ⊆+ l -> owned l s -> owned l' s.
Proof. intros Hs [Hd Hl]. split.
  { apply submseteq_Permutation in Hs as [k Hk]. rewrite Hk in Hd. by apply NoDup_app in Hd as [? _]. }
  intros p Hp. apply Hl. by eapply elem_of_submseteq. Qed.
Lemma owned_perm l l' s : l ≡ₚ l' -> owned l s -> owned l' s.
Proof. intros Hp. apply owned_sub. by rewrite Hp. Qed.

(** Lists of blocks are compared by how often a block is in them. *)
Abbreviation bag := (list_to_set_disj (C := gmultiset ptr)).
Definition times (p : ptr) (l : list ptr) : nat := multiplicity p (bag l).
Lemma times_nil p : times p [] = 0%nat.
Proof. apply multiplicity_empty. Qed.
Lemma times_cons p q l : times p (q :: l) = (times p [q] + times p l)%nat.
Proof. unfold times. by rewrite !list_to_set_disj_cons, list_to_set_disj_nil, !multiplicity_disj_union, multiplicity_empty, Nat.add_0_r. Qed.
Lemma times_app p l k : times p (l ++ k) = (times p l + times p k)%nat.
Proof. unfold times. by rewrite list_to_set_disj_app, multiplicity_disj_union. Qed.

Lemma elements_bag l : elements (bag l) ≡ₚ l.
Proof. induction l as [|p l IH]; [by rewrite list_to_set_disj_nil, gmultiset_elements_empty|]. by rewrite list_to_set_disj_cons, gmultiset_elements_disj_union, gmultiset_elements_singleton, IH. Qed.
Lemma sub_times l k : (forall p, times p l <= times p k)%nat -> l ⊆+ k.
Proof. intros Hs. rewrite <- (elements_bag l), <- (elements_bag k). by apply gmultiset_elements_submseteq. Qed.
Lemma perm_times l k : (forall p, times p l = times p k) -> l ≡ₚ k.
Proof. intros Hs%gmultiset_eq. by rewrite <- (elements_bag l), Hs, elements_bag. Qed.
Lemma times_perm p l k : l ≡ₚ k -> times p l = times p k.
Proof. unfold times. by intros ->. Qed.
Lemma times_sub p l k : l ⊆+ k -> (times p l <= times p k)%nat.
Proof. intros [m Hm]%submseteq_Permutation. rewrite (times_perm p _ _ Hm), times_app. lia. Qed.

Lemma times_bind {X} p (f : X -> list ptr) x l : times p ((x :: l) ≫= f) = (times p (f x) + times p (l ≫= f))%nat.
Proof. apply times_app. Qed.

Ltac blocks :=
  fold (@app ptr) in *; unfold owned_avc, owned_opt, StdMap in *; change_no_check (option_list (Some ?q)) with [q] in *;
  first [apply perm_times | apply sub_times];
  let p := fresh in intros p;
  repeat match goal with
    | H : @Permutation ptr _ _ |- _ => apply (times_perm p) in H
    | H : @submseteq ptr _ _ |- _ => apply (times_sub p) in H
    end;
  repeat match goal with
    | H : context [times p (_ ++ _)] |- _ => rewrite times_app in H
    | H : context [times p (_ :: ?l)] |- _ => lazymatch l with [] => fail | _ => rewrite times_cons in H end
    | H : context [times p []] |- _ => rewrite times_nil in H
    | |- context [_ <$> (_ :: _)] => rewrite fmap_cons
    | |- context [times p ((_ :: _) ≫= _)] => rewrite times_bind
    | |- context [times p (_ ++ _)] => rewrite times_app
    | |- context [times p (?q :: ?l)] => lazymatch l with [] => fail | _ => rewrite (times_cons p q l) end
    | |- context [times p []] => rewrite times_nil
    end;
  lia.

(** The history of deliveries. *)
Definition delivery (e : event ntfE) : option (ptr * list ptr) :=
  match e with Ev (notify_cm _ _ _ _ p) l => Some (p, l) | _ => None end.
Abbreviation traces := (traces delivery).

(** Calls that only the call-back itself makes, around a conversion: the lock, and giving a
    notification back.  Everything else is [tame]. *)
Inductive bracket := Locks (m : Mutex) | GivesNotificationBack (handle : Z) | Unlocks (m : Mutex).
Definition bracket_of (e : event ntfE) : option bracket :=
  match e with
  | Ev (mutex_lock m) _ => Some (Locks m)
  | Ev (mutex_unlock m) _ => Some (Unlocks m)
  | Ev (saNtfNotificationFree handle) _ => Some (GivesNotificationBack handle)
  | _ => None
  end.
Abbreviation tame := (adds (fun e : event ntfE => bracket_of e = None)).

Definition memory_left (env : environment ntfE) : Prop := forall tr, env bool tr malloc = true.

Section moves.
Context (h : CmEventHandler).

(** The handler does not discard. *)
Definition calm_handler (s : Cm) : Prop := cmEventHandler s = Some h /\ _notificationCacheInDiscardMode h = false.

Definition moves {A} (m : C A) (P : A -> Prop) (pre : list ptr) (post : A -> list ptr) : Prop :=
  forall R s, calm_handler s -> owned (pre ++ R) s ->
  traces m s (fun a s' l => l = [] /\ (exists L, s' = set_live L s) /\ P a /\ owned (post a ++ R) s') (fun _ _ _ => False).

Lemma moves_ret {A} (a : A) (P : A -> Prop) pre post : P a -> post a ⊆+ pre -> moves (mret a) P pre post.
Proof.
  intros HP Hs R s _ Ho. apply traces_ret. split; [done|]. split; [exists (live s); by destruct s|]. split; [done|].
  eapply owned_sub; [|exact Ho]. by apply submseteq_app.
Qed.

Lemma moves_bind {A B} (m : C A) (k : A -> C B) P Q pre mid post :
  moves m P pre mid -> (forall a, P a -> moves (k a) Q (mid a) post) -> moves (m ≫= k) Q pre post.
Proof.
  intros Hm Hk R s Hc Ho. apply traces_bind. eapply traces_mono; [by apply (Hm R)| |done].
  intros a s1 l (-> & [L ->] & HP & Ho1). eapply traces_mono; [by apply (Hk a HP R)| |done].
  intros b s2 l (-> & [L' ->] & HQ & Ho2). split; [done|]. split; [by exists L'|done].
Qed.

Lemma moves_frame {A} (m : C A) P pre post F : moves m P pre post -> moves m P (pre ++ F) (fun a => post a ++ F).
Proof.
  intros Hm R s Hc Ho. rewrite <- app_assoc in Ho. eapply traces_mono; [by apply (Hm (F ++ R))| |done].
  intros a s' l (? & ? & ? & ?). by rewrite <- app_assoc.
Qed.

Lemma moves_weaken {A} (m : C A) (P Q : A -> Prop) pre pre' post post' :
  moves m P pre post -> pre ⊆+ pre' -> (forall a, P a -> Q a /\ post' a ⊆+ post a) -> moves m Q pre' post'.
Proof.
  intros Hm Hpre Hpost R s Hc Ho. eapply traces_mono; [apply (Hm R); [done|]| |done].
  - eapply owned_sub; [|exact Ho]. by apply submseteq_app.
  - intros a s' l (? & ? & HP & Ho'). destruct (Hpost a HP) as [HQ Hs]. do 3 (split; [done|]). eapply owned_sub; [|exact Ho']. by apply submseteq_app.
Qed.

Lemma moves_pure {A B} (x : A) (k : A -> C B) Q pre post : moves (k x) Q pre post -> moves (mret x ≫= k) Q pre post.
Proof.
  intros Hk. apply (moves_bind _ _ (fun a => a = x) _ _ (fun _ => pre)); [by apply moves_ret|]. by intros a ->.
Qed.

(** A part that uses the blocks [pre] only. *)
Lemma moves_part {A B} (m : C A) (k : A -> C B) P Q pre mid all F post :
  moves m P pre mid -> all ≡ₚ pre ++ F -> (forall a, P a -> moves (k a) Q (mid a ++ F) post) -> moves (m ≫= k) Q all post.
Proof.
  intros Hm Hall Hk. eapply moves_weaken; [|by rewrite Hall|by intros b Hb; split; [exact Hb|reflexivity]].
  eapply moves_bind; [apply moves_frame, Hm|exact Hk].
Qed.

Lemma moves_block env : memory_left env -> moves (block env) (fun _ => True) [] (fun p => [p]).
Proof.
  intros Hm R s _ [Hd Hl] tr. cbn in Hd, Hl. unfold block, call, add_live, modify, mbind, M_bind. cbn -[fresh]. rewrite Hm. cbn -[fresh].
  exists [Ev malloc true]. cbn -[fresh]. repeat split; [eexists; reflexivity|constructor|].
  - intros Hin. apply (is_fresh (live s)), Hl, Hin.
  - done.
  - intros p [->|Hp]%elem_of_cons; set_solver.
Qed.

Lemma moves_touch p : moves (touch p) (fun _ => True) [p] (fun _ => [p]).
Proof.
  intros R s _ [Hd Hl]. unfold touch. apply traces_bind, traces_get. rewrite bool_decide_true by (apply Hl; left). apply traces_ret.
  split; [done|]. split; [exists (live s); by destruct s|done].
Qed.
Lemma moves_free p : moves (free p) (fun _ => True) [p] (fun _ => []).
Proof.
  intros R s _ [Hd Hl]. unfold free, touch. apply traces_bind, traces_bind, traces_get. rewrite bool_decide_true by (apply Hl; left). apply traces_ret, traces_modify.
  split; [done|]. split; [eexists; reflexivity|]. split; [done|]. apply NoDup_cons in Hd as [Hp Hd].
  split; [done|]. cbn. intros q Hq. apply elem_of_difference. split; [apply Hl; by right|]. intros ->%elem_of_singleton. done.
Qed.
Lemma moves_free_opt o : moves (free_opt o) (fun _ => True) (option_list o) (fun _ => []).
Proof. destruct o as [p|]; [apply moves_free|by apply moves_ret]. Qed.
Lemma moves_text env t : memory_left env -> moves (text env t) (fun r => r.2 = t) [] (fun r => [r.1]).
Proof. intros Hm. unfold text. eapply moves_bind; [by apply moves_block|]. intros p _. by apply moves_ret. Qed.
Lemma moves_discard : moves isNotificationCacheInDiscardMode (fun b => b = false) [] (fun _ => []).
Proof.
  intros R s [Hh Hd] Ho. unfold isNotificationCacheInDiscardMode. apply traces_bind, traces_get. rewrite Hh. apply traces_ret.
  split; [done|]. split; [exists (live s); by destruct s|done].
Qed.
Lemma moves_getTime env : moves (getTime env) (fun _ => True) [] (fun _ => []).
Proof. intros R s _ Ho. unfold getTime. apply traces_bind, traces_call. intros r. apply traces_ret. split; [done|]. split; [exists (live s); by destruct s|done]. Qed.

(** ** Freeing *)
Lemma moves_for_each {X} (f : X -> C ()) (g : X -> list ptr) l :
  Forall (fun x => moves (f x) (fun _ => True) (g x) (fun _ => [])) l -> moves (for_each f l) (fun _ => True) (l ≫= g) (fun _ => []).
Proof.
  induction 1 as [|x l Hx _ IH]; cbn; [by apply moves_ret|]. eapply (moves_part _ _ _ _ (g x)); [exact Hx|reflexivity|]. intros [] _. exact IH.
Qed.

Lemma moves_free_text v : is_text v -> moves (free_pointer v) (fun _ => True) (text_block v) (fun _ => []).
Proof. destruct v as [| [t|]|]; [done| |done..]. intros _. apply (moves_free t.1). Qed.

Lemma moves_freeAVC b : avc_ok b -> moves (freeAVC b) (fun _ => True) (avc_blocks b) (fun _ => []).
Proof.
  revert b.
  apply (avc_ind (fun b => avc_ok b -> moves (freeAVC b) (fun _ => True) (avc_blocks b) (fun _ => []))
    (fun v => forall ms, v = Members ms -> all_of (fun m => match m with MkMember _ _ value => match value with Some a => avc_ok a.2 | None => True end end) ms ->
       Forall (fun m => moves (match m with MkMember sm memberName memberValue =>
                    free memberName.1 ;; (match memberValue with Some a => freeAVC a.2 ;; free a.1 | None => mret () end : C ()) ;; free sm end) (fun _ => True)
          (match m with MkMember sm name value => name.1 :: (match value with Some a => avc_blocks a.2 ++ [a.1] | None => [] end) ++ [sm] end) (fun _ => [])) ms)
    (fun m => match m with MkMember _ _ value => match value with Some a => avc_ok a.2 | None => True end end ->
       moves (match m with MkMember sm memberName memberValue =>
                    free memberName.1 ;; (match memberValue with Some a => freeAVC a.2 ;; free a.1 | None => mret () end : C ()) ;; free sm end) (fun _ => True)
          (match m with MkMember sm name value => name.1 :: (match value with Some a => avc_blocks a.2 ++ [a.1] | None => [] end) ++ [sm] end) (fun _ => []))).
  - intros t vs l Hl [Hv Hall]. cbn [freeAVC avc_blocks].
    set (fv := fun v : MafMoAttributeValue_3T ptr => _ : C ()). set (bv := fun v : MafMoAttributeValue_3T ptr => _ : list ptr).
    assert (Hloop : moves (for_each fv l) (fun _ => True) (l ≫= bv) (fun _ => [])).
    { apply moves_for_each. clear Hv. induction Hl as [|v l Hvl _ IH]; [constructor|]. destruct Hall as [Hok Hall]. constructor; [|by apply IH].
      subst fv bv. cbn beta. unfold is_text_type in *. destruct (_ || _); [by apply moves_free_text|]. destruct (_ =? _); [|by apply moves_ret].
      destruct v as [| |ms]; [done..|]. apply moves_for_each. by apply Hvl. }
    destruct l as [|v l]; [cbn [length Nat.leb when]|].
    + apply (moves_bind _ _ (fun _ => True) _ _ (fun _ => [])); [by apply moves_ret|]. intros [] _. apply (moves_bind _ _ (fun _ => True) _ _ (fun _ => [])); [exact Hloop|]. intros [] _. by apply moves_ret.
    + destruct Hv as [?|[p ->]]; [done|]. cbn [length Nat.leb when]. 
      eapply (moves_part _ _ (fun _ => True) _ [p] (fun _ => [p])); [eapply moves_bind; [by apply (moves_ret p (fun q => q = p) [p] (fun _ => [p]))|intros q ->; apply moves_touch]|by rewrite (comm (++) _ [p])|].
      intros [] _. eapply (moves_part _ _ _ _ ((v :: l) ≫= bv)); [exact Hloop|by rewrite (comm (++))|]. intros [] _. cbn [app]. apply (moves_free p).
  - intros z ms. done.
  - intros o ms. done.
  - intros l Hl ms [= <-] Hall. induction Hl as [|m l Hm _ IH]; [constructor|]. destruct Hall as [Hok Hall]. constructor; [by apply Hm|by apply IH].
  - intros sm n _. eapply (moves_part _ _ _ _ [n.1]); [apply moves_free|cbn; reflexivity|]. intros [] _. cbn.
    eapply (moves_part _ _ (fun _ => True) _ [] (fun _ => [])); [by apply moves_ret|cbn; reflexivity|]. intros [] _. apply moves_free.
  - intros sm n p b Hb Hok. eapply (moves_part _ _ _ _ [n.1]); [apply moves_free|cbn; reflexivity|]. intros [] _. cbn.
    eapply (moves_part _ _ (fun _ => True) _ (avc_blocks b ++ [p]) (fun _ => [])); [|reflexivity|].
    + eapply (moves_part _ _ _ _ (avc_blocks b)); [by apply Hb|reflexivity|]. intros [] _. apply moves_free.
    + intros [] _. apply moves_free.
Qed.
End moves.
