(* ===== verification/CmProducerFacts.v ===== *)
(** * Events of the configuration: the producer keeps to the laws

    The events of the configuration and the filters of their consumers are a
    kind of events in the sense of [EventProducerFacts]: the destructor of an event frees
    what the event owns, and the filters touch nothing but the subscription. *)
From Stdlib Require Import ZArith Lia.
From stdpp Require Import base gmap gmultiset list strings.
From S2P Require Import Prelude Marks Codes CmTypes NtfData StdMap EventProducer EventProducerFacts CmData CmProducer CmMemory.

Open Scope Z_scope.

#[export] Instance cm_lens : ProducerLens Cm CmNotification RegexpFilter.
Proof. split. by intros p []. Qed.

(** ** What the filters leave alone *)
Definition core (s : Cm) := (live s, cmNotificationCache s, cmEventHandler s, _cmEventProducer s, _eventProducer s, s_theCmEventProducer s).

Definition keeps {A} (m : C A) : Prop :=
  forall s, s_theCmEventProducer s = true -> traces m s (fun _ s' l => l = [] /\ core s' = core s) (fun w _ l => l = [] /\ w = Aborted).

Section keeps.
Lemma keeps_ret {A} (a : A) : keeps (mret a).
Proof. intros s _. by apply traces_ret. Qed.
Lemma keeps_bind {A B} (m : C A) (k : A -> C B) : keeps m -> (forall a, keeps (k a)) -> keeps (m ≫= k).
Proof.
  intros Hm Hk s Ht. apply traces_bind. eapply traces_mono; [by apply Hm| |done]. intros a s1 l [-> Hs1].
  assert (s_theCmEventProducer s1 = true) by (by injection Hs1 as _ _ _ _ _ ->).
  eapply traces_mono; [by apply Hk| |done]. intros b s2 l [-> Hs2]. split; [done|congruence].
Qed.
Lemma keeps_get : keeps get.
Proof. intros s _. by apply traces_get. Qed.
Lemma keeps_modify g : (forall s, core (g s) = core s) -> keeps (modify g).
Proof. intros Hg s _. by apply traces_modify. Qed.
Lemma keeps_call env {R} (e : ntfE R) : (forall r, delivery (Ev e r) = None) -> keeps (call env e).
Proof. intros He s _. apply traces_call. intros r. by rewrite He. Qed.
Lemma keeps_abort {A} : keeps (exit Aborted : C A).
Proof. intros s _. by apply traces_exit. Qed.
Lemma keeps_of_option {A} (o : option A) : keeps (of_option Aborted o).
Proof. destruct o; [apply keeps_ret|apply keeps_abort]. Qed.
End keeps.

Create HintDb keep discriminated.
Ltac keep :=
  repeat first
    [ solve [auto 1 with keep] | apply keeps_bind; [|intros ?] | apply keeps_ret | apply keeps_get | apply keeps_modify; intros ?; reflexivity
    | apply keeps_call; intros ?; reflexivity | apply keeps_of_option | apply keeps_abort | assumption
    | match goal with |- keeps (match ?x with _ => _ end) => destruct x end | progress cbv zeta ].

Section producer.
Context (env : environment ntfE).

Lemma keeps_free_filters hs : keeps (free_filters env hs).
Proof. unfold free_filters. keep. Qed.
#[local] Hint Resolve keeps_free_filters : keep.
Lemma keeps_subscribe : keeps (subscribeFor_CM_Notifications env).
Proof. unfold subscribeFor_CM_Notifications. keep. Qed.
#[local] Hint Resolve keeps_subscribe : keep.

Lemma keeps_new fl : keeps (RegexpFilter_new env fl).
Proof.
  intros s Ht. unfold RegexpFilter_new. apply traces_bind, traces_get. apply traces_bind, traces_when.
  - intros _. rewrite Ht. cbn [negb when]. apply traces_bind, traces_ret. apply traces_bind.
    eapply traces_mono; [by apply keeps_subscribe| |done]. intros rc s1 l [-> Hs1]. apply traces_modify, traces_ret. by rewrite <- Hs1.
  - intros _. by apply traces_ret.
Qed.
#[local] Hint Resolve keeps_new : keep.
Lemma keeps_compile ps done : keeps (compile env ps done).
Proof. revert done. induction ps as [|[[n|] [v|]] ps IH]; intros done; cbn [compile]; keep. Qed.
#[local] Hint Resolve keeps_compile : keep.
Lemma keeps_isValid f : keeps (RegexpFilter_isValid env f).
Proof. unfold RegexpFilter_isValid. keep. Qed.
#[local] Hint Resolve keeps_isValid : keep.
Lemma keeps_any_dn p dns : keeps (any_dn env p dns).
Proof. induction dns as [|dn dns IH]; cbn [any_dn]; keep. Qed.
#[local] Hint Resolve keeps_any_dn : keep.
Lemma keeps_any_pattern ps dns : keeps (any_pattern env ps dns).
Proof. induction ps as [|p ps IH]; cbn [any_pattern]; keep. Qed.
#[local] Hint Resolve keeps_any_pattern : keep.
Lemma keeps_dn_list l : keeps (dn_list l).
Proof. induction l as [|e l IH]; cbn [dn_list]; keep. Qed.
#[local] Hint Resolve keeps_dn_list : keep.
Lemma keeps_isMatch f n : keeps (RegexpFilter_isMatch env f n).
Proof. unfold RegexpFilter_isMatch. keep. Qed.
#[local] Hint Resolve keeps_isMatch : keep.

(** ** Freeing events *)
Lemma tame_touch p : tame (touch p).
Proof. unfold touch. grow. Qed.
Lemma tame_free p : tame (free p).
Proof. unfold free, touch. grow. Qed.
Lemma tame_free_opt o : tame (free_opt o).
Proof. destruct o; [apply tame_free|apply adds_ret]. Qed.
Lemma tame_for_each {X} (f : X -> C ()) l : Forall (fun x => tame (f x)) l -> tame (for_each f l).
Proof. induction 1; cbn; grow. Qed.
Lemma tame_freeAVC b : tame (freeAVC b).
Proof.
  revert b.
  apply (avc_ind (fun b => tame (freeAVC b)) (fun v => forall ms, v = Members ms -> Forall (fun m => tame
     (match m with MkMember sm memberName memberValue =>
        free memberName.1 ;; (match memberValue with Some a => freeAVC a.2 ;; free a.1 | None => mret () end : C ()) ;; free sm end)) ms)
    (fun m => tame (match m with MkMember sm memberName memberValue =>
        free memberName.1 ;; (match memberValue with Some a => freeAVC a.2 ;; free a.1 | None => mret () end : C ()) ;; free sm end))).
  - intros t vs l Hl. cbn [freeAVC]. apply adds_bind; [unfold touch; grow|]. intros _.
    apply adds_bind; [|intros _; apply adds_when, tame_free_opt]. apply tame_for_each. eapply Forall_impl; [exact Hl|]. intros v Hv. cbn beta.
    destruct (_ || _); [unfold free_pointer; apply adds_bind; [apply adds_of_option|intros ?; apply tame_free_opt]|]. destruct (_ =? _); [|apply adds_ret].
    destruct v as [[]| [|]|ms]; try apply adds_ret; try apply adds_exit. apply tame_for_each. by apply Hv.
  - done.
  - done.
  - by intros l Hl ms [= <-].
  - intros sm n. apply adds_bind; [apply tame_free|]. intros _. apply adds_bind; [apply adds_ret|]. intros _. apply tame_free.
  - intros sm n p b Hb. cbn. apply adds_bind; [apply tame_free|]. intros _. apply adds_bind; [apply adds_bind; [done|intros _; apply tame_free]|]. intros _. apply tame_free.
Qed.
Lemma tame_freeCmEvents n : tame (freeCmEvents n).
Proof.
  unfold freeCmEvents. apply adds_bind; [|intros _; apply tame_free]. apply tame_for_each, Forall_forall. intros e _. unfold free_CmEvent.
  apply adds_bind; [apply tame_free_opt|]. intros _. apply adds_bind; [|intros _; apply adds_bind; intros; apply tame_free].
  apply tame_for_each, Forall_forall. intros a _. unfold free_attribute. apply adds_bind; [apply tame_free|]. intros _.
  apply adds_bind; [apply tame_freeAVC|intros _; apply tame_free].
Qed.

Context (h : CmEventHandler).

Lemma moves_free_attribute a : avc_ok (na_value a) -> moves h (free_attribute a) (fun _ => True) (attribute_blocks a) (fun _ => []).
Proof.
  intros Hok. unfold free_attribute, attribute_blocks. eapply (moves_part _ _ _ _ _ [_]); [apply moves_free|cbn; reflexivity|]. intros [] _. cbn [app].
  eapply (moves_part _ _ _ _ _ (avc_blocks (na_value a))); [by apply moves_freeAVC|reflexivity|]. intros [] _. apply moves_free.
Qed.
Lemma moves_free_CmEvent e : Forall (fun a => avc_ok (na_value a)) (ev_attributes e) -> moves h (free_CmEvent e) (fun _ => True) (event_blocks e) (fun _ => []).
Proof.
  intros Hok. unfold free_CmEvent, event_blocks. eapply (moves_part _ _ _ _ _ (option_list _)); [apply moves_free_opt|reflexivity|]. intros [] _. cbn [app].
  eapply (moves_part _ _ _ _ _ (_ ≫= _)); [apply (moves_for_each _ _ attribute_blocks)|reflexivity|].
  { eapply Forall_impl; [exact Hok|]. intros a. apply moves_free_attribute. }
  intros [] _. cbn [app]. eapply (moves_part _ _ _ _ _ [_]); [apply moves_free|cbn; reflexivity|]. intros [] _. apply moves_free.
Qed.
Lemma moves_freeCmEvents n : notification_ok n -> moves h (freeCmEvents n) (fun _ => True) (notification_blocks n) (fun _ => []).
Proof.
  intros Hok. unfold freeCmEvents, notification_blocks. eapply (moves_part _ _ _ _ _ (_ ≫= _)); [apply (moves_for_each _ _ event_blocks)|reflexivity|].
  { eapply Forall_impl; [exact Hok|]. intros e [_ He]. by apply moves_free_CmEvent. }
  intros [] _. apply moves_free.
Qed.

(** ** The laws

    [cm_owns c R es s]: the state has the cache [c], which owns the blocks [R],
    and the events [es] own theirs. *)
Definition cm_owns (c : option CmNotificationCache) (R : list ptr) (es : list CmNotification) (s : Cm) : Prop :=
  calm_handler h s /\ cmNotificationCache s = c /\ _cmEventProducer s = true /\ s_theCmEventProducer s = true /\
  owned ((es ≫= notification_blocks) ++ R) s /\ Forall notification_ok es.

Lemma cm_owns_core c R es s s' : core s' = core s -> cm_owns c R es s -> cm_owns c R es s'.
Proof.
  intros Hs. injection Hs as Hl Hc Hh Hp _ Ht. unfold cm_owns, calm_handler, owned. by rewrite Hl, Hc, Hh, Hp, Ht.
Qed.

Lemma keeps_owns {A} (m : C A) c R es s : keeps m -> cm_owns c R es s ->
  traces m s (fun _ s' l => l = [] /\ producer_of s' = producer_of s /\ cm_owns c R es s') (fun w _ l => l = [] /\ w = Aborted).
Proof.
  intros Hm Ho. eapply traces_mono; [apply Hm; by destruct Ho as (_ & _ & _ & ? & _)| |done]. intros a s' l [-> Hs'].
  split; [done|]. split; [by injection Hs'|by eapply cm_owns_core].
Qed.

#[export] Instance cm_laws c R : EventKindLaws (cm_kind env) (cm_owns c R) delivery (fun w => w = Aborted).
Proof.
  split.
  - done.
  - by intros es p [] ?.
  - intros es es' s Hp (Hh & Hc & Hpr & Ht & Ho & Hok). do 4 (split; [done|]). split; [|by rewrite <- Hp].
    eapply owned_perm; [|exact Ho]. by rewrite Hp.
  - intros e es s (Hh & Hc & Hpr & Ht & Ho & [He Hok]%Forall_cons). cbn [destroy cm_kind]. 
    eapply traces_mono; [apply (moves_freeCmEvents e He); [exact Hh|rewrite app_assoc; exact Ho]| |done].
    intros [] s' l (-> & [L ->] & _ & Ho'). split; [done|]. split; [done|]. by do 4 (split; [done|]).
  - intros e. eapply adds_mono; [done|apply tame_freeCmEvents].
  - intros fl es s. apply keeps_owns, keeps_new.
  - intros f es s. apply keeps_owns, keeps_isValid.
  - intros f e es s. apply keeps_owns, keeps_isMatch.
  - intros f es s Ho. cbn. apply traces_ret. done.
Qed.
End producer.
