(* ===== verification/CmCacheFacts.v ===== *)
(** * Events of the configuration: ownership in the cache

    Without a limit on memory, every operation of the cache takes over the blocks it is
    given and keeps the maps in order: [add_attr], [place] and
    [buildEventStruct] as [moves] triples over the blocks of the cache; and when the values of
    a container can be printed. *)
From Stdlib Require Import ZArith Lia.
From stdpp Require Import base gmap gmultiset list strings pretty.
From S2P Require Import Prelude Marks Codes CmTypes NtfData StdMap EventProducer CmData CmProducer CmCache CmHandler CmMemory.

Open Scope Z_scope.

(** ** What the cache owns *)
Definition element_blocks (e : StructElementCache) : list ptr := structElementList e ≫= fun m => owned_avc m.2.
Definition attr_blocks (a : AvcCache) : list ptr :=
  owned_opt (avcSimple a) ++ owned_ref (avcReference a) ++ owned_opt (avcRuntimeStruct a) ++ ((cacheMap (avc_elements a)).*2 ≫= element_blocks).
Definition dn_blocks (d : DnCache) : list ptr := (cacheMap (dn_attrs d)).*2 ≫= attr_blocks.
Definition ccb_blocks (c : CcbCache) : list ptr := (cacheMap (ccb_dns c)).*2 ≫= dn_blocks.
Definition cache_blocks (cm : CmNotificationCache) : list ptr := (cacheMap cm).*2 ≫= ccb_blocks.

(** ** A cache in order

    Maps are in order, values have their types, and an element has a member. *)
Definition opt_ok {X} (P : X -> Prop) (o : option X) : Prop := match o with Some x => P x | None => True end.
Definition member_ok (m : string * Avc) : Prop := avc_ok m.2.2 /\ avc_type m.2.2 <> MafOamSpiMoAttributeType_3_STRUCT.
Definition members_ok (e : StructElementCache) : Prop := Forall member_ok (structElementList e).
Definition element_ok (e : StructElementCache) : Prop := structElementList e <> [] /\ members_ok e.
Definition base_ok {K V} `{KeyOrder K} (P : V -> Prop) (c : BaseCache K V) : Prop := ordered (cacheMap c) /\ Forall P (cacheMap c).*2.
Definition attr_ok (a : AvcCache) : Prop :=
  base_ok element_ok (avc_elements a) /\ opt_ok (fun x => avc_ok x.2) (avcSimple a) /\ opt_ok (fun x => ref_ok x.2) (avcReference a) /\
  opt_ok (fun x => avc_ok x.2) (avcRuntimeStruct a).
Definition dn_ok (d : DnCache) : Prop := base_ok attr_ok (dn_attrs d).
Definition ccb_ok (c : CcbCache) : Prop := base_ok dn_ok (ccb_dns c).
Definition cache_ok (cm : CmNotificationCache) : Prop := base_ok ccb_ok cm.

(** ** Getting an object of a map and putting it back changed *)
Section base.
Context {K V : Type} `{StrictKeyOrder K} `{EqDecision K} (P : V -> Prop) (g : V -> list ptr).
Implicit Types c : BaseCache K V.

Lemma get_change k new c w c' : base_ok P c -> g new = [] -> getCache k new c = (w, c') ->
  (P w \/ w = new) /\ exists rest, (cacheMap c).*2 ≫= g ≡ₚ g w ++ rest /\
    (base_ok P (deleteCacheFromMap k c') /\ (cacheMap (deleteCacheFromMap k c')).*2 ≫= g ≡ₚ rest) /\
    forall v, P v -> base_ok P (changeCache k v c') /\ (cacheMap (changeCache k v c')).*2 ≫= g ≡ₚ g v ++ rest.
Proof.
  intros [Ho HP] Hnew. unfold getCache. destruct (map_find (cacheMap c) k) as [v0|] eqn:Ef; intros [= <- <-].
  - split; [left; by eapply find_values|].
    exists ((map_erase (cacheMap c) k).*2 ≫= g). split; [by apply collect_split|].
    split; [split; [split; [by apply erase_ordered|by apply erase_values]|done]|]. intros v Hv. split; [split|].
    + by apply update_ordered.
    + by apply update_values.
    + by apply (collect_update g (cacheMap c) k v0 (fun _ => v)).
  - split; [by right|]. exists ((cacheMap c).*2 ≫= g). rewrite Hnew. split; [done|].
    split; [unfold deleteCacheFromMap; cbn; by rewrite erase_insert|]. intros v Hv.
    set (m := map_insert (cacheMap c) k new). assert (Hm : ordered m) by by apply insert_ordered.
    assert (Hf : map_find m k = Some new) by (unfold m; rewrite find_insert by done; by rewrite Ef, decide_True).
    split; [split|].
    + by apply update_ordered.
    + by apply insert_update_values.
    + cbn. fold m. rewrite (collect_update g m k new (fun _ => v)) by done. f_equiv.
      apply (Permutation_app_inv_l (g new)). rewrite <- (collect_split g m k new) by done. by apply collect_insert.
Qed.

Lemma insert_base k v c : base_ok P c -> map_find (cacheMap c) k = None -> P v ->
  base_ok P (addToCacheMap k v c) /\ (cacheMap (addToCacheMap k v c)).*2 ≫= g ≡ₚ g v ++ ((cacheMap c).*2 ≫= g).
Proof.
  intros [Ho HP] Hf Hv. split; [split|].
  - by apply insert_ordered.
  - by apply insert_values.
  - by apply collect_insert.
Qed.

Lemma find_base k v c : base_ok P c -> map_find (cacheMap c) k = Some v ->
  P v /\ exists rest, (cacheMap c).*2 ≫= g ≡ₚ g v ++ rest /\
    (base_ok P (deleteCacheFromMap k c) /\ (cacheMap (deleteCacheFromMap k c)).*2 ≫= g ≡ₚ rest) /\
    forall v', P v' -> base_ok P (changeCache k v' c) /\ (cacheMap (changeCache k v' c)).*2 ≫= g ≡ₚ g v' ++ rest.
Proof.
  intros [Ho HP] Hf. split; [by eapply find_values|]. exists ((map_erase (cacheMap c) k).*2 ≫= g). split; [by apply collect_split|].
  split; [split; [split; [by apply erase_ordered|by apply erase_values]|done]|]. intros v' Hv'. split; [split|].
  - by apply update_ordered.
  - by apply update_values.
  - by apply (collect_update g (cacheMap c) k v (fun _ => v')).
Qed.
End base.

Lemma base_nil {K V} `{KeyOrder K} (P : V -> Prop) own held : base_ok P (MkBase [] own held).
Proof. by split; constructor. Qed.

(** ** Adding an attribute *)
Definition incoming_ok (ccbId : Z) (immRdn : string) (a : Avc) : Prop :=
  match getAttrType ccbId immRdn a with referenceType => ref_ok a.2 | _ => avc_ok a.2 end.
Definition incoming_blocks (ccbId : Z) (immRdn : string) (a : Avc) : list ptr :=
  match getAttrType ccbId immRdn a with referenceType => owned_ref (Some a) | _ => owned_avc a end.

Lemma config_not_struct ccbId immRdn a : getAttrType ccbId immRdn a = configStructType -> avc_type a.2 <> MafOamSpiMoAttributeType_3_STRUCT.
Proof. unfold getAttrType. destruct (Z.eqb_spec (avc_type a.2) MafOamSpiMoAttributeType_3_STRUCT) as [->|]; [|done]. rewrite andb_true_r. by destruct (_ =? _). Qed.

Section cache.
Context (env : environment ntfE) (h : CmEventHandler) (sizes : Sizes).
Abbreviation moves := (moves h).

(** Looking at a container that is owned. *)
Lemma moves_touch_owned {B} p pre (k : () -> C B) Q post : p ∈ pre -> moves (k ()) Q pre post -> moves (touch p ≫= k) Q pre post.
Proof.
  intros [F HF]%elem_of_Permutation Hk. eapply (moves_part _ _ _ _ _ [p]); [apply moves_touch|exact HF|]. intros [] _.
  eapply moves_weaken; [exact Hk|by rewrite HF|by intros b ?].
Qed.

Lemma moves_addMember name a e : members_ok e -> avc_ok a.2 -> avc_type a.2 <> MafOamSpiMoAttributeType_3_STRUCT ->
  moves (addToStructElementList sizes 0 name a e) (fun r => r.1 = true /\ element_ok r.2) (owned_avc a ++ element_blocks e) (fun r => element_blocks r.2).
Proof.
  intros He Ha Ht. unfold addToStructElementList. apply moves_touch_owned; [left|]. rewrite (proj2 (Z.eqb_neq _ _) Ht).
  unfold bytes_of. cbn [limited negb Z.eqb]. apply moves_pure, moves_ret.
  - split; [done|]. split; [by destruct (structElementList e)|]. apply Forall_app. split; [done|]. by constructor.
  - cbn. unfold element_blocks. cbn. rewrite bind_app. cbn. by rewrite app_nil_r, (comm (++)).
Qed.

Lemma moves_add_value ccbId immRdn name avc a : attr_ok a -> incoming_ok ccbId immRdn avc ->
  moves (add_value sizes 0 ccbId immRdn name avc a) (fun r => r.1 = true /\ attr_ok r.2)
    (incoming_blocks ccbId immRdn avc ++ attr_blocks a) (fun r => attr_blocks r.2).
Proof.
  intros (He & Hsi & Hre & Hru). unfold add_value, incoming_ok, incoming_blocks.
  destruct (getAttrType ccbId immRdn avc) eqn:Et; intros Hin; (apply moves_touch_owned; [left|]); unfold bytes_of; cbn [limited negb Z.eqb].
  - apply moves_pure, moves_ret; [done|]. cbn [attr_blocks snd avc_elements avcSimple avcReference avcRuntimeStruct owned_opt].
    unfold attr_blocks. destruct a; cbn. blocks.
  - destruct (getCache _ _ _) as [e es] eqn:Eg.
    destruct (get_change element_ok element_blocks immRdn (new_StructElementCache sizes 0) _ e es He eq_refl Eg) as [Hok (rest & Hrest & _ & Hput)].
    eapply (moves_part _ _ _ _ _ (owned_avc avc ++ element_blocks e) _ _ (owned_opt (avcSimple a) ++ owned_ref (avcReference a) ++ owned_opt (avcRuntimeStruct a) ++ rest)).
    + apply moves_addMember; [|done|by eapply config_not_struct]. destruct Hok as [[_ ?]| ->]; [done|constructor].
    + unfold attr_blocks. blocks.
    + intros r [Hr Her]. rewrite Hr. cbn [andb negb limited Z.eqb]. destruct (Hput _ Her) as [Hok' Hp]. apply moves_ret; [done|].
      unfold attr_blocks. cbn in Hp |- *. blocks.
  - apply moves_pure, moves_ret; [done|]. unfold attr_blocks. destruct a; cbn. blocks.
  - apply moves_pure, moves_ret; [done|]. unfold attr_blocks. destruct a; cbn. blocks.
Qed.

Lemma moves_add_attr ccbId attrName immRdn name avc cm : cache_ok cm -> incoming_ok ccbId immRdn avc ->
  moves (add_attr sizes 0 ccbId attrName immRdn name avc cm) (fun r => r.1 = MafOk /\ cache_ok r.2)
    (incoming_blocks ccbId immRdn avc ++ cache_blocks cm) (fun r => cache_blocks r.2).
Proof.
  intros Hcm Hin. unfold add_attr. cbn [limited negb Z.eqb andb].
  destruct (getCache ccbId _ cm) as [ccb cm1] eqn:E1. destruct (get_change ccb_ok ccb_blocks _ (new_CcbCache sizes 0) _ _ _ Hcm eq_refl E1) as [Hccb (rest1 & Hr1 & _ & Hput1)].
  assert (Hccb' : base_ok dn_ok (ccb_dns ccb)) by (destruct Hccb as [?| ->]; [done|apply base_nil]).
  destruct (getCache tempCacheKey _ _) as [dn dns] eqn:E2. destruct (get_change dn_ok dn_blocks _ (new_DnCache sizes 0) _ _ _ Hccb' eq_refl E2) as [Hdn (rest2 & Hr2 & _ & Hput2)].
  assert (Hdn' : base_ok attr_ok (dn_attrs dn)) by (destruct Hdn as [?| ->]; [done|apply base_nil]).
  set (dn1 := if _ && _ then _ else dn). assert (dn_attrs dn1 = dn_attrs dn) as -> by (unfold dn1; by destruct (_ && _)).
  destruct (getCache attrName _ _) as [attr attrs] eqn:E3. destruct (get_change attr_ok attr_blocks _ (new_AvcCache sizes 0) _ _ _ Hdn' eq_refl E3) as [Hat (rest3 & Hr3 & _ & Hput3)].
  assert (Hat' : attr_ok attr) by (destruct Hat as [?| ->]; [done|split; [apply base_nil|done]]).
  eapply (moves_part _ _ _ _ _ (incoming_blocks ccbId immRdn avc ++ attr_blocks attr) _ _ (rest3 ++ rest2 ++ rest1)); [by apply moves_add_value| |].
  - unfold cache_blocks. rewrite Hr1. unfold ccb_blocks. rewrite Hr2. unfold dn_blocks. rewrite Hr3. by rewrite <- !app_assoc.
  - intros r [Hr Hok]. rewrite Hr. cbn [andb]. destruct (Hput3 _ Hok) as [Hok3 Hp3].
    set (dn2 := match getAttrType _ _ _ with referenceType => _ | _ => _ end).
    assert (Hd2 : dn_attrs dn2 = changeCache attrName r.2 attrs) by (unfold dn2; by destruct (getAttrType _ _ _)).
    assert (Hok2 : dn_ok dn2) by (unfold dn_ok; by rewrite Hd2). destruct (Hput2 _ Hok2) as [Hok2' Hp2].
    destruct (Hput1 (on_dns (fun _ => changeCache tempCacheKey dn2 dns) ccb) Hok2') as [Hok1 Hp1].
    apply moves_ret; [done|]. unfold cache_blocks. cbn [snd]. rewrite Hp1. unfold ccb_blocks. cbn [on_dns ccb_dns]. rewrite Hp2.
    unfold dn_blocks. rewrite Hd2, Hp3. by rewrite <- !app_assoc.
Qed.

(** ** Destructors free the references *)
Lemma moves_AvcCache_delete a : opt_ok (fun x => ref_ok x.2) (avcReference a) ->
  moves (AvcCache_delete a) (fun _ => True) (owned_ref (avcReference a)) (fun _ => []).
Proof.
  intros Hr. unfold AvcCache_delete. apply (moves_bind _ _ _ (fun _ => True) _ _ (fun _ => [])).
  - destruct (avcReference a) as [r|]; [|by apply moves_ret]. destruct Hr as [Ht Hall]. apply moves_touch_owned; [left|]. rewrite Ht, Z.eqb_refl. cbn [when owned_ref].
    eapply (moves_part _ _ _ (fun _ => True) _ (ref_blocks r.2) (fun _ => [])); [|by rewrite (comm (++) _ [r.1])|intros _ _; apply moves_free].
    unfold ref_blocks. eapply (moves_part _ _ _ (fun _ => True) _ (avc_elems r.2 ≫= text_block) (fun _ => [])); [|reflexivity|intros _ _; apply moves_free_opt].
    apply moves_for_each. eapply Forall_impl; [exact Hall|]. intros v. apply moves_free_text.
  - intros _ _. eapply moves_bind; [apply moves_discard|]. intros b ->. by apply moves_ret.
Qed.
Definition attr_refs (a : AvcCache) : list ptr := owned_ref (avcReference a).
Definition dn_refs (d : DnCache) : list ptr := (cacheMap (dn_attrs d)).*2 ≫= attr_refs.
Definition ccb_refs (c : CcbCache) : list ptr := (cacheMap (ccb_dns c)).*2 ≫= dn_refs.
Definition refs_ok (a : AvcCache) : Prop := opt_ok (fun x => ref_ok x.2) (avcReference a).
Definition dn_refs_ok (d : DnCache) : Prop := Forall refs_ok (cacheMap (dn_attrs d)).*2.
Definition ccb_refs_ok (c : CcbCache) : Prop := Forall dn_refs_ok (cacheMap (ccb_dns c)).*2.

Lemma bind_sub {X Y} (f g : X -> list Y) l : (forall x, f x ⊆+ g x) -> l ≫= f ⊆+ l ≫= g.
Proof. intros Hfg. induction l as [|x l IH]; [done|]. rewrite !bind_cons. by apply submseteq_app. Qed.
Lemma ccb_refs_sub c : ccb_refs c ⊆+ ccb_blocks c.
Proof. apply bind_sub. intros d. apply bind_sub. intros a. unfold attr_refs, attr_blocks. apply submseteq_inserts_l, submseteq_inserts_r. reflexivity. Qed.
Lemma ccb_ok_refs c : ccb_ok c -> ccb_refs_ok c.
Proof. intros [_ Hc]. eapply Forall_impl; [exact Hc|]. intros d [_ Hd]. eapply Forall_impl; [exact Hd|]. by intros a (_ & _ & Hr & _). Qed.

Lemma bind_values {K V X} (g : V -> list X) (m : list (K * V)) : m.*2 ≫= g = m ≫= (g ∘ snd).
Proof. induction m as [|x m IH]; [done|]. cbn. by rewrite IH. Qed.
Lemma moves_for_values {K V} (f : V -> C ()) (ok : V -> Prop) (g : V -> list ptr) (m : StdMap K V) :
  (forall v, ok v -> moves (f v) (fun _ => True) (g v) (fun _ => [])) -> Forall ok m.*2 ->
  moves (for_each (fun kv => f kv.2) m) (fun _ => True) (m.*2 ≫= g) (fun _ => []).
Proof.
  intros Hf Hm. rewrite bind_values. apply (moves_for_each _ _ (g ∘ snd)). rewrite Forall_fmap in Hm. eapply Forall_impl; [exact Hm|]. intros kv. apply Hf.
Qed.
Lemma moves_CcbCache_delete c : ccb_refs_ok c -> moves (CcbCache_delete c) (fun _ => True) (ccb_refs c) (fun _ => []).
Proof.
  intros Hc. unfold CcbCache_delete. apply (moves_for_values DnCache_delete dn_refs_ok dn_refs); [|done]. intros d Hd.
  apply (moves_for_values AvcCache_delete refs_ok attr_refs); [|done]. exact moves_AvcCache_delete.
Qed.

(** ** Merging *)
Lemma moves_add_members l e : Forall member_ok l -> element_ok e ->
  moves (add_members sizes 0 l e) element_ok ((l ≫= fun m => owned_avc m.2) ++ element_blocks e) element_blocks.
Proof.
  intros Hl. revert e. induction Hl as [|m l [Hm Ht] _ IH]; intros e He; [by apply moves_ret|]. cbn [add_members].
  eapply (moves_part _ _ _ _ _ (owned_avc m.2 ++ element_blocks e) _ _ (l ≫= fun m => owned_avc m.2)); [apply moves_addMember; [by destruct He|done..]|cbn [mbind list_bind]; by blocks|].
  intros r [_ Hr]. eapply moves_weaken; [by apply IH|by blocks|by intros e'].
Qed.

Lemma set_attr_ok attr s a : dn_ok (l_dn s) -> map_find (cacheMap (dn_attrs (l_dn s))) attr = Some a ->
  attr_ok a /\ exists rest, dn_blocks (l_dn s) ≡ₚ attr_blocks a ++ rest /\
    forall a', attr_ok a' -> dn_ok (l_dn (set_attr attr a' s)) /\ dn_blocks (l_dn (set_attr attr a' s)) ≡ₚ attr_blocks a' ++ rest /\
      map_find (cacheMap (dn_attrs (l_dn (set_attr attr a' s)))) attr = Some a'.
Proof.
  intros Hd Hf. destruct (find_base attr_ok attr_blocks attr a _ Hd Hf) as [Ha (rest & Hr & _ & Hput)]. split; [done|]. exists rest. split; [done|].
  intros a' Ha'. destruct (Hput a' Ha') as [Hok Hp]. split; [done|]. split; [done|]. cbn. by rewrite find_update, decide_True, Hf.
Qed.

Lemma moves_attr_of {B} a attr s (k : AvcCache -> C B) Q pre post :
  map_find (cacheMap (dn_attrs (l_dn s))) attr = Some a -> moves (k a) Q pre post -> moves (attr_of attr s ≫= k) Q pre post.
Proof. intros Hf Hk. unfold attr_of. rewrite Hf. by apply moves_pure. Qed.

Lemma moves_merge_elements attr l s : Forall element_ok l.*2 -> dn_ok (l_dn s) -> is_Some (map_find (cacheMap (dn_attrs (l_dn s))) attr) ->
  moves (merge_elements sizes 0 attr l s) (fun s' => dn_ok (l_dn s') /\ l_cm s' = l_cm s /\ l_ccb s' = l_ccb s)
    ((l.*2 ≫= element_blocks) ++ dn_blocks (l_dn s)) (fun s' => dn_blocks (l_dn s')).
Proof.
  revert s. induction l as [|[key e] l IH]; intros s Hl Hd [a Ha]; [by apply moves_ret|]. apply Forall_cons in Hl as [He Hl].
  cbn [merge_elements]. apply (moves_attr_of a); [done|].
  destruct (set_attr_ok _ _ _ Hd Ha) as [(Hes & Hrest) (rest & Hr & Hput)].
  destruct (map_find (cacheMap (avc_elements a)) key) as [e0|] eqn:Ee.
  - destruct (find_base element_ok element_blocks _ _ _ Hes Ee) as [He0 (rest' & Hr' & _ & Hput')].
    destruct (Hput a (conj Hes Hrest)) as (Hd1 & Hp1 & Ha1).
    eapply (moves_part _ _ _ _ _ (element_blocks e ++ element_blocks e0) _ _ ((l.*2 ≫= element_blocks) ++ owned_opt (avcSimple a) ++ owned_ref (avcReference a) ++ owned_opt (avcRuntimeStruct a) ++ rest' ++ rest)).
    + apply moves_add_members; [by destruct He|done].
    + cbn [fmap list_fmap mbind list_bind snd]. unfold attr_blocks in Hr. blocks.
    + intros e1 He1. unfold account_attr, account_dn. cbn [limited negb Z.eqb]. apply (moves_attr_of a); [done|].
      destruct (Hput' _ He1) as [Hes1 Hp']. set (a1 := on_elements _ _). assert (Ha1' : attr_ok a1) by (by split).
      destruct (set_attr_ok _ _ _ Hd1 Ha1) as [_ (rest1 & Hr1 & Hput1)]. destruct (Hput1 a1 Ha1') as (Hd2 & Hp2 & Ha2).
      eapply moves_weaken; [apply (IH _ Hl Hd2); by eexists| |].
      * assert (attr_blocks a1 ≡ₚ owned_opt (avcSimple a) ++ owned_ref (avcReference a) ++ owned_opt (avcRuntimeStruct a) ++ element_blocks e1 ++ rest') as Hb
          by (unfold attr_blocks; cbn; by rewrite Hp').
        rewrite Hr1 in Hp1. apply Permutation_app_inv_l in Hp1. blocks.
      * intros s' (? & ? & ?). done.
  - destruct (insert_base element_ok element_blocks key e _ Hes Ee He) as [Hes1 Hp'].
    set (a1 := on_elements _ _). assert (Ha1' : attr_ok a1) by (by split). destruct (Hput a1 Ha1') as (Hd2 & Hp2 & Ha2).
    eapply moves_weaken; [apply (IH _ Hl Hd2); by eexists| |].
    + assert (attr_blocks a1 ≡ₚ owned_opt (avcSimple a) ++ owned_ref (avcReference a) ++ owned_opt (avcRuntimeStruct a) ++ element_blocks e ++ ((cacheMap (avc_elements a)).*2 ≫= element_blocks)) as Hb
          by (unfold attr_blocks; cbn; by rewrite Hp').
      cbn [fmap list_fmap mbind list_bind snd]. unfold attr_blocks in Hr. blocks.
    + intros s' (? & ? & ?). done.
Qed.

Lemma moves_merge_attrs l s : Forall attr_ok l.*2 -> dn_ok (l_dn s) ->
  moves (merge_attrs sizes 0 l s) (fun s' => dn_ok (l_dn s') /\ l_cm s' = l_cm s /\ l_ccb s' = l_ccb s)
    ((l.*2 ≫= attr_blocks) ++ dn_blocks (l_dn s)) (fun s' => dn_blocks (l_dn s')).
Proof.
  revert s. induction l as [|[attr t] l IH]; intros s Hl Hd; [by apply moves_ret|]. apply Forall_cons in Hl as [Ht Hl].
  destruct Ht as (Hes & Hsi & Hre & Hru). cbn [merge_attrs]. unfold existsCache. case_bool_decide as Hin.
  - eapply (moves_part _ _ _ _ _ (((cacheMap (avc_elements t)).*2 ≫= element_blocks) ++ dn_blocks (l_dn s)) _ _
      ((l.*2 ≫= attr_blocks) ++ owned_opt (avcSimple t) ++ owned_ref (avcReference t) ++ owned_opt (avcRuntimeStruct t))).
    + apply moves_merge_elements; [by destruct Hes|done..].
    + cbn [fmap list_fmap mbind list_bind snd]. unfold attr_blocks at 1. blocks.
    + intros s1 (Hd1 & Hc1 & Hb1).
      eapply (moves_part _ _ _ _ _ (owned_ref (avcReference t)) _ _ ((l.*2 ≫= attr_blocks) ++ dn_blocks (l_dn s1) ++ owned_opt (avcSimple t) ++ owned_opt (avcRuntimeStruct t))).
      * by apply moves_AvcCache_delete.
      * blocks.
      * intros [] _. eapply moves_weaken; [by apply IH|blocks|]. intros s' (? & ? & ?). by rewrite <- Hc1, <- Hb1.
  - apply eq_None_not_Some in Hin. destruct (insert_base attr_ok attr_blocks attr t _ Hd Hin) as [Hd1 Hp]; [by split_and!|].
    set (s1 := account_dn _ _ _ _). eapply moves_weaken; [apply (IH s1 Hl); exact Hd1| |by intros s'].
    cbn [fmap list_fmap mbind list_bind snd]. unfold s1, account_dn. cbn [limited negb Z.eqb l_dn]. unfold dn_blocks at 1. cbn [on_attrs dn_attrs]. rewrite Hp. unfold dn_blocks. blocks.
Qed.

(** ** Giving a name *)
Lemma merge_flags_attrs t d : dn_attrs (merge_flags t d) = dn_attrs d.
Proof. unfold merge_flags. destruct (modifiedReference t), (set_create t), (set_mod t), (set_del t); done. Qed.
Lemma setEventType_attrs t d : dn_attrs (setEventType t d) = dn_attrs d.
Proof. by destruct t. Qed.

Lemma dn_blocks_attrs d d' : dn_attrs d = dn_attrs d' -> dn_blocks d = dn_blocks d'.
Proof. unfold dn_blocks. by intros ->. Qed.

Lemma moves_place dn t cm ccb : ccb_ok ccb -> dn <> tempCacheKey ->
  moves (place sizes 0 dn t cm ccb) (fun p => p.1 = cm /\ ccb_ok p.2 /\ is_Some (map_find (cacheMap (ccb_dns p.2)) dn))
    (ccb_blocks ccb) (fun p => ccb_blocks p.2).
Proof.
  intros Hc Hne. unfold place. cbn [limited negb Z.eqb].
  destruct (map_find (cacheMap (ccb_dns ccb)) tempCacheKey) as [temp|] eqn:Et, (map_find (cacheMap (ccb_dns ccb)) dn) as [d|] eqn:Ed.
  - destruct (find_base dn_ok dn_blocks _ _ _ Hc Et) as [Ht (rest & Hr & [Hdel Hpdel] & _)].
    destruct (find_base dn_ok dn_blocks _ _ _ Hc Ed) as [Hd (rest' & Hr' & _ & Hput)].
    assert (Hdd : map_find (map_erase (cacheMap (ccb_dns ccb)) tempCacheKey) dn = Some d) by (rewrite find_erase by apply Hc; by rewrite decide_False).
    destruct (find_base dn_ok dn_blocks dn d (deleteCacheFromMap tempCacheKey (ccb_dns ccb)) Hdel Hdd) as [_ (rest2 & Hr2 & _)].
    rewrite setEventType_attrs.
    eapply (moves_part _ _ _ _ _ (dn_blocks temp ++ dn_blocks (merge_flags (setEventType t temp) d)) _ _ rest2).
    + apply moves_merge_attrs; [apply Ht|]. unfold dn_ok. cbn [l_dn]. by rewrite merge_flags_attrs.
    + rewrite (dn_blocks_attrs _ _ (merge_flags_attrs _ _)). unfold ccb_blocks. rewrite Hr, <- Hpdel, Hr2. by rewrite <- app_assoc.
    + intros s (Hs & Hcm & Hcb). cbn [l_cm l_ccb fst snd] in Hcm, Hcb.
      eapply (moves_part _ _ _ _ _ []); [apply moves_discard|cbn; reflexivity|]. intros b ->. cbn [when]. apply moves_pure.
      rewrite Hcb. destruct (Hput _ Hs) as [Hok Hp].
      assert (Ht1 : map_find (cacheMap (changeCache dn (l_dn s) (ccb_dns ccb))) tempCacheKey = Some temp) by (cbn; by rewrite find_update, decide_False).
      destruct (find_base dn_ok dn_blocks _ _ _ Hok Ht1) as [_ (rest3 & Hr3 & [Hok3 Hp3] & _)]. apply moves_ret.
      * split; [done|]. split; [exact Hok3|]. cbn. rewrite find_erase by apply Hok. rewrite decide_False by done. rewrite find_update, decide_True by done. by rewrite Ed.
      * cbn [app]. unfold ccb_blocks. cbn [on_dns ccb_dns snd]. rewrite Hp3.
        assert (rest3 ≡ₚ dn_blocks (l_dn s) ++ rest2) as ->; [|reflexivity].
        apply (Permutation_app_inv_l (dn_blocks temp)). rewrite <- Hr3, Hp.
        assert (rest' ≡ₚ dn_blocks temp ++ rest2) as ->; [|blocks].
        apply (Permutation_app_inv_l (dn_blocks d)). rewrite <- Hr', Hr, <- Hpdel, Hr2. blocks.
  - destruct (find_base dn_ok dn_blocks _ _ _ Hc Et) as [Ht (rest & Hr & [Hdel Hpdel] & _)].
    assert (Ht' : dn_ok (setEventType t temp)) by (unfold dn_ok; by rewrite setEventType_attrs).
    destruct (insert_base dn_ok dn_blocks dn (setEventType t temp) _ Hc Ed Ht') as [Hok Hp].
    assert (Ht1 : map_find (cacheMap (addToCacheMap dn (setEventType t temp) (ccb_dns ccb))) tempCacheKey = Some temp)
      by (cbn; rewrite find_insert by apply Hc; by rewrite Et).
    destruct (find_base dn_ok dn_blocks _ _ _ Hok Ht1) as [_ (rest3 & Hr3 & [Hok3 Hp3] & _)]. apply moves_ret.
    + split; [done|]. split; [exact Hok3|]. cbn. rewrite find_erase by apply Hok. rewrite decide_False by done. rewrite find_insert by apply Hc.
      rewrite Ed. by rewrite decide_True.
    + unfold ccb_blocks. cbn [on_dns ccb_dns snd]. rewrite Hp3.
      assert (rest3 ≡ₚ dn_blocks temp ++ rest) as ->; [|by rewrite Hr].
      apply (Permutation_app_inv_l (dn_blocks temp)). rewrite <- Hr3, Hp, Hr. by rewrite (dn_blocks_attrs _ _ (setEventType_attrs _ _)).
  - by apply moves_ret.
  - apply moves_ret.
    + assert (Hn : dn_ok (setEventType t (new_DnCache sizes 0))) by (unfold dn_ok; rewrite setEventType_attrs; apply base_nil).
      destruct (insert_base dn_ok dn_blocks dn _ _ Hc Ed Hn) as [Hok Hp]. split; [done|]. split; [exact Hok|]. cbn.
      rewrite find_insert by apply Hc. rewrite Ed. by rewrite decide_True.
    + unfold ccb_blocks. cbn [on_dns ccb_dns snd].
      assert (Hn : dn_ok (setEventType t (new_DnCache sizes 0))) by (unfold dn_ok; rewrite setEventType_attrs; apply base_nil).
      destruct (insert_base dn_ok dn_blocks dn _ _ Hc Ed Hn) as [_ Hp]. rewrite Hp. by rewrite (dn_blocks_attrs _ _ (setEventType_attrs _ _)).
Qed.
End cache.

(** ** Printing values ([attrValueContainerToString])

    The doubles of a container are printed in less than 100 characters. *)
Definition prints (b : AvcBody ptr) : bool :=
  negb (avc_type b =? MafOamSpiMoAttributeType_3_DECIMAL64) ||
  forallb (fun v => (String.length (double_text (union_bits v)) <? 100)%nat) (avc_elems b).

Lemma pretty_go_length n s k : (Z.of_N n < 10 ^ Z.of_nat k) -> (String.length (pretty_N_go n s) <= k + String.length s)%nat.
Proof.
  revert s k. induction (N.lt_wf_0 n) as [n _ IH]. intros s k Hn. destruct (decide (n = 0)%N) as [->|Hne]; [rewrite pretty_N_go_0; lia|].
  rewrite pretty_N_go_step by lia. destruct k as [|k]; [cbn in Hn; lia|]. rewrite Nat2Z.inj_succ, Z.pow_succ_r in Hn by lia.
  etransitivity; [apply (IH (n / 10)%N ltac:(apply N.div_lt; lia) _ k); rewrite N2Z.inj_div; apply Z.div_lt_upper_bound; lia|]. cbn. lia.
Qed.
Lemma pretty_length n k : (1 <= k)%nat -> Z.of_N n < 10 ^ Z.of_nat k -> (String.length (pretty n) <= k)%nat.
Proof. intros Hk Hn. unfold pretty, pretty_N. case_decide; [done|]. pose proof (pretty_go_length n "" k Hn). cbn in *. lia. Qed.
Lemma pretty_Z_length z k : (1 <= k)%nat -> Z.abs z < 10 ^ Z.of_nat k -> (String.length (pretty z) <= S k)%nat.
Proof.
  intros Hk Hz. destruct z as [|p|p]; [cbn; lia|..].
  - pose proof (pretty_length (N.pos p) k Hk ltac:(done)) as Hl. change (pretty (Z.pos p)) with (pretty (N.pos p)). lia.
  - pose proof (pretty_length (N.pos p) k Hk ltac:(done)) as Hl. change (String.length (pretty (Z.neg p))) with (S (String.length (pretty (N.pos p)))). lia.
Qed.
Lemma length_append (s t : string) : String.length (s +:+ t) = (String.length s + String.length t)%nat.
Proof. induction s as [|c s IH]; [done|]. change (S (String.length (s +:+ t)) = S (String.length s + String.length t)). by f_equal. Qed.
Lemma length_substring i k s : (String.length (String.substring i k s) <= k)%nat.
Proof. revert i k. induction s as [|c s IH]; intros [|i] [|k]; cbn; try lia; [|apply IH..]. pose proof (IH 0%nat k). lia. Qed.

Lemma printed_number_length type bits : (String.length (pretty (printed_number type bits)) < 100)%nat.
Proof.
  assert (Hp : Z.abs (printed_number type bits) < 10 ^ Z.of_nat 20).
  { unfold printed_number, signed, unsigned. change (10 ^ Z.of_nat 20) with 100000000000000000000.
    repeat case_match; match goal with |- context [?x mod ?m] => pose proof (Z.mod_pos_bound x m ltac:(done)) end; cbn in *; lia. }
  pose proof (pretty_Z_length _ 20 ltac:(lia) Hp). lia.
Qed.

(** A double is printed when it is below 2 to the power of 302, infinite, or not a number. *)
Lemma millionths_bound bits : double_exponent bits < 1325 -> 0 <= millionths bits < 1000000 * 10 ^ 91.
Proof.
  intros He. unfold millionths. set (e := double_exponent bits) in *.
  assert (Hf : 0 <= double_fraction bits < 2 ^ 52).
  { unfold double_fraction. change (2 ^ 52 - 1) with (Z.ones 52). rewrite Z.land_ones by lia. by apply Z.mod_pos_bound. }
  assert (Hm : exists m, (if e =? 0 then double_fraction bits else double_fraction bits + 2 ^ 52) = m /\ 0 <= m < 2 ^ 53)
    by (destruct (e =? 0); eexists; split; [reflexivity|lia|reflexivity|lia]).
  destruct Hm as (m & -> & Hm). destruct (Z.leb_spec 0 (Z.max e 1 - 1075)) as [Hk|Hk].
  - pose proof (Z.pow_le_mono_r 2 (Z.max e 1 - 1075) 249 ltac:(lia) ltac:(lia)) as H2.
    pose proof (Z.pow_nonneg 2 (Z.max e 1 - 1075) ltac:(lia)). set (x := 2 ^ (Z.max e 1 - 1075)) in *. clearbody x.
    assert (m * x <= (2 ^ 53 - 1) * 2 ^ 249) by nia. assert ((2 ^ 53 - 1) * 2 ^ 249 < 10 ^ 91) by done. nia.
  - assert (Hd : 1 <= 2 ^ (- (Z.max e 1 - 1075))) by (pose proof (Z.pow_pos_nonneg 2 (- (Z.max e 1 - 1075)) ltac:(lia) ltac:(lia)); lia).
    set (d := 2 ^ (- (Z.max e 1 - 1075))) in *. clearbody d. pose proof (Z.div_pos (1000000 * m) d ltac:(lia) ltac:(lia)).
    pose proof (Z.div_le_upper_bound (1000000 * m) d (1000000 * m) ltac:(lia) ltac:(nia)). cbv zeta.
    assert (1000000 * 2 ^ 53 < 1000000 * 10 ^ 91) by done. destruct (_ || _); lia.
Qed.
Lemma double_prints bits : double_exponent bits < 1325 \/ double_exponent bits = 2047 -> (String.length (double_text bits) < 100)%nat.
Proof.
  assert (Hm : (String.length (if Z.testbit bits 63 then "-" else "") <= 1)%nat) by (by destruct (Z.testbit _ _); cbn; lia).
  intros He. unfold double_text. set (minus := if Z.testbit bits 63 then _ else _) in *. clearbody minus.
  destruct (Z.eqb_spec (double_exponent bits) 2047) as [Heq|Hne].
  - rewrite length_append. destruct (_ =? 0); [change (String.length "inf") with 3%nat|change (String.length "nan") with 3%nat]; lia.
  - destruct He as [He|]; [|done]. destruct (millionths_bound bits He) as [H0 H1].
    rewrite !length_append. pose proof (length_substring 1 6 (pretty (Z.to_N (1000000 + millionths bits mod 1000000)))).
    pose proof (pretty_length (Z.to_N (millionths bits / 1000000)) 91 ltac:(lia)) as Hl.
    rewrite Z2N.id in Hl by (apply Z.div_pos; lia). specialize (Hl ltac:(apply Z.div_lt_upper_bound; [done|exact H1])).
    change (String.length ".") with 1%nat. lia.
Qed.

Lemma print_struct b : avc_type b = MafOamSpiMoAttributeType_3_STRUCT -> attrValueContainerToString b = mret "".
Proof. unfold attrValueContainerToString. by intros ->. Qed.

(** A container of doubles that is there, one of which is too long. *)
Lemma long_double_overflows v vs p x l s tr : p ∈ live s -> vs = Some p -> v = MkAvc MafOamSpiMoAttributeType_3_DECIMAL64 vs (x :: l) ->
  prints v = false -> attrValueContainerToString v (s, tr) = (Exit BadPointer, (s, tr)).
Proof.
  intros Hp -> -> Hl. cbn [prints avc_type avc_elems] in Hl. change (forallb (fun v => (String.length (double_text (union_bits v)) <? 100)%nat) (x :: l) = false) in Hl.
  assert (Ht : value_texts MafOamSpiMoAttributeType_3_DECIMAL64 (x :: l) (s, tr) = (Exit BadPointer, (s, tr))).
  { induction (x :: l) as [|y k IH]; [done|]. cbn [forallb] in Hl.
    change ((t ← sprintf_100 (double_text (union_bits y)); ts ← value_texts MafOamSpiMoAttributeType_3_DECIMAL64 k; mret (" " +:+ t +:+ ts)%string) (s, tr) = (Exit BadPointer, (s, tr))).
    unfold sprintf_100, mbind, M_bind in *. destruct (_ <? 100)%nat; [|done]. cbv beta iota delta [mret M_ret]. by rewrite (IH Hl). }
  unfold attrValueContainerToString, touch. cbn [avc_type avc_values avc_elems nrOfValues length]. unfold mbind, M_bind. cbn -[value_texts].
  rewrite bool_decide_true by done. cbn -[value_texts]. by rewrite Ht.
Qed.

Section printing.
Context (h : CmEventHandler).
Abbreviation moves := (moves h).

Definition text_there (type : Z) (pre : list ptr) (v : MafMoAttributeValue_3T ptr) : Prop :=
  (type = MafOamSpiMoAttributeType_3_STRING -> is_text v /\ text_block v ⊆ pre) /\
  (type = MafOamSpiMoAttributeType_3_DECIMAL64 -> (String.length (double_text (union_bits v)) < 100)%nat).
Lemma moves_sprintf t pre : (String.length t < 100)%nat -> moves (sprintf_100 t) (fun _ => True) pre (fun _ => pre).
Proof. intros Ht. unfold sprintf_100. rewrite (proj2 (Nat.ltb_lt _ _) Ht). by apply moves_ret. Qed.
Lemma moves_value_text type pre v : text_there type pre v -> moves (value_text type v) (fun _ => True) pre (fun _ => pre).
Proof.
  intros [Ht Hd]. unfold value_text. destruct (Z.eqb_spec type MafOamSpiMoAttributeType_3_STRING) as [->|_].
  - destruct (Ht eq_refl) as [Hv Hin]. destruct v as [|[t|]|]; try done. apply moves_touch_owned; [apply Hin; left|]. by apply moves_ret.
  - destruct (Z.eqb_spec type MafOamSpiMoAttributeType_3_DECIMAL64) as [->|_]; apply moves_sprintf; [by apply Hd|apply printed_number_length].
Qed.
Lemma moves_value_texts type pre l : Forall (text_there type pre) l -> moves (value_texts type l) (fun _ => True) pre (fun _ => pre).
Proof.
  induction 1 as [|v l Hv _ IH]; cbn [value_texts]; [by apply moves_ret|].
  eapply moves_bind; [by apply moves_value_text|]. intros t _. eapply moves_bind; [exact IH|]. intros ts _. by apply moves_ret.
Qed.

(** Printing a container looks at what it owns, and changes nothing. *)
Lemma moves_print b : avc_ok b -> prints b = true -> moves (attrValueContainerToString b) (fun _ => True) (avc_blocks b) (fun _ => avc_blocks b).
Proof.
  intros Hb Hp. destruct (decide (avc_type b = MafOamSpiMoAttributeType_3_STRUCT)) as [Ht|Hne]; [rewrite print_struct by done; by apply moves_ret|].
  unfold attrValueContainerToString. destruct (_ =? _); [by apply moves_ret|]. destruct (type_name _) as [name|]; [|by apply moves_ret].
  destruct b as [type values elems]. destruct Hb as [Hvs Hel]. unfold nrOfValues. cbn [avc_type avc_values avc_elems] in *.
  destruct elems as [|v0 l0] eqn:E; [cbn [length Nat.leb when value_texts]; do 2 apply moves_pure; by apply moves_ret|].
  destruct Hvs as [Hvs|[p ->]]; [done|]. rewrite <- E in *. assert (Hlen : (1 <=? length elems)%nat = true) by (by subst). rewrite Hlen. cbn [when of_option].
  set (pre := avc_blocks _). assert (Hin : p ∈ pre) by (unfold pre; rewrite E; apply elem_of_app; right; left).
  eapply (moves_bind _ _ _ (fun _ => True) _ _ (fun _ => pre)).
  { apply moves_pure. pose proof Hin as [F HF]%elem_of_Permutation.
    eapply moves_weaken; [apply (moves_frame h _ (fun _ => True) [p] (fun _ => [p]) F), (moves_touch h p)|rewrite HF; reflexivity|intros [] _; split; [done|rewrite HF; reflexivity]]. }
  intros [] _. eapply (moves_bind _ _ _ _ _ _ (fun _ => pre)); [|intros ts _; by apply moves_ret]. apply moves_value_texts, Forall_forall. intros v Hv. split.
  - intros ->. cbn [is_text_type orb Z.eqb Pos.eqb] in Hel. split.
    + clear -Hel Hv. induction elems as [|x l IH]; [by apply elem_of_nil in Hv|]. destruct Hel as [Hx Hel]. apply elem_of_cons in Hv as [->|Hv]; [done|by apply IH].
    + intros q Hq. unfold pre. apply elem_of_app. left. apply list_elem_of_bind. by exists v.
  - intros ->. apply Nat.ltb_lt. apply (proj1 (forallb_forall _ elems) Hp v). by apply list_elem_of_In.
Qed.
Lemma moves_print_incoming ccbId immRdn a : incoming_ok ccbId immRdn a -> prints a.2 = true ->
  moves (attrValueContainerToString a.2) (fun _ => True) (incoming_blocks ccbId immRdn a) (fun _ => incoming_blocks ccbId immRdn a).
Proof.
  assert (Ha : avc_ok a.2 -> prints a.2 = true -> moves (attrValueContainerToString a.2) (fun _ => True) (owned_avc a) (fun _ => owned_avc a)).
  { intros Hok Hp. eapply moves_weaken; [apply (moves_frame h _ (fun _ => True) (avc_blocks a.2) (fun _ => avc_blocks a.2) [a.1]); by apply moves_print|unfold owned_avc; blocks|].
    intros t _. split; [done|]. unfold owned_avc. blocks. }
  unfold incoming_ok, incoming_blocks. destruct (getAttrType ccbId immRdn a); [exact Ha..|]. intros [Ht _] _. rewrite print_struct by done. by apply moves_ret.
Qed.
End printing.
