(* ===== verification/CmBuildFacts.v ===== *)
(** * Events of the configuration: what goes into an event

    [buildEventStruct] moves the values of the cache into the event: the event
    says what the cache holds and owns it; only the struct references are
    still the cache's.  The second part has the values of [place], for the cache without a limit: [yields] says what a part of the
    handler returns, if it returns ([CmCacheFacts] shows that it does). *)
From Stdlib Require Import ZArith Lia.
From stdpp Require Import base gmap gmultiset list strings.
From S2P Require Import Prelude Marks Codes CmTypes NtfData StdMap EventProducer CmData CmProducer CmCache CmMemory CmCacheFacts.

Open Scope Z_scope.

(** ** What an event says about an object *)

(** A struct of an array: the members in their order. *)
Definition struct_of (e : StructElementCache) (v : MafMoAttributeValue_3T ptr) : Prop :=
  exists ms, v = Members ms /\ ((fun m => match m with MkMember _ name value => (name.2, value) end) <$> ms) = ((fun m => (m.1, Some m.2)) <$> structElementList e).

(** The value of an attribute: the structs, else what a running object reported, else
    the simple value; a container without values when there is none of them. *)
Definition value_of (a : AvcCache) (v : AvcBody ptr) : Prop :=
  if IsConfigStructType a then
    avc_type v = MafOamSpiMoAttributeType_3_STRUCT /\ Forall2 struct_of (cacheMap (avc_elements a)).*2 (avc_elems v)
  else
    v = match avcRuntimeStruct a, avcSimple a with
        | Some x, _ | None, Some x => x.2
        | None, None => MkAvc MafOamSpiMoAttributeType_3_STRUCT None []
        end.
Definition attribute_of (a : string * AvcCache) (n : NamedAvc) : Prop := (na_name n).2 = a.1 /\ value_of a.2 (na_value n).
Definition event_of (d : string * DnCache) (e : CmEvent) : Prop :=
  snd <$> ev_dn e = Some d.1 /\ ev_type e = getEventType d.2 /\ Forall2 attribute_of (cacheMap (dn_attrs d.2)) (ev_attributes e).
Definition notification_of (c : CcbCache) (n : CmNotification) : Prop :=
  txHandle n = ccb_txHandle c /\ cm_source n = ccb_source c /\ Forall2 event_of (cacheMap (ccb_dns c)) (events n).

Definition member_blocks (m : StructMember ptr) : list ptr :=
  match m with MkMember sm name value => name.1 :: (match value with Some a => avc_blocks a.2 ++ [a.1] | None => [] end) ++ [sm] end.
Definition struct_blocks (v : MafMoAttributeValue_3T ptr) : list ptr := match v with Members ms => ms ≫= member_blocks | _ => [] end.
Definition struct_ok (v : MafMoAttributeValue_3T ptr) : Prop :=
  match v with
  | Members ms => all_of (fun m => match m with MkMember _ _ value => match value with Some a => avc_ok a.2 | None => True end end) ms
  | _ => False
  end.

Lemma struct_array_blocks values elems :
  avc_blocks (MkAvc MafOamSpiMoAttributeType_3_STRUCT (Some values) elems) ⊆+ (elems ≫= struct_blocks) ++ [values].
Proof. cbn -[app]. apply submseteq_app; [reflexivity|]. destruct elems; [apply submseteq_nil_l|reflexivity]. Qed.
Lemma struct_array_ok values elems : all_of struct_ok elems -> avc_ok (MkAvc MafOamSpiMoAttributeType_3_STRUCT (Some values) elems).
Proof. intros Hall. split; [by right|exact Hall]. Qed.

Section build.
Context (env : environment ntfE) (Hmem : memory_left env) (h : CmEventHandler).
Abbreviation moves := (moves h).

Lemma moves_build_members l : Forall member_ok l ->
  moves (build_members env l)
    (fun ms => struct_ok (Members ms) /\ length ms = length l /\
       ((fun m => match m with MkMember _ name value => (name.2, value) end) <$> ms) = ((fun m => (m.1, Some m.2)) <$> l))
    (l ≫= fun m => owned_avc m.2) (fun ms => ms ≫= member_blocks).
Proof.
  induction 1 as [|m l [Hm _] _ IH]; [by apply moves_ret|]. cbn [build_members].
  eapply (moves_part _ _ _ _ _ []); [by apply moves_block|cbn; reflexivity|]. intros sm _.
  eapply (moves_part _ _ _ _ _ []); [by apply moves_text|cbn; reflexivity|]. intros name Hname.
  eapply (moves_part _ _ _ _ _ (l ≫= fun m => owned_avc m.2) _ _ (name.1 :: sm :: owned_avc m.2)); [exact IH|blocks|].
  intros ms (Hok & Hl & Heq). apply moves_ret.
  - split; [by split|]. split; [cbn; by rewrite Hl|]. cbn. by rewrite Heq, Hname.
  - cbv beta. rewrite bind_cons. cbn [member_blocks]. blocks.
Qed.

Lemma moves_build_elements l : Forall element_ok l.*2 ->
  moves (build_elements env l) (fun vs => all_of struct_ok vs /\ Forall2 struct_of l.*2 vs) (l.*2 ≫= element_blocks) (fun vs => vs ≫= struct_blocks).
Proof.
  induction l as [|e l IH]; intros Hl; [by apply moves_ret; [split; constructor|]|]. apply Forall_cons in Hl as [[Hne He] Hl]. cbn [build_elements].
  eapply (moves_part _ _ _ _ _ (element_blocks e.2) _ _ (l.*2 ≫= element_blocks)); [by apply moves_build_members|done|].
  intros ms (Hok & Hlen & Heq). rewrite bool_decide_false by (rewrite Hlen; by destruct (structElementList e.2)). cbn [when]. apply moves_pure.
  eapply (moves_part _ _ _ _ _ (l.*2 ≫= element_blocks) _ _ (ms ≫= member_blocks)); [by apply IH|blocks|].
  intros vs [Hvs Hfor]. apply moves_ret.
  - split; [by split|]. constructor; [|done]. by exists ms.
  - cbv beta. rewrite bind_cons. cbn [struct_blocks]. blocks.
Qed.

Lemma moves_taken o : opt_ok (fun x => avc_ok x.2) o ->
  moves (taken o) (fun b => avc_ok b /\ b = match o with Some x => x.2 | None => MkAvc MafOamSpiMoAttributeType_3_STRUCT None [] end) (owned_opt o) avc_blocks.
Proof.
  intros Ho. destruct o as [x|]; [|by apply moves_ret; [split; [split; [by left|]|]|]]. cbn [taken]. apply moves_touch_owned; [left|].
  eapply (moves_part _ _ _ _ _ [x.1] _ _ (avc_blocks x.2)); [apply moves_free|done|]. intros [] _. by apply moves_ret.
Qed.

Lemma moves_build_attribute a : attr_ok a ->
  moves (build_attribute env a) (fun r => avc_ok r.1 /\ refs_ok r.2 /\ value_of a r.1) (attr_blocks a) (fun r => avc_blocks r.1 ++ attr_refs r.2).
Proof.
  intros ([_ Hes] & Hsi & Hre & Hru). unfold build_attribute, value_of. destruct (IsConfigStructType a) eqn:Hc.
  - unfold buildAVC_configStructType, attr_blocks.
    eapply (moves_part _ _ _ _ _ ((cacheMap (avc_elements a)).*2 ≫= element_blocks) _ _
      (owned_opt (avcSimple a) ++ owned_ref (avcReference a) ++ owned_opt (avcRuntimeStruct a))); [|blocks|].
    + eapply (moves_part _ _ _ _ _ []); [by apply moves_block|cbn; reflexivity|]. intros p _.
      eapply (moves_part _ _ _ _ _ ((cacheMap (avc_elements a)).*2 ≫= element_blocks) _ _ [p]); [by apply moves_build_elements|blocks|].
      intros vs [Hvs Hfor]. apply (moves_ret _ _ (fun b => avc_ok b /\ avc_type b = MafOamSpiMoAttributeType_3_STRUCT /\ Forall2 struct_of (cacheMap (avc_elements a)).*2 (avc_elems b)) _ avc_blocks);
        [by split; [apply struct_array_ok|]|apply struct_array_blocks].
    + intros b (Hb & Ht & Hf). apply moves_ret; [by split_and!|]. cbn [fst snd]. unfold attr_refs. blocks.
  - unfold IsRuntimeStructType. destruct (avcRuntimeStruct a) as [x|] eqn:Er; cbn [is_Some].
    + rewrite bool_decide_true by by eexists. unfold attr_blocks. rewrite Er.
      eapply (moves_part _ _ _ _ _ (owned_opt (Some x)) _ _ (owned_opt (avcSimple a) ++ owned_ref (avcReference a) ++ ((cacheMap (avc_elements a)).*2 ≫= element_blocks))); [by apply moves_taken|blocks|].
      intros b [Hb ->]. apply moves_ret; [by split_and!|]. cbn [fst snd]. unfold attr_refs. cbn [avcReference]. blocks.
    + rewrite bool_decide_false by by intros [? ?]. unfold attr_blocks. rewrite Er.
      eapply (moves_part _ _ _ _ _ (owned_opt (avcSimple a)) _ _ (owned_ref (avcReference a) ++ ((cacheMap (avc_elements a)).*2 ≫= element_blocks))); [by apply moves_taken|cbn [owned_opt]; blocks|].
      intros b [Hb ->]. apply moves_ret; [by split_and!|]. cbn [fst snd]. unfold attr_refs. cbn [avcReference]. blocks.
Qed.

Lemma moves_build_attributes l : Forall attr_ok l.*2 ->
  moves (build_attributes env l)
    (fun r => Forall (fun n => avc_ok (na_value n)) r.1 /\ Forall refs_ok r.2.*2 /\ Forall2 attribute_of l r.1)
    (l.*2 ≫= attr_blocks) (fun r => (r.1 ≫= attribute_blocks) ++ (r.2.*2 ≫= attr_refs)).
Proof.
  induction l as [|a l IH]; intros Hl; [by apply moves_ret|]. apply Forall_cons in Hl as [Ha Hl]. cbn [build_attributes].
  eapply (moves_part _ _ _ _ _ []); [by apply moves_block|cbn; reflexivity|]. intros addr _.
  eapply (moves_part _ _ _ _ _ []); [by apply moves_text|cbn; reflexivity|]. intros name Hname.
  eapply (moves_part _ _ _ _ _ (attr_blocks a.2) _ _ (name.1 :: addr :: (l.*2 ≫= attr_blocks))); [by apply moves_build_attribute|blocks|].
  intros r (Hok & Hrefs & Hval).
  eapply (moves_part _ _ _ _ _ (l.*2 ≫= attr_blocks) _ _ (avc_blocks r.1 ++ attr_refs r.2 ++ [name.1; addr])); [by apply IH|blocks|].
  intros rest (Hoks & Hrefss & Hvals). apply moves_ret.
  - split; [by constructor|]. split; [by constructor|]. constructor; [by split|done].
  - cbn [fst snd]. rewrite fmap_cons, !bind_cons. cbn [snd]. unfold attribute_blocks at 1. cbn [na_name na_value na_addr]. blocks.
Qed.

Lemma moves_build_events l : Forall dn_ok l.*2 ->
  moves (build_events env l)
    (fun r => Forall (fun e => is_Some (ev_dn e) /\ Forall (fun n => avc_ok (na_value n)) (ev_attributes e)) r.1 /\ Forall dn_refs_ok r.2.*2 /\ Forall2 event_of l r.1)
    (l.*2 ≫= dn_blocks) (fun r => (r.1 ≫= event_blocks) ++ (r.2.*2 ≫= dn_refs)).
Proof.
  induction l as [|d l IH]; intros Hl; [by apply moves_ret|]. apply Forall_cons in Hl as [[_ Hd] Hl]. cbn [build_events].
  eapply (moves_part _ _ _ _ _ []); [by apply moves_block|cbn; reflexivity|]. intros ev _.
  eapply (moves_part _ _ _ _ _ []); [by apply moves_text|cbn; reflexivity|]. intros dn Hdn.
  eapply (moves_part _ _ _ _ _ []); [by apply moves_block|cbn; reflexivity|]. intros at0 _.
  eapply (moves_part _ _ _ _ _ (dn_blocks d.2) _ _ (ev :: dn.1 :: at0 :: (l.*2 ≫= dn_blocks))); [by apply moves_build_attributes|blocks|].
  intros r (Hok & Hrefs & Hval).
  eapply (moves_part _ _ _ _ _ (l.*2 ≫= dn_blocks) _ _ ((r.1 ≫= attribute_blocks) ++ (r.2.*2 ≫= attr_refs) ++ [ev; dn.1; at0])); [by apply IH|blocks|].
  intros rest (Hoks & Hrefss & Hvals). apply moves_ret.
  - split; [constructor; [by split|done]|]. split; [by constructor|]. constructor; [|done]. split; [cbn; by rewrite Hdn|done].
  - cbn [fst snd]. rewrite fmap_cons, !bind_cons. cbn [snd]. unfold event_blocks at 1, dn_refs at 1. cbn [ev_dn ev_attributes ev_attrs_addr ev_addr fmap option_fmap option_map option_list dn_attrs on_attrs cacheMap]. blocks.
Qed.

Lemma moves_buildEventStruct c : ccb_ok c ->
  moves (buildEventStruct env c) (fun r => notification_ok r.1 /\ ccb_refs_ok r.2 /\ notification_of c r.1)
    (ccb_blocks c) (fun r => notification_blocks r.1 ++ ccb_refs r.2).
Proof.
  intros [_ Hc]. unfold buildEventStruct. eapply (moves_part _ _ _ _ _ []); [apply moves_getTime|cbn; reflexivity|]. intros t _.
  eapply (moves_part _ _ _ _ _ []); [by apply moves_block|cbn; reflexivity|]. intros arr _.
  eapply (moves_part _ _ _ _ _ (ccb_blocks c) _ _ [arr]); [by apply moves_build_events|cbn [app]; blocks|].
  intros r (Hok & Hrefs & Hval). apply moves_ret; [by split_and!|]. cbn [fst snd]. unfold notification_blocks, ccb_refs. cbn [events events_addr ccb_dns on_dns cacheMap]. blocks.
Qed.
End build.

Definition yields {A} (m : C A) (P : A -> Prop) : Prop := forall c a c', m c = (Ret a, c') -> P a.
Lemma yields_ret {A} (a : A) (P : A -> Prop) : P a -> yields (mret a) P.
Proof. by intros HP c a' c' [= <- _]. Qed.
Lemma yields_bind {A B} (m : C A) (k : A -> C B) P Q : yields m P -> (forall a, P a -> yields (k a) Q) -> yields (m ≫= k) Q.
Proof.
  intros Hm Hk c b c' Hb. unfold mbind, M_bind in Hb. destruct (m c) as [[a|w] c1] eqn:E; [|done]. by eapply Hk, Hb; eapply Hm.
Qed.
Lemma yields_and {A} (m : C A) P Q : yields m P -> yields m Q -> yields m (fun a => P a /\ Q a).
Proof. intros HP HQ c a c' Hm. eauto. Qed.
Lemma yields_any {A} (m : C A) : yields m (fun _ => True).
Proof. done. Qed.
Lemma yields_of_option {A} w (o : option A) : yields (of_option w o) (fun a => o = Some a).
Proof. destruct o; [by apply yields_ret|by intros c a c' [=]]. Qed.

(** ** Members of the elements *)
Definition members_in (m : StdMap string StructElementCache) (key : string) : list (string * Avc) :=
  match map_find m key with Some e => structElementList e | None => [] end.
Definition members_of (a : AvcCache) (key : string) : list (string * Avc) := members_in (cacheMap (avc_elements a)) key.

(** The values of the first come before those of the second, which are only used
    where the first has none or has elements too. *)
Definition merged (x y z : AvcCache) : Prop :=
  avcSimple z = avcSimple x /\ avcReference z = avcReference x /\ avcRuntimeStruct z = avcRuntimeStruct x /\
  forall key, members_of z key = members_of x key ++ members_of y key.
Definition merged_opt (x y z : option AvcCache) : Prop :=
  match x, y with
  | None, _ => z = y
  | Some _, None => z = x
  | Some x, Some y => exists z', z = Some z' /\ merged x y z'
  end.

Abbreviation attr_at s := (map_find (cacheMap (dn_attrs (l_dn s)))).

Section merge.
Context (sizes : Sizes).

Lemma yields_add_members l e : Forall member_ok l -> yields (add_members sizes 0 l e) (fun e' => structElementList e' = structElementList e ++ l).
Proof.
  intros Hl. revert e. induction Hl as [|m l [_ Hm] _ IH]; intros e; cbn [add_members]; [apply yields_ret; by rewrite app_nil_r|].
  eapply (yields_bind _ _ (fun r => structElementList r.2 = structElementList e ++ [m])).
  - unfold addToStructElementList. eapply yields_bind; [apply yields_any|]. intros _ _. rewrite (proj2 (Z.eqb_neq _ _) Hm).
    eapply yields_bind; [apply yields_any|]. intros n _. apply yields_ret. cbn. by destruct m.
  - intros r Hr. intros c e' c' He. rewrite (IH _ _ _ _ He), Hr. by rewrite <- app_assoc.
Qed.

Lemma find_set_attr attr a s a' : is_Some (attr_at s attr) -> attr_at (set_attr attr a s) a' = if decide (a' = attr) then Some a else attr_at s a'.
Proof. intros [x Hx]. cbn. rewrite find_update. case_decide; [|done]. subst. by rewrite Hx. Qed.

Lemma yields_merge_elements attr l s a : Forall element_ok l.*2 -> ordered l -> ordered (cacheMap (avc_elements a)) -> attr_at s attr = Some a ->
  yields (merge_elements sizes 0 attr l s) (fun s' =>
    (forall a', a' <> attr -> attr_at s' a' = attr_at s a') /\
    exists z, attr_at s' attr = Some z /\ avcSimple z = avcSimple a /\ avcReference z = avcReference a /\ avcRuntimeStruct z = avcRuntimeStruct a /\
      forall key, members_of z key = members_of a key ++ members_in l key).
Proof.
  revert s a. induction l as [|[key e] l IH]; intros s a Hl Ho Hoa Ha; cbn [merge_elements].
  { apply yields_ret. split; [done|]. exists a. do 4 (split; [done|]). intros k. by rewrite app_nil_r. }
  apply Forall_cons in Hl as [[_ He] Hl]. destruct Ho as [Hlt Ho].
  assert (Hnew : map_find l key = None) by (apply (find_before l key key); [exact Hlt|by right]).
  assert (Hstep : forall e' a1 s1, structElementList e' = members_of a key ++ structElementList e ->
     avcSimple a1 = avcSimple a -> avcReference a1 = avcReference a -> avcRuntimeStruct a1 = avcRuntimeStruct a ->
     ordered (cacheMap (avc_elements a1)) ->
     (forall k, map_find (cacheMap (avc_elements a1)) k = if decide (k = key) then Some e' else map_find (cacheMap (avc_elements a)) k) ->
     (forall a', attr_at s1 a' = if decide (a' = attr) then Some a1 else attr_at s a') ->
     yields (merge_elements sizes 0 attr l s1) (fun s' =>
       (forall a', a' <> attr -> attr_at s' a' = attr_at s a') /\
       exists z, attr_at s' attr = Some z /\ avcSimple z = avcSimple a /\ avcReference z = avcReference a /\ avcRuntimeStruct z = avcRuntimeStruct a /\
         forall k, members_of z k = members_of a k ++ members_in ((key, e) :: l) k)).
  { intros e' a1 s1 He' H1 H2 H3 Ho1 Hf1 Hs1 c s' c' Hr. apply (IH s1 a1) in Hr as [Hother (z & Hz & Hz1 & Hz2 & Hz3 & Hzm)]; [|done..|by rewrite Hs1, decide_True].
    split; [intros a' Ha'; rewrite Hother, Hs1 by done; by rewrite decide_False|].
    exists z. split; [done|]. do 3 (split; [congruence|]). intros k. rewrite Hzm. unfold members_of at 1, members_in at 1 3. cbn [map_find]. rewrite Hf1.
    case_decide as Hk; [subst k|done]. unfold members_in. rewrite Hnew, app_nil_r. exact He'. }
  eapply yields_bind; [apply yields_of_option|]. intros a0 Ha0. rewrite Ha in Ha0. injection Ha0 as <-.
  destruct (map_find (cacheMap (avc_elements a)) key) as [e0|] eqn:Ee.
  - eapply yields_bind; [apply yields_add_members, He|]. intros e1 He1. unfold account_attr, account_dn. cbn [limited negb Z.eqb].
    eapply yields_bind; [apply yields_of_option|]. intros a0 Ha0. rewrite find_set_attr in Ha0 by eauto. rewrite decide_True in Ha0 by done. injection Ha0 as <-.
    apply (Hstep e1 (on_elements (changeCache key e1) a)); try done.
    + rewrite He1. unfold members_of, members_in. by rewrite Ee.
    + by apply update_ordered.
    + intros k. cbn. rewrite find_update. case_decide; [|done]. by rewrite Ee.
    + intros a'. rewrite find_set_attr; [|rewrite find_set_attr by eauto; rewrite decide_True by done; eauto]. case_decide; [done|].
      rewrite find_set_attr by eauto. by rewrite decide_False.
  - unfold account_attr, account_dn. cbn [limited negb Z.eqb]. apply (Hstep e (on_elements (addToCacheMap key e) a)); try done.
    + unfold members_of, members_in. by rewrite Ee.
    + by apply insert_ordered.
    + intros k. cbn. rewrite find_insert by done. case_decide as Hk; [subst k; by rewrite Ee|]. by destruct (map_find _ k).
    + intros a'. apply find_set_attr. eauto.
Qed.

Lemma yields_merge_ok attr l s : Forall element_ok l.*2 -> dn_ok (l_dn s) -> is_Some (attr_at s attr) ->
  yields (merge_elements sizes 0 attr l s) (fun s' => dn_ok (l_dn s')).
Proof.
  revert s. induction l as [|[key e] l IH]; intros s Hl Hd [a Ha]; [by apply yields_ret|]. apply Forall_cons in Hl as [[Hne He] Hl].
  cbn [merge_elements]. eapply yields_bind; [apply yields_of_option|]. intros a0 Ha0. rewrite Ha in Ha0. injection Ha0 as <-.
  destruct (set_attr_ok _ _ _ Hd Ha) as [(Hes & Hrest) (r0 & _ & Hput)]. unfold account_attr, account_dn. cbn [limited negb Z.eqb].
  destruct (map_find (cacheMap (avc_elements a)) key) as [e0|] eqn:Ee.
  - destruct (find_base element_ok element_blocks _ _ _ Hes Ee) as [[Hne0 He0] (r1 & _ & _ & Hput')].
    destruct (Hput a (conj Hes Hrest)) as (Hd1 & _ & Ha1).
    eapply yields_bind; [apply yields_add_members, He|]. intros e1 He1.
    eapply yields_bind; [apply yields_of_option|]. intros a0 Ha0. rewrite Ha1 in Ha0. injection Ha0 as <-.
    destruct (set_attr_ok _ _ _ Hd1 Ha1) as [_ (r2 & _ & Hput1)].
    destruct (Hput1 (on_elements (changeCache key e1) a)) as (Hd2 & _ & Ha2).
    { split; [|done]. apply Hput'. split; [rewrite He1; by destruct (structElementList e0)|]. unfold members_ok. rewrite He1. by apply Forall_app. }
    apply IH; eauto.
  - destruct (insert_base element_ok element_blocks key e _ Hes Ee) as [Hes1 _]; [done|].
    destruct (Hput (on_elements (addToCacheMap key e) a)) as (Hd2 & _ & Ha2); [by split|]. apply IH; eauto.
Qed.

(** ** Attributes *)
Lemma yields_merge_attrs l s : Forall attr_ok l.*2 -> ordered l -> dn_ok (l_dn s) ->
  yields (merge_attrs sizes 0 l s) (fun s' => forall a, merged_opt (attr_at s a) (map_find l a) (attr_at s' a)).
Proof.
  revert s. induction l as [|[attr t] l IH]; intros s Hl Ho Hd; cbn [merge_attrs].
  { apply yields_ret. intros a. cbn. by destruct (attr_at s a). }
  apply Forall_cons in Hl as [Ht Hl]. pose proof Ht as [[Hto Hes] _]. destruct Ho as [Hlt Ho].
  assert (Hnew : map_find l attr = None) by (apply (find_before l attr attr); [exact Hlt|by right]).
  assert (Hstep : forall s1, dn_ok (l_dn s1) -> (forall a, a <> attr -> attr_at s1 a = attr_at s a) -> merged_opt (attr_at s attr) (Some t) (attr_at s1 attr) ->
    yields (merge_attrs sizes 0 l s1) (fun s' => forall a, merged_opt (attr_at s a) (map_find ((attr, t) :: l) a) (attr_at s' a))).
  { intros s1 Hd1 Hother Hm c s' c' Hr a. pose proof (IH s1 Hl Ho Hd1 _ _ _ Hr a) as Ha. cbn [map_find]. case_decide as Hk; [subst a|by rewrite Hother in Ha].
    rewrite Hnew in Ha. destruct (attr_at s1 attr) as [z|] eqn:Ez; cbn in Ha; rewrite Ha; done. }
  unfold existsCache. case_bool_decide as Hin.
  - destruct Hin as [x Hx]. assert (Hox : attr_ok x) by (eapply find_values; [apply Hd|exact Hx]).
    eapply yields_bind; [apply yields_and; [by apply (yields_merge_ok attr); eauto|by apply (yields_merge_elements attr _ s x); [..|apply Hox|]]|].
    intros s1 (Hd1 & Hother & z & Hz & Hz1 & Hz2 & Hz3 & Hm). eapply yields_bind; [apply yields_any|]. intros _ _. apply Hstep; [done..|].
      rewrite Hx, Hz. exists z. by split_and!.
  - apply eq_None_not_Some in Hin. destruct (insert_base attr_ok attr_blocks attr t _ Hd Hin) as [Hd1 _]; [exact Ht|].
    unfold account_dn. cbn [limited negb Z.eqb]. apply Hstep; [exact Hd1|..]; cbn.
    + intros a Ha. rewrite find_insert by apply Hd. rewrite decide_False by done. by destruct (map_find _ a).
    + rewrite find_insert by apply Hd. rewrite Hin. by rewrite decide_True.
Qed.

(** ** Objects *)
Definition dn_at (c : CcbCache) (dn : string) : option DnCache := map_find (cacheMap (ccb_dns c)) dn.
Definition attr_in (o : option DnCache) (a : string) : option AvcCache := d ← o; map_find (cacheMap (dn_attrs d)) a.
(** The kinds of changes that were reported: creation, change, deletion. *)
Definition kinds (o : option DnCache) : bool * bool * bool :=
  match o with Some d => (set_create d, set_mod d, set_del d) | None => (false, false, false) end.
Definition kind_of (t : MafOamSpiCmEvent_EventType_1T) : bool * bool * bool :=
  match t with
  | MafOamSpiCmEvent_MoCreated_1 => (true, false, false)
  | MafOamSpiCmEvent_AttributeValueChange_1 => (false, true, false)
  | MafOamSpiCmEvent_MoDeleted_1 => (false, false, true)
  | MafOamSpiCmEvent_Overflow_1 => (false, false, false)
  end.
Definition either (x y : bool * bool * bool) : bool * bool * bool := (x.1.1 || y.1.1, x.1.2 || y.1.2, x.2 || y.2).

(** What naming the waiting attributes does to a bundle. *)
Definition named (dn : string) (t : MafOamSpiCmEvent_EventType_1T) (c c' : CcbCache) : Prop :=
  dn_at c' tempCacheKey = None /\
  (forall k, k <> dn -> k <> tempCacheKey -> dn_at c' k = dn_at c k) /\
  is_Some (dn_at c' dn) /\
  (forall a, merged_opt (attr_in (dn_at c dn) a) (attr_in (dn_at c tempCacheKey) a) (attr_in (dn_at c' dn) a)) /\
  kinds (dn_at c' dn) =
    match dn_at c dn, dn_at c tempCacheKey with
    | Some d, None => kinds (Some d)
    | o, w => either (kinds o) (either (kinds w) (kind_of t))
    end.

Lemma kinds_set t d : kinds (Some (setEventType t d)) = either (kinds (Some d)) (kind_of t).
Proof. by destruct t, d as [? [] [] [] ? ?]. Qed.
Lemma kinds_attrs f d : kinds (Some (on_attrs f d)) = kinds (Some d).
Proof. done. Qed.
Lemma kinds_merge w d : kinds (Some (merge_flags w d)) = either (kinds (Some d)) (kinds (Some w)).
Proof. by destruct w as [? [] [] [] [] ?], d as [? [] [] [] ? ?]. Qed.

Lemma yields_add_kinds attr l s : yields (merge_elements sizes 0 attr l s) (fun s' => l_ccb s' = l_ccb s /\ kinds (Some (l_dn s')) = kinds (Some (l_dn s))).
Proof.
  revert s. induction l as [|[key e] l IH]; intros s; cbn [merge_elements]; [by apply yields_ret|].
  eapply yields_bind; [apply yields_any|]. intros a _. destruct (map_find _ key) as [e0|]; [|exact (IH _)].
  eapply yields_bind; [apply yields_any|]. intros e1 _. eapply yields_bind; [apply yields_any|]. intros a1 _. exact (IH _).
Qed.
Lemma yields_merge_kinds l s : yields (merge_attrs sizes 0 l s) (fun s' => l_ccb s' = l_ccb s /\ kinds (Some (l_dn s')) = kinds (Some (l_dn s))).
Proof.
  revert s. induction l as [|[attr t] l IH]; intros s; cbn [merge_attrs]; [by apply yields_ret|]. destruct (existsCache _ attr); [|exact (IH _)].
  eapply yields_bind; [apply yields_add_kinds|]. intros s1 [Hc Hk]. eapply yields_bind; [apply yields_any|]. intros _ _. rewrite <- Hc, <- Hk. exact (IH _).
Qed.

Lemma yields_place dn t cm c : ccb_ok c -> dn <> tempCacheKey -> yields (place sizes 0 dn t cm c) (fun p => named dn t c p.2).
Proof.
  intros Hc Hne. unfold place, named, dn_at. cbn [limited negb Z.eqb].
  destruct (map_find (cacheMap (ccb_dns c)) tempCacheKey) as [temp|] eqn:Et, (map_find (cacheMap (ccb_dns c)) dn) as [d|] eqn:Ed; cbn [attr_in mbind option_bind].
  - destruct (find_base dn_ok dn_blocks _ _ _ Hc Et) as [Ht (_r & _ & [_ _] & _)]. destruct (find_base dn_ok dn_blocks _ _ _ Hc Ed) as [Hd (_r' & _ & _ & Hput)].
    rewrite setEventType_attrs. eapply yields_bind; [apply yields_and; [apply yields_merge_kinds|apply yields_merge_attrs; [apply Ht|apply Ht|]]|].
    { unfold dn_ok. cbn [l_dn]. by rewrite merge_flags_attrs. }
    intros s [[Hccb Hk] Hm]. cbn [l_dn l_ccb snd] in *. eapply yields_bind; [apply yields_any|]. intros b _. eapply yields_bind; [apply yields_any|]. intros _ _. apply yields_ret.
    rewrite Hccb. cbn [snd on_dns ccb_dns deleteCacheFromMap changeCache cacheMap].
    assert (Hf : forall k, map_find (map_erase (map_update (cacheMap (ccb_dns c)) dn (fun _ => l_dn s)) tempCacheKey) k =
      if decide (k = tempCacheKey) then None else if decide (k = dn) then Some (l_dn s) else map_find (cacheMap (ccb_dns c)) k).
    { intros k. rewrite find_erase by by apply update_ordered, Hc. case_decide; [done|]. rewrite find_update. case_decide; [|done]. by rewrite Ed. }
    rewrite !Hf, decide_True by done. rewrite decide_False, decide_True by done. split; [done|]. split; [|split; [done|split]].
    + intros k Hk1 Hk2. rewrite Hf, decide_False by done. by rewrite decide_False.
    + intros a. specialize (Hm a). by rewrite merge_flags_attrs in Hm.
    + rewrite Hk, kinds_merge, kinds_set. done.
  - apply yields_ret. cbn [snd on_dns ccb_dns deleteCacheFromMap addToCacheMap cacheMap].
    assert (Hf : forall k, map_find (map_erase (map_insert (cacheMap (ccb_dns c)) dn (setEventType t temp)) tempCacheKey) k =
      if decide (k = tempCacheKey) then None else if decide (k = dn) then Some (setEventType t temp) else map_find (cacheMap (ccb_dns c)) k).
    { intros k. rewrite find_erase by by apply insert_ordered, Hc. case_decide; [done|]. rewrite find_insert by apply Hc. case_decide; [subst; by rewrite Ed|]. by destruct (map_find _ k). }
    rewrite !Hf, decide_True by done. rewrite decide_False, decide_True by done. split; [done|]. split; [|split; [done|split]].
    + intros k Hk1 Hk2. rewrite Hf, decide_False by done. by rewrite decide_False.
    + intros a. cbn. by rewrite setEventType_attrs.
    + rewrite kinds_set. done.
  - apply yields_ret. cbn [snd]. rewrite Ed. split; [done|]. split; [done|]. split; [done|]. split; [|done]. intros a. cbn. by destruct (map_find _ a).
  - apply yields_ret. cbn [snd on_dns ccb_dns addToCacheMap cacheMap].
    assert (Hf : forall k, map_find (map_insert (cacheMap (ccb_dns c)) dn (setEventType t (new_DnCache sizes 0))) k =
      if decide (k = dn) then Some (setEventType t (new_DnCache sizes 0)) else map_find (cacheMap (ccb_dns c)) k).
    { intros k. rewrite find_insert by apply Hc. case_decide; [subst; by rewrite Ed|]. by destruct (map_find _ k). }
    rewrite !Hf, decide_False by done. rewrite decide_True by done. split; [done|]. split; [|split; [done|split]].
    + intros k Hk1 Hk2. by rewrite Hf, decide_False.
    + intros a. cbn. by rewrite setEventType_attrs.
    + rewrite kinds_set. done.
Qed.
End merge.
