(* ===== verification/CmSystem.v ===== *)
(** * Events of the configuration: the handler keeps its memory in order

    What can happen to the handler once it is started: its client (the OAM SA)
    makes values and hands them over, names bundles and ends them; consumers
    come and go and give events back.  [reached] are the states this leads
    to; [in_order] is what holds in all of them.

    The operations of the cache, the handler and the producer only add to the history of
    calls, whatever state they are started in, and the calls are [tame].  A program that goes on
    after a consumer broke its contract is then of no interest any more. *)
From Stdlib Require Import ZArith Lia.
From stdpp Require Import base gmap gmultiset list strings.
From S2P Require Import Prelude Marks Codes CmTypes NtfData StdMap EventProducer CmData CmProducer CmCache CmHandler EventProducerFacts CmMemory CmProducerFacts CmCacheFacts CmBuildFacts.

Open Scope Z_scope.

(** ** The invariant *)
Definition idle_handler : CmEventHandler := MkHandler [] false.
Abbreviation serves c R := (in_service (cm_owns idle_handler c R)).

(** [F]: the blocks that the client has made; [led]: which events the consumers have
    how often.  The cache, the events and the client own different blocks, all
    of them in use, the cache is in order, and the counts are the ledger. *)
Definition in_order (led : gmultiset ptr) (F : list ptr) (s : Cm) : Prop :=
  exists cm, cache_ok cm /\ serves (Some cm) (cache_blocks cm ++ F) led s.

Section system.
Context (env : environment ntfE) (Hmem : memory_left env) (sizes : Sizes).

(** ** Ownership and service *)
Lemma serves_cache c R led s : serves c R led s -> cmNotificationCache s = c /\ cmEventHandler s = Some idle_handler.
Proof. intros [_ _ _ _ _ ([Hh _] & Hc & _)]. by split. Qed.

Lemma serves_moves {A} (m : C A) P pre post c R led s : moves idle_handler m P pre post -> serves c (pre ++ R) led s ->
  traces m s (fun a s' l => l = [] /\ P a /\ serves c (post a ++ R) led s') (fun _ _ _ => False).
Proof.
  intros Hm [Hi Hr Hc Hf Hd (Hh & Hca & Hpr & Ht & Ho & Hok)].
  set (es := alive (objects (producer_of s))) in *.
  eapply traces_mono; [apply (Hm ((es ≫= notification_blocks) ++ R) s Hh)| |done].
  - eapply owned_perm; [|exact Ho]. by rewrite !(assoc (++)), (comm (++) pre).
  - intros a s' l (-> & [L ->] & HP & Ho'). split; [done|]. split; [done|]. split; [done..|].
    do 4 (split; [done|]). split; [|done]. eapply owned_perm; [|exact Ho']. by rewrite !(assoc (++)), (comm (++) (post a)).
Qed.

Lemma serves_perm c R R' led s : R' ⊆+ R -> serves c R led s -> serves c R' led s.
Proof.
  intros HR [Hi Hr Hc Hf Hd (Hh & Hca & Hpr & Ht & Ho & Hok)]. split; [done..|]. do 4 (split; [done|]). split; [|done].
  eapply owned_sub; [|exact Ho]. by apply submseteq_app.
Qed.

Lemma serves_set c c' R led s : serves c R led s -> serves c' R led (set_cache c' s).
Proof. intros [Hi Hr Hc Hf Hd (Hh & Hca & Hpr & Ht & Ho & Hok)]. split; [done..|]. by do 4 (split; [done|]). Qed.

Lemma serves_touch p c R led s Q W : serves c R led s -> p ∈ R -> Q () s [] -> traces (touch p) s Q W.
Proof.
  intros [_ _ _ _ _ (_ & _ & _ & _ & [_ Ho] & _)] Hp HQ. unfold touch. traces_step. traces_step. apply traces_when; [|done].
  rewrite bool_decide_true; [done|]. apply Ho. set_solver.
Qed.

(** ** Sending *)
Lemma sendEvent_send n c : CmEventProducer_sendEvent env n c = (send (cm_kind env) env n ;; mret MafOk) c.
Proof. unfold CmEventProducer_sendEvent, send, mbind, M_bind. by repeat case_match. Qed.

Lemma push_ends n c R led s : notification_ok n -> serves c (notification_blocks n ++ R) led s ->
  traces (push_CmEventHandler env n) s
    (fun rc s' ms => rc = MafOk /\ forall led', ledger ms led = Some led' -> serves c R led' s')
    (fun w _ ms => is_Some (ledger ms led) -> w = Aborted).
Proof.
  intros Hn Hs. pose proof Hs as [_ _ _ _ _ ([Hh _] & _ & Hpr & _)]. unfold push_CmEventHandler, CmEventHandler_pushEvent, CmEventHandler_sendEvent.
  do 2 traces_step. rewrite Hh. do 3 traces_step. rewrite Hpr. intros tr. rewrite sendEvent_send. revert tr. change (traces (send (cm_kind env) env n ;; mret MafOk) s
    (fun a s' l => traces (mret (if bool_decide (a = MafOk) then MafOk else MafFailure) : C _) s' (fun b s'' l' => b = MafOk /\ forall led', ledger (l ++ l') led = Some led' -> serves c R led' s'')
        (fun w _ l' => is_Some (ledger (l ++ l') led) -> w = Aborted)) (fun w _ ms => is_Some (ledger ms led) -> w = Aborted)).
  traces_step. eapply traces_mono; [apply (send_ok (cm_kind env) (cm_owns idle_handler c R) delivery (fun w => w = Aborted) env n led s)| |done].
  - eapply serves_perm; [|exact Hs]. by apply submseteq_inserts_l.
  - destruct Hs as [Hi Hr Hc Hf Hd (Hha & Hca & Hpr' & Ht & Ho & Hok)]. do 4 (split; [done|]). split; [|by constructor].
    eapply owned_perm; [|exact Ho]. rewrite bind_cons. by rewrite !(assoc (++)), (comm (++) (notification_blocks n)).
  - intros [] s1 ms Hms. do 2 traces_step. split; [done|]. intros led'. rewrite !app_nil_r. intros Hl. rewrite Hl in Hms.
    destruct (Hms ltac:(done) led' eq_refl) as [Hs1 _]. by rewrite (right_id_L ∅ _) in Hs1.
Qed.

Lemma tame_CcbCache_delete c : tame (CcbCache_delete c).
Proof.
  unfold CcbCache_delete, DnCache_delete, AvcCache_delete, isNotificationCacheInDiscardMode, free_container, free_element, free_member, free_pointer.
  do 2 (apply tame_for_each, Forall_forall; intros ? _).
  apply adds_bind; [destruct (avcReference _); [|apply adds_ret]|intros _].
  - apply adds_bind; [apply tame_touch|intros _]. apply adds_bind; [|intros _; apply tame_free]. apply adds_when.
    apply adds_bind; [|intros _; apply tame_free_opt]. apply tame_for_each, Forall_forall. intros ? _. apply adds_bind; [apply adds_of_option|intros ?; apply tame_free_opt].
  - assert (Hc : forall x : Avc, tame (freeAVC x.2 ;; free x.1)) by (intros ?; apply adds_bind; [apply tame_freeAVC|intros _; apply tame_free]).
    apply adds_bind; [grow|]. intros b. apply adds_when. apply adds_bind; [destruct (avcSimple _); [apply Hc|apply adds_ret]|intros _].
    apply adds_bind; [destruct (avcRuntimeStruct _); [apply Hc|apply adds_ret]|intros _]. apply adds_when.
    do 2 (apply tame_for_each, Forall_forall; intros ? _). apply Hc.
Qed.

(** ** Naming the attributes of an object *)
Lemma setDn_ends ccbId src dn t last cm F led s : cache_ok cm -> dn <> tempCacheKey -> serves (Some cm) (cache_blocks cm ++ F) led s ->
  traces (setDn env sizes 0 ccbId src dn t last cm) s
    (fun r s' ms => forall led', ledger ms led = Some led' -> r.1 = MafOk /\ cache_ok r.2 /\ serves (Some cm) (cache_blocks r.2 ++ F) led' s')
    (fun w _ ms => is_Some (ledger ms led) -> w = Aborted).
Proof.
  intros Hcm Hne Hs. unfold setDn, over_limit. cbn [limited negb Z.eqb andb]. rewrite bool_decide_false by done.
  destruct (getCache ccbId _ cm) as [ccb cm1] eqn:Eg.
  destruct (get_change ccb_ok ccb_blocks _ (new_CcbCache sizes 0) _ _ _ Hcm eq_refl Eg) as [Hccb (rest & Hrest & [Hdel Hpdel] & Hput)].
  set (ccb1 := MkCcbCache _ _ _). assert (Hok1 : ccb_ok ccb1) by (destruct Hccb as [?| ->]; [done|apply base_nil]).
  traces_step. eapply traces_mono; [eapply (serves_moves _ _ (ccb_blocks ccb1) _ (Some cm) (rest ++ F)); [by apply moves_place|]| |done].
  { eapply serves_perm; [|exact Hs]. unfold cache_blocks. rewrite Hrest. by rewrite <- app_assoc. }
  intros [cm2 ccb2] s1 l (-> & (Hcm2 & Hok2 & [d Hd]) & Hs1). cbn [fst snd] in *. subst cm2. destruct last.
  - traces_step. rewrite Hd. traces_step.
    set (skip := _ && _). set (m := (if skip then _ else _ : C CcbCache)).
    assert (Hm : traces m s1 (fun c s' ms => forall led', ledger ms led = Some led' -> ccb_refs_ok c /\ serves (Some cm) (ccb_refs c ++ rest ++ F) led' s')
       (fun w _ ms => is_Some (ledger ms led) -> w = Aborted)).
    { unfold m. destruct skip.
      - traces_step. intros led' [= <-]. split; [by apply ccb_ok_refs|]. eapply serves_perm; [|exact Hs1]. apply submseteq_app; [|reflexivity]. apply ccb_refs_sub.
      - traces_step. eapply traces_mono; [eapply (serves_moves _ _ (ccb_blocks ccb2) _ (Some cm) (rest ++ F)); [by apply moves_buildEventStruct|exact Hs1]| |done].
        intros [n c] s2 l (-> & (Hn & Hc & _) & Hs2). cbn [fst snd] in *. traces_step. rewrite <- app_assoc in Hs2.
        eapply traces_mono; [by eapply (push_ends n _ _ led)| |done]. intros rc s3 ms (-> & Hms). traces_step. rewrite app_nil_r. cbn [app]. intros led' Hl. split; [done|by apply Hms]. }
    traces_step. eapply traces_mono; [exact Hm| |done]. intros c s2 ms Hms.
    destruct (ledger ms led) as [led2|] eqn:El.
    + destruct (Hms led2 El) as [Hc Hs2]. traces_step. eapply traces_mono; [eapply (serves_moves _ _ (ccb_refs c) _ (Some cm) (rest ++ F)); [by apply moves_CcbCache_delete|exact Hs2]| |done].
      intros [] s3 l (-> & _ & Hs3). traces_step. rewrite app_nil_r. cbn [app]. rewrite El. intros led' [= <-]. split; [done|]. split; [exact Hdel|].
      eapply serves_perm; [|exact Hs3]. unfold cache_blocks. cbn [snd]. by rewrite Hpdel.
    + eapply adds_traces; [apply adds_bind; [apply tame_CcbCache_delete|intros _; apply adds_ret]| |]; intros ? ? ?; rewrite ledger_app, El; [done|by intros [? ?]].
  - traces_step. destruct (Hput _ Hok2) as [Hok3 Hp3]. intros led' [= <-]. do 2 (split; [done|]). eapply serves_perm; [|exact Hs1].
    unfold cache_blocks. cbn [snd]. rewrite Hp3. by rewrite <- app_assoc.
Qed.

(** ** The interface of the cache *)
Definition handed_over (ccbId : Z) (immRdn : option string) (v : option Avc) : list ptr :=
  match v with Some v => incoming_blocks ccbId (default ""%string immRdn) v | None => [] end.

Definition acceptable (ccbId : Z) (immRdn : option string) (a : Avc) : Prop := incoming_ok ccbId (default ""%string immRdn) a /\ prints a.2 = true.
Lemma addToCmCache_ok ccbId a i m v led F s : in_order led F s ->
  opt_ok (acceptable ccbId i) v -> handed_over ccbId i v ⊆+ F ->
  traces (addToCmCache env sizes 0 ccbId a i m v) s
    (fun _ s' ms => ms = [] /\ forall F', F ≡ₚ handed_over ccbId i v ++ F' -> in_order led F' s')
    (fun w _ ms => w = Aborted).
Proof.
  intros (cm & Hcm & Hs). destruct (serves_cache _ _ _ _ Hs) as [Hca Hha]. unfold addToCmCache. destruct v as [v|]; cbn [opt_ok handed_over].
  2: { intros _ _. repeat traces_step. split; [done|]. intros F' HF. exists cm. split; [done|]. eapply serves_perm; [|exact Hs]. cbn in HF. by rewrite HF. }
  intros [Hv Hprints] [rest HF0]%submseteq_Permutation.
  traces_step. eapply (serves_touch v.1); [exact Hs|apply elem_of_app; right; rewrite HF0; apply elem_of_app; left; unfold incoming_blocks; case_match; left|].
  traces_step. eapply traces_mono; [eapply (serves_moves _ _ (incoming_blocks ccbId (default ""%string i) v) _ (Some cm) (cache_blocks cm ++ rest)); [by apply moves_print_incoming|]| |done].
  { eapply serves_perm; [|exact Hs]. rewrite HF0. blocks. }
  intros log s1 l (-> & _ & Hs1). clear Hca Hha. destruct (serves_cache _ _ _ _ Hs1) as [Hca Hha].
  do 2 traces_step. rewrite Hca. destruct a as [a|]; [|by repeat traces_step]. destruct i as [i|]; [|by repeat traces_step]. cbn [default] in *.
  do 5 traces_step. unfold addAttr, over_limit. cbn [limited negb Z.eqb andb].
  eapply traces_mono; [eapply (serves_moves _ _ (incoming_blocks ccbId i v ++ cache_blocks cm) _ _ rest); [by apply moves_add_attr|]| |done].
  { eapply serves_perm; [|exact Hs1]. cbn [default from_option id]. blocks. }
  intros r s2 l (-> & [_ Hok] & Hs2). repeat traces_step. split; [done|]. intros F' HF. exists r.2. split; [done|]. apply (serves_set (Some cm)).
  eapply serves_perm; [|exact Hs2]. rewrite HF0 in HF. apply Permutation_app_inv_l in HF. by rewrite HF.
Qed.

Lemma setDnInCmCache_ok ccbId src dn t last led F s : in_order led F s -> dn <> Some tempCacheKey ->
  traces (setDnInCmCache env sizes 0 ccbId src dn t last) s
    (fun _ s' ms => forall led', ledger ms led = Some led' -> in_order led' F s')
    (fun w _ ms => is_Some (ledger ms led) -> w = Aborted).
Proof.
  intros (cm & Hcm & Hs) Hdn. destruct (serves_cache _ _ _ _ Hs) as [Hca _].
  unfold setDnInCmCache. do 2 traces_step. rewrite Hca. destruct dn as [dn|]; [|by repeat traces_step]. repeat traces_step.
  eapply traces_mono; [apply (setDn_ends ccbId src dn t last cm F led s Hcm); [by intros ->|exact Hs]| |done].
  intros r s1 ms Hms. repeat traces_step. intros led'. rewrite !app_nil_r. intros Hl. destruct (Hms led' Hl) as (_ & Hok & Hs1).
  exists r.2. split; [done|]. by apply (serves_set (Some cm)).
Qed.

(** ** All that happens *)
Inductive cm_op :=
| Allocates
| AddsAttribute (ccbId : Z) (attrName immRdn memberName : option string) (memberValue : option Avc)
| SetsDn (ccbId : Z) (source : MafOamSpiCmEvent_SourceIndicator_1T) (dn : option string) (eventType : MafOamSpiCmEvent_EventType_1T) (ccbLast : bool)
| ConsumerDoes (o : producer_op (EvT := CmNotification)).

(** With the blocks that the client gets. *)
Definition exec_cm (o : cm_op) : C (list ptr) :=
  match o with
  | Allocates => p ← block env; mret [p]
  | AddsAttribute ccbId a i m v => rc ← addToCmCache env sizes 0 ccbId a i m v; mret []
  | SetsDn ccbId src dn t last => rc ← setDnInCmCache env sizes 0 ccbId src dn t last; mret []
  | ConsumerDoes o => exec_op (cm_kind env) env o ;; mret []
  end.

(** What the client hands over. *)
Definition handed (o : cm_op) : list ptr :=
  match o with AddsAttribute ccbId _ i _ (Some v) => incoming_blocks ccbId (default ""%string i) v | _ => [] end.
(** Values are well formed and the client's, and their doubles can be printed; no object has
    the name of the temporary entry, and consumers give back what they have. *)
Definition polite (led : gmultiset ptr) (F : list ptr) (o : cm_op) : Prop :=
  match o with
  | Allocates => True
  | AddsAttribute ccbId _ i _ v => opt_ok (acceptable ccbId i) v /\ handed o ⊆+ F
  | SetsDn _ _ dn _ _ => dn <> Some tempCacheKey
  | ConsumerDoes (GivesBack p) => p ∈ led
  | ConsumerDoes (Sends _) => False
  | ConsumerDoes _ => True
  end.
Definition cm_ledger (o : cm_op) (ms : list (ptr * list ptr)) (led : gmultiset ptr) : option (gmultiset ptr) :=
  match o with ConsumerDoes o => ledger_op o ms led | _ => ledger ms led end.

Lemma cm_op_ok o led F s : in_order led F s -> polite led F o ->
  traces (exec_cm o) s
    (fun got s' ms => forall led' F', cm_ledger o ms led = Some led' -> got ++ F ≡ₚ handed o ++ F' -> in_order led' F' s')
    (fun w _ ms => is_Some (cm_ledger o ms led) -> w = Aborted).
Proof.
  intros (cm & Hcm & Hs) Hp. destruct (serves_cache _ _ _ _ Hs) as [Hca Hha]. destruct o as [|ccbId a i m v|ccbId src dn t last|o]; cbn [exec_cm cm_ledger handed] in *.
  - traces_step. eapply traces_mono; [eapply (serves_moves _ _ [] _ _ (cache_blocks cm ++ F)); [by apply moves_block|exact Hs]| |done].
    intros p s1 l (-> & _ & Hs1). traces_step. intros led' F' [= <-] HF. exists cm. split; [done|]. eapply serves_perm; [|exact Hs1].
    cbn [app] in *. rewrite <- HF. blocks.
  - destruct Hp as [Hv Hin]. traces_step. eapply traces_mono; [apply (addToCmCache_ok ccbId a i m v led F s); [by exists cm|done|by destruct v]| |by intros w s1 ms ->].
    intros rc s1 ms [-> Hms]. traces_step. intros led' F' [= <-] HF. apply Hms. by destruct v.
  - traces_step. eapply traces_mono; [apply (setDnInCmCache_ok ccbId src dn t last led F s); [by exists cm|done]| |done].
    intros rc s1 ms Hms. traces_step. intros led' F'. rewrite app_nil_r. intros Hl HF. cbn in HF. destruct (Hms led' Hl) as (cm' & ? & Hs').
    exists cm'. split; [done|]. eapply serves_perm; [|exact Hs']. by rewrite HF.
  - traces_step. eapply traces_mono; [apply (op_ok (cm_kind env) (cm_owns idle_handler (Some cm) (cache_blocks cm ++ F)) delivery (fun w => w = Aborted) env o led s Hs)| |done].
    { by destruct o. }
    intros [] s1 ms Hms. traces_step. intros led' F'. rewrite app_nil_r. intros Hl HF. exists cm. split; [done|]. eapply serves_perm; [|by apply Hms].
    cbn in HF. by rewrite HF.
Qed.

Lemma start_in_order : traces (start_CmEventHandler env) cm_initial (fun _ s ms => ms = [] /\ in_order ∅ [] s) (fun _ _ _ => True).
Proof.
  unfold start_CmEventHandler, newCmNotificationCache, CmEventHandler_start, CmEventProducer_new, CmEventProducer_start, EventProducer_new, start, getEventRouter, on_producer.
  repeat traces_step. case_bool_decide; repeat traces_step; [done|]. destruct r as [rc [|]]; cbn [negb when snd fst]; repeat traces_step; [|done].
  case_bool_decide; cbn [when]; [by repeat traces_step|]. repeat traces_step. case_bool_decide; cbn [when]; [by repeat traces_step|]. do 3 traces_step.
  split; [done|]. exists (MkBase [] 0 0). split; [apply base_nil|]. split; [done|done|intros p; change (p ∉ (∅ : gmultiset ptr)); multiset_solver|by constructor|by constructor|].
  do 4 (split; [done|]). split; [split; [constructor|by intros ? ?%elem_of_nil]|constructor].
Qed.

(** ** Histories

    [reached led F s]: after a successful start and any number of operations. *)
Inductive reached : gmultiset ptr -> list ptr -> Cm -> Prop :=
| reached_start tr s tr' : start_CmEventHandler env (cm_initial, tr) = (Ret MafOk, (s, tr')) -> reached ∅ [] s
| reached_step led F s o tr got s' new led' F' :
    reached led F s -> polite led F o -> exec_cm o (s, tr) = (Ret got, (s', tr ++ new)) ->
    cm_ledger o (omap delivery new) led = Some led' -> got ++ F ≡ₚ handed o ++ F' -> reached led' F' s'.

Lemma reached_in_order led F s : reached led F s -> in_order led F s.
Proof.
  induction 1 as [tr s tr' Hs|led F s o tr got s' new led' F' _ IH Hp He Hl HF].
  - pose proof (start_in_order tr) as Hst. rewrite Hs in Hst. by destruct Hst as (? & _ & _ & ?).
  - pose proof (cm_op_ok o led F s IH Hp tr) as Ho. rewrite He in Ho. destruct Ho as (new' & Hnew & Ho). cbn [fst snd] in *.
    apply app_inv_head in Hnew as <-. by apply Ho.
Qed.

Lemma reached_exec led F c o got c' led' F' :
  reached led F c.1 -> polite led F o -> exec_cm o c = (Ret got, c') ->
  cm_ledger o (omap delivery (drop (length c.2) c'.2)) led = Some led' -> got ++ F ≡ₚ handed o ++ F' -> reached led' F' c'.1.
Proof.
  destruct c as [s tr], c' as [s' tr']. cbn [fst snd]. intros Hs Hp He Hl HF.
  pose proof (cm_op_ok o led F s (reached_in_order led F s Hs) Hp tr) as Ho. rewrite He in Ho. destruct Ho as (new & Hnew & _). cbn in Hnew. subst tr'.
  rewrite drop_app_length in Hl. by eapply reached_step.
Qed.
End system.

Create HintDb tame discriminated.
#[export] Hint Resolve tame_touch tame_free tame_free_opt tame_freeAVC tame_CcbCache_delete : tame.

Lemma tame_grows {A} (m : C A) : tame m -> grows m.
Proof. by apply adds_mono. Qed.

(** Structural steps, case analysis, and what is known of other programs. *)
Ltac growing :=
  repeat first
    [ solve [auto with tame nocore] | apply tame_grows; solve [auto with tame nocore] | apply adds_bind; [|intros ?] | apply adds_ret | apply adds_exit | apply adds_get | apply adds_gets
    | apply adds_modify | apply adds_of_option | apply adds_when | apply adds_call; intros ?; first [exact I | reflexivity] | assumption
    | match goal with |- adds _ (match ?x with _ => _ end) => destruct x end | progress cbv zeta ].

Section growth.
Context (env : environment ntfE) (sizes : Sizes) (max : Z).

Lemma tame_add_live l : tame (add_live l).
Proof. apply adds_modify. Qed.
#[local] Hint Resolve tame_add_live : tame.
Lemma tame_block : tame (block env).
Proof. unfold block. growing. Qed.
#[local] Hint Resolve tame_block : tame.
Lemma tame_text t : tame (text env t).
Proof. unfold text. growing. Qed.
#[local] Hint Resolve tame_text : tame.

(** ** The producer *)
Lemma tame_any_dn p l : tame (any_dn env p l).
Proof. induction l; cbn [any_dn]; growing. Qed.
#[local] Hint Resolve tame_any_dn : tame.
Lemma tame_any_pattern ps l : tame (any_pattern env ps l).
Proof. induction ps; cbn [any_pattern]; growing. Qed.
Lemma tame_dn_list l : tame (dn_list l).
Proof. induction l; cbn [dn_list]; growing. Qed.
#[local] Hint Resolve tame_any_pattern tame_dn_list : tame.
Lemma tame_isMatch f n : tame (RegexpFilter_isMatch env f n).
Proof. unfold RegexpFilter_isMatch. growing. Qed.
#[local] Hint Resolve tame_isMatch : tame.
#[local] Existing Instance cm_kind.
Lemma tame_object p : tame (object p : C (Z * CmNotification)).
Proof. unfold object, producer. growing. Qed.
#[local] Hint Resolve tame_object : tame.
Lemma tame_matching (l : list Consumer) (n : CmNotification) : tame (matching (H1 := cm_kind env) l n).
Proof. induction l as [|c l IH]; cbn [matching]; unfold filter_object, producer; growing. apply tame_isMatch. Qed.
#[local] Hint Resolve tame_matching : tame.
Lemma tame_release (p : ptr) : tame (releaseRef (H1 := cm_kind env) p : C ()).
Proof. apply (adds_releaseRef (cm_kind env)). intros e. apply tame_freeCmEvents. Qed.
Lemma tame_notify (l : list Consumer) (p : ptr) : tame (notify_all (H1 := cm_kind env) env l p : C ()).
Proof. apply (adds_notify_all (cm_kind env)); [intros e; apply tame_freeCmEvents|done]. Qed.
#[local] Hint Resolve tame_release tame_notify : tame.
Lemma tame_push_CmEventHandler n : tame (push_CmEventHandler env n).
Proof.
  unfold push_CmEventHandler, CmEventHandler_pushEvent, CmEventHandler_sendEvent, CmEventProducer_sendEvent, new_object, set_object, on_producer, push, producer.
  growing.
Qed.
#[local] Hint Resolve tame_push_CmEventHandler : tame.
Lemma tame_buildOverflowEvent : tame (buildOverflowEvent env).
Proof. unfold buildOverflowEvent, getTime. growing. Qed.
#[local] Hint Resolve tame_buildOverflowEvent : tame.

(** ** The cache *)
Lemma tame_bytes_of avc : tame (bytes_of sizes max avc).
Proof. unfold bytes_of. growing. Qed.
#[local] Hint Resolve tame_bytes_of : tame.
Lemma tame_addToStructElementList name avc e : tame (addToStructElementList sizes max name avc e).
Proof. unfold addToStructElementList. growing. Qed.
#[local] Hint Resolve tame_addToStructElementList : tame.
Lemma tame_add_members l e : tame (add_members sizes max l e).
Proof. revert e. induction l; intros e; cbn [add_members]; growing. Qed.
Lemma tame_add_value ccbId immRdn name avc a : tame (add_value sizes max ccbId immRdn name avc a).
Proof. unfold add_value. growing. Qed.
#[local] Hint Resolve tame_add_members tame_add_value : tame.
Lemma tame_add_attr ccbId a i m v cm : tame (add_attr sizes max ccbId a i m v cm).
Proof. unfold add_attr. growing. Qed.
#[local] Hint Resolve tame_add_attr : tame.
Lemma tame_on_handler f : tame (on_handler f).
Proof. unfold on_handler. growing. Qed.
#[local] Hint Resolve tame_on_handler : tame.
Lemma tame_discardAllCcbs cm : tame (discardAllCcbs env cm).
Proof. unfold discardAllCcbs, setNotificationCacheDiscardMode, addDiscardedCcb. growing. Qed.
#[local] Hint Resolve tame_discardAllCcbs : tame.
Lemma tame_value_texts type l : tame (value_texts type l).
Proof. induction l; cbn [value_texts]; unfold value_text, sprintf_100; growing. Qed.
#[local] Hint Resolve tame_value_texts : tame.
Lemma tame_addToCmCache ccbId a i m v : tame (addToCmCache env sizes max ccbId a i m v).
Proof. unfold addToCmCache, attrValueContainerToString, addAttr. growing. Qed.

Lemma tame_AvcCache_delete a : tame (AvcCache_delete a).
Proof. unfold AvcCache_delete, isNotificationCacheInDiscardMode, free_container, free_element, free_member, free_pointer. growing.
  all: apply tame_for_each, Forall_forall; intros ? _; growing. apply tame_for_each, Forall_forall; intros ? _; growing. Qed.
#[local] Hint Resolve tame_AvcCache_delete : tame.
Lemma tame_merge_elements attr l s : tame (merge_elements sizes max attr l s).
Proof. revert s. induction l as [|[key e] l IH]; intros s; cbn [merge_elements]; unfold attr_of; growing; apply IH. Qed.
#[local] Hint Resolve tame_merge_elements : tame.
Lemma tame_merge_attrs l s : tame (merge_attrs sizes max l s).
Proof. revert s. induction l as [|[attr a] l IH]; intros s; cbn [merge_attrs]; growing; apply IH. Qed.
#[local] Hint Resolve tame_merge_attrs : tame.
Lemma tame_place dn t cm c : tame (place sizes max dn t cm c).
Proof. unfold place, isNotificationCacheInDiscardMode. growing. Qed.
#[local] Hint Resolve tame_place : tame.

Lemma tame_build_members l : tame (build_members env l).
Proof. induction l; cbn [build_members]; growing. Qed.
#[local] Hint Resolve tame_build_members : tame.
Lemma tame_build_elements l : tame (build_elements env l).
Proof. induction l; cbn [build_elements]; growing. Qed.
#[local] Hint Resolve tame_build_elements : tame.
Lemma tame_build_attributes l : tame (build_attributes env l).
Proof. induction l; cbn [build_attributes]; unfold build_attribute, buildAVC_configStructType, taken; growing. Qed.
#[local] Hint Resolve tame_build_attributes : tame.
Lemma tame_build_events l : tame (build_events env l).
Proof. induction l; cbn [build_events]; growing. Qed.
#[local] Hint Resolve tame_build_events : tame.
Lemma tame_setDnInCmCache ccbId src dn t last : tame (setDnInCmCache env sizes max ccbId src dn t last).
Proof. unfold setDnInCmCache, setDn, buildEventStruct, getTime. growing. Qed.
Lemma tame_isDiscardedCcb ccbId : tame (isDiscardedCcb max ccbId).
Proof. unfold isDiscardedCcb. growing. Qed.
Lemma tame_removeDiscardedCcb ccbId : tame (removeDiscardedCcb max ccbId).
Proof. unfold removeDiscardedCcb. growing. Qed.
End growth.
#[export] Hint Resolve tame_add_live tame_block tame_text tame_push_CmEventHandler tame_buildOverflowEvent tame_addToCmCache tame_setDnInCmCache
  tame_isDiscardedCcb tame_removeDiscardedCcb : tame.
