(* ===== verification/CmProps.v ===== *)
(** * Events of the configuration: theorems

    Memory and reference counts of the handler in every state that it can get
    into, what naming an object does, what an event says, and how the limit on
    memory takes the process down. *)
From Stdlib Require Import ZArith Lia.
From stdpp Require Import base gmap gmultiset list strings.
From S2P Require Import Prelude Marks Codes CmTypes NtfData NtfValueProps StdMap EventProducer EventProducerFacts CmData CmProducer CmCache CmHandler.
From S2P Require Import CmMemory CmProducerFacts CmCacheFacts CmBuildFacts CmSystem.

Open Scope Z_scope.

(** C15. The handler without a limit on memory ([maxSAMemoryForCMEvents] is 0), started and used in
    any order of [polite] operations, never touches memory that it does not own.  In every state
    that it can get into, a polite operation leaves it running, or is ended by an exception that
    nobody catches (a null name, a failing library): no freed or foreign block is touched.
    Polite: a value that is handed over is well formed and the client's own, its doubles
    print in less than 100 characters (the buffer of the debug log, [long_double_faults]); no object
    has the name of the temporary entry; consumers give back events that they have, also
    during a delivery.  And there is memory left. *)
Theorem cm_never_faults env (sizes : Sizes) (Hmem : memory_left env) led F s (Hs : reached env sizes led F s) o (Hp : polite led F o) tr :
  match exec_cm env sizes o (s, tr) with
  | (Ret _, _) => True
  | (Exit w, (_, tr')) => exists new, tr' = tr ++ new /\ (is_Some (cm_ledger o (omap delivery new) led) -> w = Aborted)
  end.
Proof.
  pose proof (cm_op_ok env Hmem sizes o led F s (reached_in_order env Hmem sizes led F s Hs) Hp tr) as Ho.
  destruct (exec_cm env sizes o (s, tr)) as [[a|w] [s' tr']]; [done|]. exact Ho.
Qed.

(** What a double that is too long does: the debug text of the value is written over the end of
    its buffer, whatever the rest of the call is. *)
Lemma long_double_faults env sizes max ccbId a i m p vs x l s tr : p ∈ live s -> vs ∈ live s ->
  prints (MkAvc MafOamSpiMoAttributeType_3_DECIMAL64 (Some vs) (x :: l)) = false ->
  addToCmCache env sizes max ccbId a i m (Some (p, MkAvc MafOamSpiMoAttributeType_3_DECIMAL64 (Some vs) (x :: l))) (s, tr) = (Exit BadPointer, (s, tr)).
Proof.
  intros Hp Hvs Hx. unfold addToCmCache, mbind at 1, M_bind, touch, mbind at 1, M_bind. cbn -[attrValueContainerToString live].
  rewrite bool_decide_true by done. cbn -[attrValueContainerToString]. unfold mbind at 1, M_bind.
  by rewrite (long_double_overflows _ (Some vs) vs x l s tr Hvs).
Qed.
(** The doubles nearest to 10^92 and 10^91. *)
Example double_of_100_characters : String.length (double_text 0x53088ba3bf284e24) = 100%nat /\ String.length (double_text 0x52d3a2e965b9d81d) = 99%nat.
Proof. by vm_compute. Qed.

(** C16. In every state that the handler can get into, every block of memory has exactly
    one owner: the blocks of the events that consumers have, those of the
    values in the cache and the client's are all different, and all of them are in
    use.  An event is there exactly as long as a consumer has it, and its count is how
    often the consumers have it: it is freed exactly when the last of them gives it
    back. *)
Theorem cm_blocks_have_one_owner env (sizes : Sizes) (Hmem : memory_left env) led F s (Hs : reached env sizes led F s) :
  exists cm, cmNotificationCache s = Some cm /\ cache_ok cm /\
    (let all := (alive (objects (_eventProducer s)) ≫= notification_blocks) ++ cache_blocks cm ++ F in NoDup all /\ forall p, p ∈ all -> p ∈ live s) /\
    forall p, match objects (_eventProducer s) !! p with
         | Some o => fst o = Z.of_nat (multiplicity p led) /\ p ∈ led
         | None => p ∉ led
         end.
Proof.
  destruct (reached_in_order env Hmem sizes led F s Hs) as (cm & Hcm & Hsv). destruct (serves_cache _ _ _ _ Hsv) as [Hc _].
  exists cm. do 2 (split; [done|]). split; [by destruct Hsv as [_ _ _ _ _ (_ & _ & _ & _ & Ho & _)]|exact (sv_counted _ _ _ Hsv)].
Qed.

(** C17. When the last change of a bundle is reported, the event that goes out says
    exactly what the cache holds of the bundle: one event per object in the order of the
    names, with the kind of its change; per attribute, in the order of the names, an
    array of the structs with their members in the order in which they came, else the value a
    running object reported, else the simple value.  Making it never fails as long as
    there is memory, and all that was in the cache belongs to the event then, but for
    the struct references, which are still the cache's. *)
Theorem event_says_what_the_cache_holds env (Hmem : memory_left env) h c s tr (Hh : calm_handler h s) (Hc : ccb_ok c) (Ho : owned (ccb_blocks c) s) :
  sat (buildEventStruct env c) (s, tr) (fun r c' =>
    notification_of c r.1 /\ notification_ok r.1 /\ owned (notification_blocks r.1 ++ ccb_refs r.2) c'.1).
Proof.
  rewrite <- (app_nil_r (ccb_blocks c)) in Ho.
  pose proof (moves_buildEventStruct env Hmem h c Hc [] s Hh Ho tr) as Hm.
  destruct (buildEventStruct env c (s, tr)) as [[r|w] [s' tr']] eqn:E; [|by destruct Hm as (? & _ & [])].
  destruct Hm as (new & _ & _ & _ & (Hok & _ & Hn) & Hown). rewrite app_nil_r in Hown. eapply sat_intro; [exact E|done].
Qed.

(** C18. Naming the attributes that wait, when the bundle knows the object already, loses
    no attribute: one that is new comes with all its values, and one that the object
    has gets the elements of the waiting one after its own; but its simple value,
    reference and struct of a running object stay what they were first.  The kinds of
    the changes add up; the other objects stay as they are, and nothing waits any
    more.  Nothing is freed but the references of the waiting attribute. *)
Theorem naming_merges h (sizes : Sizes) dn t cm c s tr (Hh : calm_handler h s) (Hc : ccb_ok c) (Ho : owned (ccb_blocks c) s) (Hdn : dn <> tempCacheKey) :
  sat (place sizes 0 dn t cm c) (s, tr) (fun p c' => p.1 = cm /\ named dn t c p.2 /\ ccb_ok p.2 /\ owned (ccb_blocks p.2) c'.1).
Proof.
  rewrite <- (app_nil_r (ccb_blocks c)) in Ho.
  pose proof (moves_place h sizes dn t cm c Hc Hdn [] s Hh Ho tr) as Hm. pose proof (yields_place sizes dn t cm c Hc Hdn (s, tr)) as Hy.
  destruct (place sizes 0 dn t cm c (s, tr)) as [[p|w] [s' tr']] eqn:E; [|by destruct Hm as (? & _ & [])].
  destruct Hm as (new & _ & _ & _ & (Hcm & Hok & _) & Hown). rewrite app_nil_r in Hown. eapply sat_intro; [exact E|]. split; [done|]. split; [by eapply Hy|done].
Qed.

Definition lost {A} (m : C A) : Prop := forall c, exists w c', m c = (Exit w, c').
Lemma lost_first {A B} (m : C A) (k : A -> C B) : lost m -> lost (m ≫= k).
Proof. intros Hm c. destruct (Hm c) as (w & c' & Hc). exists w, c'. unfold mbind, M_bind. by rewrite Hc. Qed.
Lemma lost_then {A B} (m : C A) (k : A -> C B) : (forall a, lost (k a)) -> lost (m ≫= k).
Proof. intros Hk c. unfold mbind, M_bind. destruct (m c) as [[a|w] c1]; [apply Hk|eauto]. Qed.

(** With a limit on memory, the first attribute that comes when the cache holds more
    than the limit takes the process down: the overflow event goes out, but the loop
    that discards the bundles goes on from an entry that it has erased. *)
Theorem over_the_limit_no_return env (sizes : Sizes) max ccbId attrName immRdn memberName avc cm
    (Hover : over_limit max cm = true) (Hne : cacheMap cm <> []) c :
  exists w c', addAttr env sizes max ccbId attrName immRdn memberName avc cm c = (Exit w, c').
Proof.
  unfold addAttr. rewrite Hover. apply lost_first. unfold discardAllCcbs. destruct (cacheMap cm) as [|[id ccb] rest]; [done|].
  repeat (apply lost_then; intros ?). intros c0. by do 2 eexists.
Qed.

(** ** A history

    A client makes an integer, hands it over and ends the bundle; the consumer keeps the
    event. *)
Definition demo_sizes : Sizes := MkSizes 8 8 8 8 16 8.
Definition demo_avc : Avc := (0%nat, MkAvc MafOamSpiMoAttributeType_3_INT32 (Some 1%nat) [Number 7]).
Definition demo_start := snd (start_CmEventHandler demo_ntf (cm_initial, [])).
Definition demo_script : list cm_op :=
  [Allocates; Allocates; ConsumerDoes (ConsumerAdds 4 MafOamSpiCmEvent_Notification_1 (Some (9, [])));
   AddsAttribute 3 (Some "attr"%string) (Some "A=1"%string) None (Some demo_avc);
   SetsDn 3 MafOamSpiCmEvent_Unknown_1 (Some "A=1"%string) MafOamSpiCmEvent_MoCreated_1 true].
Definition demo_after (n : nat) := foldl (fun c o => snd (exec_cm demo_ntf demo_sizes o c)) demo_start (take n demo_script).

Definition demo_event : ptr := 0%nat.

Lemma demo_memory : memory_left demo_ntf.
Proof. by intros tr. Qed.
Ltac demo_step n led F o got :=
  apply (reached_exec demo_ntf demo_memory demo_sizes led F (demo_after n) o got (demo_after (Datatypes.S n)));
  [|try done|vm_compute; reflexivity|vm_compute; reflexivity|try done].
Lemma demo_reached : reached demo_ntf demo_sizes {[+ demo_event +]} [] (fst (demo_after 5)).
Proof.
  demo_step 4%nat (∅ : gmultiset ptr) ([] : list ptr) (SetsDn 3 MafOamSpiCmEvent_Unknown_1 (Some "A=1"%string) MafOamSpiCmEvent_MoCreated_1 true) ([] : list ptr).
  demo_step 3%nat (∅ : gmultiset ptr) [0%nat; 1%nat] (AddsAttribute 3 (Some "attr"%string) (Some "A=1"%string) None (Some demo_avc)) ([] : list ptr).
  2: { split; [split; [split; [by right|by repeat split]|done]|]. apply (bool_decide_unpack _). by vm_compute. }
  demo_step 2%nat (∅ : gmultiset ptr) [0%nat; 1%nat] (ConsumerDoes (ConsumerAdds 4 MafOamSpiCmEvent_Notification_1 (Some (9, [])))) ([] : list ptr).
  demo_step 1%nat (∅ : gmultiset ptr) [0%nat] Allocates [1%nat].
  2: { apply (bool_decide_unpack _). by vm_compute. }
  demo_step 0%nat (∅ : gmultiset ptr) ([] : list ptr) Allocates [0%nat].
  apply (reached_start _ _ [] _ (snd demo_start)). vm_compute. reflexivity.
Qed.

Lemma cm_never_faults_witness :
  match exec_cm demo_ntf demo_sizes (ConsumerDoes (GivesBack demo_event)) (fst (demo_after 5), []) with
  | (Ret _, _) => True
  | (Exit w, (_, tr')) => exists new, tr' = [] ++ new /\ (is_Some (cm_ledger (ConsumerDoes (GivesBack demo_event)) (omap delivery new) {[+ demo_event +]}) -> w = Aborted)
  end.
Proof. apply (cm_never_faults demo_ntf demo_sizes demo_memory {[+ demo_event +]} [] _ demo_reached (ConsumerDoes (GivesBack demo_event))). cbn. multiset_solver. Defined.

Lemma cm_blocks_have_one_owner_witness :
  exists cm, cmNotificationCache (fst (demo_after 5)) = Some cm /\ cache_ok cm /\
    (let all := (alive (objects (_eventProducer (fst (demo_after 5)))) ≫= notification_blocks) ++ cache_blocks cm ++ [] in
     NoDup all /\ forall p, p ∈ all -> p ∈ live (fst (demo_after 5))) /\
    forall p, match objects (_eventProducer (fst (demo_after 5))) !! p with
         | Some o => fst o = Z.of_nat (multiplicity p {[+ demo_event +]}) /\ p ∈ ({[+ demo_event +]} : gmultiset ptr)
         | None => p ∉ ({[+ demo_event +]} : gmultiset ptr)
         end.
Proof. apply (cm_blocks_have_one_owner demo_ntf demo_sizes demo_memory _ _ _ demo_reached). Defined.

(** A bundle with a simple attribute of an object, and another value of it waiting. *)
Definition demo_attr (p v : ptr) (n : Z) : StdMap string AvcCache :=
  [("attr"%string, MkAvcCache (MkBase [] 0 0) (Some (p, MkAvc MafOamSpiMoAttributeType_3_INT32 (Some v) [Number n])) None None)].
Definition demo_dn (p v : ptr) (n : Z) : DnCache := MkDnCache (MkBase (demo_attr p v n) 0 0) true false false false false.
Definition demo_ccb : CcbCache := MkCcbCache (MkBase [("A=1"%string, demo_dn 1 2 7); (tempCacheKey, demo_dn 3 4 8)] 0 0) MafOamSpiCmEvent_Unknown_1 0.
Definition demo_handler_state : Cm := set_handler (Some idle_handler) (set_live {[1%nat; 2%nat; 3%nat; 4%nat]} cm_initial).
Lemma demo_ccb_ok : ccb_ok demo_ccb.
Proof. repeat first [exact I | reflexivity | apply Forall_nil_2 | apply Forall_cons_2 | apply conj | by right]. Qed.
Lemma demo_ccb_owned : owned (ccb_blocks demo_ccb) demo_handler_state.
Proof. split; [apply (bool_decide_unpack _); by vm_compute|]. cbn. set_solver. Qed.
Lemma demo_calm : calm_handler idle_handler demo_handler_state.
Proof. done. Qed.

Lemma event_says_what_the_cache_holds_witness :
  sat (buildEventStruct demo_ntf demo_ccb) (demo_handler_state, []) (fun r c' =>
    notification_of demo_ccb r.1 /\ notification_ok r.1 /\ owned (notification_blocks r.1 ++ ccb_refs r.2) c'.1).
Proof. apply (event_says_what_the_cache_holds demo_ntf demo_memory idle_handler demo_ccb demo_handler_state [] demo_calm demo_ccb_ok demo_ccb_owned). Defined.

Lemma naming_merges_witness :
  sat (place demo_sizes 0 "A=1" MafOamSpiCmEvent_AttributeValueChange_1 (MkBase [] 0 0) demo_ccb) (demo_handler_state, []) (fun p c' =>
    p.1 = MkBase [] 0 0 /\ named "A=1" MafOamSpiCmEvent_AttributeValueChange_1 demo_ccb p.2 /\ ccb_ok p.2 /\ owned (ccb_blocks p.2) c'.1).
Proof.
  apply (naming_merges idle_handler demo_sizes "A=1" MafOamSpiCmEvent_AttributeValueChange_1 (MkBase [] 0 0) demo_ccb demo_handler_state [] demo_calm demo_ccb_ok demo_ccb_owned).
  apply (bool_decide_unpack _). by vm_compute.
Defined.
(** The value that came first stays. *)
Example first_value_stays : (let '(o, _) := place demo_sizes 0 "A=1" MafOamSpiCmEvent_AttributeValueChange_1 (MkBase [] 0 0) demo_ccb (demo_handler_state, []) in
  match o with Ret p => map_find (cacheMap (ccb_dns p.2)) "A=1"%string | Exit _ => None end) =
  Some (MkDnCache (MkBase (demo_attr 1 2 7) 0 0) true true false false false).
Proof. vm_compute. reflexivity. Qed.

Lemma over_the_limit_no_return_witness :
  exists w c', addAttr demo_ntf demo_sizes 100 3 "attr" "A=1" "" demo_avc (MkBase [(1, demo_ccb)] 0 200) (demo_handler_state, []) = (Exit w, c').
Proof. apply over_the_limit_no_return; [vm_compute; reflexivity|done]. Defined.
