(* ===== verification/NtfCmValues.v ===== *)
(** * Events of the configuration: values of attributes ([ntf/ComSANtf.c])

    Reading the attributes of a notification and turning their values into those of
    the MAF ([getOneAttributeValue], [setValueInCmEvent],
    [getAttributeValuesContainerValue]), the mandatory attributes of a bundle
    ([checkForMandatoryAttributes]), and names: [convertTo3GPPDN] for these events,
    [removeStructPartOfDn] ([motransaction/OamSACache.cc]). *)
From Stdlib Require Import ZArith Lia Ascii.
From stdpp Require Import base gmap list strings.
From S2P Require Import Prelude Codes CmTypes NtfData NtfInfo StdMap EventProducer CmData CmProducer.

#[local] Open Scope string_scope.
Open Scope Z_scope.

(** ** Codes of value types ([saNtf.h]); the two that are read with [saNtfPtrValGet] are
    constructors *)
Definition SA_NTF_VALUE_FLOAT : Z := 6.
Definition SA_NTF_VALUE_DOUBLE : Z := 9.
(** Codes of the numbers, which are in the union itself. *)
Definition is_number_code (code : Z) : bool := (0 <=? code) && (code <=? 9).

(** ** Bytes and numbers *)
Definition byte_of (a : ascii) : Z := Z.of_N (N_of_ascii a).
Definition bytes_of_text (t : string) : list Z := map byte_of (String.list_ascii_of_string t).
Fixpoint little_endian (l : list Z) : Z :=
  match l with [] => 0 | b :: l => b + 256 * little_endian l end.
(** The eight bytes of a union. *)
Definition bytes_of_union (bits : Z) : list Z := map (fun i => Z.land (Z.shiftr bits (8 * Z.of_nat i)) 255) (seq 0 8).
(** The text up to the first zero. *)
Fixpoint c_string (l : list Z) : option string :=
  match l with
  | [] => None
  | b :: l => if b =? 0 then Some "" else t ← c_string l; Some (String (ascii_of_N (Z.to_N b)) t)
  end.

(** The conversion of a [float] to a [double], on their bits: infinities and what is not
    a number keep their kind, a number that is too small to be normalised becomes
    a normalised one. *)
Definition double_of_float (b : Z) : Z :=
  let sign := Z.shiftr b 31 in
  let exponent := Z.land (Z.shiftr b 23) 255 in
  let fraction := Z.land b (2 ^ 23 - 1) in
  let join e f := sign * 2 ^ 63 + e * 2 ^ 52 + f in
  if exponent =? 255 then join 2047 (if fraction =? 0 then 0 else Z.lor (2 ^ 51) (fraction * 2 ^ 29))
  else if exponent =? 0 then
    if fraction =? 0 then join 0 0
    else let k := Z.log2 fraction in join (k + 874) (fraction * 2 ^ (52 - k) - 2 ^ 52)
  else join (exponent + 896) (fraction * 2 ^ 29).

(** ** Pointers to values

    What [void *] points to: the union in the notification, the data of
    [saNtfPtrValGet] (a text; its size is its length), or a new [SaNameT] with its block, the
    block of a long name, and the name. *)
Inductive ValuePtr :=
| NullPtr
| InUnion (bits : Z)
| InBuffer (t : string)
| NewName (p : ptr) (long : option ptr) (t : string).

(** [k] bytes as an unsigned number; of a name they are its length, which nobody
    means. *)
Definition read_number (k : nat) (v : ValuePtr) : C Z :=
  match v with
  | NullPtr => exit BadPointer
  | InUnion bits => mret (bits mod 2 ^ (8 * Z.of_nat k))
  | InBuffer t =>
      let l := (bytes_of_text t ++ [0])%list in
      if (k <=? length l)%nat then mret (little_endian (take k l)) else exit Undefined
  | NewName _ _ _ => exit Undefined
  end.
Definition read_string (v : ValuePtr) : C string :=
  match v with
  | NullPtr => exit BadPointer
  | InUnion bits => of_option Undefined (c_string (bytes_of_union bits))
  | InBuffer t => mret t
  | NewName _ _ _ => exit Undefined
  end.
(** [strncmp(v, "OAMSA", 5) == 0]; a [SaNameT] starts with a length of at most 256 or the mark
    of a long name. *)
Definition starts_with_OAMSA (v : ValuePtr) : bool :=
  match v with
  | InUnion bits => bits mod 2 ^ 40 =? little_endian (bytes_of_text "OAMSA")
  | InBuffer t => String.prefix "OAMSA" t
  | NullPtr | NewName _ _ _ => false
  end.

(** What a function outside of the file allocates. *)
Definition received (o : option string) : C (option (ptr * string)) :=
  match o with
  | None => mret None
  | Some t => s ← get; let p := fresh (live s) in add_live [p] ;; mret (Some (p, t))
  end.

(** The name without its last part, if "id=" is somewhere in that part. *)
Fixpoint split_last_comma (s : string) : option (string * string) :=
  match s with
  | "" => None
  | String c s' =>
      match split_last_comma s' with
      | Some (a, b) => Some (String c a, b)
      | None => if bool_decide (c = ","%char) then Some ("", s) else None
      end
  end.
Definition without_struct_part (dn : string) : option string :=
  match split_last_comma dn with
  | Some (parent, last) => if String.index 0 "id=" last is Some _ then Some parent else None
  | None => None
  end.

Section values.
Context (env : environment ntfE) (bExtendedNameEnabled : bool).

(** ** Names *)

(** [saNameSetLen] on a new [SaNameT]; a short one has room for 256 bytes, but a zero is
    written behind them. *)
Definition new_name (t : string) : C ValuePtr :=
  p ← block env;
  if (String.length t <? SA_MAX_UNEXTENDED_NAME_LENGTH)%nat then mret (NewName p None t)
  else if bExtendedNameEnabled then
    left ← call env malloc;
    if (left : bool) then s ← get; let q := fresh (live s) in add_live [q] ;; mret (NewName p (Some q) t) else exit Aborted
  else exit BadPointer.

(** [convertTo3GPPDN]: the name for COM in a new block, [None] when there is no memory or
    no such name. *)
Definition convertTo3GPPDN (no : string) : C (option (ptr * string)) :=
  if (4 <=? String.length no)%nat && bool_decide (String.substring 0 4 no = "3GPP") then
    left ← call env malloc;
    if (left : bool) then
      s ← get;
      let p := fresh (live s) in
      add_live [p] ;;
      t ← strip_3GPP bExtendedNameEnabled no;
      mret (Some (p, t))
    else mret None
  else
    r ← call env (convertTo3Gpp no);
    received r.

(** [convertTo3GPPDNCOMCASE]: a null name cannot be made a string. *)
Definition convertTo3GPPDNCOMCASE (immRdn : option string) : C (option (ptr * string)) :=
  immRdn ← of_option Aborted immRdn;
  dn ← call env (ImmRdn2MOTop immRdn);
  left ← call env malloc;
  if (left : bool) then received (Some dn) else mret None.

(** [removeStructPartOfDn]; the answer is [*out] when it is set. *)
Definition removeStructPartOfDn (dn : option string) : C (option (ptr * string)) :=
  dn ← of_option Aborted dn;
  match without_struct_part dn with
  | Some parent => out ← text env parent; mret (Some out)
  | None => mret None
  end.

(** ** Attributes of a notification

    The array and its announced length; either kind of array is read in the same
    way, and a missing one is read like an empty one: an access to it is a
    fault.  (No caller passes both.) *)
Section attributes.
Context (notificationHandle : Z).

Definition getOneAttributeValue (a : SaNtfAttributeT) : C ValuePtr :=
  match attributeType a with
  | SA_NTF_VALUE_STRING =>
      r ← call env (saNtfPtrValGet notificationHandle (attributeValue a));
      mret (if bool_decide (fst r = SA_AIS_OK) then InBuffer (snd r) else NullPtr)
  | SA_NTF_VALUE_LDAP_NAME =>
      r ← call env (saNtfPtrValGet notificationHandle (attributeValue a));
      if bool_decide (fst r = SA_AIS_OK) then new_name (snd r) else mret NullPtr
  | SA_NTF_VALUE_other code => mret (if is_number_code code then InUnion (attributeValue a) else NullPtr)
  end.

(** A loop over the first [n] elements of the array. *)
Fixpoint getNumberOfAttributeValues (infoId : Z) (l : list SaNtfAttributeT) (n : nat) : C nat :=
  match n, l with
  | O, _ => mret 0%nat
  | S n, [] => exit BadPointer
  | S n, a :: l =>
      k ← getNumberOfAttributeValues infoId l n;
      mret (if attributeId a =? infoId then S k else k)
  end.

(** All the values with this id, with their types; [room]: how many the array of the
    caller can take. *)
Fixpoint getMultiAttributeValue (room : nat) (infoId : Z) (l : list SaNtfAttributeT) (n : nat) : C (list (ValuePtr * SaNtfValueTypeT)) :=
  match n, l with
  | O, _ => mret []
  | S n, [] => exit BadPointer
  | S n, a :: l =>
      if attributeId a =? infoId then
        v ← getOneAttributeValue a;
        match room with
        | O => exit Undefined
        | S room => rest ← getMultiAttributeValue room infoId l n; mret ((v, attributeType a) :: rest)
        end
      else getMultiAttributeValue room infoId l n
  end.

(** The first one. *)
Fixpoint getAttributeValue (infoId : Z) (l : list SaNtfAttributeT) (n : nat) : C ValuePtr :=
  match n, l with
  | O, _ => mret NullPtr
  | S n, [] => exit BadPointer
  | S n, a :: l => if attributeId a =? infoId then getOneAttributeValue a else getAttributeValue infoId l n
  end.
End attributes.

(** ** The bundle that a notification belongs to *)
Record cacheInformation := MkInformation { ccbId : Z; ccbLast : bool }.

Definition SaImmOiCcbIdTattributeId : Z := 2.
Definition ccbLastattributeId : Z := 3.
Definition SA_TRUE : Z := 1.

(** The pointer is one that [getMultiAttributeValue] fills as if it were an array, and it points to
    a variable that holds zero before. *)
Definition mandatory_value (k : nat) (notificationHandle infoId : Z) (l : list SaNtfAttributeT) (n : nat) : C Z :=
  vs ← getMultiAttributeValue notificationHandle 1 infoId l n;
  match vs with
  | [] => mret 0
  | (v, _) :: _ => read_number k v
  end.
Definition checkForMandatoryAttributes (notificationHandle : Z) (l : list SaNtfAttributeT) (n : nat)
    (saAttributeName : option string) (notifyCache : cacheInformation) : C cacheInformation :=
  match saAttributeName with
  | None => mret notifyCache
  | Some name =>
      if bool_decide (name = "SaImmOiCcbIdT") then
        v ← mandatory_value 8 notificationHandle SaImmOiCcbIdTattributeId l n;
        mret (MkInformation v (ccbLast notifyCache))
      else if bool_decide (name = "ccbLast") then
        v ← mandatory_value 4 notificationHandle ccbLastattributeId l n;
        mret (MkInformation (ccbId notifyCache) (v =? SA_TRUE))
      else mret notifyCache
  end.

(** ** Values for the MAF *)

(** The value and whether it could be converted; it was zero before.  A reference is
    copied as it is when there is no name for it; what was made for it is freed. *)
Definition moRef (value : ValuePtr) : C (MafMoAttributeValue_3T ptr) :=
  match value with
  | NullPtr => t ← text env ""; mret (TextAt (Some t))
  | NewName p long no =>
      dn ← convertTo3GPPDN no;
      dn ← (match dn with Some dn => mret dn | None => text env no end : C (ptr * string));
      free_opt long ;; free p ;;
      mret (TextAt (Some dn))
  | InUnion _ | InBuffer _ => exit Undefined
  end.
Definition theString (value : ValuePtr) : C (MafMoAttributeValue_3T ptr) :=
  t ← (match value with NullPtr => mret "" | _ => read_string value end : C string);
  t ← text env t;
  mret (TextAt (Some t)).

(** The bytes of a number, by its type. *)
Definition width (type : Z) : option nat :=
  if (type =? MafOamSpiMoAttributeType_3_INT8) || (type =? MafOamSpiMoAttributeType_3_UINT8) then Some 1%nat
  else if (type =? MafOamSpiMoAttributeType_3_INT16) || (type =? MafOamSpiMoAttributeType_3_UINT16) then Some 2%nat
  else if (type =? MafOamSpiMoAttributeType_3_INT32) || (type =? MafOamSpiMoAttributeType_3_UINT32)
       || (type =? MafOamSpiMoAttributeType_3_BOOL) || (type =? MafOamSpiMoAttributeType_3_ENUM) then Some 4%nat
  else if (type =? MafOamSpiMoAttributeType_3_INT64) || (type =? MafOamSpiMoAttributeType_3_UINT64) then Some 8%nat
  else None.

Definition setValueInCmEvent (type : Z) (value : ValuePtr) (ntfType : SaNtfValueTypeT) : C (bool * MafMoAttributeValue_3T ptr) :=
  match width type with
  | Some k => z ← read_number k value; mret (true, Number z)
  | None =>
      if type =? MafOamSpiMoAttributeType_3_STRING then v ← theString value; mret (true, v)
      else if (type =? MafOamSpiMoAttributeType_3_STRUCT) || (type =? MafOamSpiMoAttributeType_3_REFERENCE) then
        v ← moRef value; mret (true, v)
      else if type =? MafOamSpiMoAttributeType_3_DECIMAL64 then
        if bool_decide (ntfType = SA_NTF_VALUE_other SA_NTF_VALUE_DOUBLE) then z ← read_number 8 value; mret (true, Number z)
        else if bool_decide (ntfType = SA_NTF_VALUE_other SA_NTF_VALUE_FLOAT) then z ← read_number 4 value; mret (true, Number (double_of_float z))
        else mret (false, Number 0)
      else mret (false, Number 0)
  end.

(** The loop ends at the first value that cannot be converted; the array is as long as
    announced, with zeros. *)
Fixpoint set_values (type : Z) (vs : list (ValuePtr * SaNtfValueTypeT)) {struct vs} : C (list (MafMoAttributeValue_3T ptr)) :=
  match vs with
  | [] => mret []
  | (v, t) :: vs =>
      r ← setValueInCmEvent type v t;
      let (converted, x) := (r : bool * MafMoAttributeValue_3T ptr) in
      if converted then rest ← set_values type vs; mret (x :: rest)
      else mret (map (fun _ => Number 0) ((v, t) :: vs))
  end.

(** The values of an attribute in a container; [structAttributeName] is there for the member
    of a struct.  An unknown type leaves the container behind. *)
Definition getAttributeValuesContainerValue (infoId notificationHandle : Z) (l : list SaNtfAttributeT) (n : nat)
    (immRdn saAttributeName : string) (structAttributeName : option string) : C (option Avc) :=
  value ← block env;
  nrOfValues ← getNumberOfAttributeValues infoId l n;
  vs ← getMultiAttributeValue notificationHandle (nrOfValues + 1) infoId l n;
  type ← (match structAttributeName with
          | Some structName => call env (getTypeForStructMemberAttribute structName saAttributeName immRdn)
          | None => call env (getTypeForAttribute saAttributeName immRdn)
          end : C Z);
  if type =? 0 then mret None
  else if (nrOfValues =? 0)%nat then mret (Some (value, MkAvc type None []))
  else
    values ← block env;
    elems ← set_values type vs;
    mret (Some (value, MkAvc type (Some values) elems)).
End values.
