(* ===== verification/NtfCm.v ===== *)
(** * Events of the configuration: from notifications to the cache ([ntf/ComSANtf.c])

    A notification of a created, deleted or changed object is read attribute by
    attribute; what COM wants to know of goes to the cache ([addToCmCache]), then the
    name of the object ([setDnInCmCache]).  An object whose name starts with "id=" is a
    struct of its parent.  [cmNotificationCallback] is the entry. *)
From Stdlib Require Import ZArith Lia.
From stdpp Require Import base gmap list strings.
From S2P Require Import Prelude Codes CmTypes NtfData StdMap EventProducer CmData CmProducer CmCache CmHandler NtfCmValues.

#[local] Open Scope string_scope.
Open Scope Z_scope.

Definition SA_NTF_OBJECT_CREATION : Z := 4097.
Definition SA_NTF_OBJECT_OPERATION : Z := 1.
Definition SA_NTF_MANAGEMENT_OPERATION : Z := 2.

(** [strncmp(immRdn, "id=", 3) == 0] *)
Definition is_id (immRdn : string) : bool := String.prefix "id=" immRdn.

Section convert.
Context (env : environment ntfE) (bExtendedNameEnabled : bool) (sizes : Sizes) (maxSAMemoryForCMEvents : Z).

Abbreviation addToCmCache := (addToCmCache env sizes maxSAMemoryForCMEvents).
Abbreviation setDnInCmCache := (setDnInCmCache env sizes maxSAMemoryForCMEvents).
Abbreviation isDiscardedCcb := (isDiscardedCcb maxSAMemoryForCMEvents).

(** ** Structs that are read from the IMM *)

(** Blocks for what [fillStructMembers] has made. *)
Definition new_ptr : C ptr := s ← get; let p := fresh (live s) in add_live [p] ;; mret p.

(** A loop that makes a list from a list. *)
Definition each {X Y} (f : X -> C Y) : list X -> C (list Y) :=
  fix each (l : list X) : C (list Y) := match l with [] => mret [] | x :: l => y ← f x; l ← each l; mret (y :: l) end.

Fixpoint install (b : AvcBody ()) : C (AvcBody ptr) :=
  match b with
  | MkAvc type values elems =>
      values ← (match values with Some _ => p ← new_ptr; mret (Some p) | None => mret None end : C (option ptr));
      elems ← each (fun v =>
        match v with
        | Number z => mret (Number z)
        | TextAt None => mret (TextAt None)
        | TextAt (Some t) => p ← new_ptr; mret (TextAt (Some (p, snd t)))
        | Members ms =>
            ms ← each (fun m =>
              match m with
              | MkMember _ name value =>
                  sm ← new_ptr;
                  p ← new_ptr;
                  value ← (match value with
                           | Some a => q ← new_ptr; body ← install (snd a); mret (Some (q, body))
                           | None => mret None
                           end : C (option Avc));
                  mret (MkMember sm (p, snd name) value)
              end) ms;
            mret (Members ms)
        end) elems;
      mret (MkAvc type values elems)
  end.

(** No element of the array may be empty, else the array becomes empty as a whole:
    the other elements and the array are freed, in the way of [freeAVC]; the pointer to the
    array stays. *)
Definition drop_empty (b : AvcBody ptr) : C (AvcBody ptr) :=
  if (avc_type b =? MafOamSpiMoAttributeType_3_STRUCT) && existsb (fun v => bool_decide (as_pointer v = Some None)) (avc_elems b)
  then freeAVC b ;; mret (MkAvc (avc_type b) (avc_values b) [])
  else mret b.

(** The struct of an object without a bundle, as it is in the IMM, goes to the cache under the
    name of the attribute that refers to it. *)
Definition send_runtime_struct (immRdn saAttributeName : string) (look_for_empty : bool) : C MafReturnT :=
  structAttributePointer ← block env;
  name ← call env (getStructAttributeName immRdn saAttributeName);
  structAttributeName ← received name;
  r ← call env (fillStructMembers immRdn saAttributeName);
  let (filled, made) := (r : bool * AvcBody ()) in
  body ← (if filled then
            b ← install made;
            if look_for_empty then drop_empty b else mret b
          else mret (MkAvc MafOamSpiMoAttributeType_3_STRUCT None [])
          : C (AvcBody ptr));
  result ← addToCmCache 0 (snd <$> structAttributeName) (Some immRdn) None (Some (structAttributePointer, body));
  free_opt (fst <$> structAttributeName) ;;
  mret result.

(** ** The attributes of a notification *)
Section attributes.
Context (notificationHandle : Z) (attributes : list SaNtfAttributeT) (numAttributes : nat) (immRdn : string).

(** The name of an attribute, which the additional information holds. *)
Definition attribute_name (i : SaNtfAdditionalInfoT) : C (option string) :=
  r ← call env (saNtfPtrValGet notificationHandle (infoValue i));
  mret (if bool_decide (fst r = SA_AIS_OK) then Some (snd r) else None).
Definition isNotified (className : ValuePtr) (attribute : option string) : C bool :=
  class ← read_string className;
  call env (NtfData.isNotified attribute class immRdn).

Definition getClassNameOfNotification : C ValuePtr :=
  getAttributeValue env bExtendedNameEnabled notificationHandle 1 attributes numAttributes.

(** The attributes to notify, with their identifiers, and the bundle. *)
Fixpoint attributes_to_notify (className : ValuePtr) (l : list SaNtfAdditionalInfoT) (notifyCache : cacheInformation)
    : C (list (string * Z) * cacheInformation) :=
  match l with
  | [] => mret ([], notifyCache)
  | i :: l =>
      if bool_decide (infoType i = SA_NTF_VALUE_STRING) then
        saAttributeName ← attribute_name i;
        notifyCache ← checkForMandatoryAttributes env bExtendedNameEnabled notificationHandle attributes numAttributes saAttributeName notifyCache;
        match saAttributeName with
        | None => attributes_to_notify className l notifyCache
        | Some name =>
            notified ← isNotified className (Some name);
            r ← attributes_to_notify className l notifyCache;
            mret (if (notified : bool) then (name, infoId i) :: fst r else fst r, snd r)
        end
      else attributes_to_notify className l notifyCache
  end.

Definition send_attribute (ccbId infoId : Z) (name : string) : C MafReturnT :=
  runtimeStruct ← (if ccbId =? 0 then call env (isStructAttribute immRdn name) else mret false : C bool);
  if (runtimeStruct : bool) then send_runtime_struct immRdn name true
  else
    value ← getAttributeValuesContainerValue env bExtendedNameEnabled infoId notificationHandle attributes numAttributes immRdn name None;
    addToCmCache ccbId (Some name) (Some immRdn) None value.

(** False: the cache had no room. *)
Fixpoint send_attributes (ccbId : Z) (l : list (string * Z)) : C bool :=
  match l with
  | [] => mret true
  | (name, infoId) :: l =>
      if infoId =? 0 then send_attributes ccbId l
      else
        result ← send_attribute ccbId infoId name;
        if bool_decide (result = MafNoResources) then mret false else send_attributes ccbId l
  end.

(** The first two items of the additional information are not attributes. *)
Definition transformAttributeList (additionalInfo : list SaNtfAdditionalInfoT) (isCreate : bool) (notifyCache : cacheInformation)
    : C (bool * cacheInformation) :=
  className ← getClassNameOfNotification;
  match className with
  | NullPtr => mret (false, notifyCache)
  | _ =>
      created ← (if isCreate then isNotified className None else mret false : C bool);
      r ← attributes_to_notify className (drop 2 additionalInfo) notifyCache;
      let (toNotify, notifyCache) := (r : list (string * Z) * cacheInformation) in
      discarded ← isDiscardedCcb (ccbId notifyCache);
      if (discarded : bool) then mret (false, notifyCache)
      else
        room ← send_attributes (ccbId notifyCache) toNotify;
        mret ((room : bool) && (created || (0 <? length toNotify)%nat), notifyCache)
  end.

(** The member of a struct in a bundle, under the name of the attribute that refers to the
    struct. *)
Definition send_member (ccbId infoId : Z) (saAttributeName : string) : C MafReturnT :=
  name ← call env (getStructAttributeName immRdn saAttributeName);
  structAttributeName ← received name;
  result ← (match structAttributeName with
            | Some (_, structName) =>
                if bool_decide (structName <> saAttributeName) then
                  value ← getAttributeValuesContainerValue env bExtendedNameEnabled infoId notificationHandle attributes numAttributes immRdn
                            saAttributeName (Some structName);
                  addToCmCache ccbId (Some structName) (Some immRdn) (Some saAttributeName) value
                else mret MafOk
            | None => mret MafOk
            end : C MafReturnT);
  free_opt (fst <$> structAttributeName) ;;
  mret result.

Fixpoint send_struct (className : ValuePtr) (l : list SaNtfAdditionalInfoT) (returnValue : bool) (notifyCache : cacheInformation)
    : C (bool * cacheInformation) :=
  match l with
  | [] => mret (returnValue, notifyCache)
  | i :: l =>
      if bool_decide (infoType i = SA_NTF_VALUE_STRING) then
        saAttributeName ← attribute_name i;
        notifyCache ← checkForMandatoryAttributes env bExtendedNameEnabled notificationHandle attributes numAttributes saAttributeName notifyCache;
        discarded ← isDiscardedCcb (ccbId notifyCache);
        if (discarded : bool) then mret (false, notifyCache)
        else
          match saAttributeName with
          | None => send_struct className l returnValue notifyCache
          | Some name =>
              notified ← isNotified className (Some name);
              ofStruct ← (if (notified : bool) then if is_id immRdn then mret true else call env (isStructAttribute immRdn name)
                          else mret false : C bool);
              if (ofStruct : bool) then
                result ← (if negb (ccbId notifyCache =? 0) then send_member (ccbId notifyCache) (infoId i) name
                          else send_runtime_struct immRdn name false
                          : C MafReturnT);
                if bool_decide (result = MafNoResources) then mret (false, notifyCache)
                else send_struct className l true notifyCache
              else send_struct className l returnValue notifyCache
          end
      else send_struct className l returnValue notifyCache
  end.

Definition transformAttributeListStruct (additionalInfo : list SaNtfAdditionalInfoT) (notifyCache : cacheInformation)
    : C (bool * cacheInformation) :=
  className ← getClassNameOfNotification;
  match className with
  | NullPtr => mret (false, notifyCache)
  | _ =>
      class ← call env (getClassName immRdn);
      comClassName ← received class;
      returnValue ← (match comClassName with
                     | Some (p, class) =>
                         notified ← call env (NtfData.isNotified None class immRdn);
                         free p ;;
                         mret notified
                     | None => mret false
                     end : C bool);
      send_struct className (drop 2 additionalInfo) returnValue notifyCache
  end.

Definition transform (additionalInfo : list SaNtfAdditionalInfoT) (isCreate : bool) : C (bool * cacheInformation) :=
  let notifyCache := MkInformation 0 false in
  if is_id immRdn then transformAttributeListStruct additionalInfo notifyCache
  else transformAttributeList additionalInfo isCreate notifyCache.

(** What is known of the bundle of a deleted object: its second and third attribute; [None]: the
    attributes are missing. *)
Definition deleted_bundle (array : bool) : C (option cacheInformation) :=
  if (numAttributes =? 0)%nat then mret (Some (MkInformation 0 false))
  else if negb array then mret None
  else
    third ← of_option BadPointer (attributes !! 2%nat);
    value ← getAttributeValue env bExtendedNameEnabled notificationHandle (attributeId third) attributes numAttributes;
    last ← (match value with NullPtr => mret false | _ => z ← read_number 4 value; mret (z =? SA_TRUE) end : C bool);
    second ← of_option BadPointer (attributes !! 1%nat);
    value ← getAttributeValue env bExtendedNameEnabled notificationHandle (attributeId second) attributes numAttributes;
    id ← (match value with NullPtr => mret 0 | _ => read_number 8 value end : C Z);
    mret (Some (MkInformation id last)).
End attributes.

(** ** [convertCMNotificationHeader] *)

(** What the first part of it finds out: the kind of event, the bundle, and the flags
    [isDeleteObject] and [sendsetDnInCmCache]. *)
Record Found := MkFound {
  f_eventType : MafOamSpiCmEvent_EventType_1T;
  f_cache : cacheInformation;
  isDeleteObject : bool;
  sendsetDnInCmCache : bool
}.

(** A copy of the name of the object; none of an empty name. *)
Definition copy_immRdn (no : string) : C (option (ptr * string)) :=
  if (String.length no =? 0)%nat then mret None else t ← text env no; mret (Some t).

Definition isCOMSAAdminOwner (n : SaNtfNotificationsT) : C bool :=
  match attributes (changePart n) with
  | None => mret false
  | Some l =>
      first ← of_option BadPointer (l !! 0%nat);
      v ← getAttributeValue env bExtendedNameEnabled (notificationHandle n) (attributeId first) l (Z.to_nat (numAttributes (changePart n)));
      mret (starts_with_OAMSA v)
  end.

Definition find_changes (n : SaNtfNotificationsT) (immRdn : option string) (isCreate : bool) : C (bool * cacheInformation) :=
  immRdn ← of_option BadPointer immRdn;
  transform (notificationHandle n) (default [] (attributes (changePart n))) (Z.to_nat (numAttributes (changePart n))) immRdn
    (additionalInfo (notificationHeader n)) isCreate.

(** The class of a deleted object comes from its name.  [None]: the conversion ends
    here. *)
Definition find_deletion (n : SaNtfNotificationsT) (immRdn : option string) : C (option Found) :=
  immRdn ← of_option Aborted immRdn;
  class ← call env (getClassName immRdn);
  className ← received class;
  match className with
  | None => mret (Some (MkFound MafOamSpiCmEvent_MoDeleted_1 (MkInformation 0 false) false false))
  | Some (p, class) =>
      notified ← call env (NtfData.isNotified None class immRdn);
      bundle ← (if (notified : bool) then
                  deleted_bundle (notificationHandle n) (default [] (attributes (changePart n))) (Z.to_nat (numAttributes (changePart n)))
                    (bool_decide (is_Some (attributes (changePart n))))
                else mret (Some (MkInformation 0 false))
                : C (option cacheInformation));
      match bundle with
      | None => mret None
      | Some notifyCache =>
          discarded ← isDiscardedCcb (ccbId notifyCache);
          free p ;;
          mret (Some (MkFound MafOamSpiCmEvent_MoDeleted_1 notifyCache true (negb discarded)))
      end
  end.

Definition find (n : SaNtfNotificationsT) (immRdn : option string) : C (option Found) :=
  match notificationType n with
  | SA_NTF_TYPE_OBJECT_CREATE_DELETE =>
      code ← of_option BadPointer (eventTypeCode (changePart n));
      if code =? SA_NTF_OBJECT_CREATION then
        r ← find_changes n immRdn true;
        mret (Some (MkFound MafOamSpiCmEvent_MoCreated_1 (snd r) false (fst r)))
      else find_deletion n immRdn
  | _ =>
      r ← find_changes n immRdn false;
      mret (Some (MkFound MafOamSpiCmEvent_AttributeValueChange_1 (snd r) false (fst r)))
  end.

Definition source_of (theSourceIndicator : Z) (comsa : bool) : MafOamSpiCmEvent_SourceIndicator_1T :=
  if theSourceIndicator =? SA_NTF_OBJECT_OPERATION then MafOamSpiCmEvent_ResourceOperation_1
  else if (theSourceIndicator =? SA_NTF_MANAGEMENT_OPERATION) && comsa then MafOamSpiCmEvent_ManagementOperation_1
  else MafOamSpiCmEvent_Unknown_1.

(** The last part of the name is cut off twice; the second time its copy is used and
    freed. *)
Definition send_dn (f : Found) (source : MafOamSpiCmEvent_SourceIndicator_1T) (dnToUse : string) : C () :=
  let last := (ccbId (f_cache f) =? 0) || ccbLast (f_cache f) in
  out ← removeStructPartOfDn env (Some dnToUse);
  match out with
  | None => rc ← setDnInCmCache (ccbId (f_cache f)) source (Some dnToUse) (f_eventType f) last; mret ()
  | Some out =>
      rc ← setDnInCmCache (ccbId (f_cache f)) source (Some (snd out)) (f_eventType f) last;
      free (fst out)
  end.

(** The second part: the name goes to the cache. *)
Definition name_object (n : SaNtfNotificationsT) (f : Found) (comsa : bool) (immRdn : option (ptr * string)) : C bool :=
  dnToUse ← (if isDeleteObject f then convertTo3GPPDNCOMCASE env (snd <$> immRdn)
             else convertTo3GPPDN env bExtendedNameEnabled (notificationObject (notificationHeader n))
             : C (option (ptr * string)));
  if negb (isDeleteObject f) && bool_decide (dnToUse = None) then free_opt (fst <$> immRdn) ;; mret false
  else
    out ← removeStructPartOfDn env (snd <$> dnToUse);
    dnToUse ← of_option Aborted dnToUse;
    dn ← (match out with Some out => free (fst dnToUse) ;; mret out | None => mret dnToUse end : C (ptr * string));
    let deleteRuntimeReferencedObject :=
      bool_decide (is_Some out) && (ccbId (f_cache f) =? 0) && bool_decide (f_eventType f = MafOamSpiCmEvent_MoDeleted_1) in
    theSourceIndicator ← of_option BadPointer (sourceIndicator (changePart n));
    let sends := sendsetDnInCmCache f && negb deleteRuntimeReferencedObject in
    when sends (send_dn f (source_of theSourceIndicator comsa) (snd dn)) ;;
    when ((sends && (ccbId (f_cache f) =? 0)) || ccbLast (f_cache f)) (removeDiscardedCcb maxSAMemoryForCMEvents (ccbId (f_cache f))) ;;
    free (fst dn) ;;
    free_opt (fst <$> immRdn) ;;
    mret true.

Definition convertCMNotificationHeader (n : SaNtfNotificationsT) : C bool :=
  match notificationType n with
  | SA_NTF_TYPE_OBJECT_CREATE_DELETE | SA_NTF_TYPE_ATTRIBUTE_CHANGE =>
      immRdn ← copy_immRdn (notificationObject (notificationHeader n));
      comsa ← isCOMSAAdminOwner n;
      found ← find n (snd <$> immRdn);
      match found with
      | None => mret false
      | Some f => name_object n f comsa immRdn
      end
  | _ => mret false
  end.

(** ** [cmNotificationCallback]

    A failure of the lock is only logged. *)
Definition cmNotificationCallback (ntf_stop_thread : bool) (n : SaNtfNotificationsT) : C () :=
  if ntf_stop_thread then mret ()
  else
    rc ← call env (mutex_lock cm_notification_lock);
    (match notificationType n with
     | SA_NTF_TYPE_STATE_CHANGE =>
         mafCmNotOverFlow ← buildOverflowEvent env;
         rc ← push_CmEventHandler env mafCmNotOverFlow;
         rc ← call env (saNtfNotificationFree (notificationHandle n));
         mret ()
     | SA_NTF_TYPE_OBJECT_CREATE_DELETE | SA_NTF_TYPE_ATTRIBUTE_CHANGE =>
         rc ← convertCMNotificationHeader n;
         rc ← call env (saNtfNotificationFree (notificationHandle n));
         mret ()
     | _ => mret ()
     end : C ()) ;;
    rc ← call env (mutex_unlock cm_notification_lock);
    mret ().
End convert.
