(* ===== verification/NtfCmFacts.v ===== *)
(** * Events of the configuration: ownership of the values that are read

    What reading and converting the attributes of a notification allocates and gives
    back, as triples of [CmMemory].  [readable] says when values can be
    read at all: numbers are where numbers are meant. *)
From Stdlib Require Import ZArith Lia.
From stdpp Require Import base gmap list strings.
From S2P Require Import Prelude Marks Codes CmTypes NtfData NtfInfo StdMap EventProducer EventProducerFacts CmData CmProducer CmCache CmHandler.
From S2P Require Import CmMemory CmProducerFacts CmCacheFacts CmSystem NtfCmValues NtfCm.

Open Scope Z_scope.

(** ** Histories *)
Section growth.
Context (env : environment ntfE) (ext : bool).

Lemma tame_received o : tame (received o).
Proof. unfold received. growing. Qed.
Lemma tame_read_number k v : tame (read_number k v).
Proof. unfold read_number. growing. Qed.
Lemma tame_read_string v : tame (read_string v).
Proof. unfold read_string. growing. Qed.
Lemma tame_strip t : tame (strip_3GPP ext t : C string).
Proof. unfold strip_3GPP. growing. Qed.
#[local] Hint Resolve tame_received tame_read_number tame_read_string tame_strip : tame.
Lemma tame_convertTo3GPPDN no : tame (convertTo3GPPDN env ext no).
Proof. unfold convertTo3GPPDN. growing. Qed.
#[local] Hint Resolve tame_convertTo3GPPDN : tame.
Lemma tame_new_name t : tame (new_name env ext t).
Proof. unfold new_name. growing. Qed.
#[local] Hint Resolve tame_new_name : tame.
Lemma tame_getOne h a : tame (getOneAttributeValue env ext h a).
Proof. unfold getOneAttributeValue. growing. Qed.
#[local] Hint Resolve tame_getOne : tame.
Lemma tame_getNumber id l n : tame (getNumberOfAttributeValues id l n).
Proof. revert l. induction n as [|n IH]; intros [|a l]; cbn [getNumberOfAttributeValues]; growing; apply IH. Qed.
Lemma tame_getMulti h room id l n : tame (getMultiAttributeValue env ext h room id l n).
Proof. revert room l. induction n as [|n IH]; intros room [|a l]; cbn [getMultiAttributeValue]; growing; apply IH. Qed.
Lemma tame_getAttributeValue h id l n : tame (getAttributeValue env ext h id l n).
Proof. revert l. induction n as [|n IH]; intros [|a l]; cbn [getAttributeValue]; growing; apply IH. Qed.
#[local] Hint Resolve tame_getNumber tame_getMulti tame_getAttributeValue : tame.
Lemma tame_mandatory k h id l n : tame (mandatory_value env ext k h id l n).
Proof. unfold mandatory_value. growing. Qed.
#[local] Hint Resolve tame_mandatory : tame.
Lemma tame_checkForMandatoryAttributes h l n name ci : tame (checkForMandatoryAttributes env ext h l n name ci).
Proof. unfold checkForMandatoryAttributes. growing. Qed.
Lemma tame_setValue type v t : tame (setValueInCmEvent env ext type v t).
Proof. unfold setValueInCmEvent, theString, moRef. growing. Qed.
#[local] Hint Resolve tame_setValue : tame.
Lemma tame_set_values type vs : tame (set_values env ext type vs).
Proof. induction vs as [|[v t] vs IH]; cbn [set_values]; growing. Qed.
#[local] Hint Resolve tame_set_values : tame.
Lemma tame_getContainer id h l n rdn name s : tame (getAttributeValuesContainerValue env ext id h l n rdn name s).
Proof. unfold getAttributeValuesContainerValue. growing. Qed.
Lemma tame_removeStructPartOfDn dn : tame (removeStructPartOfDn env dn).
Proof. unfold removeStructPartOfDn. growing. Qed.

Lemma tame_new_ptr : tame new_ptr.
Proof. unfold new_ptr. growing. Qed.
#[local] Hint Resolve tame_new_ptr : tame.
Lemma tame_each {X Y} (f : X -> C Y) l : Forall (fun x => tame (f x)) l -> tame (each f l).
Proof. induction 1; cbn; growing. Qed.
Lemma tame_install b : tame (install b).
Proof.
  revert b. apply (avc_ind (fun b => tame (install b))
    (fun v => forall ms, v = Members ms -> Forall (fun m => match m with MkMember _ _ (Some a) => tame (install a.2) | _ => True end) ms)
    (fun m => match m with MkMember _ _ (Some a) => tame (install a.2) | _ => True end)); try done.
  - intros t v l Hl. cbn [install]. growing. apply tame_each. eapply Forall_impl; [exact Hl|].
    intros x Hx. cbn beta in *. destruct x as [z|o|ms]; growing. apply tame_each. eapply Forall_impl; [by apply Hx|].
    intros [sm n [q|]] Hm; cbn beta in *; growing.
  - intros l Hl ms [= <-]. done.
Qed.
End growth.
#[export] Hint Resolve tame_received tame_read_number tame_read_string tame_convertTo3GPPDN tame_getAttributeValue tame_checkForMandatoryAttributes
  tame_getContainer tame_removeStructPartOfDn tame_install : tame.

(** ** Ownership *)
Section owned.
Context (env : environment ntfE) (Hmem : memory_left env) (ext : bool) (h : CmEventHandler).
Abbreviation moves := (moves h).

Lemma moves_call {R} (e : ntfE R) : (forall r, delivery (Ev e r) = None) -> moves (call env e) (fun r => exists tr, env R tr e = r) [] (fun _ => []).
Proof.
  intros He Q s _ Ho tr. exists [Ev e (env R tr e)]. split; [done|].
  cbn [snd fst]. set (r := env R tr e). change (omap delivery [Ev e r]) with (match delivery (Ev e r) with Some y => [y] | None => [] end). rewrite He. split; [done|]. split; [exists (live s); by destruct s|].
  split; [by eexists|done].
Qed.
Lemma moves_option {A} w (o : option A) a : o = Some a -> moves (of_option w o) (fun x => x = a) [] (fun _ => []).
Proof. intros ->. by apply moves_ret. Qed.
Lemma moves_new : moves (s ← get; let p := fresh (live s) in add_live [p] ;; mret p : C ptr) (fun _ => True) [] (fun p => [p]).
Proof.
  intros R s _ [Hd Hl] tr. cbn in Hd, Hl. unfold add_live, modify, mbind, M_bind. cbn -[fresh]. exists []. rewrite app_nil_r. cbn -[fresh].
  repeat split; [eexists; reflexivity|constructor|].
  - intros Hin. apply (is_fresh (live s)), Hl, Hin.
  - done.
  - intros p [->|Hp]%elem_of_cons; set_solver.
Qed.
Lemma moves_fresh {A} (k : ptr -> C A) P post : (forall p, moves (k p) P [p] post) -> moves (s ← get; let p := fresh (live s) in add_live [p] ;; k p) P [] post.
Proof.
  intros Hk R s Hc Ho tr.
  pose proof (moves_bind h _ k (fun _ => True) P [] (fun p => [p]) post moves_new (fun p _ => Hk p) R s Hc Ho tr) as Hm.
  exact Hm.
Qed.

(** A step that needs no block. *)
Lemma moves_then {A B} (m : C A) (k : A -> C B) P Q pre mid post :
  moves m P [] mid -> (forall a, P a -> moves (k a) Q (mid a ++ pre) post) -> moves (m ≫= k) Q pre post.
Proof. intros Hm Hk. by eapply (moves_part h m k P Q [] mid pre pre). Qed.
(** A step that only answers. *)
Lemma moves_ask {A B} (m : C A) (k : A -> C B) P Q pre post :
  moves m P [] (fun _ => []) -> (forall a, P a -> moves (k a) Q pre post) -> moves (m ≫= k) Q pre post.
Proof. intros Hm Hk. by eapply moves_then. Qed.
(** The result keeps less. *)
Lemma moves_forget {A} (m : C A) (P Q : A -> Prop) pre post post' :
  moves m P pre post -> (forall a, P a -> Q a /\ post' a ⊆+ post a) -> moves m Q pre post'.
Proof. intros Hm HP. by eapply moves_weaken. Qed.

Lemma moves_received o : moves (received o) (fun r => snd <$> r = o) [] (fun r => option_list (fst <$> r)).
Proof. destruct o as [t|]; [|by apply moves_ret]. apply (moves_fresh (fun p => mret (Some (p, t)))). intros p. by apply moves_ret. Qed.

(** ** Structs of the IMM *)
Lemma moves_each {X Y} (f : X -> C Y) (R : X -> Y -> Prop) (g : Y -> list ptr) l :
  Forall (fun x => moves (f x) (R x) [] g) l -> moves (each f l) (Forall2 R l) [] (fun r => r ≫= g).
Proof.
  induction 1 as [|x l Hx _ IH]; cbn; [by apply moves_ret|].
  eapply moves_then; [exact Hx|]. intros y Hy. eapply moves_then; [exact IH|]. intros r Hr. apply moves_ret; [by constructor|]. cbn. blocks.
Qed.

Definition element_blocks_of (type : Z) (v : MafMoAttributeValue_3T ptr) : list ptr :=
  if is_text_type type then text_block v
  else if type =? MafOamSpiMoAttributeType_3_STRUCT then
    match v with
    | Members ms => ms ≫= fun m =>
        match m with
        | MkMember sm name value => name.1 :: (match value with Some a => avc_blocks a.2 ++ [a.1] | None => [] end) ++ [sm]
        end
    | _ => []
    end
  else [].
Definition element_ok_of {P} (type : Z) (v : MafMoAttributeValue_3T P) : Prop :=
  if is_text_type type then is_text v
  else if type =? MafOamSpiMoAttributeType_3_STRUCT then
    match v with
    | Members ms => all_of (fun m => match m with MkMember _ _ value => match value with Some a => avc_ok a.2 | None => True end end) ms
    | _ => False
    end
  else True.
Lemma all_of_Forall {X} (f : X -> Prop) l : all_of f l <-> Forall f l.
Proof. induction l as [|x l IH]; cbn; [split; [constructor|done]|]. rewrite IH, Forall_cons. done. Qed.
Lemma avc_ok_elems {P} t (vs : option P) l : avc_ok (MkAvc t vs l) <-> (l = [] \/ is_Some vs) /\ Forall (element_ok_of t) l.
Proof. cbn [avc_ok]. by rewrite all_of_Forall. Qed.
Lemma avc_blocks_elems t vs l : avc_blocks (MkAvc t vs l) = (l ≫= element_blocks_of t) ++ match l, vs with _ :: _, Some p => [p] | _, _ => [] end.
Proof. reflexivity. Qed.

Lemma ok_from {X Y} (P : X -> Prop) (Q : Y -> Prop) l r : Forall2 (fun x y => P x -> Q y) l r -> Forall P l -> Forall Q r.
Proof. induction 1; intros Hl; [constructor|]. apply Forall_cons in Hl as [? ?]. constructor; auto. Qed.

Definition member_blocks_of (m : StructMember ptr) : list ptr :=
  match m with MkMember sm name value => name.1 :: (match value with Some a => avc_blocks a.2 ++ [a.1] | None => [] end) ++ [sm] end.
Definition member_ok_of {P} (m : StructMember P) : Prop := match m with MkMember _ _ (Some a) => avc_ok a.2 | _ => True end.

(** What is installed is the same container. *)
Definition installed (b : AvcBody ()) (r : AvcBody ptr) : Prop := avc_type r = avc_type b /\ (avc_ok b -> avc_ok r).
Lemma moves_install_members (b : AvcBody ()) : moves (install b) (installed b) [] avc_blocks.
Proof.
  revert b.
  apply (avc_ind (fun b => moves (install b) (installed b) [] avc_blocks)
    (fun v => forall ms, v = Members ms -> Forall (fun m => match m with MkMember _ _ (Some a) => moves (install a.2) (installed a.2) [] avc_blocks | _ => True end) ms)
    (fun m => match m with MkMember _ _ (Some a) => moves (install a.2) (installed a.2) [] avc_blocks | _ => True end)); try done.
  2: { by intros l Hl ms [= <-]. }
  intros t vs l Hl. cbn [install].
  set (f := fun v : MafMoAttributeValue_3T () => _ : C (MafMoAttributeValue_3T ptr)).
  eapply (moves_then _ _ (fun o => is_Some vs -> is_Some o) _ _ option_list).
  { destruct vs; [|apply moves_ret; [by intros [? ?]|done]]. eapply moves_then; [apply moves_new|]. intros p _. by apply moves_ret. }
  intros o Ho. rewrite app_nil_r. eapply (moves_then _ _ (Forall2 (fun x y => element_ok_of t x -> element_ok_of t y) l) _ _ (fun r => r ≫= element_blocks_of t)).
  - apply moves_each. eapply Forall_impl; [exact Hl|]. intros v Hv. subst f. cbn beta in *. unfold element_ok_of, element_blocks_of. destruct v as [z|[s|]|ms].
    + apply moves_ret; [by repeat case_match|]. repeat case_match; apply submseteq_nil_l.
    + eapply moves_then; [apply moves_new|]. intros p _. apply moves_ret; [by repeat case_match|]. cbn. repeat case_match; first [apply submseteq_nil_l|reflexivity].
    + apply moves_ret; [by repeat case_match|]. cbn. repeat case_match; apply submseteq_nil_l.
    + eapply (moves_then _ _ (Forall2 (fun x y => member_ok_of x -> member_ok_of y) ms) _ _ (fun r => r ≫= member_blocks_of)).
      * apply moves_each. eapply Forall_impl; [by apply Hv|]. intros [sm n value] Hm. cbn beta in *.
        eapply moves_then; [apply moves_new|]. intros sm' _. eapply moves_then; [apply moves_new|]. intros p _.
        eapply (moves_then _ _ (fun r => match value with Some a => avc_ok a.2 | None => True end -> match r with Some a => avc_ok a.2 | None => True end) _ _
          (fun r => match r with Some a => avc_blocks a.2 ++ [a.1] | None => [] end)).
        { destruct value as [a|]; [|by apply moves_ret]. eapply moves_then; [apply moves_new|]. intros q _. eapply moves_then; [exact Hm|]. intros body Hb.
          apply moves_ret; [apply Hb|]. cbn. blocks. }
        intros r Hr. apply moves_ret; [by destruct value, r|]. cbn. blocks.
      * intros r Hr. apply moves_ret.
        { repeat case_match; try done. intros Hms%all_of_Forall. apply all_of_Forall.
          assert (Forall member_ok_of ms) as Hms' by (eapply Forall_impl; [exact Hms|by intros [? ? [?|]]]).
          eapply Forall_impl; [by eapply ok_from|by intros [? ? [?|]]]. }
        cbn. repeat case_match; try apply submseteq_nil_l. by rewrite app_nil_r.
  - intros r Hr. apply moves_ret.
    + split; [done|]. intros [Hvs Hok]%avc_ok_elems. apply avc_ok_elems. split; [|by eapply ok_from].
      destruct Hvs as [->|Hvs]; [left; by inversion Hr|right; by apply Ho].
    + rewrite avc_blocks_elems. apply submseteq_app; [done|]. destruct r, o; cbn; apply submseteq_nil_l || done.
Qed.
Lemma moves_install (b : AvcBody ()) : avc_ok b -> avc_type b <> MafOamSpiMoAttributeType_3_DECIMAL64 ->
  moves (install b) (fun r => avc_ok r /\ avc_type r <> MafOamSpiMoAttributeType_3_DECIMAL64) [] avc_blocks.
Proof. intros Hb Ht. eapply moves_forget; [apply moves_install_members|]. intros r [Htr Hr]. split; [split; [by apply Hr|by rewrite Htr]|done]. Qed.
Lemma prints_other b : avc_type b <> MafOamSpiMoAttributeType_3_DECIMAL64 -> prints b = true.
Proof. intros Ht. unfold prints. by rewrite (proj2 (Z.eqb_neq _ _) Ht). Qed.

(** ** Names *)
Definition name_fits (t : string) : Prop := (String.length t < if ext then MAX_DN_LENGTH else SA_MAX_UNEXTENDED_NAME_LENGTH)%nat.
Definition value_blocks (v : ValuePtr) : list ptr := match v with NewName p long _ => p :: option_list long | _ => [] end.
Definition named_blocks (o : option (ptr * string)) : list ptr := option_list (fst <$> o).

Lemma moves_new_name t : name_fits t ->
  moves (new_name env ext t) (fun v => match v with NewName _ _ t' => t' = t | _ => False end) [] value_blocks.
Proof.
  intros Ht. unfold new_name. eapply moves_then; [by apply moves_block|]. intros p _.
  destruct (Nat.ltb_spec (String.length t) SA_MAX_UNEXTENDED_NAME_LENGTH) as [Hl|Hl]; [by apply moves_ret|].
  unfold name_fits in Ht. destruct ext; [|lia].
  eapply moves_ask; [by apply (moves_call malloc)|]. intros left [tr <-]. rewrite Hmem. rewrite app_nil_r.
  eapply (moves_weaken _ _ _ _ ([] ++ [p])); [apply (moves_frame _ _ _ _ (fun v => match v with NewName _ (Some q) _ => [q] | _ => [] end))|done|].
  - apply (moves_fresh (fun q => mret (NewName p (Some q) t)) (fun v => exists q, v = NewName p (Some q) t)). intros q. apply moves_ret; [by eexists|done].
  - intros v [q ->]. split; [done|]. cbn. blocks.
Qed.

Lemma strip_fits t : name_fits t -> exists r, strip_3GPP ext t = (mret r : C string) /\ r = String.substring 4 (String.length t - 4) t.
Proof.
  intros Ht. unfold strip_3GPP. eexists. split; [|reflexivity]. destruct (Nat.leb_spec (String.length t - 4) (saNameMaxLenNtf ext - 5)) as [_|Hgt]; [done|].
  unfold name_fits, saNameMaxLenNtf, MAX_DN_LENGTH, SA_MAX_UNEXTENDED_NAME_LENGTH in *. destruct ext; cbn in Hgt; lia.
Qed.

(** The name for COM; [translated no t]: [t] may be the name for COM of [no]. *)
Definition translated (no t : string) : Prop :=
  t = String.substring 4 (String.length no - 4) no \/ exists tr, env _ tr (convertTo3Gpp no) = Some t.
Lemma moves_convertTo3GPPDN no : name_fits no ->
  moves (convertTo3GPPDN env ext no) (fun r => match r with Some t => translated no t.2 | None => True end) [] named_blocks.
Proof.
  intros Hno. unfold convertTo3GPPDN. destruct (_ && _).
  - eapply moves_ask; [by apply (moves_call malloc)|]. intros left [tr <-]. rewrite Hmem. destruct (strip_fits no Hno) as (t & -> & Ht).
    apply (moves_fresh (fun p => mret t ≫= fun t => mret (Some (p, t)))). intros p. apply moves_pure, moves_ret; [by left|done].
  - eapply moves_ask; [by apply (moves_call (convertTo3Gpp no))|]. intros r [tr Hr]. eapply moves_forget; [apply moves_received|].
    intros [t|]; cbn; [|done]. intros <-. split; [|done]. right. by exists tr.
Qed.
Lemma moves_removeStructPartOfDn dn : moves (removeStructPartOfDn env (Some dn)) (fun r => snd <$> r = without_struct_part dn) [] named_blocks.
Proof.
  unfold removeStructPartOfDn. cbn [of_option]. apply moves_pure. destruct (without_struct_part dn) as [t|]; [|by apply moves_ret].
  eapply moves_then; [by apply moves_text|]. intros r Hr. apply moves_ret; [cbn; by f_equal|]. by rewrite app_nil_r.
Qed.

(** ** Values *)

(** The bits are those of a double that prints in less than 100 characters. *)
Definition short_double (bits : Z) : Prop := (String.length (double_text (bits mod 2 ^ 64)) < 100)%nat.
(** A value as the type of the notification says. *)
Definition of_type (t : SaNtfValueTypeT) (v : ValuePtr) : Prop :=
  match t, v with
  | SA_NTF_VALUE_STRING, (NullPtr | InBuffer _) => True
  | SA_NTF_VALUE_LDAP_NAME, NullPtr => True
  | SA_NTF_VALUE_LDAP_NAME, NewName _ _ no => name_fits no
  | SA_NTF_VALUE_other code, InUnion bits => is_number_code code = true /\ (code = SA_NTF_VALUE_DOUBLE -> short_double bits)
  | SA_NTF_VALUE_other code, NullPtr => is_number_code code = false
  | _, _ => False
  end.
(** The type for the MAF can be made from it. *)
Definition is_reference (type : Z) : bool := (type =? MafOamSpiMoAttributeType_3_STRUCT) || (type =? MafOamSpiMoAttributeType_3_REFERENCE).
Definition fits (type : Z) (t : SaNtfValueTypeT) : bool :=
  match t with
  | SA_NTF_VALUE_STRING => bool_decide (width type = None) && negb (is_reference type)
  | SA_NTF_VALUE_LDAP_NAME => bool_decide (width type = None) && negb (type =? MafOamSpiMoAttributeType_3_STRING)
  | SA_NTF_VALUE_other code =>
      if is_number_code code then negb (is_reference type) && negb (type =? MafOamSpiMoAttributeType_3_STRING) else bool_decide (width type = None)
  end.

(** The data of the names of the notification are short enough, and so are its doubles when
    they are printed. *)
Definition values_fit (handle : Z) (l : list SaNtfAttributeT) : Prop :=
  (forall a tr t, a ∈ l -> NtfData.attributeType a = SA_NTF_VALUE_LDAP_NAME -> env _ tr (saNtfPtrValGet handle (attributeValue a)) = (SA_AIS_OK, t) -> name_fits t) /\
  (forall a, a ∈ l -> NtfData.attributeType a = SA_NTF_VALUE_other SA_NTF_VALUE_DOUBLE -> short_double (attributeValue a)).

Lemma moves_getOne handle l a : values_fit handle l -> a ∈ l ->
  moves (getOneAttributeValue env ext handle a) (of_type (NtfData.attributeType a)) [] value_blocks.
Proof.
  intros [Hn Hd] Ha. unfold getOneAttributeValue. destruct (NtfData.attributeType a) as [| |code] eqn:Et.
  - eapply moves_ask; [by apply (moves_call (saNtfPtrValGet _ _))|]. intros r _. apply moves_ret; [by case_bool_decide|]. by case_bool_decide.
  - eapply moves_ask; [by apply (moves_call (saNtfPtrValGet _ _))|]. intros [rc t] [tr Hr]. cbn [fst snd]. case_bool_decide as Hrc; [|by apply moves_ret].
    subst rc. assert (Ht : name_fits t) by (by eapply Hn). eapply moves_forget; [by apply moves_new_name|]. by intros [| | |p long t'] ?; subst.
  - apply moves_ret; destruct (is_number_code code) eqn:Ec; [|done..]. cbn. split; [done|]. intros ->. by apply Hd.
Qed.

Lemma moves_read_number k bits : moves (read_number k (InUnion bits)) (fun z => z = bits mod 2 ^ (8 * Z.of_nat k)) [] (fun _ => []).
Proof. by apply moves_ret. Qed.

(** The elements of an array of this type are texts. *)
Definition is_texts (type : Z) : bool := is_reference type || (type =? MafOamSpiMoAttributeType_3_STRING).
Lemma texts_no_width type : is_texts type = true -> width type = None.
Proof.
  unfold is_texts, is_reference. intros [[Ht|Ht]%orb_true_iff|Ht]%orb_true_iff; apply Z.eqb_eq in Ht; by subst.
Qed.

(** A value of a container that can be printed. *)
Definition printable (type : Z) (v : MafMoAttributeValue_3T ptr) : Prop :=
  type = MafOamSpiMoAttributeType_3_DECIMAL64 -> (String.length (double_text (union_bits v)) < 100)%nat.
Lemma printable_other type v : type <> MafOamSpiMoAttributeType_3_DECIMAL64 -> printable type v.
Proof. by intros ? ?. Qed.
Lemma printable_all type o l : Forall (printable type) l -> prints (MkAvc type o l) = true.
Proof.
  intros Hl. unfold prints. cbn [avc_type avc_elems]. destruct (Z.eqb_spec type MafOamSpiMoAttributeType_3_DECIMAL64) as [Ht|_]; [|done].
  apply forallb_forall. intros v Hv%list_elem_of_In. apply Nat.ltb_lt. by eapply (proj1 (Forall_forall _ l) Hl).
Qed.

(** The parts of a [float], and a double made of its parts. *)
Definition float_exponent (b : Z) : Z := Z.land (Z.shiftr b 23) 255.
Definition float_fraction (b : Z) : Z := Z.land b (2 ^ 23 - 1).
Lemma join_double s e f : 0 <= s < 2 -> 0 <= e < 2048 -> 0 <= f < 2 ^ 52 ->
  let d := s * 2 ^ 63 + e * 2 ^ 52 + f in
  Z.shiftr d 63 = s /\ double_exponent d = e /\ double_fraction d = f /\ 0 <= d < 2 ^ 64.
Proof.
  intros Hs He Hf d. unfold double_exponent, double_fraction. change 2047 with (Z.ones 11). change (2 ^ 52 - 1) with (Z.ones 52).
  rewrite !Z.shiftr_div_pow2, !Z.land_ones by lia. change (2 ^ 52) with 4503599627370496 in *. change (2 ^ 63) with 9223372036854775808 in *.
  change (2 ^ 64) with 18446744073709551616. change (2 ^ 11) with 2048. unfold d. split; [|split; [|split]].
  - symmetry. apply (Z.div_unique _ _ _ (e * 4503599627370496 + f)); lia.
  - replace ((s * 9223372036854775808 + e * 4503599627370496 + f) / 4503599627370496) with (e + s * 2048); [|apply (Z.div_unique _ _ _ f); lia].
    rewrite Z.mod_add by lia. apply Z.mod_small. lia.
  - replace (s * 9223372036854775808 + e * 4503599627370496 + f) with (f + (s * 2048 + e) * 4503599627370496) by lia. rewrite Z.mod_add by lia. apply Z.mod_small. lia.
  - lia.
Qed.

Lemma float_parts b : 0 <= b < 2 ^ 32 -> 0 <= Z.shiftr b 31 < 2 /\ 0 <= float_exponent b < 256 /\ 0 <= float_fraction b < 2 ^ 23.
Proof.
  intros Hb. unfold float_exponent, float_fraction. change 255 with (Z.ones 8). change (2 ^ 23 - 1) with (Z.ones 23).
  rewrite !Z.shiftr_div_pow2, !Z.land_ones by lia. split; [|split; apply Z.mod_pos_bound; lia].
  split; [apply Z.div_pos; lia|]. apply Z.div_lt_upper_bound; lia.
Qed.

(** A [float] becomes a double that can be printed. *)
Lemma float_printable b : 0 <= b < 2 ^ 32 -> (String.length (double_text (double_of_float b)) < 100)%nat.
Proof.
  intros Hb. destruct (float_parts b Hb) as (Hs & He & Hf). apply double_prints. unfold double_of_float.
  change (Z.land (Z.shiftr b 23) 255) with (float_exponent b). change (Z.land b (2 ^ 23 - 1)) with (float_fraction b).
  set (s := Z.shiftr b 31) in *. set (e := float_exponent b) in *. set (f := float_fraction b) in *.
  destruct (Z.eqb_spec e 255) as [|Hne].
  - right. destruct (Z.eqb_spec f 0) as [|Hf0].
    + by destruct (join_double s 2047 0) as (_ & -> & _).
    + assert (Hl : 0 <= Z.lor (2 ^ 51) (f * 2 ^ 29) < 2 ^ 52).
      { split; [apply Z.lor_nonneg; lia|]. apply Z.log2_lt_cancel. rewrite Z.log2_lor by lia. rewrite !Z.log2_pow2 by lia.
        assert (Z.log2 (f * 2 ^ 29) < 52) by (apply Z.log2_lt_pow2; lia). lia. }
      by destruct (join_double s 2047 (Z.lor (2 ^ 51) (f * 2 ^ 29))) as (_ & -> & _).
  - left. destruct (Z.eqb_spec e 0) as [H0|H0]; [destruct (Z.eqb_spec f 0) as [Hf0|Hf0]|].
    + by destruct (join_double s 0 0) as (_ & -> & _).
    + assert (Hk : 0 <= Z.log2 f <= 22) by (split; [apply Z.log2_nonneg|]; assert (Z.log2 f < 23) by (apply Z.log2_lt_pow2; lia); lia).
      destruct (Z.log2_spec f ltac:(lia)) as [Hlo Hhi]. set (k := Z.log2 f) in *.
      assert (Hp : 2 ^ (52 - k) * 2 ^ k = 2 ^ 52) by (rewrite <- Z.pow_add_r by lia; f_equal; lia).
      assert (Hpos : 0 < 2 ^ (52 - k)) by (apply Z.pow_pos_nonneg; lia). rewrite Z.pow_succ_r in Hhi by lia.
      destruct (join_double s (k + 874) (f * 2 ^ (52 - k) - 2 ^ 52)) as (_ & -> & _); [lia|lia|nia|lia].
    + destruct (join_double s (e + 896) (f * 2 ^ 29)) as (_ & -> & _); lia.
Qed.

Lemma moves_setValue type v t : of_type t v -> fits type t = true ->
  moves (setValueInCmEvent env ext type v t) (fun r => (is_texts type = true -> r.1 = true /\ is_text r.2) /\ printable type r.2) (value_blocks v) (fun r => text_block r.2).
Proof.
  intros Hv Hf. unfold setValueInCmEvent. destruct (width type) as [k|] eqn:Ew.
  { assert (Hno : is_texts type = false) by (destruct (is_texts type) eqn:E; [by rewrite texts_no_width in Ew|done]).
    assert (Hd : type <> MafOamSpiMoAttributeType_3_DECIMAL64) by (by intros ->).
    destruct t as [| |code], v; cbn in Hv, Hf; try match type of Hv with _ /\ _ => destruct Hv as [Hv Hdbl] end; rewrite ?Ew in Hf; try done.
    - by rewrite Hv in Hf.
    - eapply moves_ask; [apply moves_read_number|]. intros z _. apply moves_ret; [split; [by rewrite Hno|by apply printable_other]|done]. }
  destruct (type =? MafOamSpiMoAttributeType_3_STRING) eqn:Es.
  { assert (Hd : type <> MafOamSpiMoAttributeType_3_DECIMAL64) by (by intros ->).
    unfold theString. assert (Hs : exists s, (match v with NullPtr => mret ""%string | _ => read_string v end : C string) = mret s /\ value_blocks v = []).
    { destruct t as [| |code], v; cbn in Hv, Hf; try match type of Hv with _ /\ _ => destruct Hv as [Hv Hdbl] end; rewrite ?Ew, ?Es, ?Hv, ?andb_false_r in Hf; try done; by eexists. }
    destruct Hs as (s & -> & ->). eapply moves_then; [apply moves_pure, moves_then with (P := fun r => r.2 = s) (mid := fun r => [r.1]); [by apply moves_text|]|].
    - intros r _. apply (moves_ret _ _ (fun v => is_text v) _ text_block); [done|]. by rewrite app_nil_r.
    - intros x Hx. apply moves_ret; [split; [done|by apply printable_other]|]. by rewrite app_nil_r. }
  change ((type =? MafOamSpiMoAttributeType_3_STRUCT) || (type =? MafOamSpiMoAttributeType_3_REFERENCE)) with (is_reference type).
  destruct (is_reference type) eqn:Er.
  { assert (Hd : type <> MafOamSpiMoAttributeType_3_DECIMAL64) by (by intros ->). unfold moRef. destruct t as [| |code], v; cbn in Hv, Hf; try match type of Hv with _ /\ _ => destruct Hv as [Hv Hdbl] end; rewrite ?Ew, ?Er, ?Hv in Hf; try done.
    - apply (moves_part h _ _ (fun v => is_text v) _ [] text_block _ []); [|done|intros x Hx; apply moves_ret; [split; [done|by apply printable_other]|by rewrite app_nil_r]].
      eapply moves_then; [by apply moves_text|]. intros r _. apply moves_ret; [done|by rewrite app_nil_r].
    - eapply (moves_part h _ _ (fun v => is_text v) _ _ text_block _ []); [|by rewrite app_nil_r|intros x Hx; apply moves_ret; [split; [done|by apply printable_other]|by rewrite app_nil_r]].
      eapply moves_then; [by apply moves_convertTo3GPPDN|]. intros r _.
      eapply (moves_part h _ _ (fun _ => True) _ (named_blocks r) (fun r => [r.1])); [|done|].
      { destruct r as [r|]; [by apply moves_ret|]. eapply moves_forget; [by apply moves_text|]. done. }
      intros dn _. eapply (moves_part h _ _ (fun _ => True) _ (option_list long) (fun _ => []) _ [dn.1; p]); [apply moves_free_opt|cbn; blocks|]. intros [] _. cbn [app].
      eapply (moves_part h _ _ (fun _ => True) _ [p] (fun _ => []) _ [dn.1]); [apply moves_free|blocks|]. intros [] _. by apply moves_ret.
    - apply (moves_part h _ _ (fun v => is_text v) _ [] text_block _ []); [|done|intros x Hx; apply moves_ret; [split; [done|by apply printable_other]|by rewrite app_nil_r]].
      eapply moves_then; [by apply moves_text|]. intros r _. apply moves_ret; [done|by rewrite app_nil_r]. }
  assert (Hno : is_texts type = false) by (unfold is_texts; by rewrite Er, Es).
  assert (Hzero : printable type (Number 0)) by (intros _; by vm_compute; lia).
  destruct (Z.eqb_spec type MafOamSpiMoAttributeType_3_DECIMAL64) as [Ht|_]; [|apply moves_ret; [by rewrite Hno|apply submseteq_nil_l]].
  case_bool_decide as Hd; [|case_bool_decide as Hd'; [|apply moves_ret; [by rewrite Hno|apply submseteq_nil_l]]]; subst t; destruct v; cbn in Hv; try done;
    (eapply moves_ask; [apply moves_read_number|]; intros z ->; apply moves_ret; [split; [by rewrite Hno|intros _]|done]).
  - by apply (proj2 Hv).
  - apply float_printable, Z.mod_pos_bound. lia.
Qed.

Lemma zeros_printable {X} type (l : list X) : Forall (printable type) (map (fun _ => Number 0) l).
Proof. induction l; constructor; [intros _; vm_compute; lia|done]. Qed.
Lemma moves_set_values type vs : Forall (fun v => of_type v.2 v.1 /\ fits type v.2 = true) vs ->
  moves (set_values env ext type vs) (fun r => length r = length vs /\ (is_texts type = true -> Forall is_text r) /\ Forall (printable type) r)
    (vs ≫= fun v => value_blocks v.1) (fun r => r ≫= text_block).
Proof.
  induction 1 as [|[v t] vs [Hv Hf] _ IH]; cbn [set_values fst snd] in *; [by apply moves_ret|]. cbn.
  eapply moves_part; [by apply (moves_setValue type v t)|reflexivity|]. intros [ok x] [Hx Hpr]. cbn [fst snd] in Hx, Hpr. destruct ok.
  - eapply (moves_part h _ _ _ _ _ (fun r => r ≫= text_block) _ (text_block x)); [exact IH|cbn; blocks|]. intros r (Hlen & Hr & Hrs).
    apply moves_ret; [split; [cbn; lia|split; [intros Ht; constructor; [by apply Hx|by apply Hr]|by constructor]]|]. cbn. blocks.
  - apply moves_ret; [split; [cbn; by rewrite length_map|split; [intros Ht; by destruct (Hx Ht)|constructor; [intros _; vm_compute; lia|apply zeros_printable]]]|].
    cbn. replace (map (fun _ => Number 0) vs ≫= text_block) with (@nil ptr); [apply submseteq_nil_l|]. clear. by induction vs.
Qed.

(** ** The attributes of a notification *)
Definition with_id (id : Z) (l : list SaNtfAttributeT) (n : nat) : list SaNtfAttributeT := filter (fun a => attributeId a = id) (take n l).

Section attributes.
Context (handle : Z) (l0 : list SaNtfAttributeT) (Hnames : values_fit handle l0).

Lemma moves_getNumber id l n : (n <= length l)%nat -> moves (getNumberOfAttributeValues id l n) (fun k => k = length (with_id id l n)) [] (fun _ => []).
Proof.
  revert n. induction l as [|a l IH]; intros [|n] Hn; cbn in Hn; try lia; [by apply moves_ret..|]. cbn [getNumberOfAttributeValues].
  eapply moves_ask; [apply IH; lia|]. intros k ->. apply moves_ret; [|done]. unfold with_id. cbn [take]. rewrite filter_cons.
  destruct (Z.eqb_spec (attributeId a) id); case_decide; done.
Qed.

Definition read_from (as_ : list SaNtfAttributeT) (vs : list (ValuePtr * SaNtfValueTypeT)) : Prop :=
  Forall2 (fun a v => v.2 = NtfData.attributeType a /\ of_type v.2 v.1) as_ vs.

Lemma moves_getMulti room id l n : (n <= length l)%nat -> (forall a, a ∈ l -> a ∈ l0) -> (length (with_id id l n) <= room)%nat ->
  moves (getMultiAttributeValue env ext handle room id l n) (read_from (with_id id l n)) [] (fun r => r ≫= fun v => value_blocks v.1).
Proof.
  revert room n. induction l as [|a l IH]; intros room [|n] Hn Hl Hroom; cbn in Hn; try lia; [apply moves_ret; [by constructor|done]..|].
  cbn [getMultiAttributeValue]. unfold with_id in *. cbn [take] in *. rewrite filter_cons in *.
  assert (Hl' : forall x, x ∈ l -> x ∈ l0) by (intros x ?; apply Hl; by right).
  destruct (Z.eqb_spec (attributeId a) id) as [Hid|Hid]; case_decide; try done; [|apply IH; [lia|done..]].
  eapply moves_then; [apply (moves_getOne handle l0); [done|apply Hl; left]|]. intros v Hv. cbn [length] in Hroom. destruct room as [|room]; [lia|].
  eapply moves_then; [apply IH; [lia|done|lia]|]. intros r Hr. apply moves_ret; [by constructor|]. cbn. blocks.
Qed.

(** The value of the first attribute with the id; null when there is none. *)
Definition value_with_id (id : Z) (l : list SaNtfAttributeT) (n : nat) (v : ValuePtr) : Prop :=
  match with_id id l n with [] => v = NullPtr | a :: _ => of_type (NtfData.attributeType a) v end.
Lemma moves_getAttributeValue id l n : (n <= length l)%nat -> (forall a, a ∈ l -> a ∈ l0) ->
  moves (getAttributeValue env ext handle id l n) (value_with_id id l n) [] value_blocks.
Proof.
  revert n. induction l as [|a l IH]; intros [|n] Hn Hl; cbn in Hn; try lia; [by apply moves_ret..|].
  cbn [getAttributeValue]. unfold value_with_id, with_id in *. cbn [take]. rewrite filter_cons.
  destruct (Z.eqb_spec (attributeId a) id) as [Hid|Hid]; case_decide; try done; [apply (moves_getOne handle l0); [done|apply Hl; left]|].
  apply IH; [lia|intros x ?; apply Hl; by right].
Qed.

(** Attributes of the bundle: at most one, and a number. *)
Definition is_number (a : SaNtfAttributeT) : Prop := match NtfData.attributeType a with SA_NTF_VALUE_other code => is_number_code code = true | _ => False end.
Definition single_number (id : Z) (n : nat) : Prop := (length (with_id id l0 n) <= 1)%nat /\ Forall is_number (with_id id l0 n).
Lemma of_number a v : is_number a -> of_type (NtfData.attributeType a) v -> exists bits, v = InUnion bits.
Proof. unfold is_number. destruct (NtfData.attributeType a), v; cbn; try done; [by intros -> ?|eauto]. Qed.

Lemma moves_mandatory k id n : (n <= length l0)%nat -> single_number id n -> moves (mandatory_value env ext k handle id l0 n) (fun _ => True) [] (fun _ => []).
Proof.
  intros Hn [Hone Hnum]. unfold mandatory_value. eapply moves_then; [by apply moves_getMulti|]. intros vs Hvs. rewrite app_nil_r.
  destruct Hvs as [|a [v t] as_ vs [Ht Hv] _]; [by apply moves_ret|]. cbn [fst snd] in *. subst t. apply Forall_cons in Hnum as [Hnum _].
  destruct (of_number a v Hnum Hv) as [bits ->]. eapply moves_forget with (post := fun _ => _); [|by intros; split; [|apply submseteq_nil_l]].
  eapply moves_weaken; [apply moves_read_number|apply submseteq_nil_l|done].
Qed.

(** The bundle is only looked for where the name is. *)
Definition mandatory_ok (name : option string) (n : nat) : Prop :=
  (name = Some "SaImmOiCcbIdT"%string -> single_number SaImmOiCcbIdTattributeId n) /\ (name = Some "ccbLast"%string -> single_number ccbLastattributeId n).
Lemma moves_checkForMandatoryAttributes n name ci : (n <= length l0)%nat -> mandatory_ok name n ->
  moves (checkForMandatoryAttributes env ext handle l0 n name ci) (fun _ => True) [] (fun _ => []).
Proof.
  intros Hn [Hid Hlast]. unfold checkForMandatoryAttributes. destruct name as [name|]; [|by apply moves_ret].
  case_bool_decide; [subst; eapply moves_ask; [apply moves_mandatory; auto|]; intros v _; by apply moves_ret|].
  case_bool_decide; [subst; eapply moves_ask; [apply moves_mandatory; auto|]; intros v _; by apply moves_ret|]. by apply moves_ret.
Qed.

(** ** A container *)

(** The container that is made: an array of references, or of values of its type. *)
Definition made_ok (a : Avc) : Prop := if avc_type a.2 =? MafOamSpiMoAttributeType_3_STRUCT then ref_ok a.2 else avc_ok a.2.
Definition made_blocks (a : Avc) : list ptr := if avc_type a.2 =? MafOamSpiMoAttributeType_3_STRUCT then owned_ref (Some a) else owned_avc a.

Lemma make_container p t o l : (l = [] \/ is_Some o) -> (is_texts t = true -> Forall is_text l) ->
  made_ok (p, MkAvc t o l) /\ made_blocks (p, MkAvc t o l) ⊆+ p :: option_list o ++ (l ≫= text_block).
Proof.
  intros Ho Hl. unfold made_ok, made_blocks. cbn [snd avc_type]. unfold is_texts, is_reference in Hl.
  destruct (Z.eqb_spec t MafOamSpiMoAttributeType_3_STRUCT) as [->|Hne].
  - split; [split; [done|by apply Hl]|]. unfold owned_ref, ref_blocks. cbn [avc_elems avc_values fst snd]. blocks.
  - cbn [orb] in Hl. assert (Hs : (t =? MafOamSpiMoAttributeType_3_STRUCT) = false) by (by apply Z.eqb_neq). split.
    + apply avc_ok_elems. split; [done|]. unfold element_ok_of. rewrite Hs. unfold is_text_type. rewrite orb_comm. destruct (_ || _) eqn:E; [by apply Hl|].
      apply Forall_true. done.
    + unfold owned_avc. cbn [fst snd]. rewrite avc_blocks_elems.
      assert (Hel : l ≫= element_blocks_of t ⊆+ l ≫= text_block).
      { unfold element_blocks_of. rewrite Hs. destruct (is_text_type t); [done|]. clear. induction l; [done|]. cbn. rewrite IHl. by apply submseteq_inserts_l. }
      assert (Harr : match l, o with _ :: _, Some q => [q] | _, _ => [] end ⊆+ option_list o) by (destruct l, o; cbn; apply submseteq_nil_l || done).
      blocks.
Qed.

Lemma moves_getContainer id n rdn name s : (n <= length l0)%nat ->
  (forall a tr, a ∈ l0 -> attributeId a = id ->
     fits match s with Some s => env _ tr (getTypeForStructMemberAttribute s name rdn) | None => env _ tr (getTypeForAttribute name rdn) end (NtfData.attributeType a) = true) ->
  moves (getAttributeValuesContainerValue env ext id handle l0 n rdn name s)
    (fun o => match o with Some a => (made_ok a /\ prints a.2 = true) /\ (s = None -> exists tr, env _ tr (getTypeForAttribute name rdn) = avc_type a.2) | None => True end)
    [] (fun o => match o with Some a => made_blocks a | None => [] end).
Proof.
  intros Hn Hfit. unfold getAttributeValuesContainerValue. eapply moves_then; [by apply moves_block|]. intros p _.
  eapply moves_ask; [by apply moves_getNumber|]. intros k ->. eapply moves_then; [apply moves_getMulti; [done|done|lia]|]. intros vs Hvs.
  eapply (moves_ask _ _ (fun t => exists tr, t = match s with Some s => env _ tr (getTypeForStructMemberAttribute s name rdn) | None => env _ tr (getTypeForAttribute name rdn) end)).
  { destruct s as [s|]; (eapply moves_forget; [by apply moves_call|]; intros r [tr <-]; split; [by exists tr|done]). }
  intros t [tr Ht]. assert (Htype : s = None -> exists tr, env _ tr (getTypeForAttribute name rdn) = t) by (intros ->; by exists tr).
  destruct (t =? 0); [apply moves_ret; [done|apply submseteq_nil_l]|].
  assert (Hall : Forall (fun v => of_type v.2 v.1 /\ fits t v.2 = true) vs).
  { clear -Hvs Hfit Ht. assert (Hin : Forall (fun a => a ∈ l0 /\ attributeId a = id) (with_id id l0 n)).
    { apply Forall_forall. intros a [Ha (i & Hin & _)%elem_of_take]%list_elem_of_filter. split; [by eapply list_elem_of_lookup_2|done]. }
    induction Hvs as [|a v as_ vs [Hv1 Hv2] _ IH]; [constructor|]. apply Forall_cons in Hin as [[Ha Hid] Hin]. constructor; [|by apply IH].
    split; [done|]. rewrite Hv1, Ht. by apply Hfit. }
  destruct (_ =? _)%nat.
  - destruct (make_container p t None []) as [Hok Hb]; [by left|done|]. apply moves_ret; [split; [split; [done|by apply printable_all]|done]|]. rewrite Hb. cbn. blocks.
  - eapply moves_then; [by apply moves_block|]. intros o _. eapply (moves_part h _ _ _ _ _ _ _ [o; p]); [by apply moves_set_values|blocks|].
    intros l (_ & Htexts & Hpr). destruct (make_container p t (Some o) l) as [Hok Hb]; [by right|done|]. apply moves_ret; [split; [split; [done|by apply printable_all]|done]|]. rewrite Hb. cbn [option_list]. blocks.
Qed.
End attributes.
End owned.
