(* ===== verification/NtfCmSystem.v ===== *)
(** * Events of the configuration: a notification leaves the handler in order

    [converts m P pre post]: started in a state in order, with the blocks [pre] of its
    own, [m] returns, with a result that satisfies [P], in a state in order, and
    owns the blocks [post]; an uncaught exception may end it.  Events that go out
    meanwhile are accounted for by the ledger of the consumers.  [convertible] says which
    notifications are converted in this way. *)
From Stdlib Require Import ZArith Lia.
From stdpp Require Import base gmap gmultiset list strings.
From S2P Require Import Prelude Marks Codes CmTypes NtfData NtfInfo StdMap EventProducer EventProducerFacts CmData CmProducer CmCache CmHandler.
From S2P Require Import CmMemory CmProducerFacts CmCacheFacts CmBuildFacts CmSystem NtfCmValues NtfCm NtfCmFacts.

Open Scope Z_scope.

(** ** Histories of the conversion *)
Section growth.
Context (env : environment ntfE) (ext : bool) (sizes : Sizes) (max : Z).

Lemma tame_drop_empty b : tame (drop_empty b).
Proof. unfold drop_empty. growing. Qed.
#[local] Hint Resolve tame_drop_empty : tame.
Lemma tame_send_runtime_struct rdn name e : tame (send_runtime_struct env sizes max rdn name e).
Proof. unfold send_runtime_struct. growing. Qed.
#[local] Hint Resolve tame_send_runtime_struct : tame.
Lemma tame_isNotified rdn c a : tame (isNotified env rdn c a).
Proof. unfold isNotified. growing. Qed.
#[local] Hint Resolve tame_isNotified : tame.
Lemma tame_attributes_to_notify h l n rdn c i ci : tame (attributes_to_notify env ext h l n rdn c i ci).
Proof. revert ci. induction i as [|i infos IH]; intros ci; cbn [attributes_to_notify]; unfold attribute_name; growing; apply IH. Qed.
Lemma tame_send_attribute h l n rdn ccb id name : tame (send_attribute env ext sizes max h l n rdn ccb id name).
Proof. unfold send_attribute. growing. Qed.
#[local] Hint Resolve tame_attributes_to_notify tame_send_attribute : tame.
Lemma tame_send_attributes h l n rdn ccb as_ : tame (send_attributes env ext sizes max h l n rdn ccb as_).
Proof. induction as_ as [|[name id] as_ IH]; cbn [send_attributes]; growing. Qed.
Lemma tame_send_member h l n rdn ccb id name : tame (send_member env ext sizes max h l n rdn ccb id name).
Proof. unfold send_member. growing. Qed.
#[local] Hint Resolve tame_send_attributes tame_send_member : tame.
Lemma tame_send_struct h l n rdn c i rv ci : tame (send_struct env ext sizes max h l n rdn c i rv ci).
Proof. revert rv ci. induction i as [|i infos IH]; intros rv ci; cbn [send_struct]; unfold attribute_name; growing; apply IH. Qed.
#[local] Hint Resolve tame_send_struct : tame.
Lemma tame_transform h l n rdn i create : tame (transform env ext sizes max h l n rdn i create).
Proof. unfold transform, transformAttributeListStruct, transformAttributeList, getClassNameOfNotification. growing. Qed.
#[local] Hint Resolve tame_transform : tame.
Lemma tame_find_changes n rdn create : tame (find_changes env ext sizes max n rdn create).
Proof. unfold find_changes. growing. Qed.
Lemma tame_deleted_bundle h l n b : tame (deleted_bundle env ext h l n b).
Proof. unfold deleted_bundle. growing. Qed.
#[local] Hint Resolve tame_find_changes tame_deleted_bundle : tame.
Lemma tame_find_deletion n rdn : tame (find_deletion env ext max n rdn).
Proof. unfold find_deletion. growing. Qed.
#[local] Hint Resolve tame_find_deletion : tame.
Lemma tame_find n rdn : tame (find env ext sizes max n rdn).
Proof. unfold find. growing. Qed.
Lemma tame_send_dn f src dn : tame (send_dn env sizes max f src dn).
Proof. unfold send_dn. growing. Qed.
#[local] Hint Resolve tame_send_dn : tame.
Lemma tame_name_object n f comsa rdn : tame (name_object env ext sizes max n f comsa rdn).
Proof. unfold name_object, convertTo3GPPDNCOMCASE. growing. Qed.
#[local] Hint Resolve tame_find tame_name_object : tame.
Lemma tame_copy_immRdn no : tame (copy_immRdn env no).
Proof. unfold copy_immRdn. growing. Qed.
Lemma tame_isCOMSAAdminOwner n : tame (isCOMSAAdminOwner env ext n).
Proof. unfold isCOMSAAdminOwner. growing. Qed.
#[local] Hint Resolve tame_copy_immRdn tame_isCOMSAAdminOwner : tame.
Lemma tame_convertCMNotificationHeader n : tame (convertCMNotificationHeader env ext sizes max n).
Proof. unfold convertCMNotificationHeader. growing. Qed.
End growth.
#[export] Hint Resolve tame_drop_empty tame_send_runtime_struct tame_isNotified tame_attributes_to_notify tame_send_attribute tame_send_attributes
  tame_send_member tame_send_struct tame_transform tame_find_changes tame_deleted_bundle tame_find_deletion tame_find tame_send_dn tame_name_object tame_copy_immRdn tame_isCOMSAAdminOwner tame_convertCMNotificationHeader : tame.

(** ** Triples *)
Section converts.
Context (env : environment ntfE) (Hmem : memory_left env) (sizes : Sizes).

Definition converts {A} (m : C A) (P : A -> Prop) (pre : list ptr) (post : A -> list ptr) : Prop :=
  forall led F s, in_order led (pre ++ F) s ->
  traces m s
    (fun a s' ms => forall led', ledger ms led = Some led' -> P a /\ in_order led' (post a ++ F) s')
    (fun w _ ms => is_Some (ledger ms led) -> w = Aborted).

Lemma in_order_sub led F F' s : F' ⊆+ F -> in_order led F s -> in_order led F' s.
Proof. intros HF (cm & ? & Hs). exists cm. split; [done|]. eapply serves_perm; [|exact Hs]. by apply submseteq_app. Qed.

Lemma converts_ret {A} (a : A) (P : A -> Prop) pre post : P a -> post a ⊆+ pre -> converts (mret a) P pre post.
Proof. intros HP Hs led F s Ho. apply traces_ret. intros led' [= <-]. split; [done|]. eapply in_order_sub; [|exact Ho]. by apply submseteq_app. Qed.

Lemma converts_bind {A B} (m : C A) (k : A -> C B) P Q pre mid post :
  converts m P pre mid -> (forall a, grows (k a)) -> (forall a, P a -> converts (k a) Q (mid a) post) -> converts (m ≫= k) Q pre post.
Proof.
  intros Hm Hg Hk led F s Ho. apply traces_bind. eapply traces_mono; [by apply Hm| |done]. intros a s1 ms Hms.
  destruct (ledger ms led) as [led1|] eqn:El.
  - destruct (Hms led1 El) as [HP Ho1]. eapply traces_mono; [by apply (Hk a HP)| |].
    + intros b s2 ms2. by rewrite ledger_app, El.
    + intros w s2 ms2. by rewrite ledger_app, El.
  - eapply adds_traces; [apply Hg| |]; intros ? ? ?; rewrite ledger_app, El; [done|by intros [? ?]].
Qed.

Lemma converts_weaken {A} (m : C A) (P Q : A -> Prop) pre pre' post post' :
  converts m P pre post -> pre ⊆+ pre' -> (forall a, P a -> Q a /\ post' a ⊆+ post a) -> converts m Q pre' post'.
Proof.
  intros Hm Hpre Hpost led F s Ho. eapply traces_mono; [apply (Hm led F)| |done].
  - eapply in_order_sub; [|exact Ho]. by apply submseteq_app.
  - intros a s' ms Hms led' Hl. destruct (Hms led' Hl) as [HP Ho']. destruct (Hpost a HP) as [HQ Hs]. split; [done|].
    eapply in_order_sub; [|exact Ho']. by apply submseteq_app.
Qed.
Lemma converts_frame {A} (m : C A) P pre post F : converts m P pre post -> converts m P (pre ++ F) (fun a => post a ++ F).
Proof.
  intros Hm led R s Ho. rewrite <- app_assoc in Ho. eapply traces_mono; [by apply Hm| |done]. intros a s' ms Hms led' Hl. rewrite <- app_assoc. by apply Hms.
Qed.

(** Part of a program, which uses the blocks [pre] only. *)
Lemma converts_part {A B} (m : C A) (k : A -> C B) P Q pre mid all F post :
  converts m P pre mid -> (forall a, grows (k a)) -> all ≡ₚ pre ++ F -> (forall a, P a -> converts (k a) Q (mid a ++ F) post) ->
  converts (m ≫= k) Q all post.
Proof.
  intros Hm Hg Hall Hk. eapply converts_weaken; [|by rewrite Hall|by intros b Hb; split; [exact Hb|reflexivity]].
  eapply converts_bind; [apply converts_frame, Hm|exact Hg|exact Hk].
Qed.
Lemma converts_then {A B} (m : C A) (k : A -> C B) P Q pre mid post :
  converts m P [] mid -> (forall a, grows (k a)) -> (forall a, P a -> converts (k a) Q (mid a ++ pre) post) -> converts (m ≫= k) Q pre post.
Proof. intros Hm Hg Hk. by eapply (converts_part m k P Q [] mid pre pre). Qed.
Lemma converts_ask {A B} (m : C A) (k : A -> C B) P Q pre post :
  converts m P [] (fun _ => []) -> (forall a, grows (k a)) -> (forall a, P a -> converts (k a) Q pre post) -> converts (m ≫= k) Q pre post.
Proof. intros Hm Hg Hk. by eapply converts_then. Qed.

(** What does not send is a step in the sense of [moves]. *)
Lemma converts_moves {A} (m : C A) P pre post : moves idle_handler m P pre post -> converts m P pre post.
Proof.
  intros Hm led F s (cm & Hcm & Hs). eapply traces_mono; [eapply (serves_moves _ _ _ _ (Some cm) (cache_blocks cm ++ F)); [exact Hm|]| |done].
  - eapply serves_perm; [|exact Hs]. blocks.
  - intros a s' ms (-> & HP & Hs'). intros led' [= <-]. split; [done|]. exists cm. split; [done|]. eapply serves_perm; [|exact Hs']. blocks.
Qed.
Lemma converts_call {R} (e : ntfE R) : (forall r, delivery (Ev e r) = None) -> converts (call env e) (fun r => exists tr, env R tr e = r) [] (fun _ => []).
Proof. intros He. by apply converts_moves, moves_call. Qed.
Lemma converts_abort {A} (o : option A) : converts (of_option Aborted o) (fun a => o = Some a) [] (fun _ => []).
Proof. destruct o as [a|]; [by apply converts_ret|]. intros led F s Ho. by apply traces_exit. Qed.

(** ** The interface of the cache *)
Lemma converts_addToCmCache ccbId a i m v : opt_ok (acceptable ccbId i) v ->
  converts (addToCmCache env sizes 0 ccbId a i m v) (fun _ => True) (handed_over ccbId i v) (fun _ => []).
Proof.
  intros Hv led F s Ho. eapply traces_mono; [apply (addToCmCache_ok env Hmem sizes ccbId a i m v led _ s Ho Hv); by apply submseteq_inserts_r| |by intros w s' ms ->].
  intros rc s' ms [-> Hms] led' [= <-]. split; [done|]. by apply Hms.
Qed.
Lemma converts_setDnInCmCache ccbId src dn t last : dn <> Some tempCacheKey ->
  converts (setDnInCmCache env sizes 0 ccbId src dn t last) (fun _ => True) [] (fun _ => []).
Proof.
  intros Hdn led F s Ho. eapply traces_mono; [by apply (setDnInCmCache_ok env Hmem sizes ccbId src dn t last led F s)| |done].
  intros rc s' ms Hms led' Hl. split; [done|]. by apply Hms.
Qed.
Lemma converts_push n : notification_ok n -> converts (push_CmEventHandler env n) (fun _ => True) (notification_blocks n) (fun _ => []).
Proof.
  intros Hn led F s (cm & Hcm & Hs). eapply traces_mono; [apply (push_ends env n (Some cm) (cache_blocks cm ++ F) led s Hn)| |done].
  - eapply serves_perm; [|exact Hs]. blocks.
  - intros rc s' ms [_ Hms] led' Hl. split; [done|]. exists cm. split; [done|]. by apply Hms.
Qed.
Lemma in_order_handler led F s : in_order led F s -> cmEventHandler s = Some idle_handler.
Proof. intros (cm & _ & Hs). by destruct (serves_cache _ _ _ _ Hs). Qed.
Lemma converts_isDiscardedCcb ccbId : converts (isDiscardedCcb 0 ccbId) (fun b => b = false) [] (fun _ => []).
Proof.
  intros led F s Ho. unfold isDiscardedCcb. apply traces_bind, traces_get. rewrite (in_order_handler _ _ _ Ho). apply traces_ret. by intros led' [= <-].
Qed.
Lemma converts_removeDiscardedCcb ccbId : converts (removeDiscardedCcb 0 ccbId) (fun _ => True) [] (fun _ => []).
Proof.
  intros led F s Ho. unfold removeDiscardedCcb. apply traces_bind, traces_get. rewrite (in_order_handler _ _ _ Ho). apply traces_ret. by intros led' [= <-].
Qed.
End converts.

(** ** Notifications that can be converted *)

Definition array (n : SaNtfNotificationsT) : list SaNtfAttributeT := default [] (attributes (changePart n)).
Definition announced (n : SaNtfNotificationsT) : nat := Z.to_nat (numAttributes (changePart n)).
Definition object_name (n : SaNtfNotificationsT) : string := notificationObject (notificationHeader n).

(** The name of an attribute, as the additional information may be answered. *)
Definition names (env : environment ntfE) (n : SaNtfNotificationsT) (i : SaNtfAdditionalInfoT) (name : string) : Prop :=
  i ∈ additionalInfo (notificationHeader n) /\ infoType i = SA_NTF_VALUE_STRING /\
  exists tr, env _ tr (saNtfPtrValGet (notificationHandle n) (infoValue i)) = (SA_AIS_OK, name).

Record convertible (env : environment ntfE) (ext : bool) (n : SaNtfNotificationsT) : Prop := {
  (** pointers are there, and arrays are as long as announced *)
  r_array : (announced n <= length (array n))%nat;
  r_first : attributes (changePart n) <> Some [];
  r_source : is_Some (sourceIndicator (changePart n));
  r_code : notificationType n = SA_NTF_TYPE_OBJECT_CREATE_DELETE -> is_Some (eventTypeCode (changePart n));
  r_object : object_name n <> ""%string;
  (** names are not too long, and doubles print in less than 100 characters *)
  r_object_fits : name_fits ext (object_name n);
  r_values : values_fit env ext (notificationHandle n) (array n);
  (** the class is a text, the attributes of the bundle are numbers *)
  r_class : forall a, a ∈ array n -> attributeId a = 1 -> NtfData.attributeType a = SA_NTF_VALUE_STRING;
  r_mandatory : forall i name, names env n i name -> mandatory_ok (array n) (Some name) (announced n);
  r_deleted : notificationType n = SA_NTF_TYPE_OBJECT_CREATE_DELETE -> eventTypeCode (changePart n) <> Some SA_NTF_OBJECT_CREATION -> announced n <> 0%nat ->
    exists second third, array n !! 1%nat = Some second /\ array n !! 2%nat = Some third /\
      forall a, a ∈ array n -> attributeId a = attributeId second \/ attributeId a = attributeId third -> is_number a;
  (** the translator and the notification agree about types *)
  r_types : forall i name, names env n i name -> forall a, a ∈ array n -> attributeId a = infoId i -> forall tr,
    fits (env _ tr (getTypeForAttribute name (object_name n))) (NtfData.attributeType a) = true /\
    forall s, fits (env _ tr (getTypeForStructMemberAttribute s name (object_name n))) (NtfData.attributeType a) = true;
  (** structs are known as such, and well formed (no array of doubles) *)
  r_structs : forall tr tr' name, env _ tr (isStructAttribute (object_name n) name) = false ->
    env _ tr' (getTypeForAttribute name (object_name n)) <> MafOamSpiMoAttributeType_3_STRUCT;
  r_filled : forall tr name b, env _ tr (fillStructMembers (object_name n) name) = (true, b) -> avc_ok b /\ avc_type b <> MafOamSpiMoAttributeType_3_DECIMAL64;
  (** no object is called like the temporary entry *)
  r_dn : forall t, translated env (object_name n) t \/ (exists tr, env _ tr (ImmRdn2MOTop (object_name n)) = t) -> String.prefix tempCacheKey t = false
}.

(** Steps of a conversion: a part that is a step of [moves], or a known one. *)
Ltac ask L := eapply converts_ask; [first [by apply L | by eapply L | by apply converts_moves, L]|intros ?; cbv beta; growing|].

Section notification.
Context (env : environment ntfE) (Hmem : memory_left env) (ext : bool) (sizes : Sizes) (n : SaNtfNotificationsT) (Hn : convertible env ext n).
Abbreviation handle := (notificationHandle n).
Abbreviation rdn := (object_name n).

(** A value that the translator made. *)
Lemma incoming_runtime a : avc_ok a.2 -> incoming_ok 0 rdn a.
Proof. unfold incoming_ok, getAttrType. cbn. intros Ha. by destruct (_ =? _); [|destruct (isStruct _)]. Qed.
Lemma incoming_made ccb a : made_ok a -> (ccb = 0 -> avc_type a.2 <> MafOamSpiMoAttributeType_3_STRUCT) ->
  incoming_ok ccb rdn a /\ incoming_blocks ccb rdn a = made_blocks a.
Proof.
  unfold made_ok, made_blocks, incoming_ok, incoming_blocks, getAttrType.
  destruct (Z.eqb_spec (avc_type a.2) MafOamSpiMoAttributeType_3_STRUCT) as [Ht|Ht]; intros Ha Hc.
  - destruct (Z.eqb_spec ccb 0) as [->|_]; [by destruct (Hc eq_refl)|done].
  - rewrite !andb_false_r. by destruct (isStruct rdn).
Qed.

Lemma converts_send_runtime_struct name e : converts (send_runtime_struct env sizes 0 rdn name e) (fun _ => True) [] (fun _ => []).
Proof.
  unfold send_runtime_struct. eapply converts_then; [by apply converts_moves, moves_block|intros ?; growing|]. intros p _.
  ask converts_call. intros nm _. eapply converts_then; [apply converts_moves, (moves_received env Hmem)|intros ?; growing|]. intros sname _.
  ask converts_call. intros [filled made] [tr Hr]. cbn zeta iota.
  eapply (converts_then _ _ (fun b => avc_ok b /\ avc_type b <> MafOamSpiMoAttributeType_3_DECIMAL64) _ _ avc_blocks); [|intros ?; growing|].
  { apply converts_moves. destruct filled; [|apply moves_ret; [split; [split; [by left|done]|done]|done]].
    eapply moves_then; [destruct (r_filled _ _ _ Hn _ _ _ Hr); by apply (moves_install env Hmem)|]. intros b [Hb Ht]. rewrite app_nil_r. destruct e; [|by apply moves_ret].
    unfold drop_empty. destruct (_ && _); [|by apply moves_ret].
    eapply (moves_part _ _ _ (fun _ => True) _ (avc_blocks b) (fun _ => []) _ []); [by apply moves_freeAVC|by rewrite app_nil_r|]. intros [] _. apply moves_ret; [|done].
    destruct b. split; [split; [by left|done]|exact Ht]. }
  intros b [Hb Ht]. set (body := (p, b) : Avc).
  eapply (converts_part _ _ (fun _ => True) _ (handed_over 0 (Some rdn) (Some body)) (fun _ => []) _ (named_blocks sname)).
  - apply converts_addToCmCache; [done|]. split; [by apply incoming_runtime|by apply prints_other].
  - intros ?. growing.
  - cbn [handed_over default from_option id]. replace (incoming_blocks 0 rdn body) with (owned_avc body).
    { unfold owned_avc, body, named_blocks. cbn [fst snd]. blocks. }
    unfold incoming_blocks, getAttrType. cbn. by destruct (_ =? _); [|destruct (isStruct _)].
  - intros rc _. eapply (converts_part _ _ (fun _ => True) _ _ (fun _ => []) _ []); [apply converts_moves, moves_free_opt|intros ?; growing|cbn; by rewrite app_nil_r|].
    intros [] _. by apply converts_ret.
Qed.

Lemma class_is_text : converts (getClassNameOfNotification env ext handle (array n) (announced n)) (fun c => c = NullPtr \/ exists t, c = InBuffer t) [] (fun _ => []).
Proof.
  apply converts_moves. unfold getClassNameOfNotification.
  eapply moves_forget; [eapply (moves_getAttributeValue env Hmem ext idle_handler handle (array n)); [exact (r_values _ _ _ Hn)|exact (r_array _ _ _ Hn)|done]|].
  intros c. unfold value_with_id. destruct (with_id 1 (array n) (announced n)) as [|a l] eqn:E; [intros ->; split; [by left|done]|].
  assert (Ha : a ∈ with_id 1 (array n) (announced n)) by (rewrite E; left). apply list_elem_of_filter in Ha as [Hid (i & Hi & _)%elem_of_take].
  rewrite (r_class _ _ _ Hn a) by (by eapply list_elem_of_lookup_2 || done). destruct c; cbn; try done; intros _; (split; [eauto|done]).
Qed.

Lemma converts_isNotified t a : converts (isNotified env rdn (InBuffer t) a) (fun _ => True) [] (fun _ => []).
Proof. unfold isNotified. cbn [read_string]. eapply converts_ask; [by apply (converts_ret _ (fun x => x = t))|intros ?; growing|]. intros class ->. eapply converts_weaken; [by apply converts_call|done|done]. Qed.
Lemma converts_attribute_name i : i ∈ additionalInfo (notificationHeader n) -> infoType i = SA_NTF_VALUE_STRING ->
  converts (attribute_name env handle i) (fun o => match o with Some name => names env n i name | None => True end) [] (fun _ => []).
Proof.
  intros Hi Ht. unfold attribute_name. ask converts_call. intros [rc t] [tr Hr]. apply converts_ret; [|done]. cbn [fst snd].
  case_bool_decide; [|done]. subst. split; [done|]. split; [done|]. by exists tr.
Qed.
Lemma converts_mandatory i o ci : match o with Some name => names env n i name | None => True end ->
  converts (checkForMandatoryAttributes env ext handle (array n) (announced n) o ci) (fun _ => True) [] (fun _ => []).
Proof.
  intros Ho. apply converts_moves, moves_checkForMandatoryAttributes; [done|exact (r_values _ _ _ Hn)|exact (r_array _ _ _ Hn)|].
  destruct o as [name|]; [exact (r_mandatory _ _ _ Hn i name Ho)|done].
Qed.

Definition announces (x : string * Z) : Prop := exists i, names env n i x.1 /\ infoId i = x.2.
Lemma converts_attributes_to_notify t l ci : (forall i, i ∈ l -> i ∈ additionalInfo (notificationHeader n)) ->
  converts (attributes_to_notify env ext handle (array n) (announced n) rdn (InBuffer t) l ci) (fun r => Forall announces r.1) [] (fun _ => []).
Proof.
  revert ci. induction l as [|i l IH]; intros ci Hl; cbn [attributes_to_notify]; [by apply converts_ret|].
  assert (Hl' : forall x, x ∈ l -> x ∈ additionalInfo (notificationHeader n)) by (intros x ?; apply Hl; by right).
  case_bool_decide as Ht; [|by apply IH].
  eapply converts_ask; [apply converts_attribute_name; [apply Hl; left|done]|intros ?; growing|]. intros o Ho.
  eapply converts_ask; [exact (converts_mandatory i o _ Ho)|intros ?; growing|]. intros ci' _. destruct o as [name|]; [|by apply IH].
  eapply converts_ask; [apply converts_isNotified|intros ?; growing|]. intros b _.
  eapply converts_ask; [by apply IH|intros ?; growing|]. intros r Hr. apply converts_ret; [|done]. destruct b; [|done]. cbn. constructor; [by exists i|done].
Qed.

(** An attribute with the value that the notification has for it. *)
Lemma converts_container i name s ccb m : names env n i name ->
  (ccb = 0 -> s = None /\ exists tr, env _ tr (isStructAttribute rdn name) = false) ->
  converts (value ← getAttributeValuesContainerValue env ext (infoId i) handle (array n) (announced n) rdn name s;
            addToCmCache env sizes 0 ccb (Some (default name s)) (Some rdn) m value) (fun _ => True) [] (fun _ => []).
Proof.
  intros Hi Hs. eapply converts_bind; [apply converts_moves, (moves_getContainer env Hmem ext idle_handler handle (array n)); [exact (r_values _ _ _ Hn)|exact (r_array _ _ _ Hn)|]|intros ?; growing|].
  { intros a tr Ha Hid. destruct (r_types _ _ _ Hn i name Hi a Ha Hid tr) as [? Hst]. by destruct s. }
  intros [a|]; cbv beta iota; [|intros _; by apply (converts_addToCmCache env Hmem sizes ccb _ (Some rdn) m None)].
  intros [[Hok Hpr] Ht]. destruct (incoming_made ccb a Hok) as [Hin Hbl].
  { intros Hc. destruct (Hs Hc) as (Hnone & tr & Htr), (Ht Hnone) as [tr' <-]. by eapply r_structs. }
  rewrite <- Hbl. apply (converts_addToCmCache env Hmem sizes ccb _ (Some rdn) m (Some a)). by split.
Qed.

Lemma converts_send_attribute i name ccb : names env n i name ->
  converts (send_attribute env ext sizes 0 handle (array n) (announced n) rdn ccb (infoId i) name) (fun _ => True) [] (fun _ => []).
Proof.
  intros Hi. unfold send_attribute.
  eapply (converts_ask _ _ (fun b => ccb = 0 -> exists tr, env _ tr (isStructAttribute rdn name) = b)).
  { destruct (Z.eqb_spec ccb 0); [|by apply converts_ret]. eapply converts_weaken; [by apply converts_call|done|]. by intros b ?. }
  { intros ?. growing. }
  intros [|] Hb; [apply converts_send_runtime_struct|]. apply (converts_container i name None); [done|]. intros Hc. split; [done|by apply Hb].
Qed.
Lemma converts_send_attributes l ccb : Forall announces l ->
  converts (send_attributes env ext sizes 0 handle (array n) (announced n) rdn ccb l) (fun _ => True) [] (fun _ => []).
Proof.
  induction 1 as [|[name id] l (i & Hi & Hid) _ IH]; cbn [send_attributes fst snd] in *; [by apply converts_ret|]. subst id.
  destruct (_ =? _); [exact IH|]. eapply converts_ask; [by apply converts_send_attribute|intros ?; growing|]. intros rc _.
  case_bool_decide; [by apply converts_ret|exact IH].
Qed.

Lemma of_the_rest i : i ∈ drop 2 (additionalInfo (notificationHeader n)) -> i ∈ additionalInfo (notificationHeader n).
Proof. intros Hi. rewrite <- (take_drop 2 (additionalInfo (notificationHeader n))). apply elem_of_app. by right. Qed.

Lemma converts_transformAttributeList create ci :
  converts (transformAttributeList env ext sizes 0 handle (array n) (announced n) rdn (additionalInfo (notificationHeader n)) create ci)
    (fun _ => True) [] (fun _ => []).
Proof.
  unfold transformAttributeList. eapply converts_ask; [apply class_is_text|intros ?; growing|]. intros c [->|[t ->]]; [by apply converts_ret|].
  eapply (converts_ask _ _ (fun _ => True)); [destruct create; [apply converts_isNotified|by apply converts_ret]|intros ?; growing|]. intros created _.
  eapply converts_ask; [apply converts_attributes_to_notify, of_the_rest|intros ?; growing|]. intros [l ci'] Hl. cbn zeta iota.
  eapply converts_ask; [apply converts_isDiscardedCcb|intros ?; growing|]. intros b ->.
  eapply converts_ask; [by apply converts_send_attributes|intros ?; growing|]. intros room _. by apply converts_ret.
Qed.

Lemma converts_send_member i name ccb : names env n i name -> ccb <> 0 ->
  converts (send_member env ext sizes 0 handle (array n) (announced n) rdn ccb (infoId i) name) (fun _ => True) [] (fun _ => []).
Proof.
  intros Hi Hc. unfold send_member. ask converts_call. intros nm _.
  eapply converts_then; [apply converts_moves, (moves_received env Hmem)|intros ?; growing|]. intros o _.
  eapply (converts_then _ _ (fun _ => True) _ _ (fun _ => [])); [|intros ?; growing|].
  - destruct o as [[p s]|]; [|by apply converts_ret]. case_bool_decide; [|by apply converts_ret].
    by apply (converts_container i name (Some s)).
  - intros rc _. cbn [app]. eapply (converts_part _ _ (fun _ => True) _ _ (fun _ => []) _ []); [apply converts_moves, moves_free_opt|intros ?; growing|reflexivity|].
    intros [] _. by apply converts_ret.
Qed.

Lemma converts_send_struct t l rv ci : (forall i, i ∈ l -> i ∈ additionalInfo (notificationHeader n)) ->
  converts (send_struct env ext sizes 0 handle (array n) (announced n) rdn (InBuffer t) l rv ci) (fun _ => True) [] (fun _ => []).
Proof.
  revert rv ci. induction l as [|i l IH]; intros rv ci Hl; cbn [send_struct]; [by apply converts_ret|].
  assert (Hl' : forall x, x ∈ l -> x ∈ additionalInfo (notificationHeader n)) by (intros x ?; apply Hl; by right).
  case_bool_decide as Ht; [|by apply IH].
  eapply converts_ask; [apply converts_attribute_name; [apply Hl; left|done]|intros ?; growing|]. intros o Ho.
  eapply converts_ask; [exact (converts_mandatory i o _ Ho)|intros ?; growing|]. intros ci' _.
  eapply converts_ask; [apply converts_isDiscardedCcb|intros ?; growing|]. intros b ->. destruct o as [name|]; [|by apply IH].
  eapply converts_ask; [apply converts_isNotified|intros ?; growing|]. intros notified _.
  eapply (converts_ask _ _ (fun _ => True)); [|intros ?; growing|].
  { destruct notified; [|by apply converts_ret]. destruct (is_id rdn); [by apply converts_ret|]. eapply converts_weaken; [by apply converts_call|done|done]. }
  intros ofStruct _. destruct ofStruct; [|by apply IH].
  eapply (converts_ask _ _ (fun _ => True)); [|intros ?; growing|].
  { destruct (Z.eqb_spec (ccbId ci') 0); cbn [negb]; [apply converts_send_runtime_struct|by apply converts_send_member]. }
  intros rc _. case_bool_decide; [by apply converts_ret|by apply IH].
Qed.

Lemma converts_transform create : converts (transform env ext sizes 0 handle (array n) (announced n) rdn (additionalInfo (notificationHeader n)) create)
    (fun _ => True) [] (fun _ => []).
Proof.
  unfold transform. destruct (is_id rdn); [|apply converts_transformAttributeList].
  unfold transformAttributeListStruct. eapply converts_ask; [apply class_is_text|intros ?; growing|]. intros c [->|[t ->]]; [by apply converts_ret|].
  ask converts_call. intros cl _. eapply converts_then; [apply converts_moves, (moves_received env Hmem)|intros ?; growing|]. intros o _.
  eapply (converts_part _ _ (fun _ => True) _ (named_blocks o) (fun _ => []) _ []); [|intros ?; growing|by unfold named_blocks|].
  - destruct o as [[p s]|]; [|by apply converts_ret]. eapply converts_ask; [by apply converts_call|intros ?; growing|]. intros b _.
    eapply (converts_part _ _ (fun _ => True) _ [p] (fun _ => []) _ []); [apply converts_moves, moves_free|intros ?; growing|done|]. intros [] _. by apply converts_ret.
  - intros rv _. apply converts_send_struct, of_the_rest.
Qed.

Lemma converts_getAttributeValue id : converts (getAttributeValue env ext handle id (array n) (announced n)) (value_with_id ext id (array n) (announced n)) [] (fun _ => []).
Proof.
  apply converts_moves. eapply moves_forget; [apply (moves_getAttributeValue env Hmem ext idle_handler handle (array n)); [exact (r_values _ _ _ Hn)|exact (r_array _ _ _ Hn)|done]|].
  intros v Hv. split; [exact Hv|apply submseteq_nil_l].
Qed.
Lemma number_with_id id v : (forall a, a ∈ array n -> attributeId a = id -> is_number a) -> value_with_id ext id (array n) (announced n) v ->
  v = NullPtr \/ exists bits, v = InUnion bits.
Proof.
  intros Hnum. unfold value_with_id. destruct (with_id id (array n) (announced n)) as [|a l] eqn:E; [by left|]. intros Hv. right.
  assert (Ha : a ∈ with_id id (array n) (announced n)) by (rewrite E; left). apply list_elem_of_filter in Ha as [Hid (i & Hi & _)%elem_of_take].
  eapply of_number; [|exact Hv]. apply Hnum; [by eapply list_elem_of_lookup_2|done].
Qed.
Lemma converts_number {A} (v : ValuePtr) (a : A) k (g : Z -> A) : v = NullPtr \/ (exists bits, v = InUnion bits) ->
  converts (match v with NullPtr => mret a | _ => z ← read_number k v; mret (g z) end : C A) (fun _ => True) [] (fun _ => []).
Proof. intros [->|[bits ->]]; [by apply converts_ret|]. eapply converts_ask; [by apply (converts_ret _ (fun _ => True))|intros ?; growing|]. intros z _. by apply converts_ret. Qed.

Lemma converts_deleted_bundle b : notificationType n = SA_NTF_TYPE_OBJECT_CREATE_DELETE -> eventTypeCode (changePart n) <> Some SA_NTF_OBJECT_CREATION ->
  converts (deleted_bundle env ext handle (array n) (announced n) b) (fun _ => True) [] (fun _ => []).
Proof.
  intros Hty Hc. unfold deleted_bundle. destruct (Nat.eqb_spec (announced n) 0) as [|Hne]; [by apply converts_ret|]. destruct b; cbn [negb]; [|by apply converts_ret].
  destruct (r_deleted _ _ _ Hn Hty Hc Hne) as (second & third & H1 & H2 & Hnum). rewrite H1, H2. cbn [of_option].
  eapply converts_ask; [by apply (converts_ret _ (fun x => x = third))|intros ?; growing|]. intros ? ->.
  eapply converts_ask; [apply converts_getAttributeValue|intros ?; growing|]. intros v Hv.
  eapply converts_ask; [apply (converts_number v false 4 (fun z => z =? SA_TRUE)); eapply number_with_id; [|exact Hv]; auto|intros ?; growing|]. intros last _.
  eapply converts_ask; [by apply (converts_ret _ (fun x => x = second))|intros ?; growing|]. intros ? ->.
  eapply converts_ask; [apply converts_getAttributeValue|intros ?; growing|]. intros w Hw.
  assert (Hnw : w = NullPtr \/ exists bits, w = InUnion bits) by (eapply number_with_id; [|exact Hw]; auto).
  eapply (converts_ask _ _ (fun _ => True)); [|intros ?; growing|intros id _; by apply converts_ret].
  destruct Hnw as [->|[bits ->]]; by apply converts_ret.
Qed.

Lemma converts_find : (notificationType n = SA_NTF_TYPE_OBJECT_CREATE_DELETE -> is_Some (eventTypeCode (changePart n))) ->
  converts (find env ext sizes 0 n (Some rdn)) (fun _ => True) [] (fun _ => []).
Proof.
  intros Hcode.
  assert (Hchanges : forall create, converts (find_changes env ext sizes 0 n (Some rdn) create) (fun _ => True) [] (fun _ => [])).
  { intros create. unfold find_changes. cbn [of_option]. eapply converts_ask; [by apply (converts_ret _ (fun x => x = rdn))|intros ?; growing|]. intros ? ->. apply converts_transform. }
  assert (Hother : converts (r ← find_changes env ext sizes 0 n (Some rdn) false; mret (Some (MkFound MafOamSpiCmEvent_AttributeValueChange_1 (snd r) false (fst r))))
    (fun _ => True) [] (fun _ => [])).
  { eapply converts_ask; [apply Hchanges|intros ?; growing|]. intros r _. by apply converts_ret. }
  unfold find. destruct (notificationType n) eqn:Hty; try exact Hother. destruct (Hcode eq_refl) as [code Hc]. rewrite Hc. cbn [of_option].
  eapply converts_ask; [by apply (converts_ret _ (fun x => x = code))|intros ?; growing|]. intros ? ->.
  destruct (Z.eqb_spec code SA_NTF_OBJECT_CREATION) as [He|He].
  { eapply converts_ask; [apply Hchanges|intros ?; growing|]. intros r _. by apply converts_ret. }
  unfold find_deletion. cbn [of_option]. eapply converts_ask; [by apply (converts_ret _ (fun x => x = rdn))|intros ?; growing|]. intros ? ->.
  ask converts_call. intros cl _. eapply converts_then; [apply converts_moves, (moves_received env Hmem)|intros ?; growing|]. intros [[p class]|] _; [|by apply converts_ret].
  eapply converts_ask; [by apply converts_call|intros ?; growing|]. intros notified _.
  eapply (converts_ask _ _ (fun _ => True)); [|intros ?; growing|].
  { destruct notified; [|by apply converts_ret]. apply converts_deleted_bundle; [done|]. rewrite Hc. by intros [= ?]. }
  intros [ci|] _; [|apply converts_ret; [done|apply submseteq_nil_l]].
  eapply converts_ask; [apply converts_isDiscardedCcb|intros ?; growing|]. intros b _.
  eapply (converts_part _ _ (fun _ => True) _ [p] (fun _ => []) _ []); [apply converts_moves, moves_free|intros ?; growing|done|]. intros [] _. by apply converts_ret.
Qed.

(** ** Names *)
Lemma split_last_prefix dn a b : split_last_comma dn = Some (a, b) -> dn = (a +:+ b)%string.
Proof.
  revert a b. induction dn as [|c dn IH]; intros a b; cbn [split_last_comma]; [done|]. destruct (split_last_comma dn) as [[a' b']|].
  - intros [= <- <-]. change (String c dn = String c (a' +:+ b')%string). by rewrite <- (IH a' b' eq_refl).
  - case_bool_decide; [|done]. by intros [= <- <-].
Qed.
Lemma prefix_app (p a b : string) : String.prefix p a = true -> String.prefix p (a +:+ b) = true.
Proof.
  revert a. induction p as [|c p IH]; intros [|c' a] Hp; try done; [by destruct b|].
  change (String.prefix (String c p) (String c' (a +:+ b)) = true). cbn [String.prefix] in *. destruct (Ascii.ascii_dec c c'); [by apply IH|done].
Qed.
(** A name that may be sent: it and its parents are not the temporary entry. *)
Definition sendable (t : string) : Prop := String.prefix tempCacheKey t = false.
Lemma sendable_not_temp t : sendable t -> Some t <> Some tempCacheKey.
Proof. intros Ht [= ->]. by vm_compute in Ht. Qed.
Lemma sendable_parent t o : sendable t -> without_struct_part t = Some o -> sendable o.
Proof.
  unfold sendable, without_struct_part. intros Ht. destruct (split_last_comma t) as [[a b]|] eqn:E; [|done]. apply split_last_prefix in E. subst t.
  case_match; [|done]. intros [= <-]. destruct (String.prefix tempCacheKey a) eqn:Ep; [|done]. by rewrite (prefix_app _ _ b Ep) in Ht.
Qed.

Lemma converts_send_dn f src t : sendable t -> converts (send_dn env sizes 0 f src t) (fun _ => True) [] (fun _ => []).
Proof.
  intros Ht. unfold send_dn. eapply converts_then; [by apply converts_moves, moves_removeStructPartOfDn|intros ?; growing|]. intros out Hout.
  destruct out as [[p o]|]; cbn in Hout.
  - eapply converts_ask; [apply (converts_setDnInCmCache env Hmem), sendable_not_temp; by eapply sendable_parent|intros ?; growing|]. intros rc _.
    cbn. by apply converts_moves, (moves_free idle_handler p).
  - eapply converts_ask; [by apply (converts_setDnInCmCache env Hmem), sendable_not_temp|intros ?; growing|]. intros rc _. by apply converts_ret.
Qed.

Lemma converts_name_object f comsa p : converts (name_object env ext sizes 0 n f comsa (Some (p, rdn))) (fun _ => True) [p] (fun _ => []).
Proof.
  unfold name_object. cbn [fmap option_fmap option_map fst snd].
  eapply (converts_then _ _ (fun r => match r with Some t => sendable t.2 | None => True end) _ _ named_blocks); [|intros ?; growing|].
  { destruct (isDeleteObject f).
    - unfold convertTo3GPPDNCOMCASE. cbn [of_option]. eapply converts_ask; [by apply (converts_ret _ (fun x => x = rdn))|intros ?; growing|]. intros ? ->.
      ask converts_call. intros dn [tr Hdn]. ask converts_call. intros left [tr' <-]. rewrite Hmem.
      eapply converts_weaken; [by apply converts_moves, (moves_received env Hmem)|done|]. intros [t|]; [|done]. intros [= ->]. split; [|done].
      apply (r_dn _ _ _ Hn). right. by exists tr.
    - eapply converts_weaken; [apply converts_moves, (moves_convertTo3GPPDN env Hmem ext), (r_object_fits _ _ _ Hn)|done|].
      intros [t|]; [|done]. intros Ht. split; [|done]. apply (r_dn _ _ _ Hn). by left. }
  intros dn Hdn. destruct (negb (isDeleteObject f) && _).
  { eapply (converts_part _ _ (fun _ => True) _ [p] (fun _ => []) _ (named_blocks dn)); [by apply converts_moves, (moves_free_opt idle_handler (Some p))|intros ?; growing|by rewrite (comm (++))|].
    intros [] _. apply converts_ret; [done|apply submseteq_nil_l]. }
  destruct dn as [[q t]|]; [|intros led F s Ho; cbn; apply traces_bind; by apply traces_exit]. cbn [fmap option_fmap option_map fst snd of_option] in *.
  eapply converts_then; [by apply converts_moves, moves_removeStructPartOfDn|intros ?; growing|]. intros out Hout.
  eapply converts_ask; [by apply (converts_ret _ (fun x => x = (q, t)))|intros ?; growing|]. intros ? ->.
  eapply (converts_part _ _ (fun d => sendable d.2) _ (named_blocks out ++ [q]) (fun d => [d.1]) _ [p]); [|intros ?; growing|unfold named_blocks; cbn; blocks|].
  { destruct out as [[o t']|]; [|by apply converts_ret]. cbn.
    eapply (converts_part _ _ (fun _ => True) _ [q] (fun _ => []) _ [o]); [apply converts_moves, moves_free|intros ?; growing|apply Permutation_swap|].
    intros [] _. apply converts_ret; [by eapply sendable_parent|done]. }
  intros [d t'] Ht'. cbn [fst snd] in *. destruct (r_source _ _ _ Hn) as [src ->]. cbn [of_option].
  eapply converts_ask; [by apply (converts_ret _ (fun x => x = src))|intros ?; growing|]. intros ? ->.
  eapply (converts_ask _ _ (fun _ => True)); [unfold when; case_match; [by apply converts_send_dn|by apply converts_ret]|intros ?; growing|]. intros [] _.
  eapply (converts_ask _ _ (fun _ => True)); [unfold when; case_match; [apply converts_removeDiscardedCcb|by apply converts_ret]|intros ?; growing|]. intros [] _.
  eapply (converts_part _ _ (fun _ => True) _ [d] (fun _ => []) _ [p]); [apply converts_moves, moves_free|intros ?; growing|done|]. intros [] _.
  eapply (converts_part _ _ (fun _ => True) _ [p] (fun _ => []) _ []); [by apply converts_moves, (moves_free_opt idle_handler (Some p))|intros ?; growing|done|].
  intros [] _. by apply converts_ret.
Qed.

Lemma converts_convertCMNotificationHeader : converts (convertCMNotificationHeader env ext sizes 0 n) (fun _ => True) [] (fun _ => []).
Proof.
  assert (Hmain : converts (immRdn ← copy_immRdn env (notificationObject (notificationHeader n));
      comsa ← isCOMSAAdminOwner env ext n; found ← find env ext sizes 0 n (snd <$> immRdn);
      match found with None => mret false | Some f => name_object env ext sizes 0 n f comsa immRdn end) (fun _ => True) [] (fun _ => [])).
  { eapply (converts_then _ _ (fun r => exists p, r = Some (p, rdn)) _ _ named_blocks); [|intros ?; growing|].
    { unfold copy_immRdn. fold rdn. destruct (Nat.eqb_spec (String.length rdn) 0) as [H0|_].
      { destruct (r_object _ _ _ Hn). by destruct (object_name n). }
      eapply converts_then; [by apply converts_moves, moves_text|intros ?; growing|]. intros [p t] Ht. cbn in Ht. subst t. apply converts_ret; [by eexists|done]. }
    intros r [p ->]. eapply (converts_ask _ _ (fun _ => True)); [|intros ?; growing|].
    { unfold isCOMSAAdminOwner. destruct (attributes (changePart n)) as [l|] eqn:El; [|by apply converts_ret].
      assert (Hl : array n = l) by (unfold array; by rewrite El). destruct l as [|a l]; [by destruct (r_first _ _ _ Hn)|]. cbn [of_option lookup list_lookup].
      eapply converts_ask; [by apply (converts_ret _ (fun x => x = a))|intros ?; growing|]. intros ? ->. rewrite <- Hl.
      eapply converts_ask; [apply converts_getAttributeValue|intros ?; growing|]. intros v _. by apply converts_ret. }
    intros comsa _. cbn [fmap option_fmap option_map snd].
    eapply converts_ask; [apply converts_find, (r_code _ _ _ Hn)|intros ?; growing|]. intros [f|] _; [apply converts_name_object|apply converts_ret; [done|apply submseteq_nil_l]]. }
  unfold convertCMNotificationHeader. destruct (notificationType n); first [exact Hmain|by apply converts_ret].
Qed.

Lemma moves_buildOverflowEvent : moves idle_handler (buildOverflowEvent env) notification_ok [] notification_blocks.
Proof.
  unfold buildOverflowEvent. eapply moves_ask; [apply moves_getTime|]. intros t _. do 3 (eapply moves_then; [by apply moves_block|]; intros ? _).
  eapply moves_then; [by apply moves_text|]. intros dn _. apply moves_ret.
  - constructor; [|constructor]. split; [by eexists|constructor].
  - unfold notification_blocks. cbn. unfold event_blocks. cbn. blocks.
Qed.

Lemma converts_cmNotificationCallback stop : converts (cmNotificationCallback env ext sizes 0 stop n) (fun _ => True) [] (fun _ => []).
Proof.
  unfold cmNotificationCallback. destruct stop; [by apply converts_ret|]. ask converts_call. intros rc _.
  assert (Hrest : converts (rc ← convertCMNotificationHeader env ext sizes 0 n; rc ← call env (saNtfNotificationFree handle); mret ()) (fun _ => True) [] (fun _ => [])).
  { eapply converts_ask; [apply converts_convertCMNotificationHeader|intros ?; growing|]. intros b _. ask converts_call. intros ? _. by apply converts_ret. }
  eapply (converts_ask _ _ (fun _ => True)); [|intros ?; growing|intros [] _; ask converts_call; intros ? _; by apply converts_ret].
  destruct (notificationType n); try exact Hrest; try by apply converts_ret.
  eapply converts_then; [apply converts_moves, moves_buildOverflowEvent|intros ?; growing|]. intros e He. rewrite app_nil_r.
  eapply converts_bind; [by apply converts_push|intros ?; growing|]. intros ? _. ask converts_call. intros ? _. by apply converts_ret.
Qed.
End notification.
