(* ===== verification/NtfCmProps.v ===== *)
(** * Events of the configuration: theorems about the conversion

    A notification that is converted leaves the handler in order; the call-back gives the
    notification and its lock back; which attributes of a notification are sent, and
    to which bundle they belong; what becomes of their values; and which
    names lose their last part. *)
From Stdlib Require Import ZArith Lia Ascii.
From stdpp Require Import base gmap gmultiset list strings.
From S2P Require Import Prelude Marks Codes CmTypes NtfData NtfInfo NtfValueProps StdMap EventProducer EventProducerFacts CmData CmProducer CmCache CmHandler.
From S2P Require Import CmMemory CmProducerFacts CmCacheFacts CmSystem CmProps NtfCmValues NtfCm NtfCmFacts NtfCmSystem.

Open Scope Z_scope.

(** ** Memory *)

(** C19. Whatever notification comes, of a created, deleted or changed object, of an overflow, or any
    other, if it is [convertible] (well formed, its doubles print in less than 100 characters,
    and the translator agrees with it about types), the call-back leaves the handler as it found
    it: the cache is in order, every block has one owner
    and the client (here: the call-back itself) keeps none that it frees twice or uses after it
    was freed; every event that went out is counted by the consumers that have it.  It returns, or an exception
    that nobody catches ends the process; no freed or foreign memory is touched.  As long as
    there is memory, no limit on it, and consumers give back events that they have. *)
Theorem callback_keeps_order env ext sizes (Hmem : memory_left env) n (Hn : convertible env ext n) led F s (Hs : in_order led F s) stop tr :
  match cmNotificationCallback env ext sizes 0 stop n (s, tr) with
  | (Ret _, (s', tr')) => exists new, tr' = tr ++ new /\ forall led', ledger (omap delivery new) led = Some led' -> in_order led' F s'
  | (Exit w, (_, tr')) => exists new, tr' = tr ++ new /\ (is_Some (ledger (omap delivery new) led) -> w = Aborted)
  end.
Proof.
  pose proof (converts_cmNotificationCallback env Hmem ext sizes n Hn stop led F s Hs tr) as Hc.
  destruct (cmNotificationCallback env ext sizes 0 stop n (s, tr)) as [[[]|w] [s' tr']]; destruct Hc as (new & Htr & Hc); exists new; (split; [exact Htr|]); [|exact Hc].
  intros led' Hl. by destruct (Hc led' Hl).
Qed.

(** ** The lock and the notification *)
Definition is_known (t : SaNtfNotificationTypeT) : bool :=
  match t with SA_NTF_TYPE_STATE_CHANGE | SA_NTF_TYPE_OBJECT_CREATE_DELETE | SA_NTF_TYPE_ATTRIBUTE_CHANGE => true | _ => false end.

(** C20. The call-back takes its lock once and releases it at last; in between it gives the
    notification back exactly once, if it is of a kind that it knows, and never touches a lock otherwise.
    (A notification of another kind is not given back.)  While the component stops nothing is
    done at all.  Whatever OpenSAF, the translator and the consumers answer, and whatever the
    notification says: on every path that returns. *)
Theorem callback_brackets env ext sizes max stop n s :
  emits bracket_of (cmNotificationCallback env ext sizes max stop n) s (fun _ _ l =>
    l = if stop then []
        else [Locks cm_notification_lock] ++ (if is_known (notificationType n) then [GivesNotificationBack (notificationHandle n)] else [])
             ++ [Unlocks cm_notification_lock]).
Proof.
  unfold cmNotificationCallback. destruct stop; [by apply emits_ret|]. emits_step. emits_step.
  assert (Hend : forall s l, l = (if is_known (notificationType n) then [GivesNotificationBack (notificationHandle n)] else []) ->
    emits bracket_of (rc ← call env (mutex_unlock cm_notification_lock); mret () : C ()) s (fun _ _ l' =>
      Locks cm_notification_lock :: l ++ l' = [Locks cm_notification_lock] ++ (if is_known (notificationType n) then [GivesNotificationBack (notificationHandle n)] else []) ++ [Unlocks cm_notification_lock])).
  { intros s' l ->. repeat emits_step. done. }
  emits_step. eapply (emits_mono _ _ _ (fun _ _ l => l = if is_known (notificationType n) then [GivesNotificationBack (notificationHandle n)] else [])).
  2: { intros [] s' l Hl. cbn. by apply Hend. }
  assert (Hconv : emits bracket_of (rc ← convertCMNotificationHeader env ext sizes max n; rc ← call env (saNtfNotificationFree (notificationHandle n)); mret ()) s
     (fun _ _ l => l = [GivesNotificationBack (notificationHandle n)])).
  { apply emits_silent_bind; [apply adds_silent, tame_convertCMNotificationHeader|]. intros b s'. by repeat emits_step. }
  destruct (notificationType n); try exact Hconv; try by apply emits_ret.
  apply emits_silent_bind; [apply adds_silent, tame_buildOverflowEvent|]. intros e s1.
  apply emits_silent_bind; [apply adds_silent, tame_push_CmEventHandler|]. intros rc s2. by repeat emits_step.
Qed.

(** ** Which attributes are sent, and to which bundle *)
Lemma bind_returns {A B} (m : C A) (k : A -> C B) c a c' : m c = (Ret a, c') -> (m ≫= k) c = k a c'.
Proof. unfold mbind, M_bind. by intros ->. Qed.

Section sent.
Context (env : environment ntfE) (ext : bool) (sizes : Sizes) (handle : Z) (l : list SaNtfAttributeT) (n : nat) (rdn : string).

(** OpenSAF and the translator give the same answer to the same question. *)
Definition steady : Prop :=
  (forall tr tr' v, env _ tr (saNtfPtrValGet handle v) = env _ tr' (saNtfPtrValGet handle v)) /\
  (forall tr tr' a c, env _ tr (NtfData.isNotified a c rdn) = env _ tr' (NtfData.isNotified a c rdn)).

(** The names of the attributes, with their identifiers, as the additional information has them. *)
Definition attribute_of (i : SaNtfAdditionalInfoT) : option (string * Z) :=
  let r := env _ [] (saNtfPtrValGet handle (infoValue i)) in
  if bool_decide (infoType i = SA_NTF_VALUE_STRING) && bool_decide (fst r = SA_AIS_OK) then Some (snd r, infoId i) else None.
Definition wanted (class : string) (x : string * Z) : Prop := env _ [] (NtfData.isNotified (Some x.1) class rdn) = true.
#[local] Instance wanted_dec class x : Decision (wanted class x) := decide (_ = true).

(** The number that the first attribute with the identifier holds. *)
Definition number_of (k : nat) (id : Z) : Z :=
  match with_id id l n with [] => 0 | a :: _ => attributeValue a mod 2 ^ (8 * Z.of_nat k) end.
Definition bundle_of (names : list (string * Z)) (ci : cacheInformation) : cacheInformation :=
  MkInformation (if bool_decide ("SaImmOiCcbIdT"%string ∈ names.*1) then number_of 8 SaImmOiCcbIdTattributeId else ccbId ci)
    (if bool_decide ("ccbLast"%string ∈ names.*1) then number_of 4 ccbLastattributeId =? SA_TRUE else ccbLast ci).

Lemma sat_getMulti room id l' m s tr : (m <= length l')%nat -> Forall is_number (with_id id l' m) -> (length (with_id id l' m) <= room)%nat ->
  getMultiAttributeValue env ext handle room id l' m (s, tr) = (Ret (map (fun a => (InUnion (attributeValue a), NtfData.attributeType a)) (with_id id l' m)), (s, tr)).
Proof.
  revert room m tr. induction l' as [|a l' IH]; intros room [|m] tr Hm Hnum Hroom; cbn in Hm; try lia; [done..|].
  cbn [getMultiAttributeValue]. unfold with_id in *. cbn [take] in *. rewrite filter_cons in *.
  destruct (Z.eqb_spec (attributeId a) id) as [Hid|Hid]; case_decide; try done; [|apply IH; [lia|done..]].
  apply Forall_cons in Hnum as [Ha Hnum]. unfold getOneAttributeValue, is_number in *. destruct (NtfData.attributeType a) as [| |code] eqn:Et; try done. rewrite Ha.
  cbn [length] in Hroom. destruct room as [|room]; [lia|]. unfold mbind, M_bind. cbn -[getMultiAttributeValue]. rewrite (IH room m tr ltac:(lia) Hnum ltac:(lia)). cbn. by rewrite Et.
Qed.
Lemma sat_mandatory k id s tr : (n <= length l)%nat -> single_number l id n ->
  mandatory_value env ext k handle id l n (s, tr) = (Ret (number_of k id), (s, tr)).
Proof.
  intros Hn [Hone Hnum]. unfold mandatory_value, mbind, M_bind. rewrite sat_getMulti by done. unfold number_of. by destruct (with_id id l n).
Qed.

(** The conditions under which the bundle can be read. *)
Definition bundle_ok (infos : list SaNtfAdditionalInfoT) : Prop :=
  (n <= length l)%nat /\ forall i x, i ∈ infos -> attribute_of i = Some x -> mandatory_ok l (Some x.1) n.

Lemma sat_check ci name s tr : (n <= length l)%nat -> mandatory_ok l (Some name) n ->
  checkForMandatoryAttributes env ext handle l n (Some name) ci (s, tr) = (Ret (bundle_of [(name, 0)] ci), (s, tr)).
Proof.
  intros Hn [Hid Hlast]. unfold checkForMandatoryAttributes, bundle_of. cbn [fmap list_fmap fst].
  case_bool_decide as H1; [subst name; unfold mbind, M_bind; rewrite sat_mandatory by auto; done|].
  case_bool_decide as H2; [subst name; unfold mbind, M_bind; rewrite sat_mandatory by auto; done|].
  rewrite !bool_decide_false by (rewrite list_elem_of_singleton; congruence). by destruct ci.
Qed.
Lemma in_cons (k x : string) xs : bool_decide (k ∈ x :: xs) = bool_decide (k ∈ xs) || bool_decide (k ∈ [x]).
Proof. rewrite <- bool_decide_or. apply bool_decide_ext. set_solver. Qed.
Lemma bundle_of_cons x xs ci : bundle_of (x :: xs) ci = bundle_of xs (bundle_of [(x.1, 0)] ci).
Proof.
  unfold bundle_of. cbn [fmap list_fmap fst ccbId ccbLast]. rewrite !(in_cons _ x.1 (xs.*1)).
  by destruct (bool_decide ("SaImmOiCcbIdT"%string ∈ xs.*1)), (bool_decide ("ccbLast"%string ∈ xs.*1)).
Qed.

Lemma sat_attributes_to_notify class infos ci s tr : steady -> bundle_ok infos ->
  exists tr', attributes_to_notify env ext handle l n rdn (InBuffer class) infos ci (s, tr) =
    (Ret (filter (wanted class) (omap attribute_of infos), bundle_of (omap attribute_of infos) ci), (s, tr')).
Proof.
  intros [Hval Hnot] [Hn Hok]. revert ci tr. induction infos as [|i infos IH]; intros ci tr; cbn [attributes_to_notify omap list_omap].
  { exists tr. unfold bundle_of. rewrite !bool_decide_false by apply not_elem_of_nil. by destruct ci. }
  assert (Hok' : forall j x, j ∈ infos -> attribute_of j = Some x -> mandatory_ok l (Some x.1) n) by (intros j x Hj; apply Hok; by right).
  specialize (IH Hok'). case_bool_decide as Ht.
  2: { assert (attribute_of i = None) as -> by (unfold attribute_of; by rewrite bool_decide_false). apply IH. }
  unfold attribute_name, call, mbind, M_bind. cbn [fst snd]. rewrite (Hval tr [] (infoValue i)).
  set (r := env _ [] (saNtfPtrValGet handle (infoValue i))). set (tr1 := tr ++ [Ev (saNtfPtrValGet handle (infoValue i)) r]). cbn [mret M_ret].
  case_bool_decide as Hr.
  2: { assert (attribute_of i = None) as -> by (unfold attribute_of; by rewrite (bool_decide_false (fst _ = _)), andb_false_r). apply IH. }
  assert (Hx : attribute_of i = Some (snd r, infoId i)) by (unfold attribute_of; by rewrite !bool_decide_true).
  rewrite Hx. assert (Hm : mandatory_ok l (Some (snd r)) n) by (apply (Hok i (snd r, infoId i)); [left|done]).
  rewrite (sat_check ci (snd r) s tr1 Hn Hm). unfold isNotified, call, mbind, M_bind. cbn [read_string mret M_ret fst snd].
  rewrite (Hnot tr1 [] (Some (snd r)) class). set (b := env _ [] (NtfData.isNotified (Some (snd r)) class rdn)).
  destruct (IH (bundle_of [(snd r, 0)] ci) (tr1 ++ [Ev (NtfData.isNotified (Some (snd r)) class rdn) b])) as [tr' ->].
  exists tr'. rewrite (bundle_of_cons (snd r, infoId i)), filter_cons. cbn [fst snd].
  case_decide as Hw; unfold wanted in Hw; cbn [fst] in Hw; fold b in Hw; by destruct b.
Qed.

Definition class_is (class : string) : Prop :=
  match with_id 1 l n with
  | a :: _ => NtfData.attributeType a = SA_NTF_VALUE_STRING /\ env _ [] (saNtfPtrValGet handle (attributeValue a)) = (SA_AIS_OK, class)
  | [] => False
  end.
Lemma sat_first_value id l' m s tr : (m <= length l')%nat ->
  getAttributeValue env ext handle id l' m (s, tr) =
  match with_id id l' m with a :: _ => getOneAttributeValue env ext handle a (s, tr) | [] => (Ret NullPtr, (s, tr)) end.
Proof.
  revert m. induction l' as [|a l' IH]; intros [|m] Hm; cbn in Hm; try lia; [done..|]. cbn [getAttributeValue]. unfold with_id in *. cbn [take]. rewrite filter_cons.
  destruct (Z.eqb_spec (attributeId a) id); case_decide; try done. apply IH. lia.
Qed.
Lemma sat_class class s tr : steady -> (n <= length l)%nat -> class_is class ->
  exists tr', getClassNameOfNotification env ext handle l n (s, tr) = (Ret (InBuffer class), (s, tr')).
Proof.
  intros [Hval _] Hn. unfold class_is, getClassNameOfNotification. rewrite sat_first_value by done. destruct (with_id 1 l n) as [|a rest]; [done|].
  intros [Ht Hr]. unfold getOneAttributeValue. rewrite Ht. unfold call, mbind, M_bind. cbn [fst snd]. rewrite (Hval tr []), Hr. by eexists.
Qed.
End sent.

(** Of a created or changed object the cache gets exactly the attributes that COM wants to know of,
    in the order of the additional information, whose first two items are not
    attributes; they go to the bundle whose number is the value of the attribute
    "SaImmOiCcbIdT", or to none (zero) when it is not among them, and "ccbLast" says whether it is the
    last change of the bundle.  The answer is true when something was sent and the
    cache had room for it, or when COM wants to know of the creation.  (OpenSAF and the translator
    give the same answer to the same question, and the attributes of the bundle are
    single numbers.) *)
Theorem wanted_attributes_are_sent env ext sizes handle l n rdn infos create ci class s tr
    (Hsteady : steady env handle rdn) (Hok : bundle_ok env handle l n (drop 2 infos)) (Hclass : class_is env handle l n class) :
  let names := omap (attribute_of env handle) (drop 2 infos) in
  let bundle := bundle_of l n names ci in
  let toNotify := filter (fun x => env _ [] (NtfData.isNotified (Some x.1) class rdn) = true) names in
  let created := create && env _ [] (NtfData.isNotified None class rdn) in
  exists tr', transformAttributeList env ext sizes 0 handle l n rdn infos create ci (s, tr) =
    (room ← send_attributes env ext sizes 0 handle l n rdn (ccbId bundle) toNotify;
     mret ((room : bool) && (created || (0 <? length toNotify)%nat), bundle)) (s, tr').
Proof.
  cbn zeta. pose proof Hok as [Hn _]. destruct (sat_class env ext handle l n rdn class s tr Hsteady Hn Hclass) as [tr1 Hc].
  unfold transformAttributeList. rewrite (bind_returns _ _ _ _ _ Hc). cbv beta iota.
  assert (Hcr : exists tr2, (if create then isNotified env rdn (InBuffer class) None else mret false : C bool) (s, tr1) =
    (Ret (create && env _ [] (NtfData.isNotified None class rdn)), (s, tr2))).
  { destruct create; [|by exists tr1]. unfold isNotified, call, mbind, M_bind. cbn [read_string mret M_ret fst snd andb]. destruct Hsteady as [_ Hnot].
    rewrite (Hnot tr1 []). by eexists. }
  destruct Hcr as [tr2 Hcr]. rewrite (bind_returns _ _ _ _ _ Hcr). cbv beta.
  destruct (sat_attributes_to_notify env ext handle l n rdn class (drop 2 infos) ci s tr2 Hsteady Hok) as [tr3 Hs]. rewrite (bind_returns _ _ _ _ _ Hs). cbv beta iota.
  rewrite (bind_returns (isDiscardedCcb 0 _) _ (s, tr3) false (s, tr3)); [by exists tr3|].
  unfold isDiscardedCcb, mbind, M_bind. cbn. by destruct (cmEventHandler s).
Qed.

(** ** Floating point numbers

    The value of the bits of a [float] in units of 2^-149, and of those of a [double] in units
    of 2^-1074, as IEEE 754 has them; only of finite numbers. *)
Definition float_units (b : Z) : Z :=
  (1 - 2 * Z.shiftr b 31) * (if float_exponent b =? 0 then float_fraction b else (2 ^ 23 + float_fraction b) * 2 ^ (float_exponent b - 1)).
Definition double_units (d : Z) : Z :=
  (1 - 2 * Z.shiftr d 63) * (if double_exponent d =? 0 then double_fraction d else (2 ^ 52 + double_fraction d) * 2 ^ (double_exponent d - 1)).

Lemma double_of_float_finite b : 0 <= b < 2 ^ 32 -> float_exponent b <> 255 ->
  let d := double_of_float b in 0 <= d < 2 ^ 64 /\ double_exponent d < 2047 /\ double_units d = float_units b * 2 ^ 925.
Proof.
  intros Hb Hfin. destruct (float_parts b Hb) as (Hs & He & Hf). unfold double_of_float.
  change (Z.land (Z.shiftr b 23) 255) with (float_exponent b). change (Z.land b (2 ^ 23 - 1)) with (float_fraction b).
  unfold double_units, float_units. set (s := Z.shiftr b 31) in *. set (e := float_exponent b) in *. set (f := float_fraction b) in *.
  destruct (Z.eqb_spec e 255); [done|]. destruct (Z.eqb_spec e 0) as [H0|H0].
  - destruct (Z.eqb_spec f 0) as [Hf0|Hf0].
    + destruct (join_double s 0 0) as (-> & -> & -> & ?); [done..|]. rewrite Hf0. cbn zeta. split; [done|]. split; [lia|]. cbn [Z.eqb]. lia.
    + assert (Hk : 0 <= Z.log2 f <= 22) by (split; [apply Z.log2_nonneg|]; assert (Z.log2 f < 23) by (apply Z.log2_lt_pow2; lia); lia).
      destruct (Z.log2_spec f ltac:(lia)) as [Hlo Hhi]. set (k := Z.log2 f) in *.
      assert (Hp : 2 ^ (52 - k) * 2 ^ k = 2 ^ 52) by (rewrite <- Z.pow_add_r by lia; f_equal; lia).
      assert (Hpos : 0 < 2 ^ (52 - k)) by (apply Z.pow_pos_nonneg; lia). rewrite Z.pow_succ_r in Hhi by lia.
      destruct (join_double s (k + 874) (f * 2 ^ (52 - k) - 2 ^ 52)) as (-> & -> & -> & ?); [lia|lia|nia|]. cbn zeta. split; [done|]. split; [lia|].
      destruct (Z.eqb_spec (k + 874) 0); [lia|]. replace (2 ^ 52 + (f * 2 ^ (52 - k) - 2 ^ 52)) with (f * 2 ^ (52 - k)) by lia.
      rewrite <- !Z.mul_assoc, <- Z.pow_add_r by lia. do 3 f_equal. lia.
  - destruct (join_double s (e + 896) (f * 2 ^ 29)) as (-> & -> & -> & ?); [lia|lia|lia|]. cbn zeta. split; [done|]. split; [lia|].
    destruct (Z.eqb_spec (e + 896) 0); [lia|]. replace (2 ^ 52 + f * 2 ^ 29) with ((2 ^ 23 + f) * 2 ^ 29) by lia.
    rewrite <- !Z.mul_assoc, <- !Z.pow_add_r by lia. do 3 f_equal. lia.
Qed.

(** A [float] of a notification becomes the [double] of the same value: every finite number,
    normalised or not, is converted exactly, to a finite number in 64 bits.  (The other
    four bytes of the union do not matter.) *)
Theorem float_converted_exactly env ext bits c (Hfin : float_exponent (bits mod 2 ^ 32) <> 255) :
  exists d, setValueInCmEvent env ext MafOamSpiMoAttributeType_3_DECIMAL64 (InUnion bits) (SA_NTF_VALUE_other SA_NTF_VALUE_FLOAT) c = (Ret (true, Number d), c) /\
    0 <= d < 2 ^ 64 /\ double_exponent d < 2047 /\ double_units d = float_units (bits mod 2 ^ 32) * 2 ^ 925.
Proof.
  exists (double_of_float (bits mod 2 ^ 32)). split; [done|]. apply double_of_float_finite; [apply Z.mod_pos_bound; lia|done].
Qed.

(** ** Names of structs *)
Definition no_comma (t : string) : Prop := forall x y, t <> (x +:+ "," +:+ y)%string.
Definition has_id (t : string) : Prop := exists x y, t = (x +:+ "id=" +:+ y)%string.

Lemma prefix_iff p s : String.prefix p s = true <-> exists y, s = (p +:+ y)%string.
Proof.
  revert s. induction p as [|c p IH]; intros s; [split; [by exists s|by destruct s]|].
  destruct s as [|c' s]; [split; [done|by intros [y ?]]|]. cbn [String.prefix]. destruct (Ascii.ascii_dec c c') as [->|Hne].
  - rewrite IH. split; intros [y Hy]; exists y; [by rewrite Hy|by injection Hy].
  - split; [done|]. intros [y Hy]. injection Hy. congruence.
Qed.
Lemma index_iff c p s : is_Some (String.index 0 (String c p) s) <-> exists x y, s = (x +:+ String c p +:+ y)%string.
Proof.
  induction s as [|d s IH].
  { split; [by intros [? ?]|]. intros (x & y & Hxy). by destruct x. }
  change (String.index 0 (String c p) (String d s)) with
    (if String.prefix (String c p) (String d s) then Some 0%nat else match String.index 0 (String c p) s with Some n => Some (S n) | None => None end).
  destruct (String.prefix (String c p) (String d s)) eqn:Ep.
  - split; [intros _|by eexists]. apply prefix_iff in Ep as [y Hy]. by exists ""%string, y.
  - transitivity (is_Some (String.index 0 (String c p) s)); [destruct (String.index 0 _ s); split; intros [? ?]; by eexists|]. rewrite IH. split.
    + intros (x & y & ->). by exists (String d x), y.
    + intros (x & y & Hxy). destruct x as [|d' x]; [|injection Hxy as -> ->; by exists x, y].
      assert (String.prefix (String c p) (String d s) = true) as Hp by (apply prefix_iff; by exists y). by rewrite Hp in Ep.
Qed.

Lemma split_last_none s : split_last_comma s = None <-> no_comma s.
Proof.
  induction s as [|c s IH]; cbn [split_last_comma]; [split; [intros _ [|? ?] y; discriminate|done]|].
  destruct (split_last_comma s) as [[a b]|].
  - split; [done|]. intros Hn. assert (Some (a, b) = None); [|done]. apply IH. intros x y ->. by apply (Hn (String c x) y).
  - destruct IH as [IH _]. case_bool_decide as Hc; (split; [try done|try done]).
    + intros Hn. exfalso. apply (Hn ""%string s). by subst.
    + intros _ x y Hxy. destruct x as [|d x]; [by injection Hxy|]. injection Hxy as -> Hs. by apply (IH eq_refl x y).
Qed.
Lemma split_last_some s a b : split_last_comma s = Some (a, b) <-> exists t, b = String ","%char t /\ s = (a +:+ b)%string /\ no_comma t.
Proof.
  revert a b. induction s as [|c s IH]; intros a b; cbn [split_last_comma].
  - split; [done|]. intros (t & -> & Hs & _). by destruct a.
  - destruct (split_last_comma s) as [[a' b']|] eqn:E.
    + split.
      * intros [= <- <-]. destruct (proj1 (IH a' b') eq_refl) as (t & -> & -> & Ht). by exists t.
      * intros (t & -> & Hs & Ht). destruct a as [|d a].
        { injection Hs as -> ->. by apply split_last_none in Ht; rewrite Ht in E. }
        injection Hs as -> Hs. assert (Hq : Some (a', b') = Some (a, String ","%char t)) by (apply IH; by exists t). by injection Hq as -> ->.
    + apply split_last_none in E as Hn. case_bool_decide as Hc.
      * subst c. split; [intros [= <- <-]; by exists s|]. intros (t & -> & Hs & Ht). destruct a as [|d a]; [by injection Hs as ->|].
        injection Hs as <- Hs. destruct (Hn a t Hs).
      * split; [done|]. intros (t & -> & Hs & Ht). destruct a as [|d a]; [by injection Hs|]. injection Hs as -> Hs. destruct (Hn a t Hs).
Qed.
Lemma has_id_comma t : has_id (String ","%char t) <-> has_id t.
Proof.
  split; intros (x & y & Hxy); [|exists (String ","%char x), y; by rewrite Hxy]. destruct x as [|c x]; [done|]. injection Hxy as <- ->. by exists x, y.
Qed.

(** A name loses its last part exactly when "id=" is somewhere in that part, and loses
    nothing else: the rest is all that is before the last comma.  (So the parts of structs,
    "id=..." and "name.id=...", are removed, but also "Grid=3".) *)
Theorem struct_part_is_cut dn parent :
  without_struct_part dn = Some parent <-> exists last, dn = (parent +:+ "," +:+ last)%string /\ no_comma last /\ has_id last.
Proof.
  unfold without_struct_part. split.
  - destruct (split_last_comma dn) as [[a b]|] eqn:E; [|done]. apply split_last_some in E as (t & -> & -> & Ht).
    destruct (String.index 0 "id=" (String ","%char t)) eqn:Ei; [|done]. intros [= <-]. exists t. split; [done|]. split; [done|].
    apply has_id_comma, index_iff. by eexists.
  - intros (t & -> & Ht & Hid). assert (split_last_comma (parent +:+ "," +:+ t) = Some (parent, String ","%char t)) as ->.
    { apply split_last_some. by exists t. }
    apply has_id_comma, index_iff in Hid as [m Hm]. by rewrite Hm.
Qed.
Example struct_is_cut : without_struct_part "A=1,B=2,id=x" = Some "A=1,B=2"%string.
Proof. reflexivity. Qed.
Example grid_is_cut : without_struct_part "A=1,Grid=3" = Some "A=1"%string.
Proof. reflexivity. Qed.

(** ** A notification, from OpenSAF to the consumer

    An attribute of an object is changed in bundle 77 by the OAM SA, as the last change of it. *)
Definition demo_cm : environment ntfE := fun R tr e =>
  match e in ntfE R return R with
  | saNtfPtrValGet _ v =>
      (SA_AIS_OK, if v =? 0 then "OAMSA12"%string else if v =? 1 then "Class"%string else if v =? 2 then "SaImmOiCcbIdT"%string
       else if v =? 3 then "ccbLast"%string else "attr"%string)
  | NtfData.isNotified a _ _ => bool_decide (a = Some "attr"%string)
  | getTypeForAttribute a _ => if bool_decide (a = "attr"%string) then MafOamSpiMoAttributeType_3_INT32 else MafOamSpiMoAttributeType_3_UINT64
  | getTypeForStructMemberAttribute _ _ _ => MafOamSpiMoAttributeType_3_UINT64
  | e => demo_ntf _ tr e
  end.
Definition demo_infos : list SaNtfAdditionalInfoT :=
  [MkInfo 0 (SA_NTF_VALUE_other 0) 0; MkInfo 1 (SA_NTF_VALUE_other 0) 0; MkInfo 2 SA_NTF_VALUE_STRING 2; MkInfo 3 SA_NTF_VALUE_STRING 3; MkInfo 4 SA_NTF_VALUE_STRING 4].
Definition demo_attributes : list SaNtfAttributeT :=
  [MkAttribute 0 SA_NTF_VALUE_STRING 0; MkAttribute 1 SA_NTF_VALUE_STRING 1; MkAttribute 2 (SA_NTF_VALUE_other 7) 77;
   MkAttribute 3 (SA_NTF_VALUE_other 4) 1; MkAttribute 4 (SA_NTF_VALUE_other 5) 4294967291].
Definition demo_change : SaNtfNotificationsT :=
  MkNotification SA_NTF_TYPE_ATTRIBUTE_CHANGE 31 (MkHeader "A=1" "" 0 0 0 0 0 0 None demo_infos) 0 None
    (MkChange (Some SA_NTF_MANAGEMENT_OPERATION) None 5 (Some demo_attributes)).

(** The event that the consumer gets: the attribute is -5, on 32 bits. *)
Example demo_event_delivered :
  (let '(_, (s, _)) := cmNotificationCallback demo_cm false demo_sizes 0 false demo_change (fst (demo_after 3), []) in
   map (fun o => (fst (snd o), cm_source (snd (snd o)), map (fun e => (snd <$> ev_dn e, ev_type e, map (fun a => (snd (na_name a), avc_elems (na_value a))) (ev_attributes e))) (events (snd (snd o)))))
     (map_to_list (objects (_eventProducer s)))) =
  [(1, MafOamSpiCmEvent_ManagementOperation_1, [(Some "A=1"%string, MafOamSpiCmEvent_AttributeValueChange_1, [("attr"%string, [Number 4294967291])])])].
Proof. vm_compute. reflexivity. Qed.

Lemma demo_convertible : convertible demo_cm false demo_change.
Proof.
  assert (Hnames : forall i name, names demo_cm demo_change i name -> exists k, i = MkInfo k SA_NTF_VALUE_STRING k /\ (k = 2 \/ k = 3 \/ (k = 4 /\ name = "attr"%string))).
  { intros i name (Hi & Ht & tr & Hn). cbn in Hi. unfold demo_infos in Hi. repeat (apply elem_of_cons in Hi as [->|Hi]; [first [discriminate Ht|cbn in Hn; injection Hn as <-; eexists; split; [reflexivity|auto]]|]).
    by apply elem_of_nil in Hi. }
  split.
  - vm_compute. lia.
  - done.
  - by eexists.
  - done.
  - done.
  - unfold name_fits, SA_MAX_UNEXTENDED_NAME_LENGTH. vm_compute. lia.
  - split; [intros a tr t Ha Ht|intros a Ha Ht]; cbn in Ha; unfold demo_attributes in Ha; repeat (apply elem_of_cons in Ha as [->|Ha]; [discriminate|]); by apply elem_of_nil in Ha.
  - intros a Ha Hid. cbn in Ha. unfold demo_attributes in Ha. repeat (apply elem_of_cons in Ha as [->|Ha]; [try discriminate; done|]). by apply elem_of_nil in Ha.
  - intros i name _. split; intros _; (split; [vm_compute; lia|by repeat constructor]).
  - done.
  - intros i name Hi a Ha Hid tr. destruct (Hnames i name Hi) as (k & -> & Hk). cbn in Hid, Ha. unfold demo_attributes in Ha.
    repeat (apply elem_of_cons in Ha as [->|Ha]; [cbn in Hid; subst k; destruct Hk as [Hk|[Hk|[Hk ->]]]; first [discriminate Hk|cbn; split; [by case_bool_decide|done]]|]).
    by apply elem_of_nil in Ha.
  - intros tr tr' name _. cbn. by case_bool_decide.
  - intros tr name b [=].
  - intros t [[->|[tr [= <-]]]|[tr <-]]; reflexivity.
Qed.
Lemma demo_in_order : in_order {[+ demo_event +]} [] (fst (demo_after 5)).
Proof. apply (reached_in_order demo_ntf demo_memory demo_sizes), demo_reached. Qed.
Lemma demo_cm_memory : memory_left demo_cm.
Proof. by intros tr. Qed.

Lemma callback_keeps_order_witness :
  match cmNotificationCallback demo_cm false demo_sizes 0 false demo_change (fst (demo_after 5), []) with
  | (Ret _, (s', tr')) => exists new, tr' = [] ++ new /\ forall led', ledger (omap delivery new) {[+ demo_event +]} = Some led' -> in_order led' [] s'
  | (Exit w, (_, tr')) => exists new, tr' = [] ++ new /\ (is_Some (ledger (omap delivery new) {[+ demo_event +]}) -> w = Aborted)
  end.
Proof. apply (callback_keeps_order demo_cm false demo_sizes demo_cm_memory demo_change demo_convertible {[+ demo_event +]} [] _ demo_in_order). Defined.

Lemma wanted_attributes_are_sent_witness :
  exists tr', transformAttributeList demo_cm false demo_sizes 0 31 demo_attributes 5 "A=1" demo_infos false (MkInformation 0 false) (cm_initial, []) =
    (room ← send_attributes demo_cm false demo_sizes 0 31 demo_attributes 5 "A=1" 77 [("attr"%string, 4)];
     mret ((room : bool) && true, MkInformation 77 true)) (cm_initial, tr').
Proof.
  apply (wanted_attributes_are_sent demo_cm false demo_sizes 31 demo_attributes 5 "A=1" demo_infos false (MkInformation 0 false) "Class" cm_initial []).
  - by split.
  - split; [cbn; lia|]. intros i x _ _. split; intros _; (split; [vm_compute; lia|by repeat constructor]).
  - by split.
Defined.

(** The smallest positive number of a [float]. *)
Lemma float_converted_exactly_witness :
  exists d, setValueInCmEvent demo_cm false MafOamSpiMoAttributeType_3_DECIMAL64 (InUnion 1) (SA_NTF_VALUE_other SA_NTF_VALUE_FLOAT) (cm_initial, []) = (Ret (true, Number d), (cm_initial, [])) /\
    0 <= d < 2 ^ 64 /\ double_exponent d < 2047 /\ double_units d = float_units (1 mod 2 ^ 32) * 2 ^ 925.
Proof. apply (float_converted_exactly demo_cm false 1). discriminate. Defined.
