(* ===== verification/TxDeleted.v ===== *)
(** * Transactions: the deleted objects ([motransaction/OamSACache.cc])

    [OamSADeletedEntry] and [OamSADeletedObjectsList]: a tree of names with the points
    below which everything is deleted.  A point can be active, or dormant: it lies below
    an active one, and becomes active when that one is taken back.  The names of objects come
    split at their commas; an empty list is not a name ([None]: the code would read
    past its end). *)
From Stdlib Require Import ZArith Lia.
From stdpp Require Import base gmap list strings.
From S2P Require Import Prelude StdMap.

(** ** Entries *)
Inductive eDeletedEntryKind :=
| eDeletedEntryNoDeletePoint
| eDeletedEntryDormantDeletePoint
| eDeletedEntryActiveDeletePoint.
#[export] Instance eDeletedEntryKind_eq_dec : EqDecision eDeletedEntryKind.
Proof. solve_decision. Defined.

(** [myDeletedKind] and [myImmName]; [myMap] is the map of the node. *)
Record DeletedData := MkDeletedData { myDeletedKind : eDeletedEntryKind; myImmName : string }.
Abbreviation OamSADeletedEntry := (tree DeletedData).
Definition OamSADeletedEntry_new : OamSADeletedEntry := Node (MkDeletedData eDeletedEntryNoDeletePoint "") [].

Definition IsActive (e : OamSADeletedEntry) : bool := bool_decide (myDeletedKind (data e) = eDeletedEntryActiveDeletePoint).
Definition IsDormant (e : OamSADeletedEntry) : bool := bool_decide (myDeletedKind (data e) = eDeletedEntryDormantDeletePoint).
Definition set_kind (k : eDeletedEntryKind) (e : OamSADeletedEntry) : OamSADeletedEntry := set_data (MkDeletedData k (myImmName (data e))) e.
Definition SetActive : OamSADeletedEntry -> OamSADeletedEntry := set_kind eDeletedEntryActiveDeletePoint.
Definition SetDormant : OamSADeletedEntry -> OamSADeletedEntry := set_kind eDeletedEntryDormantDeletePoint.
Definition SetImmName (n : string) (e : OamSADeletedEntry) : OamSADeletedEntry := set_data (MkDeletedData (myDeletedKind (data e)) n) e.

(** ** The list *)
Abbreviation DeletedMap := (StdMap string OamSADeletedEntry).

(** All active points of a subtree become dormant. *)
Fixpoint SetActiveDPsDormant (del : OamSADeletedEntry) : OamSADeletedEntry :=
  match del with
  | Node d m => (if IsActive del then SetDormant else id) (Node d (map (fun p => (fst p, SetActiveDPsDormant (snd p))) m))
  end.

(** The topmost dormant points become active. *)
Fixpoint SetDormantDPsActive (del : OamSADeletedEntry) : OamSADeletedEntry :=
  if IsDormant del then SetActive del
  else match del with Node d m => Node d (map (fun p => (fst p, SetDormantDPsActive (snd p))) m) end.

(** The loop of [IsDeleted] after the first part of the name. *)
Fixpoint IsDeleted_below (dn : list string) (e : OamSADeletedEntry) : bool :=
  match dn with
  | [] => false
  | x :: dn =>
      match map_find (below e) x with
      | None => false
      | Some c => IsActive c || IsDeleted_below dn c
      end
  end.
Definition IsDeleted (theDisassembledDN : list string) (myMap : DeletedMap) : option bool :=
  match theDisassembledDN with
  | [] => None
  | x :: dn =>
      Some (match map_find myMap x with
            | None => false
            | Some c => IsActive c || IsDeleted_below dn c
            end)
  end.

(** New entries for the rest of a name; the last one is an active point. *)
Fixpoint new_entries (theImmName : string) (dn : list string) : OamSADeletedEntry :=
  match dn with
  | [] => SetImmName theImmName (SetActive OamSADeletedEntry_new)
  | x :: dn => Node (data OamSADeletedEntry_new) (map_insert [] x (new_entries theImmName dn))
  end.

(** The loop of [Insert] from an entry that exists. *)
Fixpoint Insert_below (theImmName : string) (ActiveDPFound : bool) (dn : list string) (e : OamSADeletedEntry) : OamSADeletedEntry :=
  match dn with
  | [] => if ActiveDPFound then SetDormant e else SetImmName theImmName (SetActive (SetActiveDPsDormant e))
  | x :: dn =>
      match map_find (below e) x with
      | None => change_below (fun m => map_insert m x (new_entries theImmName dn)) e
      | Some c => change_below (fun m => map_update m x (Insert_below theImmName (ActiveDPFound || IsActive c) dn)) e
      end
  end.
Definition Insert (theDisassembledDN : list string) (theImmName : string) (myMap : DeletedMap) : option DeletedMap :=
  match theDisassembledDN with
  | [] => None
  | x :: dn =>
      Some (match map_find myMap x with
            | None => map_insert myMap x (new_entries theImmName dn)
            | Some c => if IsActive c then myMap else map_update myMap x (Insert_below theImmName false dn)
            end)
  end.

(** [Remove]: the object is not deleted any more, but points below it may be. *)
Definition take_back (e : OamSADeletedEntry) : OamSADeletedEntry :=
  if IsActive e then SetDormant (SetDormantDPsActive e) else e.
Definition Remove (theDisassembledDN : list string) (myMap : DeletedMap) : option DeletedMap :=
  match theDisassembledDN with
  | [] => None
  | x :: dn => Some (map_update myMap x (change_at dn take_back))
  end.

(** The names of the active points, those below a point before it. *)
Fixpoint TraverseObjTree (delEntry : OamSADeletedEntry) : list string :=
  match delEntry with
  | Node d m => (m ≫= fun p => TraverseObjTree (snd p)) ++ (if IsActive delEntry then [myImmName d] else [])
  end.
Definition GetDeletedData (myMap : DeletedMap) : list string := myMap ≫= fun p => TraverseObjTree (snd p).

(** ** What a list means *)

(** The list as one tree, so that a name is a path in it. *)
Definition root (m : DeletedMap) : OamSADeletedEntry := Node (data OamSADeletedEntry_new) m.
Definition kind_of (m : DeletedMap) (dn : list string) : option eDeletedEntryKind := (fun e => myDeletedKind (data e)) <$> node_at dn (root m).
(** An object is deleted when there is an active point at it or above it. *)
Definition deleted (m : DeletedMap) (dn : list string) : Prop :=
  exists p, p `prefix_of` dn /\ kind_of m p = Some eDeletedEntryActiveDeletePoint.
