(* ===== verification/TxDeletedProps.v ===== *)
(** * Transactions: theorems about the deleted objects

    What [IsDeleted] says, what [Insert] and [Remove] do to it, the objects that are
    deleted in IMM and their order, and what becomes of an object that is deleted
    twice.  [covered]: whether there is an active point on a path, as a function of the tree; what the operations do to it.
    [points]: the active points with their paths. *)
From Stdlib Require Import ZArith Lia.
From stdpp Require Import base gmap list strings sorting.
From S2P Require Import Prelude StdMap TxDeleted.

#[local] Arguments IsActive : simpl never.
Implicit Types (m mm : DeletedMap) (e c : OamSADeletedEntry) (dn : list string) (l : list (list string * string)).

(** ** Kinds *)
Lemma active_kind e : IsActive e = true <-> myDeletedKind (data e) = eDeletedEntryActiveDeletePoint.
Proof. apply bool_decide_eq_true. Qed.
Lemma active_set_kind k e : IsActive (set_kind k e) = bool_decide (k = eDeletedEntryActiveDeletePoint).
Proof. done. Qed.
Lemma active_change f e : IsActive (change_below f e) = IsActive e.
Proof. done. Qed.
Lemma active_name n e : IsActive (SetImmName n e) = IsActive e.
Proof. done. Qed.

(** ** An active point on the path *)
Definition covered dn e : bool := IsActive e || IsDeleted_below dn e.

Lemma covered_cons x dn e : covered (x :: dn) e = IsActive e || default false (covered dn <$> map_find (below e) x).
Proof. unfold covered at 1. cbn. by destruct (map_find (below e) x). Qed.
Lemma covered_nil e : covered [] e = IsActive e.
Proof. unfold covered. by rewrite orb_false_r. Qed.

Lemma covered_iff dn e : covered dn e = true <-> exists p c, p `prefix_of` dn /\ node_at p e = Some c /\ IsActive c = true.
Proof.
  revert e. induction dn as [|x dn IH]; intros e.
  - rewrite covered_nil. split; [intros He; by exists [], e|]. intros (p & c & ->%prefix_nil_inv & [= ->] & Hc). done.
  - rewrite covered_cons, orb_true_iff. split.
    + intros [He|Hb]; [exists [], e; split; [apply prefix_nil|done]|]. destruct (map_find (below e) x) as [d|] eqn:Ed; [|done]. cbn in Hb.
      apply IH in Hb as (p & c & Hp & Hn & Hc). exists (x :: p), c. split; [by apply prefix_cons|]. cbn. by rewrite Ed.
    + intros ([|y p] & c & Hp & Hn & Hc); [left; by injection Hn as ->|right]. apply prefix_cons_inv_1 in Hp as Hy. apply prefix_cons_inv_2 in Hp. subst y.
      cbn in Hn. destruct (map_find (below e) x) as [d|]; [|done]. cbn in Hn |- *. apply IH. by exists p, c.
Qed.

Lemma IsDeleted_covered dn m : dn <> [] -> IsDeleted dn m = Some (covered dn (root m)).
Proof. destruct dn as [|x dn]; [done|]. intros _. rewrite covered_cons. change (IsActive (root m)) with false. change (below (root m)) with m. cbn. by destruct (map_find m x). Qed.

Lemma covered_prefix dn dn' e : dn `prefix_of` dn' -> covered dn e = true -> covered dn' e = true.
Proof. intros Hp (p & c & Hpp & Hn & Hc)%covered_iff. apply covered_iff. exists p, c. split; [by etrans|done]. Qed.

(** ** The operations *)
#[local] Instance prefix_of_dec : forall dn dn', Decision (dn `prefix_of` dn') := _.
Definition is_prefix dn dn' : bool := bool_decide (dn `prefix_of` dn').

Lemma is_prefix_cons x dn y dn' : is_prefix (x :: dn) (y :: dn') = bool_decide (y = x) && is_prefix dn dn'.
Proof.
  unfold is_prefix. rewrite <- bool_decide_and. apply bool_decide_ext. split.
  - intros Hp. split; [symmetry; by eapply prefix_cons_inv_1|by eapply prefix_cons_inv_2].
  - intros [-> Hp]. by apply prefix_cons.
Qed.

Lemma is_prefix_longer x dn : is_prefix (x :: dn) [] = false.
Proof. apply bool_decide_false. by intros ?%prefix_nil_not. Qed.

Lemma covered_new imm dn dn' : covered dn' (new_entries imm dn) = is_prefix dn dn'.
Proof.
  revert dn'. induction dn as [|x dn IH]; intros dn'.
  - unfold is_prefix. rewrite bool_decide_true by apply prefix_nil. done.
  - destruct dn' as [|y dn']; [done|]. rewrite covered_cons, is_prefix_cons. cbn. case_decide as Hx; [subst; rewrite bool_decide_true by done; apply IH|].
    by rewrite bool_decide_false.
Qed.

(** An entry is inserted where nothing is deleted. *)
Lemma covered_insert imm dn dn' e : sorted_tree e -> covered dn e = false ->
  covered dn' (Insert_below imm false dn e) = covered dn' e || is_prefix dn dn'.
Proof.
  revert dn' e. induction dn as [|x dn IH]; intros dn' e Hs Hc.
  { unfold is_prefix. rewrite (bool_decide_true ([] `prefix_of` dn')) by apply prefix_nil. rewrite orb_true_r. done. }
  rewrite covered_cons in Hc. apply orb_false_iff in Hc as [Ha Hc]. destruct e as [d mm]. apply sorted_below in Hs as Hm. destruct Hm as [Ho _]. cbn [below] in *.
  cbn [Insert_below below]. destruct (map_find mm x) as [c|] eqn:Ec.
  - cbn in Hc. pose proof Hc as Hca. unfold covered in Hca. apply orb_false_iff in Hca as [Hca _]. rewrite Hca.
    destruct dn' as [|y dn']; [rewrite !covered_nil, is_prefix_longer; by rewrite !orb_false_r|]. rewrite !covered_cons, is_prefix_cons. cbn [change_below below].
    rewrite find_update. fold (Insert_below imm). destruct (decide (y = x)) as [->|Hy].
    + rewrite Ec. cbn [fmap option_fmap option_map default]. rewrite IH by (done || by eapply (sorted_child (Node d mm))). unfold id. rewrite bool_decide_true by done. cbn [orb andb]. by rewrite orb_assoc.
    + rewrite (bool_decide_false (y = x)) by done. cbn [andb]. by rewrite !orb_false_r.
  - destruct dn' as [|y dn']; [rewrite !covered_nil, is_prefix_longer; by rewrite !orb_false_r|]. rewrite !covered_cons, is_prefix_cons. cbn [change_below below].
    rewrite find_insert by done. destruct (decide (y = x)) as [->|Hy].
    + rewrite Ec. cbn [fmap option_fmap option_map default]. rewrite covered_new, bool_decide_true by done. by rewrite !orb_false_r.
    + rewrite (bool_decide_false (y = x)) by done. rewrite orb_false_r. by destruct (map_find mm y).
Qed.

(** *** Dormant points *)
Lemma map_values_find {B} (f : tree B -> tree B) (mm : StdMap string (tree B)) x :
  map_find (map (fun p => (p.1, f p.2)) mm) x = f <$> map_find mm x.
Proof. induction mm as [|[y t] mm IH]; cbn; [done|]. by case_decide. Qed.

Definition without_dormant e : Prop := forall dn c, node_at dn e = Some c -> IsDormant c = false.
Lemma without_dormant_child e x c : without_dormant e -> map_find (below e) x = Some c -> without_dormant c.
Proof. intros He Hc dn d Hd. apply (He (x :: dn)). cbn. by rewrite Hc. Qed.

Lemma covered_dormant dn e : covered dn (SetDormant e) = IsDeleted_below dn e.
Proof. unfold covered. by destruct e, dn. Qed.
Lemma below_same dn e e' : below e = below e' -> IsDeleted_below dn e = IsDeleted_below dn e'.
Proof. destruct dn; cbn; [done|]. by intros ->. Qed.
Lemma below_cons x dn e : IsDeleted_below (x :: dn) e = default false (covered dn <$> map_find (below e) x).
Proof. cbn. by destruct (map_find (below e) x). Qed.

Lemma active_to_dormant_below e : below (SetActiveDPsDormant e) = map (fun p => (p.1, SetActiveDPsDormant p.2)) (below e).
Proof. destruct e as [d mm]. cbn. by case_match. Qed.
Lemma active_to_dormant_kind e : myDeletedKind (data (SetActiveDPsDormant e)) =
  if IsActive e then eDeletedEntryDormantDeletePoint else myDeletedKind (data e).
Proof. destruct e as [d mm]. cbn. by case_match. Qed.

(** What became dormant becomes active again. *)
Lemma covered_again dn e : without_dormant e -> covered dn (SetDormantDPsActive (SetActiveDPsDormant e)) = covered dn e.
Proof.
  revert dn. induction e as [d mm IH] using tree_ind. intros dn Hw. set (e := Node d mm) in *.
  pose proof (active_to_dormant_kind e) as Hk. pose proof (active_to_dormant_below e) as Hb.
  destruct (SetActiveDPsDormant e) as [d' mm'] eqn:Ee. cbn in Hk, Hb. destruct (IsActive e) eqn:Ea.
  - assert (IsDormant (Node d' mm') = true) as Hd by (unfold IsDormant; cbn [data]; by rewrite Hk). cbn [SetDormantDPsActive]. rewrite Hd. unfold covered. by rewrite Ea.
  - assert (IsDormant (Node d' mm') = false) as Hd by (unfold IsDormant; cbn [data]; rewrite Hk; apply (Hw [] e eq_refl)).
    assert (IsActive (Node d' mm') = false) as Ha by (unfold IsActive in *; cbn [data]; by rewrite Hk).
    cbn [SetDormantDPsActive]. rewrite Hd. unfold covered. rewrite Ea. change (IsActive (Node d' _)) with (IsActive (Node d' mm')). rewrite Ha. cbn [orb].
    destruct dn as [|x dn]; [done|]. rewrite !below_cons. cbn [below]. subst mm'. rewrite !map_values_find. subst e. cbn [below].
    destruct (map_find mm x) as [c|] eqn:Ec; [|done]. cbn. apply (find_values _ _ _ _ IH Ec). by apply (without_dormant_child (Node d mm) x).
Qed.

Lemma taken_back_here dn e imm : without_dormant e -> IsActive e = false ->
  covered dn (take_back (SetImmName imm (SetActive (SetActiveDPsDormant e)))) = covered dn e.
Proof.
  intros Hw Ha. unfold take_back. rewrite active_name. change (IsActive (SetActive _)) with true. cbn iota. rewrite covered_dormant. unfold covered. rewrite Ha. cbn [orb].
  pose proof (active_to_dormant_below e) as Hb. destruct (SetActiveDPsDormant e) as [d mm]. cbn in Hb.
  change (IsDeleted_below dn (Node (MkDeletedData eDeletedEntryActiveDeletePoint imm) (map (fun p => (p.1, SetDormantDPsActive p.2)) mm)) = IsDeleted_below dn e).
  destruct dn as [|x dn]; [done|]. rewrite !below_cons. cbn [below]. rewrite map_values_find, Hb, map_values_find. destruct (map_find (below e) x) as [c|] eqn:Ec; [|done]. cbn.
  apply covered_again. by apply (without_dormant_child e x).
Qed.

Lemma taken_back_new dn dn' imm : covered dn' (change_at dn take_back (new_entries imm dn)) = false.
Proof.
  revert dn'. induction dn as [|x dn IH]; intros dn'; [by destruct dn'|]. destruct dn' as [|y dn']; [done|]. rewrite covered_cons. cbn. rewrite decide_True by done. cbn.
  case_decide; [apply IH|done].
Qed.

Lemma covered_taken_back imm dn dn' e : sorted_tree e -> covered dn e = false -> (forall c, node_at dn e = Some c -> without_dormant c) ->
  covered dn' (change_at dn take_back (Insert_below imm false dn e)) = covered dn' e.
Proof.
  revert dn' e. induction dn as [|x dn IH]; intros dn' e Hs Hc Hw.
  { cbn. apply taken_back_here; [by apply Hw|]. by rewrite covered_nil in Hc. }
  rewrite covered_cons in Hc. apply orb_false_iff in Hc as [Ha Hc]. destruct e as [d mm]. apply sorted_below in Hs as Hm. destruct Hm as [Ho _]. cbn [below] in *.
  cbn [Insert_below below]. destruct (map_find mm x) as [c|] eqn:Ec.
  - cbn in Hc. pose proof Hc as Hca. unfold covered in Hca. apply orb_false_iff in Hca as [Hca _]. rewrite Hca.
    destruct dn' as [|y dn']; [done|]. rewrite !covered_cons. cbn [change_at change_below below data]. f_equal. rewrite !find_update. case_decide as Hy; [|done].
    subst y. rewrite (decide_True (P := x = x)) by done. rewrite Ec. cbn. apply IH; [by eapply (sorted_child (Node d mm))|done|]. intros c' Hc'. apply Hw. cbn. by rewrite Ec.
  - destruct dn' as [|y dn']; [done|]. rewrite !covered_cons. cbn [change_at change_below below data]. f_equal. rewrite find_update, !find_insert by done.
    destruct (decide (y = x)) as [->|Hy]; [|by destruct (map_find mm y)]. rewrite Ec. rewrite (decide_True (P := x = x)) by done. cbn. apply taken_back_new.
Qed.

(** *** A second insertion at an active point *)
Fixpoint point_at dn e : bool :=
  match dn with
  | [] => IsActive e
  | x :: dn => negb (IsActive e) && default false (point_at dn <$> map_find (below e) x)
  end.

Lemma point_new imm dn : point_at dn (new_entries imm dn) = true.
Proof. induction dn as [|x dn IH]; [done|]. cbn. by rewrite decide_True. Qed.
Lemma point_covered dn e : point_at dn e = true -> covered dn e = true.
Proof.
  revert e. induction dn as [|x dn IH]; intros e; [by rewrite covered_nil|]. cbn [point_at]. intros [_ Hp]%andb_true_iff. rewrite covered_cons.
  destruct (map_find (below e) x) as [c|]; [|done]. cbn in *. rewrite (IH c Hp). apply orb_true_r.
Qed.

Lemma point_insert imm dn e : sorted_tree e -> covered dn e = false -> point_at dn (Insert_below imm false dn e) = true.
Proof.
  revert e. induction dn as [|x dn IH]; intros e Hs Hc; [done|].
  rewrite covered_cons in Hc. apply orb_false_iff in Hc as [Ha Hc]. destruct e as [d mm]. apply sorted_below in Hs as Hm. destruct Hm as [Ho _]. cbn [below] in *.
  cbn [Insert_below below]. destruct (map_find mm x) as [c|] eqn:Ec.
  - cbn in Hc. pose proof Hc as Hca. unfold covered in Hca. apply orb_false_iff in Hca as [Hca _]. rewrite Hca.
    cbn [point_at change_below below data]. rewrite find_update, decide_True, Ec by done. cbn. rewrite active_change, Ha. cbn.
    apply IH; [by eapply (sorted_child (Node d mm))|done].
  - cbn [point_at change_below below data]. rewrite find_insert, Ec, decide_True by done. rewrite active_change, Ha. cbn. apply point_new.
Qed.

Lemma insert_again imm b dn e : point_at dn e = true -> dn <> [] \/ b = true -> covered dn (Insert_below imm b dn e) = false.
Proof.
  revert b e. induction dn as [|x dn IH]; intros b e; [intros _ [Hd| ->]; done|]. cbn [point_at]. intros [Ha Hp]%andb_true_iff _. apply negb_true_iff in Ha.
  destruct (map_find (below e) x) as [c|] eqn:Ec; [|done]. cbn in Hp. cbn [Insert_below]. rewrite Ec, covered_cons. cbn [change_below below].
  rewrite find_update, decide_True, Ec by done. cbn. rewrite active_change, Ha. cbn. apply IH; [done|].
  destruct dn as [|y dn]; [right; cbn in Hp; by rewrite Hp, orb_true_r|by left].
Qed.

(** *** In terms of lists *)
Lemma root_below imm b x dn m : root (below (Insert_below imm b (x :: dn) (root m))) = Insert_below imm b (x :: dn) (root m).
Proof. cbn. by destruct (map_find m x). Qed.
Lemma insert_root imm x dn m m' : match map_find m x with Some c => IsActive c = false | None => True end ->
  Insert (x :: dn) imm m = Some m' -> root m' = Insert_below imm false (x :: dn) (root m).
Proof.
  intros Hc Hi. rewrite <- root_below. f_equal. apply (inj Some). rewrite <- Hi. cbn [Insert Insert_below]. change (below (root m)) with m.
  destruct (map_find m x) as [c|] eqn:Ec; [|done]. by rewrite Hc.
Qed.
Lemma not_covered_first imm x dn m m' : covered (x :: dn) (root m) = false -> Insert (x :: dn) imm m = Some m' -> root m' = Insert_below imm false (x :: dn) (root m).
Proof.
  intros Hc. apply insert_root. rewrite covered_cons in Hc. apply orb_false_iff in Hc as [_ Hc]. change (below (root m)) with m in Hc. destruct (map_find m x) as [c|]; [|done].
  cbn in Hc. unfold covered in Hc. by apply orb_false_iff in Hc as [Hc _].
Qed.
Lemma remove_root x dn m m' : Remove (x :: dn) m = Some m' -> root m' = change_at (x :: dn) take_back (root m).
Proof. by intros [= <-]. Qed.

(** ** The active points *)
Abbreviation under x := (prod_map (cons x) (@id string)).
Fixpoint points e : list (list string * string) :=
  match e with
  | Node d mm => (mm ≫= fun p => under (fst p) <$> points (snd p)) ++ (if IsActive e then [([], myImmName d)] else [])
  end.
Abbreviation points_of mm := (mm ≫= fun p => under (fst p) <$> points (snd p)).

Lemma points_names e : TraverseObjTree e = (points e).*2.
Proof.
  induction e as [d mm IH] using tree_ind. cbn [TraverseObjTree points]. rewrite fmap_app. f_equal; [|by case_match].
  clear d. induction mm as [|[x c] mm IHm]; [done|]. apply Forall_cons in IH as [Hc Hm]. cbn [mbind list_bind fst snd]. cbn in Hc. rewrite fmap_app, Hc. f_equal; [|by apply IHm]. by rewrite <- list_fmap_compose.
Qed.
Lemma GetDeletedData_points m : GetDeletedData m = (points (root m)).*2.
Proof. rewrite <- points_names. cbn. by rewrite app_nil_r. Qed.

Lemma points_dormant e : points (SetActiveDPsDormant e) = [].
Proof.
  induction e as [d mm IH] using tree_ind. cbn [SetActiveDPsDormant].
  assert (points_of (map (fun p => (p.1, SetActiveDPsDormant p.2)) mm) = []) as Hn.
  { clear d. induction mm as [|[x c] mm IHm]; [done|]. apply Forall_cons in IH as [Hc Hm]. cbn. cbn in Hc. by rewrite Hc, IHm. }
  destruct (IsActive (Node d mm)) eqn:Ea; cbn [points SetDormant set_kind set_data below id data]; rewrite Hn; [done|].
  change (IsActive (Node d _)) with (IsActive (Node d mm)). by rewrite Ea.
Qed.
Lemma points_new imm dn : points (new_entries imm dn) = [(dn, imm)].
Proof. induction dn as [|x dn IH]; [done|]. cbn. by rewrite IH. Qed.

(** The points of one entry among those of a map. *)
Definition outside dn (p : list string * string) : Prop := ~ dn `prefix_of` p.1.
#[local] Instance outside_dec dn p : Decision (outside dn p) := decide (~ _).

Lemma outside_under x dn l : filter (outside (x :: dn)) (under x <$> l) = under x <$> filter (outside dn) l.
Proof.
  induction l as [|q l IH]; [done|]. cbn [fmap list_fmap]. rewrite !filter_cons, IH.
  assert (outside (x :: dn) (under x q) <-> outside dn q) as Hiff.
  { unfold outside. cbn. split; intros Hp Hq; apply Hp; [by apply prefix_cons|by apply prefix_cons_inv_2 in Hq]. }
  destruct (decide (outside dn q)) as [Hq|Hq]; [rewrite decide_True by by apply Hiff|rewrite decide_False by by rewrite Hiff]; done.
Qed.
Lemma outside_other x y dn l : x <> y -> filter (outside (x :: dn)) (under y <$> l) = under y <$> l.
Proof.
  intros Hne. apply filter_all. apply Forall_forall. intros q (p & -> & Hp)%list_elem_of_fmap Hq. cbn in Hq. by apply prefix_cons_inv_1 in Hq.
Qed.
Lemma outside_others x dn mm : Forall (fun p => p.1 <> x) mm -> filter (outside (x :: dn)) (points_of mm) = points_of mm.
Proof.
  induction 1 as [|[y c] mm Hy Hm IH]; [done|]. cbn. rewrite filter_app, IH. f_equal. apply outside_other. cbn in Hy. congruence.
Qed.

Lemma points_update x dn imm (f : OamSADeletedEntry -> OamSADeletedEntry) mm c : ordered mm -> map_find mm x = Some c ->
  points (f c) ≡ₚ (dn, imm) :: filter (outside dn) (points c) ->
  points_of (map_update mm x f) ≡ₚ (x :: dn, imm) :: filter (outside (x :: dn)) (points_of mm).
Proof.
  induction mm as [|[y d] mm IH]; [done|]. intros [Hy Ho] Hf Hp. cbn in Hf. cbn. case_decide as Hx.
  - injection Hf as ->. subst y. cbn. rewrite filter_app, outside_under, Hp. cbn. rewrite outside_others; [done|].
    eapply Forall_impl; [exact Hy|]. intros p Hlt. symmetry. by apply key_ne.
  - cbn. rewrite filter_app, outside_other, (IH Ho Hf Hp) by congruence. by rewrite Permutation_middle.
Qed.
Lemma points_insert x dn imm e mm : map_find mm x = None -> points e ≡ₚ [(dn, imm)] ->
  points_of (map_insert mm x e) ≡ₚ (x :: dn, imm) :: points_of mm.
Proof.
  intros Hn He. assert (map_insert mm x e ≡ₚ (x, e) :: mm) as ->.
  { induction mm as [|[y d] mm IH]; [done|]. cbn [map_insert map_find] in *. case_decide; [done|]. destruct (key_ltb x y); [done|]. rewrite IH by done. apply perm_swap. }
  cbn. by rewrite He.
Qed.

(** After an insertion, the points below the new one are not active any more. *)
Lemma points_after imm dn e : sorted_tree e -> covered dn e = false ->
  points (Insert_below imm false dn e) ≡ₚ (dn, imm) :: filter (outside dn) (points e).
Proof.
  revert e. induction dn as [|x dn IH]; intros e Hs Hc.
  - assert (filter (outside []) (points e) = []) as ->.
    { induction (points e) as [|q l IHl]; [done|]. rewrite filter_cons, decide_False; [done|]. intros Hq. apply Hq, prefix_nil. }
    pose proof (points_dormant e) as Hd. cbn [Insert_below]. destruct (SetActiveDPsDormant e) as [d mm]. cbn in Hd |- *. by apply app_nil in Hd as [-> _].
  - rewrite covered_cons in Hc. apply orb_false_iff in Hc as [Ha Hc]. destruct e as [d mm]. apply sorted_below in Hs as Hm. destruct Hm as [Ho _]. cbn [below] in *.
    cbn [Insert_below below points]. rewrite Ha, app_nil_r. destruct (map_find mm x) as [c|] eqn:Ec.
    + cbn in Hc. pose proof Hc as Hca. unfold covered in Hca. apply orb_false_iff in Hca as [Hca _]. rewrite Hca. cbn [change_below points below].
      change (IsActive (Node _ _)) with (IsActive (Node d mm)). rewrite Ha, app_nil_r. apply points_update with c; [done|done|].
      apply IH; [by eapply (sorted_child (Node d mm))|done].
    + cbn [change_below points below]. change (IsActive (Node _ _)) with (IsActive (Node d mm)). rewrite Ha, app_nil_r, outside_others.
      * apply points_insert; [done|]. by rewrite points_new.
      * apply Forall_forall. intros [y c] Hp Hy. cbn in Hy. subst y. apply find_none in Ec. apply Ec. by apply (list_elem_of_fmap_2 fst) in Hp.
Qed.

(** A point comes after all points below it. *)
Lemma points_sorted e : sorted_tree e -> StronglySorted (fun p q => ~ p.1 `prefix_of` q.1) (points e).
Proof.
  induction e as [d mm IH] using tree_ind. intros [Ho Hm]%sorted_below. cbn [points].
  assert (StronglySorted (fun p q => ~ p.1 `prefix_of` q.1) (points_of mm) /\ Forall (fun p => p.1 <> []) (points_of mm)) as [Hs Hne].
  { clear d. induction mm as [|[x c] mm IHm]; [split; constructor|]. apply Forall_cons in IH as [Hc IH], Hm as [Hsc Hm]. destruct Ho as [Hx Ho].
    destruct (IHm IH Ho Hm) as [IH1 IH2]. specialize (Hc Hsc). cbn [mbind list_bind fst snd]. cbn in Hc. split.
    - apply StronglySorted_app; split; [|split; [|done]].
      + intros p q (p' & -> & _)%list_elem_of_fmap Hq. cbn. apply list_elem_of_bind in Hq as ([y c'] & (q' & -> & _)%list_elem_of_fmap & Hq). cbn.
        rewrite Forall_forall in Hx. specialize (Hx _ Hq). intros Hp%prefix_cons_inv_1. by apply (key_ne _ _ Hx).
      + induction Hc as [|p l Hl IHl Hp]; [constructor|]. cbn. constructor; [done|]. apply Forall_fmap. eapply Forall_impl; [exact Hp|].
        intros q Hpq Hq. apply Hpq. by apply prefix_cons_inv_2 in Hq.
    - apply Forall_app. split; [|done]. apply Forall_fmap. by apply Forall_forall. }
  destruct (IsActive (Node d mm)); [|by rewrite app_nil_r]. apply StronglySorted_app; split; [|split; [done|by repeat constructor]].
  intros p q Hp ->%list_elem_of_singleton Hpq. rewrite Forall_forall in Hne. apply (Hne p Hp). by apply prefix_nil_inv in Hpq.
Qed.

(** ** Order of the maps *)
Lemma sorted_new imm dn : sorted_tree (new_entries imm dn).
Proof. induction dn as [|x dn IH]; cbn; repeat constructor; done. Qed.
Lemma sorted_map (f : OamSADeletedEntry -> OamSADeletedEntry) mm : ordered mm -> Forall (fun c => sorted_tree (f c)) mm.*2 ->
  ordered (map (fun p => (p.1, f p.2)) mm) /\ Forall sorted_tree (map (fun p => (p.1, f p.2)) mm).*2.
Proof.
  intros Ho Hm. split.
  - apply (ordered_keys mm); [|done]. clear. induction mm as [|[x c] mm IH]; [done|]. cbn. by f_equal.
  - clear Ho. induction mm as [|[x c] mm IH]; [constructor|]. apply Forall_cons in Hm as [? ?]. constructor; [done|]. by apply IH.
Qed.
Lemma sorted_values (P : OamSADeletedEntry -> Prop) mm : Forall (fun t => sorted_tree t -> P t) mm.*2 -> Forall sorted_tree mm.*2 -> Forall P mm.*2.
Proof. intros HP Hm. rewrite Forall_forall in HP, Hm |- *. auto. Qed.
Lemma sorted_to_dormant e : sorted_tree e -> sorted_tree (SetActiveDPsDormant e).
Proof.
  induction e as [d mm IH] using tree_ind. intros [Ho Hm]%sorted_below. cbn [SetActiveDPsDormant].
  destruct (sorted_map SetActiveDPsDormant mm) as [Ho' Hm']; [done|by apply sorted_values|].
  case_match; [apply sorted_set_data|]; by constructor.
Qed.
Lemma sorted_to_active e : sorted_tree e -> sorted_tree (SetDormantDPsActive e).
Proof.
  induction e as [d mm IH] using tree_ind. intros Hs. apply sorted_below in Hs as Hm. destruct Hm as [Ho Hm]. cbn [SetDormantDPsActive].
  case_match; [by apply sorted_set_data|]. destruct (sorted_map SetDormantDPsActive mm) as [Ho' Hm']; [done|by apply sorted_values|]. by constructor.
Qed.

Lemma sorted_insert imm b dn e : sorted_tree e -> sorted_tree (Insert_below imm b dn e).
Proof.
  revert b e. induction dn as [|x dn IH]; intros b e Hs; cbn [Insert_below].
  - destruct b; [by apply sorted_set_data|]. do 2 apply sorted_set_data. by apply sorted_to_dormant.
  - destruct e as [d mm]. apply sorted_below in Hs as [Ho Hm]. cbn [below]. destruct (map_find mm x) as [c|]; constructor.
    + by apply update_ordered.
    + apply update_values; [done|]. intros c' _. apply IH.
    + by apply insert_ordered.
    + apply insert_values; [done|]. apply sorted_new.
Qed.
Lemma sorted_take_back e : sorted_tree e -> sorted_tree (take_back e).
Proof. intros Hs. unfold take_back. case_match; [|done]. by apply sorted_set_data, sorted_to_active. Qed.

(** Every list that the cache makes is in order. *)
Definition sorted_list m : Prop := sorted_tree (root m).
Lemma sorted_nil : sorted_list [].
Proof. repeat constructor. Qed.
Lemma Insert_sorted dn imm m m' : Insert dn imm m = Some m' -> sorted_list m -> sorted_list m'.
Proof.
  destruct dn as [|x dn]; [done|]. cbn. intros [= <-] Hs. apply sorted_below in Hs as Hm. destruct Hm as [Ho Hm]. destruct (map_find m x) as [c|]; [case_match; [done|]|].
  - constructor; [by apply update_ordered|]. apply update_values; [done|]. intros c' _. apply sorted_insert.
  - constructor; [by apply insert_ordered|]. apply insert_values; [done|]. apply sorted_new.
Qed.
Lemma Remove_sorted dn m m' : Remove dn m = Some m' -> sorted_list m -> sorted_list m'.
Proof. destruct dn as [|x dn]; [done|]. intros [= <-] Hs. change (sorted_tree (change_at (x :: dn) take_back (root m))). apply sorted_change; [apply sorted_take_back|done]. Qed.


(** An object counts as deleted exactly when there is an active deletion point at its
    name or at a name above it. *)
Theorem IsDeleted_iff m dn b : IsDeleted dn m = Some b -> (b = true <-> deleted m dn).
Proof.
  intros Hd. assert (dn <> []) as Hne by (by destruct dn). rewrite IsDeleted_covered in Hd by done. injection Hd as <-. rewrite covered_iff. unfold deleted, kind_of. split.
  - intros (p & c & Hp & Hn & Hc). exists p. split; [done|]. rewrite Hn. cbn. f_equal. by apply active_kind.
  - intros (p & Hp & (c & Hc & Hn)%fmap_Some). exists p, c. split; [done|]. split; [done|]. by apply active_kind.
Qed.

Lemma not_deleted_path dn m : IsDeleted dn m = Some false -> exists x dn', dn = x :: dn' /\ covered (x :: dn') (root m) = false.
Proof. destruct dn as [|x dn]; [done|]. intros Hd. exists x, dn. split; [done|]. rewrite IsDeleted_covered in Hd by done. by injection Hd. Qed.

(** C21. Deleting an object that is not deleted yet deletes it, all objects below it, and nothing else. *)
Theorem Insert_deletes m dn imm m' : sorted_list m -> IsDeleted dn m = Some false -> Insert dn imm m = Some m' ->
  sorted_list m' /\ forall dn' b, IsDeleted dn' m = Some b -> IsDeleted dn' m' = Some (b || is_prefix dn dn').
Proof.
  intros Hs (x & dn0 & -> & Hc)%not_deleted_path Hi. split; [by eapply Insert_sorted|]. apply not_covered_first in Hi as Hr; [|done].
  intros dn' b Hb. assert (dn' <> []) by (by destruct dn'). rewrite IsDeleted_covered in Hb |- * by done. injection Hb as <-. rewrite Hr. f_equal. by apply covered_insert.
Qed.

(** C22. Deleting an object and creating it again directly afterwards cancel out: the same objects are
    deleted as before, also those below it that had been deleted on their own.  For an object
    that is not deleted before, with no dormant point at it or below it (one that an earlier
    re-creation has left there would come to life, [OamSACache.cc:2311]), and nothing between the
    two operations. *)
Theorem Remove_restores m dn imm m' m'' : sorted_list m -> IsDeleted dn m = Some false ->
  (forall dn', dn `prefix_of` dn' -> kind_of m dn' <> Some eDeletedEntryDormantDeletePoint) ->
  Insert dn imm m = Some m' -> Remove dn m' = Some m'' ->
  forall dn', IsDeleted dn' m'' = IsDeleted dn' m.
Proof.
  intros Hs (x & dn0 & -> & Hc)%not_deleted_path Hd Hi Hr dn'. apply not_covered_first in Hi; [|done]. apply remove_root in Hr. rewrite Hi in Hr.
  destruct dn' as [|y dn']; [done|]. rewrite !IsDeleted_covered by done. rewrite Hr. f_equal.
  apply covered_taken_back; [done|done|]. intros c Hn p c' Hc'. unfold IsDormant. apply bool_decide_false. intros Hk.
  apply (Hd ((x :: dn0) ++ p)); [by apply prefix_app_r|]. unfold kind_of. rewrite node_at_app, Hn. cbn [mbind option_bind]. rewrite Hc'. cbn. by rewrite Hk.
Qed.

(** C23. The objects that IMM is told to delete are the active points, each once and after those below it; an object
    that is deleted joins them and replaces those below it. *)
Theorem deleted_data m dn imm m' : sorted_list m -> IsDeleted dn m = Some false -> Insert dn imm m = Some m' ->
  GetDeletedData m = (points (root m)).*2 /\
  GetDeletedData m' = (points (root m')).*2 /\
  points (root m') ≡ₚ (dn, imm) :: filter (outside dn) (points (root m)) /\
  StronglySorted (fun p q => ~ p.1 `prefix_of` q.1) (points (root m')).
Proof.
  intros Hs (x & dn0 & -> & Hc)%not_deleted_path Hi. split; [apply GetDeletedData_points|]. split; [apply GetDeletedData_points|].
  split; [|apply points_sorted; by eapply Insert_sorted]. apply not_covered_first in Hi as ->; [|done]. by apply points_after.
Qed.

(** Deleting an object (not of the topmost level) a second time takes the deletion back: it counts as existing, and
    IMM is not told to delete it. *)
Theorem deleted_twice_exists m dn imm imm' m' m'' : sorted_list m -> IsDeleted dn m = Some false -> (2 <= length dn)%nat ->
  Insert dn imm m = Some m' -> Insert dn imm' m' = Some m'' ->
  IsDeleted dn m' = Some true /\ IsDeleted dn m'' = Some false.
Proof.
  intros Hs (x & dn0 & -> & Hc)%not_deleted_path Hlen Hi Hi'. apply not_covered_first in Hi; [|done].
  pose proof (point_insert imm (x :: dn0) (root m) Hs Hc) as Hp. rewrite <- Hi in Hp.
  split; [rewrite IsDeleted_covered by done; f_equal; by apply point_covered|]. pose proof Hp as Hq. cbn [point_at] in Hp. apply andb_true_iff in Hp as [_ Hp].
  change (below (root m')) with m' in Hp. apply insert_root in Hi'.
  - rewrite IsDeleted_covered, Hi' by done. f_equal. apply insert_again; [done|by left].
  - destruct (map_find m' x) as [c|] eqn:Ec; [|done]. destruct dn0 as [|y dn0]; [cbn in Hlen; lia|]. cbn in Hp. apply andb_true_iff in Hp as [Hp _]. by apply negb_true_iff in Hp.
Qed.

(** ** An example *)
Definition demo_deleted : DeletedMap := default [] (Insert ["A=1"; "B=2"; "C=3"]%string "c" [] ≫= Insert ["A=1"; "B=2"; "E=4"]%string "e").
Example demo_listed : GetDeletedData demo_deleted = ["c"; "e"]%string.
Proof. reflexivity. Qed.
Definition demo_above : DeletedMap := default [] (Insert ["A=1"; "B=2"]%string "b" demo_deleted).
Example demo_above_listed : GetDeletedData demo_above = ["b"]%string.
Proof. reflexivity. Qed.
Example demo_created_again : GetDeletedData <$> Remove ["A=1"; "B=2"]%string demo_above = Some ["c"; "e"]%string.
Proof. reflexivity. Qed.
Lemma demo_sorted : sorted_list demo_deleted.
Proof. apply (Insert_sorted ["A=1"; "B=2"; "E=4"]%string "e" (default [] (Insert ["A=1"; "B=2"; "C=3"]%string "c" []))); [reflexivity|].
  by apply (Insert_sorted ["A=1"; "B=2"; "C=3"]%string "c" []), sorted_nil. Qed.

Lemma IsDeleted_iff_witness : true = true <-> deleted demo_above ["A=1"; "B=2"; "C=3"; "D=4"]%string.
Proof. apply (IsDeleted_iff demo_above ["A=1"; "B=2"; "C=3"; "D=4"]%string true). reflexivity. Defined.
Lemma Insert_deletes_witness : sorted_list demo_above /\
  forall dn' b, IsDeleted dn' demo_deleted = Some b -> IsDeleted dn' demo_above = Some (b || is_prefix ["A=1"; "B=2"]%string dn').
Proof. apply (Insert_deletes demo_deleted ["A=1"; "B=2"]%string "b"); [apply demo_sorted|reflexivity|reflexivity]. Defined.
Lemma deleted_data_witness : GetDeletedData demo_deleted = (points (root demo_deleted)).*2 /\
  GetDeletedData demo_above = (points (root demo_above)).*2 /\
  points (root demo_above) ≡ₚ (["A=1"; "B=2"]%string, "b"%string) :: filter (outside ["A=1"; "B=2"]%string) (points (root demo_deleted)) /\
  StronglySorted (fun p q => ~ p.1 `prefix_of` q.1) (points (root demo_above)).
Proof. apply (deleted_data demo_deleted ["A=1"; "B=2"]%string "b" demo_above); [apply demo_sorted|reflexivity|reflexivity]. Defined.
Lemma deleted_twice_exists_witness : exists m'', Insert ["A=1"; "B=2"]%string "b" demo_above = Some m'' /\
  IsDeleted ["A=1"; "B=2"]%string demo_above = Some true /\ IsDeleted ["A=1"; "B=2"]%string m'' = Some false.
Proof.
  eexists. split; [reflexivity|]. apply (deleted_twice_exists demo_deleted ["A=1"; "B=2"]%string "b" "b" demo_above); [apply demo_sorted|reflexivity|cbn; lia|reflexivity|reflexivity].
Defined.
Lemma demo_no_dormant dn : kind_of demo_deleted dn <> Some eDeletedEntryDormantDeletePoint.
Proof.
  unfold kind_of. intros (c & Hc & Hk)%fmap_Some.
  assert (Hall : forall e : OamSADeletedEntry, (forall p, p ∈ (fix nodes e := match e with Node d mm => d :: (mm ≫= fun q => nodes q.2) end) e -> myDeletedKind p <> eDeletedEntryDormantDeletePoint) ->
    forall dn c, node_at dn e = Some c -> myDeletedKind (data c) <> eDeletedEntryDormantDeletePoint).
  { clear. intros e. induction e as [d mm IH] using tree_ind. intros Hp [|x dn] c; [intros [= <-]; apply Hp; left|]. cbn. destruct (map_find mm x) as [c'|] eqn:Ec; [|done]. cbn.
    apply (find_values _ _ _ _ IH Ec). intros p Hq. apply Hp. right. apply list_elem_of_bind. exists (x, c'). split; [done|by apply find_elem]. }
  apply (Hall (root demo_deleted)) in Hc; [by symmetry in Hk|]. intros p Hp. cbn in Hp. repeat (apply elem_of_cons in Hp as [->|Hp]; [discriminate|]). by apply elem_of_nil in Hp.
Qed.
Lemma Remove_restores_witness : exists m'', Remove ["A=1"; "B=2"]%string demo_above = Some m'' /\ forall dn', IsDeleted dn' m'' = IsDeleted dn' demo_deleted.
Proof.
  eexists. split; [reflexivity|]. apply (Remove_restores demo_deleted ["A=1"; "B=2"]%string "b" demo_above); [apply demo_sorted|reflexivity|intros dn' _; apply demo_no_dormant|reflexivity|reflexivity].
Defined.
