(* ===== verification/TxData.v ===== *)
(** * Transactions: data and external calls ([incl/TxContext.h], [incl/OamSACache.h])

    What a transaction hands to IMM, its context, and the calls of IMM and of the MAF that
    it makes.  The two lists of the cache (created and modified objects, deleted objects)
    are seen through an interface, [CacheLists]: a transaction asks them for
    what they hold. *)
From Stdlib Require Import ZArith Lia Ascii.
From stdpp Require Import base gmap list strings.
From S2P Require Import Prelude StdMap Codes NtfData.

Open Scope Z_scope.

(** ** Names *)

(** The parts of a name, split at the commas. *)
Fixpoint GlobalSplitDN (theDN : string) : list string :=
  match theDN with
  | "" => [""]
  | String c s =>
      if Ascii.eqb c "," then "" :: GlobalSplitDN s
      else match GlobalSplitDN s with x :: l => String c x :: l | [] => [String c ""] end
  end%string.

(** ** What goes to IMM *)

(** [OamSACacheCreatedObjectData] *)
Record CreatedObject := MkCreated {
  className : string;
  parentName : string;
  immName : string;
  parent3GPPDN : string;
  attrValues_pp : list SaImmAttrValuesT_2;
  defaultvaluesMapInfo : StdMap string bool
}.
(** [OamSACacheModifiedObjectData]: all modifications replace values. *)
Record ModifiedObject := MkModified { objectName : string; attrMods_pp : list SaImmAttrValuesT_2 }.
#[export] Instance SaImmValue_eq_dec : EqDecision SaImmValue.
Proof. solve_decision. Defined.
#[export] Instance SaImmAttrValuesT_2_eq_dec : EqDecision SaImmAttrValuesT_2.
Proof. solve_decision. Defined.

(** The lists of the cache: none at first, and what they hold. *)
Class CacheLists (D : Type) := {
  no_objects : D;
  ListOfCreatedObjects : D -> list CreatedObject;
  ListOfDeletedObjects : D -> list string;
  ListOfModifiedObjects : D -> list ModifiedObject
}.

(** [SaImmScopeT] *)
Definition SA_IMM_ONE : Z := 1.
Definition SA_IMM_SUBLEVEL : Z := 2.
Definition SA_IMM_SUBTREE : Z := 3.
Definition SA_IMM_ATTR_ADMIN_OWNER_NAME : string := "SaImmAttrAdminOwnerName".

(** ** The context of a transaction *)
Inductive ImmCcbCreatedStatusT := ImmCcbNotCreated | ImmCcbCreated.
#[export] Instance ImmCcbCreatedStatusT_eq_dec : EqDecision ImmCcbCreatedStatusT.
Proof. solve_decision. Defined.

(** [OamSACache], without the values lent to COM: its lists and handles, and the modified objects of
    the last [OamSAPrepare]. *)
Record OamSACache (D : Type) := MkCache {
  lists : D;
  myImmHandle : Z;
  myAccessorHandle : Z;
  finalModifiedObjectsList : list ModifiedObject
}.
Arguments MkCache {D} _ _ _ _.
Arguments lists {D} _.
Arguments myImmHandle {D} _.
Arguments myAccessorHandle {D} _.
Arguments finalModifiedObjectsList {D} _.

(** Handles are 0 when there is none.  The constructor leaves [ccbDeleteFailed] unset. *)
Record TxContext (D : Type) := MkTx {
  mSearchHandleMap : StdMap Z Z;
  mCache : OamSACache D;
  mImmCcbCreatedStatus : ImmCcbCreatedStatusT;
  isCcbEmpty : bool;
  mCcbHandle : Z;
  mImmHandle : Z;
  mAccessorHandle : Z;
  mAdminOwnerHandle : Z;
  ccbDeleteFailed : option bool;
  isCm_if : bool;
  mAdminOwners : StdMap string Z
}.
Arguments MkTx {D} _ _ _ _ _ _ _ _ _ _ _.
Arguments mSearchHandleMap {D} _.
Arguments mCache {D} _.
Arguments mImmCcbCreatedStatus {D} _.
Arguments isCcbEmpty {D} _.
Arguments mCcbHandle {D} _.
Arguments mImmHandle {D} _.
Arguments mAccessorHandle {D} _.
Arguments mAdminOwnerHandle {D} _.
Arguments ccbDeleteFailed {D} _.
Arguments isCm_if {D} _.
Arguments mAdminOwners {D} _.

Section setters.
Context {D : Type}.
Implicit Types (t : TxContext D).
Definition set_searches m t : TxContext D :=
  MkTx m (mCache t) (mImmCcbCreatedStatus t) (isCcbEmpty t) (mCcbHandle t) (mImmHandle t) (mAccessorHandle t) (mAdminOwnerHandle t) (ccbDeleteFailed t) (isCm_if t) (mAdminOwners t).
Definition set_cache c t : TxContext D :=
  MkTx (mSearchHandleMap t) c (mImmCcbCreatedStatus t) (isCcbEmpty t) (mCcbHandle t) (mImmHandle t) (mAccessorHandle t) (mAdminOwnerHandle t) (ccbDeleteFailed t) (isCm_if t) (mAdminOwners t).
Definition set_status s t : TxContext D :=
  MkTx (mSearchHandleMap t) (mCache t) s (isCcbEmpty t) (mCcbHandle t) (mImmHandle t) (mAccessorHandle t) (mAdminOwnerHandle t) (ccbDeleteFailed t) (isCm_if t) (mAdminOwners t).
Definition set_empty b t : TxContext D :=
  MkTx (mSearchHandleMap t) (mCache t) (mImmCcbCreatedStatus t) b (mCcbHandle t) (mImmHandle t) (mAccessorHandle t) (mAdminOwnerHandle t) (ccbDeleteFailed t) (isCm_if t) (mAdminOwners t).
Definition set_ccb h t : TxContext D :=
  MkTx (mSearchHandleMap t) (mCache t) (mImmCcbCreatedStatus t) (isCcbEmpty t) h (mImmHandle t) (mAccessorHandle t) (mAdminOwnerHandle t) (ccbDeleteFailed t) (isCm_if t) (mAdminOwners t).
Definition set_imm h t : TxContext D :=
  MkTx (mSearchHandleMap t) (mCache t) (mImmCcbCreatedStatus t) (isCcbEmpty t) (mCcbHandle t) h (mAccessorHandle t) (mAdminOwnerHandle t) (ccbDeleteFailed t) (isCm_if t) (mAdminOwners t).
Definition set_accessor h t : TxContext D :=
  MkTx (mSearchHandleMap t) (mCache t) (mImmCcbCreatedStatus t) (isCcbEmpty t) (mCcbHandle t) (mImmHandle t) h (mAdminOwnerHandle t) (ccbDeleteFailed t) (isCm_if t) (mAdminOwners t).
Definition set_owner h t : TxContext D :=
  MkTx (mSearchHandleMap t) (mCache t) (mImmCcbCreatedStatus t) (isCcbEmpty t) (mCcbHandle t) (mImmHandle t) (mAccessorHandle t) h (ccbDeleteFailed t) (isCm_if t) (mAdminOwners t).
Definition set_delete_failed b t : TxContext D :=
  MkTx (mSearchHandleMap t) (mCache t) (mImmCcbCreatedStatus t) (isCcbEmpty t) (mCcbHandle t) (mImmHandle t) (mAccessorHandle t) (mAdminOwnerHandle t) (Some b) (isCm_if t) (mAdminOwners t).
Definition set_owners m t : TxContext D :=
  MkTx (mSearchHandleMap t) (mCache t) (mImmCcbCreatedStatus t) (isCcbEmpty t) (mCcbHandle t) (mImmHandle t) (mAccessorHandle t) (mAdminOwnerHandle t) (ccbDeleteFailed t) (isCm_if t) m.
Definition set_final l (c : OamSACache D) : OamSACache D := MkCache (lists c) (myImmHandle c) (myAccessorHandle c) l.
Definition set_lists d (c : OamSACache D) : OamSACache D := MkCache d (myImmHandle c) (myAccessorHandle c) (finalModifiedObjectsList c).
End setters.

(** ** External calls: IMM, the MAF, the system, the translator of names

    A call that gives a handle back answers with what is in the variable afterwards, also when it fails. *)
Inductive ThreadContextMsgCategory_2 := ThreadContextMsgLog_2 | ThreadContextMsgNbi_2.
Inductive txE : Type -> Type :=
| saImmOmInitialize : txE (SaAisErrorT * Z)
| saImmOmAccessorInitialize (h : Z) : txE (SaAisErrorT * Z)
| saImmOmAdminOwnerInitialize (h : Z) (name : string) (releaseOnFinalize : bool) : txE (SaAisErrorT * Z)
| saImmOmFinalize (h : Z) : txE SaAisErrorT
| saImmOmAccessorFinalize (h : Z) : txE SaAisErrorT
| saImmOmAdminOwnerFinalize (h : Z) : txE SaAisErrorT
| saImmOmSearchInitialize_2 (h : Z) (dn : option string) (class : string) : txE (SaAisErrorT * Z)
| saImmOmSearchNext_2 (h : Z) : txE (SaAisErrorT * (string * list SaImmAttrValuesT_2))
| saImmOmSearchFinalize (h : Z) : txE SaAisErrorT
| saImmOmAccessorGet_2 (h : Z) (dn : option string) (attr : option string) : txE (SaAisErrorT * list SaImmAttrValuesT_2)
| saImmOmAdminOwnerSet (h : Z) (dns : list (option string)) (scope : Z) : txE SaAisErrorT
| saImmOmAdminOwnerRelease (h : Z) (dns : list (option string)) (scope : Z) : txE SaAisErrorT
| saImmOmAdminOwnerClear (h : Z) (dns : list (option string)) (scope : Z) : txE SaAisErrorT
| saImmOmClassDescriptionGet_2 (h : Z) (class : string) : txE SaAisErrorT
| saImmOmClassDescriptionMemoryFree_2 (h : Z) : txE SaAisErrorT
| saImmOmCcbInitialize (h : Z) : txE (SaAisErrorT * Z)
| saImmOmCcbFinalize (h : Z) : txE SaAisErrorT
| saImmOmCcbValidate (h : Z) : txE SaAisErrorT
| saImmOmCcbAbort (h : Z) : txE SaAisErrorT
| saImmOmCcbApply (h : Z) : txE SaAisErrorT
| saImmOmCcbObjectCreate_2 (h : Z) (class : string) (parent : option string) (attrs : list SaImmAttrValuesT_2) : txE SaAisErrorT
| saImmOmCcbObjectDelete (h : Z) (dn : string) : txE SaAisErrorT
| saImmOmCcbObjectModify_2 (h : Z) (dn : string) (mods : list SaImmAttrValuesT_2) : txE SaAisErrorT
| saImmOmCcbGetErrorStrings (h : Z) : txE (SaAisErrorT * option (list string))
| getInterface : txE MafReturnT
| addMessage (category : ThreadContextMsgCategory_2) (message : string) : txE MafReturnT
| registerParticipant (tx : Z) : txE unit
| isStructAttribute (object : list string) (attr : string) : txE bool
| isExclusiveStruct (parent attr : string) : txE bool
| usleep (microseconds : Z) : txE unit.
