(* ===== verification/TxCommands.v ===== *)
(** * Transactions: the context and the commands to IMM ([TxContext.cc], [ImmCmd.cc])

    Every call of IMM is a command ([doExecute]) that [execute] repeats while IMM asks to try
    again.  The programs of this file run on the context of one transaction
    ([TxContext *] in the code). *)
From Stdlib Require Import ZArith Lia.
From stdpp Require Import base gmap list strings.
From S2P Require Import Prelude StdMap Codes NtfData TxData.

Open Scope Z_scope.

Section commands.
Context {D : Type} (env : environment txE).
(** [isCCNameLM]: the name of the component is "lm". *)
Context (isCCNameLM : bool).
Abbreviation X := (M txE (TxContext D)).

(** ** [TxContext] *)
Definition addAdminOwnerFor (fdn : string) (scope : Z) : X bool :=
  t ← get;
  match map_find (mAdminOwners t) fdn with
  | None => modify (set_owners (map_insert (mAdminOwners t) fdn scope)) ;; mret true
  | Some _ => modify (set_owners (map_update (mAdminOwners t) fdn (fun _ => scope))) ;; mret true
  end.
Definition isAdminOwnerFor (fdn : string) (scope : Z) (t : TxContext D) : bool :=
  match map_find (mAdminOwners t) fdn with Some s => scope <=? s | None => false end.
Definition removeAdminOwnerFor (fdn : string) (scope : Z) : X bool :=
  b ← gets (isAdminOwnerFor fdn scope);
  if (b : bool) then modify (fun t => set_owners (map_erase (mAdminOwners t) fdn) t) ;; mret true else mret false.

Definition addSearchHandle (iter_p handle : Z) : X bool :=
  t ← get;
  modify (set_searches (map_insert (mSearchHandleMap t) iter_p handle)) ;;
  mret (match map_find (mSearchHandleMap t) iter_p with Some _ => false | None => true end).
Definition deleteSearchHandle (iter_p : Z) : X bool :=
  t ← get;
  match map_find (mSearchHandleMap t) iter_p with
  | Some h => call env (saImmOmSearchFinalize h) ;; modify (set_searches (map_erase (mSearchHandleMap t) iter_p)) ;; mret true
  | None => mret false
  end.
Definition getSearchHandle (iter_p : Z) (t : TxContext D) : Z := default 0 (map_find (mSearchHandleMap t) iter_p).

(** ** [ImmCmd] *)
Definition mRetries : nat := 59.
Definition to_repeat (err : SaAisErrorT) : bool :=
  bool_decide (err = SA_AIS_ERR_TRY_AGAIN) || (isCCNameLM && bool_decide (err = SA_AIS_ERR_FAILED_OPERATION)).

(** The loop of [execute], with the number of attempts that are left after this one; the result
    of a command holds its code and what it read. *)
Fixpoint attempts {R} (code : R -> SaAisErrorT) (doExecute : X R) (more : nat) : X R :=
  r ← doExecute;
  if to_repeat (code r) then
    call env (usleep 500000) ;;
    match more with O => mret r | S more => attempts code doExecute more end
  else mret r.
Definition execute (doExecute : X SaAisErrorT) : X SaAisErrorT := attempts id doExecute (pred mRetries).
Definition execute_get {A} (doExecute : X (SaAisErrorT * A)) : X (SaAisErrorT * A) := attempts fst doExecute (pred mRetries).

(** An empty name is the root: a null pointer. *)
Definition toSaNameT (dnIn : string) : option string := if bool_decide (dnIn = "") then None else Some dnIn.

Definition ImmCmdOmInit : X SaAisErrorT :=
  r ← call env saImmOmInitialize; modify (set_imm (snd r)) ;; mret (fst r).
Definition ImmCmdOmAccessorInit : X SaAisErrorT :=
  t ← get; r ← call env (saImmOmAccessorInitialize (mImmHandle t)); modify (set_accessor (snd r)) ;; mret (fst r).
Definition ImmCmdOmAdminOwnerInit (immOwnerName : string) (releaseOnFinalize : bool) : X SaAisErrorT :=
  t ← get; r ← call env (saImmOmAdminOwnerInitialize (mImmHandle t) immOwnerName releaseOnFinalize); modify (set_owner (snd r)) ;; mret (fst r).

(** [immAutoRetryProfileAdminSet] *)
Definition adminSet_nTries : nat := 5.
Definition adminSet_retryInterval : Z := 100.
Fixpoint set_again (set : X SaAisErrorT) (err : SaAisErrorT) (tries : nat) : X SaAisErrorT :=
  match tries with
  | O => mret err
  | S tries =>
      if bool_decide (err = SA_AIS_ERR_EXIST) then call env (usleep (adminSet_retryInterval * 1000)) ;; err ← set; set_again set err tries
      else mret err
  end.
Definition ImmCmdOmAdminOwnerSet (objectDns : list string) (scope : Z) : X SaAisErrorT :=
  if (length objectDns =? 0)%nat then mret SA_AIS_ERR_INVALID_PARAM
  else
    t ← get;
    let set := call env (saImmOmAdminOwnerSet (mAdminOwnerHandle t) (map toSaNameT objectDns) scope) in
    err ← set; set_again set err adminSet_nTries.
Definition ImmCmdOmAdminOwnerRelease (objectDns : list string) (scope : Z) : X SaAisErrorT :=
  if (length objectDns =? 0)%nat then mret SA_AIS_ERR_INVALID_PARAM
  else t ← get; call env (saImmOmAdminOwnerRelease (mAdminOwnerHandle t) (map toSaNameT objectDns) scope).
Definition ImmCmdOmAdminOwnerClear (dnIn : string) (scope : Z) : X SaAisErrorT :=
  t ← get; call env (saImmOmAdminOwnerClear (mImmHandle t) [toSaNameT dnIn] scope).
Definition ImmCmdOmClassDescriptionGet (class : string) : X SaAisErrorT :=
  t ← get; call env (saImmOmClassDescriptionGet_2 (mImmHandle t) class).

Definition ImmCmdOmKeySearchInit (dnIn classNameIn : string) (iter_p : Z) : X SaAisErrorT :=
  t ← get;
  r ← call env (saImmOmSearchInitialize_2 (mImmHandle t) (toSaNameT dnIn) classNameIn);
  if bool_decide (fst r <> SA_AIS_OK) then mret (fst r)
  else
    addSearchHandle iter_p (snd r) ;;
    mret SA_AIS_OK.
(** [mDnOut] and [mAttrValsOut] are part of the result. *)
Definition ImmCmdOmSearchNext (iter_p : Z) : X (SaAisErrorT * (string * list SaImmAttrValuesT_2)) :=
  searchHandle ← gets (getSearchHandle iter_p); call env (saImmOmSearchNext_2 searchHandle).
Definition ImmCmdOmAccessorGet (dnIn attrNameIn : string) : X (SaAisErrorT * list SaImmAttrValuesT_2) :=
  t ← get; call env (saImmOmAccessorGet_2 (mAccessorHandle t) (toSaNameT dnIn) (toSaNameT attrNameIn)).

Definition ImmCmdOmCcbInit : X SaAisErrorT :=
  t ← get; r ← call env (saImmOmCcbInitialize (mAdminOwnerHandle t)); modify (set_ccb (snd r)) ;; mret (fst r).
Definition ImmCmdOmCcbFinalize : X SaAisErrorT :=
  t ← get; immErr ← call env (saImmOmCcbFinalize (mCcbHandle t)); modify (set_ccb 0) ;; mret immErr.
Definition ImmCmdOmCcbObjectModify (dn : string) (attrMods : list SaImmAttrValuesT_2) : X SaAisErrorT :=
  t ← get; call env (saImmOmCcbObjectModify_2 (mCcbHandle t) dn attrMods).
Definition ImmCmdOmCcbValidate : X SaAisErrorT := t ← get; call env (saImmOmCcbValidate (mCcbHandle t)).
Definition ImmCmdOmCcbAbort : X SaAisErrorT := t ← get; call env (saImmOmCcbAbort (mCcbHandle t)).
Definition ImmCmdOmCcbApply : X SaAisErrorT := t ← get; call env (saImmOmCcbApply (mCcbHandle t)).
Definition ImmCmdOmCcbObjectCreate (parent class : string) (attrVals : list SaImmAttrValuesT_2) : X SaAisErrorT :=
  t ← get;
  errRet ← call env (saImmOmClassDescriptionGet_2 (mImmHandle t) class);
  when (bool_decide (errRet <> SA_AIS_ERR_NOT_EXIST)) (call env (saImmOmClassDescriptionMemoryFree_2 (mImmHandle t)) ;; mret ()) ;;
  call env (saImmOmCcbObjectCreate_2 (mCcbHandle t) class (toSaNameT parent) attrVals).
Definition ImmCmdOmCcbObjectDelete (dn : string) : X SaAisErrorT :=
  t ← get; call env (saImmOmCcbObjectDelete (mCcbHandle t) dn).

(** ** Constructor and destructor *)

(** [OamSACache::OamSACache] *)
Definition OamSACache_new {S} (no_objects : D) : M txE S (OamSACache D) :=
  r ← call env saImmOmInitialize;
  if bool_decide (fst r <> SA_AIS_OK) then mret (MkCache no_objects 0 0 [])
  else
    a ← call env (saImmOmAccessorInitialize (snd r));
    if bool_decide (fst a <> SA_AIS_OK) then mret (MkCache no_objects (snd r) 0 [])
    else mret (MkCache no_objects (snd r) (snd a) []).
(** [OamSACache::~OamSACache]: its handles. *)
Definition OamSACache_delete (c : OamSACache D) : X () :=
  when (negb (myImmHandle c =? 0)) (call env (saImmOmAccessorFinalize (myAccessorHandle c)) ;; call env (saImmOmFinalize (myImmHandle c)) ;; mret ()).

Definition TxContext_new (isCmIf : bool) (c : OamSACache D) : TxContext D :=
  MkTx [] c ImmCcbNotCreated false 0 0 0 0 None isCmIf [].
Fixpoint finalize_searches (l : StdMap Z Z) : X () :=
  match l with
  | [] => mret ()
  | (_, h) :: l => call env (saImmOmSearchFinalize h) ;; finalize_searches l
  end.
(** A handle that is set is finalized, and reset when that worked. *)
Definition give_back (handle : TxContext D -> Z) (finalize : Z -> txE SaAisErrorT) (reset : TxContext D -> TxContext D) : X () :=
  t ← get;
  if handle t =? 0 then mret ()
  else err ← call env (finalize (handle t)); when (bool_decide (err = SA_AIS_OK)) (modify reset).
Definition TxContext_delete : X () :=
  give_back mCcbHandle saImmOmCcbFinalize (set_ccb 0) ;;
  t ← get;
  finalize_searches (mSearchHandleMap t) ;;
  give_back mAccessorHandle saImmOmAccessorFinalize (set_accessor 0) ;;
  give_back mAdminOwnerHandle saImmOmAdminOwnerFinalize (set_owner 0) ;;
  give_back mImmHandle saImmOmFinalize (set_imm 0) ;;
  OamSACache_delete (mCache t).
End commands.

(** A command that never wants to be repeated runs once. *)
Example split_name : GlobalSplitDN "A=1,B=2,C=3" = ["A=1"; "B=2"; "C=3"]%string.
Proof. reflexivity. Qed.
