(* ===== verification/TxBridge.v ===== *)
(** * Transactions: from the cache to IMM ([OamSAImmBridge.cc], [OamSATransactionRepository.cc])

    [OamSAPrepare] builds a CCB of what the cache holds, [OamSACommit] applies it, [OamSAValidate]
    builds one and has it checked; between them they take and release the administrative
    ownership of the objects, and start again when IMM has aborted for want of resources.  The first
    part runs on the context of one transaction, the second ([Repo]) on all of
    them.  The static [numInstances] is an argument where the first part reads it. *)
From Stdlib Require Import ZArith Lia Ascii.
From stdpp Require Import base gmap list strings.
From S2P Require Import Prelude StdMap Codes NtfData TxData TxCommands.

Open Scope Z_scope.

Definition IMM_ABORT_RETRIES_COUNT : nat := 60.
Definition MICROS_PER_SEC : Z := 1000000.
Definition ImmAdmOpNoReturnParams : nat := 128.
Definition myOwnerName : string := "OAMSA".

(** Everything before the first [c], everything behind it ([None]: it does not occur). *)
Definition before (c s : string) : option string := (fun k => String.substring 0 k s) <$> String.index 0 c s.
Definition behind (c s : string) : option string := (fun k => String.substring (S k) (String.length s) s) <$> String.index 0 c s.

Section bridge.
Context {D : Type} `{CacheLists D} (env : environment txE).
Context (isCCNameLM lock_mo_for_config_change : bool).
Abbreviation X := (M txE (TxContext D)).
Abbreviation run := (execute env isCCNameLM).

(** ** Created objects whose defaults are to be removed ([OamSACache.cc]) *)

(** [fetchAttrValue]: whether there was no exception, and the value of the key. *)
Definition fetchAttrValue (a : SaImmAttrValuesT_2) : X (bool * string) :=
  match attrValues a with
  | ImmString (Some s) :: _ => mret (true, default "" (behind "=" s))
  | ImmString None :: _ => mret (false, "")
  | _ => exit BadPointer
  end.

(** The attribute is a key of the name of a struct: whether the key is found, and whether the loop ends. *)
Definition struct_key (parentDn : string) (keyFound : bool) (structAttrName : string) : X (bool * bool) :=
  if keyFound then
    isStruct ← call env (isStructAttribute (GlobalSplitDN parentDn) structAttrName);
    if (isStruct : bool) then
      exclusive ← call env (isExclusiveStruct parentDn structAttrName);
      mret (if (exclusive : bool) then (false, true) else (true, false))
    else mret (false, false)
  else mret (false, false).

(** The loop over the attributes of one object: whether the key was found, and the attributes to
    be emptied. *)
Fixpoint default_loop (o : CreatedObject) (keyAttributeName : string) (l : list SaImmAttrValuesT_2) (keyFound : bool) (mods : list SaImmAttrValuesT_2) : X (bool * list SaImmAttrValuesT_2) :=
  match l with
  | [] => mret (keyFound, mods)
  | a :: l =>
      if bool_decide (keyAttributeName = "id") then
        f ← (if bool_decide (keyAttributeName = attrName a) && negb keyFound then
               r ← fetchAttrValue a;
               if (fst r : bool) then mret (match before "_" (snd r) with Some s => (true, s) | None => (false, "") end) else mret (false, "")
             else mret (keyFound, "") : X (bool * string));
        k ← struct_key (parent3GPPDN o) (fst f) (snd f);
        if (snd k : bool) then mret (fst k, mods) else default_loop o keyAttributeName l (fst k) mods
      else if negb keyFound && bool_decide (keyAttributeName = attrName a) then default_loop o keyAttributeName l true mods
      else if (0 <? length (attrValues a))%nat then default_loop o keyAttributeName l keyFound mods
      else if default false (map_find (defaultvaluesMapInfo o) (attrName a)) then default_loop o keyAttributeName l keyFound (mods ++ [a])
      else default_loop o keyAttributeName l keyFound mods
  end.

Fixpoint defaults_to_remove (l : list CreatedObject) : X (list ModifiedObject) :=
  match l with
  | [] => mret []
  | o :: l =>
      let keyAttributeName := default (immName o) (before "=" (immName o)) in
      r ← default_loop o keyAttributeName (attrValues_pp o) false [];
      rest ← defaults_to_remove l;
      mret (if negb (fst r) || bool_decide (snd r = []) then rest else MkModified (immName o) (snd r) :: rest)
  end.

Definition setFinalModifiedObjectsList (l : list ModifiedObject) : X () :=
  modify (fun t => set_cache (set_final (finalModifiedObjectsList (mCache t) ++ l) (mCache t)) t).
Definition clearFinalModifiedObjectsList : X () := modify (fun t => set_cache (set_final [] (mCache t)) t).
Definition prepareListOfModifiedObjects (l : list CreatedObject) : X () :=
  mods ← defaults_to_remove l;
  when (0 <? length mods)%nat (setFinalModifiedObjectsList mods).
Definition GetListOfModifiedObjects : X (list ModifiedObject) :=
  t ← get; setFinalModifiedObjectsList (ListOfModifiedObjects (lists (mCache t))) ;;
  t ← get; mret (finalModifiedObjectsList (mCache t)).

(** ** Messages for COM *)
Definition lower_char (c : ascii) : ascii :=
  let n := nat_of_ascii c in if (65 <=? n)%nat && (n <=? 90)%nat then ascii_of_nat (n + 32) else c.
Fixpoint lowercase (s : string) : string := match s with "" => "" | String c s => String (lower_char c) (lowercase s) end.

(** [regexp] with the pattern [@[^@]*@]: the first match. *)
Definition control_sequence (s : string) : option string :=
  k ← String.index 0 "@" s; n ← String.index (S k) "@" s; Some (String.substring k (S n - k) s).
Definition parseAndCategorizeErrorString (errorString : string) : ThreadContextMsgCategory_2 * string :=
  match control_sequence errorString with
  | Some m => (if bool_decide (lowercase m = "@comnbi@") then ThreadContextMsgNbi_2 else ThreadContextMsgLog_2,
               String.substring (String.length m) (String.length errorString) errorString)
  | None => (ThreadContextMsgLog_2, errorString)
  end.

Definition mentions_abort (s : string) : bool := bool_decide (String.index 0 "IMM: Resource abort" s <> None).
(** The loop over the messages: true when IMM has aborted for want of resources. *)
Fixpoint forward (checkImmResAbort : bool) (l : list string) : X bool :=
  match l with
  | [] => mret false
  | s :: l =>
      let m := parseAndCategorizeErrorString s in
      if checkImmResAbort && mentions_abort (snd m) then mret true
      else call env (addMessage (fst m) (snd m)) ;; forward checkImmResAbort l
  end.
Definition getAndForwardErrorStrings (checkImmResAbort : bool) : X (MafReturnT * bool) :=
  com_rc ← call env getInterface;
  if bool_decide (com_rc <> MafOk) then mret (com_rc, false)
  else
    t ← get;
    r ← call env (saImmOmCcbGetErrorStrings (mCcbHandle t));
    match fst r, snd r with
    | SA_AIS_OK, Some errorStrings => b ← forward checkImmResAbort (take ImmAdmOpNoReturnParams errorStrings); mret (MafOk, b)
    | _, _ => mret (MafFailure, false)
    end.

(** ** Ownership *)
Definition isAdminOwnerLockedByAnotherTx (numInstances : Z) (err : SaAisErrorT) (t : TxContext D) : bool :=
  bool_decide (err = SA_AIS_ERR_EXIST) && (negb (numInstances =? 1) || isCm_if t).

Definition getAdminOwner (dnIn : string) : X (SaAisErrorT * string) :=
  r ← execute_get env isCCNameLM (ImmCmdOmAccessorGet env dnIn SA_IMM_ATTR_ADMIN_OWNER_NAME);
  if bool_decide (fst r <> SA_AIS_OK) then mret (fst r, "")
  else
    match snd r with
    | [] => mret (SA_AIS_ERR_NOT_EXIST, "")
    | a :: _ =>
        match attrValues a with
        | [] => mret (SA_AIS_ERR_NOT_EXIST, "")
        | v :: _ =>
            if bool_decide (attrValueType a <> SA_IMM_ATTR_SASTRINGT) then mret (SA_AIS_ERR_NOT_SUPPORTED, "")
            else match v with ImmString (Some s) => mret (SA_AIS_OK, s) | _ => exit BadPointer end
        end
    end.

(** Another owner of the object is known: it is cleared when it was a transaction of this component. *)
Definition set_after_exist (dn : string) (scope : Z) : X SaAisErrorT :=
  o ← getAdminOwner dn;
  if bool_decide (fst o <> SA_AIS_OK) then mret SA_AIS_ERR_EXIST
  else if negb (bool_decide (snd o = "")) && String.prefix myOwnerName (snd o) then
    err ← run (ImmCmdOmAdminOwnerClear env dn scope);
    if bool_decide (err <> SA_AIS_OK) then mret err else run (ImmCmdOmAdminOwnerSet env [dn] scope)
  else run (ImmCmdOmAdminOwnerSet env [dn] scope).

Definition checkSetAdminOwner (numInstances : Z) (dn : string) (scope : Z) : X SaAisErrorT :=
  t ← get;
  if bool_decide (dn = "") || isAdminOwnerFor dn scope t then mret SA_AIS_OK
  else
    err ← run (ImmCmdOmAdminOwnerSet env [dn] scope);
    t ← get;
    err ← (if bool_decide (err = SA_AIS_ERR_EXIST) then
             if isAdminOwnerLockedByAnotherTx numInstances err t then mret err else set_after_exist dn scope
           else mret err : X SaAisErrorT);
    when (bool_decide (err = SA_AIS_OK)) (addAdminOwnerFor dn scope ;; mret ()) ;;
    mret err.

Definition lockDn (numInstances : Z) (dn : string) (scope : Z) : X MafReturnT :=
  immErr ← checkSetAdminOwner numInstances dn scope;
  t ← get;
  mret (if bool_decide (immErr = SA_AIS_OK) || bool_decide (immErr = SA_AIS_ERR_NOT_EXIST) then MafOk
        else if isAdminOwnerLockedByAnotherTx numInstances immErr t then MafObjectLocked
        else if bool_decide (immErr = SA_AIS_ERR_EXIST) then MafObjectLocked
        else MafFailure).

Definition releaseAdminOwner (dn : string) (scope : Z) : X SaAisErrorT :=
  t ← get;
  if bool_decide (dn = "") || negb (isAdminOwnerFor dn scope t) then mret SA_AIS_OK
  else
    err ← run (ImmCmdOmAdminOwnerRelease env [dn] scope);
    when (bool_decide (err = SA_AIS_OK)) (removeAdminOwnerFor dn scope ;; mret ()) ;;
    mret err.
Definition unLockDnOnFailure (dn : string) (scope : Z) : X MafReturnT :=
  immErr ← releaseAdminOwner dn scope;
  mret (if bool_decide (immErr <> SA_AIS_OK) then MafObjectLocked else MafOk).

(** ** [OamSAPrepare] on the context *)

(** IMM has refused an operation: what [OamSAPrepare] answers. *)
Definition refused (immErr : SaAisErrorT) : X MafReturnT :=
  if bool_decide (immErr = SA_AIS_ERR_FAILED_OPERATION) then
    r ← getAndForwardErrorStrings true;
    mret (if (snd r : bool) then MafCommitFailed else MafFailure)
  else getAndForwardErrorStrings false ;; mret MafFailure.

Definition take_ownership (numInstances : Z) (dn : string) (scope : Z) : X MafReturnT :=
  if lock_mo_for_config_change then mret MafOk else lockDn numInstances dn scope.

(** The loops: [None] when all went well, or the answer of [OamSAPrepare]. *)
Fixpoint create_objects (numInstances : Z) (l : list CreatedObject) : X (option MafReturnT) :=
  match l with
  | [] => mret None
  | o :: l =>
      retVal ← take_ownership numInstances (parentName o) SA_IMM_ONE;
      if bool_decide (retVal <> MafOk) then mret (Some retVal)
      else
        immErr ← run (ImmCmdOmCcbObjectCreate env (parentName o) (className o) (attrValues_pp o));
        if bool_decide (immErr <> SA_AIS_OK) then rc ← refused immErr; mret (Some rc)
        else create_objects numInstances l
  end.
Fixpoint delete_objects (numInstances : Z) (l : list string) : X (option MafReturnT) :=
  match l with
  | [] => mret None
  | dn :: l =>
      retVal ← take_ownership numInstances dn SA_IMM_SUBTREE;
      if bool_decide (retVal <> MafOk) then mret (Some retVal)
      else
        immErr ← run (ImmCmdOmCcbObjectDelete env dn);
        if bool_decide (immErr <> SA_AIS_OK) then rc ← refused immErr; modify (set_delete_failed true) ;; mret (Some rc)
        else delete_objects numInstances l
  end.
Fixpoint modify_objects (numInstances : Z) (l : list ModifiedObject) : X (option MafReturnT) :=
  match l with
  | [] => mret None
  | o :: l =>
      retVal ← take_ownership numInstances (objectName o) SA_IMM_ONE;
      if bool_decide (retVal <> MafOk) then mret (Some retVal)
      else
        immErr ← run (ImmCmdOmCcbObjectModify env (objectName o) (attrMods_pp o));
        if bool_decide (immErr <> SA_AIS_OK) then rc ← refused immErr; mret (Some rc)
        else modify_objects numInstances l
  end.

(** A CCB is filled, from the created objects on. *)
Definition fill_ccb (numInstances : Z) : X MafReturnT :=
  t ← get;
  let creObj := ListOfCreatedObjects (lists (mCache t)) in
  when (0 <? length creObj)%nat (prepareListOfModifiedObjects creObj) ;;
  r ← create_objects numInstances (rev creObj);
  match r with
  | Some rc => mret rc
  | None =>
      modify (set_delete_failed false) ;;
      t ← get;
      let delObj := ListOfDeletedObjects (lists (mCache t)) in
      r ← delete_objects numInstances delObj;
      match r with
      | Some rc => mret rc
      | None =>
          modObj ← GetListOfModifiedObjects;
          r ← modify_objects numInstances modObj;
          match r with
          | Some rc => mret rc
          | None =>
              when ((length creObj =? 0)%nat && (length delObj =? 0)%nat && (length modObj =? 0)%nat) (modify (set_empty true)) ;;
              mret MafOk
          end
      end
  end.
Definition prepare (numInstances : Z) : X MafReturnT :=
  clearFinalModifiedObjectsList ;;
  modify (set_empty false) ;;
  t ← get;
  if bool_decide (mImmCcbCreatedStatus t = ImmCcbNotCreated) then
    immErr ← run (ImmCmdOmCcbInit env);
    if bool_decide (immErr <> SA_AIS_OK) then mret MafFailure
    else modify (set_status ImmCcbCreated) ;; fill_ccb numInstances
  else mret MafOk.

(** ** [releaseAdminOwnerForDn] on the context *)
Fixpoint release_all (scope : Z) (l : list string) : X () :=
  match l with
  | [] => mret ()
  | dn :: l => releaseAdminOwner dn scope ;; release_all scope l
  end.
Fixpoint release_deleted (l : list string) : X () :=
  match l with
  | [] => mret ()
  | dn :: l =>
      (if bool_decide (dn = "") then mret ()
       else
         t ← get;
         failed ← of_option Undefined (ccbDeleteFailed t);
         if (failed : bool) then releaseAdminOwner dn SA_IMM_SUBTREE ;; mret ()
         else if isAdminOwnerFor dn SA_IMM_SUBTREE t then removeAdminOwnerFor dn SA_IMM_SUBTREE ;; mret () else mret ()) ;;
      release_deleted l
  end.
Definition release_owners : X () :=
  t ← get;
  release_all SA_IMM_ONE (parentName <$> rev (ListOfCreatedObjects (lists (mCache t)))) ;;
  release_deleted (ListOfDeletedObjects (lists (mCache t))) ;;
  t ← get;
  release_all SA_IMM_ONE (objectName <$> finalModifiedObjectsList (mCache t)) ;;
  clearFinalModifiedObjectsList.
End bridge.
