(* ===== verification/TxSpi.v ===== *)
(** * Transactions: all of them ([OamSATransactionRepository.cc], [OamSAImmBridge.cc])

    [Repo]: the contexts that exist and the map from the handles of transactions to them.  A context
    is destroyed when the last pointer to it goes: when its entry is erased or
    replaced, or at the end of the function that still holds it.  The
    functions that the MAF calls ([OamSATransactionalResource.cc]) look the context up first. *)
From Stdlib Require Import ZArith Lia.
From stdpp Require Import base gmap list strings pretty.
From S2P Require Import Prelude StdMap Codes NtfData TxData TxCommands TxBridge.

Open Scope Z_scope.

Record Repo (D : Type) := MkRepo {
  contexts : gmap ptr (TxContext D);
  theContextMap : StdMap Z ptr;
  myOwnerIndex : Z;
  numInstances : Z
}.
Arguments MkRepo {D} _ _ _ _.
Arguments contexts {D} _.
Arguments theContextMap {D} _.
Arguments myOwnerIndex {D} _.
Arguments numInstances {D} _.

Section setters.
Context {D : Type}.
Implicit Types (s : Repo D).
Definition set_contexts h s : Repo D := MkRepo h (theContextMap s) (myOwnerIndex s) (numInstances s).
Definition set_map m s : Repo D := MkRepo (contexts s) m (myOwnerIndex s) (numInstances s).
Definition set_index i s : Repo D := MkRepo (contexts s) (theContextMap s) i (numInstances s).
Definition set_instances n s : Repo D := MkRepo (contexts s) (theContextMap s) (myOwnerIndex s) n.
Definition Repo_init : Repo D := MkRepo ∅ [] 0 0.
End setters.

(** A program on the context at [p]. *)
Definition on {D A} (p : ptr) (m : Z -> M txE (TxContext D) A) : M txE (Repo D) A := fun c =>
  match contexts (fst c) !! p with
  | None => (Exit BadPointer, c)
  | Some t =>
      match m (numInstances (fst c)) (t, snd c) with
      | (o, (t', tr)) => (o, (set_contexts (<[p := t']> (contexts (fst c))) (fst c), tr))
      end
  end.

Section spi.
Context {D : Type} `{CacheLists D} (env : environment txE).
Context (isCCNameLM lock_mo_for_config_change : bool).
(** [MafOamSpiTransactionStruct_p_v2] is set. *)
Context (transaction_spi : bool).
Abbreviation R := (M txE (Repo D)).
Abbreviation run m := (fun _ : Z => execute env isCCNameLM m).

(** ** The repository *)

(** [new TxContext], [~TxContext] *)
Definition new_context (isCmIf : bool) : R ptr :=
  cache ← OamSACache_new env no_objects;
  s ← get;
  let p := fresh (dom (contexts s)) in
  put (set_instances (numInstances s + 1) (set_contexts (<[p := TxContext_new isCmIf cache]> (contexts s)) s)) ;;
  mret p.
Definition delete_context (p : ptr) : R () :=
  on p (fun _ => TxContext_delete env) ;;
  modify (fun s => set_instances (numInstances s - 1) (set_contexts (delete p (contexts s)) s)).

Definition newTxContext (txh : Z) : R (option ptr) :=
  txContext ← new_context false;
  err ← on txContext (run (ImmCmdOmInit env));
  if bool_decide (err <> SA_AIS_OK) then delete_context txContext ;; mret None
  else
    err ← on txContext (run (ImmCmdOmAccessorInit env));
    if bool_decide (err <> SA_AIS_OK) then delete_context txContext ;; mret None
    else
      s ← get;
      put (set_index (wrap_s 32 (myOwnerIndex s + 1)) s) ;;
      err ← on txContext (run (ImmCmdOmAdminOwnerInit env (myOwnerName +:+ pretty (myOwnerIndex s)) true));
      if bool_decide (err <> SA_AIS_OK) then delete_context txContext ;; mret None
      else
        s ← get;
        match map_find (theContextMap s) txh with
        | None => put (set_map (map_insert (theContextMap s) txh txContext) s)
        | Some old => put (set_map (map_update (theContextMap s) txh (fun _ => txContext)) s) ;; delete_context old
        end ;;
        mret (Some txContext).
Definition getTxContext (txh : Z) : R (option ptr) := gets (fun s => map_find (theContextMap s) txh).
(** The entry is erased; the context that it held is destroyed once nothing refers to it. *)
Definition delTxContext (txh : Z) : R bool :=
  s ← get;
  match map_find (theContextMap s) txh with
  | Some _ => put (set_map (map_erase (theContextMap s) txh) s) ;; mret true
  | None => mret false
  end.
Fixpoint delete_contexts (l : list ptr) : R () :=
  match l with [] => mret () | p :: l => delete_context p ;; delete_contexts l end.
Definition ClearContextMap : R () :=
  s ← get; put (set_map [] s) ;; delete_contexts (theContextMap s).*2.

(** ** What the MAF calls *)
Definition OamSAJoin (txHandle : Z) : R MafReturnT :=
  p ← newTxContext txHandle;
  match p with
  | Some _ => if transaction_spi then call env (registerParticipant txHandle) ;; mret MafOk else mret MafFailure
  | None => mret MafFailure
  end.

Definition OamSAPrepare (txHandle : Z) : R MafReturnT :=
  p ← getTxContext txHandle;
  match p with
  | None => mret MafNotExist
  | Some p => on p (prepare env isCCNameLM lock_mo_for_config_change)
  end.

Definition releaseAdminOwnerForDn (txHandle : Z) : R MafReturnT :=
  p ← getTxContext txHandle;
  match p with
  | None => mret MafNotExist
  | Some p => on p (fun _ => release_owners env isCCNameLM) ;; mret MafOk
  end.

(** The operation failed: true when IMM has aborted for want of resources, and one may start again. *)
Definition handleCcbOnFailedOperation (txHandle : Z) : R bool :=
  p ← getTxContext txHandle;
  p ← of_option BadPointer p;
  r ← on p (fun _ => getAndForwardErrorStrings env true);
  if (snd r : bool) then
    on p (run (ImmCmdOmCcbFinalize env)) ;;
    releaseAdminOwnerForDn txHandle ;;
    mret true
  else releaseAdminOwnerForDn txHandle ;; mret false.

(** The loop of [handlePrepareOnImmAbort]. *)
Fixpoint prepare_again (txHandle : Z) (p : ptr) (retVal : MafReturnT) (tries : nat) : R MafReturnT :=
  match tries with
  | O => mret retVal
  | S tries =>
      if bool_decide (retVal = MafCommitFailed) then
        on p (run (ImmCmdOmCcbFinalize env)) ;;
        releaseAdminOwnerForDn txHandle ;;
        on p (fun _ => modify (set_status ImmCcbNotCreated)) ;;
        call env (usleep MICROS_PER_SEC) ;;
        retVal ← OamSAPrepare txHandle;
        prepare_again txHandle p retVal tries
      else mret retVal
  end.
Definition handlePrepareOnImmAbort (txHandle : Z) (fwdErrStrings : bool) : R MafReturnT :=
  p ← getTxContext txHandle;
  match p with
  | None => mret MafNotExist
  | Some p =>
      retVal ← prepare_again txHandle p MafCommitFailed IMM_ABORT_RETRIES_COUNT;
      if bool_decide (retVal = MafCommitFailed) then
        when fwdErrStrings (on p (fun _ => getAndForwardErrorStrings env false) ;; mret ()) ;;
        mret MafFailure
      else mret retVal
  end.

(** [OamSAValidate] gives a CCB up: aborted, the owners released. *)
Definition abort_and_release (txHandle : Z) (p : ptr) : R () :=
  immErr ← on p (run (ImmCmdOmCcbAbort env));
  when (bool_decide (immErr <> SA_AIS_OK)) (on p (fun _ => getAndForwardErrorStrings env false) ;; mret ()) ;;
  releaseAdminOwnerForDn txHandle ;;
  mret ().

(** The CCB of an earlier call is aborted first: false when that fails. *)
Definition abort_previous (p : ptr) : R bool :=
  status ← on p (fun _ => gets mImmCcbCreatedStatus);
  if bool_decide (status = ImmCcbCreated) then
    on p (fun _ => modify (set_status ImmCcbNotCreated)) ;;
    immErr ← on p (run (ImmCmdOmCcbAbort env));
    if bool_decide (immErr <> SA_AIS_OK) then
      on p (fun _ => getAndForwardErrorStrings env false) ;;
      mret (bool_decide (immErr = SA_AIS_ERR_BAD_HANDLE))
    else mret true
  else mret true.

(** The loop around [ccbValidate]: [None] when the function returns with [MafOk] and the result false;
    otherwise the last answers of prepare and of IMM. *)
Fixpoint validate_again (txHandle : Z) (p : ptr) (retVal : MafReturnT) (immErr : SaAisErrorT) (tries : nat) : R (option (MafReturnT * SaAisErrorT)) :=
  match tries with
  | O => mret (Some (retVal, immErr))
  | S tries =>
      if bool_decide (immErr = SA_AIS_ERR_FAILED_OPERATION) then
        ret ← handleCcbOnFailedOperation txHandle;
        if negb ret then mret None
        else
          on p (fun _ => modify (set_status ImmCcbNotCreated)) ;;
          call env (usleep MICROS_PER_SEC) ;;
          retVal ← OamSAPrepare txHandle;
          retVal ← (if bool_decide (retVal = MafCommitFailed) then handlePrepareOnImmAbort txHandle false else mret retVal : R MafReturnT);
          if bool_decide (retVal = MafOk) then
            immErr ← on p (run (ImmCmdOmCcbValidate env));
            validate_again txHandle p retVal immErr tries
          else mret (Some (retVal, immErr))
      else mret (Some (retVal, immErr))
  end.
(** The answer and [*result]. *)
Definition OamSAValidate (txHandle : Z) : R (MafReturnT * bool) :=
  p ← getTxContext txHandle;
  match p with
  | None => mret (MafNotExist, true)
  | Some p =>
      go_on ← abort_previous p;
      if negb go_on then mret (MafFailure, true)
      else
        retVal ← OamSAPrepare txHandle;
        retVal ← (if bool_decide (retVal = MafCommitFailed) then handlePrepareOnImmAbort txHandle true else mret retVal : R MafReturnT);
        if bool_decide (retVal <> MafOk) then abort_and_release txHandle p ;; mret (retVal, true)
        else
          empty ← on p (fun _ => gets isCcbEmpty);
          if (empty : bool) then mret (retVal, true)
          else
            immErr ← on p (run (ImmCmdOmCcbValidate env));
            r ← validate_again txHandle p retVal immErr IMM_ABORT_RETRIES_COUNT;
            match r with
            | None => mret (MafOk, false)
            | Some (retVal, immErr) =>
                if bool_decide (retVal <> MafOk) then
                  on p (fun _ => getAndForwardErrorStrings env false) ;;
                  abort_and_release txHandle p ;;
                  mret (retVal, false)
                else if bool_decide (immErr <> SA_AIS_OK) then
                  on p (fun _ => getAndForwardErrorStrings env false) ;;
                  releaseAdminOwnerForDn txHandle ;;
                  mret (retVal, false)
                else mret (retVal, true)
            end
  end.

(** The loop of [OamSACommit]: [None] when the function returns [MafCommitFailed] at once, otherwise the last answer
    of IMM. *)
Fixpoint apply_again (txHandle : Z) (p : ptr) (immErr : SaAisErrorT) (tries : nat) : R (option SaAisErrorT) :=
  match tries with
  | O => mret (Some immErr)
  | S tries =>
      if bool_decide (immErr = SA_AIS_ERR_FAILED_OPERATION) then
        retVal ← handleCcbOnFailedOperation txHandle;
        if negb retVal then mret None
        else
          call env (usleep MICROS_PER_SEC) ;;
          r ← OamSAValidate txHandle;
          if bool_decide (fst r = MafOk) && snd r then
            on p (fun _ => modify (set_status ImmCcbNotCreated)) ;;
            immErr ← on p (run (ImmCmdOmCcbApply env));
            apply_again txHandle p immErr tries
          else mret (Some immErr)
      else mret (Some immErr)
  end.
Definition OamSACommit (txHandle : Z) : R MafReturnT :=
  p ← getTxContext txHandle;
  match p with
  | None => mret MafNotExist
  | Some p =>
      on p (fun _ => modify (set_status ImmCcbNotCreated)) ;;
      immErr ← on p (run (ImmCmdOmCcbApply env));
      r ← apply_again txHandle p immErr IMM_ABORT_RETRIES_COUNT;
      match r with
      | None => mret MafCommitFailed
      | Some immErr =>
          if bool_decide (immErr <> SA_AIS_OK) then
            on p (fun _ => getAndForwardErrorStrings env false) ;;
            releaseAdminOwnerForDn txHandle ;;
            mret MafCommitFailed
          else
            rc ← releaseAdminOwnerForDn txHandle;
            mret (if bool_decide (rc = MafNotExist) then MafNotExist else MafOk)
      end
  end.

Definition OamSAAbort (txHandle : Z) : R MafReturnT := mret MafOk.

(** The context is destroyed at the end, when the last pointer to it goes. *)
Definition OamSAFinish (txHandle : Z) : R MafReturnT :=
  p ← getTxContext txHandle;
  match p with
  | None => mret MafNotExist
  | Some p =>
      h ← on p (fun _ => gets mCcbHandle);
      when (negb (h =? 0)) (on p (run (ImmCmdOmCcbFinalize env)) ;; mret ()) ;;
      b ← delTxContext txHandle;
      when b (delete_context p) ;;
      mret (if (b : bool) then MafOk else MafFailure)
  end.
End spi.
