(* ===== verification/TxFacts.v ===== *)
(** * Transactions: what the programs on one context leave in the history

    [ccb_mark]: the calls by which a CCB is opened, filled and applied, when they succeed.
    [kept]: the part of a context that locking and messages do not touch. *)
From Stdlib Require Import ZArith Lia Ascii.
From stdpp Require Import base gmap list strings.
From S2P Require Import Prelude Marks StdMap Codes NtfData TxData TxCommands TxBridge.

Open Scope Z_scope.

(** ** Marks *)
Inductive ccb_event :=
| CcbOpened (h : Z)
| CcbCreated (h : Z) (class parent : string) (attrs : list SaImmAttrValuesT_2)
| CcbDeleted (h : Z) (dn : string)
| CcbModified (h : Z) (dn : string) (mods : list SaImmAttrValuesT_2)
| CcbApplied (h : Z).

Definition if_ok (rc : SaAisErrorT) (x : ccb_event) : option ccb_event := if bool_decide (rc = SA_AIS_OK) then Some x else None.
Definition ccb_mark (e : event txE) : option ccb_event :=
  match e with
  | Ev (saImmOmCcbInitialize _) r => if_ok (fst r) (CcbOpened (snd r))
  | Ev (saImmOmCcbObjectCreate_2 h class parent attrs) rc => if_ok rc (CcbCreated h class (default ""%string parent) attrs)
  | Ev (saImmOmCcbObjectDelete h dn) rc => if_ok rc (CcbDeleted h dn)
  | Ev (saImmOmCcbObjectModify_2 h dn mods) rc => if_ok rc (CcbModified h dn mods)
  | Ev (saImmOmCcbApply h) rc => if_ok rc (CcbApplied h)
  | _ => None
  end.
Definition marks_of (rc : SaAisErrorT) (x : ccb_event) : list ccb_event := if bool_decide (rc = SA_AIS_OK) then [x] else [].

(** ** What a CCB should hold *)

(** The attributes of a new object whose default value is to be removed: those behind the first
    occurrence of the key count, and those before. *)
Fixpoint skip_key (key : string) (l : list SaImmAttrValuesT_2) : list SaImmAttrValuesT_2 :=
  match l with
  | [] => []
  | a :: l => if bool_decide (key = attrName a) then l else a :: skip_key key l
  end.
Definition no_default (o : CreatedObject) (a : SaImmAttrValuesT_2) : bool :=
  (length (attrValues a) =? 0)%nat && default false (map_find (defaultvaluesMapInfo o) (attrName a)).
Definition key_of (o : CreatedObject) : string := default (immName o) (before "=" (immName o)).
Definition reset_of (o : CreatedObject) : option ModifiedObject :=
  if bool_decide (key_of o = "id"%string) then None
  else if bool_decide (key_of o ∈ attrName <$> attrValues_pp o) then
    match List.filter (no_default o) (skip_key (key_of o) (attrValues_pp o)) with
    | [] => None
    | mods => Some (MkModified (immName o) mods)
    end
  else None.

Section content.
Context {D : Type} `{CacheLists D}.
Definition creates (h : Z) (l : list CreatedObject) : list ccb_event := (fun o => CcbCreated h (className o) (parentName o) (attrValues_pp o)) <$> l.
Definition deletes (h : Z) (l : list string) : list ccb_event := CcbDeleted h <$> l.
Definition modifies (h : Z) (l : list ModifiedObject) : list ccb_event := (fun o => CcbModified h (objectName o) (attrMods_pp o)) <$> l.
(** New objects in reverse order of the list (parents first), deleted objects, modified ones. *)
Definition modified (d : D) : list ModifiedObject := omap reset_of (ListOfCreatedObjects d) ++ ListOfModifiedObjects d.
Definition content (d : D) (h : Z) : list ccb_event :=
  creates h (rev (ListOfCreatedObjects d)) ++ deletes h (ListOfDeletedObjects d) ++ modifies h (modified d).
End content.

(** A proper part from the start. *)
Definition part_of (l l' : list ccb_event) : Prop := exists x k, l' = l ++ x :: k.
Lemma part_of_app l l' k : part_of l l' -> part_of l (l' ++ k).
Proof. intros (x & k' & ->). exists x, (k' ++ k). by rewrite <- app_assoc. Qed.
Lemma part_of_behind l l' k : part_of l l' -> part_of (k ++ l) (k ++ l').
Proof. intros (x & k' & ->). exists x, k'. by rewrite app_assoc. Qed.
Lemma part_of_nil x l : part_of [] (x :: l).
Proof. by exists x, l. Qed.

Section facts.
Context {D : Type} `{CacheLists D} (env : environment txE) (lm lock_mo : bool).
Implicit Types (t : TxContext D).
Abbreviation X := (M txE (TxContext D)).

Definition kept t := (lists (mCache t), mCcbHandle t, mImmCcbCreatedStatus t, isCcbEmpty t, finalModifiedObjectsList (mCache t)).
Abbreviation calm m := (Marks.calm ccb_mark kept m).
Abbreviation emits := (Marks.emits ccb_mark).

Lemma calm_when b (m : X ()) : calm m -> calm (when b m).
Proof. destruct b; [done|]. intros _. apply calm_ret. Qed.
Lemma calm_gets {A} (f : TxContext D -> A) : calm (gets f).
Proof. intros s Q HQ tr. apply sat_post, sat_gets. exists []. rewrite app_nil_r. split; [done|]. by apply HQ. Qed.

Lemma calm_next {A B} (m : X A) (k : A -> X B) t Q : calm m -> (forall a t', kept t' = kept t -> emits (k a) t' Q) -> emits (m ≫= k) t Q.
Proof. apply calm_then. Qed.

(** The structural rules; what is left are the programs without a rule. *)
Ltac settle :=
  repeat lazymatch goal with
    | |- Marks.calm _ _ (mbind _ _) => apply calm_bind; [|intros ?]
    | |- Marks.calm _ _ (mret _) => apply calm_ret
    | |- Marks.calm _ _ get => apply calm_get
    | |- Marks.calm _ _ (gets _) => apply calm_gets
    | |- Marks.calm _ _ (exit _) => apply calm_exit
    | |- Marks.calm _ _ (of_option _ _) => apply calm_of_option
    | |- Marks.calm _ _ (when _ _) => apply calm_when
    | |- Marks.calm _ _ (modify _) => apply calm_modify; reflexivity
    | |- Marks.calm _ _ (call _ _) => apply calm_call; intros ?; reflexivity
    | |- Marks.calm _ _ (match ?x with _ => _ end) => destruct x
    | |- Marks.calm _ _ (let _ := _ in _) => cbv zeta
    end.

(** ** Commands *)
Lemma calm_attempts {R} (code : R -> SaAisErrorT) (m : X R) n : calm m -> calm (attempts env lm code m n).
Proof. intros Hm. induction n as [|n IH]; cbn [attempts]; settle; done. Qed.
Lemma calm_execute (m : X SaAisErrorT) : calm m -> calm (execute env lm m).
Proof. apply calm_attempts. Qed.
Lemma calm_execute_get {A} (m : X (SaAisErrorT * A)) : calm m -> calm (execute_get env lm m).
Proof. apply calm_attempts. Qed.
Lemma calm_set_again (m : X SaAisErrorT) err n : calm m -> calm (set_again env m err n).
Proof. intros Hm. revert err. induction n as [|n IH]; intros err; cbn [set_again]; settle; [done|apply IH]. Qed.

(** A command that leaves its mark when it succeeds. *)
Definition marked (m : X SaAisErrorT) (x : Z -> ccb_event) : Prop :=
  forall t (Q : SaAisErrorT -> TxContext D -> list ccb_event -> Prop),
    (forall rc t', kept t' = kept t -> Q rc t' (marks_of rc (x (mCcbHandle t)))) -> emits m t Q.
Lemma kept_handle t t' : kept t' = kept t -> mCcbHandle t' = mCcbHandle t.
Proof. by intros [=]. Qed.
Lemma marked_execute (m : X SaAisErrorT) x : marked m x -> marked (execute env lm m) x.
Proof.
  intros Hm. unfold execute. generalize (pred mRetries) as n. intros n. induction n as [|n IH]; intros t Q HQ; cbn [attempts].
  all: apply emits_bind, Hm; intros rc t' Ht; unfold id at 1; destruct (to_repeat lm rc) eqn:Er; [|apply emits_ret; rewrite app_nil_r; by apply HQ].
  all: assert (rc <> SA_AIS_OK) as Hrc by (intros ->; by destruct lm); unfold marks_of at 1; rewrite bool_decide_false by done; cbn [app].
  all: apply emits_bind, emits_call; intros []; cbn [app ccb_mark].
  - apply emits_ret. specialize (HQ rc t' Ht). unfold marks_of in HQ. by rewrite bool_decide_false in HQ.
  - apply IH. intros rc' t'' Ht'. rewrite (kept_handle _ _ Ht). apply HQ. congruence.
Qed.
Lemma marked_call (e : Z -> txE SaAisErrorT) x :
  (forall h rc, ccb_mark (Ev (e h) rc) = if_ok rc (x h)) -> marked (t ← get; call env (e (mCcbHandle t))) x.
Proof.
  intros He t Q HQ. apply emits_bind, emits_get, emits_call. intros rc. rewrite He. specialize (HQ rc t eq_refl). unfold if_ok, marks_of in *. by destruct (bool_decide (rc = SA_AIS_OK)).
Qed.
Lemma marked_calm {A} (k : X A) (m : A -> X SaAisErrorT) x : calm k -> (forall a, marked (m a) x) -> marked (k ≫= m) x.
Proof. intros Hk Hm t Q HQ. apply emits_bind, Hk. intros a t' Ht. apply Hm. intros rc t'' Ht'. rewrite (kept_handle _ _ Ht). apply HQ. congruence. Qed.

Lemma root_name s : default ""%string (toSaNameT s) = s.
Proof. unfold toSaNameT. by case_bool_decide. Qed.
Lemma marked_create parent class attrs : marked (ImmCmdOmCcbObjectCreate env parent class attrs) (fun h => CcbCreated h class parent attrs).
Proof.
  intros t Q HQ. unfold ImmCmdOmCcbObjectCreate. apply emits_bind, emits_get, emits_bind, emits_call. intros rc. cbn [ccb_mark app].
  apply emits_bind. apply (calm_when _ (call env (saImmOmClassDescriptionMemoryFree_2 (mImmHandle t)) ;; mret ())); [settle|]. intros _ t' Ht.
  apply emits_call. intros rc'. cbn [ccb_mark app]. rewrite root_name. specialize (HQ rc' t' Ht).
  unfold if_ok, marks_of in *. by destruct (bool_decide (rc' = SA_AIS_OK)).
Qed.
Lemma marked_delete dn : marked (ImmCmdOmCcbObjectDelete env dn) (fun h => CcbDeleted h dn).
Proof. by apply (marked_call (fun h => saImmOmCcbObjectDelete h dn)). Qed.
Lemma marked_modify dn mods : marked (ImmCmdOmCcbObjectModify env dn mods) (fun h => CcbModified h dn mods).
Proof. by apply (marked_call (fun h => saImmOmCcbObjectModify_2 h dn mods)). Qed.
Lemma marked_apply : marked (ImmCmdOmCcbApply env) CcbApplied.
Proof. by apply (marked_call saImmOmCcbApply). Qed.

(** ** Messages and ownership touch nothing else *)
Lemma calm_forward b l : calm (forward env b l).
Proof. induction l as [|s l IH]; cbn [forward]; settle. exact IH. Qed.
Lemma calm_getAndForward b : calm (getAndForwardErrorStrings env b).
Proof. unfold getAndForwardErrorStrings. settle. apply calm_forward. Qed.
Lemma calm_refused rc : calm (refused env rc).
Proof. unfold refused. settle; apply calm_getAndForward. Qed.
Lemma calm_ownerSet l scope : calm (ImmCmdOmAdminOwnerSet env l scope).
Proof. unfold ImmCmdOmAdminOwnerSet. settle. apply calm_set_again. settle. Qed.
Lemma calm_getAdminOwner dn : calm (getAdminOwner env lm dn).
Proof. unfold getAdminOwner. settle; apply calm_execute_get; unfold ImmCmdOmAccessorGet; settle. Qed.
Lemma calm_set_after_exist dn scope : calm (set_after_exist env lm dn scope).
Proof.
  unfold set_after_exist. settle; first [apply calm_getAdminOwner|apply calm_execute, calm_ownerSet|apply calm_execute; unfold ImmCmdOmAdminOwnerClear; settle].
Qed.
Lemma calm_addAdminOwnerFor dn scope : calm (addAdminOwnerFor dn scope).
Proof. unfold addAdminOwnerFor. settle. Qed.
Lemma calm_removeAdminOwnerFor dn scope : calm (removeAdminOwnerFor dn scope).
Proof. unfold removeAdminOwnerFor. settle. Qed.
Lemma calm_checkSetAdminOwner n dn scope : calm (checkSetAdminOwner env lm n dn scope).
Proof.
  unfold checkSetAdminOwner. settle; first [apply calm_execute, calm_ownerSet|apply calm_set_after_exist|apply calm_addAdminOwnerFor].
Qed.
Lemma calm_take_ownership n dn scope : calm (take_ownership env lm lock_mo n dn scope).
Proof. unfold take_ownership, lockDn. settle. apply calm_checkSetAdminOwner. Qed.
Lemma calm_releaseAdminOwner dn scope : calm (releaseAdminOwner env lm dn scope).
Proof.
  unfold releaseAdminOwner. settle; first [apply calm_removeAdminOwnerFor|apply calm_execute; unfold ImmCmdOmAdminOwnerRelease; settle].
Qed.
Lemma calm_release_all scope l : calm (release_all env lm scope l).
Proof. induction l as [|dn l IH]; cbn [release_all]; settle; [apply calm_releaseAdminOwner|exact IH]. Qed.
Lemma calm_release_deleted l : calm (release_deleted env lm l).
Proof. induction l as [|dn l IH]; cbn [release_deleted]; settle; first [apply calm_releaseAdminOwner|apply calm_removeAdminOwnerFor|exact IH]. Qed.

(** ** The defaults to remove *)
Lemma calm_default_loop o key l b mods : calm (default_loop env o key l b mods).
Proof.
  revert b mods. induction l as [|a l IH]; intros b mods; cbn [default_loop]; unfold fetchAttrValue, struct_key; settle; apply IH.
Qed.
(** What comes of the loop: for the key of a struct nothing, for other keys the attributes to empty. *)
Lemma default_loop_id o l b mods t : emits (default_loop env o "id" l b mods) t (fun r t' l' => kept t' = kept t /\ l' = [] /\ snd r = mods).
Proof.
  revert b mods t. induction l as [|a l IH]; intros b mods t; cbn [default_loop]; [by apply emits_ret|]. rewrite bool_decide_true by done.
  apply calm_next; [unfold fetchAttrValue; settle|]. intros f t1 H1. apply calm_next; [unfold struct_key; settle|]. intros k t2 H2.
  destruct (snd k); [apply emits_ret; split; [congruence|done]|]. eapply emits_mono; [apply IH|]. intros r t' l' (? & ? & ?). split; [congruence|done].
Qed.
Lemma default_loop_key o key l b mods t (Q : bool * list SaImmAttrValuesT_2 -> TxContext D -> list ccb_event -> Prop) : key <> "id"%string ->
  Q (b || bool_decide (key ∈ attrName <$> l), mods ++ List.filter (no_default o) (if b then l else skip_key key l)) t [] ->
  emits (default_loop env o key l b mods) t Q.
Proof.
  intros Hid. revert b mods. induction l as [|a l IH]; intros b mods HQ; cbn [default_loop].
  { apply emits_ret. rewrite bool_decide_false in HQ by (by intros ?%elem_of_nil). rewrite orb_false_r in HQ. destruct b; cbn in HQ; by rewrite app_nil_r in HQ. }
  rewrite bool_decide_false by done. cbn [fmap list_fmap skip_key] in HQ.
  assert (Hin : key <> attrName a -> bool_decide (key ∈ attrName a :: (attrName <$> l)) = bool_decide (key ∈ attrName <$> l)).
  { intros Hne. apply bool_decide_ext. rewrite elem_of_cons. naive_solver. }
  destruct b; cbn [negb andb orb] in *.
  - unfold no_default in HQ at 1. cbn [List.filter] in HQ. destruct (attrValues a) as [|v vs] eqn:Ev; cbn [length Nat.eqb Nat.ltb Nat.leb andb] in *.
    + destruct (default false (map_find (defaultvaluesMapInfo o) (attrName a))); apply IH; cbn [orb]; [by rewrite <- app_assoc|done].
    + by apply IH.
  - destruct (decide (key = attrName a)) as [Hk|Hk].
    + rewrite (bool_decide_true (key = attrName a)) in HQ |- * by done. apply IH. cbn [orb]. rewrite bool_decide_true in HQ by (rewrite Hk; left). done.
    + rewrite (bool_decide_false (key = attrName a)) in HQ |- * by done. rewrite Hin in HQ by done. cbn [List.filter] in HQ. unfold no_default in HQ at 1. destruct (attrValues a) as [|v vs] eqn:Ev; cbn [length Nat.eqb Nat.ltb Nat.leb andb] in *.
      * destruct (default false (map_find (defaultvaluesMapInfo o) (attrName a))); apply IH; cbn [orb]; [by rewrite <- app_assoc|done].
      * by apply IH.
Qed.
Lemma emits_defaults l t : emits (defaults_to_remove env l) t (fun r t' l' => kept t' = kept t /\ l' = [] /\ r = omap reset_of l).
Proof.
  revert t. induction l as [|o l IH]; intros t; cbn [defaults_to_remove]; [by apply emits_ret|]. cbv zeta. fold (key_of o).
  assert (Hrest : forall t1 r, kept t1 = kept t -> (if negb (fst r) || bool_decide (snd r = []) then None else Some (MkModified (immName o) (snd r))) = reset_of o ->
    emits (rest ← defaults_to_remove env l; mret (if negb (fst r) || bool_decide (snd r = []) then rest else MkModified (immName o) (snd r) :: rest)) t1
      (fun r t' l' => kept t' = kept t /\ l' = [] /\ r = omap reset_of (o :: l))).
  { intros t1 r H1 Hr. apply emits_bind. eapply emits_mono; [apply IH|]. intros rest t2 l2 (H2 & -> & ->). apply emits_ret. split; [congruence|]. split; [done|].
    cbn. rewrite <- Hr. by destruct (_ || _). }
  unfold reset_of in Hrest. apply emits_bind. destruct (decide (key_of o = "id"%string)) as [Hid|Hid].
  - rewrite Hid in *. eapply emits_mono; [apply default_loop_id|]. intros r t1 l1 (H1 & -> & Hr). apply Hrest; [done|]. rewrite Hr, orb_true_r. by rewrite bool_decide_true.
  - apply default_loop_key; [done|]. apply Hrest; [done|]. cbn [fst snd orb app]. rewrite (bool_decide_false (key_of o = _)) by done.
    destruct (bool_decide (key_of o ∈ _)); [|done]. cbn [negb orb]. by destruct (List.filter _ _).
Qed.

Lemma emits_prepareList l t : emits (prepareListOfModifiedObjects env l) t (fun _ t' l' => l' = [] /\
  kept t' = kept (set_cache (set_final (finalModifiedObjectsList (mCache t) ++ omap reset_of l) (mCache t)) t)).
Proof.
  unfold prepareListOfModifiedObjects. apply emits_bind. eapply emits_mono; [apply emits_defaults|]. intros mods t1 l1 (H1 & -> & ->).
  destruct (omap reset_of l) as [|m ms]; cbn [when length Nat.ltb Nat.leb].
  - apply emits_ret. split; [done|]. rewrite H1. unfold kept. cbn. by rewrite app_nil_r.
  - apply emits_modify. split; [done|]. injection H1 as E1 E2 E3 E4 E5. unfold kept. cbn. by rewrite E1, E2, E3, E4, E5.
Qed.

(** ** The loops *)

(** [fills m h l]: [m] makes the entries [l] of the CCB [h], all of them when it answers [None] and
    otherwise a proper part; it never answers [Some MafOk]. *)
Definition fills (m : X (option MafReturnT)) (l : Z -> list ccb_event) : Prop :=
  forall t, emits m t (fun r t' l' => kept t' = kept t /\
    match r with None => l' = l (mCcbHandle t) | Some rc => rc <> MafOk /\ part_of l' (l (mCcbHandle t)) end).

Lemma fills_ret : fills (mret None) (fun _ => []).
Proof. intros t. by apply emits_ret. Qed.
Lemma refused_not_ok rc t : emits (refused env rc) t (fun r t' l => kept t' = kept t /\ l = [] /\ r <> MafOk).
Proof.
  unfold refused. destruct (bool_decide _).
  - apply emits_bind, calm_getAndForward. intros [? []] t' Ht; by apply emits_ret.
  - apply emits_bind, calm_getAndForward. intros ? t' Ht. by apply emits_ret.
Qed.
Definition gives_up (m : X (option MafReturnT)) : Prop :=
  forall t, emits m t (fun r t' l => kept t' = kept t /\ l = [] /\ exists rc, r = Some rc /\ rc <> MafOk).
Lemma gives_up_refused rc (k : X ()) : calm k -> gives_up (r ← refused env rc; k ;; mret (Some r)).
Proof.
  intros Hk t. apply emits_bind. eapply emits_mono; [apply refused_not_ok|]. intros r t1 l1 (H1 & -> & Hr).
  apply calm_next; [done|]. intros _ t2 H2. apply emits_ret. split; [congruence|]. eauto.
Qed.
Lemma gives_up_refused' rc : gives_up (r ← refused env rc; mret (Some r)).
Proof. intros t. apply emits_bind. eapply emits_mono; [apply refused_not_ok|]. intros r t1 l1 (H1 & -> & Hr). apply emits_ret. eauto. Qed.

(** One object: ownership, the operation, and on to the rest. *)
Lemma fills_cons n dn scope (m : X SaAisErrorT) x (k : SaAisErrorT -> X (option MafReturnT)) (rest : X (option MafReturnT)) l :
  marked m x -> (forall rc, gives_up (k rc)) -> fills rest l ->
  fills (retVal ← take_ownership env lm lock_mo n dn scope;
         if bool_decide (retVal <> MafOk) then mret (Some retVal)
         else immErr ← execute env lm m;
              if bool_decide (immErr <> SA_AIS_OK) then k immErr else rest)
        (fun h => x h :: l h).
Proof.
  intros Hm Hk Hl t. apply calm_next; [apply calm_take_ownership|]. intros rv t1 H1. destruct (decide (rv = MafOk)) as [->|Hrv].
  2: { rewrite bool_decide_true by done. apply emits_ret. split; [done|]. split; [done|apply part_of_nil]. }
  rewrite bool_decide_false by (by intros []). apply emits_bind, (marked_execute m x); [done|]. intros rc t2 H2. unfold marks_of. destruct (decide (rc = SA_AIS_OK)) as [->|Hrc].
  - rewrite bool_decide_false, bool_decide_true by tauto. eapply emits_mono; [apply Hl|]. intros r t3 l3 [H3 Hr]. split; [congruence|].
    rewrite (kept_handle _ _ H1). rewrite (kept_handle _ _ H2), (kept_handle _ _ H1) in Hr. destruct r as [rc|]; [|by subst].
    destruct Hr as [? Hr]. split; [done|]. by apply (part_of_behind _ _ [_]).
  - rewrite bool_decide_true, bool_decide_false by done. eapply emits_mono; [apply Hk|]. intros r t3 l3 (H3 & -> & rc' & -> & Hr).
    split; [congruence|]. split; [done|apply part_of_nil].
Qed.
Lemma fills_create n l : fills (create_objects env lm lock_mo n l) (fun h => creates h l).
Proof.
  induction l as [|o l IH]; cbn [create_objects]; [apply fills_ret|].
  apply (fills_cons n _ _ _ (fun h => CcbCreated h (className o) (parentName o) (attrValues_pp o)) (fun rc => r ← refused env rc; mret (Some r)) _ (fun h => creates h l)); [apply marked_create|apply gives_up_refused'|exact IH].
Qed.
Lemma fills_delete n l : fills (delete_objects env lm lock_mo n l) (fun h => deletes h l).
Proof.
  induction l as [|dn l IH]; cbn [delete_objects]; [apply fills_ret|].
  apply (fills_cons n _ _ _ (fun h => CcbDeleted h dn) (fun rc => r ← refused env rc; modify (set_delete_failed true) ;; mret (Some r)) _ (fun h => deletes h l)); [apply marked_delete|intros rc; by apply gives_up_refused, calm_modify|exact IH].
Qed.
Lemma fills_modify n l : fills (modify_objects env lm lock_mo n l) (fun h => modifies h l).
Proof.
  induction l as [|o l IH]; cbn [modify_objects]; [apply fills_ret|].
  apply (fills_cons n _ _ _ (fun h => CcbModified h (objectName o) (attrMods_pp o)) (fun rc => r ← refused env rc; mret (Some r)) _ (fun h => modifies h l)); [apply marked_modify|apply gives_up_refused'|exact IH].
Qed.

(** ** A CCB is filled *)

(** What a change of the other parts leaves of [kept]. *)
Lemma kept_with t d h s e f :
  kept t = (d, h, s, e, f) -> lists (mCache t) = d /\ mCcbHandle t = h /\ mImmCcbCreatedStatus t = s /\ isCcbEmpty t = e /\ finalModifiedObjectsList (mCache t) = f.
Proof. by intros [= -> -> -> -> ->]. Qed.

Definition filled (t : TxContext D) (rc : MafReturnT) (t' : TxContext D) (l : list ccb_event) : Prop :=
  let d := lists (mCache t) in let h := mCcbHandle t in
  lists (mCache t') = d /\ mCcbHandle t' = h /\ mImmCcbCreatedStatus t' = mImmCcbCreatedStatus t /\
  if bool_decide (rc = MafOk) then l = content d h /\ isCcbEmpty t' = bool_decide (content d h = []) else part_of l (content d h).

Lemma emits_fill n t : finalModifiedObjectsList (mCache t) = [] -> isCcbEmpty t = false -> emits (fill_ccb env lm lock_mo n) t (filled t).
Proof.
  intros Hf He. unfold fill_ccb. apply emits_bind, emits_get. cbv zeta. set (cre := ListOfCreatedObjects (lists (mCache t))).
  set (d := lists (mCache t)) in *. set (h := mCcbHandle t). set (st := mImmCcbCreatedStatus t).
  apply emits_bind, (emits_mono _ _ _ (fun _ t' l' => l' = [] /\ kept t' = (d, h, st, false, omap reset_of cre))).
  { destruct (0 <? length cre)%nat eqn:Ec; cbn [when].
    - eapply emits_mono; [apply emits_prepareList|]. intros _ t1 l1 [-> H1]. split; [done|]. rewrite H1. unfold kept. cbn. by rewrite Hf, He.
    - apply emits_ret. split; [done|]. destruct cre; [|done]. unfold kept. by rewrite Hf, He. }
  intros _ t1 l1 [-> H1]. cbn [app]. apply emits_bind. eapply emits_mono; [apply fills_create|]. intros r t2 l2 [H2 Hr]. rewrite H1 in H2.
  apply kept_with in H1 as (_ & Hh & _). rewrite Hh in Hr. destruct r as [rc|].
  { destruct Hr as [Hrc Hp]. apply emits_ret. apply kept_with in H2 as (? & ? & ? & _). unfold filled. rewrite bool_decide_false, app_nil_r by done.
    repeat split; [done..|]. by apply part_of_app. }
  subst l2. apply emits_bind, emits_modify. apply emits_bind, emits_get.
  assert (H2' : kept (set_delete_failed false t2) = (d, h, st, false, omap reset_of cre)) by done. clear H2. revert H2'. generalize (set_delete_failed false t2). clear t2. intros t2 H2.
  pose proof (kept_with _ _ _ _ _ _ H2) as (Hd & Hh2 & _). rewrite Hd. set (del := ListOfDeletedObjects d).
  apply emits_bind. eapply emits_mono; [apply fills_delete|]. intros r t3 l3 [H3 Hr]. rewrite H2 in H3. rewrite Hh2 in Hr. destruct r as [rc|].
  { destruct Hr as [Hrc Hp]. apply emits_ret. apply kept_with in H3 as (? & ? & ? & _). unfold filled. rewrite bool_decide_false by done.
    repeat split; [done..|]. cbn [app]. rewrite app_nil_r. apply part_of_behind. by apply part_of_app. }
  subst l3. unfold GetListOfModifiedObjects. apply kept_with in H3 as (Hd3 & Hh3 & Hs3 & He3 & Hf3).
  apply emits_bind, emits_bind, emits_get, emits_bind, emits_modify, emits_bind, emits_get, emits_ret. cbn [mCache set_cache set_final finalModifiedObjectsList].
  rewrite Hd3, Hf3. fold (modified d). set (t4 := set_cache _ t3). apply emits_bind. eapply emits_mono; [apply (fills_modify n (modified d) t4)|].
  intros r t5 l5 [H5 Hr]. change (mCcbHandle t4) with (mCcbHandle t3) in Hr. rewrite Hh3 in Hr.
  assert (kept t4 = (d, h, st, false, modified d)) as H4 by (unfold kept, t4; cbn; by rewrite Hd3, Hh3, Hs3, He3).
  rewrite H4 in H5. apply kept_with in H5 as (Hd5 & Hh5 & Hs5 & He5 & _). destruct r as [rc|].
  - destruct Hr as [Hrc Hp]. apply emits_ret. unfold filled. rewrite bool_decide_false by done. repeat split; [done..|]. cbn [app]. rewrite app_nil_r. by do 2 apply part_of_behind.
  - subst l5. assert (Hempty : (length cre =? 0)%nat && (length del =? 0)%nat && (length (modified d) =? 0)%nat = bool_decide (content d h = [])).
    { unfold content, creates, deletes, modifies. fold cre del. destruct cre as [|c cre']; [|cbn [rev]; rewrite fmap_app; symmetry; apply bool_decide_false; cbn; by destruct (fmap _ (rev cre'))].
      destruct del; [|done]. by destruct (modified d). }
    change (omap reset_of cre ++ ListOfModifiedObjects d) with (modified d). rewrite Hempty. apply emits_bind, emits_when; intros Hc.
    + apply emits_modify, emits_ret. unfold filled. rewrite bool_decide_true by done. fold d h. rewrite Hc. cbn [app]. by rewrite app_nil_r.
    + apply emits_ret. unfold filled. rewrite bool_decide_true by done. fold d h. rewrite Hc, He5. cbn [app]. by rewrite app_nil_r.
Qed.

(** ** [OamSAPrepare] *)
Lemma emits_init t : emits (execute env lm (ImmCmdOmCcbInit env)) t (fun rc t' l => l = marks_of rc (CcbOpened (mCcbHandle t')) /\ kept t' = kept (set_ccb (mCcbHandle t') t)).
Proof.
  unfold execute. generalize (pred mRetries) as n. intros n. revert t. induction n as [|n IH]; intros t; cbn [attempts]; unfold ImmCmdOmCcbInit.
  all: apply emits_bind, emits_bind, emits_get, emits_bind, emits_call; intros r; apply emits_bind, emits_modify, emits_ret; unfold id at 1; cbn [ccb_mark app].
  all: destruct (to_repeat lm (fst r)) eqn:Er; [assert (fst r <> SA_AIS_OK) as Hrc by (intros Hr; rewrite Hr in Er; by destruct lm)|].
  all: unfold if_ok, marks_of.
  2, 4: apply emits_ret; cbn; by destruct (bool_decide _).
  all: rewrite bool_decide_false by done; cbn [app]; apply emits_bind, emits_call; intros []; cbn [ccb_mark app].
  - apply emits_ret. by rewrite bool_decide_false.
  - eapply emits_mono; [apply IH|]. intros rc t' l [-> Ht]. by rewrite Ht.
Qed.

(** What [OamSAPrepare] promises: a CCB that was not created is opened and filled, a created one is left
    alone. *)
Definition prepared (t : TxContext D) (rc : MafReturnT) (t' : TxContext D) (l : list ccb_event) : Prop :=
  lists (mCache t') = lists (mCache t) /\
  if bool_decide (mImmCcbCreatedStatus t = ImmCcbCreated) then rc = MafOk /\ l = [] /\ kept t' = kept (set_empty false (set_cache (set_final [] (mCache t)) t))
  else
    let all := CcbOpened (mCcbHandle t') :: content (lists (mCache t)) (mCcbHandle t') in
    if bool_decide (rc = MafOk) then
      l = all /\ mImmCcbCreatedStatus t' = ImmCcbCreated /\ isCcbEmpty t' = bool_decide (content (lists (mCache t)) (mCcbHandle t') = [])
    else part_of l all /\ (l = [] \/ mImmCcbCreatedStatus t' = ImmCcbCreated).

Lemma emits_prepare n t : emits (prepare env lm lock_mo n) t (prepared t).
Proof.
  unfold prepare, clearFinalModifiedObjectsList. apply emits_bind, emits_modify, emits_bind, emits_modify, emits_bind, emits_get. cbn [app].
  set (t1 := set_empty false _). change (mImmCcbCreatedStatus t1) with (mImmCcbCreatedStatus t). unfold prepared. destruct (mImmCcbCreatedStatus t) eqn:Es; cbn [bool_decide decide].
  2: { rewrite bool_decide_false, bool_decide_true by done. apply emits_ret. done. }
  rewrite bool_decide_true, bool_decide_false by done. apply emits_bind. eapply emits_mono; [apply emits_init|]. intros rc t2 l2 [-> H2]. unfold marks_of.
  destruct (decide (rc = SA_AIS_OK)) as [->|Hrc].
  2: { rewrite bool_decide_true, bool_decide_false by done. apply emits_ret. rewrite bool_decide_false by done. split; [by injection H2|]. split; [apply part_of_nil|by left]. }
  rewrite bool_decide_false, bool_decide_true by tauto. apply emits_bind, emits_modify. set (t3 := set_status ImmCcbCreated t2).
  apply kept_with in H2 as (Hd & Hh & _ & He & Hf). cbn [app].
  eapply emits_mono; [apply emits_fill; [exact Hf|exact He]|]. intros rc t4 l4 (Hd4 & Hh4 & Hs4 & Hr). change (mCcbHandle t3) with (mCcbHandle t2) in *.
  change (lists (mCache t3)) with (lists (mCache t2)) in *. rewrite Hd in *. split; [done|]. rewrite Hh4. case_bool_decide; [destruct Hr as [-> Hr]; done|].
  split; [by apply (part_of_behind _ _ [_])|by right].
Qed.
End facts.
