(* ===== verification/TxSpiFacts.v ===== *)
(** * Transactions: one transaction among all of them

    [acts txh p m t Q]: run when the handle [txh] leads to the context [p], which is [t], [m]
    changes nothing but that context; [Q] relates the answer, the context afterwards and the
    marks. *)
From Stdlib Require Import ZArith Lia.
From stdpp Require Import base gmap list strings.
From S2P Require Import Prelude Marks StdMap Codes NtfData TxData TxCommands TxBridge TxSpi TxFacts.

Open Scope Z_scope.

Section acts.
Context {D : Type} `{CacheLists D} (env : environment txE) (lm lock_mo spi : bool).
Context (txh : Z) (p : ptr).
Implicit Types (t : TxContext D) (s : Repo D).
Abbreviation R := (M txE (Repo D)).

Definition put_at t s : Repo D := set_contexts (<[p := t]> (contexts s)) s.
Definition leads s t : Prop := map_find (theContextMap s) txh = Some p /\ contexts s !! p = Some t.
Definition acts {A} (m : R A) t (Q : A -> TxContext D -> list ccb_event -> Prop) : Prop :=
  forall s, leads s t -> emits ccb_mark m s (fun a s' l => exists t', s' = put_at t' s /\ Q a t' l).

Lemma put_at_same s t : leads s t -> put_at t s = s.
Proof. intros [_ Ht]. unfold put_at, set_contexts. rewrite insert_id by done. by destruct s. Qed.
Lemma leads_put s t t' : leads s t -> leads (put_at t' s) t'.
Proof. intros [Hm _]. split; [done|]. cbn. apply lookup_insert_eq. Qed.
Lemma put_at_put s t t' : put_at t' (put_at t s) = put_at t' s.
Proof. unfold put_at, set_contexts. cbn. by rewrite insert_insert_eq. Qed.

Lemma acts_ret {A} (a : A) t (Q : A -> TxContext D -> list ccb_event -> Prop) : Q a t [] -> acts (mret a) t Q.
Proof. intros HQ s Hs. apply emits_ret. exists t. by rewrite (put_at_same _ _ Hs). Qed.
Lemma acts_bind {A B} (m : R A) (k : A -> R B) t Q :
  acts m t (fun a t' l => acts (k a) t' (fun b t'' l' => Q b t'' (l ++ l'))) -> acts (m ≫= k) t Q.
Proof.
  intros Hm s Hs. apply emits_bind. eapply emits_mono; [by apply Hm|]. intros a s' l (t' & -> & Hk).
  eapply emits_mono; [by apply Hk, (leads_put _ t)|]. intros b s'' l' (t'' & -> & HQ). exists t''. by rewrite put_at_put.
Qed.
Lemma acts_mono {A} (m : R A) t (P Q : A -> TxContext D -> list ccb_event -> Prop) :
  acts m t P -> (forall a t' l, P a t' l -> Q a t' l) -> acts m t Q.
Proof. intros Hm HPQ s Hs. eapply emits_mono; [by apply Hm|]. intros a s' l (t' & -> & HP). eauto. Qed.
Lemma acts_call {A} (e : txE A) t (Q : A -> TxContext D -> list ccb_event -> Prop) : (forall r, ccb_mark (Ev e r) = None) -> (forall r, Q r t []) -> acts (call env e) t Q.
Proof. intros He HQ s Hs. apply emits_call. intros r. rewrite He. exists t. by rewrite (put_at_same _ _ Hs). Qed.
Lemma acts_on {A} (m : Z -> M txE (TxContext D) A) t Q : (forall n, emits ccb_mark (m n) t Q) -> acts (on p m) t Q.
Proof.
  intros Hm s [Hp Ht] tr. unfold on, post. cbn [fst snd]. rewrite Ht. specialize (Hm (numInstances s) tr). unfold post in Hm.
  destruct (m (numInstances s) (t, tr)) as [[a|w] [t' tr']]; [|done]. destruct Hm as (new & Hnew & HQ). exists new. split; [done|]. by exists t'.
Qed.
Lemma acts_get {B} (k : option ptr -> R B) t Q : acts (k (Some p)) t Q -> acts (getTxContext txh ≫= k) t Q.
Proof.
  intros Hk s Hs. apply emits_bind. intros tr. apply sat_post, sat_gets. exists []. rewrite app_nil_r. split; [done|]. cbn. destruct Hs as [Hp Ht].
  rewrite Hp. by apply Hk.
Qed.
Lemma acts_when b (m : R ()) t Q : (b = true -> acts m t Q) -> (b = false -> Q () t []) -> acts (when b m) t Q.
Proof. destruct b; intros H1 H2; [by apply H1|by apply acts_ret, H2]. Qed.

(** What [acts] says of a run. *)
Lemma acts_run {A} (m : R A) t Q s tr a s' tr' : acts m t Q -> leads s t -> m (s, tr) = (Ret a, (s', tr')) ->
  exists new t', tr' = tr ++ new /\ s' = put_at t' s /\ Q a t' (omap ccb_mark new).
Proof.
  intros Hm Hs Hr. specialize (Hm s Hs tr). unfold post in Hm. rewrite Hr in Hm. destruct Hm as (new & Htr & t' & Hs' & HQ). by exists new, t'.
Qed.

(** ** Programs that neither mark nor touch the objects of the transaction *)
Definition mild {A} (m : R A) : Prop :=
  forall t (Q : A -> TxContext D -> list ccb_event -> Prop), (forall a t', lists (mCache t') = lists (mCache t) -> Q a t' []) -> acts m t Q.
Lemma mild_bind {A B} (m : R A) (k : A -> R B) : mild m -> (forall a, mild (k a)) -> mild (m ≫= k).
Proof. intros Hm Hk t Q HQ. apply acts_bind, Hm. intros a t' Ht. apply Hk. intros b t'' Ht'. apply HQ. congruence. Qed.
Lemma mild_next {A B} (m : R A) (k : A -> R B) t Q : mild m -> (forall a t', lists (mCache t') = lists (mCache t) -> acts (k a) t' Q) -> acts (m ≫= k) t Q.
Proof. intros Hm Hk. apply acts_bind, Hm. intros a t' Ht. by apply Hk. Qed.
Lemma mild_ret {A} (a : A) : mild (mret a).
Proof. intros t Q HQ. by apply acts_ret, HQ. Qed.
Lemma mild_when b (m : R ()) : mild m -> mild (when b m).
Proof. destruct b; [done|]. intros _. apply mild_ret. Qed.
Lemma mild_call {A} (e : txE A) : (forall r, ccb_mark (Ev e r) = None) -> mild (call env e).
Proof. intros He t Q HQ. apply acts_call; [done|]. intros r. by apply HQ. Qed.
Lemma mild_on {A} (m : Z -> M txE (TxContext D) A) :
  (forall n, calm ccb_mark (fun t => lists (mCache t)) (m n)) -> mild (on p m).
Proof. intros Hm t Q HQ. apply acts_on. intros n. apply Hm. intros a t' Ht. by apply HQ. Qed.
Lemma mild_get {B} (k : option ptr -> R B) : mild (k (Some p)) -> mild (getTxContext txh ≫= k).
Proof. intros Hk t Q HQ. apply acts_get. by apply Hk. Qed.
Lemma mild_some {A B} w (a : A) (k : A -> R B) : mild (k a) -> mild (of_option w (Some a) ≫= k).
Proof. done. Qed.
End acts.

Ltac gentle :=
  repeat lazymatch goal with
    | |- mild _ _ (mbind _ (getTxContext _)) => apply mild_get
    | |- mild _ _ (mbind _ (of_option _ (Some _))) => apply mild_some
    | |- mild _ _ (mbind _ _) => apply mild_bind; [|intros ?]
    | |- mild _ _ (mret _) => apply mild_ret
    | |- mild _ _ (when _ _) => apply mild_when
    | |- mild _ _ (call _ _) => apply mild_call; intros ?; reflexivity
    | |- mild _ _ (if ?b then _ else _) => destruct b
    end.

Section bridge.
Context {D : Type} `{CacheLists D} (env : environment txE) (lm lock_mo spi : bool) (txh : Z) (p : ptr).
Implicit Types (t : TxContext D).
Abbreviation R := (M txE (Repo D)).
Abbreviation held := (calm ccb_mark (fun t : TxContext D => lists (mCache t))).
Abbreviation mild m := (mild (D:=D) txh p m).
Abbreviation acts := (acts (D:=D) txh p).

(** ** Parts on one context *)
Lemma held_kept {A} (m : M txE (TxContext D) A) : calm ccb_mark kept m -> held m.
Proof. intros Hm t Q HQ. apply Hm. intros a t' Ht. apply HQ. by injection Ht. Qed.
Lemma held_attempts (m : M txE (TxContext D) SaAisErrorT) n : held m -> held (attempts env lm id m n).
Proof.
  intros Hm. induction n as [|n IH]; cbn [attempts]; (apply calm_bind; [done|intros rc]); destruct (to_repeat _ _);
    first [apply calm_ret|apply calm_bind; [apply calm_call; by intros|intros _]]; [apply calm_ret|done].
Qed.
Lemma held_finalize : held (execute env lm (ImmCmdOmCcbFinalize env)).
Proof.
  apply held_attempts. unfold ImmCmdOmCcbFinalize. apply calm_bind; [apply calm_get|intros t]. apply calm_bind; [apply calm_call; by intros|intros rc].
  apply calm_bind; [by apply calm_modify|intros _]. apply calm_ret.
Qed.
Lemma held_call (e : Z -> txE SaAisErrorT) : (forall h rc, ccb_mark (Ev (e h) rc) = None) -> held (execute env lm (t ← get; call env (e (mCcbHandle t)))).
Proof. intros He. apply held_attempts. apply calm_bind; [apply calm_get|intros t]. by apply calm_call. Qed.
Lemma held_release : held (release_owners env lm).
Proof.
  unfold release_owners. apply calm_bind; [apply calm_get|intros t]. apply calm_bind; [apply held_kept, calm_release_all|intros _].
  apply calm_bind; [apply held_kept, calm_release_deleted|intros _]. apply calm_bind; [apply calm_get|intros t'].
  apply calm_bind; [apply held_kept, calm_release_all|intros _]. by apply calm_modify.
Qed.
Lemma held_status st : held (modify (set_status st)).
Proof. by apply calm_modify. Qed.

Lemma mild_messages b : mild (on p (fun _ => getAndForwardErrorStrings env b)).
Proof. apply mild_on. intros n. apply held_kept, calm_getAndForward. Qed.
Lemma mild_release : mild (releaseAdminOwnerForDn env lm txh).
Proof. unfold releaseAdminOwnerForDn. gentle. apply mild_on. intros n. apply held_release. Qed.
Lemma mild_handle_failed : mild (handleCcbOnFailedOperation env lm txh).
Proof. unfold handleCcbOnFailedOperation. gentle; first [apply mild_messages|apply mild_release|apply mild_on; intros n; apply held_finalize]. Qed.
Lemma mild_abort_and_release : mild (abort_and_release env lm txh p).
Proof. unfold abort_and_release. gentle; first [apply mild_messages|apply mild_release|apply mild_on; intros n; by apply held_call]. Qed.

(** ** Building a CCB again *)
Definition full t : list ccb_event := CcbOpened (mCcbHandle t) :: content (lists (mCache t)) (mCcbHandle t).
Definition not_applied (l : list ccb_event) : Prop := forall h, CcbApplied h ∉ l.
(** The transaction is the same, nothing was applied, and when [b] the last that was done was to build the CCB. *)
Definition ready (b : bool) t t' (l : list ccb_event) : Prop :=
  lists (mCache t') = lists (mCache t) /\ not_applied l /\ (b = true -> exists l0, l = l0 ++ full t').

Lemma not_applied_nil : not_applied [].
Proof. intros h. apply not_elem_of_nil. Qed.
Lemma not_applied_app l l' : not_applied l -> not_applied l' -> not_applied (l ++ l').
Proof. intros Hl Hl' h [?|?]%elem_of_app; [by apply (Hl h)|by apply (Hl' h)]. Qed.
Lemma not_applied_full t : not_applied (full t).
Proof.
  intros h. unfold full, content, creates, deletes, modifies. rewrite elem_of_cons, !elem_of_app, !list_elem_of_fmap. naive_solver.
Qed.
Lemma not_applied_part l t : part_of l (full t) -> not_applied l.
Proof. intros (x & k & Hl) h Hh. apply (not_applied_full t h). rewrite Hl. apply elem_of_app. by left. Qed.

Lemma ready_after b t t1 t2 l l' : lists (mCache t1) = lists (mCache t) -> not_applied l -> ready b t1 t2 l' -> ready b t t2 (l ++ l').
Proof.
  intros H1 Hl (H2 & Hl' & Hb). split; [congruence|]. split; [by apply not_applied_app|]. intros Hbt. destruct (Hb Hbt) as [l0 ->]. exists (l ++ l0). by rewrite app_assoc.
Qed.
Lemma ready_still b t t' t'' l : kept t'' = kept t' -> ready b t t' l -> ready b t t'' l.
Proof.
  intros Hk (H1 & Hl & Hb). pose proof Hk as [= Hd Hh _ _ _]. split; [congruence|]. split; [done|]. intros Hbt. destruct (Hb Hbt) as [l0 ->]. exists l0. unfold full. by rewrite Hd, Hh.
Qed.
Lemma ready_false t t' : lists (mCache t') = lists (mCache t) -> ready false t t' [].
Proof. intros Ht. split; [done|]. split; [apply not_applied_nil|done]. Qed.

Lemma acts_prepared t : acts (OamSAPrepare env lm lock_mo txh) t (prepared t).
Proof. unfold OamSAPrepare. apply acts_get, acts_on. intros n. apply emits_prepare. Qed.
Definition is_ok (rc : MafReturnT) : bool := bool_decide (rc = MafOk).
Lemma acts_prepare t : mImmCcbCreatedStatus t = ImmCcbNotCreated -> acts (OamSAPrepare env lm lock_mo txh) t (fun rc t' l => ready (is_ok rc) t t' l).
Proof.
  intros Hs. unfold OamSAPrepare. apply acts_get, acts_on. intros n. eapply emits_mono; [apply emits_prepare|]. intros rc t' l [Hd Hp].
  rewrite Hs in Hp. rewrite bool_decide_false in Hp by done. rewrite <- Hd in Hp. fold (full t') in Hp. unfold is_ok. case_bool_decide.
  - destruct Hp as [-> _]. split; [done|]. split; [apply not_applied_full|]. intros _. by exists [].
  - destruct Hp as [Hp _]. split; [done|]. split; [by eapply not_applied_part|done].
Qed.

(** [set_status], and what the code does until the next prepare. *)
Lemma acts_reset {A} (k : R A) t Q :
  (forall t', lists (mCache t') = lists (mCache t) -> mImmCcbCreatedStatus t' = ImmCcbNotCreated -> acts k t' Q) ->
  acts (on p (fun _ => modify (set_status ImmCcbNotCreated)) ;; k) t Q.
Proof. intros Hk. apply acts_bind, acts_on. intros n. apply emits_modify. by apply Hk. Qed.
Lemma acts_sleep {A} n (k : R A) t Q : acts k t Q -> acts (call env (usleep n) ;; k) t Q.
Proof. intros Hk. apply acts_bind, acts_call; [done|]. by intros []. Qed.

Lemma acts_prepare_again n rc t : rc <> MafOk -> acts (prepare_again env lm lock_mo txh p rc n) t (fun rc' t' l => ready (is_ok rc') t t' l).
Proof.
  revert rc t. induction n as [|n IH]; intros rc t Hrc; cbn [prepare_again].
  { apply acts_ret. unfold is_ok. rewrite bool_decide_false by done. by apply ready_false. }
  case_bool_decide; [|apply acts_ret; unfold is_ok; rewrite bool_decide_false by done; by apply ready_false].
  apply mild_next; [apply mild_on; intros m; apply held_finalize|]. intros _ t1 H1. apply mild_next; [apply mild_release|]. intros _ t2 H2.
  apply acts_reset. intros t3 H3 Hs. apply acts_sleep, acts_bind. eapply acts_mono; [by apply acts_prepare|]. intros rc' t4 l4 H4.
  destruct (decide (rc' = MafOk)) as [->|Hrc'].
  - destruct n; cbn [prepare_again]; [|rewrite bool_decide_false by done]; apply acts_ret; rewrite app_nil_r; by eapply (ready_after _ _ t3 _ []), H4; [congruence|apply not_applied_nil].
  - eapply acts_mono; [by apply IH|]. intros rc5 t5 l5 H5. destruct H4 as (H4 & Hl4 & _). eapply (ready_after _ _ t4); [congruence|done|done].
Qed.
Lemma acts_handle_abort b t : acts (handlePrepareOnImmAbort env lm lock_mo txh b) t (fun rc t' l => ready (is_ok rc) t t' l).
Proof.
  unfold handlePrepareOnImmAbort. apply acts_get, acts_bind. eapply acts_mono; [by apply acts_prepare_again|]. intros rc t1 l1 H1.
  case_bool_decide; [subst|by apply acts_ret; rewrite app_nil_r].
  assert (ready false t t1 l1) as (H2 & Hl & _) by done. destruct b; cbn [when].
  - apply acts_bind, acts_bind. apply mild_messages. intros _ t2 H3. apply acts_ret, acts_ret. rewrite !app_nil_r. split; [congruence|done].
  - apply acts_bind, acts_ret, acts_ret. rewrite !app_nil_r. split; [congruence|done].
Qed.
(** Prepare, and again when IMM has aborted. *)
Lemma acts_prepare_retried b t : mImmCcbCreatedStatus t = ImmCcbNotCreated ->
  acts (retVal ← OamSAPrepare env lm lock_mo txh;
        if bool_decide (retVal = MafCommitFailed) then handlePrepareOnImmAbort env lm lock_mo txh b else mret retVal) t (fun rc t' l => ready (is_ok rc) t t' l).
Proof.
  intros Hs. apply acts_bind. eapply acts_mono; [by apply acts_prepare|]. intros rc t1 l1 H1. case_bool_decide; [|by apply acts_ret; rewrite app_nil_r].
  eapply acts_mono; [apply acts_handle_abort|]. intros rc' t2 l2 H2. destruct H1 as (H1 & Hl & _). by eapply ready_after.
Qed.

(** ** [OamSAValidate] *)
Lemma acts_abort_previous t : acts (abort_previous env lm p) t (fun b t' l =>
  lists (mCache t') = lists (mCache t) /\ l = [] /\ (b = true -> mImmCcbCreatedStatus t' = ImmCcbNotCreated)).
Proof.
  unfold abort_previous. apply acts_bind, acts_on. intros n tr. apply sat_post, sat_gets. exists []. rewrite app_nil_r. split; [done|]. cbn [fst].
  destruct (mImmCcbCreatedStatus t) eqn:Es; [rewrite bool_decide_false by done; by apply acts_ret|rewrite bool_decide_true by done].
  apply acts_bind, acts_on. intros _. apply emits_modify. set (t1 := set_status ImmCcbNotCreated t).
  assert (Hquiet : forall A (m : Z -> M txE (TxContext D) A) t2 (k : A -> R bool), (forall n, calm ccb_mark kept (m n)) -> lists (mCache t2) = lists (mCache t) /\ mImmCcbCreatedStatus t2 = ImmCcbNotCreated ->
    (forall a t3, lists (mCache t3) = lists (mCache t) /\ mImmCcbCreatedStatus t3 = ImmCcbNotCreated -> acts (k a) t3 (fun b t' l => lists (mCache t') = lists (mCache t) /\ l = [] /\ (b = true -> mImmCcbCreatedStatus t' = ImmCcbNotCreated))) ->
    acts (on p m ≫= k) t2 (fun b t' l => lists (mCache t') = lists (mCache t) /\ l = [] /\ (b = true -> mImmCcbCreatedStatus t' = ImmCcbNotCreated))).
  { intros A m t2 k Hm [Hd Hs] Hk. apply acts_bind, acts_on. intros n'. apply Hm. intros a t3 [= Hd3 _ Hs3 _ _]. apply Hk. split; congruence. }
  apply Hquiet; [|done|].
  { intros n'. apply calm_execute. unfold ImmCmdOmCcbAbort. apply calm_bind; [apply calm_get|intros ?]. by apply calm_call. }
  intros rc t2 H2. destruct (bool_decide (rc <> SA_AIS_OK)); [|by apply acts_ret; destruct H2].
  apply Hquiet; [intros n'; apply calm_getAndForward|done|]. intros _ t3 [H3 Hs3]. by apply acts_ret.
Qed.

Lemma kept_validate : calm ccb_mark kept (execute env lm (ImmCmdOmCcbValidate (D:=D) env)).
Proof. apply calm_execute. unfold ImmCmdOmCcbValidate. apply calm_bind; [apply calm_get|intros ?]. by apply calm_call. Qed.

(** The answers of the loop that let [OamSAValidate] say yes. *)
Definition valid (r : option (MafReturnT * SaAisErrorT)) : bool :=
  match r with Some (rc, err) => bool_decide (rc = MafOk) && bool_decide (err = SA_AIS_OK) | None => false end.
Lemma acts_validate_again n err t0 t1 l1 : ready true t0 t1 l1 ->
  acts (validate_again env lm lock_mo txh p MafOk err n) t1 (fun r t' l => ready (valid r) t0 t' (l1 ++ l)).
Proof.
  revert err t1 l1. induction n as [|n IH]; intros err t1 l1 H1.
  all: assert (Hstop : ready (valid (Some (MafOk, err))) t0 t1 (l1 ++ [])) by
    (rewrite app_nil_r; destruct H1 as (? & ? & ?); repeat split; [done..|auto]).
  all: cbn [validate_again].
  { by apply acts_ret. }
  case_bool_decide; [|by apply acts_ret]. clear Hstop. destruct H1 as (H1 & Hl1 & _).
  apply mild_next; [apply mild_handle_failed|]. intros b t2 H2. destruct b; cbn [negb].
  2: { apply acts_ret. rewrite app_nil_r. split; [congruence|done]. }
  apply acts_reset. intros t3 H3 Hs. apply acts_sleep. apply acts_bind. eapply acts_mono; [apply acts_prepare; done|].
  intros rc t4 l4 H4. apply acts_bind. eapply acts_mono.
  { apply (acts_mono _ _ _ _ (fun rc' t' l => ready (is_ok rc') t3 t' (l4 ++ l))); [|intros ? ? ? Hr; exact Hr].
    case_bool_decide as Hc; [|by apply acts_ret; rewrite app_nil_r]. eapply acts_mono; [apply acts_handle_abort|]. intros rc' t5 l5 H5. destruct H4 as (? & ? & _). by eapply ready_after. }
  intros rc' t5 l5 H5. cbv beta. unfold is_ok in H5. case_bool_decide as Hrc.
  - subst rc'. apply acts_bind, acts_on. intros m. apply kept_validate. intros err' t6 H6. cbn [app]. eapply acts_mono; [apply (IH err' t6 (l1 ++ l4 ++ l5))|].
    + apply (ready_after _ _ t3); [congruence|done|by eapply ready_still].
    + intros r t7 l7 H7. cbv beta in H7. by rewrite <- !app_assoc in H7.
  - apply acts_ret. cbn [valid]. rewrite bool_decide_false by done. cbn [app andb]. rewrite app_nil_r. eapply ready_after; [|exact Hl1|exact H5]. congruence.
Qed.

Lemma acts_validate t : acts (OamSAValidate env lm lock_mo txh) t (fun r t' l => ready (bool_decide (fst r = MafOk) && snd r) t t' l).
Proof.
  unfold OamSAValidate. apply acts_get, acts_bind. eapply acts_mono; [apply acts_abort_previous|]. intros b t1 l1 (H1 & -> & Hs). destruct b; cbn [negb].
  2: { apply acts_ret. cbn. by apply ready_false. }
  specialize (Hs eq_refl). apply acts_bind. eapply acts_mono; [by apply acts_prepare|]. intros rc t2 l2 H2. apply acts_bind.
  apply (acts_mono _ _ _ _ (fun rc' t' l => ready (is_ok rc') t t' (l2 ++ l))).
  { case_bool_decide as Hc.
    - eapply acts_mono; [apply acts_handle_abort|]. intros rc' t3 l3 H3. destruct H2 as (? & ? & _). eapply ready_after; [|done|exact H3]. congruence.
    - apply acts_ret. rewrite app_nil_r. destruct H2 as (? & ? & ?). split; [congruence|done]. }
  intros rc' t3 l3 H3. cbn [app]. unfold is_ok in H3. destruct (decide (rc' = MafOk)) as [->|Hrc].
  - rewrite bool_decide_true in H3 by done. rewrite bool_decide_false by tauto.
    apply acts_bind, acts_on. intros n tr. apply sat_post, sat_gets. exists []. rewrite app_nil_r. split; [done|]. cbn [fst snd omap list_omap app].
    destruct (isCcbEmpty t3); [by apply acts_ret; cbn; rewrite app_nil_r|].
    apply acts_bind, acts_on. intros m. apply kept_validate. intros err t4 H4. apply acts_bind. eapply acts_mono.
    { apply (acts_validate_again _ err t t4 (l2 ++ l3)). by eapply ready_still. }
    intros [[rc5 err5]|] t5 l5 H5; cbn [app valid fst snd] in *.
    2: { apply acts_ret. rewrite app_nil_r, <- app_assoc in *. done. }
    rewrite <- app_assoc in H5.
    assert (Hno : ready false t t5 (l2 ++ l3 ++ l5)) by (destruct H5 as (? & ? & _); done).
    destruct (decide (rc5 = MafOk)) as [->|Hrc5].
    + rewrite bool_decide_false by tauto. destruct (decide (err5 = SA_AIS_OK)) as [->|Herr].
      * rewrite bool_decide_false by tauto. apply acts_ret. cbn [fst snd app]. by rewrite app_nil_r.
      * rewrite bool_decide_true by done. apply mild_next; [apply mild_messages|]. intros _ t6 H6. apply mild_next; [apply mild_release|]. intros _ t7 H7.
        apply acts_ret. cbn [fst snd app]. rewrite andb_false_r, app_nil_r. destruct Hno as (? & ? & _). split; [congruence|done].
    + rewrite bool_decide_true by done. apply mild_next; [apply mild_messages|]. intros _ t6 H6. apply mild_next; [apply mild_abort_and_release|]. intros _ t7 H7.
      apply acts_ret. cbn [fst snd app]. rewrite andb_false_r, app_nil_r. destruct Hno as (? & ? & _). split; [congruence|done].
  - rewrite bool_decide_false in H3 by done. rewrite bool_decide_true by done. apply mild_next; [apply mild_abort_and_release|]. intros _ t4 H4.
    apply acts_ret. cbn [fst snd]. rewrite bool_decide_false, app_nil_r by done. cbn [andb]. destruct H3 as (H3 & Hl & _). split; [congruence|done].
Qed.

(** ** [OamSACommit] *)

(** One CCB was applied, and last: the one that was there, or one that was built for it. *)
Definition applied t (l : list ccb_event) : Prop :=
  exists l0 h, l = l0 ++ [CcbApplied h] /\ not_applied l0 /\
    (l0 = [] /\ h = mCcbHandle t \/ exists l1, l0 = l1 ++ CcbOpened h :: content (lists (mCache t)) h).
Definition outcome (b : bool) t (l : list ccb_event) : Prop := if b then applied t l else not_applied l.

Lemma acts_apply t {A} (k : SaAisErrorT -> R A) Q :
  (forall rc t', kept t' = kept t -> acts (k rc) t' (fun a t'' l => Q a t'' (marks_of rc (CcbApplied (mCcbHandle t)) ++ l))) ->
  acts (on p (fun _ => execute env lm (ImmCmdOmCcbApply env)) ≫= k) t Q.
Proof. intros Hk. apply acts_bind, acts_on. intros n. apply (marked_execute env lm _ CcbApplied); [apply marked_apply|]. intros rc t' Ht. by apply Hk. Qed.

Definition is_applied (r : option SaAisErrorT) : bool := bool_decide (r = Some SA_AIS_OK).
Lemma acts_apply_again n err t0 t1 l1 : lists (mCache t1) = lists (mCache t0) -> outcome (bool_decide (err = SA_AIS_OK)) t0 l1 ->
  acts (apply_again env lm lock_mo txh p err n) t1 (fun r t' l => lists (mCache t') = lists (mCache t0) /\ outcome (is_applied r) t0 (l1 ++ l)).
Proof.
  revert err t1 l1. induction n as [|n IH]; intros err t1 l1 H1 Hl1.
  all: assert (Hstop : outcome (is_applied (Some err)) t0 (l1 ++ [])).
  1, 3: rewrite app_nil_r; unfold is_applied; destruct (decide (err = SA_AIS_OK)) as [->|He]; [done|]; rewrite !bool_decide_false in * by congruence; done.
  all: cbn [apply_again].
  { by apply acts_ret. }
  destruct (decide (err = SA_AIS_ERR_FAILED_OPERATION)) as [->|He]; [rewrite bool_decide_true by done|rewrite (bool_decide_false (err = SA_AIS_ERR_FAILED_OPERATION)) by done; by apply acts_ret].
  rewrite bool_decide_false in Hl1 by done. cbn [outcome] in Hl1.
  apply mild_next; [apply mild_handle_failed|]. intros b t2 H2. destruct b; cbn [negb].
  2: { apply acts_ret. rewrite app_nil_r. split; [congruence|done]. }
  apply acts_sleep, acts_bind. eapply acts_mono; [apply acts_validate|]. intros [rc b] t3 l3 H3. cbn [fst snd] in *. destruct (bool_decide (rc = MafOk) && b) eqn:Eb.
  - apply acts_bind, acts_on. intros _. apply emits_modify. cbn [app]. apply acts_apply. intros rc' t4 H4. destruct H3 as (H3 & Hl3 & Hf). destruct (Hf eq_refl) as [l0 ->].
    set (x := CcbApplied _). eapply acts_mono; [apply (IH rc' t4 (l1 ++ (l0 ++ full t3) ++ marks_of rc' x))|].
    + assert (lists (mCache t4) = lists (mCache t3)) by (by injection H4). congruence.
    + unfold marks_of. destruct (bool_decide (rc' = SA_AIS_OK)); cbn [outcome].
      * exists (l1 ++ l0 ++ full t3), (mCcbHandle t3). split; [by rewrite <- !app_assoc|]. split; [by apply not_applied_app|]. right.
        exists (l1 ++ l0). unfold full. rewrite <- app_assoc. by replace (lists (mCache t0)) with (lists (mCache t3)) by congruence.
      * rewrite app_nil_r. by apply not_applied_app.
    + intros r t5 l5 [H5 Hl5]. split; [exact H5|]. by rewrite <- (app_assoc l1), <- (app_assoc (l0 ++ full t3)) in Hl5.
  - destruct H3 as (H3 & Hl3 & _). apply acts_ret. rewrite app_nil_r. split; [congruence|]. by apply not_applied_app.
Qed.

Lemma acts_commit t : acts (OamSACommit env lm lock_mo txh) t (fun rc t' l => lists (mCache t') = lists (mCache t) /\ outcome (is_ok rc) t l).
Proof.
  unfold OamSACommit. apply acts_get, acts_bind, acts_on. intros _. apply emits_modify. cbn [app]. apply acts_apply. intros rc t1 H1.
  assert (Hd : lists (mCache t1) = lists (mCache t)) by (by injection H1). apply acts_bind.
  eapply acts_mono; [apply (acts_apply_again _ rc t t1 (marks_of rc (CcbApplied (mCcbHandle t)))); [done|]|].
  { unfold marks_of. destruct (bool_decide (rc = SA_AIS_OK)); cbn [outcome]; [|apply not_applied_nil]. exists [], (mCcbHandle t). split; [done|]. split; [apply not_applied_nil|by left]. }
  intros r t2 l2 [H2 Hl2]. destruct r as [err|].
  2: { apply acts_ret. rewrite app_nil_r. split; [done|exact Hl2]. }
  destruct (decide (err = SA_AIS_OK)) as [->|He].
  - rewrite bool_decide_false by tauto. unfold is_applied in Hl2. rewrite bool_decide_true in Hl2 by done.
    unfold releaseAdminOwnerForDn. apply acts_bind, acts_get, acts_bind, acts_on. intros n. apply held_release. intros _ t3 H3. apply acts_ret, acts_ret.
    rewrite bool_decide_false by done. cbn [app]. rewrite app_nil_r. split; [congruence|done].
  - rewrite bool_decide_true by done. unfold is_applied in Hl2. rewrite bool_decide_false in Hl2 by congruence.
    apply mild_next; [apply mild_messages|]. intros _ t3 H3. apply mild_next; [apply mild_release|]. intros _ t4 H4. apply acts_ret. rewrite app_nil_r. split; [congruence|done].
Qed.
End bridge.
