(* ===== verification/TxSystem.v ===== *)
(** * Transactions: the system of all of them

    The MAF calls in any order, for any handles, and between the calls a client changes what the caches
    hold.  [in_step]: the contexts that exist are those in the map, each
    once, and [numInstances] is their number; every call keeps it. *)
From Stdlib Require Import ZArith Lia.
From stdpp Require Import base gmap list strings.
From S2P Require Import Prelude Codes NtfData StdMap TxData TxCommands TxBridge TxSpi TxFacts.

Open Scope Z_scope.

Section system.
Context {D : Type} `{CacheLists D} (env : environment txE) (lm lock_mo spi : bool).

(** ** Steps *)
Inductive request :=
| Join (txh : Z) | Prepare (txh : Z) | Validate (txh : Z) | Commit (txh : Z) | Abort (txh : Z) | Finish (txh : Z) | Clear
| Work (txh : Z) (d : D).

(** A client works on the objects of a transaction ([setImmMoAttribute] and the like); what comes
    of it is open. *)
Definition work (txh : Z) (d : D) : M txE (Repo D) () :=
  p ← getTxContext txh;
  match p with None => mret () | Some p => on p (fun _ => modify (fun t => set_cache (set_lists d (mCache t)) t)) end.
Definition serve (r : request) : M txE (Repo D) () :=
  match r with
  | Join txh => OamSAJoin env lm spi txh ;; mret ()
  | Prepare txh => OamSAPrepare env lm lock_mo txh ;; mret ()
  | Validate txh => OamSAValidate env lm lock_mo txh ;; mret ()
  | Commit txh => OamSACommit env lm lock_mo txh ;; mret ()
  | Abort txh => OamSAAbort txh ;; mret ()
  | Finish txh => OamSAFinish env lm txh ;; mret ()
  | Clear => ClearContextMap env
  | Work txh d => work txh d
  end.

(** ** What the services and the client promise *)

(** IMM gives the values of an attribute in the type it says they have. *)
Definition typed_attributes (l : list SaImmAttrValuesT_2) : Prop :=
  match l with
  | a :: _ => attrValueType a = SA_IMM_ATTR_SASTRINGT -> match attrValues a with [] => True | v :: _ => exists s, v = ImmString (Some s) end
  | [] => True
  end.
Definition imm_typed : Prop := forall tr h dn attr, typed_attributes (snd (env _ tr (saImmOmAccessorGet_2 h dn attr))).
(** The key attribute of a struct has a text for a value. *)
Definition good_object (o : CreatedObject) : Prop :=
  Forall (fun a => attrName a = "id"%string -> exists s l, attrValues a = ImmString (Some s) :: l) (attrValues_pp o).
Definition good_lists (d : D) : Prop := Forall good_object (ListOfCreatedObjects d).
Definition good_request (r : request) : Prop := match r with Work _ d => good_lists d | _ => True end.

Inductive reachable : Repo D -> list (event txE) -> Prop :=
| reachable_init : reachable Repo_init []
| reachable_step s tr r s' tr' : reachable s tr -> good_request r -> serve r (s, tr) = (Ret (), (s', tr')) -> reachable s' tr'.

(** ** The invariant *)
Definition good t : Prop := good_lists (lists (mCache (D:=D) t)).
Record in_step (s : Repo D) : Prop := {
  step_order : ordered (theContextMap s);
  step_once : NoDup (theContextMap s).*2;
  step_alive : dom (contexts s) = list_to_set (theContextMap s).*2;
  step_count : numInstances s = Z.of_nat (length (theContextMap s));
  step_good : map_Forall (fun _ t => good t) (contexts s)
}.

(** ** Programs on one context end, but for the flag that is not set *)
Abbreviation X := (M txE (TxContext D)).
Definition careful {A} (m : X A) (Q : A -> Prop) : Prop :=
  forall t tr, good t -> post m (t, tr) (fun a c => lists (mCache c.1) = lists (mCache t) /\ Q a) (fun w => w = Undefined).
Definition always {A} (_ : A) : Prop := True.
Abbreviation tame m := (careful m always).

Lemma careful_bind {A B} (m : X A) (k : A -> X B) P Q : careful m P -> (forall a, P a -> careful (k a) Q) -> careful (m ≫= k) Q.
Proof.
  intros Hm Hk t tr Ht. apply post_bind. eapply post_mono; [by apply Hm| |done]. intros a [t' tr'] [H1 Ha]. cbn [fst] in H1.
  eapply post_mono; [apply (Hk a Ha t')| |done].
  - unfold good. by rewrite H1.
  - intros b c [H2 Hb]. split; [congruence|done].
Qed.
Lemma careful_mono {A} (m : X A) (P Q : A -> Prop) : careful m P -> (forall a, P a -> Q a) -> careful m Q.
Proof. intros Hm HPQ t tr Ht. eapply post_mono; [by apply Hm| |done]. naive_solver. Qed.
Lemma tame_of {A} (m : X A) P : careful m P -> tame m.
Proof. intros Hm. by eapply careful_mono. Qed.
Lemma tame_bind {A B} (m : X A) (k : A -> X B) Q : tame m -> (forall a, careful (k a) Q) -> careful (m ≫= k) Q.
Proof. intros Hm Hk. by eapply careful_bind. Qed.
Lemma careful_ret {A} (a : A) (Q : A -> Prop) : Q a -> careful (mret a) Q.
Proof. intros HQ t tr Ht. by apply sat_post, sat_ret. Qed.
Lemma careful_get (Q : TxContext D -> Prop) : (forall t, good t -> Q t) -> careful get Q.
Proof. intros HQ t tr Ht. apply sat_post, sat_get. split; [done|]. by apply HQ. Qed.
Lemma careful_gets {A} (f : TxContext D -> A) : tame (gets f).
Proof. intros t tr Ht. by apply sat_post, sat_gets. Qed.
Lemma careful_modify f : (forall t, lists (mCache (f t)) = lists (mCache t)) -> tame (modify f).
Proof. intros Hf t tr Ht. apply sat_post, sat_modify. by split; [apply Hf|]. Qed.
Lemma careful_call {R} (e : txE R) (Q : R -> Prop) : (forall tr, Q (env R tr e)) -> careful (call env e) Q.
Proof. intros HQ t tr Ht. apply sat_post, sat_call. intros r <-. by split. Qed.
Lemma careful_when b (m : X ()) : tame m -> tame (when b m).
Proof. destruct b; [done|]. intros _. by apply careful_ret. Qed.

Ltac tread :=
  repeat lazymatch goal with
    | |- careful (mbind _ get) _ => eapply careful_bind; [apply careful_get; intros ? Hgood; exact Hgood|intros ? ?]
    | |- careful (mbind _ _) _ => apply tame_bind; [|intros ?]
    | |- careful (mret _) _ => apply careful_ret; done
    | |- careful get _ => by apply careful_get
    | |- careful (gets _) _ => apply careful_gets
    | |- careful (modify _) _ => by apply careful_modify
    | |- careful (call _ _) _ => by apply careful_call
    | |- careful (when _ _) _ => apply careful_when
    | |- careful (match ?x with _ => _ end) _ => destruct x
    | |- careful (let _ := _ in _) _ => cbv zeta
    end.

Lemma careful_attempts {R} (code : R -> SaAisErrorT) (m : X R) n Q : careful m Q -> careful (attempts env lm code m n) Q.
Proof.
  intros Hm. induction n as [|n IH]; cbn [attempts]; (eapply careful_bind; [exact Hm|intros r Hr]); destruct (to_repeat _ _); tread; try done; by apply careful_ret.
Qed.
Lemma tame_execute (m : X SaAisErrorT) : tame m -> tame (execute env lm m).
Proof. apply careful_attempts. Qed.
Lemma careful_execute_get {A} (m : X (SaAisErrorT * A)) Q : careful m Q -> careful (execute_get env lm m) Q.
Proof. apply careful_attempts. Qed.
#[local] Opaque execute execute_get.

(** *** Messages and ownership *)
Lemma tame_forward b l : tame (forward (D:=D) env b l).
Proof. induction l as [|s l IH]; cbn [forward]; tread. exact IH. Qed.
Lemma tame_getAndForward b : tame (getAndForwardErrorStrings (D:=D) env b).
Proof. unfold getAndForwardErrorStrings. tread. apply tame_forward. Qed.
Lemma tame_refused rc : tame (refused (D:=D) env rc).
Proof. unfold refused. tread; apply tame_getAndForward. Qed.
Lemma tame_set_again (m : X SaAisErrorT) err n : tame m -> tame (set_again env m err n).
Proof. intros Hm. revert err. induction n as [|n IH]; intros err; cbn [set_again]; tread; [done|apply IH]. Qed.
Lemma tame_ownerSet l scope : tame (execute env lm (ImmCmdOmAdminOwnerSet (D:=D) env l scope)).
Proof. apply tame_execute. unfold ImmCmdOmAdminOwnerSet. tread. apply tame_set_again. tread. Qed.
Lemma tame_getAdminOwner dn : imm_typed -> tame (getAdminOwner (D:=D) env lm dn).
Proof.
  intros Ht. unfold getAdminOwner. eapply careful_bind.
  { apply (careful_execute_get _ (fun r => typed_attributes (snd r))). unfold ImmCmdOmAccessorGet. tread. }
  intros [rc l] Hl. cbn [fst snd] in *. destruct (bool_decide (rc <> SA_AIS_OK)); [tread|]. destruct l as [|a l]; [tread|]. destruct (attrValues a) as [|v vs] eqn:Ev; [tread|].
  destruct (decide (attrValueType a = SA_IMM_ATTR_SASTRINGT)) as [Hs|Hs]; [rewrite bool_decide_false by tauto|rewrite bool_decide_true by done; tread].
  cbn in Hl. rewrite Ev in Hl. destruct (Hl Hs) as [s ->]. tread.
Qed.
Lemma tame_checkSet n dn scope : imm_typed -> tame (checkSetAdminOwner (D:=D) env lm n dn scope).
Proof.
  intros Ht. unfold checkSetAdminOwner, addAdminOwnerFor, set_after_exist.
  tread; first [apply tame_ownerSet|by apply tame_getAdminOwner|apply tame_execute; unfold ImmCmdOmAdminOwnerClear; tread].
Qed.
Lemma tame_take n dn scope : imm_typed -> tame (take_ownership (D:=D) env lm lock_mo n dn scope).
Proof. intros Ht. unfold take_ownership, lockDn. tread. by apply tame_checkSet. Qed.
Lemma tame_releaseAdminOwner dn scope : tame (releaseAdminOwner (D:=D) env lm dn scope).
Proof. unfold releaseAdminOwner, removeAdminOwnerFor. tread. apply tame_execute. unfold ImmCmdOmAdminOwnerRelease. tread. Qed.
Lemma tame_release_all scope l : tame (release_all (D:=D) env lm scope l).
Proof. induction l as [|dn l IH]; cbn [release_all]; tread; [apply tame_releaseAdminOwner|exact IH]. Qed.
Lemma tame_of_flag (o : option bool) : tame (of_option Undefined o : X bool).
Proof. destruct o; [by apply careful_ret|]. intros t tr _. by apply post_exit. Qed.
Lemma tame_release_deleted l : tame (release_deleted (D:=D) env lm l).
Proof.
  induction l as [|dn l IH]; cbn [release_deleted]; unfold removeAdminOwnerFor; tread; first [apply tame_of_flag|apply tame_releaseAdminOwner|exact IH].
Qed.
Lemma tame_release_owners : tame (release_owners (D:=D) env lm).
Proof. unfold release_owners, clearFinalModifiedObjectsList. tread; first [apply tame_release_all|apply tame_release_deleted]. Qed.

(** *** Prepare *)
Lemma tame_default_loop o key l b mods : (key = "id"%string -> Forall (fun a => attrName a = "id"%string -> exists s l, attrValues a = ImmString (Some s) :: l) l) ->
  tame (default_loop (D:=D) env o key l b mods).
Proof.
  revert b mods. induction l as [|a l IH]; intros b mods Hl; cbn [default_loop]; [tread|].
  assert (Hl' : key = "id"%string -> Forall (fun a => attrName a = "id"%string -> exists s l, attrValues a = ImmString (Some s) :: l) l) by (intros Hk; by apply Hl in Hk as [_ ?]%Forall_cons).
  destruct (decide (key = "id"%string)) as [->|Hk]; [rewrite (bool_decide_true ("id"%string = "id"%string)) by done|rewrite (bool_decide_false (key = "id"%string)) by done; tread; by apply IH].
  specialize (Hl eq_refl). apply Forall_cons in Hl as [Ha _]. apply tame_bind.
  - destruct (decide ("id"%string = attrName a)) as [He|He]; [rewrite bool_decide_true by done|rewrite bool_decide_false by done; cbn [andb]; tread].
    destruct b; cbn [negb andb]; [tread|]. destruct Ha as (s & vs & Hv); [done|]. unfold fetchAttrValue. rewrite Hv. tread.
  - intros f. apply tame_bind; [unfold struct_key; tread|]. intros k. destruct (snd k); [tread|]. by apply IH.
Qed.
Lemma tame_defaults l : Forall good_object l -> tame (defaults_to_remove (D:=D) env l).
Proof.
  induction 1 as [|o l Ho _ IH]; cbn [defaults_to_remove]; [tread|]. cbv zeta. tread; [|exact IH]. apply tame_default_loop. by intros _.
Qed.
Lemma tame_create n l : imm_typed -> tame (create_objects (D:=D) env lm lock_mo n l).
Proof.
  intros Ht. induction l as [|o l IH]; cbn [create_objects]; tread; first [by apply tame_take|apply tame_refused|exact IH|idtac].
  apply tame_execute. unfold ImmCmdOmCcbObjectCreate. tread.
Qed.
Lemma tame_delete n l : imm_typed -> tame (delete_objects (D:=D) env lm lock_mo n l).
Proof.
  intros Ht. induction l as [|o l IH]; cbn [delete_objects]; tread; first [by apply tame_take|apply tame_refused|exact IH|idtac].
  apply tame_execute. unfold ImmCmdOmCcbObjectDelete. tread.
Qed.
Lemma tame_modify_objects n l : imm_typed -> tame (modify_objects (D:=D) env lm lock_mo n l).
Proof.
  intros Ht. induction l as [|o l IH]; cbn [modify_objects]; tread; first [by apply tame_take|apply tame_refused|exact IH|idtac].
  apply tame_execute. unfold ImmCmdOmCcbObjectModify. tread.
Qed.
Lemma tame_prepare n : imm_typed -> tame (prepare (D:=D) env lm lock_mo n).
Proof.
  intros Ht. unfold prepare, clearFinalModifiedObjectsList, fill_ccb, GetListOfModifiedObjects, setFinalModifiedObjectsList, prepareListOfModifiedObjects. tread.
  all: try first [by apply tame_create|by apply tame_delete|by apply tame_modify_objects|by apply tame_defaults].
  - apply tame_execute. unfold ImmCmdOmCcbInit. tread.
  - unfold setFinalModifiedObjectsList. tread.
Qed.

(** ** Calls for one transaction leave the others and the map alone *)
Definition alike (s s' : Repo D) : Prop :=
  theContextMap s' = theContextMap s /\ dom (contexts s') = dom (contexts s) /\ numInstances s' = numInstances s /\ myOwnerIndex s' = myOwnerIndex s.
Definition fine (s : Repo D) : Prop := map_Forall (fun _ t => good t) (contexts s).
(** [stays P m]: as long as [P] holds of the map and the living contexts, [m] returns, or ends for the flag, and leaves them alone. *)
Definition stays {A} (P : StdMap Z ptr -> gset ptr -> Prop) (m : M txE (Repo D) A) : Prop :=
  forall s tr, fine s -> P (theContextMap s) (dom (contexts s)) ->
    post m (s, tr) (fun _ c => fine c.1 /\ alike s c.1) (fun w => w = Undefined).

Lemma alike_trans s s' s'' : alike s s' -> alike s' s'' -> alike s s''.
Proof. unfold alike. intros (? & ? & ? & ?) (? & ? & ? & ?). repeat split; congruence. Qed.
Lemma stays_bind {A B} P (m : M txE (Repo D) A) (k : A -> M txE (Repo D) B) : stays P m -> (forall a, stays P (k a)) -> stays P (m ≫= k).
Proof.
  intros Hm Hk s tr Hf HP. apply post_bind. eapply post_mono; [by apply Hm| |done]. intros a [s' tr'] [Hf' Ha]. cbn [fst] in *.
  pose proof Ha as (Hmap & Hdom & _). eapply post_mono; [apply (Hk a s' tr'); [done|by rewrite Hmap, Hdom]| |done].
  intros b c [Hf'' Hb]. split; [done|]. by eapply alike_trans.
Qed.
Lemma stays_ret {A} P (a : A) : stays P (mret a).
Proof. intros s tr Hf _. by apply sat_post, sat_ret. Qed.
Lemma stays_call {R} P (e : txE R) : stays P (call env e).
Proof. intros s tr Hf _. by apply sat_post, sat_call. Qed.
Lemma stays_when P b (m : M txE (Repo D) ()) : stays P m -> stays P (when b m).
Proof. destruct b; [done|]. intros _. apply stays_ret. Qed.
Lemma stays_on {A} (P : StdMap Z ptr -> gset ptr -> Prop) p (m : Z -> X A) : (forall m a, P m a -> p ∈ a) -> (forall n, tame (m n)) -> stays P (on p m).
Proof.
  intros Hp Hm s tr Hf HP. apply Hp, elem_of_dom in HP as [t Ht]. unfold post, on. cbn [fst snd]. rewrite Ht. specialize (Hm (numInstances s) t tr (Hf _ _ Ht)). unfold post in Hm.
  destruct (m (numInstances s) (t, tr)) as [[a|w] [t' tr']]; [|done]. destruct Hm as [Hd _]. cbn [fst] in *. split.
  - apply map_Forall_insert_2; [|done]. unfold good. rewrite Hd. by apply (Hf p).
  - repeat split. cbn. rewrite dom_insert_L. apply elem_of_dom_2 in Ht. set_solver.
Qed.
Definition leads_to (txh : Z) (p : ptr) (m : StdMap Z ptr) (a : gset ptr) : Prop := map_find m txh = Some p /\ p ∈ a.
Lemma stays_get {B} txh p (k : option ptr -> M txE (Repo D) B) : stays (leads_to txh p) (k (Some p)) -> stays (leads_to txh p) (getTxContext txh ≫= k).
Proof. intros Hk s tr Hf HP. apply post_bind, sat_post, sat_gets. cbn [fst snd]. destruct (HP) as [-> _]. by apply Hk. Qed.
Lemma stays_some {A B} P w (a : A) (k : A -> M txE (Repo D) B) : stays P (k a) -> stays P (of_option w (Some a) ≫= k).
Proof. done. Qed.
End system.

Ltac remain :=
  repeat lazymatch goal with
    | |- stays _ (mbind _ (getTxContext _)) => apply stays_get
    | |- stays _ (mbind _ (of_option _ (Some _))) => apply stays_some
    | |- stays _ (mbind _ _) => apply stays_bind; [|intros ?]
    | |- stays _ (mret _) => apply stays_ret
    | |- stays _ (when _ _) => apply stays_when
    | |- stays _ (call _ _) => apply stays_call
    | |- stays _ (on _ _) => apply stays_on; [by intros ? ? [_ ?]|intros ?]
    | |- stays _ (if ?b then _ else _) => destruct b
    | |- stays _ (match ?o with Some _ => _ | None => _ end) => destruct o
    | |- stays _ (let '(_, _) := ?x in _) => destruct x
    end.

Create HintDb stays discriminated.

(** ** The values of a map *)
Section values.
Context {K V : Type} `{StrictKeyOrder K} `{EqDecision K}.
Implicit Types (m : StdMap K V).
Lemma bind_single (l : list V) : l ≫= (fun v => [v]) = l.
Proof. induction l as [|v l IH]; [done|]. cbn. by f_equal. Qed.
Lemma values_split m k v : ordered m -> map_find m k = Some v -> m.*2 ≡ₚ v :: (map_erase m k).*2.
Proof. intros Ho Hk. pose proof (collect_split (fun v => [v]) m k v Ho Hk) as Hs. by rewrite !bind_single in Hs. Qed.
Lemma values_insert m k v : map_find m k = None -> (map_insert m k v).*2 ≡ₚ v :: m.*2.
Proof. intros Hk. pose proof (collect_insert (fun v => [v]) m k v Hk) as Hs. by rewrite !bind_single in Hs. Qed.
Lemma values_update m k v f : ordered m -> map_find m k = Some v -> (map_update m k f).*2 ≡ₚ f v :: (map_erase m k).*2.
Proof. intros Ho Hk. pose proof (collect_update (fun v => [v]) m k v f Ho Hk) as Hs. by rewrite !bind_single in Hs. Qed.
End values.

Section facts.
Context {D : Type} `{CacheLists D} (env : environment txE) (lm lock_mo spi : bool).
Context (Htyped : imm_typed env) (Hgood : good_lists (no_objects : D)).
Implicit Types (s : Repo D).
Abbreviation R := (M txE (Repo D)).

Record living (extra : list ptr) s : Prop := {
  live_order : ordered (theContextMap s);
  live_once : NoDup (extra ++ (theContextMap s).*2);
  live_dom : dom (contexts s) = list_to_set (extra ++ (theContextMap s).*2);
  live_count : numInstances s = Z.of_nat (length (extra ++ (theContextMap s).*2));
  live_fine : fine s
}.
Lemma living_in_step s : living [] s <-> in_step s.
Proof.
  split; intros []; constructor; cbn in *; rewrite ?length_fmap in *; done.
Qed.
Lemma living_alike extra s s' : living extra s -> fine s' -> alike s s' -> living extra s'.
Proof. intros [] Hf (Hm & Hd & Hn & _). constructor; rewrite ?Hm, ?Hd, ?Hn; done. Qed.
(** Only which contexts there are matters. *)
Lemma living_perm extra extra' s m : extra' ++ m.*2 ≡ₚ extra ++ (theContextMap s).*2 -> ordered m -> living extra s -> living extra' (set_map m s).
Proof.
  intros Hp Ho []. constructor; cbn; [done| | | |done].
  - by rewrite Hp.
  - rewrite live_dom0. by apply list_to_set_perm_L.
  - rewrite live_count0. by rewrite Hp.
Qed.

(** [m] leads from contexts as in [living extra] to [living extra'] of the answer. *)
Definition turns {A} extra (m : R A) (extra' : A -> list ptr) : Prop :=
  forall s tr, living extra s -> post m (s, tr) (fun a c => living (extra' a) c.1) (fun w => w = Undefined).
Lemma turns_bind {A B} extra (m : R A) extra' (k : A -> R B) extra'' :
  turns extra m extra' -> (forall a, turns (extra' a) (k a) extra'') -> turns extra (m ≫= k) extra''.
Proof. intros Hm Hk s tr Hs. apply post_bind. eapply post_mono; [by apply Hm| |done]. intros a [s' tr'] Hs'. by apply Hk. Qed.
Lemma turns_then {A B} extra (m : R A) extra1 (k : A -> R B) extra'' :
  turns extra m (fun _ => extra1) -> (forall a, turns extra1 (k a) extra'') -> turns extra (m ≫= k) extra''.
Proof. intros Hm Hk. by eapply turns_bind. Qed.
Lemma turns_ret {A} extra (a : A) : turns extra (mret a) (fun _ => extra).
Proof. intros s tr Hs. by apply sat_post, sat_ret. Qed.
Lemma turns_call {Q} extra (e : txE Q) : turns extra (call env e) (fun _ => extra).
Proof. intros s tr Hs. by apply sat_post, sat_call. Qed.
Lemma turns_stays {A} extra (P : StdMap Z ptr -> gset ptr -> Prop) (m : R A) : (forall s, living extra s -> P (theContextMap s) (dom (contexts s))) -> stays P m -> turns extra m (fun _ => extra).
Proof.
  intros HP Hm s tr Hs. eapply post_mono; [apply Hm; [apply Hs|by apply HP]| |done]. intros a c [Hf Ha]. by eapply living_alike.
Qed.
Lemma turns_on {A} p extra (m : Z -> M txE (TxContext D) A) : p ∈ extra -> (forall n, careful (m n) always) -> turns extra (on p m) (fun _ => extra).
Proof.
  intros Hp Hm. apply (turns_stays _ (fun _ a => p ∈ a)).
  - intros s Hs. rewrite (live_dom _ _ Hs). apply elem_of_list_to_set. set_solver.
  - by apply stays_on.
Qed.

(** ** Constructor and destructor *)
Lemma turns_new b : turns [] (new_context env b) (fun p => [p]).
Proof.
  intros s tr Hs. unfold new_context, OamSACache_new. apply post_bind, post_bind, sat_post, sat_call. intros r _. cbn [fst snd].
  assert (Hnew : forall tr' (c : OamSACache D), lists c = no_objects ->
    post (s0 ← get; put (set_instances (numInstances s0 + 1) (set_contexts (<[fresh (dom (contexts s0)):=TxContext_new b c]> (contexts s0)) s0)) ;; mret (fresh (dom (contexts s0))) : R ptr) (s, tr')
      (fun p c => living [p] c.1) (fun w => w = Undefined)).
  { intros tr' c Hc. apply post_bind, sat_post, sat_get. cbn [fst]. apply sat_post. apply sat_bind, sat_put, sat_ret. cbn [fst snd].
    pose proof (is_fresh (dom (contexts s))) as Hp. set (p := fresh _) in *. rewrite (live_dom _ _ Hs) in Hp. cbn [app] in Hp. rewrite elem_of_list_to_set in Hp.
    destruct Hs. constructor; cbn; [done| | | |].
    - by constructor.
    - rewrite dom_insert_L, live_dom0. cbn. set_solver.
    - rewrite live_count0. cbn. lia.
    - apply map_Forall_insert_2; [|done]. unfold good. cbn. by rewrite Hc. }
  destruct (bool_decide (fst r <> SA_AIS_OK)); [apply sat_post, sat_ret; by apply Hnew|].
  apply post_bind, sat_post, sat_call. intros a _. destruct (bool_decide (fst a <> SA_AIS_OK)); apply sat_post, sat_ret; by apply Hnew.
Qed.

Lemma tame_give_back h e f : (forall t, lists (mCache (f t)) = lists (mCache t)) -> careful (D:=D) (give_back env h e f) always.
Proof.
  intros Hf. unfold give_back. apply (careful_bind _ _ always); [by apply careful_get|]. intros t _. destruct (_ =? 0); [by apply careful_ret|].
  apply (careful_bind _ _ always); [by apply careful_call|]. intros rc _. apply careful_when. by apply careful_modify.
Qed.
Lemma tame_searches l : careful (D:=D) (finalize_searches env l) always.
Proof. induction l as [|[k h] l IH]; cbn [finalize_searches]; [by apply careful_ret|]. apply tame_bind; [by apply careful_call|done]. Qed.
Lemma tame_delete_tx : careful (D:=D) (TxContext_delete env) always.
Proof.
  unfold TxContext_delete, OamSACache_delete. apply tame_bind; [by apply tame_give_back|intros _]. apply (careful_bind _ _ always); [by apply careful_get|intros t _].
  apply tame_bind; [apply tame_searches|intros _]. do 3 (apply tame_bind; [by apply tame_give_back|intros _]).
  apply careful_when. do 2 (apply tame_bind; [by apply careful_call|intros _]). by apply careful_ret.
Qed.
Lemma turns_delete p extra : turns (p :: extra) (delete_context env p) (fun _ => extra).
Proof.
  unfold delete_context. eapply turns_then; [apply turns_on; [left|intros n; apply tame_delete_tx]|]. intros _ s tr []. apply sat_post, sat_modify. cbn in *.
  apply NoDup_cons in live_once0 as [Hp Hnd]. constructor; cbn; [done|done| | |].
  - rewrite dom_delete_L, live_dom0. apply set_eq. intros q. rewrite elem_of_difference, elem_of_union, elem_of_singleton, !elem_of_list_to_set. split; [naive_solver|]. intros Hq. split; [by right|]. by intros ->.
  - rewrite live_count0. lia.
  - by apply map_Forall_delete.
Qed.
Lemma turns_delete_all l extra : turns (l ++ extra) (delete_contexts env l) (fun _ => extra).
Proof. induction l as [|p l IH]; cbn [delete_contexts app]; [apply turns_ret|]. eapply turns_then; [apply turns_delete|]. intros _. apply IH. Qed.

(** ** Opening and closing a transaction *)
Lemma turns_fail p : turns [p] (delete_context env p ;; mret None) (fun _ : option ptr => []).
Proof. eapply turns_then; [apply turns_delete|]. intros _. apply turns_ret. Qed.
Lemma tame_init : careful (D:=D) (execute env lm (ImmCmdOmInit env)) always.
Proof. apply tame_execute. unfold ImmCmdOmInit. apply tame_bind; [by apply careful_call|intros r]. apply tame_bind; [by apply careful_modify|intros _]. by apply careful_ret. Qed.
Lemma tame_accessor : careful (D:=D) (execute env lm (ImmCmdOmAccessorInit env)) always.
Proof.
  apply tame_execute. unfold ImmCmdOmAccessorInit. apply (careful_bind _ _ always); [by apply careful_get|intros t _]. apply tame_bind; [by apply careful_call|intros r].
  apply tame_bind; [by apply careful_modify|intros _]. by apply careful_ret.
Qed.
Lemma tame_owner name b : careful (D:=D) (execute env lm (ImmCmdOmAdminOwnerInit env name b)) always.
Proof.
  apply tame_execute. unfold ImmCmdOmAdminOwnerInit. apply (careful_bind _ _ always); [by apply careful_get|intros t _]. apply tame_bind; [by apply careful_call|intros r].
  apply tame_bind; [by apply careful_modify|intros _]. by apply careful_ret.
Qed.
Lemma turns_assign txh p {B} (k : R B) : turns [] k (fun _ => []) ->
  turns [p] (s ← get; match map_find (theContextMap s) txh with
                      | None => put (set_map (map_insert (theContextMap s) txh p) s)
                      | Some old => put (set_map (map_update (theContextMap s) txh (fun _ => p)) s) ;; delete_context env old
                      end ;; k) (fun _ => []).
Proof.
  intros Hk s tr Hs. apply post_bind, sat_post, sat_get. cbn [fst snd]. pose proof (live_order _ _ Hs) as Ho. destruct (map_find (theContextMap s) txh) as [old|] eqn:Ef.
  - apply post_bind, post_bind, sat_post, sat_put. cbn [fst snd]. eapply post_mono; [apply (turns_delete old [])| |done].
    + apply (living_perm [p]); [|by apply update_ordered|done]. cbn [app].
      rewrite (values_update _ _ old) by done. rewrite (values_split (theContextMap s) txh old) by done. apply Permutation_swap.
    + intros _ [s' tr'] Hs'. by apply Hk.
  - apply post_bind, sat_post, sat_put. apply Hk. apply (living_perm [p]); [|by apply insert_ordered|done]. cbn [app]. by apply values_insert.
Qed.
Lemma turns_newTx txh : turns [] (newTxContext env lm txh) (fun _ => []).
Proof.
  unfold newTxContext. eapply turns_bind; [apply turns_new|]. intros p. cbv beta.
  eapply turns_then; [apply turns_on; [left|intros n; apply tame_init]|]. intros rc. destruct (bool_decide _); [apply turns_fail|].
  eapply turns_then; [apply turns_on; [left|intros n; apply tame_accessor]|]. intros rc'. destruct (bool_decide _); [apply turns_fail|].
  intros s tr Hs. apply post_bind, sat_post, sat_get. cbn [fst snd]. apply post_bind, sat_post, sat_put. cbn [fst snd].
  assert (living [p] (set_index (wrap_s 32 (myOwnerIndex s + 1)) s)) as Hs' by (by destruct Hs; constructor). revert Hs'. generalize (set_index (wrap_s 32 (myOwnerIndex s + 1)) s). intros s' Hs'.
  apply (turns_then [p] _ [p] _ (fun _ => [])); [apply turns_on; [left|intros n; apply tame_owner]| |done].
  intros rc''. destruct (bool_decide _); [apply turns_fail|]. apply turns_assign, turns_ret.
Qed.
Lemma turns_join txh : turns [] (OamSAJoin env lm spi txh) (fun _ => []).
Proof.
  unfold OamSAJoin. eapply turns_then; [apply turns_newTx|]. intros [p|]; [|apply turns_ret]. destruct spi; [|apply turns_ret].
  eapply turns_then; [apply turns_call|]. intros _. apply turns_ret.
Qed.
Lemma turns_clear : turns [] (ClearContextMap env) (fun _ => []).
Proof.
  intros s tr Hs. unfold ClearContextMap. apply post_bind, sat_post, sat_get. cbn [fst snd]. apply post_bind, sat_post, sat_put. cbn [fst snd].
  apply (turns_delete_all (theContextMap s).*2 []). apply (living_perm []); [by rewrite !app_nil_r|done|done].
Qed.

(** ** Calls for a transaction that exists *)
Section known.
Context (txh : Z) (p : ptr).
Abbreviation stays m := (stays (D:=D) (leads_to txh p) m).

Lemma tame_call_ccb (e : Z -> txE SaAisErrorT) : careful (D:=D) (execute env lm (t ← get; call env (e (mCcbHandle t)))) always.
Proof. apply tame_execute. apply (careful_bind _ _ always); [by apply careful_get|intros t _]. by apply careful_call. Qed.
Lemma tame_finalize : careful (D:=D) (execute env lm (ImmCmdOmCcbFinalize env)) always.
Proof.
  apply tame_execute. unfold ImmCmdOmCcbFinalize. apply (careful_bind _ _ always); [by apply careful_get|intros t _]. apply tame_bind; [by apply careful_call|intros r].
  apply tame_bind; [by apply careful_modify|intros _]. by apply careful_ret.
Qed.
Lemma tame_status st : careful (D:=D) (modify (set_status st)) always.
Proof. by apply careful_modify. Qed.
Lemma stays_finalize : stays (on p (fun _ => execute env lm (ImmCmdOmCcbFinalize env))).
Proof. remain. apply tame_finalize. Qed.
Lemma stays_abort : stays (on p (fun _ => execute env lm (ImmCmdOmCcbAbort env))).
Proof. remain. apply tame_call_ccb. Qed.
Lemma stays_validate_ccb : stays (on p (fun _ => execute env lm (ImmCmdOmCcbValidate env))).
Proof. remain. apply tame_call_ccb. Qed.
Lemma stays_apply_ccb : stays (on p (fun _ => execute env lm (ImmCmdOmCcbApply env))).
Proof. remain. apply tame_call_ccb. Qed.
Lemma stays_messages b : stays (on p (fun _ => getAndForwardErrorStrings env b)).
Proof. remain. apply tame_getAndForward. Qed.
Lemma stays_status st : stays (on p (fun _ => modify (set_status st))).
Proof. remain. apply tame_status. Qed.
Lemma stays_read {A} (f : TxContext D -> A) : stays (on p (fun _ => gets f)).
Proof. remain. apply careful_gets. Qed.
Lemma stays_prepare : stays (OamSAPrepare env lm lock_mo txh).
Proof. unfold OamSAPrepare. remain. by apply tame_prepare. Qed.
Lemma stays_release : stays (releaseAdminOwnerForDn env lm txh).
Proof. unfold releaseAdminOwnerForDn. remain. apply tame_release_owners. Qed.
End known.
#[local] Hint Resolve stays_finalize stays_abort stays_validate_ccb stays_apply_ccb stays_messages stays_status stays_read stays_prepare stays_release : stays.

Section known.
Context (txh : Z) (p : ptr).
Abbreviation stays m := (stays (D:=D) (leads_to txh p) m).

(** What is left of a program after the structural rules and the lemmas of the parts. *)
Ltac stay :=
  repeat lazymatch goal with
    | |- TxSystem.stays _ (mbind _ (getTxContext _)) => apply stays_get
    | |- TxSystem.stays _ (mbind _ (of_option _ (Some _))) => apply stays_some
    | |- TxSystem.stays _ (mbind _ _) => apply stays_bind; [|intros ?]
    | |- TxSystem.stays _ (mret _) => apply stays_ret
    | |- TxSystem.stays _ (when _ _) => apply stays_when
    | |- TxSystem.stays _ (call _ _) => apply stays_call
    | |- TxSystem.stays _ (if ?b then _ else _) => destruct b
    | |- TxSystem.stays _ (match ?o with Some _ => _ | None => _ end) => destruct o
    | |- TxSystem.stays _ (let '(_, _) := ?x in _) => destruct x
    end; eauto with stays nocore.

Lemma stays_handle_failed : stays (handleCcbOnFailedOperation env lm txh).
Proof. unfold handleCcbOnFailedOperation. stay. Qed.
Lemma stays_prepare_again rc n : stays (prepare_again env lm lock_mo txh p rc n).
Proof. revert rc. induction n as [|n IH]; intros rc; cbn [prepare_again]; stay. Qed.
Lemma stays_handle_abort b : stays (handlePrepareOnImmAbort env lm lock_mo txh b).
Proof. unfold handlePrepareOnImmAbort. stay. apply stays_prepare_again. Qed.
Lemma stays_abort_and_release : stays (abort_and_release env lm txh p).
Proof. unfold abort_and_release. stay. Qed.
Lemma stays_abort_previous : stays (abort_previous env lm p).
Proof. unfold abort_previous. stay. Qed.
Lemma stays_validate_again rc err n : stays (validate_again env lm lock_mo txh p rc err n).
Proof.
  revert rc err. induction n as [|n IH]; intros rc err; cbn [validate_again]; stay; first [apply stays_handle_failed|apply stays_handle_abort].
Qed.
Lemma stays_validate : stays (OamSAValidate env lm lock_mo txh).
Proof.
  unfold OamSAValidate. stay; first [apply stays_abort_previous|apply stays_handle_abort|apply stays_abort_and_release|apply stays_validate_again].
Qed.
Lemma stays_apply_again err n : stays (apply_again env lm lock_mo txh p err n).
Proof.
  revert err. induction n as [|n IH]; intros err; cbn [apply_again]; stay; first [apply stays_handle_failed|apply stays_validate].
Qed.
Lemma stays_commit : stays (OamSACommit env lm lock_mo txh).
Proof. unfold OamSACommit. stay. apply stays_apply_again. Qed.
Lemma stays_work d : good_lists d -> stays (work txh d).
Proof.
  intros Hd s tr Hs Hp. unfold work. apply post_bind, sat_post, sat_gets. cbn [fst snd]. destruct Hp as [-> Hp]. apply elem_of_dom in Hp as [t Ht].
  unfold on, post. cbn [fst snd]. rewrite Ht. cbn. split.
  - by apply map_Forall_insert_2.
  - repeat split. cbn. rewrite dom_insert_L. apply elem_of_dom_2 in Ht. set_solver.
Qed.
End known.

(** ** Every call *)
Lemma turns_known {A} txh (m : R A) : (forall p, stays (leads_to txh p) m) ->
  (forall s tr, map_find (theContextMap s) txh = None -> exists a, m (s, tr) = (Ret a, (s, tr))) -> turns [] m (fun _ => []).
Proof.
  intros Hp Hn s tr Hs. destruct (map_find (theContextMap s) txh) as [p|] eqn:Ef.
  - eapply post_mono; [apply (Hp p); [apply Hs|]| |done].
    + split; [done|]. rewrite (live_dom _ _ Hs). apply elem_of_list_to_set. cbn. apply list_elem_of_fmap. exists (txh, p). split; [done|]. by apply find_elem.
    + intros a c [Hf Ha]. by eapply living_alike.
  - destruct (Hn s tr Ef) as [a Ha]. unfold post. by rewrite Ha.
Qed.
Lemma unknown {B} txh (k : option ptr -> R B) s tr : map_find (theContextMap s) txh = None -> (getTxContext txh ≫= k) (s, tr) = k None (s, tr).
Proof. intros Ef. unfold getTxContext, gets, mbind, M_bind. cbn. by rewrite Ef. Qed.

Lemma turns_finish txh : turns [] (OamSAFinish env lm txh) (fun _ => []).
Proof.
  intros s tr Hs. unfold OamSAFinish. destruct (map_find (theContextMap s) txh) as [p|] eqn:Ef.
  2: { unfold post. rewrite unknown by done. exact Hs. }
  apply post_bind, sat_post, sat_gets. cbn [fst snd]. rewrite Ef.
  assert (Hin : leads_to txh p (theContextMap s) (dom (contexts s))).
  { split; [done|]. rewrite (live_dom _ _ Hs). apply elem_of_list_to_set. cbn. apply list_elem_of_fmap. exists (txh, p). split; [done|]. by apply find_elem. }
  set (P := leads_to txh p). apply post_bind. eapply post_mono; [apply (stays_read txh p mCcbHandle); [apply Hs|done]| |done].
  intros h [s1 tr1] [Hf1 Ha1]. cbn [fst] in *. apply post_bind.
  eapply post_mono; [apply (stays_when P (negb (h =? 0)) (on p (fun _ => execute env lm (ImmCmdOmCcbFinalize env)) ;; mret ())); [|done|]| |done].
  { apply stays_bind; [apply stays_finalize|intros ?; apply stays_ret]. }
  { destruct Ha1 as (Hm & Hd & _). by rewrite Hm, Hd. }
  intros _ [s2 tr2] [Hf2 Ha2]. cbn [fst] in *. pose proof (alike_trans _ _ _ Ha1 Ha2) as Ha. pose proof (living_alike _ _ _ Hs Hf2 Ha) as Hs2.
  unfold delTxContext. apply post_bind, post_bind, sat_post, sat_get. cbn [fst snd]. destruct Ha as (Hm & _). rewrite <- Hm in Ef. rewrite Ef.
  apply post_bind, sat_post, sat_put. apply sat_post, sat_ret. cbn [fst snd when]. apply post_bind. eapply post_mono; [apply (turns_delete p [])| |done].
  - apply (living_perm []); [|apply erase_ordered, Hs2|done]. cbn [app]. symmetry. apply values_split; [apply Hs2|done].
  - intros _ [s3 tr3] Hs3. by apply sat_post, sat_ret.
Qed.

Theorem serve_in_step r : good_request r -> turns [] (serve env lm lock_mo spi r) (fun _ => []).
Proof.
  assert (Hvoid : forall A (m : R A), turns [] m (fun _ => []) -> turns [] (m ;; mret ()) (fun _ => [])).
  { intros A m Hm. eapply turns_then; [exact Hm|]. intros _. apply turns_ret. }
  intros Hr. destruct r; cbn [serve]; try apply Hvoid.
  - apply turns_join.
  - apply (turns_known txh); [intros p; apply stays_prepare|]. intros s tr Ef. exists MafNotExist. unfold OamSAPrepare. by rewrite unknown.
  - apply (turns_known txh); [intros p; apply stays_validate|]. intros s tr Ef. exists (MafNotExist, true). unfold OamSAValidate. by rewrite unknown.
  - apply (turns_known txh); [intros p; apply stays_commit|]. intros s tr Ef. exists MafNotExist. unfold OamSACommit. by rewrite unknown.
  - apply turns_ret.
  - apply turns_finish.
  - apply turns_clear.
  - apply (turns_known txh); [intros p; by apply stays_work|]. intros s tr Ef. exists (). unfold work. by rewrite unknown.
Qed.
End facts.
