(* ===== verification/TxBounds.v ===== *)
(** * Transactions: how often a commit tries

    [bounded a b m]: whatever IMM answers, [m] calls [saImmOmCcbApply] at most [a] times and makes at most [b]
    pauses of one second; the shorter pauses inside of a command are not counted. *)
From Stdlib Require Import ZArith Lia.
From stdpp Require Import base gmap list strings.
From S2P Require Import Prelude Marks StdMap Codes NtfData TxData TxCommands TxBridge TxSpi.

Open Scope Z_scope.

Inductive try := ApplyCall | Pause.
#[export] Instance try_eq_dec : EqDecision try.
Proof. solve_decision. Defined.
Definition try_mark (e : event txE) : option try :=
  match e with
  | Ev (saImmOmCcbApply _) _ => Some ApplyCall
  | Ev (usleep n) _ => if n =? MICROS_PER_SEC then Some Pause else None
  | _ => None
  end.
Definition count (x : try) (l : list try) : nat := length (filter (fun y => y = x) l).
Lemma count_app x l l' : count x (l ++ l') = (count x l + count x l')%nat.
Proof. unfold count. by rewrite filter_app, length_app. Qed.

Section bounds.
Context {D : Type} `{CacheLists D} (env : environment txE) (lm lock_mo spi : bool).
Abbreviation X := (M txE (TxContext D)).
Abbreviation R := (M txE (Repo D)).

Definition bounded {S A} (a b : nat) (m : M txE S A) : Prop :=
  forall s, emits try_mark m s (fun _ _ l => count ApplyCall l <= a /\ count Pause l <= b)%nat.

Lemma bounded_bind {S A B} a b a' b' (m : M txE S A) (k : A -> M txE S B) :
  bounded a b m -> (forall x, bounded a' b' (k x)) -> bounded (a + a') (b + b') (m ≫= k).
Proof.
  intros Hm Hk s. apply emits_bind. eapply emits_mono; [apply Hm|]. intros x s' l [Ha Hb]. eapply emits_mono; [apply Hk|].
  intros y s'' l' [Ha' Hb']. rewrite !count_app. lia.
Qed.
Lemma bounded_mono {S A} a b a' b' (m : M txE S A) : bounded a b m -> (a <= a')%nat -> (b <= b')%nat -> bounded a' b' m.
Proof. intros Hm Ha Hb s. eapply emits_mono; [apply Hm|]. intros x s' l [? ?]. lia. Qed.
Lemma bounded_none {S A} a b (m : M txE S A) : silent try_mark m -> bounded a b m.
Proof. intros Hm s. apply Hm. intros x s'. cbn. lia. Qed.
Lemma bounded_next {S A B} a b (m : M txE S A) (k : A -> M txE S B) : silent try_mark m -> (forall x, bounded a b (k x)) -> bounded a b (m ≫= k).
Proof. intros Hm Hk. apply (bounded_bind 0 0 a b); [by apply bounded_none|done]. Qed.
Lemma bounded_then {S A B} a b (m : M txE S A) (k : A -> M txE S B) : bounded a b m -> (forall x, silent try_mark (k x)) -> bounded a b (m ≫= k).
Proof.
  intros Hm Hk s. apply emits_bind. eapply emits_mono; [apply Hm|]. intros x s' l Hl. apply Hk. intros y s''. by rewrite app_nil_r.
Qed.
Lemma bounded_ret {S A} a b (x : A) : bounded a b (mret x : M txE S A).
Proof. apply bounded_none, silent_ret. Qed.
Lemma bounded_on {A} a b p (m : Z -> X A) : (forall n, bounded a b (m n)) -> bounded a b (on p m).
Proof.
  intros Hm s tr. unfold post, on. cbn [fst snd]. destruct (contexts s !! p) as [t|]; [|done]. specialize (Hm (numInstances s) t tr). unfold post in Hm.
  destruct (m (numInstances s) (t, tr)) as [[x|w] [t' tr']]; done.
Qed.
Lemma silent_on {A} p (m : Z -> X A) : (forall n, silent try_mark (m n)) -> silent try_mark (on p m).
Proof.
  intros Hm s Q HQ tr. unfold post, on. cbn [fst snd]. destruct (contexts s !! p) as [t|]; [|done].
  specialize (Hm (numInstances s) t (fun x t' l => l = []) (fun _ _ => eq_refl) tr). unfold post in Hm.
  destruct (m (numInstances s) (t, tr)) as [[x|w] [t' tr']]; [|done]. destruct Hm as (new & Hnew & Hl). exists new. cbn [fst snd] in *. rewrite Hl. split; [done|apply HQ].
Qed.
Lemma silent_gets {S A} (f : S -> A) : silent try_mark (gets f).
Proof. intros s Q HQ tr. apply sat_post, sat_gets. exists []. rewrite app_nil_r. split; [done|apply HQ]. Qed.

(** Like [silence], but a program with a lemma of its own is left to it. *)
Ltac hush :=
  repeat lazymatch goal with
    | |- silent _ (mbind _ _) => apply silent_bind; [|intros ?]
    | |- silent _ (mret _) => apply silent_ret
    | |- silent _ get => apply silent_get
    | |- silent _ (gets _) => apply silent_gets
    | |- silent _ (put _) => apply silent_put
    | |- silent _ (modify _) => apply silent_modify
    | |- silent _ (exit _) => apply silent_exit
    | |- silent _ (of_option _ _) => apply silent_of_option
    | |- silent _ (when _ _) => apply silent_when
    | |- silent _ (call _ _) => apply silent_call; intros ?; reflexivity
    | |- silent _ (on _ _) => apply silent_on; intros ?
    | |- silent _ (getTxContext _) => apply silent_gets
    | |- silent _ (match ?x with _ => _ end) => destruct x
    | |- silent _ (let _ := _ in _) => cbv zeta
    end.

Lemma silent_attempts {A} (code : A -> SaAisErrorT) (m : X A) n : silent try_mark m -> silent try_mark (attempts env lm code m n).
Proof. intros Hm. induction n as [|n IH]; cbn [attempts]; hush; done. Qed.
Lemma silent_execute (m : X SaAisErrorT) : silent try_mark m -> silent try_mark (execute env lm m).
Proof. apply silent_attempts. Qed.
Lemma silent_execute_get {A} (m : X (SaAisErrorT * A)) : silent try_mark m -> silent try_mark (execute_get env lm m).
Proof. apply silent_attempts. Qed.
(** The number of calls is the one of [mRetries]. *)
Lemma bounded_apply p : bounded mRetries 0 (on p (fun _ => execute env lm (ImmCmdOmCcbApply (D:=D) env))).
Proof.
  apply bounded_on. intros _. unfold execute. change mRetries with (S (pred mRetries)) at 1. generalize (pred mRetries) as n. intros n.
  assert (Hone : bounded 1 0 (ImmCmdOmCcbApply (D:=D) env)).
  { intros t. apply emits_bind, emits_get, emits_call. intros rc. change (1 <= 1 /\ 0 <= 0)%nat; lia. }
  induction n as [|n IH]; cbn [attempts].
  - apply (bounded_bind 1 0 0 0); [done|]. intros rc. apply bounded_none. hush.
  - apply (bounded_bind 1 0 (S n) 0); [done|]. intros rc. destruct (to_repeat _ _); [|apply bounded_ret]. apply bounded_next; [hush|]. by intros _.
Qed.
#[local] Opaque execute execute_get.

Lemma silent_forward b l : silent try_mark (forward (D:=D) env b l).
Proof. induction l as [|s l IH]; cbn [forward]; hush. exact IH. Qed.
Lemma silent_messages b : silent try_mark (getAndForwardErrorStrings (D:=D) env b).
Proof. unfold getAndForwardErrorStrings. hush. apply silent_forward. Qed.
Lemma silent_set_again (m : X SaAisErrorT) err n : silent try_mark m -> silent try_mark (set_again env m err n).
Proof. intros Hm. revert err. induction n as [|n IH]; intros err; cbn [set_again]; hush; [done|apply IH]. Qed.
Lemma silent_take n dn scope : silent try_mark (take_ownership (D:=D) env lm lock_mo n dn scope).
Proof.
  unfold take_ownership, lockDn, checkSetAdminOwner, set_after_exist, getAdminOwner, addAdminOwnerFor. hush.
  all: first [apply silent_execute|apply silent_execute_get]; unfold ImmCmdOmAdminOwnerSet, ImmCmdOmAdminOwnerClear, ImmCmdOmAccessorGet; hush; apply silent_set_again; hush.
Qed.
Lemma silent_releaseAdminOwner dn scope : silent try_mark (releaseAdminOwner (D:=D) env lm dn scope).
Proof. unfold releaseAdminOwner, removeAdminOwnerFor. hush. apply silent_execute. unfold ImmCmdOmAdminOwnerRelease. hush. Qed.
Lemma silent_release_all scope l : silent try_mark (release_all (D:=D) env lm scope l).
Proof. induction l as [|dn l IH]; cbn [release_all]; hush; [apply silent_releaseAdminOwner|exact IH]. Qed.
Lemma silent_release_deleted l : silent try_mark (release_deleted (D:=D) env lm l).
Proof. induction l as [|dn l IH]; cbn [release_deleted]; unfold removeAdminOwnerFor; hush; first [apply silent_releaseAdminOwner|exact IH]. Qed.
Lemma silent_release txh : silent try_mark (releaseAdminOwnerForDn (D:=D) env lm txh).
Proof.
  unfold releaseAdminOwnerForDn, release_owners, clearFinalModifiedObjectsList. hush; first [apply silent_release_all|apply silent_release_deleted].
Qed.
Lemma silent_finalize p : silent try_mark (on p (fun _ => execute env lm (ImmCmdOmCcbFinalize (D:=D) env))).
Proof. hush. apply silent_execute. unfold ImmCmdOmCcbFinalize. hush. Qed.
Lemma silent_refused rc : silent try_mark (refused (D:=D) env rc).
Proof. unfold refused. hush; apply silent_messages. Qed.
Lemma silent_loops n : (forall l, silent try_mark (create_objects (D:=D) env lm lock_mo n l)) /\ (forall l, silent try_mark (delete_objects (D:=D) env lm lock_mo n l)) /\
  (forall l, silent try_mark (modify_objects (D:=D) env lm lock_mo n l)).
Proof.
  repeat split; intros l; (induction l as [|o l IH]; [apply silent_ret|]); cbn [create_objects delete_objects modify_objects]; hush; first [apply silent_take|apply silent_refused|exact IH|idtac].
  all: apply silent_execute; unfold ImmCmdOmCcbObjectCreate, ImmCmdOmCcbObjectDelete, ImmCmdOmCcbObjectModify; hush.
Qed.
Lemma silent_default_loop o key l b mods : silent try_mark (default_loop (D:=D) env o key l b mods).
Proof. revert b mods. induction l as [|a l IH]; intros b mods; cbn [default_loop]; unfold fetchAttrValue, struct_key; hush; apply IH. Qed.
Lemma silent_defaults l : silent try_mark (defaults_to_remove (D:=D) env l).
Proof. induction l as [|o l IH]; cbn [defaults_to_remove]; hush; [apply silent_default_loop|exact IH]. Qed.
Lemma silent_prepare txh : silent try_mark (OamSAPrepare env lm lock_mo (D:=D) txh).
Proof.
  unfold OamSAPrepare, prepare, clearFinalModifiedObjectsList, fill_ccb, GetListOfModifiedObjects, setFinalModifiedObjectsList, prepareListOfModifiedObjects. hush.
  all: try first [apply silent_loops|apply silent_defaults].
  - apply silent_execute. unfold ImmCmdOmCcbInit. hush.
  - unfold setFinalModifiedObjectsList. hush.
Qed.
Lemma silent_handle_failed txh : silent try_mark (handleCcbOnFailedOperation (D:=D) env lm txh).
Proof. unfold handleCcbOnFailedOperation. hush; first [apply silent_messages|apply silent_finalize|apply silent_release|idtac]; apply silent_execute; unfold ImmCmdOmCcbFinalize; hush. Qed.

(** ** The loops *)
Lemma bounded_pause {A} a b (k : R A) : bounded a b k -> bounded a (S b) (call env (usleep MICROS_PER_SEC) ;; k).
Proof.
  intros Hk. apply (bounded_bind 0 1 a b); [|by intros _]. intros s. apply emits_call. intros []. change (0 <= 0 /\ 1 <= 1)%nat. lia.
Qed.
Lemma bounded_prepare_again txh p rc n : bounded 0 n (prepare_again (D:=D) env lm lock_mo txh p rc n).
Proof.
  revert rc. induction n as [|n IH]; intros rc; cbn [prepare_again]; [apply bounded_ret|]. destruct (bool_decide _); [|apply bounded_ret].
  apply bounded_next; [apply silent_finalize|intros _]. apply bounded_next; [apply silent_release|intros _]. apply bounded_next; [hush|intros _].
  apply bounded_pause. apply bounded_next; [apply silent_prepare|apply IH].
Qed.
Lemma bounded_handle_abort txh b : bounded 0 IMM_ABORT_RETRIES_COUNT (handlePrepareOnImmAbort (D:=D) env lm lock_mo txh b).
Proof.
  unfold handlePrepareOnImmAbort. apply bounded_next; [hush|]. intros [p|]; [|apply bounded_ret].
  apply bounded_then; [apply bounded_prepare_again|]. intros rc. hush. apply silent_messages.
Qed.
Lemma bounded_retried txh b rc : bounded 0 IMM_ABORT_RETRIES_COUNT (if bool_decide (rc = MafCommitFailed) then handlePrepareOnImmAbort env lm lock_mo txh b else mret rc : R MafReturnT).
Proof. destruct (bool_decide _); [apply bounded_handle_abort|apply bounded_ret]. Qed.
Lemma silent_validate_ccb p : silent try_mark (on p (fun _ => execute env lm (ImmCmdOmCcbValidate (D:=D) env))).
Proof. hush. apply silent_execute. unfold ImmCmdOmCcbValidate. hush. Qed.
Lemma silent_abort_and_release txh p : silent try_mark (abort_and_release (D:=D) env lm txh p).
Proof. unfold abort_and_release. hush; first [apply silent_messages|apply silent_release|apply silent_execute; unfold ImmCmdOmCcbAbort; hush]. Qed.
Lemma bounded_validate_again txh p rc err n : bounded 0 (n * S IMM_ABORT_RETRIES_COUNT) (validate_again (D:=D) env lm lock_mo txh p rc err n).
Proof.
  revert rc err. induction n as [|n IH]; intros rc err; cbn [validate_again]; [apply bounded_ret|]. destruct (bool_decide _); [|apply bounded_ret].
  apply bounded_next; [apply silent_handle_failed|]. intros b. destruct (negb b); [apply bounded_ret|]. apply bounded_next; [hush|intros _].
  change (S n * S IMM_ABORT_RETRIES_COUNT)%nat with (S (IMM_ABORT_RETRIES_COUNT + n * S IMM_ABORT_RETRIES_COUNT)). apply bounded_pause. apply bounded_next; [apply silent_prepare|]. intros rc'.
  change 0%nat with (0 + 0)%nat at 1. apply bounded_bind; [apply bounded_retried|]. intros rc''. destruct (bool_decide _); [|apply bounded_ret].
  apply bounded_next; [apply silent_validate_ccb|apply IH].
Qed.
Definition validate_pauses : nat := IMM_ABORT_RETRIES_COUNT + IMM_ABORT_RETRIES_COUNT * S IMM_ABORT_RETRIES_COUNT.
Lemma bounded_validate txh : bounded 0 validate_pauses (OamSAValidate (D:=D) env lm lock_mo txh).
Proof.
  unfold OamSAValidate. apply bounded_next; [hush|]. intros [p|]; [|apply bounded_ret].
  apply bounded_next; [unfold abort_previous; hush; first [apply silent_messages|apply silent_execute; unfold ImmCmdOmCcbAbort; hush]|].
  intros go_on. destruct (negb go_on); [apply bounded_ret|]. apply bounded_next; [apply silent_prepare|]. intros rc. unfold validate_pauses. change 0%nat with (0 + 0)%nat at 1.
  apply bounded_bind; [apply bounded_retried|]. intros rc'. destruct (bool_decide _).
  { apply bounded_none. hush. apply silent_abort_and_release. }
  apply bounded_next; [hush|]. intros empty. destruct empty; [apply bounded_ret|]. apply bounded_next; [apply silent_validate_ccb|]. intros err.
  apply bounded_then; [apply bounded_validate_again|]. intros r. hush.
  all: first [apply silent_messages|apply silent_abort_and_release|apply silent_release].
Qed.
Lemma bounded_apply_again txh p err n : bounded (n * mRetries) (n * S validate_pauses) (apply_again (D:=D) env lm lock_mo txh p err n).
Proof.
  revert err. induction n as [|n IH]; intros err; cbn [apply_again]; [apply bounded_ret|]. destruct (bool_decide _); [|apply bounded_ret].
  apply bounded_next; [apply silent_handle_failed|]. intros b. destruct (negb b); [apply bounded_ret|].
  change (S n * S validate_pauses)%nat with (S (validate_pauses + n * S validate_pauses)). apply bounded_pause.
  apply (bounded_bind 0 validate_pauses (S n * mRetries)); [apply bounded_validate|]. intros r. destruct (_ && _); [|apply bounded_ret]. apply bounded_next; [hush|intros _].
  apply (bounded_bind mRetries 0 (n * mRetries)); [apply bounded_apply|]. intros err'. apply IH.
Qed.
(** The number of tries and of pauses of a commit. *)
Definition commit_tries : nat := S IMM_ABORT_RETRIES_COUNT * mRetries.
Definition commit_pauses : nat := IMM_ABORT_RETRIES_COUNT * S validate_pauses.
Lemma bounded_commit txh : bounded commit_tries commit_pauses (OamSACommit (D:=D) env lm lock_mo txh).
Proof.
  unfold OamSACommit. apply bounded_next; [hush|]. intros [p|]; [|apply bounded_ret]. apply bounded_next; [hush|intros _].
  eapply bounded_mono.
  - apply (bounded_bind mRetries 0 (IMM_ABORT_RETRIES_COUNT * mRetries) commit_pauses); [apply bounded_apply|]. intros err.
    apply bounded_then; [apply bounded_apply_again|]. intros r. hush; first [apply silent_messages|apply silent_release].
  - unfold commit_tries. generalize mRetries, IMM_ABORT_RETRIES_COUNT. intros a b. lia.
  - generalize commit_pauses. intros n. lia.
Qed.
End bounds.
