(* ===== verification/TxProps.v ===== *)
(** * Transactions: theorems

    What is sent to IMM, what is applied, that the contexts stay in step with the transactions, how
    long a commit may try, and what happens when it is asked again or a flag is read that was
    never set. *)
From Stdlib Require Import ZArith Lia.
From stdpp Require Import base gmap list strings.
From S2P Require Import Prelude Marks Codes NtfData StdMap TxData TxCommands TxBridge TxSpi TxFacts TxSpiFacts TxSystem TxBounds.

Open Scope Z_scope.

(** ** A transaction to try the theorems on *)

(** Lists that are given as they are. *)
#[export] Instance plain_lists : CacheLists (list CreatedObject * list string * list ModifiedObject) :=
  {| no_objects := ([], [], []); ListOfCreatedObjects := fun d => d.1.1; ListOfDeletedObjects := fun d => d.1.2; ListOfModifiedObjects := snd |}.
Abbreviation Plain := (list CreatedObject * list string * list ModifiedObject)%type.

(** IMM agrees with everything but what [create] and [apply] answer. *)
Definition demo_imm (create apply : list (event txE) -> SaAisErrorT) : environment txE := fun R tr e =>
  match e in txE R return R with
  | saImmOmInitialize => (SA_AIS_OK, 11)
  | saImmOmAccessorInitialize _ => (SA_AIS_OK, 12)
  | saImmOmAdminOwnerInitialize _ _ _ => (SA_AIS_OK, 13)
  | saImmOmCcbInitialize _ => (SA_AIS_OK, 14 + Z.of_nat (length tr))
  | saImmOmSearchInitialize_2 _ _ _ => (SA_AIS_OK, 15)
  | saImmOmSearchNext_2 _ => (SA_AIS_OK, (""%string, []))
  | saImmOmAccessorGet_2 _ _ _ => (SA_AIS_OK, [])
  | saImmOmCcbGetErrorStrings _ => (SA_AIS_OK, Some ["IMM: Resource abort: no room"]%string)
  | saImmOmCcbApply _ => apply tr
  | saImmOmCcbObjectCreate_2 _ _ _ _ => create tr
  | getInterface | addMessage _ _ => MafOk
  | registerParticipant _ | usleep _ => ()
  | isStructAttribute _ _ | isExclusiveStruct _ _ => false
  | saImmOmFinalize _ | saImmOmAccessorFinalize _ | saImmOmAdminOwnerFinalize _ | saImmOmSearchFinalize _
  | saImmOmAdminOwnerSet _ _ _ | saImmOmAdminOwnerRelease _ _ _ | saImmOmAdminOwnerClear _ _ _
  | saImmOmClassDescriptionGet_2 _ _ | saImmOmClassDescriptionMemoryFree_2 _ | saImmOmCcbFinalize _ | saImmOmCcbValidate _
  | saImmOmCcbAbort _ | saImmOmCcbObjectDelete _ _ | saImmOmCcbObjectModify_2 _ _ _ => SA_AIS_OK
  end.
Definition always_ok (tr : list (event txE)) : SaAisErrorT := SA_AIS_OK.
(** The first apply is an abort of IMM. *)
Definition first_aborts (tr : list (event txE)) : SaAisErrorT :=
  if (count ApplyCall (omap try_mark tr) =? 0)%nat then SA_AIS_ERR_FAILED_OPERATION else SA_AIS_OK.
Definition invalid (tr : list (event txE)) : SaAisErrorT := SA_AIS_ERR_INVALID_PARAM.

Definition demo_objects : Plain :=
  ([MkCreated "Sub" "top=1" "sub=1" "top=1" [MkAttr "sub" SA_IMM_ATTR_SASTRINGT [ImmString (Some "sub=1")]; MkAttr "size" SA_IMM_ATTR_SAINT32T []] [("size", true)];
    MkCreated "Top" "" "top=1" "" [] []], ["old=1"], [MkModified "other=1" []])%string.
(** Transaction 7 is joined, its client has filled the cache. *)
Definition demo_joined := Eval vm_compute in snd ((OamSAJoin (demo_imm always_ok always_ok) false true 7 ;; work 7 demo_objects) (Repo_init, [])).
Definition demo_context : TxContext Plain := Eval vm_compute in default (TxContext_new false (MkCache no_objects 0 0 [])) (contexts demo_joined.1 !! 0%nat).
Lemma demo_leads : leads 7 0%nat demo_joined.1 demo_context.
Proof. split; reflexivity. Qed.
Lemma demo_typed create apply : imm_typed (demo_imm create apply).
Proof. intros tr h dn attr. exact I. Qed.

Section props.
Context {D : Type} `{CacheLists D}.
Implicit Types (s : Repo D) (t : TxContext D) (env : environment txE).

(** C25. When [OamSAPrepare] answers [MafOk] for a transaction without a CCB, the operations of IMM that
    succeeded are exactly these, in order: a CCB is opened; the new objects of the cache are created, the last of the list first; the
    deleted objects are deleted; the defaults of new objects that were taken back, and then
    the modified objects, are written.  When it answers anything else, a proper part of them from the start was done. *)
Theorem prepare_sends_the_cache env lm lock_mo txh p t s tr rc s' tr' :
  leads txh p s t -> mImmCcbCreatedStatus t = ImmCcbNotCreated ->
  OamSAPrepare env lm lock_mo txh (s, tr) = (Ret rc, (s', tr')) ->
  exists new t', tr' = tr ++ new /\ contexts s' !! p = Some t' /\ lists (mCache t') = lists (mCache t) /\
    if bool_decide (rc = MafOk) then omap ccb_mark new = full t' else part_of (omap ccb_mark new) (full t').
Proof.
  intros Hs Hst Hr. destruct (acts_run _ _ _ _ _ _ _ _ _ _ (acts_prepared env lm lock_mo txh p t) Hs Hr) as (new & t' & -> & -> & Hd & HQ).
  exists new, t'. split; [done|]. split; [cbn; apply lookup_insert_eq|]. split; [done|]. rewrite Hst in HQ. rewrite bool_decide_false in HQ by done.
  unfold full. rewrite Hd. case_bool_decide; by destruct HQ.
Qed.

(** C24. A transaction that is prepared and then committed with [MafOk] has applied one CCB, as the last of the operations that succeeded, and just
    before it that CCB was opened and filled with what the cache holds, all of it and nothing else, however often IMM
    aborted and the CCB was built again.  A commit with another answer has applied nothing. *)
Theorem committed_once env lm lock_mo txh p t s tr rc s' tr' :
  leads txh p s t -> mImmCcbCreatedStatus t = ImmCcbNotCreated ->
  (r ← OamSAPrepare env lm lock_mo txh; if bool_decide (r = MafOk) then OamSACommit env lm lock_mo txh else mret r) (s, tr) = (Ret rc, (s', tr')) ->
  exists new, tr' = tr ++ new /\
    if bool_decide (rc = MafOk) then
      exists l0 h, omap ccb_mark new = l0 ++ CcbOpened h :: content (lists (mCache t)) h ++ [CcbApplied h] /\ not_applied l0
    else not_applied (omap ccb_mark new).
Proof.
  intros Hs Hst Hr. eapply (acts_run txh p _ t (fun rc _ l => if bool_decide (rc = MafOk) then
    exists l0 h, l = l0 ++ CcbOpened h :: content (lists (mCache t)) h ++ [CcbApplied h] /\ not_applied l0 else not_applied l)) in Hr; [|clear Hr|exact Hs].
  { destruct Hr as (new & t' & -> & _ & HQ). by exists new. }
  apply acts_bind. eapply acts_mono; [by apply acts_prepare|]. intros r t1 l1 (Hd1 & Hl1 & Hf). destruct (decide (r = MafOk)) as [->|Hr].
  2: { rewrite (bool_decide_false (r = MafOk)) by done. apply acts_ret. rewrite bool_decide_false, app_nil_r by done. done. }
  rewrite (bool_decide_true (MafOk = MafOk)) by done. destruct (Hf eq_refl) as [l0 ->]. unfold full in *. rewrite Hd1 in *.
  eapply acts_mono; [apply acts_commit|]. intros rc' t2 l2 [_ Hl2]. unfold is_ok in Hl2. case_bool_decide; cbn [outcome] in Hl2; [unfold applied in Hl2; rewrite Hd1 in Hl2|].
  - destruct Hl2 as (l3 & h & -> & Hl3 & [[-> ->]|[l4 ->]]).
    + exists l0, (mCcbHandle t1). cbn [app]. rewrite <- app_assoc. split; [done|]. intros h Hh. apply (Hl1 h), elem_of_app. by left.
    + exists ((l0 ++ CcbOpened (mCcbHandle t1) :: content (lists (mCache t)) (mCcbHandle t1)) ++ l4), h. rewrite <- !app_assoc. cbn [app]. split; [done|].
      change (not_applied (l0 ++ (CcbOpened (mCcbHandle t1) :: content (lists (mCache t)) (mCcbHandle t1)) ++ l4)). rewrite app_assoc. apply not_applied_app; [done|]. intros h' Hh. apply (Hl3 h'), elem_of_app. by left.
  - by apply not_applied_app.
Qed.

(** C26. Whatever transactions are joined, prepared, validated, committed, aborted and finished, in any order, and whatever their clients do to
    the caches: the contexts that exist are those of the open transactions, one for each, and [numInstances] is their number; no call
    uses a context that is gone.  A call returns, or it has read [ccbDeleteFailed] before it was set.  (IMM
    must give attributes the type it says, and the key of a new struct must be a text.) *)
Theorem contexts_in_step env lm lock_mo spi s tr :
  imm_typed env -> good_lists (no_objects : D) -> reachable env lm lock_mo spi s tr ->
  in_step s /\ forall r, good_request r -> post (serve env lm lock_mo spi r) (s, tr) (fun _ c => in_step c.1) (fun w => w = Undefined).
Proof.
  intros Ht Hg Hr. assert (in_step s) as Hs.
  { induction Hr as [|s tr r s' tr' _ IH Hr Hrun].
    - constructor; cbn; [done|constructor|done|done|apply map_Forall_empty].
    - pose proof (serve_in_step env lm lock_mo spi Ht Hg r Hr s tr) as Hp. apply living_in_step in IH. specialize (Hp IH). unfold post in Hp. rewrite Hrun in Hp. by apply living_in_step. }
  split; [done|]. intros r Hq. eapply post_mono; [apply (serve_in_step env lm lock_mo spi Ht Hg r Hq); by apply living_in_step| |done]. intros a c. by apply living_in_step.
Qed.

(** C27. A commit that returns has asked IMM to apply at most 3599 times, and has made at most 223260 of the one-second
    pauses between the retries of its nested loops ([OamSACommit], [OamSAValidate], [handlePrepareOnImmAbort]), whatever IMM
    answers.  Not counted are the shorter pauses inside of a single command: half a second between the tries of
    [ImmCmd::execute] (at most [mRetries] of them), and a tenth of a second between those of [saImmOmAdminOwnerSet]. *)
Theorem commit_is_bounded env lm lock_mo txh s tr rc s' tr' :
  OamSACommit env lm lock_mo txh (s, tr) = (Ret rc, (s', tr')) ->
  exists new : list (event txE), tr' = tr ++ new /\ Z.of_nat (count ApplyCall (omap try_mark new)) <= 3599 /\ Z.of_nat (count Pause (omap try_mark new)) <= 223260.
Proof.
  intros Hr. pose proof (bounded_commit env lm lock_mo txh s tr) as Hb. unfold post in Hb. rewrite Hr in Hb. destruct Hb as (new & Hnew & Ha & Hb). exists new. split; [done|].
  apply Nat2Z.inj_le in Ha, Hb. split; [etrans; [exact Ha|]|etrans; [exact Hb|]]; unfold commit_tries, commit_pauses, validate_pauses, mRetries, IMM_ABORT_RETRIES_COUNT;
    rewrite ?Nat2Z.inj_mul, ?Nat2Z.inj_succ, ?Nat2Z.inj_add, ?Nat2Z.inj_mul, ?Nat2Z.inj_succ; cbn; lia.
Qed.

(** C28. A prepare that fails after it has opened the CCB leaves it, filled in part, and asked again [OamSAPrepare] answers [MafOk] and
    does nothing: the next commit applies an incomplete CCB, when IMM lets it. *)
Theorem second_prepare_is_empty env lm lock_mo txh p t s tr rc s1 tr1 rc2 s2 tr2 :
  leads txh p s t -> mImmCcbCreatedStatus t = ImmCcbNotCreated ->
  OamSAPrepare env lm lock_mo txh (s, tr) = (Ret rc, (s1, tr1)) -> rc <> MafOk ->
  omap ccb_mark tr1 <> omap ccb_mark tr ->
  OamSAPrepare env lm lock_mo txh (s1, tr1) = (Ret rc2, (s2, tr2)) ->
  rc2 = MafOk /\ omap ccb_mark tr2 = omap ccb_mark tr1 /\ exists t1, contexts s1 !! p = Some t1 /\ part_of (omap ccb_mark (drop (length tr) tr1)) (full t1).
Proof.
  intros Hs Hst Hr Hrc Hm Hr2. destruct (acts_run _ _ _ _ _ _ _ _ _ _ (acts_prepared env lm lock_mo txh p t) Hs Hr) as (new & t1 & -> & -> & Hd & HQ).
  rewrite Hst in HQ. rewrite bool_decide_false in HQ by done. rewrite bool_decide_false in HQ by done. destruct HQ as [Hp Hc].
  destruct Hc as [Hc|Hc]; [rewrite omap_app, Hc, app_nil_r in Hm; done|].
  destruct (acts_run _ _ _ _ _ _ _ _ _ _ (acts_prepared env lm lock_mo txh p t1) (leads_put _ _ _ _ t1 Hs) Hr2) as (new2 & t2 & -> & -> & _ & HQ2). rewrite Hc, bool_decide_true in HQ2 by done. destruct HQ2 as (-> & Hl & _).
  split; [done|]. split; [by rewrite omap_app, Hl, app_nil_r|]. exists t1. split; [cbn; apply lookup_insert_eq|]. rewrite drop_app_length. unfold full. by rewrite Hd.
Qed.
End props.

(** ** Witnesses *)
Definition demo_prepare := OamSAPrepare (demo_imm always_ok always_ok) false false 7 demo_joined.
Lemma prepare_sends_the_cache_witness : exists new t', demo_prepare.2.2 = demo_joined.2 ++ new /\ contexts demo_prepare.2.1 !! 0%nat = Some t' /\
  lists (mCache t') = demo_objects /\ omap ccb_mark new = full t'.
Proof.
  exact (@prepare_sends_the_cache Plain plain_lists (demo_imm always_ok always_ok) false false 7 0%nat demo_context demo_joined.1 demo_joined.2 MafOk demo_prepare.2.1 demo_prepare.2.2
    demo_leads eq_refl ltac:(vm_compute; reflexivity)).
Defined.
Definition demo_commit := (r ← OamSAPrepare (demo_imm always_ok first_aborts) false false 7;
  if bool_decide (r = MafOk) then OamSACommit (demo_imm always_ok first_aborts) false false 7 else mret r) demo_joined.
Lemma committed_once_witness : exists new, demo_commit.2.2 = demo_joined.2 ++ new /\
  exists l0 h, omap ccb_mark new = l0 ++ CcbOpened h :: content demo_objects h ++ [CcbApplied h] /\ not_applied l0.
Proof.
  exact (@committed_once Plain plain_lists (demo_imm always_ok first_aborts) false false 7 0%nat demo_context demo_joined.1 demo_joined.2 MafOk demo_commit.2.1 demo_commit.2.2
    demo_leads eq_refl ltac:(vm_compute; reflexivity)).
Defined.
Definition demo_apply := OamSACommit (demo_imm always_ok first_aborts) false false 7 demo_prepare.2.
Lemma commit_is_bounded_witness : exists new : list (event txE), demo_apply.2.2 = demo_prepare.2.2 ++ new /\
  Z.of_nat (count ApplyCall (omap try_mark new)) <= 3599 /\ Z.of_nat (count Pause (omap try_mark new)) <= 223260.
Proof.
  apply (commit_is_bounded (demo_imm always_ok first_aborts) false false 7 demo_prepare.2.1 demo_prepare.2.2 MafOk demo_apply.2.1 demo_apply.2.2).
  vm_compute. reflexivity.
Defined.
Definition demo_failed := OamSAPrepare (demo_imm invalid always_ok) false false 7 demo_joined.
Definition demo_second := OamSAPrepare (demo_imm invalid always_ok) false false 7 demo_failed.2.
Lemma second_prepare_is_empty_witness : MafOk = MafOk /\ omap ccb_mark demo_second.2.2 = omap ccb_mark demo_failed.2.2 /\
  exists t1, contexts demo_failed.2.1 !! 0%nat = Some t1 /\ part_of (omap ccb_mark (drop (length demo_joined.2) demo_failed.2.2)) (full t1).
Proof.
  apply (second_prepare_is_empty (demo_imm invalid always_ok) false false 7 0%nat demo_context demo_joined.1 demo_joined.2 MafFailure demo_failed.2.1 demo_failed.2.2
    MafOk demo_second.2.1 demo_second.2.2 demo_leads eq_refl).
  - vm_compute. reflexivity.
  - done.
  - vm_compute. discriminate.
  - vm_compute. reflexivity.
Defined.
Lemma contexts_in_step_witness : in_step demo_joined.1 /\
  post (serve (demo_imm always_ok always_ok) false false true (Validate 7)) demo_joined (fun _ c => in_step c.1) (fun w => w = Undefined).
Proof.
  destruct (contexts_in_step (demo_imm always_ok always_ok) false false true demo_joined.1 demo_joined.2) as [Hi Hr].
  - apply demo_typed.
  - constructor.
  - eapply (reachable_step _ _ _ _ _ _ (Work 7 demo_objects)); [eapply (reachable_step _ _ _ _ _ _ (Join 7)); [constructor|exact I|]| |]; [vm_compute; reflexivity| |vm_compute; reflexivity].
    apply Forall_cons. split; [|by repeat constructor]. repeat (apply Forall_cons; split); [done|done|constructor].
  - split; [exact Hi|]. exact (Hr (Validate 7) I).
Defined.

(** The first object is refused: [OamSAValidate] gives the ownership back and reads [ccbDeleteFailed], which
    nothing has set. *)
Example validate_reads_unset_flag : fst (OamSAValidate (demo_imm invalid always_ok) false false 7 demo_joined) = Exit Undefined.
Proof. vm_compute. reflexivity. Qed.
