(* ===== verification/TxValues.v ===== *)
(** * Transactions: values of attributes ([motransaction/OamSADataClasses.cc], [OamSACache.cc], [OamSATranslator.cc])

    A value that COM sets is kept in the cache as an object of a class of its own
    ([CreateOamSAData]), is lent back to COM from there ([CreateMafMoAttrValCont]), and goes to IMM
    ([CreateAttributeValueArray]); what IMM has is translated for COM by [Imm2MO_AttrValue].
    [None] is undefined behaviour: memory is read that was never written, or a
    value is written past its end.  Memory itself is not modelled. *)
From Stdlib Require Import ZArith Lia Ascii.
From stdpp Require Import base gmap list strings.
From S2P Require Import Prelude StdMap CmTypes NtfData NtfInfo NtfPm NtfCmValues.

Open Scope Z_scope.

(** ** Values of COM *)

(** The union [MafMoAttributeValue_3T]: the bits of a number, or a text; addresses do not matter here. *)
Abbreviation MafValue := (MafMoAttributeValue_3T ()).
Abbreviation Text s := (TextAt (Some (tt, s))).
Definition bits (v : MafValue) : option Z := match v with Number b => Some b | _ => None end.
Definition text_of (v : MafValue) : option (option string) := match v with TextAt t => Some (snd <$> t) | _ => None end.

(** The members of the union, by the type of the attribute: what COM reads. *)
Inductive Member := Integer (n : Z) | Chars (s : option string).
Definition number_member (type : Z) : option (Z -> Z) :=
  if type =? MafOamSpiMoAttributeType_3_INT8 then Some (wrap_s 8)
  else if type =? MafOamSpiMoAttributeType_3_INT16 then Some (wrap_s 16)
  else if type =? MafOamSpiMoAttributeType_3_INT32 then Some (wrap_s 32)
  else if type =? MafOamSpiMoAttributeType_3_INT64 then Some (wrap_s 64)
  else if type =? MafOamSpiMoAttributeType_3_UINT8 then Some (wrap_u 8)
  else if type =? MafOamSpiMoAttributeType_3_UINT16 then Some (wrap_u 16)
  else if type =? MafOamSpiMoAttributeType_3_UINT32 then Some (wrap_u 32)
  else if type =? MafOamSpiMoAttributeType_3_UINT64 then Some (wrap_u 64)
  else if type =? MafOamSpiMoAttributeType_3_BOOL then Some (fun b => if wrap_u 8 b =? 0 then 0 else 1)
  else if type =? MafOamSpiMoAttributeType_3_ENUM then Some (wrap_s 64)
  else if type =? MafOamSpiMoAttributeType_3_DECIMAL64 then Some (wrap_u 64)
  else None.
Definition member (type : Z) (v : MafValue) : option Member :=
  match number_member type with
  | Some f => Integer ∘ f <$> bits v
  | None =>
      if (type =? MafOamSpiMoAttributeType_3_STRING) || (type =? MafOamSpiMoAttributeType_3_REFERENCE) then Chars <$> text_of v else None
  end.

(** ** The classes of values ([OamSADataClass]) *)
Inductive OamSAValue :=
| OamSAUInt8Data (myValue : Z) | OamSAUInt16Data (myValue : Z) | OamSAUInt32Data (myValue : Z) | OamSAUInt64Data (myValue : Z)
| OamSAInt8Data (myValue : Z) | OamSAInt16Data (myValue : Z) | OamSAInt32Data (myValue : Z) | OamSAInt64Data (myValue : Z)
| OamSADecimal64Data (myValue : Z)           (** the bits of the [double] *)
| OamSAStringData (myValue_p : option string)
| OamSAEnumData (myValue : Z)
| OamSABoolData (myValue : bool)
| OamSAReferenceData (myValue_p : option string).
Record OamSADataClass := MkData { myImmValueType : SaImmValueTypeT; myValue : OamSAValue }.

(** The type of IMM that the constructors set. *)
Definition default_type (d : OamSAValue) : SaImmValueTypeT :=
  match d with
  | OamSAUInt8Data _ | OamSAUInt16Data _ | OamSAUInt32Data _ | OamSABoolData _ => SA_IMM_ATTR_SAUINT32T
  | OamSAUInt64Data _ => SA_IMM_ATTR_SAUINT64T
  | OamSAInt8Data _ | OamSAInt16Data _ | OamSAInt32Data _ | OamSAEnumData _ => SA_IMM_ATTR_SAINT32T
  | OamSAInt64Data _ => SA_IMM_ATTR_SAINT64T
  | OamSADecimal64Data _ => SA_IMM_ATTR_SADOUBLET
  | OamSAStringData _ => SA_IMM_ATTR_SASTRINGT
  | OamSAReferenceData _ => SA_IMM_ATTR_SANAMET
  end.
Definition SetSaImmValueType (t : SaImmValueTypeT) (d : OamSADataClass) : OamSADataClass := MkData t (myValue d).

Definition GetMafOamSpiMoAttributeType (d : OamSAValue) : Z :=
  match d with
  | OamSAUInt8Data _ => MafOamSpiMoAttributeType_3_UINT8
  | OamSAUInt16Data _ => MafOamSpiMoAttributeType_3_UINT16
  | OamSAUInt32Data _ => MafOamSpiMoAttributeType_3_UINT32
  | OamSAUInt64Data _ => MafOamSpiMoAttributeType_3_UINT64
  | OamSAInt8Data _ => MafOamSpiMoAttributeType_3_INT8
  | OamSAInt16Data _ => MafOamSpiMoAttributeType_3_INT16
  | OamSAInt32Data _ => MafOamSpiMoAttributeType_3_INT32
  | OamSAInt64Data _ => MafOamSpiMoAttributeType_3_INT64
  | OamSADecimal64Data _ => MafOamSpiMoAttributeType_3_DECIMAL64
  | OamSAStringData _ => MafOamSpiMoAttributeType_3_STRING
  | OamSAEnumData _ => MafOamSpiMoAttributeType_3_ENUM
  | OamSABoolData _ => MafOamSpiMoAttributeType_3_BOOL
  | OamSAReferenceData _ => MafOamSpiMoAttributeType_3_REFERENCE
  end.

(** [CreateOamSAData] with [SetComOamValue]; [Some None]: a null pointer, for a struct or an unknown type. *)
Definition CreateOamSAValue (type : Z) (v : MafValue) : option (option OamSAValue) :=
  if type =? MafOamSpiMoAttributeType_3_INT8 then b ← bits v; Some (Some (OamSAInt8Data (wrap_s 8 b)))
  else if type =? MafOamSpiMoAttributeType_3_INT16 then b ← bits v; Some (Some (OamSAInt16Data (wrap_s 16 b)))
  else if type =? MafOamSpiMoAttributeType_3_INT32 then b ← bits v; Some (Some (OamSAInt32Data (wrap_s 32 b)))
  else if type =? MafOamSpiMoAttributeType_3_INT64 then b ← bits v; Some (Some (OamSAInt64Data (wrap_s 64 b)))
  else if type =? MafOamSpiMoAttributeType_3_UINT8 then b ← bits v; Some (Some (OamSAUInt8Data (wrap_u 8 b)))
  else if type =? MafOamSpiMoAttributeType_3_UINT16 then b ← bits v; Some (Some (OamSAUInt16Data (wrap_u 16 b)))
  else if type =? MafOamSpiMoAttributeType_3_UINT32 then b ← bits v; Some (Some (OamSAUInt32Data (wrap_u 32 b)))
  else if type =? MafOamSpiMoAttributeType_3_UINT64 then b ← bits v; Some (Some (OamSAUInt64Data (wrap_u 64 b)))
  else if type =? MafOamSpiMoAttributeType_3_STRING then s ← text_of v; Some (Some (OamSAStringData s))
  else if type =? MafOamSpiMoAttributeType_3_DECIMAL64 then b ← bits v; Some (Some (OamSADecimal64Data (wrap_u 64 b)))
  else if type =? MafOamSpiMoAttributeType_3_BOOL then b ← bits v; Some (Some (OamSABoolData (negb (wrap_u 8 b =? 0))))
  else if type =? MafOamSpiMoAttributeType_3_REFERENCE then s ← text_of v; Some (Some (OamSAReferenceData s))
  else if type =? MafOamSpiMoAttributeType_3_ENUM then b ← bits v; Some (Some (OamSAEnumData (wrap_s 64 b)))
  else Some None.
Definition CreateOamSAData (type : Z) (v : MafValue) : option (option OamSADataClass) :=
  option_map (option_map (fun x => MkData (default_type x) x)) (CreateOamSAValue type v).

(** [GetComOamValue]: the member of the union that is written; nothing is, when there is no text. *)
Definition GetComOamValue (d : OamSAValue) : option MafValue :=
  match d with
  | OamSAUInt8Data n | OamSAUInt16Data n | OamSAUInt32Data n | OamSAUInt64Data n | OamSADecimal64Data n => Some (Number n)
  | OamSAInt8Data n => Some (Number (wrap_u 8 n))
  | OamSAInt16Data n => Some (Number (wrap_u 16 n))
  | OamSAInt32Data n => Some (Number (wrap_u 32 n))
  | OamSAInt64Data n | OamSAEnumData n => Some (Number (wrap_u 64 n))
  | OamSABoolData b => Some (Number (if b then 1 else 0))
  | OamSAStringData s | OamSAReferenceData s => s ← s; Some (Text s)
  end.

(** The conversion of a [double] to a [float], on their bits, to nearest and even. *)
Definition round_shift (m d : Z) : Z :=
  let q := Z.shiftr m d in
  let r := m - Z.shiftl q d in
  let half := Z.shiftl 1 (d - 1) in
  if (half <? r) || ((half =? r) && Z.odd q) then q + 1 else q.
Definition float_of_double (b : Z) : Z :=
  let sign := Z.shiftr b 63 in
  let exponent := Z.land (Z.shiftr b 52) 2047 in
  let fraction := Z.land b (2 ^ 52 - 1) in
  let join f := sign * 2 ^ 31 + f in
  if exponent =? 2047 then join (if fraction =? 0 then 255 * 2 ^ 23 else Z.lor (255 * 2 ^ 23 + 2 ^ 22) (Z.shiftr fraction 29))
  else
    let m := if exponent =? 0 then fraction else 2 ^ 52 + fraction in
    let e := Z.max exponent 1 in
    let q := Z.max 0 (e - 897) in
    join (Z.min (255 * 2 ^ 23) (q * 2 ^ 23 + round_shift m (926 + q - e))).

(** A text of C ends at its first null character. *)
Fixpoint until_nul (s : string) : string :=
  match s with "" => "" | String c s => if Ascii.eqb c "000" then "" else String c (until_nul s) end%string.

Section imm.
(** The names of objects in the forms of COM and of IMM ([OamSATranslator::MO2Imm_DN], [Imm2MO_DN]);
    whether IMM has long names. *)
Context (MO2Imm_DN Imm2MO_DN : string -> string) (bExtendedNameEnabled : bool).

(** ** To IMM *)

(** What [GetImmValue] writes: a number of 32 or 64 bits, a text, a name, or nothing.  Without long
    names, [saNameSet] cuts a name off after 256 characters. *)
Inductive Written := Word (width bits : Z) | Letters (s : string) | Name (s : string) | Nothing.
Definition GetImmValue (d : OamSADataClass) : Written :=
  match myValue d with
  | OamSAUInt8Data n | OamSAUInt16Data n | OamSAUInt32Data n => Word 32 n
  | OamSAUInt64Data n => Word 64 n
  | OamSAInt8Data n | OamSAInt16Data n | OamSAInt32Data n | OamSAEnumData n => Word 32 (wrap_u 32 n)
  | OamSAInt64Data n => Word 64 (wrap_u 64 n)
  | OamSADecimal64Data n => if bool_decide (myImmValueType d = SA_IMM_ATTR_SADOUBLET) then Word 64 n else Word 32 (float_of_double n)
  | OamSABoolData b => Word 32 (if b then 1 else 0)
  | OamSAStringData (Some s) => if bool_decide (myImmValueType d = SA_IMM_ATTR_SASTRINGT) then Letters s else Nothing
  | OamSAReferenceData (Some s) => if bool_decide (myImmValueType d = SA_IMM_ATTR_SANAMET) then Name (saNameSet bExtendedNameEnabled (MO2Imm_DN s)) else Nothing
  | OamSAStringData None | OamSAReferenceData None => Nothing
  end.
(** The block for a value of the type, read after that.  The null character that [saNameSet] puts after a name of
    256 characters is behind the end of a [SaNameT]. *)
Definition cell (t : SaImmValueTypeT) (w : Written) : option SaImmValue :=
  match t, w with
  | SA_IMM_ATTR_SAINT32T, Word 32 b => Some (ImmInt32 (wrap_s 32 b))
  | SA_IMM_ATTR_SAUINT32T, Word 32 b => Some (ImmUint32 b)
  | SA_IMM_ATTR_SAFLOATT, Word 32 b => Some (ImmFloat b)
  | SA_IMM_ATTR_SAINT64T, Word 64 b => Some (ImmInt64 (wrap_s 64 b))
  | SA_IMM_ATTR_SAUINT64T, Word 64 b => Some (ImmUint64 b)
  | SA_IMM_ATTR_SATIMET, Word 64 b => Some (ImmTime (wrap_s 64 b))
  | SA_IMM_ATTR_SADOUBLET, Word 64 b => Some (ImmDouble b)
  | SA_IMM_ATTR_SASTRINGT, Letters s => Some (ImmString (Some s))
  | SA_IMM_ATTR_SANAMET, Name s => if bExtendedNameEnabled || (String.length s <? SA_MAX_UNEXTENDED_NAME_LENGTH)%nat then Some (ImmName s) else None
  | _, _ => None
  end.

(** [SetImmValue]: numbers that do not fit are cut off, then stored at the width of the class. *)
Definition clamp (lo hi n : Z) : Z := if hi <? n then hi else if n <? lo then lo else n.
Definition SetImmValue (v : SaImmValue) (d : OamSADataClass) : option OamSAValue :=
  match myValue d, v with
  | OamSAUInt8Data _, ImmUint32 n => Some (OamSAUInt8Data (if n <? 256 then n else 255))
  | OamSAUInt16Data _, ImmUint32 n => Some (OamSAUInt16Data (if n <? 65536 then n else 65535))
  | OamSAUInt32Data _, ImmUint32 n => Some (OamSAUInt32Data n)
  | OamSAUInt64Data _, ImmUint64 n => Some (OamSAUInt64Data n)
  | OamSAInt8Data _, ImmInt32 n => Some (OamSAInt8Data (wrap_s 8 (clamp (-127) 128 n)))
  | OamSAInt16Data _, ImmInt32 n => Some (OamSAInt16Data (wrap_s 16 (clamp (-32767) 32768 n)))
  | OamSAInt32Data _, ImmInt32 n => Some (OamSAInt32Data n)
  | OamSAInt64Data _, ImmInt64 n => Some (OamSAInt64Data n)
  | OamSAEnumData _, ImmInt32 n => Some (OamSAEnumData (clamp (-32767) 32768 n))
  | OamSABoolData _, ImmUint32 n => Some (OamSABoolData (negb (n =? 0)))
  | OamSADecimal64Data _, ImmDouble n => if bool_decide (myImmValueType d = SA_IMM_ATTR_SADOUBLET) then Some (OamSADecimal64Data n) else None
  | OamSADecimal64Data _, ImmFloat n => if bool_decide (myImmValueType d = SA_IMM_ATTR_SADOUBLET) then None else Some (OamSADecimal64Data (double_of_float n))
  | OamSAStringData _, ImmString (Some s) => Some (OamSAStringData (Some s))
  | _, _ => None
  end.

(** ** Containers *)

(** [myDataPointerList], the types of an attribute without values, and whether its default was taken
    back.  [MafAttributeType] is not copied ([None]) with a container. *)
Record OamSADataContainer := MkContainer {
  MafAttributeType : option Z;
  ImmValueType : SaImmValueTypeT;
  hasdefaultvalue : bool;
  myDataPointerList : list OamSADataClass
}.
(** A container as [AddAttribute] puts it into the map: a copy of a new one. *)
Definition OamSADataContainer_new : OamSADataContainer := MkContainer None (SA_IMM_ATTR_other 0) false [].
Definition Add (d : OamSADataClass) (c : OamSADataContainer) : OamSADataContainer :=
  MkContainer (MafAttributeType c) (ImmValueType c) (hasdefaultvalue c) (myDataPointerList c ++ [d]).
Definition Clear (c : OamSADataContainer) : OamSADataContainer := MkContainer (MafAttributeType c) (ImmValueType c) (hasdefaultvalue c) [].
Definition SetAttributeTypes (type : Z) (t : SaImmValueTypeT) (defaultvalue : bool) (c : OamSADataContainer) : OamSADataContainer :=
  MkContainer (Some type) t defaultvalue (myDataPointerList c).
Definition NoOfDataElements (c : OamSADataContainer) : nat := length (myDataPointerList c).

(** For COM: the type, that of the last value, and the values.  Without a value it is the type that was
    set, if it was. *)
Definition CreateMafMoAttrValCont (c : OamSADataContainer) : option (option Z * list MafValue) :=
  match last (myDataPointerList c) with
  | None => Some (MafAttributeType c, [])
  | Some d => vs ← mapM (fun d => GetComOamValue (myValue d)) (myDataPointerList c); Some (Some (GetMafOamSpiMoAttributeType (myValue d)), vs)
  end.

(** For IMM: the type, that of the last value, and the values. *)
Definition CreateAttributeValueArray (c : OamSADataContainer) : option (SaImmValueTypeT * list SaImmValue) :=
  match last (myDataPointerList c) with
  | None => Some (ImmValueType c, [])
  | Some d => vs ← mapM (fun d => cell (myImmValueType d) (GetImmValue d)) (myDataPointerList c); Some (myImmValueType d, vs)
  end.

(** ** From IMM to COM *)

(** One turn of the loop of [Imm2MO_AttrValue]: whether the type is right, and the member that is set in a
    union of zeros. *)
Definition Imm2MO_Value (t : SaImmValueTypeT) (attrType : Z) (v : SaImmValue) : option (bool * MafValue) :=
  match t, v with
  | SA_IMM_ATTR_SAINT32T, ImmInt32 n =>
      Some (if attrType =? MafOamSpiMoAttributeType_3_INT32 then (true, Number (wrap_u 32 n))
            else if attrType =? MafOamSpiMoAttributeType_3_INT16 then (true, Number (wrap_u 16 n))
            else if attrType =? MafOamSpiMoAttributeType_3_INT8 then (true, Number (wrap_u 8 n))
            else if attrType =? MafOamSpiMoAttributeType_3_ENUM then (true, Number (wrap_u 64 n))
            else if attrType =? MafOamSpiMoAttributeType_3_BOOL then (true, Number (if n =? 0 then 0 else 1))
            else (false, Number 0))
  | SA_IMM_ATTR_SAUINT32T, ImmUint32 n =>
      Some (if attrType =? MafOamSpiMoAttributeType_3_UINT32 then (true, Number n)
            else if attrType =? MafOamSpiMoAttributeType_3_UINT16 then (true, Number (wrap_u 16 n))
            else if attrType =? MafOamSpiMoAttributeType_3_UINT8 then (true, Number (wrap_u 8 n))
            else if attrType =? MafOamSpiMoAttributeType_3_ENUM then (true, Number n)
            else if attrType =? MafOamSpiMoAttributeType_3_BOOL then (true, Number (if n =? 0 then 0 else 1))
            else (false, Number 0))
  | SA_IMM_ATTR_SATIMET, ImmTime n | SA_IMM_ATTR_SAINT64T, ImmInt64 n =>
      Some (true, Number (if attrType =? MafOamSpiMoAttributeType_3_INT64 then wrap_u 64 n else 0))
  | SA_IMM_ATTR_SAUINT64T, ImmUint64 n => Some (true, Number (if attrType =? MafOamSpiMoAttributeType_3_UINT64 then n else 0))
  | SA_IMM_ATTR_SANAMET, ImmName s => Some (true, Text (Imm2MO_DN s))
  | SA_IMM_ATTR_SASTRINGT, ImmString s =>
      Some (if attrType =? MafOamSpiMoAttributeType_3_STRING then (true, Text (default "" s)) else (false, Number 0))
  | SA_IMM_ATTR_SAFLOATT, ImmFloat n => Some (true, Number (if attrType =? MafOamSpiMoAttributeType_3_DECIMAL64 then double_of_float n else 0))
  | SA_IMM_ATTR_SADOUBLET, ImmDouble n => Some (true, Number (if attrType =? MafOamSpiMoAttributeType_3_DECIMAL64 then n else 0))
  | SA_IMM_ATTR_SAANYT, ImmAny s => Some (if attrType =? MafOamSpiMoAttributeType_3_STRING then (true, Text (until_nul s)) else (false, Number 0))
  | SA_IMM_ATTR_other _, _ => Some (false, Number 0)
  | _, _ => None
  end.
(** The result, and the container: its type and values. *)
Definition Imm2MO_AttrValue (a : SaImmAttrValuesT_2) (attrType : Z) : option (bool * (Z * list MafValue)) :=
  l ← mapM (Imm2MO_Value (attrValueType a) attrType) (attrValues a);
  Some (forallb fst l, (attrType, l.*2)).
End imm.
