(* ===== verification/TxModified.v ===== *)
(** * Transactions: created and modified objects ([motransaction/OamSACache.cc])

    [OamSAModifiedEntry] and [OamSAModifiedObjectsList]: a tree of names; a node says whether its
    object is new or altered and has its attributes, and lists the nodes below it in the order of
    their insertion, the newest first.  [OamSACache]: this list and the one of
    deleted objects ([TxDeleted]).  [None] is undefined behaviour.  What IMM says about
    classes, and the translator of names, are arguments. *)
From Stdlib Require Import ZArith Lia.
From stdpp Require Import base gmap list strings.
From S2P Require Import Prelude CmTypes NtfData NtfInfo StdMap NtfCmValues TxDeleted TxData TxValues.

Open Scope Z_scope.

(** ** Entries *)
Inductive eModifiedEntryKind := eModifiedEntryNoKind | eModifiedEntryDeletedObject | eModifiedEntryAlteredObject | eModifiedEntryNewObject.
#[export] Instance eModifiedEntryKind_eq_dec : EqDecision eModifiedEntryKind.
Proof. solve_decision. Defined.
Definition kind_code (k : eModifiedEntryKind) : Z :=
  match k with eModifiedEntryNoKind => 0 | eModifiedEntryDeletedObject => 1 | eModifiedEntryAlteredObject => 2 | eModifiedEntryNewObject => 3 end.

(** [myNameMap] is the map of the node. *)
Record ModifiedData := MkModifiedData {
  myEntryKind : eModifiedEntryKind;
  myNameMapInsertionOrdered : list string;
  myAttributeMap : StdMap string OamSADataContainer;
  myParentName : string;
  myClass : string;
  entryImmName : string
}.
Abbreviation OamSAModifiedEntry := (tree ModifiedData).
Definition OamSAModifiedEntry_new : OamSAModifiedEntry := Node (MkModifiedData eModifiedEntryNoKind [] [] "" "" "") [].

Definition IsNewObject (d : ModifiedData) : bool := bool_decide (myEntryKind d = eModifiedEntryNewObject).
Definition IsModifiedObject (d : ModifiedData) : bool := bool_decide (myEntryKind d = eModifiedEntryAlteredObject).
Definition IsInvalidObject (d : ModifiedData) : bool := bool_decide (myEntryKind d = eModifiedEntryNoKind).
(** A kind is only replaced by a higher one. *)
Definition SetEntryKind (k : eModifiedEntryKind) (d : ModifiedData) : ModifiedData :=
  MkModifiedData (if kind_code (myEntryKind d) <? kind_code k then k else myEntryKind d) (myNameMapInsertionOrdered d) (myAttributeMap d) (myParentName d) (myClass d) (entryImmName d).
Definition set_order (l : list string) (d : ModifiedData) : ModifiedData :=
  MkModifiedData (myEntryKind d) l (myAttributeMap d) (myParentName d) (myClass d) (entryImmName d).
Definition set_attributes (m : StdMap string OamSADataContainer) (d : ModifiedData) : ModifiedData :=
  MkModifiedData (myEntryKind d) (myNameMapInsertionOrdered d) m (myParentName d) (myClass d) (entryImmName d).
Definition SetImmName (n : string) (d : ModifiedData) : ModifiedData :=
  MkModifiedData (myEntryKind d) (myNameMapInsertionOrdered d) (myAttributeMap d) (myParentName d) (myClass d) n.
Definition SetClassName (n : string) (d : ModifiedData) : ModifiedData :=
  MkModifiedData (myEntryKind d) (myNameMapInsertionOrdered d) (myAttributeMap d) (myParentName d) n (entryImmName d).
Definition SetParentName (n : string) (d : ModifiedData) : ModifiedData :=
  MkModifiedData (myEntryKind d) (myNameMapInsertionOrdered d) (myAttributeMap d) n (myClass d) (entryImmName d).

Definition AddName (x : string) (e : OamSAModifiedEntry) : OamSAModifiedEntry :=
  match map_find (below e) x with
  | Some _ => e
  | None => Node (set_order (x :: myNameMapInsertionOrdered (data e)) (data e)) (map_insert (below e) x OamSAModifiedEntry_new)
  end.
(** The loop of the two inserts: the names are added on the way, and the last entry is changed. *)
Fixpoint AddNames (dn : list string) (f : ModifiedData -> ModifiedData) (e : OamSAModifiedEntry) : OamSAModifiedEntry :=
  match dn with
  | [] => Node (f (data e)) (below e)
  | x :: dn => change_below (fun m => map_update m x (AddNames dn f)) (AddName x e)
  end.

(** ** Inserting *)

(** [ConvertComAttributeTypeToImmType] ([OamSATranslator.cc]) *)
Definition ConvertComAttributeTypeToImmType (type : Z) : SaImmValueTypeT :=
  if existsb (Z.eqb type) [MafOamSpiMoAttributeType_3_UINT8; MafOamSpiMoAttributeType_3_UINT16; MafOamSpiMoAttributeType_3_UINT32; MafOamSpiMoAttributeType_3_BOOL; MafOamSpiMoAttributeType_3_ENUM]
  then SA_IMM_ATTR_SAUINT32T
  else if existsb (Z.eqb type) [MafOamSpiMoAttributeType_3_INT8; MafOamSpiMoAttributeType_3_INT16; MafOamSpiMoAttributeType_3_INT32] then SA_IMM_ATTR_SAINT32T
  else if type =? MafOamSpiMoAttributeType_3_UINT64 then SA_IMM_ATTR_SAUINT64T
  else if type =? MafOamSpiMoAttributeType_3_INT64 then SA_IMM_ATTR_SAINT64T
  else if type =? MafOamSpiMoAttributeType_3_STRING then SA_IMM_ATTR_SASTRINGT
  else if type =? MafOamSpiMoAttributeType_3_REFERENCE then SA_IMM_ATTR_SANAMET
  else if type =? MafOamSpiMoAttributeType_3_DECIMAL64 then SA_IMM_ATTR_SADOUBLET
  else SA_IMM_ATTR_other 0.

(** The values of one attribute, from COM. *)
Record MafContainer := MkMaf { maf_type : Z; maf_values : list MafValue }.
(** Values for the container, with the type of IMM when it is known. *)
Definition typed (t : option SaImmValueTypeT) (d : OamSADataClass) : OamSADataClass :=
  match t with Some t => SetSaImmValueType t d | None => d end.
(** [AddAttribute], then the container, emptied, is changed. *)
Definition put_attribute (a : string) (f : OamSADataContainer -> OamSADataContainer) (m : StdMap string OamSADataContainer) : StdMap string OamSADataContainer :=
  map_update (map_insert m a OamSADataContainer_new) a (fun c => f (Clear c)).
Definition add_all (l : list OamSADataClass) (c : OamSADataContainer) : OamSADataContainer := foldl (fun c d => Add d c) c l.

Section list.
(** [GetImmAttributeData] (by class and attribute) and [GetClassNameFromImm]. *)
Context (GetImmAttributeData : string -> string -> option SaImmValueTypeT) (GetClassNameFromImm : string -> option string).

(** Structs and unknown types are passed over. *)
Definition InsertNewObject (theDisassembledDN : list string) (theImmName theClassName theParentName AttributeName : string) (attributeValue : MafContainer)
    (theRootEntry : OamSAModifiedEntry) : option OamSAModifiedEntry :=
  if bool_decide (theDisassembledDN = []) then None
  else
    l ← mapM (CreateOamSAData (maf_type attributeValue)) (maf_values attributeValue);
    let values := typed (GetImmAttributeData theClassName AttributeName) <$> omap id l in
    Some (AddNames theDisassembledDN (fun d =>
      let d := SetParentName theParentName (SetClassName theClassName (SetImmName theImmName (SetEntryKind eModifiedEntryNewObject d))) in
      set_attributes (put_attribute AttributeName (add_all values) (myAttributeMap d)) d) theRootEntry).

(** The class of an entry, and the type of one of its attributes. *)
Definition class_at (dn : list string) (theImmName : string) (e : OamSAModifiedEntry) : option string :=
  let ClassName := default "" (myClass ∘ data <$> node_at dn e) in
  if bool_decide (ClassName = "") then GetClassNameFromImm theImmName else Some ClassName.
Definition type_at (dn : list string) (theImmName AttributeName : string) (e : OamSAModifiedEntry) : option SaImmValueTypeT :=
  c ← class_at dn theImmName e; GetImmAttributeData c AttributeName.
(** The attribute has values now: its default is taken back when it is emptied. *)
Definition has_values (dn : list string) (AttributeName : string) (e : OamSAModifiedEntry) : bool :=
  match e ← node_at dn e; map_find (myAttributeMap (data e)) AttributeName with
  | None => false
  | Some c => negb (NoOfDataElements c =? 0)%nat
  end.
(** A struct has no value of its own: a null pointer is used. *)
Definition Insert (theDisassembledDN : list string) (theImmName AttributeName : string) (attributeValue : MafContainer)
    (theRootEntry : OamSAModifiedEntry) : option OamSAModifiedEntry :=
  if bool_decide (theDisassembledDN = []) then None
  else
    let t := type_at theDisassembledDN theImmName AttributeName theRootEntry in
    let DefaultAttributevalueFound := has_values theDisassembledDN AttributeName theRootEntry in
    l ← mapM (CreateOamSAData (maf_type attributeValue)) (maf_values attributeValue);
    l ← mapM id l;
    let fill c :=
      if bool_decide (maf_values attributeValue = []) then
        SetAttributeTypes (maf_type attributeValue) (default (ConvertComAttributeTypeToImmType (maf_type attributeValue)) t) DefaultAttributevalueFound c
      else add_all (typed t <$> l) c in
    Some (AddNames theDisassembledDN (fun d =>
      let d := SetImmName theImmName (SetEntryKind eModifiedEntryAlteredObject d) in
      set_attributes (put_attribute AttributeName fill (myAttributeMap d)) d) theRootEntry).
End list.

(** ** Looking up *)

(** The first part of the name is read before anything else. *)
Definition Find (theDisassembledDN : list string) (theRootEntry : OamSAModifiedEntry) : option bool :=
  if bool_decide (theDisassembledDN = []) then None else Some (bool_decide (is_Some (node_at theDisassembledDN theRootEntry))).
Definition GetAttributeValue (theDisassembledDN : list string) (AttributeName : string) (theRootEntry : OamSAModifiedEntry) : option (option OamSADataContainer) :=
  if bool_decide (theDisassembledDN = []) then None else Some (e ← node_at theDisassembledDN theRootEntry; map_find (myAttributeMap (data e)) AttributeName).

(** ** Removing *)

(** The list and the map of the parent lose the name. *)
Definition remove_child (x : string) (e : OamSAModifiedEntry) : OamSAModifiedEntry :=
  Node (set_order (filter (fun y => y <> x) (myNameMapInsertionOrdered (data e))) (data e)) (map_erase (below e) x).
(** [RemoveObject]: whether it was a new object.  The parent of a name with one part is an iterator that was
    never set. *)
Definition RemoveObject (theDisassembledDN : list string) (theRootEntry : OamSAModifiedEntry) : option (bool * OamSAModifiedEntry) :=
  match theDisassembledDN with
  | [] => None
  | first :: rest =>
      match node_at theDisassembledDN theRootEntry with
      | None => Some (false, theRootEntry)
      | Some e =>
          match last rest with
          | None => None
          | Some x => Some (IsNewObject (data e), change_at (removelast theDisassembledDN) (remove_child x) theRootEntry)
          end
      end
  end.

(** ** The objects for IMM *)
Definition join_name (ObjName PartName : string) : string := if (String.length ObjName =? 0)%nat then PartName else ObjName +:+ "," +:+ PartName.

(** [TraverseCreatedObjTree], [TraverseModifiedObjTree]: the entries with their names; an entry comes after those below it, and those
    of the newest name first.  The results for the names below are collected by name. *)
Fixpoint Traverse (wanted : ModifiedData -> bool) (e : OamSAModifiedEntry) (ObjName PartName : string) : list (string * ModifiedData) :=
  match e with
  | Node d m =>
      let name := join_name ObjName PartName in
      let results := map (fun p => (fst p, Traverse wanted (snd p))) m in
      (myNameMapInsertionOrdered d ≫= fun x => match map_find results x with Some f => f name x | None => [] end) ++ (if wanted d then [(name, d)] else [])
  end.

Section data.
(** [OamSATranslator::IsImmRoot], [MO2Imm_DN]; whether IMM has long names. *)
Context (IsImmRoot : string -> string -> string -> bool) (MO2Imm_DN : string -> string) (bExtendedNameEnabled : bool).

Fixpoint attribute_arrays (l : StdMap string OamSADataContainer) : option (list SaImmAttrValuesT_2) :=
  match l with
  | [] => Some []
  | (a, c) :: l => v ← CreateAttributeValueArray MO2Imm_DN bExtendedNameEnabled c; rest ← attribute_arrays l; Some (MkAttr a v.1 v.2 :: rest)
  end.
(** What stands before the first dot. *)
Definition undecorated (s : string) : string := match String.index 0 "." s with Some k => String.substring 0 k s | None => s end.
(** [OamSACacheCreatedObjectData] *)
Definition created_object (ObjName : string) (mod_ : ModifiedData) : option CreatedObject :=
  attrs ← attribute_arrays (myAttributeMap mod_);
  let TheUndecoratedClassName := undecorated (default "" (last (GlobalSplitDN ObjName))) in
  let theImmParentName := if IsImmRoot (myClass mod_) TheUndecoratedClassName (myParentName mod_) then "" else MO2Imm_DN (myParentName mod_) in
  Some (MkCreated (myClass mod_) theImmParentName (entryImmName mod_) (myParentName mod_) attrs ((fun p => (p.1, hasdefaultvalue p.2)) <$> myAttributeMap mod_)).
Definition GetCreatedData (theRootEntry : OamSAModifiedEntry) : option (list CreatedObject) :=
  mapM (fun p => created_object p.1 p.2) (Traverse IsNewObject theRootEntry "" "").
(** [OamSACacheModifiedObjectData]; a name that is too long is not set. *)
Definition modified_object (mod_ : ModifiedData) : option ModifiedObject :=
  if (String.length (entryImmName mod_) <=? saNameMaxLen bExtendedNameEnabled)%nat then
    attrs ← attribute_arrays (myAttributeMap mod_); Some (MkModified (entryImmName mod_) attrs)
  else None.
Definition GetModifiedData (theRootEntry : OamSAModifiedEntry) : option (list ModifiedObject) :=
  mapM (fun p => modified_object p.2) (Traverse IsModifiedObject theRootEntry "" "").
End data.

(** ** [OamSACache] *)
Record CacheData := MkCacheData { myModifiedObjectsList : OamSAModifiedEntry; myDeletedObjectsList : DeletedMap }.
Definition CacheData_new : CacheData := MkCacheData OamSAModifiedEntry_new [].
Inductive ObjectState := eObjectSuccess | eObjectDeleted | eObjectNotFound | eObjectAlreadyExists.

(** [OamSATranslator::BuildAttributeValue] *)
Definition BuildAttributeValue (theAttributeName theAttributeValue : string) : string :=
  match String.index 0 "=" theAttributeValue with
  | None => theAttributeName +:+ "=" +:+ theAttributeValue
  | Some O => theAttributeName +:+ theAttributeValue
  | Some (S _) => theAttributeValue
  end.

Section cache.
Context (GetImmAttributeData : string -> string -> option SaImmValueTypeT) (GetClassNameFromImm : string -> option string).
Context (IsImmRoot : string -> string -> string -> bool) (MO2Imm_DN : string -> string) (bExtendedNameEnabled : bool).

Definition InsertCreatedObject (theDNList : list string) (theObjectClass theParentName theImmName theAttributeName theAttributeValue : string) (c : CacheData) : option (ObjectState * CacheData) :=
  m ← InsertNewObject GetImmAttributeData theDNList theImmName theObjectClass theParentName theAttributeName
        (MkMaf MafOamSpiMoAttributeType_3_STRING [Text (BuildAttributeValue theAttributeName theAttributeValue)]) (myModifiedObjectsList c);
  Some (eObjectSuccess, MkCacheData m (myDeletedObjectsList c)).
Definition RemoveCreatedObject (theDNList : list string) (c : CacheData) : option (bool * CacheData) :=
  r ← RemoveObject theDNList (myModifiedObjectsList c); Some (r.1, MkCacheData r.2 (myDeletedObjectsList c)).
Definition InsertDeletedObject (theList : list string) (theImmName : string) (c : CacheData) : option (ObjectState * CacheData) :=
  d ← TxDeleted.Insert theList theImmName (myDeletedObjectsList c); Some (eObjectSuccess, MkCacheData (myModifiedObjectsList c) d).
Definition RemoveDeletedObject (theDisassembledDN : list string) (c : CacheData) : option CacheData :=
  d ← TxDeleted.Remove theDisassembledDN (myDeletedObjectsList c); Some (MkCacheData (myModifiedObjectsList c) d).
Definition IsInCache (theDisassembledDN : list string) (c : CacheData) : option bool := Find theDisassembledDN (myModifiedObjectsList c).
Definition UpdateObjectAttribute (theObjectNameList : list string) (theImmName theAttributeName : string) (attributeValue : MafContainer) (c : CacheData) : option (ObjectState * CacheData) :=
  gone ← IsDeleted theObjectNameList (myDeletedObjectsList c);
  if (gone : bool) then Some (eObjectDeleted, c)
  else
    m ← Insert GetImmAttributeData GetClassNameFromImm theObjectNameList theImmName theAttributeName attributeValue (myModifiedObjectsList c);
    Some (eObjectSuccess, MkCacheData m (myDeletedObjectsList c)).
(** The state, and the values for COM. *)
Definition GetAttribute (theList : list string) (theAttributeName : string) (c : CacheData) : option (ObjectState * option (option Z * list MafValue)) :=
  a ← GetAttributeValue theList theAttributeName (myModifiedObjectsList c);
  match a with
  | None => Some (eObjectNotFound, None)
  | Some a => v ← CreateMafMoAttrValCont a; Some (eObjectSuccess, Some v)
  end.

(** The entries of the map behind a key, if the key is there. *)
Fixpoint entries_after {V} (x : string) (m : StdMap string V) : option (StdMap string V) :=
  match m with
  | [] => None
  | (y, _) :: m => if decide (y = x) then Some m else entries_after x m
  end.
Fixpoint first_child (theObjectList : list string) (theObjectClass : string) (myDeleted : DeletedMap) (m : StdMap string OamSAModifiedEntry) : option string :=
  match m with
  | [] => Some ""
  | (x, e) :: m =>
      if bool_decide (myClass (data e) = theObjectClass) && negb (IsInvalidObject (data e)) then
        gone ← IsDeleted (theObjectList ++ [x]) myDeleted;
        if (gone : bool) then first_child theObjectList theObjectClass myDeleted m else Some x
      else first_child theObjectList theObjectClass myDeleted m
  end.
(** The next child of the class, in the order of the map; an empty name when there is none. *)
Definition GetNextChildObject (theObjectList : list string) (theObjectClass thePreviousSibling : string) (c : CacheData) : option string :=
  if bool_decide (theObjectList = []) then None
  else match node_at theObjectList (myModifiedObjectsList c) with
  | None => Some ""
  | Some e =>
      if bool_decide (thePreviousSibling = "") then first_child theObjectList theObjectClass (myDeletedObjectsList c) (below e)
      else match entries_after thePreviousSibling (below e) with
           | None => Some ""
           | Some m => first_child theObjectList theObjectClass (myDeletedObjectsList c) m
           end
  end.

(** What the transaction asks of its cache, where it is defined. *)
Definition cache_lists : CacheLists CacheData := {|
  no_objects := CacheData_new;
  ListOfCreatedObjects := fun c => default [] (GetCreatedData IsImmRoot MO2Imm_DN bExtendedNameEnabled (myModifiedObjectsList c));
  ListOfDeletedObjects := fun c => GetDeletedData (myDeletedObjectsList c);
  ListOfModifiedObjects := fun c => default [] (GetModifiedData MO2Imm_DN bExtendedNameEnabled (myModifiedObjectsList c))
|}.
End cache.
