(* ===== verification/TxCacheProps.v ===== *)
(** * Transactions: theorems about the cache *)
From Stdlib Require Import ZArith Lia.
From stdpp Require Import base gmap list strings sorting.
From S2P Require Import Prelude Marks Codes CmTypes NtfData NtfInfo NtfPm StdMap NtfCmValues TxDeleted TxDeletedProps TxData TxCommands TxBridge TxSpi TxFacts TxSpiFacts TxSystem TxProps TxValues TxModified.

Open Scope Z_scope.

(** ** Values *)

(** Numbers that agree at a width. *)
Definition agree (w a b : Z) : Prop := a mod 2 ^ w = b mod 2 ^ w.
Lemma agree_wrap_u k w a b : 0 <= k <= w -> agree k a b -> agree k (wrap_u w a) b.
Proof.
  intros Hk Ha. unfold agree, wrap_u. rewrite <- Ha. replace w with (k + (w - k)) by lia. rewrite Z.pow_add_r by lia.
  rewrite Z.rem_mul_r by (try apply Z.pow_nonzero; try apply Z.pow_pos_nonneg; lia). rewrite Z.mul_comm, Z.mod_add by (apply Z.pow_nonzero; lia). apply Z.mod_mod, Z.pow_nonzero; lia.
Qed.
Lemma agree_wrap_s k w a b : 0 <= k <= w -> agree k a b -> agree k (wrap_s w a) b.
Proof.
  intros Hk Ha. pose proof (agree_wrap_u k w a b Hk Ha) as Hu. unfold wrap_s. destruct (_ <? _); [done|]. unfold agree in *. rewrite <- Hu.
  replace (2 ^ w) with (2 ^ (w - k) * 2 ^ k) by (rewrite <- Z.pow_add_r by lia; f_equal; lia). rewrite <- Zminus_mod_idemp_r, Z.mod_mul by (apply Z.pow_nonzero; lia). by rewrite Z.sub_0_r.
Qed.
Lemma wrap_s_agree w a b : agree w a b -> wrap_s w a = wrap_s w b.
Proof. unfold agree, wrap_s, wrap_u. by intros ->. Qed.
Lemma wrap_u_agree w a b : agree w a b -> wrap_u w a = wrap_u w b.
Proof. done. Qed.
Ltac wraps := first [apply wrap_s_agree | apply wrap_u_agree]; repeat first [apply agree_wrap_u; [lia|] | apply agree_wrap_s; [lia|] | reflexivity].

(** A name that is short enough, or any one when there are long names, is not cut off. *)
Lemma substring_all (s : string) n : (String.length s <= n)%nat -> String.substring 0 n s = s.
Proof. revert n. induction s as [|c s IH]; intros [|n] Hn; cbn in *; try done; [lia|]. f_equal. apply IH. lia. Qed.
Lemma short_name (ext : bool) s : (ext = false -> (String.length s < SA_MAX_UNEXTENDED_NAME_LENGTH)%nat) ->
  cell ext SA_IMM_ATTR_SANAMET (Name (saNameSet ext s)) = Some (ImmName s).
Proof.
  intros Hl. unfold saNameSet, cell. destruct ext; [done|]. cbn [negb orb]. specialize (Hl eq_refl).
  rewrite substring_all by lia. by rewrite (proj2 (Nat.ltb_lt _ _) Hl).
Qed.

Section values.
Context (MO2Imm_DN Imm2MO_DN : string -> string) (ext : bool).

(** The type of IMM has room for the value: a reference comes back from the translator, and its name is short
    when there are no long names. *)
Definition fits (t : SaImmValueTypeT) (d : OamSAValue) : Prop :=
  match d with
  | OamSAUInt8Data _ | OamSAUInt16Data _ | OamSAUInt32Data _ => t = SA_IMM_ATTR_SAUINT32T
  | OamSAUInt64Data _ => t = SA_IMM_ATTR_SAUINT64T
  | OamSAInt8Data _ | OamSAInt16Data _ | OamSAInt32Data _ => t = SA_IMM_ATTR_SAINT32T
  | OamSAInt64Data _ => t = SA_IMM_ATTR_SAINT64T \/ t = SA_IMM_ATTR_SATIMET
  | OamSADecimal64Data n => t = SA_IMM_ATTR_SADOUBLET \/ (t = SA_IMM_ATTR_SAFLOATT /\ double_of_float (float_of_double n) = n)
  | OamSAEnumData n => (t = SA_IMM_ATTR_SAINT32T /\ - 2 ^ 31 <= n < 2 ^ 31) \/ (t = SA_IMM_ATTR_SAUINT32T /\ 0 <= n < 2 ^ 32)
  | OamSABoolData _ => t = SA_IMM_ATTR_SAUINT32T \/ t = SA_IMM_ATTR_SAINT32T
  | OamSAStringData s => t = SA_IMM_ATTR_SASTRINGT /\ s <> None
  | OamSAReferenceData s => t = SA_IMM_ATTR_SANAMET /\ exists x, s = Some x /\ Imm2MO_DN (MO2Imm_DN x) = x /\ (ext = false -> (String.length (MO2Imm_DN x) < SA_MAX_UNEXTENDED_NAME_LENGTH)%nat)
  end.

Lemma value_reads_back type v d t : CreateOamSAValue type v = Some (Some d) -> fits t d ->
  exists w r, cell ext t (GetImmValue MO2Imm_DN ext (MkData t d)) = Some w /\ Imm2MO_Value Imm2MO_DN t type w = Some (true, r) /\ member type r = member type v.
Proof.
  unfold CreateOamSAValue. intros Hc Hf.
  repeat lazymatch type of Hc with
    | (if ?type =? ?k then _ else _) = _ => destruct (Z.eqb_spec type k) as [->|_]; [destruct v; cbn in Hc; try discriminate Hc; injection Hc as <-; cbn in Hf|]
    end; [..|discriminate].
  all: repeat match type of Hf with _ \/ _ => destruct Hf as [Hf|Hf] | _ /\ _ => destruct Hf as [-> Hf] end; subst.
  all: try by (eexists _, _; split; [reflexivity|]; split; [reflexivity|]; cbn -[wrap_s wrap_u]; do 2 f_equal; wraps).
  all: cbn -[wrap_s wrap_u] in *.
  - destruct t0 as [[[] s]|]; [|done]. by eexists _, _.
  - eexists _, _. split; [reflexivity|]. split; [reflexivity|]. cbn -[wrap_u]. rewrite Hf. do 2 f_equal. wraps.
  - destruct (wrap_u 8 bits =? 0); by eexists _, _.
  - destruct (wrap_u 8 bits =? 0); by eexists _, _.
  - destruct Hf as (x & Hx & Hn & Hl). destruct t0 as [[[] s]|]; [|done]. injection Hx as ->. eexists _, _. split; [exact (short_name ext _ Hl)|]. split; [reflexivity|]. cbn. by rewrite Hn.
  - rewrite (wrap_s_agree 32 (wrap_u 32 _) (wrap_s 64 bits)), wrap_s_id by (try apply agree_wrap_u; try reflexivity; lia). eexists _, _. split; [reflexivity|]. split; [reflexivity|].
    cbn -[wrap_s wrap_u]. do 2 f_equal. wraps.
  - unfold wrap_u. rewrite (Z.mod_small _ (2 ^ 32)) by done. eexists _, _. split; [reflexivity|]. split; [reflexivity|]. cbn -[wrap_s]. do 2 f_equal. wraps.
Qed.

(** The constructors choose a type of IMM that fits, but for enumerations outside of 32 bits, and for texts that are
    missing or that the translator does not give back. *)
Lemma default_fits type v d : CreateOamSAValue type v = Some (Some d) ->
  (forall s, text_of v = Some s -> exists x, s = Some x /\ Imm2MO_DN (MO2Imm_DN x) = x /\ (ext = false -> (String.length (MO2Imm_DN x) < SA_MAX_UNEXTENDED_NAME_LENGTH)%nat)) ->
  (type = MafOamSpiMoAttributeType_3_ENUM -> forall b, bits v = Some b -> - 2 ^ 31 <= wrap_s 64 b < 2 ^ 31) -> fits (default_type d) d.
Proof.
  unfold CreateOamSAValue. intros Hc Ht He.
  repeat lazymatch type of Hc with
    | (if ?type =? ?k then _ else _) = _ => destruct (Z.eqb_spec type k) as [->|_]; [destruct v; cbn in Hc; try discriminate Hc; injection Hc as <-; cbn in *; auto|]
    end; [..|discriminate].
  - destruct (Ht _ eq_refl) as (x & -> & _). done.
Qed.

(** ** Attributes *)
Definition values_of (type : Z) (vs : list MafValue) : option (list OamSADataClass) := mapM (fun v => d ← CreateOamSAData type v; d) vs.

Lemma mapM_some {A B} (f : A -> option B) x y l k : f x = Some y -> mapM f l = Some k -> mapM f (x :: l) = Some (y :: k).
Proof. change (mapM f (x :: l)) with (y ← f x; k ← mapM f l; Some (y :: k)). by intros -> ->. Qed.
Lemma values_of_cons type v vs ds : values_of type (v :: vs) = Some ds <->
  exists d ds', CreateOamSAValue type v = Some (Some d) /\ values_of type vs = Some ds' /\ ds = MkData (default_type d) d :: ds'.
Proof.
  change (values_of type (v :: vs)) with (d ← (d ← CreateOamSAData type v; d); k ← values_of type vs; Some (d :: k)).
  unfold CreateOamSAData. destruct (CreateOamSAValue type v) as [[d|]|]; cbn; [destruct (values_of type vs) as [k|]; cbn|..]; naive_solver.
Qed.
(** The values of an attribute with the type of IMM, read from a container. *)
Lemma values_to_imm type t vs ds : values_of type vs = Some ds -> Forall (fun d => fits t (myValue d)) ds ->
  exists ws, mapM (fun d => cell ext (myImmValueType d) (GetImmValue MO2Imm_DN ext d)) (SetSaImmValueType t <$> ds) = Some ws /\
    exists rs, mapM (Imm2MO_Value Imm2MO_DN t type) ws = Some (pair true <$> rs) /\ (member type <$> rs) = (member type <$> vs).
Proof.
  revert ds. induction vs as [|v vs IH]; intros ds.
  - intros [= <-] _. by exists []; split; [|exists []].
  - intros (d & ds' & Hd & Hds & ->)%values_of_cons [Hf Hfs]%Forall_cons. destruct (IH ds' Hds Hfs) as (ws & Hws & rs & Hrs & Hm).
    destruct (value_reads_back type v d t Hd Hf) as (w & r & Hw & Hr & Hv). exists (w :: ws). split; [by apply mapM_some|].
    exists (r :: rs). split; [by apply (mapM_some (Imm2MO_Value Imm2MO_DN t type))|]. cbn. by rewrite Hv, Hm.
Qed.
Lemma last_typed t ds : ds <> [] -> myImmValueType <$> last (SetSaImmValueType t <$> ds) = Some t.
Proof. intros Hd. rewrite fmap_last. destruct ds as [|d ds] using rev_ind; [done|]. by rewrite last_snoc. Qed.
Lemma attribute_to_imm type t vs ds a m i h : values_of type vs = Some ds -> vs <> [] -> Forall (fun d => fits t (myValue d)) ds ->
  exists ws, CreateAttributeValueArray MO2Imm_DN ext (MkContainer m i h (SetSaImmValueType t <$> ds)) = Some (t, ws) /\
    exists rs, Imm2MO_AttrValue Imm2MO_DN (MkAttr a t ws) type = Some (true, (type, rs)) /\ (member type <$> rs) = (member type <$> vs).
Proof.
  intros Hd Hvs Hf. destruct (values_to_imm type t vs ds Hd Hf) as (ws & Hws & rs & Hrs & Hm). exists ws. unfold CreateAttributeValueArray. cbn [myDataPointerList].
  assert (ds <> []) as Hne by (intros ->; destruct vs; [done|]; apply values_of_cons in Hd; naive_solver).
  pose proof (last_typed t ds Hne) as Hl. destruct (last _) as [d|]; [|done]. injection Hl as ->. rewrite Hws. split; [done|].
  exists rs. unfold Imm2MO_AttrValue. cbn [attrValueType attrValues]. rewrite Hrs. cbn. split; [|done]. do 3 f_equal.
  - clear. by induction rs as [|r rs IH]; [|cbn].
  - clear. f_equal. induction rs as [|r rs IH]; [done|]. cbn. by f_equal.
Qed.

(** The same values lent to COM. *)
Lemma value_lent type v d : CreateOamSAValue type v = Some (Some d) -> (forall s, text_of v = Some s -> s <> None) ->
  GetMafOamSpiMoAttributeType d = type /\ exists r, GetComOamValue d = Some r /\ member type r = member type v.
Proof.
  unfold CreateOamSAValue. intros Hc Ht.
  repeat lazymatch type of Hc with
    | (if ?type =? ?k then _ else _) = _ => destruct (Z.eqb_spec type k) as [->|_]; [destruct v; cbn in Hc; try discriminate Hc; injection Hc as <-; split; [reflexivity|]|]
    end; [..|discriminate].
  all: try by (eexists; split; [reflexivity|]; cbn -[wrap_s wrap_u]; do 2 f_equal; wraps).
  all: try (destruct t as [[[] s]|]; [by eexists|by destruct (Ht _ eq_refl)]).
  eexists; split; [reflexivity|]. cbn -[wrap_u]. by destruct (wrap_u 8 bits =? 0).
Qed.
Lemma attribute_lent type t vs ds m i h : values_of type vs = Some ds -> vs <> [] -> Forall (fun v => forall s, text_of v = Some s -> s <> None) vs ->
  exists rs, CreateMafMoAttrValCont (MkContainer m i h (SetSaImmValueType t <$> ds)) = Some (Some type, rs) /\ (member type <$> rs) = (member type <$> vs).
Proof.
  intros Hd Hvs Ht.
  assert (Forall (fun d => GetMafOamSpiMoAttributeType (myValue d) = type) ds /\
    exists rs, mapM (fun d => GetComOamValue (myValue d)) (SetSaImmValueType t <$> ds) = Some rs /\ (member type <$> rs) = (member type <$> vs)) as (Hty & rs & Hrs & Hm).
  { clear Hvs. revert ds Hd. induction vs as [|v vs IH]; intros ds; [intros [= <-]; split; [done|]; by exists []|].
    intros (d & ds' & Hd & Hds & ->)%values_of_cons. apply Forall_cons in Ht as [Hv Ht]. destruct (IH Ht ds' Hds) as (Hty & rs & Hrs & Hm).
    destruct (value_lent type v d Hd Hv) as (Hdt & r & Hr & Hmr). split; [by constructor|]. exists (r :: rs). split; [by apply mapM_some|]. cbn. by rewrite Hmr, Hm. }
  exists rs. split; [|done]. unfold CreateMafMoAttrValCont. cbn [myDataPointerList].
  destruct ds as [|d ds _] using rev_ind; [destruct vs; [done|]; apply values_of_cons in Hd; naive_solver|]. rewrite fmap_last, last_snoc, Hrs. cbn.
  by apply Forall_app in Hty as [_ [-> _]%Forall_cons].
Qed.
End values.

(** ** The tree: entries and their names *)
Implicit Types (e c : OamSAModifiedEntry) (d : ModifiedData) (dn : list string).

(** What an entry says about its object. *)
Definition strip (d : ModifiedData) : ModifiedData := set_order [] d.
(** A change of an object leaves the names below it alone. *)
Definition inner (f : ModifiedData -> ModifiedData) : Prop :=
  forall d, myNameMapInsertionOrdered (f d) = myNameMapInsertionOrdered d /\ (forall l, strip (f (set_order l d)) = strip (f d)) /\
    (ordered (myAttributeMap d) -> ordered (myAttributeMap (f d))).

(** The maps are in order, and the list of names has each name of the map once. *)
#[local] Set Warnings "-register-all".
Inductive wf_tree : OamSAModifiedEntry -> Prop :=
| wf_node d m : ordered m -> NoDup (myNameMapInsertionOrdered d) -> (forall x, x ∈ myNameMapInsertionOrdered d <-> is_Some (map_find m x)) ->
    ordered (myAttributeMap d) -> Forall wf_tree m.*2 -> wf_tree (Node d m).
Lemma wf_parts d m : wf_tree (Node d m) -> ordered m /\ NoDup (myNameMapInsertionOrdered d) /\ (forall x, x ∈ myNameMapInsertionOrdered d <-> is_Some (map_find m x)) /\
  ordered (myAttributeMap d) /\ Forall wf_tree m.*2.
Proof. by inversion 1. Qed.
Lemma wf_new : wf_tree OamSAModifiedEntry_new.
Proof. constructor; [done|constructor| |done|constructor]. intros x. split; [by intros ?%elem_of_nil|by intros [? ?]]. Qed.

Lemma find_AddName x y e : wf_tree e -> map_find (below (AddName x e)) y =
  if decide (y = x) then Some (default OamSAModifiedEntry_new (map_find (below e) x)) else map_find (below e) y.
Proof.
  destruct e as [d m]. intros (Ho & _)%wf_parts. unfold AddName. cbn [below]. destruct (map_find m x) as [c|] eqn:Ex; cbn [below].
  - case_decide; [by subst|done].
  - rewrite find_insert by done. case_decide; [subst; by rewrite Ex|]. by destruct (map_find m y).
Qed.
Lemma strip_AddName x e : strip (data (AddName x e)) = strip (data e).
Proof. unfold AddName. by destruct (map_find _ x). Qed.
Lemma wf_AddName x e : wf_tree e -> wf_tree (AddName x e).
Proof.
  destruct e as [d m]. intros Hw. pose proof (wf_parts _ _ Hw) as (Ho & Hn & Hx & Ha & Hm). unfold AddName. cbn [below data]. destruct (map_find m x) eqn:Ex; [done|].
  constructor; cbn [set_order myNameMapInsertionOrdered myAttributeMap].
  - by apply insert_ordered.
  - constructor; [|done]. rewrite Hx, Ex. by intros [? ?].
  - intros y. rewrite elem_of_cons, Hx, find_insert by done. destruct (map_find m y) eqn:Ey; [naive_solver|]. case_decide; naive_solver.
  - done.
  - apply insert_values; [done|apply wf_new].
Qed.
Lemma wf_change_below x f d m : wf_tree (Node d m) -> (forall c, map_find m x = Some c -> wf_tree c -> wf_tree (f c)) -> wf_tree (Node d (map_update m x f)).
Proof.
  intros (Ho & Hn & Hx & Ha & Hm)%wf_parts Hf. constructor; [by apply update_ordered|done| |done|by apply update_values].
  intros y. rewrite Hx, find_update. case_decide; [subst; by destruct (map_find m x)|done].
Qed.
Lemma wf_AddNames dn f e : inner f -> wf_tree e -> wf_tree (AddNames dn f e).
Proof.
  intros Hf. revert e. induction dn as [|x dn IH]; intros e He; cbn [AddNames].
  - destruct e as [d m]. destruct (Hf d) as (Hl & _ & Ha). apply wf_parts in He as (Ho & Hn & Hx & Hat & Hm). constructor; cbn; rewrite ?Hl; auto.
  - pose proof (wf_AddName x e He) as Hw. destruct (AddName x e) as [d m]. apply wf_change_below; [done|]. intros c _. apply IH.
Qed.

(** What [AddNames] makes of the entry with any name. *)
Lemma node_new dn : node_at dn OamSAModifiedEntry_new = if decide (dn = []) then Some OamSAModifiedEntry_new else None.
Proof. by destruct dn. Qed.
Lemma strip_AddNames dn f e dn' : inner f -> wf_tree e ->
  strip ∘ data <$> node_at dn' (AddNames dn f e) =
    if decide (dn' = dn) then Some (strip (f (default (data OamSAModifiedEntry_new) (data <$> node_at dn e))))
    else if decide (dn' `prefix_of` dn) then Some (strip (default (data OamSAModifiedEntry_new) (data <$> node_at dn' e)))
    else strip ∘ data <$> node_at dn' e.
Proof.
  intros Hf. revert e dn'. induction dn as [|x dn IH]; intros e dn' He; cbn [AddNames].
  - destruct dn' as [|y dn']; [done|]. rewrite decide_False by done. rewrite decide_False by (by intros ?%prefix_nil_inv). done.
  - destruct dn' as [|y dn'].
    { rewrite decide_False by done. rewrite decide_True by apply prefix_nil. cbn [node_at fmap option_fmap option_map compose default]. by rewrite change_below_data, strip_AddName. }
    cbn [node_at]. change (below (change_below ?f ?t)) with (f (below t)). cbn beta. rewrite find_update, !find_AddName by done. destruct (decide (y = x)) as [->|Hne].
    + rewrite decide_True by done. cbn [fmap option_fmap option_map mbind option_bind].
      assert (wf_tree (default OamSAModifiedEntry_new (map_find (below e) x))) as Hw.
      { destruct e as [d m]. apply wf_parts in He as (_ & _ & _ & _ & Hm). cbn. destruct (map_find m x) eqn:Ex; [by apply (find_values _ _ _ _ Hm Ex)|apply wf_new]. }
      rewrite (IH _ dn' Hw). rewrite (decide_ext (x :: dn' = x :: dn) (dn' = dn)) by (split; congruence).
      rewrite (decide_ext (x :: dn' `prefix_of` x :: dn) (dn' `prefix_of` dn)) by (split; [by intros ?%prefix_cons_inv_2|apply prefix_cons]).
      destruct (decide (dn' = dn)) as [->|Hd].
      * destruct (map_find (below e) x); [done|]. cbn. rewrite node_new. by case_decide.
      * destruct (decide (dn' `prefix_of` dn)) as [Hp|Hp]; (destruct (map_find (below e) x); [done|]); cbn; rewrite node_new; case_decide; subst; try done.
        destruct Hp. apply prefix_nil.
    + rewrite !(decide_False (P := _ :: _ = _)), !decide_False by (try congruence; intros ?%prefix_cons_inv_1; congruence). done.
Qed.

(** ** Attributes of entries *)
Definition attribute_at dn (a : string) e : option OamSADataContainer := d ← (strip ∘ data <$> node_at dn e); map_find (myAttributeMap d) a.
Lemma attribute_at_eq dn a e : GetAttributeValue dn a e = if decide (dn = []) then None else Some (attribute_at dn a e).
Proof. unfold GetAttributeValue, attribute_at. case_decide; [by rewrite bool_decide_eq_true_2|]. rewrite bool_decide_eq_false_2 by done. by destruct (node_at dn e). Qed.

Lemma find_put_attribute a f m a' : ordered m ->
  map_find (put_attribute a f m) a' = if decide (a' = a) then Some (f (Clear (default OamSADataContainer_new (map_find m a)))) else map_find m a'.
Proof.
  intros Ho. unfold put_attribute. rewrite find_update, !find_insert by done. rewrite (decide_True _ _ (eq_refl a)).
  destruct (decide (a' = a)) as [->|Hne]; [by destruct (map_find m a)|by destruct (map_find m a')].
Qed.
Lemma ordered_put_attribute a f m : ordered m -> ordered (put_attribute a f m).
Proof. intros Ho. by apply update_ordered, insert_ordered. Qed.

Lemma attributes_ordered dn e : wf_tree e -> ordered (myAttributeMap (default (data OamSAModifiedEntry_new) (data <$> node_at dn e))).
Proof.
  revert e. induction dn as [|x dn IH]; intros [d m] He; pose proof (wf_parts _ _ He) as (_ & _ & _ & Ha & Hm); [done|]. cbn [node_at below].
  destruct (map_find m x) as [c|] eqn:Ec; [|done]. apply IH, (find_values _ _ _ _ Hm Ec).
Qed.
(** An attribute is written: it alone is changed. *)
Lemma attribute_at_AddNames dn a f g e dn' a' : wf_tree e -> (forall d, myAttributeMap (g d) = put_attribute a f (myAttributeMap d)) -> inner g ->
  attribute_at dn' a' (AddNames dn g e) =
    if decide ((dn', a') = (dn, a)) then Some (f (Clear (default OamSADataContainer_new (attribute_at dn a e)))) else attribute_at dn' a' e.
Proof.
  intros Hw Hg Hi. unfold attribute_at. rewrite strip_AddNames by done. destruct (decide (dn' = dn)) as [->|Hd].
  - cbn [mbind option_bind]. change (myAttributeMap (strip ?d)) with (myAttributeMap d). rewrite Hg, find_put_attribute by by apply attributes_ordered.
    rewrite (decide_ext ((dn, a') = (dn, a)) (a' = a)) by (split; congruence). by destruct (node_at dn e).
  - rewrite (decide_False (P := (_, _) = _)) by congruence. case_decide; [|done]. by destruct (node_at dn' e).
Qed.

Lemma add_all_eq l (k : OamSADataContainer) : add_all l k = MkContainer (MafAttributeType k) (ImmValueType k) (hasdefaultvalue k) (myDataPointerList k ++ l).
Proof. revert k. induction l as [|d l IH]; intros k; [destruct k; cbn; by rewrite app_nil_r|].
  change (add_all (d :: l) k) with (add_all l (Add d k)). rewrite IH. cbn. by rewrite <- app_assoc. Qed.
Lemma values_made type vs ds : values_of type vs = Some ds -> mapM (CreateOamSAData type) vs = Some (Some <$> ds).
Proof.
  revert ds. induction vs as [|v vs IH]; intros ds; [by intros [= <-]|]. intros (d & ds' & Hd & Hds & ->)%values_of_cons.
  apply mapM_some; [|by apply IH]. unfold CreateOamSAData. by rewrite Hd.
Qed.
Lemma mapM_id {A} (l : list A) : mapM id (Some <$> l) = Some l.
Proof. induction l as [|x l IH]; [done|]. by apply (mapM_some id). Qed.
Lemma fits_text O I ext type v (d : OamSAValue) t : CreateOamSAValue type v = Some (Some d) -> fits O I ext t d -> forall s, text_of v = Some s -> s <> None.
Proof.
  unfold CreateOamSAValue. intros Hc Hf.
  repeat lazymatch type of Hc with
    | (if ?type =? ?k then _ else _) = _ => destruct (Z.eqb_spec type k) as [->|_]; [destruct v; cbn in Hc; try discriminate Hc; injection Hc as <-; cbn in Hf; try done|]
    end; [..|discriminate]; intros s [= <-]; destruct Hf as [_ Hf]; [done|]. by destruct Hf as (y & -> & _).
Qed.
Lemma values_texts O I ext type vs ds t : values_of type vs = Some ds -> Forall (fun x => fits O I ext t (myValue x)) ds -> Forall (fun v => forall s, text_of v = Some s -> s <> None) vs.
Proof.
  revert ds. induction vs as [|v vs IH]; intros ds; [constructor|]. intros (d & ds' & Hd & Hds & ->)%values_of_cons [Hf Hfs]%Forall_cons.
  constructor; [by eapply fits_text|by eapply IH].
Qed.

(** The caches that the transaction can have. *)
Definition wf_cache (c : CacheData) : Prop := wf_tree (myModifiedObjectsList c) /\ sorted_list (myDeletedObjectsList c).

Section cache.
Context (GetImmAttributeData : string -> string -> option SaImmValueTypeT) (GetClassNameFromImm : string -> option string) (MO2Imm_DN Imm2MO_DN : string -> string) (ext : bool).
Abbreviation Update := (UpdateObjectAttribute GetImmAttributeData GetClassNameFromImm).

Lemma inner_altered imm a f : inner (fun d => let d := SetImmName imm (SetEntryKind eModifiedEntryAlteredObject d) in set_attributes (put_attribute a f (myAttributeMap d)) d).
Proof. intros d. split; [done|]. split; [done|]. cbn. apply ordered_put_attribute. Qed.
Lemma inner_new parent class imm a f : inner (fun d =>
  let d := SetParentName parent (SetClassName class (SetImmName imm (SetEntryKind eModifiedEntryNewObject d))) in set_attributes (put_attribute a f (myAttributeMap d)) d).
Proof. intros d. split; [done|]. split; [done|]. cbn. apply ordered_put_attribute. Qed.

Lemma Insert_values dn imm a type vs ds t e : dn <> [] -> values_of type vs = Some ds -> vs <> [] -> type_at GetImmAttributeData GetClassNameFromImm dn imm a e = Some t -> wf_tree e ->
  exists e' m i h, Insert GetImmAttributeData GetClassNameFromImm dn imm a (MkMaf type vs) e = Some e' /\
    forall dn' a', attribute_at dn' a' e' = if decide ((dn', a') = (dn, a)) then Some (MkContainer m i h (SetSaImmValueType t <$> ds)) else attribute_at dn' a' e.
Proof.
  intros Hdn Hds Hvs Ht Hw. unfold Insert. rewrite bool_decide_eq_false_2 by done. cbn [maf_type maf_values]. rewrite (values_made _ _ _ Hds). cbn [mbind option_bind]. rewrite mapM_id.
  cbn [mbind option_bind]. eexists _, _, _, _. split; [reflexivity|]. intros dn' a'.
  rewrite (attribute_at_AddNames dn a (fun c : OamSADataContainer => _)) by (first [done|apply inner_altered|reflexivity]).
  case_decide; [|done]. rewrite bool_decide_eq_false_2 by done. rewrite Ht, add_all_eq. reflexivity.
Qed.

(** C29. Values that COM sets can be read back.  When an object is not deleted, there is at least one value, IMM knows the type of
    its attribute and this type has room for the values ([fits]), then setting the attribute succeeds; the cache lends the same values to
    COM from then on; the values that it makes for IMM have the type of IMM, and translated back they are the same values again.  No
    other attribute is changed, of this or of any other object.
    [fits]: numbers go to the type of IMM for their width; an enumeration is in the 32 bits of its type; a double that
    becomes a float has the same value; a text goes to a string of IMM (one for a [SaNameT] is not written,
    [text_as_name]); a reference goes to a [SaNameT], the translator gives it back, and without long names it is shorter than 256
    characters (longer ones are cut off, [long_name]). *)
Theorem attribute_reads_back type vs ds t dn imm a (c : CacheData) : wf_cache c -> IsDeleted dn (myDeletedObjectsList c) = Some false ->
  values_of type vs = Some ds -> vs <> [] -> type_at GetImmAttributeData GetClassNameFromImm dn imm a (myModifiedObjectsList c) = Some t ->
  Forall (fun x => fits MO2Imm_DN Imm2MO_DN ext t (myValue x)) ds ->
  exists c' : CacheData, Update dn imm a (MkMaf type vs) c = Some (eObjectSuccess, c') /\
    (exists rs, GetAttribute dn a c' = Some (eObjectSuccess, Some (Some type, rs)) /\ (member type <$> rs) = (member type <$> vs)) /\
    (exists k ws rs, GetAttributeValue dn a (myModifiedObjectsList c') = Some (Some k) /\ CreateAttributeValueArray MO2Imm_DN ext k = Some (t, ws) /\
       Imm2MO_AttrValue Imm2MO_DN (MkAttr a t ws) type = Some (true, (type, rs)) /\ (member type <$> rs) = (member type <$> vs)) /\
    forall dn' a', (dn', a') <> (dn, a) -> GetAttribute dn' a' c' = GetAttribute dn' a' c.
Proof.
  intros [Hw _] Hdel Hds Hvs Ht Hf. assert (dn <> []) as Hdn by by destruct dn.
  destruct (Insert_values dn imm a type vs ds t _ Hdn Hds Hvs Ht Hw) as (e' & m & i & h & He & Hat). unfold UpdateObjectAttribute. rewrite Hdel. cbn [mbind option_bind].
  rewrite He. eexists. split; [reflexivity|]. unfold GetAttribute. cbn [myModifiedObjectsList]. setoid_rewrite attribute_at_eq. rewrite (decide_False (P := dn = [])), !Hat, decide_True by done. split; [|split].
  - destruct (attribute_lent type t vs ds m i h Hds Hvs (values_texts _ _ _ _ _ _ _ Hds Hf)) as (rs & Hr & Hm). cbn [mbind option_bind]. rewrite Hr. by exists rs.
  - destruct (attribute_to_imm MO2Imm_DN Imm2MO_DN ext type t vs ds a m i h Hds Hvs Hf) as (ws & Hws & rs & Hrs & Hm). by exists (MkContainer m i h (SetSaImmValueType t <$> ds)), ws, rs.
  - intros dn' a' Hne. case_decide; [done|]. by rewrite Hat, decide_False.
Qed.
End cache.

(** ** The entries of a tree *)
Abbreviation below_name x := (prod_map (cons x) (@id ModifiedData)).
(** [Traverse], with the parts of the names. *)
Fixpoint entries (wanted : ModifiedData -> bool) e : list (list string * ModifiedData) :=
  match e with
  | Node d m =>
      let results := map (fun p => (fst p, entries wanted (snd p))) m in
      (myNameMapInsertionOrdered d ≫= fun x => below_name x <$> default [] (map_find results x)) ++ (if wanted d then [([], d)] else [])
  end.
Lemma find_map {V W} (f : V -> W) (m : StdMap string V) x : map_find (map (fun p => (p.1, f p.2)) m) x = f <$> map_find m x.
Proof. induction m as [|[y v] m IH]; [done|]. cbn. case_decide; [done|apply IH]. Qed.
Lemma entries_node wanted d m :
  entries wanted (Node d m) = (myNameMapInsertionOrdered d ≫= fun x => below_name x <$> default [] (entries wanted <$> map_find m x)) ++ (if wanted d then [([], d)] else []).
Proof. cbn [entries]. f_equal. apply list_bind_ext; [|done]. intros x. f_equal. f_equal. apply find_map. Qed.

Lemma Traverse_entries wanted e name part : Traverse wanted e name part = (fun p => (foldl join_name (join_name name part) p.1, p.2)) <$> entries wanted e.
Proof.
  revert name part. induction e as [d m IH] using tree_ind. intros name part. rewrite entries_node. cbn [Traverse]. rewrite fmap_app. f_equal; [|by destruct (wanted d)].
  induction (myNameMapInsertionOrdered d) as [|x l IHl]; [done|]. cbn [mbind list_bind]. rewrite fmap_app, <- IHl. f_equal. rewrite (find_map (Traverse wanted)). destruct (map_find m x) as [c|] eqn:Ec; [|done].
  cbn. rewrite (find_values _ _ _ _ IH Ec), <- list_fmap_compose. by apply list_fmap_ext.
Qed.

Lemma entries_iff wanted e p d : wf_tree e -> (p, d) ∈ entries wanted e <-> (data <$> node_at p e = Some d /\ wanted d = true).
Proof.
  revert p. induction e as [d0 m IH] using tree_ind. intros p Hw. pose proof (wf_parts _ _ Hw) as (Ho & Hn & Hx & Ha & Hm). rewrite entries_node, elem_of_app, list_elem_of_bind.
  assert (forall x c p, map_find m x = Some c -> (p, d) ∈ entries wanted c <-> (data <$> node_at p c = Some d /\ wanted d = true)) as Hc.
  { intros x c p' Hf. apply (find_values _ _ _ _ IH Hf). by apply (find_values _ _ _ _ Hm Hf). }
  destruct p as [|y p]; split.
  - intros [(x & (q & Hq & _)%list_elem_of_fmap & _)|Hp]; [done|]. destruct (wanted d0) eqn:Ewd; [|by apply elem_of_nil in Hp]. apply list_elem_of_singleton in Hp as [= ->]. done.
  - cbn. intros [[= ->] ->]. right. by apply list_elem_of_singleton.
  - intros [(x & (q & Hq & Hin)%list_elem_of_fmap & _)|Hp]; [|destruct (wanted d0); [by apply list_elem_of_singleton in Hp|by apply elem_of_nil in Hp]].
    destruct q as [q d']. injection Hq as -> -> ->. cbn. destruct (map_find m x) as [c|] eqn:Ec; [|by apply elem_of_nil in Hin]. cbn in *. by apply (Hc x).
  - cbn. intros [Hp Hwd]. destruct (map_find m y) as [c|] eqn:Ec; [|done]. left. exists y. split; [|apply Hx; by rewrite Ec].
    apply list_elem_of_fmap. exists (p, d). split; [done|]. rewrite Ec. cbn. by apply (Hc y).
Qed.

(** An entry comes after all entries below it. *)
Lemma entries_sorted wanted e : wf_tree e -> StronglySorted (fun p q => ~ p.1 `prefix_of` q.1) (entries wanted e).
Proof.
  induction e as [d m IH] using tree_ind. intros (Ho & Hn & Hx & Ha & Hm)%wf_parts. rewrite entries_node.
  assert (forall l, NoDup l -> StronglySorted (fun p q => ~ p.1 `prefix_of` q.1) (l ≫= fun x => below_name x <$> default [] (entries wanted <$> map_find m x))) as Hs.
  { intros l. induction 1 as [|x l Hxl Hl IHl]; [constructor|]. cbn [mbind list_bind]. apply StronglySorted_app; split; [|split; [|done]].
    - intros p q (p' & -> & _)%list_elem_of_fmap Hq. apply list_elem_of_bind in Hq as (y & (q' & -> & _)%list_elem_of_fmap & Hy). cbn. intros ->%prefix_cons_inv_1. done.
    - destruct (map_find m x) as [c|] eqn:Ec; [|constructor]. cbn. pose proof (find_values _ _ _ _ IH Ec (find_values _ _ _ _ Hm Ec)) as Hc.
      induction Hc as [|p k Hk IHk Hp]; [constructor|]. cbn. constructor; [done|]. apply Forall_fmap. eapply Forall_impl; [exact Hp|]. intros q Hpq Hq. apply Hpq. by apply prefix_cons_inv_2 in Hq. }
  destruct (wanted d); [|rewrite app_nil_r; auto]. apply StronglySorted_app; split; [|split; [auto|by repeat constructor]].
  intros p q (y & (p' & -> & _)%list_elem_of_fmap & _)%list_elem_of_bind ->%list_elem_of_singleton Hpq. by apply prefix_nil_inv in Hpq.
Qed.

(** ** Removing *)
Lemma wf_remove_child x e : wf_tree e -> wf_tree (remove_child x e).
Proof.
  destruct e as [d m]. intros (Ho & Hn & Hx & Ha & Hm)%wf_parts. constructor; cbn.
  - by apply erase_ordered.
  - by apply NoDup_filter.
  - intros y. rewrite list_elem_of_filter, Hx, find_erase by done. case_decide; [split; [by intros [? _]|by intros [? ?]]|tauto].
  - done.
  - by apply erase_values.
Qed.
Lemma wf_change_at dn f e : (forall c, wf_tree c -> wf_tree (f c)) -> wf_tree e -> wf_tree (change_at dn f e).
Proof.
  intros Hf. revert e. induction dn as [|x dn IH]; intros [d m] He; cbn; [by apply Hf|]. apply wf_change_below; [done|]. intros c _. apply IH.
Qed.
Lemma node_wf dn e c : wf_tree e -> node_at dn e = Some c -> wf_tree c.
Proof.
  revert e. induction dn as [|y dn IH]; intros [d m] Hw; cbn; [by intros [= <-]|]. apply wf_parts in Hw as (_ & _ & _ & _ & Hm).
  destruct (map_find m y) as [c'|] eqn:Ey; [|done]. apply IH. by apply (find_values _ _ _ _ Hm Ey).
Qed.
Lemma node_remove dn x e dn' : wf_tree e ->
  strip ∘ data <$> node_at dn' (change_at dn (remove_child x) e) = if decide (dn ++ [x] `prefix_of` dn') then None else strip ∘ data <$> node_at dn' e.
Proof.
  intros Hw. destruct (decide (dn `prefix_of` dn')) as [[q ->]|Hp].
  - rewrite node_change_below, node_at_app. destruct (node_at dn e) as [c|] eqn:Ec; cbn [mbind option_bind]; [|by case_decide].
    assert (wf_tree c) as Hc by by eapply node_wf.
    rewrite (decide_ext (dn ++ [x] `prefix_of` dn ++ q) ([x] `prefix_of` q)) by (split; [apply prefix_app_inv|apply prefix_app]). destruct c as [d m], q as [|y q].
    + by rewrite decide_False by (by intros ?%prefix_nil_inv).
    + apply wf_parts in Hc as (Ho & _). cbn [node_at remove_child below]. rewrite find_erase by done. case_decide as Hy.
      * subst. by rewrite decide_True by (apply prefix_cons, prefix_nil).
      * by rewrite decide_False by (intros ?%prefix_cons_inv_1; congruence).
  - rewrite decide_False by (intros Hq; apply Hp; etrans; [by apply prefix_app_r|exact Hq]). rewrite !option_fmap_compose. f_equal. by apply node_change_other.
Qed.

Lemma last_split (x : string) l y : last l = Some y -> removelast (x :: l) ++ [y] = x :: l.
Proof. destruct l as [|z l _] using rev_ind; [done|]. rewrite last_snoc. intros [= ->]. change (x :: l ++ [y]) with ((x :: l) ++ [y]). by rewrite removelast_last. Qed.

Lemma RemoveObject_wf dn e b e' : wf_tree e -> RemoveObject dn e = Some (b, e') -> wf_tree e'.
Proof.
  intros Hw. unfold RemoveObject. destruct dn as [|x rest]; [done|]. destruct (node_at _ e) as [c|]; [|by intros [= <- <-]].
  destruct (last rest); [|done]. intros [= <- <-]. by apply wf_change_at; [apply wf_remove_child|].
Qed.

(** C31. Removing an object from the cache removes it and all that is below it, and nothing else; the result says whether it was a
    new object.  Only a name with one part, of an object that is in the cache, is beyond what the code can do: it uses a parent
    that it has not looked up. *)
Theorem RemoveObject_removes dn e : wf_tree e -> dn <> [] ->
  match RemoveObject dn e with
  | Some (new, e') => wf_tree e' /\ (new = true <-> exists d, data <$> node_at dn e = Some d /\ myEntryKind d = eModifiedEntryNewObject) /\
      forall dn', strip ∘ data <$> node_at dn' e' = if decide (dn `prefix_of` dn') then None else strip ∘ data <$> node_at dn' e
  | None => length dn = 1%nat /\ is_Some (node_at dn e)
  end.
Proof.
  intros Hw Hdn. destruct dn as [|x rest]; [done|]. unfold RemoveObject. destruct (node_at (x :: rest) e) as [c|] eqn:Ec.
  - destruct (last rest) as [y|] eqn:Ey; [|by apply last_None in Ey as ->]. split; [by apply wf_change_at; [apply wf_remove_child|]|]. split.
    + unfold IsNewObject. rewrite bool_decide_eq_true. cbn. naive_solver.
    + intros dn'. rewrite node_remove by done. by rewrite (last_split _ _ _ Ey).
  - split; [done|]. split; [by split; [|intros (? & ? & ?)]|]. intros dn'. case_decide as Hp; [|done]. destruct Hp as [q ->]. by rewrite node_at_app, Ec.
Qed.

(** ** Caches of a transaction *)
Section steps.
Context (GetImmAttributeData : string -> string -> option SaImmValueTypeT) (GetClassNameFromImm : string -> option string).

(** The calls that change a cache. *)
Inductive cache_step (c c' : CacheData) : Prop :=
| step_create dn class parent imm a v s : InsertCreatedObject GetImmAttributeData dn class parent imm a v c = Some (s, c') -> cache_step c c'
| step_uncreate dn b : RemoveCreatedObject dn c = Some (b, c') -> cache_step c c'
| step_delete dn imm s : InsertDeletedObject dn imm c = Some (s, c') -> cache_step c c'
| step_undelete dn : RemoveDeletedObject dn c = Some c' -> cache_step c c'
| step_update dn imm a v s : UpdateObjectAttribute GetImmAttributeData GetClassNameFromImm dn imm a v c = Some (s, c') -> cache_step c c'.

Lemma wf_cache_new : wf_cache CacheData_new.
Proof. split; [apply wf_new|apply sorted_nil]. Qed.
Lemma cache_step_wf (c c' : CacheData) : cache_step c c' -> wf_cache c -> wf_cache c'.
Proof.
  intros Hs [Hm Hd]. destruct Hs as [dn class parent imm a v s Hc|dn b Hc|dn imm s Hc|dn Hc|dn imm a v s Hc].
  - unfold InsertCreatedObject, InsertNewObject in Hc. case_bool_decide; [done|]. cbn [maf_type maf_values] in Hc. destruct (mapM _ _); [|done]. injection Hc as <- <-.
    split; [apply wf_AddNames; [apply inner_new|done]|done].
  - unfold RemoveCreatedObject in Hc. destruct (RemoveObject _ _) as [[b' m]|] eqn:Er; [|done]. injection Hc as <- <-. split; [by eapply RemoveObject_wf|done].
  - unfold InsertDeletedObject in Hc. destruct (TxDeleted.Insert _ _ _) as [m|] eqn:Em; [|done]. injection Hc as <- <-. split; [done|by eapply Insert_sorted].
  - unfold RemoveDeletedObject in Hc. destruct (TxDeleted.Remove _ _) as [m|] eqn:Em; [|done]. injection Hc as <-. split; [done|by eapply Remove_sorted].
  - unfold UpdateObjectAttribute in Hc. destruct (IsDeleted _ _) as [[]|]; [by injection Hc as <- <-| |done]. cbn [mbind option_bind] in Hc. unfold Insert in Hc. case_bool_decide; [done|].
    destruct (mapM _ _) as [l|]; [|done]. cbn [mbind option_bind] in Hc. destruct (mapM _ l) as [l'|]; [|done]. injection Hc as <- <-. split; [apply wf_AddNames; [apply inner_altered|done]|done].
Qed.
Lemma reachable_wf (c : CacheData) : rtc cache_step CacheData_new c -> wf_cache c.
Proof. apply (rtc_ind_r wf_cache CacheData_new); [apply wf_cache_new|]. intros c1 c2 _ Hs Hw. by eapply cache_step_wf. Qed.

(** The objects with a kind, with the parts of their names. *)
Definition of_kind (k : eModifiedEntryKind) e (l : list (list string * ModifiedData)) : Prop :=
  StronglySorted (fun p q => ~ p.1 `prefix_of` q.1) l /\ forall dn d, (dn, d) ∈ l <-> (data <$> node_at dn e = Some d /\ myEntryKind d = k).
Lemma entries_of_kind k e : wf_tree e -> of_kind k e (entries (fun d => bool_decide (myEntryKind d = k)) e).
Proof. intros Hw. split; [by apply entries_sorted|]. intros dn d. by rewrite entries_iff, bool_decide_eq_true. Qed.
Lemma mapM_fmap {A B C} (f : A -> B) (g : B -> option C) l : mapM g (f <$> l) = mapM (g ∘ f) l.
Proof. induction l as [|x l IH]; [done|]. cbn. by rewrite IH. Qed.

(** Whatever COM did with the cache, the objects that it gives to the transaction are exactly its new ones and its altered
    ones, each of them once, and an object comes after all those that are below it: new objects are created in
    the reverse order, so that a parent is there before its children.  The calls that make them are those of the entries in this order. *)
Theorem cache_gives_its_objects IsImmRoot MO2Imm_DN ext (c : CacheData) : rtc cache_step CacheData_new c ->
  exists created modified,
    of_kind eModifiedEntryNewObject (myModifiedObjectsList c) created /\ of_kind eModifiedEntryAlteredObject (myModifiedObjectsList c) modified /\
    GetCreatedData IsImmRoot MO2Imm_DN ext (myModifiedObjectsList c) = mapM (fun p => created_object IsImmRoot MO2Imm_DN ext (foldl join_name "" p.1) p.2) created /\
    GetModifiedData MO2Imm_DN ext (myModifiedObjectsList c) = mapM (fun p => modified_object MO2Imm_DN ext p.2) modified.
Proof.
  intros [Hw _]%reachable_wf. exists (entries IsNewObject (myModifiedObjectsList c)), (entries IsModifiedObject (myModifiedObjectsList c)).
  unfold GetCreatedData, GetModifiedData. rewrite !Traverse_entries, !mapM_fmap. split; [by apply entries_of_kind|]. split; [by apply entries_of_kind|done].
Qed.
End steps.

(** ** Children *)
Section children.
Context (dn : list string) (cls : string) (c : CacheData).

(** The calls of an iterator: each has the name that the last one gave. *)
Fixpoint iterate (n : nat) (prev : string) : option (list string) :=
  match n with
  | O => None
  | S n => x ← GetNextChildObject dn cls prev c; if bool_decide (x = "") then Some [] else cons x <$> iterate n x
  end.
(** The children that are seen. *)
Definition seen (p : string * OamSAModifiedEntry) : Prop :=
  myClass (data p.2) = cls /\ myEntryKind (data p.2) <> eModifiedEntryNoKind /\ IsDeleted (dn ++ [p.1]) (myDeletedObjectsList c) = Some false.
#[local] Instance seen_dec p : Decision (seen p).
Proof. unfold seen. apply _. Defined.
Definition seen_names (m : list (string * OamSAModifiedEntry)) : list string := (filter seen m).*1.

Lemma first_child_seen m : first_child dn cls (myDeletedObjectsList c) m = Some (default "" (head (seen_names m))).
Proof.
  induction m as [|[x e] m IH]; [done|]. cbn [first_child]. unfold seen_names in *. rewrite filter_cons. unfold IsInvalidObject.
  assert (exists b, IsDeleted (dn ++ [x]) (myDeletedObjectsList c) = Some b) as [b Hb] by (destruct dn; cbn; eauto). rewrite Hb.
  destruct (decide (myClass (data e) = cls)) as [Hc|Hc].
  - rewrite (bool_decide_eq_true_2 _ Hc). destruct (decide (myEntryKind (data e) = eModifiedEntryNoKind)) as [Hk|Hk].
    + rewrite (bool_decide_eq_true_2 _ Hk), decide_False by (by intros (_ & ? & _)). exact IH.
    + rewrite (bool_decide_eq_false_2 _ Hk). destruct b; cbn; [rewrite decide_False; [exact IH|]|by rewrite decide_True]. intros (_ & _ & Hd). cbn in Hd. congruence.
  - rewrite (bool_decide_eq_false_2 _ Hc), decide_False by (by intros (? & _)). exact IH.
Qed.
Lemma seen_split (m : list (string * OamSAModifiedEntry)) p l : filter seen m = p :: l -> exists m1 m2, m = m1 ++ p :: m2 /\ filter seen m2 = l.
Proof.
  induction m as [|q m IH]; [done|]. rewrite filter_cons. case_decide; [intros [= -> <-]; by exists [], m|].
  intros Hf. destruct (IH Hf) as (m1 & m2 & -> & Hl). by exists (q :: m1), m2.
Qed.
Lemma entries_after_app {V} (m1 m2 : StdMap string V) x v : NoDup (m1 ++ (x, v) :: m2).*1 -> entries_after x (m1 ++ (x, v) :: m2) = Some m2.
Proof.
  induction m1 as [|[y w] m1 IH]; cbn; [intros _; by rewrite decide_True|]. intros [Hy Hn]%NoDup_cons. case_decide as Hx; [|by apply IH].
  subst. destruct Hy. rewrite fmap_app. apply elem_of_app. right. left.
Qed.
Lemma iterate_below n prev m1 m2 e : dn <> [] -> node_at dn (myModifiedObjectsList c) = Some e -> below e = m1 ++ m2 -> NoDup (below e).*1 -> "" ∉ (below e).*1 ->
  (if bool_decide (prev = "") then m1 = [] else entries_after prev (below e) = Some m2) -> (length m2 < n)%nat -> iterate n prev = Some (seen_names m2).
Proof.
  intros Hdn He Hb Hnd Hemp. revert prev m1 m2 Hb. induction n as [|n IH]; intros prev m1 m2 Hb Hprev Hn; [lia|]. cbn [iterate].
  assert (GetNextChildObject dn cls prev c = Some (default "" (head (seen_names m2)))) as ->.
  { unfold GetNextChildObject. rewrite bool_decide_eq_false_2, He by done. case_bool_decide; [rewrite Hb, Hprev|rewrite Hprev]; apply first_child_seen. }
  cbn [mbind option_bind]. unfold seen_names. destruct (filter seen m2) as [|[x e'] l] eqn:Ef; [done|]. cbn [fmap list_fmap head default fst].
  destruct (seen_split _ _ _ Ef) as (k1 & k2 & -> & <-). rewrite app_assoc in Hb. rewrite length_app in Hn. cbn in Hn.
  assert (x <> "") as Hx by (intros ->; apply Hemp; rewrite Hb, fmap_app; apply elem_of_app; right; left). rewrite bool_decide_eq_false_2 by done.
  change (id x) with x. rewrite (IH x ((m1 ++ k1) ++ [(x, e')]) k2); [done|by rewrite <- app_assoc| |lia].
  rewrite bool_decide_eq_false_2 by done. rewrite Hb in Hnd |- *. by apply entries_after_app.
Qed.

(** C32. An iterator over the children of an object ends, and has given exactly its children of the class that are in the cache and
    are not deleted, in the order of their names; children that were only made on the way to another object are left out. *)
Theorem children_are_enumerated e : wf_cache c -> dn <> [] -> node_at dn (myModifiedObjectsList c) = Some e -> "" ∉ (below e).*1 ->
  iterate (S (length (below e))) "" = Some (seen_names (below e)) /\ StronglySorted (fun x y => key_ltb x y = true) (seen_names (below e)).
Proof.
  intros [Hw _] Hdn He Hemp. pose proof (node_wf _ _ _ Hw He) as Hwe. destruct e as [d m]. apply wf_parts in Hwe as (Ho & _). cbn [below] in *. split.
  - apply (iterate_below _ "" [] m (Node d m)); [done|done|done|by apply ordered_nodup|done|done|cbn; lia].
  - clear -Ho. unfold seen_names. induction m as [|[x e] m IH]; [constructor|]. destruct Ho as [Hx Ho]. rewrite filter_cons. case_decide; [|by apply IH]. constructor; [by apply IH|].
    apply Forall_fmap, Forall_forall. intros q [_ Hq]%list_elem_of_filter. rewrite Forall_forall in Hx. by apply Hx.
Qed.
End children.

(** ** The cache in a transaction *)
Lemma mapM_app {A B} (f : A -> option B) l1 l2 : mapM f (l1 ++ l2) = (k1 ← mapM f l1; k2 ← mapM f l2; Some (k1 ++ k2)).
Proof.
  induction l1 as [|x l1 IH]; [by cbn; destruct (mapM f l2)|]. change (mapM f ((x :: l1) ++ l2)) with (y ← f x; k ← mapM f (l1 ++ l2); Some (y :: k)).
  change (mapM f (x :: l1)) with (y ← f x; k ← mapM f l1; Some (y :: k)). rewrite IH. destruct (f x); [|done]. cbn. destruct (mapM f l1); [|done]. cbn. by destruct (mapM f l2).
Qed.
Lemma mapM_rev {A B} (f : A -> option B) l k : mapM f l = Some k -> mapM f (rev l) = Some (rev k).
Proof.
  revert k. induction l as [|x l IH]; intros k; [by intros [= <-]|]. change (mapM f (x :: l)) with (y ← f x; k ← mapM f l; Some (y :: k)).
  destruct (f x) as [y|] eqn:Ey; [|done]. cbn. destruct (mapM f l) as [k'|] eqn:Ek; [|done]. intros [= <-]. cbn. rewrite mapM_app, (IH k') by done. cbn. by rewrite Ey.
Qed.
Lemma sorted_rev {A} (R : A -> A -> Prop) l : StronglySorted R l -> StronglySorted (flip R) (rev l).
Proof.
  induction 1 as [|x l Hl IH Hx]; [constructor|]. cbn. apply StronglySorted_app; split; [|split; [done|by repeat constructor]].
  intros y z Hy ->%list_elem_of_singleton. rewrite Forall_forall in Hx. apply Hx. rewrite rev_alt in Hy. by apply elem_of_reverse.
Qed.

Section transaction.
Context (GetImmAttributeData : string -> string -> option SaImmValueTypeT) (GetClassNameFromImm : string -> option string).
Context (IsImmRoot : string -> string -> string -> bool) (MO2Imm_DN : string -> string) (ext : bool).
#[local] Instance lists_of_cache : CacheLists CacheData := cache_lists IsImmRoot MO2Imm_DN ext.

(** C30. COM has made any calls that change the cache of a transaction, and the values in it can be written.  When the transaction is prepared with
    [MafOk], then what IMM was told is this: a CCB is opened; the new objects of the cache are created, each of them once, and none
    before an object above it; the objects that are deleted, and the ones that are modified, follow. *)
Theorem parents_are_created_first env lm lock_mo txh p t s tr l s' tr' : leads txh p s t -> mImmCcbCreatedStatus t = ImmCcbNotCreated ->
  rtc (cache_step GetImmAttributeData GetClassNameFromImm) CacheData_new (lists (mCache t)) ->
  GetCreatedData IsImmRoot MO2Imm_DN ext (myModifiedObjectsList (lists (mCache t))) = Some l ->
  OamSAPrepare env lm lock_mo txh (s, tr) = (Ret MafOk, (s', tr')) ->
  exists new h created objects, tr' = tr ++ new /\
    omap ccb_mark new = CcbOpened h :: creates h objects ++ deletes h (GetDeletedData (myDeletedObjectsList (lists (mCache t)))) ++ modifies h (modified (lists (mCache t))) /\
    mapM (fun p => created_object IsImmRoot MO2Imm_DN ext (foldl join_name "" p.1) p.2) created = Some objects /\
    StronglySorted (fun p q => ~ q.1 `prefix_of` p.1) created /\
    forall dn d, (dn, d) ∈ created <-> (data <$> node_at dn (myModifiedObjectsList (lists (mCache t))) = Some d /\ myEntryKind d = eModifiedEntryNewObject).
Proof.
  intros Hs Hst [Hw _]%reachable_wf Hl Hr. destruct (acts_run _ _ _ _ _ _ _ _ _ _ (acts_prepared env lm lock_mo txh p t) Hs Hr) as (new & t' & -> & -> & Hd & HQ).
  rewrite Hst in HQ. rewrite bool_decide_false in HQ by done. cbn [bool_decide decide] in HQ. destruct HQ as (HQ & _).
  destruct (entries_of_kind eModifiedEntryNewObject _ Hw) as [Hsort Hin]. exists new, (mCcbHandle t'), (rev (entries IsNewObject (myModifiedObjectsList (lists (mCache t))))), (rev l).
  split; [done|]. split; [|split; [|split]].
  - rewrite HQ. unfold content. cbn [ListOfCreatedObjects ListOfDeletedObjects lists_of_cache cache_lists]. by rewrite Hl.
  - apply mapM_rev. rewrite <- Hl. unfold GetCreatedData. by rewrite Traverse_entries, mapM_fmap.
  - by apply sorted_rev in Hsort.
  - intros dn d. rewrite rev_alt, <- Hin. apply elem_of_reverse.
Qed.
End transaction.

(** ** Concrete inputs *)
Definition demo_type (cls a : string) : option SaImmValueTypeT :=
  if (a =? "size")%string then Some SA_IMM_ATTR_SAINT32T else if (a =? "owner")%string then Some SA_IMM_ATTR_SANAMET else Some SA_IMM_ATTR_SASTRINGT.
Definition demo_class (imm : string) : option string := Some "Top"%string.
Definition demo_after {A} (f : CacheData -> option (A * CacheData)) (c : CacheData) : CacheData := default c (snd <$> f c).
Definition demo_top : CacheData := demo_after (InsertCreatedObject demo_type ["top=1"] "Top" "" "top=1" "top" "1")%string CacheData_new.
Definition demo_sub : CacheData := demo_after (InsertCreatedObject demo_type ["top=1"; "sub=2"] "Sub" "top=1" "sub=2" "sub" "2")%string demo_top.
Definition demo_cache : CacheData := demo_after (UpdateObjectAttribute demo_type demo_class ["top=1"; "way=1"; "old=7"] "old=7" "size"
  (MkMaf MafOamSpiMoAttributeType_3_INT16 [Number 5]))%string demo_sub.
Lemma demo_reachable : rtc (cache_step demo_type demo_class) CacheData_new demo_cache.
Proof.
  apply rtc_l with demo_top; [apply (step_create _ _ _ _ ["top=1"] "Top" "" "top=1" "top" "1" eObjectSuccess)%string; reflexivity|].
  apply rtc_l with demo_sub; [apply (step_create _ _ _ _ ["top=1"; "sub=2"] "Sub" "top=1" "sub=2" "sub" "2" eObjectSuccess)%string; reflexivity|].
  apply rtc_once, (step_update _ _ _ _ ["top=1"; "way=1"; "old=7"] "old=7" "size" (MkMaf MafOamSpiMoAttributeType_3_INT16 [Number 5]) eObjectSuccess)%string. reflexivity.
Qed.
(** The object below comes first; the altered one is not among the new ones. *)
Example demo_created : option_map (map immName) (GetCreatedData (fun _ _ _ => true) id false (myModifiedObjectsList demo_cache)) = Some ["sub=2"; "top=1"]%string.
Proof. reflexivity. Qed.
Example demo_modified : GetModifiedData id false (myModifiedObjectsList demo_cache) = Some [MkModified "old=7" [MkAttr "size" SA_IMM_ATTR_SAINT32T [ImmInt32 5]]]%string.
Proof. reflexivity. Qed.
(** The limits of [SetImmValue] do not fit the classes: 128 wraps around, and -128 is raised. *)
Example int8_limits : SetImmValue (ImmInt32 200) (MkData SA_IMM_ATTR_SAINT32T (OamSAInt8Data 0)) = Some (OamSAInt8Data (-128)) /\
  SetImmValue (ImmInt32 (-128)) (MkData SA_IMM_ATTR_SAINT32T (OamSAInt8Data 0)) = Some (OamSAInt8Data (-127)).
Proof. split; reflexivity. Qed.
(** A text whose attribute is a name in IMM is not written. *)
Example text_as_name : CreateAttributeValueArray id false (Add (SetSaImmValueType SA_IMM_ATTR_SANAMET (MkData SA_IMM_ATTR_SASTRINGT (OamSAStringData (Some "a")))) OamSADataContainer_new) = None.
Proof. reflexivity. Qed.

(** Without long names, one of 300 characters is cut off. *)
Example long_name : GetImmValue id false (MkData SA_IMM_ATTR_SANAMET (OamSAReferenceData (Some (String.concat "" (replicate 300 "a"%string))))) =
  Name (String.concat "" (replicate 256 "a"%string)).
Proof. by vm_compute. Qed.

Lemma attribute_reads_back_witness : exists (c' : CacheData) rs,
  UpdateObjectAttribute demo_type demo_class ["top=1"; "sub=2"]%string "sub=2" "size" (MkMaf MafOamSpiMoAttributeType_3_INT16 [Number 65535; Number 7]) demo_cache = Some (eObjectSuccess, c') /\
  GetAttribute ["top=1"; "sub=2"]%string "size" c' = Some (eObjectSuccess, Some (Some MafOamSpiMoAttributeType_3_INT16, rs)) /\
  (member MafOamSpiMoAttributeType_3_INT16 <$> rs) = [Some (Integer (-1)); Some (Integer 7)].
Proof.
  destruct (attribute_reads_back demo_type demo_class id id false MafOamSpiMoAttributeType_3_INT16 [Number 65535; Number 7] (default [] (values_of MafOamSpiMoAttributeType_3_INT16 [Number 65535; Number 7]))
    SA_IMM_ATTR_SAINT32T ["top=1"; "sub=2"]%string "sub=2" "size" demo_cache) as (c' & Hu & (rs & Hg & Hm) & _).
  - exact (reachable_wf _ _ _ demo_reachable).
  - reflexivity.
  - reflexivity.
  - discriminate.
  - reflexivity.
  - by repeat constructor.
  - exists c', rs. split; [exact Hu|]. split; [exact Hg|]. exact Hm.
Defined.
Lemma RemoveObject_removes_witness : exists e', RemoveObject ["top=1"; "sub=2"]%string (myModifiedObjectsList demo_cache) = Some (true, e') /\
  forall dn', strip ∘ data <$> node_at dn' e' = if decide (["top=1"; "sub=2"]%string `prefix_of` dn') then None else strip ∘ data <$> node_at dn' (myModifiedObjectsList demo_cache).
Proof.
  eexists. split; [reflexivity|].
  exact (proj2 (proj2 (RemoveObject_removes ["top=1"; "sub=2"]%string (myModifiedObjectsList demo_cache) (proj1 (reachable_wf _ _ _ demo_reachable)) ltac:(discriminate)))).
Defined.
Lemma cache_gives_its_objects_witness : exists created modified, of_kind eModifiedEntryNewObject (myModifiedObjectsList demo_cache) created /\
  of_kind eModifiedEntryAlteredObject (myModifiedObjectsList demo_cache) modified /\
  GetCreatedData (fun _ _ _ => true) id false (myModifiedObjectsList demo_cache) = mapM (fun p => created_object (fun _ _ _ => true) id false (foldl join_name "" p.1) p.2) created /\
  GetModifiedData id false (myModifiedObjectsList demo_cache) = mapM (fun p => modified_object id false p.2) modified.
Proof. exact (cache_gives_its_objects demo_type demo_class (fun _ _ _ => true) id false demo_cache demo_reachable). Defined.
Lemma children_are_enumerated_witness : iterate ["top=1"]%string "Sub" demo_cache 3 "" = Some ["sub=2"]%string.
Proof.
  destruct (node_at ["top=1"]%string (myModifiedObjectsList demo_cache)) as [e|] eqn:He; [|discriminate].
  assert (length (below e) = 2%nat /\ seen_names ["top=1"]%string "Sub" demo_cache (below e) = ["sub=2"]%string /\ "" ∉ (below e).*1) as (Hl & Hs & Hn).
  { injection He as <-. split; [reflexivity|]. split; [reflexivity|]. vm_compute. intros Hx. repeat (apply elem_of_cons in Hx as [Hx|Hx]; [discriminate|]). by apply elem_of_nil in Hx. }
  rewrite <- Hs. replace 3%nat with (S (length (below e))) by by rewrite Hl.
  exact (proj1 (children_are_enumerated ["top=1"]%string "Sub"%string demo_cache e (reachable_wf _ _ _ demo_reachable) ltac:(discriminate) He Hn)).
Defined.
(** The same cache in transaction 7. *)
Definition demo_root (cls undecorated parent : string) : bool := (cls =? "Top")%string.
#[local] Instance demo_lists : CacheLists CacheData := lists_of_cache demo_root id false.
Definition demo_filled := Eval vm_compute in snd ((OamSAJoin (demo_imm always_ok always_ok) false true 7 ;; work 7 demo_cache) (Repo_init, [])).
Definition demo_tx : TxContext CacheData := Eval vm_compute in default (TxContext_new false (MkCache no_objects 0 0 [])) (contexts demo_filled.1 !! 0%nat).
Definition demo_sent := OamSAPrepare (demo_imm always_ok always_ok) false false 7 demo_filled.
Definition demo_marks : list ccb_event := omap ccb_mark (drop (length demo_filled.2) demo_sent.2.2).
Example demo_marks_are : demo_marks = 
  [CcbOpened 20; CcbCreated 20 "Top" "" [MkAttr "top" SA_IMM_ATTR_SASTRINGT [ImmString (Some "top=1")]];
   CcbCreated 20 "Sub" "top=1" [MkAttr "sub" SA_IMM_ATTR_SASTRINGT [ImmString (Some "sub=2")]]; CcbModified 20 "old=7" [MkAttr "size" SA_IMM_ATTR_SAINT32T [ImmInt32 5]]]%string.
Proof. vm_compute. reflexivity. Qed.
Lemma parents_are_created_first_witness : exists new h created objects, demo_sent.2.2 = demo_filled.2 ++ new /\
  omap ccb_mark new = CcbOpened h :: creates h objects ++ deletes h (GetDeletedData (myDeletedObjectsList demo_cache)) ++ modifies h (modified demo_cache) /\
  mapM (fun p => created_object demo_root id false (foldl join_name "" p.1) p.2) created = Some objects /\ StronglySorted (fun p q => ~ q.1 `prefix_of` p.1) created.
Proof.
  destruct (parents_are_created_first demo_type demo_class demo_root id false (demo_imm always_ok always_ok) false false 7 0%nat demo_tx demo_filled.1 demo_filled.2
    (default [] (GetCreatedData demo_root id false (myModifiedObjectsList demo_cache))) demo_sent.2.1 demo_sent.2.2) as (new & h & created & objects & Hn & Hm & Ho & Hs & _).
  - split; reflexivity.
  - reflexivity.
  - exact demo_reachable.
  - reflexivity.
  - vm_compute. reflexivity.
  - exists new, h, created, objects. split; [exact Hn|]. split; [exact Hm|]. split; [exact Ho|exact Hs].
Defined.
