(* ===== verification/TxAccess.v ===== *)
(** * Transactions: managed objects ([OamSAImmBridge.cc])

    What COM asks of a transaction: to create, delete and look for objects, to set attributes and to
    read them.  An answer comes from the cache where that knows it, and from IMM otherwise.  With
    [lock_mo_for_config_change] an object is owned when it is changed, not when
    the transaction is prepared.  The functions that the MAF calls look the context of the transaction up; those that they call
    here are on the context.  What [OamSATranslator] says about names and classes are arguments.  [Undefined] is undefined behaviour in
    the cache. *)
From Stdlib Require Import ZArith Lia Ascii.
From stdpp Require Import base gmap list strings sorting pretty.
From S2P Require Import Prelude Codes StdMap CmTypes NtfData NtfInfo NtfCmValues TxDeleted TxData TxCommands TxBridge TxSpi TxValues TxModified.

Open Scope Z_scope.

Definition STRUCT_CLASS_KEY_ATTRIBUTE : string := "id".
Definition STRUCT_CLASS_INDEX_SEPARATOR : string := "_".

(** An attribute of a class of the model: its name, its type, and the class of a struct. *)
Record MafOamSpiMoAttributeT := MkComAttribute { attr_name : string; attr_type : Z; structDatatype : option string }.

(** ** Names *)

(** Characters that can be seen, in the C locale. *)
Definition isgraph (c : ascii) : bool := let n := nat_of_ascii c in (33 <=? n)%nat && (n <=? 126)%nat.
Fixpoint all_graph (s : string) : bool := match s with "" => true | String c s => isgraph c && all_graph s end.
Definition starts_with (c : ascii) (s : string) : bool := match s with "" => false | String d _ => Ascii.eqb c d end.

(** [OamSATranslator::BuildObjectName] *)
Definition BuildObjectName (ParentName ClassNameMOM KeyAttributeName KeyAttributeValue : string) : string :=
  (if bool_decide (ParentName = "") then "" else ParentName +:+ ",") +:+
  (if bool_decide (lowercase ClassNameMOM +:+ STRUCT_CLASS_KEY_ATTRIBUTE = lowercase KeyAttributeName) then ClassNameMOM else ClassNameMOM +:+ "." +:+ KeyAttributeName) +:+
  (if starts_with "=" KeyAttributeValue then "" else "=") +:+ KeyAttributeValue.
Definition removeEqualAndDot (DnFragment : string) : string :=
  let s := default DnFragment (before "=" DnFragment) in default s (before "." s).
(** [Convert3GPPNameFragmentToImmNameFragment]: a name with a class in front of a dot loses it; a key
    gets an [Id] before the equal sign, but when it is only that. *)
Definition tolower_first (s : string) : string := match s with "" => "" | String c s => String (lower_char c) s end.
Definition Convert3GPPNameFragmentToImmNameFragment (the3GPPString : string) : string :=
  let pos := String.index 0 "=" the3GPPString in
  let dotpos := match String.index 0 "." the3GPPString, pos with Some d, Some p => if (p <? d)%nat then None else Some d | d, _ => d end in
  match dotpos, pos with
  | Some d, _ => String.substring (S d) (String.length the3GPPString) the3GPPString
  | None, None => the3GPPString
  | None, Some p =>
      let key := String.substring 0 p the3GPPString in
      let value := String.substring p (String.length the3GPPString) the3GPPString in
      if (p =? 2)%nat && (bool_decide (key = STRUCT_CLASS_KEY_ATTRIBUTE) || bool_decide (key = "Id")) then tolower_first the3GPPString
      else tolower_first key +:+ "Id" +:+ value
  end.
(** The value of a key, with the name of the key in front or not. *)
Definition value_only (s : string) : string := default s (behind "=" s).
(** What stands behind the last equal sign. *)
Fixpoint last_part (n : nat) (s : string) : string :=
  match n with O => s | S n => match behind "=" s with Some s' => last_part n s' | None => s end end.
Definition behind_last_equal (s : string) : string := last_part (String.length s) s.

(** [CustomizedNumericStringSort]: shorter names first. *)
Definition numeric_before (lhs rhs : string) : Prop :=
  if (String.length lhs =? String.length rhs)%nat then String.ltb rhs lhs = false else (String.length lhs < String.length rhs)%nat.
#[export] Instance numeric_before_dec lhs rhs : Decision (numeric_before lhs rhs).
Proof. unfold numeric_before. destruct (_ =? _)%nat; apply _. Defined.

Section access.
Context (env : environment txE) (isCCNameLM lock_mo_for_config_change : bool).
(** The translator; [read_locks]: the lock policy of the transaction is [MafLockReadWrite]. *)
Context (IsDnListValid : list string -> string -> bool) (MO2Imm_DN Imm2MO_DN : string -> string).
Context (getImmKeyAttribute : string -> string -> string -> string) (TransformImmClassName : list string -> string -> string).
Context (GetComAttributeList : list string -> list MafOamSpiMoAttributeT) (findAttributeTypeName : list string -> string -> string).
Context (GetImmAttributeData : string -> string -> option SaImmValueTypeT) (GetClassNameFromImm : string -> option string).
Context (read_locks : bool).
Abbreviation X := (M txE (TxContext CacheData)).
Abbreviation run_get := (execute_get env isCCNameLM).
Abbreviation lock := (lockDn env isCCNameLM).
Abbreviation unlock := (unLockDnOnFailure env isCCNameLM).

(** A look at the lists of the cache, and a change of them. *)
Definition look {A} (f : CacheData -> option A) : X A := t ← get; of_option Undefined (f (lists (mCache t))).
Definition change {A} (f : CacheData -> option (A * CacheData)) : X A :=
  t ← get; r ← of_option Undefined (f (lists (mCache t))); modify (fun t => set_cache (set_lists (snd r) (mCache t)) t) ;; mret (fst r).

Definition ERR_STR_BUF_SIZE : nat := 255.
Definition invalidModelDetected (className : string) : X () :=
  let errorText := String.substring 0 (pred ERR_STR_BUF_SIZE) ("Invalid model detected for class " +:+ className +:+ " ") in
  call env getInterface ;;
  call env (addMessage ThreadContextMsgNbi_2 errorText) ;;
  call env (addMessage ThreadContextMsgLog_2 errorText) ;;
  mret ().

(** ** Objects *)
Definition deleteImmMo (numInstances : Z) (dn : string) : X MafReturnT :=
  let theDNList := GlobalSplitDN dn in
  if negb (IsDnListValid theDNList "") then invalidModelDetected "" ;; mret MafFailure
  else
    let theImmDn := MO2Imm_DN dn in
    t ← get;
    let isAdminOwnerForSubtree := lock_mo_for_config_change && isAdminOwnerFor theImmDn SA_IMM_SUBTREE t in
    let isAdminOwnerForDn := isAdminOwnerFor theImmDn SA_IMM_ONE t in
    retVal ← (if lock_mo_for_config_change && negb isAdminOwnerForSubtree then lock numInstances theImmDn SA_IMM_SUBTREE else mret MafOk);
    if bool_decide (retVal <> MafOk) then mret retVal
    else
      was_new ← change (RemoveCreatedObject theDNList);
      retVal ← (if (was_new : bool) then mret MafOk
                else state ← change (InsertDeletedObject theDNList theImmDn); mret (match state with eObjectSuccess => MafOk | _ => MafFailure end) : X MafReturnT);
      when (bool_decide (retVal <> MafOk) && lock_mo_for_config_change && negb isAdminOwnerForSubtree)
        (unlock theImmDn SA_IMM_SUBTREE ;; when isAdminOwnerForDn (lock numInstances theImmDn SA_IMM_ONE ;; mret ())) ;;
      mret retVal.

(** [OamSATranslator::checkObjectExistInImm]; [reInitializeBadHandler] has the handles by value: the
    new ones are lost. *)
Definition reInitializeBadHandler (immOmHandle immOmAccessorHandle : Z) : X SaAisErrorT :=
  call env (saImmOmAccessorFinalize immOmAccessorHandle) ;;
  call env (saImmOmFinalize immOmHandle) ;;
  r ← call env saImmOmInitialize;
  if bool_decide (fst r = SA_AIS_OK) then a ← call env (saImmOmAccessorInitialize (snd r)); mret (fst a) else mret (fst r).
Definition checkObjectExistInImm (objectName : string) : X MafReturnT :=
  t ← get;
  let immHandle := myImmHandle (mCache t) in
  let accessorHandle := myAccessorHandle (mCache t) in
  if (immHandle =? 0) || (accessorHandle =? 0) then mret MafFailure
  else
    let ask := call env (saImmOmAccessorGet_2 accessorHandle (Some objectName) (Some "SaImmAttrClassName")) in
    r ← ask;
    if bool_decide (fst r = SA_AIS_OK) then mret MafOk
    else if bool_decide (fst r = SA_AIS_ERR_NOT_EXIST) then mret MafNotExist
    else if bool_decide (fst r = SA_AIS_ERR_BAD_HANDLE) then
      err ← reInitializeBadHandler immHandle accessorHandle;
      if bool_decide (err = SA_AIS_OK) then r ← ask; mret (if bool_decide (fst r = SA_AIS_OK) then MafOk else MafFailure) else mret MafFailure
    else mret MafFailure.
Definition existsImmMo (dn : string) : X (MafReturnT * bool) :=
  let theDNList := GlobalSplitDN dn in
  if negb (IsDnListValid theDNList "") then invalidModelDetected "" ;; mret (MafFailure, false)
  else
    gone ← look (fun c => IsDeleted theDNList (myDeletedObjectsList c));
    if (gone : bool) then mret (MafOk, false)
    else
      here ← look (IsInCache theDNList);
      if (here : bool) then mret (MafOk, true)
      else
        ret ← checkObjectExistInImm (MO2Imm_DN dn);
        mret (if bool_decide (ret = MafOk) then (MafOk, true) else if bool_decide (ret = MafNotExist) then (MafOk, false) else (MafFailure, false)).

Definition translateClassName (parentName className : string) : string :=
  if bool_decide (parentName = "") then className else TransformImmClassName (GlobalSplitDN (parentName +:+ "," +:+ className +:+ "=1")) className.
(** [createImmMo] up to the initial attributes: the answer, and whether the parent was owned before. *)
Definition create_object (numInstances : Z) (parentDn className keyAttributeName keyAttributeValue : string) : X (MafReturnT * bool) :=
  if negb (all_graph keyAttributeValue) then mret (MafInvalidArgument, true)
  else
    let theParentDNList := GlobalSplitDN parentDn in
    if negb (IsDnListValid theParentDNList className) then invalidModelDetected className ;; mret (MafFailure, true)
    else
      let theImmParentName := MO2Imm_DN parentDn in
      t ← get;
      let isAdminOwner := lock_mo_for_config_change && isAdminOwnerFor theImmParentName SA_IMM_ONE t in
      retVal ← (if lock_mo_for_config_change && negb isAdminOwner then lock numInstances theImmParentName SA_IMM_ONE else mret MafOk);
      if bool_decide (retVal <> MafOk) then mret (retVal, isAdminOwner)
      else
        let parentClassName := default "" (removeEqualAndDot <$> last theParentDNList) in
        let keyAttributeString := getImmKeyAttribute parentClassName className keyAttributeName in
        let theClassName := translateClassName parentDn className in
        let theDNList := GlobalSplitDN (BuildObjectName parentDn className keyAttributeName keyAttributeValue) in
        gone ← look (fun c => IsDeleted theDNList (myDeletedObjectsList c));
        retVal ← (if (gone : bool) then mret MafOk
                  else state ← change (InsertCreatedObject GetImmAttributeData theDNList theClassName parentDn "" keyAttributeString keyAttributeValue);
                    mret (match state with eObjectSuccess => MafOk | _ => MafFailure end) : X MafReturnT);
        change (fun c => d ← RemoveDeletedObject theDNList c; Some ((), d)) ;;
        when (bool_decide (retVal <> MafOk) && lock_mo_for_config_change && negb isAdminOwner) (unlock theImmParentName SA_IMM_ONE ;; mret ()) ;;
        mret (retVal, isAdminOwner).

(** ** Reading *)

(** The only value of a key loses the name of the key. *)
Definition key_value (isKeyAttribute : bool) (vs : list MafValue) : X (list MafValue) :=
  match vs with
  | [v] => if isKeyAttribute then match v with TextAt (Some (_, s)) => mret [Text (value_only s)] | _ => exit BadPointer end else mret vs
  | _ => mret vs
  end.
Definition MafContainerOf := (option Z * list MafValue)%type.
Definition getImmMoAttributeSimple (numInstances : Z) (dn attributeName : string) (attrType : Z) (isKeyAttribute : bool) : X (MafReturnT * option MafContainerOf) :=
  let theDNList := GlobalSplitDN dn in
  if negb (IsDnListValid theDNList attributeName) then invalidModelDetected attributeName ;; mret (MafFailure, None)
  else
    let immDn := MO2Imm_DN dn in
    gone ← look (fun c => IsDeleted theDNList (myDeletedObjectsList c));
    if (gone : bool) then mret (MafNotExist, None)
    else
      r ← look (GetAttribute theDNList attributeName);
      match r with
      | (eObjectSuccess, Some (type, vs)) => vs ← key_value isKeyAttribute vs; mret (MafOk, Some (type, vs))
      | _ =>
          immErr ← (if read_locks then checkSetAdminOwner env isCCNameLM numInstances immDn SA_IMM_ONE else mret SA_AIS_OK);
          t ← get;
          if bool_decide (immErr <> SA_AIS_OK) then
            mret (if isAdminOwnerLockedByAnotherTx numInstances immErr t || bool_decide (immErr = SA_AIS_ERR_EXIST) then MafObjectLocked else MafFailure, None)
          else
            g ← run_get (ImmCmdOmAccessorGet env immDn attributeName);
            when read_locks (releaseAdminOwner env isCCNameLM immDn SA_IMM_ONE ;; mret ()) ;;
            if bool_decide (fst g = SA_AIS_OK) then
              match snd g with
              | [] => mret (MafFailure, None)
              | a :: _ =>
                  r ← of_option Undefined (Imm2MO_AttrValue Imm2MO_DN a attrType);
                  if (fst r : bool) then vs ← key_value isKeyAttribute (snd (snd r)); mret (MafOk, Some (Some attrType, vs)) else mret (MafFailure, None)
              end
            else if bool_decide (fst g = SA_AIS_ERR_NOT_EXIST) then
              here ← look (IsInCache theDNList);
              if (here : bool) then
                let className := TransformImmClassName theDNList (default "" (removeEqualAndDot <$> last theDNList)) in
                mret (if bool_decide (GetImmAttributeData className attributeName = None) then (MafNotExist, None) else (MafOk, Some (Some attrType, [])))
              else mret (MafNotExist, None)
            else mret (MafFailure, None)
      end.

(** ** Structs *)

(** The members of a value: their names, and how to set them in the object of the struct. *)
Abbreviation Setters := (list (string * (Z -> string -> X MafReturnT))).
Definition references (vs : list MafValue) : X (list string) :=
  of_option BadPointer (mapM (fun v => s ← text_of v; s) vs).
Fixpoint delete_all (numInstances : Z) (l : list string) : X MafReturnT :=
  match l with
  | [] => mret MafOk
  | dn :: l => retVal ← deleteImmMo numInstances dn; if bool_decide (retVal <> MafOk) then mret retVal else delete_all numInstances l
  end.
Fixpoint set_members (numInstances : Z) (ecimStructDn : string) (l : Setters) : X MafReturnT :=
  match l with
  | [] => mret MafOk
  | (_, set) :: l => setRes ← set numInstances ecimStructDn; if bool_decide (setRes <> MafOk) then mret setRes else set_members numInstances ecimStructDn l
  end.
Definition capital (s : string) : string :=
  match s with "" => "" | String c s => String (let n := nat_of_ascii c in if (97 <=? n)%nat && (n <=? 122)%nat then ascii_of_nat (n - 32) else c) s end.
Definition instance_id (attributeName : string) (ix : nat) : string := attributeName +:+ STRUCT_CLASS_INDEX_SEPARATOR +:+ pretty (N.of_nat ix).
Definition unique_id (attributeTypeName instanceId : string) : string := attributeTypeName +:+ "." +:+ STRUCT_CLASS_KEY_ATTRIBUTE +:+ "=" +:+ instanceId.
Definition key_of_struct (uniqueId : string) : string :=
  let k := Convert3GPPNameFragmentToImmNameFragment uniqueId in default k (before "=" k).
(** The loop over the values: the objects that are not there are created, and their members set.  A [res]
    that is not [MafOk] ends it. *)
Fixpoint write_values (numInstances : Z) (dn attributeName attributeTypeName : string) (there : list string) (ix : nat) (elems : list Setters) : X MafReturnT :=
  match elems with
  | [] => mret MafOk
  | members :: elems =>
      let instanceId := instance_id attributeName ix in
      let uniqueId := unique_id attributeTypeName instanceId in
      res ← (if bool_decide (instanceId ∈ there) then mret MafOk
             else r ← create_object numInstances dn (capital attributeTypeName) (key_of_struct uniqueId) instanceId;
               mret (if bool_decide (fst r = MafOk) || bool_decide (fst r = MafAlreadyExist) then MafOk else MafFailure) : X MafReturnT);
      if bool_decide (res <> MafOk) then mret res
      else
        setRes ← set_members numInstances (dn +:+ "," +:+ uniqueId) members;
        if bool_decide (setRes <> MafOk) then mret setRes else write_values numInstances dn attributeName attributeTypeName there (S ix) elems
  end.
Definition update (theDNList : list string) (immDn attributeName : string) (v : MafContainer) : X MafReturnT :=
  objstate ← change (UpdateObjectAttribute GetImmAttributeData GetClassNameFromImm theDNList immDn attributeName v);
  mret (match objstate with eObjectSuccess => MafOk | _ => MafFailure end).
Definition writeStructToImm (numInstances : Z) (dn attributeName : string) (elems : list Setters) : X MafReturnT :=
  let ecimDnList := GlobalSplitDN dn in
  let immDn := MO2Imm_DN dn in
  let attributeTypeName := findAttributeTypeName ecimDnList attributeName in
  r ← getImmMoAttributeSimple numInstances dn attributeName MafOamSpiMoAttributeType_3_STRING false;
  if negb (bool_decide (fst r = MafOk)) && negb (bool_decide (fst r = MafNotExist)) then mret (fst r)
  else
    structRef ← references (if bool_decide (fst r = MafOk) then default [] (snd <$> snd r) else []);
    if (length elems =? 0)%nat then
      retVal ← delete_all numInstances structRef;
      if bool_decide (retVal <> MafOk) then mret retVal else update ecimDnList immDn attributeName (MkMaf MafOamSpiMoAttributeType_3_STRUCT [])
    else
      let myStructNameVector := merge_sort numeric_before structRef in
      let surplus :=
        if (length elems <? length structRef)%nat then drop (length elems) myStructNameVector
        else match structRef with [s] => if bool_decide (String.index 0 "EcimPassword" s <> None) then [s] else [] | _ => [] end in
      retVal ← delete_all numInstances surplus;
      if bool_decide (retVal <> MafOk) then mret retVal
      else
        let myStructNameSet := filter (fun s => s ∉ behind_last_equal <$> surplus) (behind_last_equal <$> structRef) in
        retVal ← write_values numInstances dn attributeName attributeTypeName myStructNameSet 0 elems;
        if bool_decide (retVal <> MafOk) then mret retVal
        else
          update ecimDnList immDn attributeName (MkMaf MafOamSpiMoAttributeType_3_REFERENCE (imap (fun (ix : nat) _ => Text (dn +:+ "," +:+ unique_id attributeTypeName (instance_id attributeName ix))) elems)).

(** ** Setting, and creating with initial attributes *)
Definition bad_member : Setters := [("", fun _ _ => exit BadPointer)].
Fixpoint setImmMoAttribute (AttributeValue : AvcBody ()) (attributeName : string) (numInstances : Z) (dn : string) : X MafReturnT :=
  match AttributeValue with
  | MkAvc type _ values =>
      let elems := map (fun v => match v with
        | Members l => map (fun m => match m with MkMember _ (_, memberName) memberValue =>
            (memberName, fun n structDn => match memberValue with Some (_, b) => setImmMoAttribute b memberName n structDn | None => exit BadPointer end) end) l
        | TextAt None => []
        | _ => bad_member
        end) values in
      let theDNList := GlobalSplitDN dn in
      if negb (IsDnListValid theDNList attributeName) then invalidModelDetected attributeName ;; mret MafFailure
      else
        let immDn := MO2Imm_DN dn in
        t ← get;
        let isAdminOwner := lock_mo_for_config_change && isAdminOwnerFor immDn SA_IMM_ONE t in
        retVal ← (if lock_mo_for_config_change && negb isAdminOwner then lock numInstances immDn SA_IMM_ONE else mret MafOk);
        if bool_decide (retVal <> MafOk) then mret retVal
        else
          gone ← look (fun c => IsDeleted theDNList (myDeletedObjectsList c));
          retVal ← (if (gone : bool) then mret MafFailure
                    else if type =? MafOamSpiMoAttributeType_3_STRUCT then writeStructToImm numInstances dn attributeName elems
                    else update theDNList immDn attributeName (MkMaf type values));
          when (bool_decide (retVal <> MafOk) && lock_mo_for_config_change && negb isAdminOwner) (unlock immDn SA_IMM_ONE ;; mret ()) ;;
          mret retVal
  end.

(** The structs among the initial attributes: their objects, and the references to them. *)
Fixpoint create_structs (numInstances : Z) (theObjectName : string) (initial : list string) (l : list MafOamSpiMoAttributeT) : X MafReturnT :=
  match l with
  | [] => mret MafOk
  | ap :: l =>
      match (if attr_type ap =? MafOamSpiMoAttributeType_3_STRUCT then structDatatype ap else None) with
      | Some theStructClassName =>
          if bool_decide (attr_name ap ∈ initial) then
            let instanceId := instance_id (attr_name ap) 0 in
            let keyAttribute := key_of_struct (unique_id theStructClassName instanceId) in
            r ← create_object numInstances theObjectName theStructClassName keyAttribute instanceId;
            if bool_decide (fst r <> MafOk) then mret (fst r)
            else
              retVal ← update (GlobalSplitDN theObjectName) "" (attr_name ap)
                (MkMaf MafOamSpiMoAttributeType_3_REFERENCE [Text (BuildObjectName theObjectName theStructClassName keyAttribute instanceId)]);
              if bool_decide (retVal <> MafOk) then mret retVal else create_structs numInstances theObjectName initial l
          else create_structs numInstances theObjectName initial l
      | None => create_structs numInstances theObjectName initial l
      end
  end.
(** The initial values of the attributes that the class has; the answer is that of the last failure. *)
Fixpoint set_initial (numInstances : Z) (theObjectName : string) (attrList : list string) (retVal : MafReturnT) (l : list (string * AvcBody ())) : X MafReturnT :=
  match l with
  | [] => mret retVal
  | (a, v) :: l =>
      if bool_decide (a ∈ attrList) then
        rc ← setImmMoAttribute v a numInstances theObjectName;
        set_initial numInstances theObjectName attrList (if bool_decide (rc = MafOk) then retVal else rc) l
      else set_initial numInstances theObjectName attrList retVal l
  end.
Definition createImmMo (numInstances : Z) (parentDn className keyAttributeName keyAttributeValue : string) (initialAttributes : list (string * AvcBody ())) : X MafReturnT :=
  r ← create_object numInstances parentDn className keyAttributeName keyAttributeValue;
  if bool_decide (fst r <> MafOk) || bool_decide (length initialAttributes = 0%nat) then mret (fst r)
  else
    let theObjectName := BuildObjectName parentDn className keyAttributeName keyAttributeValue in
    let attrs := GetComAttributeList (GlobalSplitDN theObjectName) in
    retVal ← create_structs numInstances theObjectName (fst <$> initialAttributes) attrs;
    retVal ← (if bool_decide (retVal = MafOk) then set_initial numInstances theObjectName (attr_name <$> attrs) MafOk initialAttributes else mret retVal);
    when (bool_decide (retVal <> MafOk) && lock_mo_for_config_change && negb (snd r)) (unlock (MO2Imm_DN parentDn) SA_IMM_ONE ;; mret ()) ;;
    mret retVal.

(** ** What COM reads *)
Section reading.
Context (isImmKeyAttribute : string -> string -> string -> bool) (isStructAttribute : list string -> string -> bool).
Context (GetComAttributeType : list string -> string -> Z) (getStructMembers : list string -> string -> list string).
Context (getStructMemberComDatatype : list string -> string -> string -> option Z).

(** The values of an attribute, or the members of its structs. *)
Inductive ReadValue := Values (c : MafContainerOf) | Structs (l : list (list (string * MafContainerOf))).

(** [retrieveLastElementFromDn]: the class of the object, and that of the object above it. *)
Definition class_of (theDNList : list string) : string := default "" (removeEqualAndDot <$> last theDNList).
Definition parent_class_of (theDNList : list string) : string := default "" (removeEqualAndDot <$> last (removelast theDNList)).

(** What stands in front of the last occurrence; all of it when there is none ([rfind], [substr]). *)
Fixpoint prefix_before_last (needle s : string) : option string :=
  match s with
  | "" => if String.prefix needle "" then Some "" else None
  | String c s' =>
      match prefix_before_last needle s' with
      | Some p => Some (String c p)
      | None => if String.prefix needle s then Some "" else None
      end
  end.

(** The members of one struct; one that is not there is left out. *)
Fixpoint read_members (numInstances : Z) (theDNList : list string) (attributeName structDn : string) (ret : MafReturnT) (memberNames : list string)
    : X (MafReturnT * list (string * MafContainerOf)) :=
  match memberNames with
  | [] => mret (ret, [])
  | structMemberName :: memberNames =>
      match getStructMemberComDatatype theDNList attributeName structMemberName with
      | None => mret (MafFailure, [])
      | Some memberType =>
          r ← getImmMoAttributeSimple numInstances structDn structMemberName memberType false;
          match r with
          | (MafOk, Some memberValue) =>
              rest ← read_members numInstances theDNList attributeName structDn MafOk memberNames;
              mret (fst rest, (snd rest ++ [(structMemberName, memberValue)])%list)
          | (MafNotExist, _) => read_members numInstances theDNList attributeName structDn MafNotExist memberNames
          | _ => mret (MafFailure, [])
          end
      end
  end.
(** The name of the class of the structs, with the prefix of the class of the object. *)
Definition struct_class (theDNList : list string) (attributeName : string) : string :=
  let theComClassName := class_of theDNList in
  let theImmClassName := TransformImmClassName theDNList theComClassName in
  let prefixMom := default theImmClassName (prefix_before_last theComClassName theImmClassName) in
  let structComClassName := default "" (last (omap (fun ap =>
    if bool_decide (attr_name ap = attributeName) && (attr_type ap =? MafOamSpiMoAttributeType_3_STRUCT) then structDatatype ap else None) (GetComAttributeList theDNList))) in
  prefixMom +:+ structComClassName.
(** The structs that the references lead to; [None]: one of them is nowhere, and the answer is no struct at all. *)
Fixpoint read_structs (numInstances : Z) (theDNList : list string) (attributeName : string) (ret : MafReturnT) (refs : list MafValue)
    : X (option (MafReturnT * list (list (string * MafContainerOf)))) :=
  match refs with
  | [] => mret (Some (ret, []))
  | v :: refs =>
      structDn ← (match v with TextAt (Some (_, s)) => mret s | TextAt None => exit Aborted | _ => exit BadPointer end : X string);
      let structDnList := GlobalSplitDN structDn in
      let inImm := GetClassNameFromImm (MO2Imm_DN structDn) in
      here ← (match inImm with None => look (IsInCache structDnList) | Some _ => mret true end : X bool);
      if negb here then mret None
      else if match inImm with Some structImmClassName => bool_decide (structImmClassName <> struct_class theDNList attributeName) | None => false end then
        mret (Some (MafFailure, []))
      else
        r ← read_members numInstances theDNList attributeName structDn ret (rev (getStructMembers theDNList attributeName));
        if bool_decide (fst r = MafFailure) then mret (Some (MafFailure, []))
        else
          rest ← read_structs numInstances theDNList attributeName (fst r) refs;
          mret (match rest with Some (ret, l) => Some (ret, snd r :: l) | None => None end)
  end.
Definition readStructFromImm (numInstances : Z) (dn attributeName : string) : X (MafReturnT * option ReadValue) :=
  let theDNList := GlobalSplitDN dn in
  structRef ← getImmMoAttributeSimple numInstances dn attributeName MafOamSpiMoAttributeType_3_REFERENCE false;
  match structRef with
  | (MafOk, Some (_, refs)) =>
      l ← read_structs numInstances theDNList attributeName MafOk refs;
      mret match l with
        | None => (MafOk, Some (Structs []))
        | Some (ret, l) => if bool_decide (ret = MafOk) || bool_decide (ret = MafNotExist) then (MafOk, Some (Structs l)) else (MafFailure, None)
        end
  | (MafNotExist, _) => mret (MafOk, Some (Structs []))
  | _ => mret (MafFailure, None)
  end.

(** A text loses the name of the attribute when it starts with that and an equal sign. *)
Definition without_name (attributeName s : string) : string :=
  let front := attributeName +:+ "=" in
  if String.prefix front s then String.substring (String.length front) (String.length s) s else s.
Definition unnamed (attributeName : string) (v : MafValue) : X MafValue :=
  match v with TextAt (Some (_, s)) => mret (Text (without_name attributeName s)) | _ => exit BadPointer end.
Fixpoint unnamed_all (attributeName : string) (l : list MafValue) : X (list MafValue) :=
  match l with [] => mret [] | v :: l => v ← unnamed attributeName v; l ← unnamed_all attributeName l; mret (v :: l) end.

Definition getImmMoAttribute (numInstances : Z) (dn attributeName : string) : X (MafReturnT * option ReadValue) :=
  let theDNList := GlobalSplitDN dn in
  if negb (IsDnListValid theDNList attributeName) then invalidModelDetected attributeName ;; mret (MafFailure, None)
  else
    let isKeyAttribute := isImmKeyAttribute (parent_class_of theDNList) (class_of theDNList) attributeName in
    let strAttrName := if isKeyAttribute then getImmKeyAttribute (parent_class_of theDNList) (class_of theDNList) attributeName else attributeName in
    r ← (if isStructAttribute theDNList attributeName then readStructFromImm numInstances dn strAttrName
         else
           r ← getImmMoAttributeSimple numInstances dn strAttrName (GetComAttributeType theDNList attributeName) isKeyAttribute;
           mret (fst r, Values <$> snd r)
         : X (MafReturnT * option ReadValue));
    match r with
    | (retVal, Some (Values (Some type, vs))) =>
        if type =? MafOamSpiMoAttributeType_3_STRING then vs ← unnamed_all attributeName vs; mret (retVal, Some (Values (Some type, vs))) else mret r
    | _ => mret r
    end.
End reading.

(** ** The calls of the MAF: the context is looked up *)
Definition with_context {A} (none : A) (txHandle : Z) (m : Z -> X A) : M txE (Repo CacheData) A :=
  p ← getTxContext txHandle; match p with None => mret none | Some p => on p m end.
Definition serve_delete (txHandle : Z) (dn : string) := with_context MafNotExist txHandle (fun n => deleteImmMo n dn).
Definition serve_exists (txHandle : Z) (dn : string) := with_context (MafNotExist, false) txHandle (fun _ => existsImmMo dn).
Definition serve_get isImmKeyAttribute isStructAttribute GetComAttributeType getStructMembers getStructMemberComDatatype (txHandle : Z) (dn attributeName : string) :=
  with_context (MafNotExist, None) txHandle (fun n => getImmMoAttribute isImmKeyAttribute isStructAttribute GetComAttributeType getStructMembers getStructMemberComDatatype n dn attributeName).
Definition serve_set (txHandle : Z) (dn attributeName : string) (v : AvcBody ()) := with_context MafNotExist txHandle (fun n => setImmMoAttribute v attributeName n dn).
Definition serve_create (txHandle : Z) (parentDn className key value : string) (l : list (string * AvcBody ())) :=
  if negb (all_graph value) then mret MafInvalidArgument
  else with_context MafNotExist txHandle (fun n => createImmMo n parentDn className key value l).
End access.
