(* ===== verification/TxAccessProps.v ===== *)
(** * Transactions: theorems about managed objects

    A transaction sees its own changes: an object that it has created exists, one that it has deleted
    does not, with all below it, and an attribute reads as it was set; IMM is not asked. *)
From Stdlib Require Import ZArith Lia.
From stdpp Require Import base gmap list strings sorting.
From S2P Require Import Prelude Marks Codes StdMap CmTypes NtfData NtfInfo NtfCmValues TxDeleted TxDeletedProps TxData TxCommands TxBridge TxSpi TxFacts TxProps TxValues TxModified TxCacheProps TxAccess.

Open Scope Z_scope.

(** ** Runs *)
Lemma bind_run {E S A B} (m : M E S A) (k : A -> M E S B) c a c' : m c = (Ret a, c') -> (m ≫= k) c = k a c'.
Proof. intros Hm. unfold mbind, M_bind. by rewrite Hm. Qed.
Lemma emits_run {E S X A} (f : event E -> option X) (m : M E S A) s (Q : A -> S -> list X -> Prop) tr a s' tr' :
  emits f m s Q -> m (s, tr) = (Ret a, (s', tr')) -> exists l, Q a s' l.
Proof. intros Hm Hr. specialize (Hm tr). unfold post in Hm. rewrite Hr in Hm. destruct Hm as (new & _ & HQ). by eexists. Qed.

Section runs.
Implicit Types (t : TxContext CacheData).
Lemma look_run {A} (f : CacheData -> option A) t tr a : f (lists (mCache t)) = Some a -> look f (t, tr) = (Ret a, (t, tr)).
Proof. intros Hf. unfold look. rewrite (bind_run get _ _ t (t, tr)) by done. by rewrite Hf. Qed.
Lemma emits_look {A} (f : CacheData -> option A) t (Q : A -> TxContext CacheData -> list ccb_event -> Prop) :
  (forall a, f (lists (mCache t)) = Some a -> Q a t []) -> emits ccb_mark (look f) t Q.
Proof. intros HQ. unfold look. by apply emits_bind, emits_get, emits_of_option. Qed.
Lemma emits_change {A} (f : CacheData -> option (A * CacheData)) t (Q : A -> TxContext CacheData -> list ccb_event -> Prop) :
  (forall a c, f (lists (mCache t)) = Some (a, c) -> Q a (set_cache (set_lists c (mCache t)) t) []) -> emits ccb_mark (change f) t Q.
Proof.
  intros HQ. unfold change. apply emits_bind, emits_get, emits_bind, emits_of_option. intros [a c] Hf. apply emits_bind, emits_modify, emits_ret. cbn. by apply HQ.
Qed.
End runs.

(** ** What is deleted *)
Lemma covered_change dn e : covered dn e = false -> covered dn (change_at dn take_back e) = false.
Proof.
  revert e. induction dn as [|x dn IH]; intros e.
  - rewrite !covered_nil. cbn [change_at]. unfold take_back. by destruct (IsActive e) eqn:Ea.
  - rewrite !covered_cons. intros [Ha Hc]%orb_false_iff. cbn [change_at]. change (IsActive (change_below _ e)) with (IsActive e). rewrite Ha. cbn [orb].
    change (below (change_below ?f e)) with (f (below e)). cbn beta. rewrite find_update, decide_True by done. destruct (map_find (below e) x) as [c|]; [|done]. by apply IH.
Qed.
Lemma Remove_not_deleted dn m m' : IsDeleted dn m = Some false -> Remove dn m = Some m' -> IsDeleted dn m' = Some false.
Proof.
  intros Hd Hr. destruct dn as [|x dn]; [done|]. rewrite IsDeleted_covered in Hd |- * by done. injection Hd as Hd. rewrite (remove_root _ _ _ _ Hr). f_equal. by apply covered_change.
Qed.
Lemma Insert_covers dn imm m m' dn' : sorted_list m -> IsDeleted dn m = Some false -> TxDeleted.Insert dn imm m = Some m' -> dn `prefix_of` dn' -> IsDeleted dn' m' = Some true.
Proof.
  intros Hs (x & dn0 & -> & Hc)%not_deleted_path Hi Hp. apply not_covered_first in Hi as Hr; [|done]. destruct dn' as [|y dn']; [by apply prefix_nil_inv in Hp|].
  rewrite IsDeleted_covered by done. f_equal. rewrite Hr, covered_insert by done. unfold is_prefix. by rewrite bool_decide_true, orb_true_r.
Qed.

Section access.
Context (env : environment txE) (lm lock_mo : bool).
Context (IsDnListValid : list string -> string -> bool) (MO2Imm_DN Imm2MO_DN : string -> string).
Context (getImmKeyAttribute : string -> string -> string -> string) (TransformImmClassName : list string -> string -> string).
Context (GetComAttributeList : list string -> list MafOamSpiMoAttributeT) (findAttributeTypeName : list string -> string -> string).
Context (GetImmAttributeData : string -> string -> option SaImmValueTypeT) (GetClassNameFromImm : string -> option string) (read_locks : bool).
Implicit Types (t : TxContext CacheData).
Abbreviation emits := (Marks.emits ccb_mark).
Abbreviation calm m := (Marks.calm ccb_mark kept m).
Abbreviation create := (createImmMo env lm lock_mo IsDnListValid MO2Imm_DN Imm2MO_DN getImmKeyAttribute TransformImmClassName GetComAttributeList findAttributeTypeName GetImmAttributeData GetClassNameFromImm read_locks).
Abbreviation set := (setImmMoAttribute env lm lock_mo IsDnListValid MO2Imm_DN Imm2MO_DN getImmKeyAttribute TransformImmClassName findAttributeTypeName GetImmAttributeData GetClassNameFromImm read_locks).
Abbreviation exists_mo := (existsImmMo env IsDnListValid MO2Imm_DN).
Abbreviation cached t := (lists (mCache t)).

Lemma calm_lockDn n dn scope : calm (lockDn env lm n dn scope : M txE (TxContext CacheData) _).
Proof. unfold lockDn. apply calm_bind; [apply calm_checkSetAdminOwner|intros rc]. apply calm_bind; [apply calm_get|intros t]. apply calm_ret. Qed.
Lemma calm_unlockDn dn scope : calm (unLockDnOnFailure env lm dn scope : M txE (TxContext CacheData) _).
Proof. unfold unLockDnOnFailure. apply calm_bind; [apply calm_releaseAdminOwner|intros rc]. apply calm_ret. Qed.
(** The object is owned first, or it is not; the cache is the same. *)
Lemma locking {B} (b : bool) n dn scope (k : MafReturnT -> M txE (TxContext CacheData) B) t Q :
  (forall rc t', cached t' = cached t -> emits (k rc) t' Q) -> emits ((if b then lockDn env lm n dn scope else mret MafOk) ≫= k) t Q.
Proof.
  intros Hk. apply (calm_then ccb_mark kept); [destruct b; [apply calm_lockDn|apply calm_ret]|]. intros rc t' Ht. apply Hk. by injection Ht.
Qed.
Lemma emits_get_then {B} (k : TxContext CacheData -> M txE (TxContext CacheData) B) t Q : emits (k t) t Q -> emits (get ≫= k) t Q.
Proof. intros Hk. by apply emits_bind, emits_get. Qed.
(** The end of a call: what was taken is given back when the call has failed. *)
Lemma giving_back {B} (b : bool) dn scope (v : B) t (Q : B -> TxContext CacheData -> list ccb_event -> Prop) :
  (forall t', cached t' = cached t -> Q v t' []) -> emits (when b (unLockDnOnFailure env lm dn scope ;; mret ()) ;; mret v) t Q.
Proof.
  intros HQ. apply (calm_then ccb_mark kept).
  - destruct b; [|apply calm_ret]. apply calm_bind; [apply calm_unlockDn|intros rc; apply calm_ret].
  - intros _ t' Ht. apply emits_ret, HQ. by injection Ht.
Qed.
Lemma calm_invalid cls : calm (invalidModelDetected env cls).
Proof. unfold invalidModelDetected. repeat (apply calm_bind; [by apply calm_call|intros ?]). apply calm_ret. Qed.
Lemma invalid_then {B} cls (v : B) t (Q : B -> TxContext CacheData -> list ccb_event -> Prop) : (forall t', Q v t' []) -> emits (invalidModelDetected env cls ;; mret v) t Q.
Proof. intros HQ. apply (calm_then ccb_mark kept); [apply calm_invalid|]. intros _ t' _. by apply emits_ret. Qed.

(** ** Looking for objects *)
Lemma exists_deleted dn t tr : IsDnListValid (GlobalSplitDN dn) "" = true -> IsDeleted (GlobalSplitDN dn) (myDeletedObjectsList (cached t)) = Some true ->
  exists_mo dn (t, tr) = (Ret (MafOk, false), (t, tr)).
Proof. intros Hv Hd. unfold existsImmMo. rewrite Hv. cbn [negb]. by rewrite (bind_run _ _ _ true (t, tr)) by by apply look_run. Qed.
Lemma exists_in_cache dn t tr : IsDnListValid (GlobalSplitDN dn) "" = true -> IsDeleted (GlobalSplitDN dn) (myDeletedObjectsList (cached t)) = Some false ->
  IsInCache (GlobalSplitDN dn) (cached t) = Some true -> exists_mo dn (t, tr) = (Ret (MafOk, true), (t, tr)).
Proof.
  intros Hv Hd Hc. unfold existsImmMo. rewrite Hv. cbn [negb]. rewrite (bind_run _ _ _ false (t, tr)) by by apply look_run.
  by rewrite (bind_run _ _ _ true (t, tr)) by by apply look_run.
Qed.

(** ** Creating *)
Lemma in_cache_after dn f c d : dn <> [] -> inner f -> wf_tree (myModifiedObjectsList c) -> IsInCache dn (MkCacheData (AddNames dn f (myModifiedObjectsList c)) d) = Some true.
Proof.
  intros Hdn Hf Hw. unfold IsInCache, Find. rewrite bool_decide_eq_false_2 by done. cbn [myModifiedObjectsList]. f_equal. apply bool_decide_eq_true.
  pose proof (strip_AddNames dn f _ dn Hf Hw) as Hs. rewrite decide_True in Hs by done. destruct (node_at dn (AddNames dn f _)); [by eexists|done].
Qed.
Lemma emits_create_object n parent cls key value t : let dn := GlobalSplitDN (BuildObjectName parent cls key value) in
  wf_cache (cached t) -> IsDeleted dn (myDeletedObjectsList (cached t)) = Some false ->
  emits (create_object env lm lock_mo IsDnListValid MO2Imm_DN getImmKeyAttribute TransformImmClassName GetImmAttributeData n parent cls key value) t
    (fun r t' _ => fst r = MafOk -> IsDeleted dn (myDeletedObjectsList (cached t')) = Some false /\ IsInCache dn (cached t') = Some true).
Proof.
  intros dn [Hw _] Hd. assert (dn <> []) as Hdn by by destruct dn. unfold create_object. fold dn. destruct (negb (all_graph value)); [by apply emits_ret|].
  destruct (negb _); [by apply invalid_then|]. cbv zeta. apply emits_get_then, locking. intros rc t1 H1. case_bool_decide; [by apply emits_ret|].
  apply emits_bind, emits_look. intros gone Hg. rewrite H1, Hd in Hg. injection Hg as <-. apply emits_bind, emits_bind, emits_change. intros st c Hins.
  rewrite H1 in Hins. unfold InsertCreatedObject, InsertNewObject in Hins. rewrite bool_decide_eq_false_2 in Hins by done. cbn [maf_type maf_values] in Hins.
  destruct (mapM _ _) as [k|]; [|done]. injection Hins as <- <-. apply emits_ret, emits_bind, emits_change. intros [] c Hrem. cbn [lists mCache set_cache set_lists] in Hrem.
  unfold RemoveDeletedObject in Hrem. cbn [myDeletedObjectsList] in Hrem. destruct (TxDeleted.Remove _ _) as [d|] eqn:Er; [|done]. injection Hrem as <-.
  apply giving_back. intros t' Ht _. rewrite Ht. cbn [lists mCache set_cache set_lists myDeletedObjectsList]. split; [by eapply Remove_not_deleted|].
  apply in_cache_after; [done|apply inner_new|done].
Qed.

(** ** Deleting *)
Lemma emits_deleteImmMo n dn t : wf_cache (cached t) -> IsDeleted (GlobalSplitDN dn) (myDeletedObjectsList (cached t)) = Some false ->
  (forall d, data <$> node_at (GlobalSplitDN dn) (myModifiedObjectsList (cached t)) = Some d -> myEntryKind d <> eModifiedEntryNewObject) ->
  emits (deleteImmMo env lm lock_mo IsDnListValid MO2Imm_DN n dn) t (fun rc t' _ => rc = MafOk ->
    forall dn', GlobalSplitDN dn `prefix_of` dn' -> IsDeleted dn' (myDeletedObjectsList (cached t')) = Some true).
Proof.
  clear Imm2MO_DN getImmKeyAttribute TransformImmClassName GetComAttributeList findAttributeTypeName GetImmAttributeData GetClassNameFromImm read_locks.
  intros [Hw Hs] Hd Hnew. unfold deleteImmMo. destruct (negb _); [by apply invalid_then|]. cbv zeta. apply emits_get_then, locking. intros rc t1 H1. case_bool_decide; [by apply emits_ret|].
  apply emits_bind, emits_change. intros was_new c Hr. rewrite H1 in Hr. unfold RemoveCreatedObject in Hr. destruct (RemoveObject _ _) as [[b e]|] eqn:Er; [|done]. injection Hr as <- <-.
  assert (b = false) as ->.
  { unfold RemoveObject in Er. destruct (GlobalSplitDN dn) as [|x rest]; [done|]. destruct (node_at _ _) as [c|]; [|by injection Er as <- <-]. destruct (last rest); [|done].
    injection Er as <- <-. unfold IsNewObject. apply bool_decide_eq_false. by apply Hnew. }
  apply emits_bind, emits_bind, emits_change. intros st c Hi. cbn [lists mCache set_cache set_lists] in Hi. unfold InsertDeletedObject in Hi. cbn [myDeletedObjectsList] in Hi.
  destruct (TxDeleted.Insert _ _ _) as [d|] eqn:Ei; [|done]. injection Hi as <- <-. apply emits_ret. rewrite bool_decide_eq_false_2 by tauto. cbn [andb].
  apply emits_bind, emits_ret, emits_ret. intros _ dn' Hp. cbn [lists mCache set_cache set_lists myDeletedObjectsList]. by eapply Insert_covers.
Qed.

(** ** Setting and reading *)
Lemma emits_update dn imm a v t (Q : MafReturnT -> TxContext CacheData -> list ccb_event -> Prop) :
  (forall st c, UpdateObjectAttribute GetImmAttributeData GetClassNameFromImm dn imm a v (cached t) = Some (st, c) ->
     Q (match st with eObjectSuccess => MafOk | _ => MafFailure end) (set_cache (set_lists c (mCache t)) t) []) ->
  emits (update GetImmAttributeData GetClassNameFromImm dn imm a v) t Q.
Proof. intros HQ. unfold update. apply emits_bind, emits_change. intros st c Hu. apply emits_ret. by apply HQ. Qed.
Lemma emits_setImmMoAttribute n dn a type p vs ds ty t : let l := GlobalSplitDN dn in
  wf_cache (cached t) -> type <> MafOamSpiMoAttributeType_3_STRUCT -> values_of type vs = Some ds -> vs <> [] ->
  type_at GetImmAttributeData GetClassNameFromImm l (MO2Imm_DN dn) a (myModifiedObjectsList (cached t)) = Some ty ->
  emits (set (MkAvc type p vs) a n dn) t (fun rc t' _ => rc = MafOk -> IsDnListValid l a = true /\ IsDeleted l (myDeletedObjectsList (cached t')) = Some false /\
    exists m i h, attribute_at l a (myModifiedObjectsList (cached t')) = Some (MkContainer m i h (SetSaImmValueType ty <$> ds))).
Proof.
  intros l [Hw _] Hty Hds Hvs Ht. cbn [setImmMoAttribute]. cbv zeta. fold l. destruct (IsDnListValid l a) eqn:Hv; cbn [negb]; [|by apply invalid_then].
  apply emits_get_then, locking. intros rc t1 H1. case_bool_decide; [by apply emits_ret|]. apply emits_bind, emits_look. intros gone Hg. rewrite H1 in Hg.
  apply emits_bind. destruct gone; [apply emits_ret, giving_back; done|]. rewrite (proj2 (Z.eqb_neq _ _) Hty). apply emits_update. intros st c Hu. rewrite H1 in Hu.
  assert (l <> []) as Hl by by destruct l. destruct (Insert_values GetImmAttributeData GetClassNameFromImm l (MO2Imm_DN dn) a type vs ds ty _ Hl Hds Hvs Ht Hw) as (e & m & i & h & He & Hat).
  unfold UpdateObjectAttribute in Hu. rewrite Hg in Hu. cbn [mbind option_bind] in Hu. rewrite He in Hu. injection Hu as <- <-.
  apply giving_back. intros t' Ht' _. rewrite Ht'. cbn [lists mCache set_cache set_lists myDeletedObjectsList myModifiedObjectsList]. split; [done|]. split; [done|].
  exists m, i, h. by rewrite Hat, decide_True.
Qed.

(** C34. A transaction sees the objects that it has created.  When [createImmMo], without initial attributes, has answered [MafOk]
    for an object that this transaction had not deleted, nor an object above it, and whose name the translator accepts, [existsImmMo] says that it
    exists, without asking IMM, whatever IMM holds.  (A deleted one is not put into the cache, [OamSAImmBridge.cc:1820].) *)
Theorem created_object_exists n parent cls key value t tr t' tr' : let dn := BuildObjectName parent cls key value in
  wf_cache (cached t) -> IsDeleted (GlobalSplitDN dn) (myDeletedObjectsList (cached t)) = Some false -> IsDnListValid (GlobalSplitDN dn) "" = true ->
  create n parent cls key value [] (t, tr) = (Ret MafOk, (t', tr')) ->
  exists_mo dn (t', tr') = (Ret (MafOk, true), (t', tr')).
Proof.
  intros dn Hw Hd Hv Hr. apply (emits_run ccb_mark _ _ (fun rc t' _ => rc = MafOk -> IsDeleted (GlobalSplitDN dn) (myDeletedObjectsList (cached t')) = Some false /\
    IsInCache (GlobalSplitDN dn) (cached t') = Some true)) in Hr as (_ & Hr).
  - destruct (Hr eq_refl) as [Hd' Hc]. by apply exists_in_cache.
  - unfold createImmMo. apply emits_bind. eapply emits_mono; [by apply emits_create_object|]. intros r t1 l Hq. cbn beta in Hq. rewrite (bool_decide_eq_true_2 (length _ = _)), orb_true_r by done. by apply emits_ret.
Qed.

(** C35. A transaction sees what it has deleted.  When [deleteImmMo] has answered [MafOk] for an object that this transaction had
    neither made itself nor deleted before, nor an object above it, [existsImmMo] says of it and of every object below it, of which the
    translator accepts the name, that it does not exist, without asking IMM.  (Deleting a new object only takes it out of the cache, [RemoveObject_removes]; deleting one for the second time
    takes the deletion back, [deleted_twice_exists].) *)
Theorem deleted_object_is_gone n dn t tr t' tr' : wf_cache (cached t) -> IsDeleted (GlobalSplitDN dn) (myDeletedObjectsList (cached t)) = Some false ->
  (forall d, data <$> node_at (GlobalSplitDN dn) (myModifiedObjectsList (cached t)) = Some d -> myEntryKind d <> eModifiedEntryNewObject) ->
  deleteImmMo env lm lock_mo IsDnListValid MO2Imm_DN n dn (t, tr) = (Ret MafOk, (t', tr')) ->
  forall dn', GlobalSplitDN dn `prefix_of` GlobalSplitDN dn' -> IsDnListValid (GlobalSplitDN dn') "" = true -> exists_mo dn' (t', tr') = (Ret (MafOk, false), (t', tr')).
Proof.
  clear Imm2MO_DN getImmKeyAttribute TransformImmClassName GetComAttributeList findAttributeTypeName GetImmAttributeData GetClassNameFromImm read_locks.
  intros Hw Hd Hnew Hr dn' Hp Hv. eapply (emits_run ccb_mark) in Hr as (k & Hr); [|by apply emits_deleteImmMo]. apply exists_deleted; [done|]. by apply Hr.
Qed.

(** What was set, as a read of one attribute finds it in the cache. *)
Lemma simple_reads_own n n' dn a type p vs ds ty attrType t tr t' tr' : wf_cache (cached t) -> type <> MafOamSpiMoAttributeType_3_STRUCT ->
  values_of type vs = Some ds -> vs <> [] -> Forall (fun v => forall s, text_of v = Some s -> s <> None) vs ->
  type_at GetImmAttributeData GetClassNameFromImm (GlobalSplitDN dn) (MO2Imm_DN dn) a (myModifiedObjectsList (cached t)) = Some ty ->
  set (MkAvc type p vs) a n dn (t, tr) = (Ret MafOk, (t', tr')) ->
  IsDnListValid (GlobalSplitDN dn) a = true /\ exists rs, getImmMoAttributeSimple env lm IsDnListValid MO2Imm_DN Imm2MO_DN TransformImmClassName GetImmAttributeData read_locks n' dn a attrType false (t', tr') =
      (Ret (MafOk, Some (Some type, rs)), (t', tr')) /\ (member type <$> rs) = (member type <$> vs).
Proof.
  intros Hw Hty Hds Hvs Htx Ht Hr. eapply (emits_run ccb_mark) in Hr as (k & Hr); [|by apply (emits_setImmMoAttribute n dn a type p vs ds ty)].
  destruct (Hr eq_refl) as (Hv & Hd & m & i & h & Hat). destruct (attribute_lent type ty vs ds m i h Hds Hvs Htx) as (rs & Hrs & Hm). split; [done|]. exists rs. split; [|done].
  unfold getImmMoAttributeSimple. rewrite Hv. cbn [negb]. rewrite (bind_run _ _ _ false (t', tr')) by by apply look_run.
  rewrite (bind_run _ _ _ (eObjectSuccess, Some (Some type, rs)) (t', tr')).
  - rewrite (bind_run _ _ _ rs (t', tr')); [done|]. unfold key_value. by destruct rs as [|v [|w rs]].
  - apply look_run. unfold GetAttribute. rewrite attribute_at_eq, decide_False by by destruct (GlobalSplitDN dn). rewrite Hat. cbn [mbind option_bind]. by rewrite Hrs.
Qed.

(** The name of the attribute is taken off the values of a read that are texts. *)
Definition lent (a : string) (type : Z) (m : option Member) : option Member :=
  match m with
  | Some (Chars (Some s)) => Some (Chars (Some (if type =? MafOamSpiMoAttributeType_3_STRING then without_name a s else s)))
  | _ => m
  end.
Lemma lent_other a type m : type <> MafOamSpiMoAttributeType_3_STRING -> lent a type m = m.
Proof. intros Ht. unfold lent. rewrite (proj2 (Z.eqb_neq _ _) Ht). by destruct m as [[|[]]|]. Qed.
Lemma unnamed_run a (vs : list MafValue) ss (c : TxContext CacheData * list (event txE)) :
  (member MafOamSpiMoAttributeType_3_STRING <$> vs) = ((fun s => Some (Chars (Some s))) <$> ss) ->
  exists rs, unnamed_all a vs c = (Ret rs, c) /\
    (member MafOamSpiMoAttributeType_3_STRING <$> rs) = (lent a MafOamSpiMoAttributeType_3_STRING ∘ member MafOamSpiMoAttributeType_3_STRING <$> vs).
Proof.
  revert ss. induction vs as [|v vs IH]; intros [|s ss] Hv; try discriminate Hv; [by exists []|]. injection Hv as Hm Hv.
  destruct (IH ss Hv) as (rs & Hrs & Hms). destruct v as [z|[[[] x]|]|l]; try discriminate Hm. injection Hm as ->.
  exists (Text (without_name a s) :: rs). split; [|cbn; by rewrite Hms]. cbn [unnamed_all].
  rewrite (bind_run _ _ _ (Text (without_name a s)) c) by done. by rewrite (bind_run _ _ _ rs c).
Qed.
(** Texts are made of texts. *)
Lemma values_are_texts vs ds : values_of MafOamSpiMoAttributeType_3_STRING vs = Some ds -> Forall (fun v => forall s, text_of v = Some s -> s <> None) vs ->
  exists ss, (member MafOamSpiMoAttributeType_3_STRING <$> vs) = ((fun s => Some (Chars (Some s))) <$> ss).
Proof.
  revert ds. induction vs as [|v vs IH]; intros ds; [by exists []|]. intros (d & ds' & Hd & Hds & ->)%values_of_cons [Hv Hvs]%Forall_cons.
  destruct (IH ds' Hds Hvs) as [ss Hss]. destruct v as [z|[[[] x]|]|l]; try discriminate Hd; [|by destruct (Hv None)].
  exists (x :: ss). cbn. by rewrite Hss.
Qed.

Section reading.
Context (isImmKeyAttribute : string -> string -> string -> bool) (isStructAttribute : list string -> string -> bool).
Context (GetComAttributeType : list string -> string -> Z) (getStructMembers : list string -> string -> list string) (getStructMemberComDatatype : list string -> string -> string -> option Z).
Abbreviation read := (getImmMoAttribute env lm IsDnListValid MO2Imm_DN Imm2MO_DN getImmKeyAttribute TransformImmClassName GetComAttributeList GetImmAttributeData GetClassNameFromImm read_locks
  isImmKeyAttribute isStructAttribute GetComAttributeType getStructMembers getStructMemberComDatatype).

(** C33. A transaction reads what it has written.  When [setImmMoAttribute] has answered [MafOk] for at least one value of an attribute that is
    no struct and no key, of which IMM knows the type, then [getImmMoAttribute], with which COM reads, answers with the same values of the same type, and
    asks nobody; but a text that starts with the name of the attribute and an equal sign comes back without them ([lent]).  (Texts are
    not null.) *)
Theorem own_writes_are_read n n' dn a type p vs ds ty t tr t' tr' : wf_cache (cached t) -> type <> MafOamSpiMoAttributeType_3_STRUCT ->
  isStructAttribute (GlobalSplitDN dn) a = false -> isImmKeyAttribute (parent_class_of (GlobalSplitDN dn)) (class_of (GlobalSplitDN dn)) a = false ->
  values_of type vs = Some ds -> vs <> [] -> Forall (fun v => forall s, text_of v = Some s -> s <> None) vs ->
  type_at GetImmAttributeData GetClassNameFromImm (GlobalSplitDN dn) (MO2Imm_DN dn) a (myModifiedObjectsList (cached t)) = Some ty ->
  set (MkAvc type p vs) a n dn (t, tr) = (Ret MafOk, (t', tr')) ->
  exists rs, read n' dn a (t', tr') = (Ret (MafOk, Some (Values (Some type, rs))), (t', tr')) /\ (member type <$> rs) = (lent a type ∘ member type <$> vs).
Proof.
  intros Hw Hty Hst Hk Hds Hvs Htx Ht Hr. destruct (simple_reads_own n n' dn a type p vs ds ty (GetComAttributeType (GlobalSplitDN dn) a) t tr t' tr') as (Hv & rs & Hrs & Hm); [done..|].
  unfold getImmMoAttribute. rewrite Hv, Hst, Hk. cbn [negb]. cbv zeta.
  rewrite (bind_run _ _ _ (MafOk, Some (Values (Some type, rs))) (t', tr')) by by rewrite (bind_run _ _ _ (MafOk, Some (Some type, rs)) (t', tr')).
  destruct (Z.eqb_spec type MafOamSpiMoAttributeType_3_STRING) as [->|Hne].
  - destruct (values_are_texts vs ds Hds Htx) as [ss Hss]. destruct (unnamed_run a rs ss (t', tr')) as (rs' & Hrs' & Hm'); [by rewrite Hm|].
    exists rs'. split; [by rewrite (bind_run _ _ _ rs' (t', tr'))|]. by rewrite Hm', list_fmap_compose, Hm, <- list_fmap_compose.
  - exists rs. split; [done|]. rewrite Hm. apply list_fmap_ext. intros i v _. cbn. by rewrite lent_other.
Qed.
End reading.
End access.

(** ** Concrete inputs *)
Definition demo_valid (dn : list string) (a : string) : bool := true.
Definition demo_access : environment txE := demo_imm always_ok always_ok.
Definition demo_create := createImmMo demo_access false true demo_valid id id (fun _ _ key => key) (fun _ cls => cls) (fun _ => []) (fun _ _ => "") demo_type demo_class false
  1 "top=1" "Sub" "subId" "3" [] (demo_tx, demo_filled.2).
Definition demo_delete := deleteImmMo demo_access false true demo_valid id 1 "top=1,old=4" (demo_tx, demo_filled.2).
Definition demo_set := setImmMoAttribute demo_access false true demo_valid id id (fun _ _ key => key) (fun _ cls => cls) (fun _ _ => "") demo_type demo_class false
  (MkAvc MafOamSpiMoAttributeType_3_STRING None [Text "color=red"; Text "blue"]) "color" 1 "top=1,sub=2" (demo_tx, demo_filled.2).
Lemma demo_tx_wf : wf_cache (lists (mCache demo_tx)).
Proof. exact (reachable_wf _ _ _ demo_reachable). Qed.

Lemma created_object_exists_witness : existsImmMo demo_access demo_valid id "top=1,Sub=3" (demo_create.2.1, demo_create.2.2) = (Ret (MafOk, true), (demo_create.2.1, demo_create.2.2)).
Proof.
  apply (created_object_exists demo_access false true demo_valid id id (fun _ _ key => key) (fun _ cls => cls) (fun _ => []) (fun _ _ => "") demo_type demo_class false
    1 "top=1" "Sub" "subId" "3" demo_tx demo_filled.2 demo_create.2.1 demo_create.2.2).
  - exact demo_tx_wf.
  - reflexivity.
  - reflexivity.
  - vm_compute. reflexivity.
Defined.
Lemma deleted_object_is_gone_witness : existsImmMo demo_access demo_valid id "top=1,old=4,leaf=1" (demo_delete.2.1, demo_delete.2.2) = (Ret (MafOk, false), (demo_delete.2.1, demo_delete.2.2)).
Proof.
  apply (deleted_object_is_gone demo_access false true demo_valid id 1 "top=1,old=4" demo_tx demo_filled.2 demo_delete.2.1 demo_delete.2.2).
  - exact demo_tx_wf.
  - reflexivity.
  - intros d. vm_compute. discriminate.
  - vm_compute. reflexivity.
  - by exists ["leaf=1"].
  - reflexivity.
Defined.
Definition demo_read := getImmMoAttribute demo_access false demo_valid id id (fun _ _ key => key) (fun _ cls => cls) (fun _ => []) demo_type demo_class false
  (fun _ _ _ => false) (fun _ _ => false) (fun _ _ => MafOamSpiMoAttributeType_3_STRING) (fun _ _ => []) (fun _ _ _ => None) 1 "top=1,sub=2" "color".
(** The first text starts with the name of the attribute. *)
Lemma own_writes_are_read_witness : exists rs,
  demo_read (demo_set.2.1, demo_set.2.2) = (Ret (MafOk, Some (Values (Some MafOamSpiMoAttributeType_3_STRING, rs))), (demo_set.2.1, demo_set.2.2)) /\
  (member MafOamSpiMoAttributeType_3_STRING <$> rs) = [Some (Chars (Some "red")); Some (Chars (Some "blue"))].
Proof.
  apply (own_writes_are_read demo_access false true demo_valid id id (fun _ _ key => key) (fun _ cls => cls) (fun _ => []) (fun _ _ => "") demo_type demo_class false
    (fun _ _ _ => false) (fun _ _ => false) (fun _ _ => MafOamSpiMoAttributeType_3_STRING) (fun _ _ => []) (fun _ _ _ => None)
    1 1 "top=1,sub=2" "color" MafOamSpiMoAttributeType_3_STRING None [Text "color=red"; Text "blue"]
    [MkData SA_IMM_ATTR_SASTRINGT (OamSAStringData (Some "color=red")); MkData SA_IMM_ATTR_SASTRINGT (OamSAStringData (Some "blue"))] SA_IMM_ATTR_SASTRINGT
    demo_tx demo_filled.2 demo_set.2.1 demo_set.2.2).
  - exact demo_tx_wf.
  - discriminate.
  - reflexivity.
  - reflexivity.
  - reflexivity.
  - discriminate.
  - repeat constructor; by intros s [= <-].
  - reflexivity.
  - vm_compute. reflexivity.
Defined.

(** When IMM has lost the handle of the cache, new handles are made, but the old one is used again: the answer is a
    failure although IMM would answer for the new one. *)
Definition demo_lost : environment txE := fun R tr e =>
  match e in txE R return R -> R with
  | saImmOmAccessorGet_2 h _ _ => fun _ => if h =? 99 then (SA_AIS_OK, []) else (SA_AIS_ERR_BAD_HANDLE, [])
  | saImmOmAccessorInitialize _ => fun _ => (SA_AIS_OK, 99)
  | _ => fun r => r
  end (demo_access R tr e).
Example lost_handle_is_used_again : fst (existsImmMo demo_lost demo_valid id "top=1,other=1" (demo_tx, [])) = Ret (MafFailure, false).
Proof. vm_compute. reflexivity. Qed.
